(* ===== verification/_CoqProject ===== *)
-Q . S2P
Prelude.v
Collections.v
Sdk.v
Identifiers.v
DeviceAccess.v
DeviceMachine.v
DeviceProps.v
OutputBuffer.v
Seccomp.v
SeccompMachine.v
SeccompProps.v
Wire.v
AgentModel.v
AgentRecovery.v
AgentSession.v
AgentSessionProps.v
GuestJournal.v
GuestExecutor.v
GuestService.v
GuestServiceProps.v
GuestAnswers.v
GuestExample.v
Lifecycle.v
Fault.v
OciState.v
Contracts.v
Capabilities.v
HostArtifact.v
StoreModel.v
Disk.v
RestoreContract.v
Journal.v
Events.v
Claims.v
Create.v
Start.v
Kill.v
Freezer.v
Update.v
ProcessStore.v
ProcessIoStore.v
FileStore.v
CheckpointStore.v
RestoreStore.v
AttestationStore.v
Delete.v
Observe.v
Driver.v
DriverRegistry.v
AgentDriver.v
UtilityVm.v
StartupAudit.v
HostService.v
HostContracts.v
Machine.v
Refine.v
RefineOps.v
RefineProcess.v
RefineContracts.v
Store.v
AuditCorrect.v
CgroupPlan.v
CgroupUpdate.v
Scenario.v
Guarantees.v
Replay.v
EventProps.v
OperationProps.v
ContractProps.v
Progress.v
Fencing.v
OperationGates.v
HostRefine.v
HostGuarantees.v
HostForget.v
HostValues.v
HostScenario.v
DriverHost.v
Recovery.v
Findings.v
