(* ===== verification/Prelude.v ===== *)
(** * A3S OCI runtime: verification of the host service, its store and the guest agent

    The runtime (a Rust workspace under crates/) runs OCI containers through
    drivers.  A host service (crates/runtime/src/service.rs) receives SDK
    requests, reserves each of them in a durable store
    (crates/runtime/src/state), calls a driver (native Linux, or a virtual
    machine with a guest agent), checks what the driver answered, commits it and
    lets the driver forget the operation.  The store is the single writer of a
    state root on disk and carries the guarantees of the system: requests are
    idempotent by operation ID, container IDs are fenced by generations, one
    lifecycle operation owns a container at a time, events form one ordered
    journal, and a host that stops anywhere can be restarted.  A guest agent
    (crates/agent) executes the requests that a virtual-machine driver sends
    over an authenticated connection (crates/agent-protocol), with a journal of
    its own, and confines containers with device and seccomp programs that it
    compiles.  This development models the host service, the store, the SDK
    types, validators and contracts they use (crates/sdk, crates/core), the
    driver that runs containers in utility virtual machines and its client of
    the guest agent, the agent protocol, and the journal, executor, device,
    seccomp, output and cgroup-update parts of the guest agent, and proves their
    guarantees.

    ** How the program is modelled

    Store operations are executable functions in the monad [M] of [Disk]: from a
    [World] (the state root, the state of the fault injector, the system clock)
    to a result and a new world.  An error keeps the changes that were committed
    before it, as an early return of the source does.  The state root ([Disk])
    is a record of finite maps, one per directory; a document is the value that
    was written.  A write runs through the seven commit stages of
    [atomic_write], each a fault point that an arbitrary injector may fail, so a
    theorem for every injector covers an interruption of every write; a host
    crash is such an interruption without the answer.  The store serialises its
    operations with a mutex ([gate]), so an operation is one atomic function of
    the world, and concurrent callers are sequences of calls
    ([Store.run_calls]).

    The host service adds the world outside the store ([HostService.HostWorld]):
    a driver is a record of functions over that world ([Driver.RuntimeDriver],
    the trait of driver.rs), of which nothing is assumed unless a theorem says
    so, and files are the class [HostArtifact.HostFiles].  A request is one
    function of the host's world; the gates that keep callers of one operation
    ID apart are a step relation of their own ([OperationGates]); requests of
    different IDs interleave in the code at the store's mutex, and here only as
    whole requests ([HostRefine.run_host]), which also reopens the host between
    requests with other drivers.

    The utility-VM driver is a record of its registry, its guests and the state
    of its environment ([UtilityVm.UtilityVm]); an [Arc] is a number, so that
    sharing and pointer comparisons are explicit.  [DriverHost] makes it an
    implementation of the driver interface, placed anywhere in the host's
    outside world.  Its client of a guest ([AgentDriver]) runs over any guest
    service, here one behind a link that loses requests and answers.

    The agent connection and the guest's journal are step relations over the
    executable handlers ([AgentSession.session_step], [GuestJournal.journal_step]),
    so that losses, cancellations and interleavings are explicit; the guest's
    executor is a function of its state and of a class of kernel operations
    ([GuestExecutor.GuestKernel]).

    Machine integers are [Z] with their bounds written out.  The loops of the
    store and of the host run over the finite content of a directory or a
    request and are folds or structural recursions.  Fuel occurs in few places:
    a device or seccomp program runs with its length as fuel, which is enough
    because jumps are forward ([DeviceProps], [SeccompMachine]); the verifier-log
    loop loads at most four times; [Wire.read_frames] has one unit per byte of
    the stream; a binary search has the length of its slice; the hash loop of an
    artifact has its expected size plus two, and reads at least a byte per turn.
    Loops that the code bounds by time take the number of polls ([polls]) or
    the clock's readings ([readings]) as parameters, and their theorems hold for
    all of them.

    What the code takes from elsewhere is a class: [Disk.StoreEnv] (fault
    injector, JSON and its length, SHA-256, OCI schema and semantic validators,
    configuration parser, attachment contract, base64), [Contracts.ContractEnv]
    with [Contracts.ContractLaws] (TEE annotations and evidence),
    [DriverRegistry.HostEnv] (platform, current artifact, attachment manifests),
    [Wire.Json]/[JsonLaws], [Wire.Sha256]/[Sha256Laws], [Seccomp.SeccompEnv] with
    [SeccompMachine.SeccompCompiler] (the seccompiler crate),
    [DeviceMachine.MachineLaws] (the two interpreters of device programs),
    [GuestExecutor.GuestKernel], [GuestService.GuestCanonical],
    [UtilityVm.UtilityVmEnv] with [UtilityVm.environment_ok] (launcher, handoff,
    recovery reports: a launch starts one new machine, a shutdown that succeeds
    stops its machine, nothing else starts one), [CgroupUpdate.CgroupFs] with
    [CgroupUpdate.CgroupLaws] (control files of the kernel: a refused write
    changes nothing, a write changes what it touches, a line written to a keyed
    file the entries it names; nobody else writes during an update).  Of the store's
    environment only [AuditCorrect.HexDigest] is assumed (a digest is 64
    lower-case hexadecimal digits); [Disk.quiet] (no fault, documents within
    the size bound) is a hypothesis of the progress theorems only.

    ** Files

    - [Prelude]: results, programs, their weakest preconditions, loops and the
      tactics [inv_ok] and [wp_go].  [Collections]: ordered sets and maps,
      sorting, slices and binary search of the standard library.
    - SDK and core: [Sdk] (error.rs, model.rs, validation.rs, process_io.rs),
      [Identifiers] (id.rs), [Lifecycle] (core crate), [Contracts],
      [RestoreContract] (tee.rs, checkpoint.rs and its modules,
      extension/artifact.rs), [Capabilities] (the capabilities of
      attachment.rs, extension.rs).  Each ends with the laws of its part.
    - Guest confinement: [DeviceAccess], [DeviceMachine], [DeviceProps]
      (executor/device/access.rs); [Seccomp], [SeccompMachine], [SeccompProps]
      (executor/seccomp.rs); [OutputBuffer] (executor/io.rs,
      session_supervisor/output_buffer.rs).
    - Resource updates: [CgroupPlan], [CgroupUpdate] (executor/cgroup/update.rs,
      hugetlb.rs, unified.rs, io.rs, rdma.rs and their modules).
    - Agent protocol: [Wire] (wire.rs of the protocol and the SDK),
      [AgentModel] (model.rs, validation.rs), [AgentRecovery] (recovery.rs),
      [AgentSession], [AgentSessionProps] (client.rs, server.rs).
    - Guest agent: [GuestJournal] (executor/state.rs), [GuestExecutor],
      [GuestService], [GuestServiceProps], [GuestAnswers], [GuestExample]
      (executor/mod.rs, exec.rs, process.rs, process_io.rs, filesystem.rs).
    - Store: [Fault] (fault.rs), [StoreModel], [OciState], [Disk], [Journal],
      [Events], [Claims], and an operation group per file: [Create], [Start],
      [Kill], [Freezer], [Update], [ProcessStore], [ProcessIoStore],
      [FileStore], [CheckpointStore], [RestoreStore], [AttestationStore],
      [Delete], [Observe], and [StartupAudit] (the files of state/ with the
      corresponding names).
    - Drivers: [AgentDriver] (agent_driver.rs), [UtilityVm]
      (utility_vm_driver.rs, utility_vm_driver/sessions.rs,
      session_lifecycle.rs, attachment/guest_session.rs of the SDK).
    - Host: [Driver] (driver.rs), [DriverRegistry] (service/driver_registry.rs),
      [HostArtifact] (service/artifact.rs), [HostService], [HostContracts],
      [OperationGates] (service.rs).
    - [Machine]: the abstract store.  [astep] lists the durable changes that are
      allowed, [store_inv] is the invariant they preserve and [disk_le] what
      they never undo.
    - [Refine], [RefineOps], [RefineProcess], [RefineContracts], [Store]: every
      store operation, under every injector, moves the state root along [astep].
      [HostRefine]: so does every request of the host, with every driver.
    - [AuditCorrect]: the audits accept what the invariant describes.
    - [Guarantees], [Replay], [EventProps], [OperationProps], [ContractProps],
      [Progress], [Fencing], [Recovery]: properties of the store.
      [HostGuarantees], [HostForget], [HostValues]: of the host.
    - [DriverHost]: the utility-VM driver under the host, with concrete guests
      and machines.  [Scenario], [HostScenario]: concrete
      environments, drivers and histories for the witnesses.  [Findings]:
      defects.

    ** What the theorems show

    - Refinement ([Guarantees], [HostGuarantees]): any calls with any faults and
      any drivers follow the abstract machine; outcomes are final, records are
      never lost, generations are unique, the event journal only grows, and a
      restart accepts the journals.
    - The contract between host, store and drivers ([HostGuarantees],
      [HostForget], [OperationGates]): an answer is journaled before it is given
      and stays; a settled operation never reaches a driver again; a driver is
      told to forget only settled operations; callers of one operation ID
      exclude each other.
    - Idempotency and fencing in the store ([Replay], [Fencing], [EventProps]).
    - Contracts ([ContractProps], [HostArtifact], [DriverRegistry],
      [Capabilities], [Contracts]): completed checkpoints, restores and
      attestations are bound to their requests and records, accepted artifacts
      have the referenced content, the published catalog agrees with the
      routing.
    - The guest ([GuestJournal], [GuestServiceProps], [GuestAnswers]): effects run at most once, retries
      replay, generations never return, answers and shutdown evidence pass the
      host's checks.
    - Drivers ([UtilityVm], [AgentDriver], [DriverHost]): no machine runs that
      the registry does not own, sessions stay within their capacity, a shutdown
      is complete and final, also under the host with any faults; standard input
      reaches the guest exactly once over a link that loses messages.
    - Confinement ([DeviceProps], [SeccompProps]): compiled programs decide the
      configured policy, terminate, and can be installed.
    - Resource updates ([CgroupUpdate]): an update changes all that it was asked
      for or, unless its rollback fails and it says so, nothing.
    - Transport and data ([Wire], [AgentSessionProps], [AgentRecovery],
      [OutputBuffer], [HostValues]): frames, calls, recovery
      reports and process output arrive as they were sent.
    - Progress ([Progress]), commits ([Disk]), values ([Identifiers], [Sdk],
      [OciState], [Lifecycle]), single operations ([OperationProps], [Recovery]).
    - States and answers that contradict the code's own rules or documentation
      ([Findings], [GuestExample], [DeviceProps], and at the end of
      [AgentDriver] and [UtilityVm]).

    ** What is not modelled

    Error messages are kept as their format templates.  Path resolution,
    permissions, links and the root lock of the state directory are operating-
    system code; the disk model has only the entries that the store creates.
    Pending [.next] files are kept where a reader does not skip them, in the
    process directories.  The wait of an event poll (a notification with a
    timeout) is not modelled, the poll is.  Of the host service, the features
    report, reading the executable's own digest, and the Windows branch of the
    artifact check are not modelled.  Of the utility-VM driver, callers that are
    dropped in the middle of a call (the detached cleanups of the code), the
    transfer of bundles into its shares, and how a surviving machine is found
    and connected to are not modelled; the theorems on machines assume that none
    survives its driver.  Of cgroups, creating and configuring a new one and
    replacing the device program in an update are not modelled.  The set-up of
    the native, KVM, HVF and WHPX drivers,
    the guest's start-up, planning, recovery after an agent restart and session
    supervision, the attachment manifests and OCI validators of the SDK,
    transports, the command line, the containerd shim and the libkrun launcher
    are outside: they are operating-system calls, or stand as parameters.

    ** What could follow

    The claim invariants (every claim names a journaled, prepared operation) and
    the audit of containers and quarantine from them; progress of the other
    operations through the host; attachment manifests and their digests; the
    bundle handoff of the utility-VM driver; guest recovery and session
    supervision. *)

From stdpp Require Import base gmap strings list pretty relations.

(** ** Fallible results *)

(** [Result<T>] of the Rust sources, over an error type that the SDK file
    fixes once. *)
Inductive result (E A : Type) : Type :=
  | Ok (a : A)
  | Err (e : E).
Arguments Ok {E A} a.
Arguments Err {E A} e.

Definition is_ok {E A} (r : result E A) : bool :=
  match r with Ok _ => true | Err _ => false end.

Definition rbind {E A B} (r : result E A) (k : A → result E B) : result E B :=
  match r with Ok a => k a | Err e => Err e end.

(** [r.map_err(f)] *)
Definition map_err {E A} (f : E → E) (r : result E A) : result E A :=
  match r with Ok a => Ok a | Err e => Err (f e) end.

(** [o.ok_or_else(|| e)] *)
Definition ok_or {E A} (e : E) (o : option A) : result E A :=
  match o with Some a => Ok a | None => Err e end.

(** A guard: [if b { return Err(e) }]. *)
Definition reject_if {E} (b : bool) (e : E) : result E unit :=
  if b then Err e else Ok ().

(** ** Programs over a world

    [prog W E A] is a computation that reads and changes a world [W] and
    either returns a value or fails with [E].  A failing computation keeps the
    changes it made before the failure: an early return in the store leaves
    the files that were already committed in place. *)
Definition prog (W E A : Type) : Type := W → result E A * W.

Section programs.
Context {W E : Type}.

Definition ret {A} (a : A) : prog W E A := λ w, (Ok a, w).
Definition fail {A} (e : E) : prog W E A := λ w, (Err e, w).
Definition bind {A B} (m : prog W E A) (k : A → prog W E B) : prog W E B :=
  λ w, match m w with
       | (Ok a, w') => k a w'
       | (Err e, w') => (Err e, w')
       end.
(** A pure fallible computation, [r?]. *)
Definition lift {A} (r : result E A) : prog W E A := λ w, (r, w).
(** Run [m] and hand its result, error included, to [k]: a [match] on a
    [Result] that is not propagated with [?]. *)
Definition catch {A B} (m : prog W E A) (k : result E A → prog W E B)
    : prog W E B :=
  λ w, let '(r, w') := m w in k r w'.

(** Weakest precondition: the outcome and final world of [m] from [w]
    satisfy [Q]. *)
Definition wp {A} (m : prog W E A) (Q : result E A → W → Prop) (w : W) : Prop :=
  Q (m w).1 (m w).2.
End programs.

Declare Scope prog_scope.
Delimit Scope prog_scope with prog.
Notation "'let!' x ':=' m 'in' k" := (bind m (λ x, k))
  (at level 10, x name, m at level 100, k at level 200) : prog_scope.
Notation "'let!' ' p ':=' m 'in' k" := (bind m (λ x, match x with p => k end))
  (at level 10, p pattern, m at level 100, k at level 200) : prog_scope.
Notation "'do!' m ; k" := (bind m (λ _, k))
  (at level 10, m at level 100, k at level 200) : prog_scope.
Notation "'try!' x ':=' r 'in' k" := (rbind r (λ x, k))
  (at level 10, x name, r at level 100, k at level 200) : prog_scope.
Notation "'check!' r ; k" := (rbind r (λ _, k))
  (at level 10, r at level 100, k at level 200) : prog_scope.
Open Scope prog_scope.

(** A loop over a list with a body that may fail. *)
Fixpoint for_each {W E A} (body : A → prog W E ()) (l : list A) : prog W E () :=
  match l with
  | [] => ret ()
  | x :: l' => do! body x; for_each body l'
  end.

(** A pure loop that threads an accumulator and may fail. *)
Fixpoint rfold {E A S} (step : S → A → result E S) (s : S) (l : list A) : result E S :=
  match l with
  | [] => Ok s
  | x :: l' => try! s' := step s x in rfold step s' l'
  end.

(** ** Program-logic rules *)

Section wp_rules.
Context {W E : Type}.
Implicit Types w : W.

Lemma wp_ret {A} (a : A) (Q : result E A → W → Prop) w : Q (Ok a) w → wp (ret a) Q w.
Proof. done. Qed.

Lemma wp_fail {A} (e : E) (Q : result E A → W → Prop) w : Q (Err e) w → wp (fail e) Q w.
Proof. done. Qed.

Lemma wp_lift {A} (r : result E A) Q w : Q r w → wp (lift r) Q w.
Proof. done. Qed.

Lemma wp_mono {A} (m : prog W E A) (Q Q' : result E A → W → Prop) w :
  (∀ r w', Q r w' → Q' r w') → wp m Q w → wp m Q' w.
Proof. intros HQ. apply HQ. Qed.

Lemma wp_bind {A B} (m : prog W E A) (k : A → prog W E B) Q w :
  wp m (λ r w', match r with
                | Ok a => wp (k a) Q w'
                | Err e => Q (Err e) w'
                end) w →
  wp (bind m k) Q w.
Proof. unfold wp, bind. destruct (m w) as [[a|e] w']; done. Qed.

Lemma wp_catch {A B} (m : prog W E A) (k : result E A → prog W E B) Q w :
  wp m (λ r w', wp (k r) Q w') w → wp (catch m k) Q w.
Proof. unfold wp, catch. by destruct (m w). Qed.

(** Postconditions that relate the initial and final world through a
    preorder compose along [bind]. *)
Lemma wp_for_each {A} (R : W → W → Prop) (body : A → prog W E ()) l w :
  (∀ w1, R w1 w1) → (∀ w1 w2 w3, R w1 w2 → R w2 w3 → R w1 w3) →
  (∀ x w1, x ∈ l → wp (body x) (λ _ w2, R w1 w2) w1) →
  wp (for_each body l) (λ _ w', R w w') w.
Proof.
  intros Hrefl Htrans. revert w. induction l as [|x l IH]; intros w Hbody; [apply Hrefl|].
  apply wp_bind. eapply wp_mono; [|apply (Hbody x w); set_solver].
  intros [[]|e] w' Hw'; [|done].
  eapply wp_mono; [|apply IH; set_solver]. intros r w'' H. by eapply Htrans.
Qed.
End wp_rules.

(** ** Generic lemmas *)

Lemma rbind_ok {E A B} (r : result E A) (k : A → result E B) b :
  rbind r k = Ok b ↔ ∃ a, r = Ok a ∧ k a = Ok b.
Proof. destruct r; simpl; naive_solver. Qed.

Lemma reject_if_ok {E} b (e : E) u : reject_if b e = Ok u ↔ b = false.
Proof. destruct b, u; naive_solver. Qed.

Lemma ok_or_ok {E A} (e : E) (o : option A) a : ok_or e o = Ok a ↔ o = Some a.
Proof. destruct o; naive_solver. Qed.

Lemma map_err_ok {E A} (f : E → E) (r : result E A) a : map_err f r = Ok a ↔ r = Ok a.
Proof. destruct r; naive_solver. Qed.

Lemma bind_ok {W E A B} (m : prog W E A) (k : A → prog W E B) w a w' :
  m w = (Ok a, w') → bind m k w = k a w'.
Proof. unfold bind. by intros ->. Qed.

Lemma bind_err {W E A B} (m : prog W E A) (k : A → prog W E B) w e w' :
  m w = (Err e, w') → bind m k w = (Err e, w').
Proof. unfold bind. by intros ->. Qed.

(** The loop succeeds exactly when each step does; [rfold] over an append. *)
Lemma rfold_app {E A S} (step : S → A → result E S) s l1 l2 :
  rfold step s (l1 ++ l2) = rbind (rfold step s l1) (λ s', rfold step s' l2).
Proof.
  revert s. induction l1 as [|x l1 IH]; intros s; simpl; [done|].
  destruct (step s x); simpl; [apply IH|done].
Qed.

(** An invariant of the accumulator carried through a successful loop. *)
Lemma rfold_invariant {E A S} (step : S → A → result E S) (I : list A → S → Prop) s l s' :
  I [] s →
  (∀ done_ x rest s1 s2, l = done_ ++ x :: rest → I done_ s1 → step s1 x = Ok s2 →
     I (done_ ++ [x]) s2) →
  rfold step s l = Ok s' → I l s'.
Proof.
  intros Hinit Hstep.
  assert (∀ pre suf s1, l = pre ++ suf → I pre s1 → rfold step s1 suf = Ok s' → I l s') as H.
  { intros pre suf. revert pre. induction suf as [|x suf IH]; intros pre s1 Hl HI Hrun.
    - simpl in Hrun. inversion Hrun; subst. by rewrite app_nil_r.
    - simpl in Hrun. apply rbind_ok in Hrun as (s2 & Hs2 & Hrun).
      apply (IH (pre ++ [x]) s2); [by rewrite <- app_assoc|by eapply Hstep|done]. }
  by apply (H [] l s).
Qed.

(** A loop whose every step succeeds under an invariant of the processed
    prefix succeeds. *)
Lemma rfold_total {E A S} (step : S → A → result E S) (I : list A → S → Prop) s l :
  I [] s →
  (∀ pre x post s1, l = pre ++ x :: post → I pre s1 →
     ∃ s2, step s1 x = Ok s2 ∧ I (pre ++ [x]) s2) →
  ∃ s', rfold step s l = Ok s' ∧ I l s'.
Proof.
  intros Hinit Hstep.
  assert (∀ suf pre s1, l = pre ++ suf → I pre s1 → ∃ s', rfold step s1 suf = Ok s' ∧ I l s') as H.
  { induction suf as [|x suf IH]; intros pre s1 Hl HI.
    - exists s1. rewrite app_nil_r in Hl. by subst.
    - destruct (Hstep pre x suf s1 Hl HI) as (s2 & Hs2 & HI2). simpl. rewrite Hs2. simpl.
      apply (IH (pre ++ [x])); [by rewrite <- app_assoc|done]. }
  by apply (H l []).
Qed.

Lemma rfold_unit {E A} (step : () → A → result E ()) l :
  (∀ x, x ∈ l → step () x = Ok ()) → rfold step () l = Ok ().
Proof.
  induction l as [|x l IH]; intros H; simpl; [done|].
  rewrite H by set_solver. simpl. apply IH. set_solver.
Qed.

(** A loop that builds a map from the entries of another. *)
Lemma rfold_inserts {E A B} (step : gmap string B → string * A → result E (gmap string B))
    (f : A → B) (m : gmap string A) :
  (∀ acc k a, m !! k = Some a → step acc (k, a) = Ok (<[k := f a]> acc)) →
  rfold step ∅ (map_to_list m) = Ok (f <$> m).
Proof.
  intros Hstep.
  destruct (rfold_total step (λ pre acc, acc = list_to_map (prod_map id f <$> reverse pre)) ∅
    (map_to_list m)) as (acc & -> & ->); [done| |].
  - intros pre [k a] post acc Hl ->. exists (<[k := f a]> (list_to_map (prod_map id f <$> reverse pre))).
    split; [|by rewrite reverse_app]. apply Hstep. apply elem_of_map_to_list. rewrite Hl. set_solver.
  - f_equal. rewrite list_to_map_fmap. f_equal.
    rewrite <- (list_to_map_to_list m) at 2. symmetry.
    apply list_to_map_proper; [apply NoDup_fst_map_to_list|]. symmetry. apply reverse_Permutation.
Qed.

(** ** Proof automation

    [wp_go] walks through a program: it opens binds, reads and lifted results,
    splits the conditionals and matches it meets and leaves the primitive
    effects to the hint database [wpdb] of the components. *)
Create HintDb wpdb.

Ltac wp_destruct_match :=
  match goal with
  | |- wp (match ?x with _ => _ end) _ _ =>
      first [ is_var x; destruct x | let H := fresh "Hcase" in destruct x eqn:H ]
  | |- wp (let '_ := ?x in _) _ _ =>
      first [ is_var x; destruct x | let H := fresh "Hcase" in destruct x eqn:H ]
  end.

(** Split the equations produced by a successful result computation. *)
Ltac inv_ok :=
  repeat match goal with
  | H : rbind _ _ = Ok _ |- _ => apply rbind_ok in H as (? & ? & ?)
  | H : reject_if _ _ = Ok _ |- _ => apply reject_if_ok in H
  | H : ok_or _ _ = Ok _ |- _ => apply ok_or_ok in H
  | H : map_err _ _ = Ok _ |- _ => apply map_err_ok in H
  | H : Ok _ = Ok _ |- _ => inversion H; subst; clear H
  | H : Err _ = Ok _ |- _ => discriminate H
  | H : Ok _ = Err _ |- _ => discriminate H
  end.
