(* ===== verification/Collections.v ===== *)
(** * Ordered collections and slices of the Rust standard library

    [BTreeSet] and [BTreeMap] iterate in key order, and the planners of the
    guest agent rely on it.  [Ord] is the trait behind them with its laws; a
    set is a strictly increasing list, a map a list of entries with strictly
    increasing keys.  Then binary search, stable sorting by a key and the test
    for strictly increasing neighbours, as the capability catalogs use them. *)

From stdpp Require Import base gmap list sorting strings.
From S2P Require Import Prelude.
From Stdlib Require Import Ascii ZArith Lia.

(** ** Ordering *)

Class Ord (A : Type) : Type := {
  cmp : A → A → comparison;
  cmp_eq : ∀ a b, cmp a b = Eq ↔ a = b;
  cmp_antisym : ∀ a b, cmp b a = CompOpp (cmp a b);
  cmp_lt_trans : ∀ a b c, cmp a b = Lt → cmp b c = Lt → cmp a c = Lt
}.

Section ord.
Context `{Ord A}.

Lemma cmp_refl (a : A) : cmp a a = Eq.
Proof. by apply cmp_eq. Qed.

Lemma cmp_gt (a b : A) : cmp a b = Gt ↔ cmp b a = Lt.
Proof. rewrite (cmp_antisym a b). destruct (cmp a b); naive_solver. Qed.

#[global] Instance ord_eq_dec : EqDecision A | 100.
Proof.
  intros a b. destruct (cmp a b) eqn:E; [left; by apply cmp_eq| |];
    right; intros Heq; apply cmp_eq in Heq; congruence.
Defined.
End ord.

#[global] Instance Ord_Z : Ord Z.
Proof.
  refine {| cmp := Z.compare |}.
  - apply Z.compare_eq_iff.
  - apply Z.compare_antisym.
  - intros a b c. rewrite !Z.compare_lt_iff. lia.
Defined.

(** Lexicographic order: derived [Ord] of a struct and of a tuple. *)
#[global] Instance Ord_prod `{Ord A, Ord B} : Ord (A * B).
Proof.
  refine {| cmp := λ p q, match cmp p.1 q.1 with Eq => cmp p.2 q.2 | c => c end |}.
  - intros [a b] [a' b']; simpl. destruct (cmp a a') eqn:E.
    + apply cmp_eq in E as ->. rewrite cmp_eq. naive_solver.
    + split; [done|]. intros [= -> ->]. by rewrite cmp_refl in E.
    + split; [done|]. intros [= -> ->]. by rewrite cmp_refl in E.
  - intros [a b] [a' b']; simpl. rewrite (cmp_antisym a a').
    destruct (cmp a a'); simpl; [apply cmp_antisym|done|done].
  - intros [a b] [a' b'] [a'' b'']; simpl.
    destruct (cmp a a') eqn:E1; [|destruct (cmp a' a'') eqn:E2|done]; intros H1; simpl.
    + apply cmp_eq in E1 as ->. destruct (cmp a' a''); [|done|done]. by apply cmp_lt_trans.
    + apply cmp_eq in E2 as ->. by rewrite E1.
    + intros _. by rewrite (cmp_lt_trans _ _ _ E1 E2).
    + done.
Defined.

(** [Option]: [None] is the least value. *)
#[global] Instance Ord_option `{Ord A} : Ord (option A).
Proof.
  refine {| cmp := λ x y, match x, y with
    | None, None => Eq | None, Some _ => Lt | Some _, None => Gt
    | Some a, Some b => cmp a b end |}.
  - intros [a|] [b|]; rewrite ?cmp_eq; naive_solver.
  - intros [a|] [b|]; simpl; try done. apply cmp_antisym.
  - intros [a|] [b|] [c|]; simpl; try done. apply cmp_lt_trans.
Defined.

Fixpoint list_cmp `{Ord A} (l k : list A) : comparison :=
  match l, k with
  | [], [] => Eq
  | [], _ :: _ => Lt
  | _ :: _, [] => Gt
  | a :: l', b :: k' => match cmp a b with Eq => list_cmp l' k' | c => c end
  end.

(** [Vec]: lexicographic, a prefix is less than its extensions. *)
#[global] Instance Ord_list `{Ord A} : Ord (list A).
Proof.
  refine {| cmp := list_cmp |}.
  - intros l. induction l as [|a l IH]; intros [|b k]; simpl; try done.
    destruct (cmp a b) eqn:E.
    + apply cmp_eq in E as ->. rewrite IH. naive_solver.
    + split; [done|]. intros [= -> ->]. by rewrite cmp_refl in E.
    + split; [done|]. intros [= -> ->]. by rewrite cmp_refl in E.
  - intros l. induction l as [|a l IH]; intros [|b k]; simpl; try done.
    rewrite (cmp_antisym a b). destruct (cmp a b); simpl; [apply IH|done|done].
  - intros l. induction l as [|a l IH]; intros [|b k] [|c m]; simpl; try done.
    destruct (cmp a b) eqn:E1; [|destruct (cmp b c) eqn:E2|done]; intros H1; simpl.
    + apply cmp_eq in E1 as ->. destruct (cmp b c); [|done|done]. by apply IH.
    + apply cmp_eq in E2 as ->. by rewrite E1.
    + intros _. by rewrite (cmp_lt_trans _ _ _ E1 E2).
    + done.
Defined.

(** An order transported along an injective view: the derived order of an enum
    or a struct is the order of its tuple of fields. *)
Definition Ord_via {A B} `{Ord B} (f : A → B) (inj : ∀ a a', f a = f a' → a = a') : Ord A.
Proof.
  refine {| cmp := λ a a', cmp (f a) (f a') |}.
  - intros a a'. rewrite cmp_eq. split; [apply inj|by intros ->].
  - intros a a'. apply cmp_antisym.
  - intros a b c. apply cmp_lt_trans.
Defined.

(** Byte order of strings, as in Rust. *)
Definition byte_of (c : Ascii.ascii) : Z := Z.of_N (Ascii.N_of_ascii c).
Definition string_bytes (s : string) : list Z := byte_of <$> String.list_ascii_of_string s.
Lemma byte_of_inj a b : byte_of a = byte_of b → a = b.
Proof. intros E%N2Z.inj. by rewrite <- (Ascii.ascii_N_embedding a), E, Ascii.ascii_N_embedding. Qed.
#[global] Instance byte_of_Inj : Inj (=) (=) byte_of := byte_of_inj.
Lemma string_bytes_inj s t : string_bytes s = string_bytes t → s = t.
Proof.
  intros H%(inj (fmap byte_of)).
  by rewrite <- (String.string_of_list_ascii_of_string s), H, String.string_of_list_ascii_of_string.
Qed.
#[global] Instance Ord_string : Ord string := Ord_via string_bytes string_bytes_inj.

(** ** [BTreeSet] *)

Section btree_set.
Context `{Ord A}.

(** [BTreeSet::insert] *)
Fixpoint btree_insert (x : A) (l : list A) : list A :=
  match l with
  | [] => [x]
  | y :: l' => match cmp x y with
               | Lt => x :: y :: l'
               | Eq => y :: l'
               | Gt => y :: btree_insert x l'
               end
  end.

(** [iter.collect::<BTreeSet<_>>()] *)
Definition btree_collect (l : list A) : list A :=
  foldl (λ acc x, btree_insert x acc) [] l.

(** Strictly increasing. *)
Definition increasing (l : list A) : Prop := StronglySorted (λ a b, cmp a b = Lt) l.

Lemma elem_of_btree_insert x y l : y ∈ btree_insert x l ↔ y = x ∨ y ∈ l.
Proof.
  induction l as [|z l IH]; simpl; [set_solver|].
  destruct (cmp x z) eqn:E; [apply cmp_eq in E as ->| |]; set_solver.
Qed.

Lemma btree_insert_increasing x l : increasing l → increasing (btree_insert x l).
Proof.
  unfold increasing. induction 1 as [|z l Hl IH Hz]; simpl; [repeat constructor|].
  destruct (cmp x z) eqn:E.
  - by constructor.
  - constructor; [by constructor|]. constructor; [done|].
    eapply Forall_impl; [exact Hz|]. intros y Hy. by eapply cmp_lt_trans.
  - constructor; [done|]. apply Forall_forall. intros y. rewrite elem_of_btree_insert.
    intros [->|Hy]; [by apply cmp_gt|]. by eapply Forall_forall in Hz.
Qed.

Lemma btree_collect_spec l : increasing (btree_collect l) ∧ ∀ y, y ∈ btree_collect l ↔ y ∈ l.
Proof.
  unfold btree_collect.
  assert (∀ acc, increasing acc →
    increasing (foldl (λ acc x, btree_insert x acc) acc l) ∧
    ∀ y, y ∈ foldl (λ acc x, btree_insert x acc) acc l ↔ y ∈ acc ∨ y ∈ l) as Hgen.
  { induction l as [|x l IH]; intros acc Hacc; simpl; [split; [done|set_solver]|].
    destruct (IH _ (btree_insert_increasing x _ Hacc)) as [Hi He].
    split; [done|]. intros y. rewrite He, elem_of_btree_insert. set_solver. }
  destruct (Hgen [] (SSorted_nil _)) as [Hi He]. split; [done|]. intros y. rewrite He. set_solver.
Qed.

Lemma btree_collect_increasing l : increasing (btree_collect l).
Proof. apply btree_collect_spec. Qed.

Lemma elem_of_btree_collect l y : y ∈ btree_collect l ↔ y ∈ l.
Proof. apply btree_collect_spec. Qed.

Lemma increasing_NoDup l : increasing l → NoDup l.
Proof.
  induction 1 as [|x l Hl IH Hx]; [constructor|]. constructor; [|done].
  intros Hin. eapply Forall_forall in Hx; [|done]. by rewrite cmp_refl in Hx.
Qed.

Lemma btree_insert_length x l : length l ≤ length (btree_insert x l) ≤ S (length l).
Proof. induction l as [|z l IH]; simpl; [lia|]. destruct (cmp x z); simpl; lia. Qed.

(** Two strictly increasing lists with the same elements are equal: a set is
    determined by its members. *)
Lemma increasing_ext l k : increasing l → increasing k → (∀ x, x ∈ l ↔ x ∈ k) → l = k.
Proof.
  intros Hl. revert k. induction Hl as [|x l Hl IH Hx]; intros k Hk Heq.
  - destruct k as [|y k]; [done|]. specialize (Heq y). set_solver.
  - destruct Hk as [|y k Hk Hy]; [specialize (Heq x); set_solver|].
    rewrite Forall_forall in Hx, Hy.
    assert (∀ z, z ∈ x :: l → z = y ∨ z ∈ k) as H1 by (intros z; rewrite Heq; set_solver).
    assert (∀ z, z ∈ y :: k → z = x ∨ z ∈ l) as H2 by (intros z; rewrite <- Heq; set_solver).
    assert (x = y) as ->.
    { destruct (H1 x) as [|Hxk]; [set_solver|done|].
      destruct (H2 y) as [|Hyl]; [set_solver|done|].
      specialize (Hy x Hxk). specialize (Hx y Hyl). apply cmp_gt in Hx. congruence. }
    f_equal. apply IH; [done|]. intros z. split; intros Hz.
    + destruct (H1 z) as [->|]; [set_solver| |done].
      specialize (Hx y Hz). by rewrite cmp_refl in Hx.
    + destruct (H2 z) as [->|]; [set_solver| |done].
      specialize (Hy y Hz). by rewrite cmp_refl in Hy.
Qed.

Lemma btree_collect_increasing_id l : increasing l → btree_collect l = l.
Proof.
  intros Hl. apply increasing_ext; [apply btree_collect_increasing|done|].
  apply elem_of_btree_collect.
Qed.

Lemma increasing_filter (P : A → Prop) `{∀ x, Decision (P x)} l :
  increasing l → increasing (filter P l).
Proof.
  unfold increasing. induction 1 as [|x l Hl IH Hx]; [constructor|].
  rewrite filter_cons. case_decide; [|done]. constructor; [done|].
  apply Forall_forall. intros y [_ Hy]%list_elem_of_filter. by eapply Forall_forall in Hx.
Qed.
End btree_set.

(** ** [BTreeMap] *)

Section btree_map.
Context `{Ord K} {V : Type}.

(** [BTreeMap::get] *)
Fixpoint btree_get (k : K) (m : list (K * V)) : option V :=
  match m with
  | [] => None
  | (k', v) :: m' => match cmp k k' with
                     | Lt => None
                     | Eq => Some v
                     | Gt => btree_get k m'
                     end
  end.

(** [BTreeMap::insert] *)
Fixpoint btree_set (k : K) (v : V) (m : list (K * V)) : list (K * V) :=
  match m with
  | [] => [(k, v)]
  | (k', v') :: m' => match cmp k k' with
                      | Lt => (k, v) :: (k', v') :: m'
                      | Eq => (k, v) :: m'
                      | Gt => (k', v') :: btree_set k v m'
                      end
  end.

Definition map_increasing (m : list (K * V)) : Prop := increasing m.*1.

Lemma elem_of_btree_set_keys k v m x : x ∈ (btree_set k v m).*1 ↔ x = k ∨ x ∈ m.*1.
Proof.
  induction m as [|[k' v'] m IH]; simpl; [set_solver|].
  destruct (cmp k k') eqn:E; [apply cmp_eq in E as ->| |]; csimpl; set_solver.
Qed.

Lemma btree_set_increasing k v m : map_increasing m → map_increasing (btree_set k v m).
Proof.
  unfold map_increasing, increasing. induction m as [|[k' v'] m IH]; intros Hm; csimpl in *.
  { repeat constructor. }
  inversion_clear Hm as [|? ? Hm' Hk'].
  destruct (cmp k k') eqn:E; csimpl.
  - apply cmp_eq in E as ->. by constructor.
  - constructor; [by constructor|]. constructor; [done|].
    eapply Forall_impl; [exact Hk'|]. intros y Hy. by eapply cmp_lt_trans.
  - constructor; [by apply IH|]. apply Forall_forall. intros y.
    rewrite elem_of_btree_set_keys. intros [->|Hy]; [by apply cmp_gt|].
    by eapply Forall_forall in Hk'.
Qed.

Lemma btree_get_set k v m x :
  btree_get x (btree_set k v m) =
  if decide (x = k) then Some v else btree_get x m.
Proof.
  induction m as [|[k' v'] m IH]; simpl.
  - case_decide as D; [subst; by rewrite cmp_refl|].
    destruct (cmp x k) eqn:E; [by apply cmp_eq in E|done|done].
  - destruct (cmp k k') eqn:E; simpl.
    + apply cmp_eq in E as ->. case_decide as D; [subst; by rewrite cmp_refl|].
      destruct (cmp x k') eqn:E'; [by apply cmp_eq in E'|done|done].
    + case_decide as D; [subst; by rewrite cmp_refl|].
      destruct (cmp x k) eqn:E'; [by apply cmp_eq in E'| |done].
      by rewrite (cmp_lt_trans _ _ _ E' E).
    + rewrite IH. case_decide as D; [subst; by rewrite E|done].
Qed.

Lemma elem_of_btree_get k v m : map_increasing m → (k, v) ∈ m ↔ btree_get k m = Some v.
Proof.
  unfold map_increasing, increasing. revert v.
  induction m as [|[k' v'] m IH]; intros v Hm; csimpl in *; [set_solver|].
  inversion_clear Hm as [|? ? Hm' Hk']. rewrite elem_of_cons, IH by done.
  assert (∀ w, btree_get k m = Some w → cmp k' k = Lt) as Hin.
  { intros w Hw. apply IH in Hw; [|done]. rewrite Forall_forall in Hk'.
    apply Hk'. by apply (list_elem_of_fmap_2 fst _ (k, w)). }
  destruct (cmp k k') eqn:E.
  - apply cmp_eq in E as ->. split.
    + intros [[= ->]|Hw]; [done|]. apply Hin in Hw. by rewrite cmp_refl in Hw.
    + intros [= ->]. by left.
  - split; [|done]. intros [[= -> ->]|Hw]; [by rewrite cmp_refl in E|].
    apply Hin, cmp_gt in Hw. congruence.
  - split; [|by right]. intros [[= -> ->]|Hw]; [by rewrite cmp_refl in E|done].
Qed.
End btree_map.

(** ** Lists *)

(** [Vec::swap_remove] on an index in range: the last element takes the place of
    the removed one. *)
Definition swap_remove {A} (i : nat) (l : list A) : list A :=
  match last l with
  | Some z => if decide (S i = length l) then removelast l else <[i := z]> (removelast l)
  | None => l
  end.

Lemma swap_remove_Permutation {A} (i : nat) (l : list A) x :
  l !! i = Some x → l ≡ₚ x :: swap_remove i l.
Proof.
  intros Hi. assert (i < length l) as Hlt by by apply lookup_lt_Some in Hi.
  destruct (exists_last (l := l)) as (k & z & ->); [by intros ->|].
  unfold swap_remove. rewrite last_snoc, removelast_last, length_app in *. simpl in *.
  case_decide as D.
  - assert (i = length k) as -> by lia. rewrite list_lookup_middle in Hi by done.
    injection Hi as ->. by rewrite Permutation_app_comm.
  - rewrite lookup_app_l in Hi by lia.
    rewrite (Permutation_app_comm k). simpl.
    rewrite <- (take_drop_middle k i x Hi) at 1.
    rewrite insert_take_drop by lia. rewrite <- !Permutation_middle. apply perm_swap.
Qed.

(** ** Fallible traversals *)

(** [iter.map(f).collect::<Result<Vec<_>>>()]: stops at the first error. *)
Fixpoint rmap {E A B} (f : A → result E B) (l : list A) : result E (list B) :=
  match l with
  | [] => Ok []
  | x :: l' => try! y := f x in try! k := rmap f l' in Ok (y :: k)
  end.

Lemma rmap_ok {E A B} (f : A → result E B) l k :
  rmap f l = Ok k ↔ Forall2 (λ x y, f x = Ok y) l k.
Proof.
  revert k. induction l as [|x l IH]; intros k; simpl.
  - split; [intros [= <-]; constructor|]. by inversion 1.
  - rewrite rbind_ok. setoid_rewrite rbind_ok. setoid_rewrite IH. split.
    + intros (y & Hy & k' & Hk & [= <-]). by constructor.
    + inversion 1; subst. eauto.
Qed.

(** The first element that fails decides the error. *)
Lemma rmap_err {E A B} (f : A → result E B) l1 x l2 e k :
  rmap f l1 = Ok k → f x = Err e → rmap f (l1 ++ x :: l2) = Err e.
Proof.
  revert k. induction l1 as [|y l1 IH]; intros k Hl1 Hx; simpl in *; [by rewrite Hx|].
  destruct (f y); simpl in *; [|done]. destruct (rmap f l1); simpl in *; [|done].
  by rewrite (IH _ eq_refl Hx).
Qed.

(** ** [slice::binary_search_by] *)

Section binary_search.
Context {A : Type} (f : A → comparison).

(** The loop narrows [base, base + size); [f] compares an element with the
    probe.  Each round keeps at least one candidate, so [size] rounds do. *)
Fixpoint search_loop (fuel : nat) (l : list A) (base size : nat) : nat :=
  match fuel with
  | O => base
  | S fuel =>
      if Nat.leb size 1 then base
      else
        let half := Nat.div2 size in
        let base' := match f <$> l !! (base + half) with
                     | Some Gt => base
                     | _ => base + half
                     end in
        search_loop fuel l base' (size - half)
  end.

(** The index of a match, if any. *)
Definition binary_search_by (l : list A) : option nat :=
  match l with
  | [] => None
  | _ =>
      let base := search_loop (length l) l 0 (length l) in
      match f <$> l !! base with Some Eq => Some base | _ => None end
  end.
End binary_search.

(** [slice::binary_search] and [binary_search_by_key] *)
Definition binary_search `{Ord A} (x : A) (l : list A) : bool :=
  bool_decide (is_Some (binary_search_by (λ a, cmp a x) l)).
Definition binary_search_by_key `{Ord K} {A} (key : A → K) (k : K) (l : list A) : option nat :=
  binary_search_by (λ a, cmp (key a) k) l.

(** ** [slice::windows(2)] *)

(** [values.windows(2).all(|w| key(w[0]) < key(w[1]))] *)
Fixpoint strictly_increasing_by `{Ord K} {A} (key : A → K) (l : list A) : bool :=
  match l with
  | a :: ((b :: _) as l') =>
      match cmp (key a) (key b) with Lt => true | _ => false end && strictly_increasing_by key l'
  | _ => true
  end.
Definition strictly_increasing `{Ord A} (l : list A) : bool := strictly_increasing_by id l.

(** ** [slice::sort_by_key], which is stable *)

Fixpoint insert_by `{Ord K} {A} (key : A → K) (x : A) (l : list A) : list A :=
  match l with
  | [] => [x]
  | y :: l' => match cmp (key x) (key y) with
               | Gt => y :: insert_by key x l'
               | _ => x :: y :: l'
               end
  end.
Definition sort_by_key `{Ord K} {A} (key : A → K) (l : list A) : list A :=
  foldr (insert_by key) [] l.

(** ** Lemmas *)

Lemma half_bounds size : 1 < size → 1 ≤ Nat.div2 size ∧ 2 * Nat.div2 size ≤ size.
Proof.
  intros Hs. rewrite Nat.div2_div. split; [apply Nat.div_le_lower_bound; lia|].
  apply Nat.Div0.mul_div_le.
Qed.

Section search_lemmas.
Context {A : Type} (f : A → comparison).

(** [f] is monotone on the slice: below, at, then above the probe. *)
Definition partitioned (l : list A) : Prop :=
  ∀ i j a b, i ≤ j → l !! i = Some a → l !! j = Some b →
    (f b = Lt → f a = Lt) ∧ (f a = Gt → f b = Gt).

(** The loop keeps every match inside its window. *)
Lemma search_loop_spec fuel l base size i a :
  partitioned l → size ≤ fuel → 1 ≤ size → base + size ≤ length l →
  l !! i = Some a → f a = Eq →
  base ≤ i < base + size →
  ∃ k b, search_loop f fuel l base size = k ∧ l !! k = Some b ∧ f b = Eq.
Proof.
  intros Hp. revert base size.
  induction fuel as [|fuel IH]; intros base size Hf H1 Hlen Hi Ha Hin; [lia|]. simpl.
  destruct (Nat.leb_spec size 1) as [Hs|Hs].
  { assert (i = base) as -> by lia. by exists base, a. }
  pose proof (half_bounds size Hs) as Hhalf.
  destruct (lookup_lt_is_Some_2 l (base + Nat.div2 size)) as [m Hm]; [lia|]. rewrite Hm. simpl.
  destruct (f m) eqn:Hfm.
  - (* an equal element at the midpoint: it stays in the window *)
    clear IH.
    assert (∀ fuel base size, size ≤ fuel → 1 ≤ size → base + size ≤ length l →
      (∃ b, l !! base = Some b ∧ f b = Eq) →
      ∃ k b, search_loop f fuel l base size = k ∧ l !! k = Some b ∧ f b = Eq) as Hkeep.
    { clear -Hp. induction fuel as [|fuel IH]; intros base size Hf H1 Hlen (b & Hb & He); [lia|].
      simpl. destruct (Nat.leb_spec size 1); [by exists base, b|].
      pose proof (half_bounds size ltac:(lia)) as Hhalf.
      destruct (lookup_lt_is_Some_2 l (base + Nat.div2 size)) as [m Hm]; [lia|]. rewrite Hm. simpl.
      destruct (f m) eqn:Hfm.
      - apply IH; [lia..|]. by exists m.
      - exfalso. destruct (Hp base (base + Nat.div2 size) b m) as [Hlt _]; [lia|done..|].
        specialize (Hlt Hfm). congruence.
      - apply IH; [lia..|]. by exists b. }
    apply Hkeep; [lia..|]. by exists m.
  - (* below the probe: the match is to the right *)
    apply IH; try lia; try done.
    destruct (decide (i < base + Nat.div2 size)) as [Hl|Hl]; [|lia].
    destruct (Hp i (base + Nat.div2 size) a m) as [Hlt _]; [lia|done..|].
    specialize (Hlt Hfm). congruence.
  - (* above the probe: the match is to the left *)
    apply IH; try lia; try done. split; [lia|].
    destruct (decide (i < base + Nat.div2 size)) as [Hl|Hl]; [lia|].
    destruct (Hp (base + Nat.div2 size) i m a) as [_ Hgt]; [lia|done..|].
    specialize (Hgt Hfm). congruence.
Qed.

(** On a partitioned slice the search finds a match exactly when there is one. *)
Lemma binary_search_by_spec l :
  partitioned l →
  (∀ i, binary_search_by f l = Some i → ∃ a, l !! i = Some a ∧ f a = Eq) ∧
  (∀ i a, l !! i = Some a → f a = Eq → is_Some (binary_search_by f l)).
Proof.
  intros Hp. split.
  - intros i. unfold binary_search_by. destruct l as [|x l]; [done|]. cbv zeta.
    destruct (_ !! search_loop _ _ _ _ _) as [a|] eqn:Ha; [|done]. simpl.
    destruct (f a) eqn:Hf; [|done|done]. intros [= <-]. by exists a.
  - intros i a Hi Ha. destruct l as [|x l]; [done|]. unfold binary_search_by. cbv zeta.
    destruct (search_loop_spec (length (x :: l)) (x :: l) 0 (length (x :: l)) i a) as (k & b & -> & Hk & Hb);
      [done|lia|simpl; lia|simpl; lia|done|done| |].
    + apply lookup_lt_Some in Hi. lia.
    + rewrite Hk. simpl. rewrite Hb. by eexists.
Qed.
End search_lemmas.

(** ** Sorted slices *)

Section sorted.
Context `{Ord K} {A : Type} (key : A → K).

(** Increasing keys. *)
Definition key_increasing (l : list A) : Prop := increasing (key <$> l).

Lemma strictly_increasing_by_spec l : strictly_increasing_by key l = true ↔ key_increasing l.
Proof.
  unfold key_increasing, increasing. induction l as [|a l IH]; [split; [constructor|done]|].
  destruct l as [|b l]; [split; [repeat constructor|done]|]. simpl strictly_increasing_by.
  rewrite andb_true_iff, IH. csimpl. split.
  - intros [Hab Hl]. destruct (cmp (key a) (key b)) eqn:E; try done.
    constructor; [done|]. constructor; [done|]. inversion_clear Hl as [|? ? _ Hb].
    eapply Forall_impl; [exact Hb|]. intros c Hc. by eapply cmp_lt_trans.
  - intros Hl. inversion_clear Hl as [|? ? Hl' Ha]. inversion_clear Ha as [|? ? Hab _].
    by rewrite Hab.
Qed.

Lemma key_increasing_lookup l i j a b :
  key_increasing l → i < j → l !! i = Some a → l !! j = Some b → cmp (key a) (key b) = Lt.
Proof.
  unfold key_increasing, increasing. revert i j.
  induction l as [|c l IH]; intros i j Hl Hij Ha Hb; [done|].
  csimpl in Hl. inversion_clear Hl as [|? ? Hl' Hc]. destruct j as [|j]; [lia|].
  destruct i as [|i]; simplify_eq/=; [|apply (IH i j); [done|lia|done..]].
  rewrite Forall_forall in Hc. apply Hc, list_elem_of_fmap. exists b.
  split; [done|by eapply list_elem_of_lookup_2].
Qed.

Lemma key_increasing_partitioned l k : key_increasing l → partitioned (λ a, cmp (key a) k) l.
Proof.
  intros Hl i j a b Hij Ha Hb. destruct (decide (i = j)) as [->|Hne].
  { simplify_eq. done. }
  pose proof (key_increasing_lookup l i j a b Hl ltac:(lia) Ha Hb) as Hab. split.
  - intros Hbk. by eapply cmp_lt_trans.
  - rewrite !cmp_gt. intros Hka. by eapply cmp_lt_trans.
Qed.

(** Binary search of a sorted slice is membership. *)
Lemma binary_search_by_key_spec l k :
  key_increasing l →
  (∀ i, binary_search_by_key key k l = Some i ↔ ∃ a, l !! i = Some a ∧ key a = k).
Proof.
  intros Hl i. destruct (binary_search_by_spec _ l (key_increasing_partitioned l k Hl)) as [Hs Hc].
  unfold binary_search_by_key. split.
  - intros (a & Ha & He)%Hs. exists a. by rewrite cmp_eq in He.
  - intros (a & Ha & He). destruct (Hc i a Ha) as [j Hj]; [by rewrite cmp_eq|].
    rewrite Hj. destruct (Hs j Hj) as (b & Hb & Hbk). rewrite cmp_eq in Hbk.
    destruct (Nat.lt_total i j) as [Hij|[->|Hij]]; [|done|].
    + pose proof (key_increasing_lookup l i j a b Hl Hij Ha Hb) as Hab.
      rewrite He, <- Hbk, cmp_refl in Hab. done.
    + pose proof (key_increasing_lookup l j i b a Hl Hij Hb Ha) as Hab.
      rewrite He, <- Hbk, cmp_refl in Hab. done.
Qed.

Lemma insert_by_Permutation x l : insert_by key x l ≡ₚ x :: l.
Proof.
  induction l as [|y l IH]; simpl; [done|]. destruct (cmp (key x) (key y)); [done|done|].
  rewrite IH. by rewrite Permutation_swap.
Qed.

Lemma sort_by_key_Permutation l : sort_by_key key l ≡ₚ l.
Proof. induction l as [|x l IH]; simpl; [done|]. by rewrite insert_by_Permutation, IH. Qed.

(** Sorting a slice with distinct keys makes it strictly increasing. *)
Lemma insert_by_increasing x l :
  key_increasing l → key x ∉ key <$> l → key_increasing (insert_by key x l).
Proof.
  unfold key_increasing, increasing. induction l as [|y l IH]; intros Hl Hx; csimpl.
  { repeat constructor. }
  csimpl in Hl. inversion_clear Hl as [|? ? Hl' Hy]. destruct (cmp (key x) (key y)) eqn:E.
  - apply cmp_eq in E. set_solver.
  - csimpl. constructor; [by constructor|]. constructor; [done|].
    eapply Forall_impl; [exact Hy|]. intros c Hc. by eapply cmp_lt_trans.
  - csimpl. constructor; [apply IH; [done|set_solver]|]. rewrite insert_by_Permutation. csimpl.
    constructor; [by apply cmp_gt|done].
Qed.

Lemma sort_by_key_increasing l : NoDup (key <$> l) → key_increasing (sort_by_key key l).
Proof.
  induction l as [|x l IH]; csimpl; [constructor|]. intros [Hx Hl]%NoDup_cons.
  apply insert_by_increasing; [by apply IH|]. by rewrite sort_by_key_Permutation.
Qed.
End sorted.

Lemma strictly_increasing_spec `{Ord A} (l : list A) : strictly_increasing l = true ↔ increasing l.
Proof.
  unfold strictly_increasing. rewrite strictly_increasing_by_spec. unfold key_increasing.
  by rewrite list_fmap_id.
Qed.

Lemma binary_search_spec `{Ord A} (x : A) l : increasing l → binary_search x l = true ↔ x ∈ l.
Proof.
  intros Hl. unfold binary_search. rewrite bool_decide_eq_true.
  assert (key_increasing id l) as Hk by (unfold key_increasing; by rewrite list_fmap_id).
  split.
  - intros [i (a & Ha & <-)%(binary_search_by_key_spec id l x Hk)].
    by eapply list_elem_of_lookup_2.
  - intros [i Hi]%list_elem_of_lookup. exists i.
    apply (binary_search_by_key_spec id l x Hk). by exists x.
Qed.
