(* ===== verification/Sdk.v ===== *)
(** * SDK data model (crates/sdk)

    The error type, typed identities, requests and records that the public SDK
    defines and the durable store keeps, with the request validation of
    [validation.rs], [process_io.rs] and [model.rs].

    Identifiers, paths, digests and UTF-8 text are [string]s of bytes; machine
    integers are [Z] values with their width stated where arithmetic could
    leave it.  Types whose contents the store never inspects (an attachment
    contract, a Linux resource block, a checkpoint payload) are represented by
    their canonical encoding, so that value equality is equality of encodings. *)

From stdpp Require Import base gmap strings list.
From S2P Require Import Prelude.

Local Open Scope string_scope.
Local Open Scope Z_scope.

(** ** Machine integers *)

Definition u64_max : Z := 2 ^ 64 - 1.
Definition u32_max : Z := 2 ^ 32 - 1.
Definition i32_max : Z := 2 ^ 31 - 1.

(** [u64::checked_add] *)
Definition checked_add_u64 (a b : Z) : option Z :=
  if decide (a + b ≤ u64_max) then Some (a + b) else None.

(** ** Errors (error.rs) *)

Inductive ErrorCode : Type :=
  | InvalidArgument | NotFound | AlreadyExists | FailedPrecondition | Unsupported
  | PermissionDenied | ResourceExhausted | DeadlineExceeded | Conflict | Unavailable
  | Internal.
#[global] Instance ErrorCode_eq_dec : EqDecision ErrorCode.
Proof. solve_decision. Defined.

(** The [message] field holds the literal format template of the source; the
    values a [format!] call interpolates are diagnostics and are left in
    place as [{...}]. *)
Record Error : Type := mkError {
  code : ErrorCode;
  err_operation : option string;
  message : string;
  retryable : bool
}.
#[global] Instance Error_eq_dec : EqDecision Error.
Proof. solve_decision. Defined.

Abbreviation Result := (result Error).

Definition error_new (c : ErrorCode) (msg : string) : Error :=
  mkError c None msg false.

Definition for_operation (e : Error) (op : string) : Error :=
  mkError (code e) (Some op) (message e) (retryable e).

Definition set_retryable (e : Error) (b : bool) : Error :=
  mkError (code e) (err_operation e) (message e) b.

(** [state_error] of state/filesystem.rs. *)
Definition state_error (c : ErrorCode) (op : string) (msg : string) : Error :=
  for_operation (error_new c msg) op.

(** [invalid_request] of validation.rs. *)
Definition invalid_request (msg : string) : Error :=
  for_operation (error_new InvalidArgument msg) "validate-sdk-request".

(** ** Targets and contexts (model.rs) *)

Record ContainerTarget : Type := mkContainerTarget {
  ct_id : string;
  ct_generation : option Z
}.
#[global] Instance ContainerTarget_eq_dec : EqDecision ContainerTarget.
Proof. solve_decision. Defined.

Definition target_current (id : string) : ContainerTarget := mkContainerTarget id None.
Definition target_exact (id : string) (g : Z) : ContainerTarget := mkContainerTarget id (Some g).

Record ProcessTarget : Type := mkProcessTarget {
  pt_container : ContainerTarget;
  pt_process_id : string
}.
#[global] Instance ProcessTarget_eq_dec : EqDecision ProcessTarget.
Proof. solve_decision. Defined.

Record OperationContext : Type := mkOperationContext {
  oc_operation_id : string;
  oc_deadline_unix_ms : option Z
}.
#[global] Instance OperationContext_eq_dec : EqDecision OperationContext.
Proof. solve_decision. Defined.

(** Reserved process ID of the configured init process (id.rs). *)
Definition INIT_PROCESS_ID : string := "init".
Definition is_init (process_id : string) : bool := bool_decide (process_id = INIT_PROCESS_ID).

(** ** Drivers and isolation (crates/core/src/capability.rs, model.rs) *)

Inductive DriverKind : Type := NativeLinux | LibkrunKvm | LibkrunHvf | LibkrunWhpx.
#[global] Instance DriverKind_eq_dec : EqDecision DriverKind.
Proof. solve_decision. Defined.

Inductive IsolationClass : Type := DedicatedVm | SharedGuestKernel | SharedHostKernel.
#[global] Instance IsolationClass_eq_dec : EqDecision IsolationClass.
Proof. solve_decision. Defined.

Inductive IsolationRequest : Type :=
  | RequestDedicatedVm
  | RequestSharedGuestKernel (trust_domain : string)
  | RequestSharedHostKernel.
#[global] Instance IsolationRequest_eq_dec : EqDecision IsolationRequest.
Proof. solve_decision. Defined.

Definition isolation_class (r : IsolationRequest) : IsolationClass :=
  match r with
  | RequestDedicatedVm => DedicatedVm
  | RequestSharedGuestKernel _ => SharedGuestKernel
  | RequestSharedHostKernel => SharedHostKernel
  end.

(** ** OCI state (oci-spec [State]) *)

Inductive ContainerState : Type := Creating | Created | Running | Stopped.
#[global] Instance ContainerState_eq_dec : EqDecision ContainerState.
Proof. solve_decision. Defined.

Record OciState : Type := mkOciState {
  st_version : string;
  st_id : string;
  st_status : ContainerState;
  st_pid : option Z;
  st_bundle : string;
  st_annotations : option (gmap string string)
}.
#[global] Instance OciState_eq_dec : EqDecision OciState.
Proof. solve_decision. Defined.

(** ** Opaque contracts *)

(** [CreateAttachments], by its canonical encoding. *)
Record CreateAttachments : Type := mkAttachments { att_encoding : string }.
#[global] Instance CreateAttachments_eq_dec : EqDecision CreateAttachments.
Proof. solve_decision. Defined.

(** [GuestSessionReset] and [GuestSessionOwnership] *)
Inductive GuestSessionReset : Type := DestroyOnEmpty | RetainWithinTrustDomain.
#[global] Instance GuestSessionReset_eq_dec : EqDecision GuestSessionReset.
Proof. solve_decision. Defined.
Inductive GuestSessionOwnership : Type := OwnedByRuntime.
#[global] Instance GuestSessionOwnership_eq_dec : EqDecision GuestSessionOwnership.
Proof. solve_decision. Defined.

(** [GuestSessionAttachment] *)
Record GuestSessionAttachment : Type := mkGuestSession {
  gs_id : string;
  gs_generation : Z;
  gs_trust_domain : string;
  gs_isolation : IsolationClass;
  gs_capacity : Z;
  gs_reset : GuestSessionReset;
  gs_ownership : GuestSessionOwnership
}.
#[global] Instance GuestSessionAttachment_eq_dec : EqDecision GuestSessionAttachment.
Proof. solve_decision. Defined.

(** [NetworkEnforcementAttachment], by its canonical encoding. *)
Record NetworkEnforcementAttachment : Type := mkNetworkEnforcement { ne_encoding : string }.
#[global] Instance NetworkEnforcementAttachment_eq_dec : EqDecision NetworkEnforcementAttachment.
Proof. solve_decision. Defined.

(** The OCI [Process] fields that the SDK reads; the rest by its encoding. *)
Record OciProcess : Type := mkOciProcess {
  proc_terminal : option bool;
  proc_console_size : option (Z * Z);
  proc_encoding : string
}.
#[global] Instance OciProcess_eq_dec : EqDecision OciProcess.
Proof. solve_decision. Defined.

(** [OciBundle]: directory, exact configuration bytes, their digest and the
    parsed [Spec] fields that the store reads. *)
Record OciBundle : Type := mkOciBundle {
  bundle_directory : string;
  bundle_config : string;
  bundle_config_digest : string;
  bundle_version : string;
  bundle_annotations : option (gmap string string);
  bundle_process : option OciProcess
}.
#[global] Instance OciBundle_eq_dec : EqDecision OciBundle.
Proof. solve_decision. Defined.

(** ** Records (model.rs) *)

Record ContainerRecord : Type := mkContainerRecord {
  cr_state : OciState;
  cr_generation : Z;
  cr_driver : DriverKind;
  cr_isolation : IsolationClass;
  cr_guest_session : option GuestSessionAttachment;
  cr_network_enforcement : option NetworkEnforcementAttachment;
  cr_config_digest : string;
  cr_attachments_digest : option string
}.
#[global] Instance ContainerRecord_eq_dec : EqDecision ContainerRecord.
Proof. solve_decision. Defined.

(** [ContainerRecord { state, ..record }] *)
Definition with_state (s : OciState) (r : ContainerRecord) : ContainerRecord :=
  mkContainerRecord s (cr_generation r) (cr_driver r) (cr_isolation r) (cr_guest_session r)
    (cr_network_enforcement r) (cr_config_digest r) (cr_attachments_digest r).

Record ProcessRecord : Type := mkProcessRecord {
  pr_target : ProcessTarget;
  pr_pid : option Z;
  pr_terminal : bool
}.
#[global] Instance ProcessRecord_eq_dec : EqDecision ProcessRecord.
Proof. solve_decision. Defined.

Record ExitStatus : Type := mkExitStatus {
  exit_code : option Z;
  exit_signal : option Z;
  oom_killed : bool
}.
#[global] Instance ExitStatus_eq_dec : EqDecision ExitStatus.
Proof. solve_decision. Defined.

(** [ExitStatus::validate] *)
Definition exit_status_validate (s : ExitStatus) : Result unit :=
  let invalid := for_operation (error_new InvalidArgument
    "exit status must contain either an exit code in 0..=255 or a positive signal; oomKilled requires signal termination")
    "validate-exit-status" in
  match exit_code s, exit_signal s, oom_killed s with
  | Some c, None, false => if decide (0 ≤ c ≤ 255) then Ok () else Err invalid
  | None, Some sig, _ => if decide (0 < sig) then Ok () else Err invalid
  | _, _, _ => Err invalid
  end.

Definition exit_status_exited (c : Z) : Result ExitStatus :=
  let s := mkExitStatus (Some c) None false in
  check! exit_status_validate s; Ok s.

Definition exit_status_signaled (sig : Z) (oom : bool) : Result ExitStatus :=
  let s := mkExitStatus None (Some sig) oom in
  check! exit_status_validate s; Ok s.

(** ** Events (model.rs) *)

Inductive RuntimeEventKind : Type :=
  | ContainerCreating | ContainerCreated | ContainerStarted | ContainerStopped
  | ContainerDeleted | ContainerPaused | ContainerResumed | ContainerAttested
  | ResourcesUpdated | ProcessCreated | ProcessStarted | ProcessExited | OutputDropped
  | RuntimeWarning.
#[global] Instance RuntimeEventKind_eq_dec : EqDecision RuntimeEventKind.
Proof. solve_decision. Defined.

Record RuntimeEvent : Type := mkRuntimeEvent {
  ev_sequence : Z;
  ev_timestamp_unix_ns : Z;
  ev_container : ContainerTarget;
  ev_operation_id : option string;
  ev_process_id : option string;
  ev_kind : RuntimeEventKind;
  ev_attributes : gmap string string
}.
#[global] Instance RuntimeEvent_eq_dec : EqDecision RuntimeEvent.
Proof. solve_decision. Defined.

Record EventBatch : Type := mkEventBatch {
  eb_events : list RuntimeEvent;
  eb_next_sequence : Z
}.

(** ** Process I/O (model.rs, process_io.rs) *)

Inductive IoMode : Type := IoNull | IoInherit | IoPipe | IoCapture | IoTerminal.
#[global] Instance IoMode_eq_dec : EqDecision IoMode.
Proof. solve_decision. Defined.

Record TerminalSize : Type := mkTerminalSize { ts_width : Z; ts_height : Z }.
#[global] Instance TerminalSize_eq_dec : EqDecision TerminalSize.
Proof. solve_decision. Defined.

Record ProcessIo : Type := mkProcessIo {
  io_stdin : IoMode;
  io_stdout : IoMode;
  io_stderr : IoMode;
  io_terminal_size : option TerminalSize
}.
#[global] Instance ProcessIo_eq_dec : EqDecision ProcessIo.
Proof. solve_decision. Defined.

Definition validate_terminal_size (width height : Z) : Result unit :=
  reject_if (bool_decide (width = 0) || bool_decide (height = 0))
    (invalid_request "{field} width and height must both be positive").

(** [resolve] of process_io.rs. *)
Definition resolve_io (io : ProcessIo) (process_uses_terminal : bool)
    (console_size : option TerminalSize) : Result ProcessIo :=
  let terminal m := bool_decide (m = IoTerminal) in
  let all_terminal := terminal (io_stdin io) && terminal (io_stdout io) && terminal (io_stderr io) in
  let any_terminal := terminal (io_stdin io) || terminal (io_stdout io) || terminal (io_stderr io) in
  check! reject_if (process_uses_terminal && negb all_terminal)
    (invalid_request "process.terminal requires terminal stdin, stdout, and stderr");
  check! reject_if (negb process_uses_terminal && any_terminal)
    (invalid_request "terminal I/O requires process.terminal to be true");
  if process_uses_terminal then
    try! resolved :=
      match console_size with
      | Some configured =>
          check! reject_if
              (match io_terminal_size io with
               | Some transport => bool_decide (transport ≠ configured)
               | None => false
               end)
            (invalid_request "process.consoleSize {}x{} conflicts with process_io.terminal_size");
          Ok (mkProcessIo (io_stdin io) (io_stdout io) (io_stderr io) (Some configured))
      | None => Ok io
      end in
    try! size := ok_or
      (invalid_request "process.terminal requires process.consoleSize or an initial terminal_size")
      (io_terminal_size resolved) in
    check! validate_terminal_size (ts_width size) (ts_height size);
    Ok resolved
  else
    check! reject_if (bool_decide (is_Some (io_terminal_size io)))
      (invalid_request "terminal_size requires process.terminal to be true");
    Ok io.

Definition u16_max : Z := 65535.

(** [terminal_size_from_oci]: two [u16::try_from] conversions. *)
Definition terminal_size_from_oci (width height : Z) : Result TerminalSize :=
  let unsupported msg := for_operation (error_new Unsupported msg) "validate-sdk-request" in
  check! reject_if (bool_decide (u16_max < width))
    (unsupported "process.consoleSize.width must not exceed {} on this runtime");
  check! reject_if (bool_decide (u16_max < height))
    (unsupported "process.consoleSize.height must not exceed {} on this runtime");
  Ok (mkTerminalSize width height).

(** [ProcessIo::resolve_for_process] *)
Definition resolve_for_process (io : ProcessIo) (process : OciProcess) : Result ProcessIo :=
  let terminal := default false (proc_terminal process) in
  try! console_size :=
    (if terminal then
       match proc_console_size process with
       | Some (w, h) => try! s := terminal_size_from_oci w h in Ok (Some s)
       | None => Ok None
       end
     else Ok None) in
  resolve_io io terminal console_size.

(** ** Requests (model.rs) *)

Record CreateRequest : Type := mkCreateRequest {
  create_context : OperationContext;
  create_id : string;
  create_bundle : OciBundle;
  create_isolation : IsolationRequest;
  create_attachments : CreateAttachments
}.

Record StartRequest : Type := mkStartRequest {
  start_context : OperationContext;
  start_target : ContainerTarget
}.

Record KillRequest : Type := mkKillRequest {
  kill_context : OperationContext;
  kill_target : ContainerTarget;
  kill_signal : Z;
  kill_all : bool
}.

Inductive DeleteMode : Type := StoppedOnly | Force.
#[global] Instance DeleteMode_eq_dec : EqDecision DeleteMode.
Proof. solve_decision. Defined.

Record DeleteRequest : Type := mkDeleteRequest {
  delete_context : OperationContext;
  delete_target : ContainerTarget;
  delete_mode : DeleteMode
}.

Record ExecRequest : Type := mkExecRequest {
  exec_context : OperationContext;
  exec_container : ContainerTarget;
  exec_process_id : string;
  exec_process : OciProcess;
  exec_io : ProcessIo
}.

(** [ContainerOperationRequest], used by pause and resume. *)
Record ContainerOperationRequest : Type := mkContainerOperationRequest {
  cop_context : OperationContext;
  cop_target : ContainerTarget
}.

Record UpdateRequest : Type := mkUpdateRequest {
  update_context : OperationContext;
  update_target : ContainerTarget;
  update_resources : string
}.

Record ListRequest : Type := mkListRequest { list_isolation : option IsolationClass }.

Record EventsRequest : Type := mkEventsRequest {
  events_container : option ContainerTarget;
  events_after_sequence : Z;
  events_limit : Z;
  events_wait_timeout_ms : option Z
}.

Record SignalProcessRequest : Type := mkSignalProcessRequest {
  sig_context : OperationContext;
  sig_process : ProcessTarget;
  sig_signal : Z
}.

Record WaitProcessRequest : Type := mkWaitProcessRequest {
  wait_process : ProcessTarget;
  wait_timeout_ms : option Z
}.

Record WriteStdinRequest : Type := mkWriteStdinRequest {
  ws_context : OperationContext;
  ws_process : ProcessTarget;
  ws_data : string
}.

Record CloseStdinRequest : Type := mkCloseStdinRequest {
  cs_context : OperationContext;
  cs_process : ProcessTarget
}.

Record ResizeRequest : Type := mkResizeRequest {
  rz_context : OperationContext;
  rz_process : ProcessTarget;
  rz_size : TerminalSize
}.

Record StateRequest : Type := mkStateRequest { state_target : ContainerTarget }.
Record ProcessesRequest : Type := mkProcessesRequest { processes_target : ContainerTarget }.
Record StatsRequest : Type := mkStatsRequest { statsreq_target : ContainerTarget }.

Record WaitRequest : Type := mkWaitRequest {
  waitreq_target : ContainerTarget;
  waitreq_timeout_ms : option Z
}.

Record ReadOutputRequest : Type := mkReadOutputRequest {
  ro_process : ProcessTarget;
  ro_after_sequence : Z;
  ro_max_bytes : Z;
  ro_wait_timeout_ms : option Z
}.

Inductive FileOp : Type := Upload | Download.
#[global] Instance FileOp_eq_dec : EqDecision FileOp.
Proof. solve_decision. Defined.

Record FileRequest : Type := mkFileRequest {
  file_target : ContainerTarget;
  file_op : FileOp;
  file_path : string;
  file_data : option string;
  file_user : option string;
  file_context : option OperationContext
}.
#[global] Instance FileRequest_eq_dec : EqDecision FileRequest.
Proof. solve_decision. Defined.

Record FileResponse : Type := mkFileResponse {
  fileresp_target : ContainerTarget;
  fileresp_data : option string;
  fileresp_size : Z
}.
#[global] Instance FileResponse_eq_dec : EqDecision FileResponse.
Proof. solve_decision. Defined.

Inductive FilesystemOp : Type := FsStat | FsMakeDir | FsMove | FsListDir | FsRemove.
#[global] Instance FilesystemOp_eq_dec : EqDecision FilesystemOp.
Proof. solve_decision. Defined.

(** [FilesystemOp::is_mutating] *)
Definition fs_is_mutating (op : FilesystemOp) : bool :=
  match op with FsMakeDir | FsMove | FsRemove => true | FsStat | FsListDir => false end.

Record FilesystemRequest : Type := mkFilesystemRequest {
  fs_target : ContainerTarget;
  fs_op : FilesystemOp;
  fs_path : string;
  fs_destination : option string;
  fs_depth : Z;
  fs_user : option string;
  fs_context : option OperationContext
}.
#[global] Instance FilesystemRequest_eq_dec : EqDecision FilesystemRequest.
Proof. solve_decision. Defined.

Inductive FilesystemEntryKind : Type := EntryUnspecified | EntryFile | EntryDirectory.
#[global] Instance FilesystemEntryKind_eq_dec : EqDecision FilesystemEntryKind.
Proof. solve_decision. Defined.

Record FilesystemEntry : Type := mkFilesystemEntry {
  fe_name : string;
  fe_kind : FilesystemEntryKind;
  fe_path : string;
  fe_size : Z;
  fe_mode : Z;
  fe_permissions : string;
  fe_owner : string;
  fe_group : string;
  fe_modified_seconds : Z;
  fe_modified_nanos : Z;
  fe_symlink_target : option string;
  fe_metadata : gmap string string
}.
#[global] Instance FilesystemEntry_eq_dec : EqDecision FilesystemEntry.
Proof. solve_decision. Defined.

Record FilesystemResponse : Type := mkFilesystemResponse {
  fsresp_target : ContainerTarget;
  fsresp_entry : option FilesystemEntry;
  fsresp_entries : list FilesystemEntry
}.
#[global] Instance FilesystemResponse_eq_dec : EqDecision FilesystemResponse.
Proof. solve_decision. Defined.

(** ** Request validation (validation.rs) *)

Definition MAX_EVENT_BATCH_ITEMS : Z := 4096.
Definition MAX_STDIN_WRITE_BYTES : Z := 16 * 1024 * 1024.
Definition MAX_FILE_TRANSFER_BYTES : Z := 32 * 1024 * 1024.
Definition MAX_FILESYSTEM_DEPTH : Z := 64.
Definition MAX_FILESYSTEM_PATH_BYTES : Z := 4096.
Definition MAX_FILESYSTEM_USER_BYTES : Z := 256.

(** Byte length of a UTF-8 string. *)
Definition byte_len (s : string) : Z := Z.of_nat (String.length s).

Fixpoint contains_nul (s : string) : bool :=
  match s with
  | EmptyString => false
  | String c s' => bool_decide (c = Ascii.zero) || contains_nul s'
  end.

Definition validate_positive_bounded (value maximum : Z) : Result unit :=
  reject_if (bool_decide (value = 0) || bool_decide (maximum < value))
    (invalid_request "{field} must be between 1 and {maximum}; received {value}").

(** [path.starts_with(prefix)] *)
Definition starts_with (prefix s : string) : bool := String.prefix prefix s.

Definition validate_container_path (path : string) : Result unit :=
  check! reject_if (bool_decide (path = "")) (invalid_request "{field} must not be empty");
  check! reject_if (bool_decide (MAX_FILESYSTEM_PATH_BYTES < byte_len path))
    (invalid_request "{field} is {} bytes; maximum is {MAX_FILESYSTEM_PATH_BYTES}");
  check! reject_if (contains_nul path) (invalid_request "{field} must not contain a NUL byte");
  reject_if (starts_with "~" path && negb (bool_decide (path = "~")) && negb (starts_with "~/" path))
    (invalid_request "{field} supports only the selected user's ~/ expansion").

Definition validate_file_user (user : option string) : Result unit :=
  match user with
  | None => Ok ()
  | Some u =>
      reject_if (bool_decide (u = "") || bool_decide (MAX_FILESYSTEM_USER_BYTES < byte_len u)
                 || contains_nul u)
        (invalid_request "file user must contain 1 through {MAX_FILESYSTEM_USER_BYTES} non-NUL bytes")
  end.

Definition validate_events_request (r : EventsRequest) : Result unit :=
  validate_positive_bounded (events_limit r) MAX_EVENT_BATCH_ITEMS.

Definition validate_write_stdin_request (r : WriteStdinRequest) : Result unit :=
  reject_if (bool_decide (MAX_STDIN_WRITE_BYTES < byte_len (ws_data r)))
    (invalid_request "write_stdin.data is {} bytes; maximum is {MAX_STDIN_WRITE_BYTES}").

Definition MAX_OUTPUT_READ_BYTES : Z := 16 * 1024 * 1024.
Definition validate_read_output_request (r : ReadOutputRequest) : Result unit :=
  validate_positive_bounded (ro_max_bytes r) MAX_OUTPUT_READ_BYTES.

Definition validate_resize_request (r : ResizeRequest) : Result unit :=
  validate_terminal_size (ts_width (rz_size r)) (ts_height (rz_size r)).

Section file_validation.
(** [STANDARD.decode] of the base64 crate: the decoded length, or [None] for
    text that is not base64. *)
Variable base64_decoded_len : string → option Z.

Definition validate_file_request (r : FileRequest) : Result unit :=
  check! validate_container_path (file_path r);
  check! validate_file_user (file_user r);
  match file_op r with
  | Upload =>
      check! reject_if (bool_decide (file_context r = None))
        (invalid_request "file upload requires an idempotency operation context");
      try! encoded := ok_or (invalid_request "file upload requires base64 data") (file_data r) in
      let maximum_encoded := (MAX_FILE_TRANSFER_BYTES + 2) / 3 * 4 in
      check! reject_if (bool_decide (maximum_encoded < byte_len encoded))
        (invalid_request "file upload payload exceeds {MAX_FILE_TRANSFER_BYTES} decoded bytes");
      try! decoded := ok_or (invalid_request "file upload data is not valid base64: {error}")
        (base64_decoded_len encoded) in
      reject_if (bool_decide (MAX_FILE_TRANSFER_BYTES < decoded))
        (invalid_request "file upload payload is {} bytes; maximum is {MAX_FILE_TRANSFER_BYTES}")
  | Download =>
      check! reject_if (bool_decide (is_Some (file_data r)))
        (invalid_request "file download must not carry an upload payload");
      reject_if (bool_decide (is_Some (file_context r)))
        (invalid_request "file download must not carry a mutation context")
  end.
End file_validation.

Definition validate_filesystem_request (r : FilesystemRequest) : Result unit :=
  check! validate_container_path (fs_path r);
  check! validate_file_user (fs_user r);
  check! match fs_op r with
         | FsMove =>
             try! destination := ok_or
               (invalid_request "filesystem move requires a destination path")
               (fs_destination r) in
             validate_container_path destination
         | _ => reject_if (bool_decide (is_Some (fs_destination r)))
                  (invalid_request "filesystem.destination is valid only for move")
         end;
  check! (if decide (fs_op r = FsListDir) then
            reject_if (bool_decide (MAX_FILESYSTEM_DEPTH < fs_depth r))
              (invalid_request "filesystem.depth must not exceed {MAX_FILESYSTEM_DEPTH}")
          else
            reject_if (bool_decide (fs_depth r ≠ 0))
              (invalid_request "filesystem.depth is valid only for list-dir"));
  check! reject_if (fs_is_mutating (fs_op r) && bool_decide (fs_context r = None))
    (invalid_request "mutating filesystem requests require an idempotency operation context");
  reject_if (negb (fs_is_mutating (fs_op r)) && bool_decide (is_Some (fs_context r)))
    (invalid_request "read-only filesystem requests must not carry a mutation context").

(** ** Container statistics (model.rs) *)

Record ContainerStats : Type := mkContainerStats {
  stats_target : ContainerTarget;
  stats_timestamp_unix_ns : Z;
  cpu_usage_ns : Z; cpu_user_ns : Z; cpu_system_ns : Z; cpu_throttled_ns : Z;
  memory_usage_bytes : Z;
  memory_limit_bytes : option Z;
  memory_peak_bytes : option Z;
  stats_process_count : Z;
  stats_metrics : gmap string Z
}.

Section stats.
(** [char::is_control() || char::is_whitespace()] somewhere in the name: the
    Unicode tables belong to the standard library. *)
Variable has_control_or_space : string → bool.

Definition metric_name_invalid (name : string) : bool :=
  bool_decide (name = "") || bool_decide (256 < byte_len name) || has_control_or_space name.

(** [ContainerStats::validate] *)
Definition container_stats_validate (s : ContainerStats) : Result unit :=
  let invalid msg := for_operation (error_new InvalidArgument msg) "validate-container-stats" in
  check! reject_if (bool_decide (stats_timestamp_unix_ns s = 0))
    (invalid "container stats timestamp must be a positive Unix nanosecond value");
  try! accounted := ok_or (invalid "container CPU user and system counters overflow")
    (checked_add_u64 (cpu_user_ns s) (cpu_system_ns s)) in
  check! reject_if (bool_decide (cpu_usage_ns s < accounted))
    (invalid "container CPU user and system counters exceed total usage");
  check! reject_if
    (match memory_peak_bytes s with
     | Some peak => bool_decide (peak < memory_usage_bytes s)
     | None => false
     end)
    (invalid "container memory peak is below current usage");
  reject_if (existsb metric_name_invalid (map_to_list (stats_metrics s)).*1)
    (invalid "container metric name is invalid: {name:?}").
End stats.

(** * What accepted SDK requests guarantee *)

(** Split the conditions of an accepted request. *)
Ltac accepted :=
  inv_ok;
  repeat match goal with
  | H : _ || _ = false |- _ => apply orb_false_iff in H as [? ?]
  | H : _ && _ = true |- _ => apply andb_true_iff in H as [? ?]
  | H : negb _ = false |- _ => apply negb_false_iff in H
  | H : bool_decide _ = false |- _ => apply bool_decide_eq_false in H
  | H : bool_decide _ = true |- _ => apply bool_decide_eq_true in H
  end.

(** resolved process I/O is consistent and stable.  With a terminal, all three
    streams are the terminal and the size is positive and is the configured
    console size when there is one; without, no stream is a terminal and there
    is no size.  Resolving never changes a stream, and resolving the result
    again changes nothing. *)
Theorem resolve_io_consistent io terminal console io' :
  resolve_io io terminal console = Ok io' →
  io_stdin io' = io_stdin io ∧ io_stdout io' = io_stdout io ∧ io_stderr io' = io_stderr io ∧
  (if terminal
   then io_stdin io = IoTerminal ∧ io_stdout io = IoTerminal ∧ io_stderr io = IoTerminal ∧
        ∃ size, io_terminal_size io' = Some size ∧ ts_width size ≠ 0 ∧ ts_height size ≠ 0 ∧
          (∀ c, console = Some c → size = c)
   else io_stdin io ≠ IoTerminal ∧ io_stdout io ≠ IoTerminal ∧ io_stderr io ≠ IoTerminal ∧
        io_terminal_size io' = None) ∧
  resolve_io io' terminal console = Ok io'.
Proof.
  destruct io as [i o e s]. unfold resolve_io, validate_terminal_size. destruct terminal; simpl.
  - intros H. accepted. subst. destruct console as [c|]; accepted; simpl in *; simplify_eq; accepted.
    + split_and!; try done; [exists x1; split_and!; try done; by intros ? [= <-]|].
      rewrite bool_decide_eq_false_2 by naive_solver. simpl. by rewrite !bool_decide_eq_false_2.
    + split_and!; try done; [eexists; split_and!; eauto; done|].
      simpl. by rewrite !bool_decide_eq_false_2.
  - intros H. accepted. simpl. split_and!; try done.
    { destruct s; [exfalso|done]. match goal with H : ¬ is_Some _ |- _ => by apply H end. }
    rewrite !(bool_decide_eq_false_2 (_ = IoTerminal)) by done. simpl.
    by rewrite bool_decide_eq_false_2.
Qed.

Lemma resolve_io_consistent_witness :
  resolve_io (mkProcessIo IoTerminal IoTerminal IoTerminal (Some (mkTerminalSize 80 24))) true
    (Some (mkTerminalSize 80 24))
  = Ok (mkProcessIo IoTerminal IoTerminal IoTerminal (Some (mkTerminalSize 80 24))).
Proof.
  exact (proj2 (proj2 (proj2 (proj2 (resolve_io_consistent
    (mkProcessIo IoTerminal IoTerminal IoTerminal None) true (Some (mkTerminalSize 80 24)) _
    eq_refl))))).
Defined.

(** accepted filesystem requests are unambiguous.  A request is idempotent by
    an operation context exactly when it mutates; it has a destination exactly
    when it moves; only a directory listing has a depth, of at most 64; and its
    paths are non-empty, at most 4096 bytes and free of NUL bytes. *)
Theorem filesystem_request_unambiguous r :
  validate_filesystem_request r = Ok () →
  (is_Some (fs_context r) ↔ fs_is_mutating (fs_op r) = true) ∧
  (is_Some (fs_destination r) ↔ fs_op r = FsMove) ∧
  (if decide (fs_op r = FsListDir) then fs_depth r ≤ MAX_FILESYSTEM_DEPTH else fs_depth r = 0) ∧
  (∀ path, path = fs_path r ∨ fs_destination r = Some path →
     path ≠ "" ∧ byte_len path ≤ MAX_FILESYSTEM_PATH_BYTES ∧ contains_nul path = false).
Proof.
  assert (∀ path u, validate_container_path path = Ok u →
    path ≠ "" ∧ byte_len path ≤ MAX_FILESYSTEM_PATH_BYTES ∧ contains_nul path = false) as Hpath.
  { unfold validate_container_path. intros path u H. accepted. split_and!; [done|lia|done]. }
  unfold validate_filesystem_request. intros H.
  apply rbind_ok in H as (u1 & Hp & H). apply rbind_ok in H as (u2 & _ & H).
  apply rbind_ok in H as (u3 & Hdest & H). apply rbind_ok in H as (u4 & Hdepth & H).
  apply rbind_ok in H as (u5 & Hc1%reject_if_ok & Hc2%reject_if_ok). split_and!.
  - destruct (fs_is_mutating (fs_op r)); simpl in *; accepted.
    + split; [done|]. intros _. by destruct (fs_context r).
    + done.
  - by destruct (fs_op r); accepted.
  - case_decide; accepted; lia.
  - intros path [->|Hd]; [by eapply Hpath|].
    destruct (fs_op r); accepted; rewrite Hd in *; simplify_eq;
      first [by eapply Hpath | by exfalso; eauto].
Qed.

Definition demo_move : FilesystemRequest :=
  mkFilesystemRequest (target_current "web") FsMove "/a" (Some "/b") 0 None
    (Some (mkOperationContext "op" None)).

Lemma filesystem_request_unambiguous_witness :
  is_Some (fs_destination demo_move) ↔ fs_op demo_move = FsMove.
Proof. exact (proj1 (proj2 (filesystem_request_unambiguous demo_move eq_refl))). Defined.

(** accepted statistics are coherent.  CPU accounting of accepted statistics
    did not wrap: user plus system time fits [u64] and does not exceed the
    total, the memory peak is at least the current usage, and the timestamp is
    set. *)
Theorem container_stats_coherent space s :
  container_stats_validate space s = Ok () →
  cpu_user_ns s + cpu_system_ns s ≤ Z.min u64_max (cpu_usage_ns s) ∧
  (∀ peak, memory_peak_bytes s = Some peak → memory_usage_bytes s ≤ peak) ∧
  stats_timestamp_unix_ns s ≠ 0.
Proof.
  unfold container_stats_validate, checked_add_u64. intros H. accepted.
  case_decide; simplify_eq. split_and!; [lia| |done].
  intros peak Hp. match goal with H : match memory_peak_bytes s with _ => _ end = _ |- _ =>
    rewrite Hp in H end. accepted. lia.
Qed.

Definition demo_stats : ContainerStats :=
  mkContainerStats (target_current "web") 1 30 10 20 0 4096 None (Some 8192) 1 ∅.

Lemma container_stats_coherent_witness :
  cpu_user_ns demo_stats + cpu_system_ns demo_stats ≤ Z.min u64_max (cpu_usage_ns demo_stats).
Proof. exact (proj1 (container_stats_coherent (λ _, false) demo_stats eq_refl)). Defined.
