(* ===== verification/Identifiers.v ===== *)
(** * Typed identifiers (crates/sdk/src/id.rs)

    [validate_identifier], the constructor behind [ContainerId], [ProcessId],
    [OperationId] and the other typed IDs, and why the store may use an
    accepted identifier as a path component: the file names that the store
    derives from identifiers stay inside their directory and never collide. *)

From stdpp Require Import base countable sets strings list.
From Stdlib Require Import Ascii.
From S2P Require Import Prelude Sdk.
Local Open Scope string_scope.
Local Open Scope Z_scope.

Definition MAX_IDENTIFIER_BYTES : Z := 128.

(** ** ASCII classification (core::ascii) *)

Definition byte_in (lo hi : N) (c : ascii) : bool :=
  (lo <=? N_of_ascii c)%N && (N_of_ascii c <=? hi)%N.

Definition is_ascii_digit (c : ascii) : bool := byte_in 48 57 c.
Definition is_ascii_upper (c : ascii) : bool := byte_in 65 90 c.
Definition is_ascii_lower (c : ascii) : bool := byte_in 97 122 c.
Definition is_ascii_alphanumeric (c : ascii) : bool :=
  is_ascii_digit c || is_ascii_upper c || is_ascii_lower c.

(** [u8::to_ascii_uppercase] *)
Definition to_ascii_uppercase (c : ascii) : ascii :=
  if is_ascii_lower c then ascii_of_N (N_of_ascii c - 32) else c.

Fixpoint upper (s : string) : string :=
  match s with
  | EmptyString => EmptyString
  | String c s' => String (to_ascii_uppercase c) (upper s')
  end.

(** [str::eq_ignore_ascii_case] *)
Definition eq_ignore_ascii_case (a b : string) : bool := bool_decide (upper a = upper b).

(** ** Validation *)

(** A byte allowed after the first one. *)
Definition identifier_byte (c : ascii) : bool :=
  is_ascii_alphanumeric c
  || bool_decide (c = "_"%char) || bool_decide (c = "."%char)
  || bool_decide (c = "+"%char) || bool_decide (c = "-"%char).

Fixpoint all_bytes (p : ascii → bool) (s : string) : bool :=
  match s with
  | EmptyString => true
  | String c s' => p c && all_bytes p s'
  end.

Definition is_lower_hex (c : ascii) : bool := is_ascii_digit c || byte_in 97 102 c.

(** [str::split(sep)]: the text between the separators. *)
Fixpoint split_on (sep : ascii) (s : string) : list string :=
  match s with
  | EmptyString => [EmptyString]
  | String c s' =>
      if bool_decide (c = sep) then EmptyString :: split_on sep s'
      else match split_on sep s' with
           | segment :: rest => String c segment :: rest
           | [] => [String c EmptyString]
           end
  end.

(** [str::strip_prefix] *)
Fixpoint strip_prefix (prefix s : string) : option string :=
  match prefix, s with
  | EmptyString, _ => Some s
  | String a p, String b s' => if bool_decide (a = b) then strip_prefix p s' else None
  | String _ _, EmptyString => None
  end.

Fixpoint last_byte (s : string) : option ascii :=
  match s with
  | EmptyString => None
  | String c EmptyString => Some c
  | String _ s' => last_byte s'
  end.

(** The part before the first dot: [value.split_once('.').map_or(value, ..)]. *)
Fixpoint basename (s : string) : string :=
  match s with
  | EmptyString => EmptyString
  | String c s' => if bool_decide (c = "."%char) then EmptyString else String c (basename s')
  end.

(** Accepted identifiers are ASCII before this test runs, so slicing the base
    name at byte 3 is [substring 0 3]. *)
Definition is_windows_reserved_name (value : string) : bool :=
  let base := basename value in
  if eq_ignore_ascii_case base "CON" || eq_ignore_ascii_case base "PRN"
     || eq_ignore_ascii_case base "AUX" || eq_ignore_ascii_case base "NUL"
  then true
  else
    bool_decide (String.length base = 4%nat)
    && match String.get 3 base with Some c => byte_in 49 57 c | None => false end
    && (eq_ignore_ascii_case (String.substring 0 3 base) "COM"
        || eq_ignore_ascii_case (String.substring 0 3 base) "LPT").

Definition validate_identifier (value : string) : Result string :=
  let invalid msg := error_new InvalidArgument msg in
  check! reject_if (bool_decide (value = "")) (invalid "{kind} must not be empty");
  check! reject_if (bool_decide (MAX_IDENTIFIER_BYTES < byte_len value))
    (invalid "{kind} must be at most {MAX_IDENTIFIER_BYTES} bytes");
  match value with
  | EmptyString => Err (invalid "{kind} must not be empty")
  | String first bytes =>
      check! reject_if (negb (is_ascii_alphanumeric first))
        (invalid "{kind} must start with an ASCII letter or digit");
      check! reject_if (negb (all_bytes identifier_byte bytes))
        (invalid "{kind} contains a character that is unsafe in a runtime path");
      check! reject_if (bool_decide (last_byte value = Some "."%char) || is_windows_reserved_name value)
        (invalid "{kind} is not a portable runtime path component");
      Ok value
  end.

(** ** File names derived from identifiers (state/mod.rs, filesystem/transaction.rs) *)

(** [format!("{}.json", id)] *)
Definition record_file_name (id : string) : string := id +:+ ".json".

(** [format!(".{destination_name_utf8}.next")] *)
Definition transaction_file_name (destination : string) : string :=
  "." +:+ destination +:+ ".next".

(** The suffixes of quarantine directories (mod.rs, delete.rs). *)
Inductive TombstoneKind : Type := Deleted | FailedCreate | FailedRestore.
#[global] Instance TombstoneKind_eq_dec : EqDecision TombstoneKind.
Proof. solve_decision. Defined.
#[global] Instance TombstoneKind_countable : Countable TombstoneKind.
Proof.
  apply (inj_countable'
    (λ k, match k with Deleted => 0%nat | FailedCreate => 1%nat | FailedRestore => 2%nat end)
    (λ n, match n with 0%nat => Deleted | 1%nat => FailedCreate | _ => FailedRestore end)).
  by intros [].
Defined.

Definition tombstone_suffix (k : TombstoneKind) : string :=
  match k with
  | Deleted => ".deleted"
  | FailedCreate => ".failed-create"
  | FailedRestore => ".failed-restore"
  end.

(** [format!("{}.deleted", operation_id)] and its two siblings. *)
Definition tombstone_name (k : TombstoneKind) (operation_id : string) : string :=
  operation_id +:+ tombstone_suffix k.

(** ** Lemmas on byte strings *)

Definition has_byte (c : ascii) (s : string) : Prop := all_bytes (λ b, negb (bool_decide (b = c))) s = false.

Lemma all_bytes_weaken (p q : ascii → bool) s :
  (∀ c, p c = true → q c = true) → all_bytes p s = true → all_bytes q s = true.
Proof.
  intros Hpq. induction s as [|c s IH]; simpl; [done|].
  rewrite !andb_true_iff. naive_solver.
Qed.

Lemma string_length_app (a b : string) :
  String.length (a +:+ b) = (String.length a + String.length b)%nat.
Proof. induction a as [|c a IH]; simpl; [done|by rewrite IH]. Qed.

Lemma app_inv_tail_string (a b s : string) : a +:+ s = b +:+ s → a = b.
Proof.
  revert b. induction a as [|c a IH]; intros [|d b]; simpl; intros H; [done| | |].
  - exfalso. apply (f_equal String.length) in H. simpl in H.
    rewrite !string_length_app in H. simpl in H. lia.
  - exfalso. apply (f_equal String.length) in H. simpl in H.
    rewrite !string_length_app in H. simpl in H. lia.
  - inversion H; subst. f_equal. by apply IH.
Qed.

Lemma last_byte_app a b : b ≠ "" → last_byte (a +:+ b) = last_byte b.
Proof.
  intros Hb. induction a as [|c a IH]; [done|].
  simpl. destruct (a +:+ b) eqn:Hab; [|by rewrite <- IH].
  exfalso. destruct a; simpl in Hab; [by subst|done].
Qed.

Lemma identifier_byte_not_separator c :
  identifier_byte c = true → c ≠ "/"%char ∧ c ≠ "\"%char ∧ c ≠ zero ∧ c ≠ ":"%char.
Proof. intros H. repeat split; intros ->; by vm_compute in H. Qed.

Lemma alphanumeric_identifier_byte c : is_ascii_alphanumeric c = true → identifier_byte c = true.
Proof. unfold identifier_byte. by intros ->. Qed.

Lemma validate_identifier_inv value v :
  validate_identifier value = Ok v →
  v = value ∧ byte_len value ≤ MAX_IDENTIFIER_BYTES ∧
  ∃ first bytes, value = String first bytes ∧ is_ascii_alphanumeric first = true ∧
    all_bytes identifier_byte bytes = true ∧ last_byte value ≠ Some "."%char ∧
    is_windows_reserved_name value = false.
Proof.
  unfold validate_identifier. intros H. inv_ok. destruct value as [|first bytes]; [done|].
  inv_ok. repeat match goal with H : _ || _ = false |- _ => apply orb_false_iff in H as [? ?] end.
  repeat match goal with H : negb _ = false |- _ => apply negb_false_iff in H end.
  repeat match goal with H : bool_decide _ = false |- _ => apply bool_decide_eq_false in H end.
  split; [done|]. split; [lia|]. eauto 10.
Qed.

(** ** Properties *)

(** An accepted identifier is one non-empty path component of at most 128
    bytes: it contains no separator, no NUL byte and no drive colon, is not
    [.] or [..], does not end in a dot and is not a Windows device name. *)
Theorem validate_identifier_path_safe value v :
  validate_identifier value = Ok v →
  v = value ∧ value ≠ "" ∧ byte_len value ≤ MAX_IDENTIFIER_BYTES ∧
  (∀ c, c ∈ ["/"%char; "\"%char; zero; ":"%char] → ¬ has_byte c value) ∧
  value ≠ "." ∧ value ≠ ".." ∧ last_byte value ≠ Some "."%char ∧
  is_windows_reserved_name value = false.
Proof.
  intros Hv. apply validate_identifier_inv in Hv
    as (-> & Hlen & first & bytes & -> & Hfirst & Hbytes & Hlast & Hres).
  assert (all_bytes identifier_byte (String first bytes) = true) as Hall.
  { simpl. by rewrite (alphanumeric_identifier_byte _ Hfirst), Hbytes. }
  repeat split; [done|done| |by intros [= -> ->]|by intros [= -> ->]|done|done].
  intros c Hc Hhas. unfold has_byte in Hhas.
  rewrite (all_bytes_weaken identifier_byte) in Hhas; [done| |exact Hall].
  intros b Hb. apply negb_true_iff, bool_decide_eq_false. intros ->.
  pose proof (identifier_byte_not_separator c Hb). set_solver.
Qed.

(** every identifier that satisfies the documented grammar is accepted,
    unchanged: the validator rejects nothing else. *)
Theorem validate_identifier_complete first bytes :
  byte_len (String first bytes) ≤ MAX_IDENTIFIER_BYTES →
  is_ascii_alphanumeric first = true → all_bytes identifier_byte bytes = true →
  last_byte (String first bytes) ≠ Some "."%char →
  is_windows_reserved_name (String first bytes) = false →
  validate_identifier (String first bytes) = Ok (String first bytes).
Proof.
  intros Hlen Hf Hb Hl Hr. unfold validate_identifier.
  rewrite (bool_decide_eq_false_2 (String first bytes = "")) by done.
  rewrite (bool_decide_eq_false_2 (MAX_IDENTIFIER_BYTES < _)) by lia.
  rewrite (bool_decide_eq_false_2 (last_byte _ = _)) by done.
  by rewrite Hf, Hb, Hr.
Qed.

Lemma record_file_name_inj a b : record_file_name a = record_file_name b → a = b.
Proof. apply app_inv_tail_string. Qed.

Lemma record_file_name_last a : last_byte (record_file_name a) = Some "n"%char.
Proof. unfold record_file_name. by rewrite last_byte_app. Qed.

Lemma transaction_file_name_last d : last_byte (transaction_file_name d) = Some "t"%char.
Proof.
  unfold transaction_file_name. rewrite last_byte_app; [by rewrite last_byte_app|].
  intros H. apply (f_equal String.length) in H. rewrite string_length_app in H. simpl in H. lia.
Qed.

Lemma tombstone_name_last k o :
  last_byte (tombstone_name k o) =
    Some (match k with Deleted => "d"%char | _ => "e"%char end).
Proof. unfold tombstone_name. by destruct k; rewrite last_byte_app. Qed.

(** The two "e" suffixes differ in their sixth byte from the end. *)
Fixpoint rev_string (s acc : string) : string :=
  match s with EmptyString => acc | String c s' => rev_string s' (String c acc) end.

Lemma rev_string_app a b acc : rev_string (a +:+ b) acc = rev_string b (rev_string a acc).
Proof. revert acc. induction a as [|c a IH]; intros acc; [done|]. apply IH. Qed.

Lemma tombstone_kinds_differ a b :
  a +:+ tombstone_suffix FailedCreate ≠ b +:+ tombstone_suffix FailedRestore.
Proof.
  intros H. apply (f_equal (λ s, rev_string s "")) in H. rewrite !rev_string_app in H. done.
Qed.

(** the store's file naming is injective: distinct identifiers never share
    a record file or a tombstone, tombstones of different kinds are distinct
    directories, and no record file is taken for a pending transaction file. *)
Theorem store_file_names_disjoint a b k k' :
  (record_file_name a = record_file_name b → a = b) ∧
  record_file_name a ≠ transaction_file_name b ∧
  (tombstone_name k a = tombstone_name k' b → k = k' ∧ a = b).
Proof.
  split; [apply record_file_name_inj|]. split.
  - intros H. apply (f_equal last_byte) in H.
    by rewrite record_file_name_last, transaction_file_name_last in H.
  - intros H. pose proof (f_equal last_byte H) as Hl. rewrite !tombstone_name_last in Hl.
    unfold tombstone_name in H.
    destruct k, k'; try done;
      try (by apply app_inv_tail_string in H as ->);
      [by apply tombstone_kinds_differ in H|by symmetry in H; apply tombstone_kinds_differ in H].
Qed.

(** ** Witnesses *)

Lemma validate_identifier_path_safe_witness :
  validate_identifier "box_01.worker+test" = Ok "box_01.worker+test" ∧
  "box_01.worker+test" ≠ "..".
Proof.
  split; [vm_compute; reflexivity|].
  apply (validate_identifier_path_safe "box_01.worker+test" "box_01.worker+test").
  vm_compute; reflexivity.
Defined.

Lemma validate_identifier_complete_witness :
  validate_identifier "com10" = Ok "com10".
Proof. apply (validate_identifier_complete "c"%char "om10"); vm_compute; congruence. Defined.

Example reserved_names_rejected :
  forallb (λ s, negb (is_ok (validate_identifier s)))
    ["../box"; "/box"; "box/child"; "box\child"; "-box"; "box."; "NUL"; "con.json"; "COM1"; "lpt9.log"; ""]
  = true.
Proof. vm_compute. reflexivity. Qed.
