(* ===== verification/DeviceAccess.v ===== *)
(** * Device access of the guest agent (agent/src/executor/device/access.rs)

    The agent enforces [linux.devices] and [linux.resources.devices] with an
    eBPF program attached to the container cgroup.  [DeviceAccessBoundary]
    holds the immutable device inventory and the optional ordered policy;
    [build_program] compiles both into instructions with patched forward
    jumps.  Instructions are kept in the kernel's encoding (code, packed
    registers, offset, immediate), so the machine below decodes what the agent
    hands to the kernel.

    Two machines run a program.  [kernel] follows the eBPF instruction set: a
    64-bit class sign-extends its immediate to 64 bits and compares whole
    registers.  [harness] is the interpreter of the repository's unit tests,
    which truncates both to 32 bits. *)

From stdpp Require Import base gmap list strings.
From S2P Require Import Prelude Sdk Collections.
From Stdlib Require Import ZArith Lia Ascii.
Local Open Scope string_scope.
Local Open Scope list_scope.
Local Open Scope Z_scope.

(** ** Errors (device.rs) *)

Definition device_error (c : ErrorCode) (msg : string) : Error :=
  for_operation (error_new c msg) "configure-container-devices".
Definition invalid_device (msg : string) : Error := device_error InvalidArgument msg.
Definition unsupported_device (msg : string) : Error := device_error Unsupported msg.

(** ** Constants *)

Definition MAX_DEVICE_ACCESS_RULES : nat := 512.
Definition MAX_DEVICE_ACCESS_IDENTITIES : nat := 256 + 6 + 2.
Definition OCI_PTMX_MAJOR : Z := 5.
Definition OCI_PTMX_MINOR : Z := 2.
Definition UNIX98_PTY_SLAVE_MAJOR : Z := 136.

Definition BPF_DEVCG_ACC_MKNOD : Z := 1.
Definition BPF_DEVCG_ACC_READ : Z := 2.
Definition BPF_DEVCG_ACC_WRITE : Z := 4.
Definition BPF_DEVCG_DEV_BLOCK : Z := 1.
Definition BPF_DEVCG_DEV_CHAR : Z := 2.
Definition ALL_ACCESS : Z :=
  Z.lor (Z.lor BPF_DEVCG_ACC_READ BPF_DEVCG_ACC_WRITE) BPF_DEVCG_ACC_MKNOD.

(** Classic BPF constants of libc and the extended ones of the source. *)
Definition BPF_LDX : Z := 0x01.
Definition BPF_ALU : Z := 0x04.
Definition BPF_JMP : Z := 0x05.
Definition BPF_W : Z := 0x00.
Definition BPF_MEM : Z := 0x60.
Definition BPF_K : Z := 0x00.
Definition BPF_X : Z := 0x08.
Definition BPF_ALU64 : Z := 0x07.
Definition BPF_MOV : Z := 0xb0.
Definition BPF_AND : Z := 0x50.
Definition BPF_OR : Z := 0x40.
Definition BPF_RSH : Z := 0x70.
Definition BPF_JNE : Z := 0x50.
Definition BPF_EXIT : Z := 0x90.

(** ** Data *)

Inductive DeviceAccessKind : Type := KindAll | KindBlock | KindCharacter.
#[global] Instance DeviceAccessKind_eq_dec : EqDecision DeviceAccessKind.
Proof. solve_decision. Defined.

Record DeviceAccessIdentity : Type := mkIdentity {
  di_kind : DeviceAccessKind;
  di_major : Z;
  di_minor : option Z
}.

(** The derived order: kind, major, minor. *)
Definition kind_index (k : DeviceAccessKind) : Z :=
  match k with KindAll => 0 | KindBlock => 1 | KindCharacter => 2 end.
#[global] Instance DeviceAccessIdentity_ord : Ord DeviceAccessIdentity.
Proof.
  refine (Ord_via (λ i, (kind_index (di_kind i), (di_major i, di_minor i))) _).
  intros [k m n] [k' m' n']. simpl. intros [= Hk -> ->]. f_equal. by destruct k, k'.
Defined.

Record DeviceAccessRule : Type := mkRule {
  dr_allow : bool;
  dr_kind : DeviceAccessKind;
  dr_major : option Z;
  dr_minor : option Z;
  dr_access : Z
}.

Record DeviceAccessPolicy : Type := mkPolicy { dp_rules : list DeviceAccessRule }.

Record DeviceAccessBoundary : Type := mkBoundary {
  db_identities : list DeviceAccessIdentity;
  db_policy : option DeviceAccessPolicy
}.

(** The fields of [LinuxDeviceCgroup] that the agent reads. *)
Inductive LinuxDeviceType : Type := DevB | DevC | DevU | DevP | DevA.
Record LinuxDeviceCgroup : Type := mkDeviceCgroup {
  ldc_allow : bool;
  ldc_typ : option LinuxDeviceType;
  ldc_major : option Z;
  ldc_minor : option Z;
  ldc_access : option string
}.

(** [OCI_LINUX_DEFAULT_DEVICE_NODES] of linux_device.rs. *)
Record OciLinuxDefaultDeviceNode : Type := mkDefaultNode {
  dn_path : string; dn_major : Z; dn_minor : Z; dn_mode : Z
}.
Definition OCI_LINUX_DEFAULT_DEVICE_NODES : list OciLinuxDefaultDeviceNode :=
  [ mkDefaultNode "/dev/null" 1 3 438; mkDefaultNode "/dev/zero" 1 5 438;
    mkDefaultNode "/dev/full" 1 7 438; mkDefaultNode "/dev/random" 1 8 438;
    mkDefaultNode "/dev/urandom" 1 9 438; mkDefaultNode "/dev/tty" 5 0 438 ].

(** ** Validation and parsing *)

(** A rule that [DeviceAccessPolicy::validate] refuses; [access & !ALL_ACCESS]
    on a byte is [Z.ldiff]. *)
Definition rule_malformed (r : DeviceAccessRule) : bool :=
  (dr_access r =? 0)
  || negb (Z.ldiff (dr_access r) ALL_ACCESS =? 0)
  || (bool_decide (dr_kind r = KindAll)
      && (bool_decide (is_Some (dr_major r)) || bool_decide (is_Some (dr_minor r)))).

Definition policy_validate (p : DeviceAccessPolicy) : Result () :=
  check! reject_if (bool_decide (dp_rules p = [])
                    || (MAX_DEVICE_ACCESS_RULES <? length (dp_rules p))%nat)
    (device_error PermissionDenied "serialized device policy has an invalid rule count");
  reject_if (existsb rule_malformed (dp_rules p))
    (device_error PermissionDenied "serialized device policy contains an invalid access rule").

Definition boundary_validate (b : DeviceAccessBoundary) : Result () :=
  check! reject_if (bool_decide (db_identities b = [])
                    || (MAX_DEVICE_ACCESS_IDENTITIES <? length (db_identities b))%nat)
    (device_error PermissionDenied "OCI device inventory has an invalid identity count");
  check! reject_if (existsb (λ i, bool_decide (di_kind i = KindAll)) (db_identities b))
    (device_error PermissionDenied "OCI device inventory contains a wildcard device type");
  match db_policy b with
  | Some policy => policy_validate policy
  | None => Ok ()
  end.

(** The identities of the dynamic terminal nodes. *)
Definition ptmx_identity : DeviceAccessIdentity :=
  mkIdentity KindCharacter OCI_PTMX_MAJOR (Some OCI_PTMX_MINOR).
Definition pty_identity : DeviceAccessIdentity :=
  mkIdentity KindCharacter UNIX98_PTY_SLAVE_MAJOR None.

Definition for_oci_nodes (nodes : list (DeviceAccessKind * Z * Z))
    (policy : option DeviceAccessPolicy) : Result DeviceAccessBoundary :=
  let identities := btree_collect
    ((λ n, mkIdentity n.1.1 n.1.2 (Some n.2)) <$> nodes) in
  let identities := btree_insert ptmx_identity identities in
  let identities := btree_insert pty_identity identities in
  let boundary := mkBoundary identities policy in
  check! boundary_validate boundary;
  Ok boundary.

(** [u32::try_from] of an optional [i64]. *)
Definition parse_device_number (value : option Z) : Result (option Z) :=
  match value with
  | None => Ok None
  | Some v => if bool_decide (0 ≤ v ≤ u32_max) then Ok (Some v)
              else Err (invalid_device "{field} must be a non-negative u32 when present")
  end.

Fixpoint parse_access_chars (mask : Z) (s : string) : Result Z :=
  match s with
  | EmptyString => Ok mask
  | String c s' =>
      if Ascii.eqb c "r"%char then parse_access_chars (Z.lor mask BPF_DEVCG_ACC_READ) s'
      else if Ascii.eqb c "w"%char then parse_access_chars (Z.lor mask BPF_DEVCG_ACC_WRITE) s'
      else if Ascii.eqb c "m"%char then parse_access_chars (Z.lor mask BPF_DEVCG_ACC_MKNOD) s'
      else Err (invalid_device "{field} must contain only `r`, `w`, and `m`")
  end.
Definition parse_device_access_mask (value : option string) : Result Z :=
  match value with
  | None => Ok 0
  | Some value => parse_access_chars 0 value
  end.

Definition rule_from_oci (rule : LinuxDeviceCgroup) : Result DeviceAccessRule :=
  try! kind := match ldc_typ rule with
    | None | Some DevA => Ok KindAll
    | Some DevB => Ok KindBlock
    | Some DevC => Ok KindCharacter
    | Some DevU => Err (unsupported_device
        "{field}.type: device cgroup rules use `c` for character devices")
    | Some DevP => Err (unsupported_device
        "{field}.type: FIFO nodes are not governed by the Linux devices controller")
    end in
  try! major := parse_device_number (ldc_major rule) in
  try! minor := parse_device_number (ldc_minor rule) in
  try! access := parse_device_access_mask (ldc_access rule) in
  let specific := negb (bool_decide (kind = KindAll)) in
  Ok (mkRule (ldc_allow rule) kind
        (if specific then major else None) (if specific then minor else None) access).

Definition policy_from_oci (rules : list LinuxDeviceCgroup)
    : Result (option DeviceAccessPolicy) :=
  if bool_decide (rules = []) then Ok None
  else
    check! reject_if (MAX_DEVICE_ACCESS_RULES <? length rules)%nat
      (invalid_device "linux.resources.devices contains {} entries; maximum is {}");
    try! parsed := rmap rule_from_oci rules in
    let kept := filter (λ r, dr_access r ≠ 0) parsed in
    if bool_decide (kept = []) then Ok None
    else
      let policy := mkPolicy kept in
      check! policy_validate policy;
      Ok (Some policy).

(** [position(|expected| *expected == key)] *)
Fixpoint position {A} (p : A → bool) (l : list A) : option nat :=
  match l with
  | [] => None
  | x :: l' => if p x then Some 0%nat else S <$> position p l'
  end.

(** The loop over the grants of [is_exact_rootless_allowlist]. *)
Fixpoint match_grants (grants : list DeviceAccessRule)
    (remaining : list (DeviceAccessKind * Z * Z)) : bool :=
  match grants with
  | [] => bool_decide (remaining = [])
  | grant :: grants' =>
      if negb (dr_allow grant) || bool_decide (dr_kind grant = KindAll)
         || (dr_access grant =? 0) || negb (Z.ldiff (dr_access grant) ALL_ACCESS =? 0)
      then false
      else match dr_major grant, dr_minor grant with
           | Some major, Some minor =>
               match position (λ e, bool_decide (e = (dr_kind grant, major, minor))) remaining with
               | Some index => match_grants grants' (swap_remove index remaining)
               | None => false
               end
           | _, _ => false
           end
  end.

Definition is_exact_rootless_allowlist (p : DeviceAccessPolicy)
    (devices : list (DeviceAccessKind * Z * Z)) : bool :=
  match dp_rules p with
  | [] => false
  | reset :: grants =>
      if dr_allow reset || negb (bool_decide (dr_kind reset = KindAll))
         || bool_decide (is_Some (dr_major reset)) || bool_decide (is_Some (dr_minor reset))
         || negb (dr_access reset =? ALL_ACCESS)
         || negb (bool_decide (length grants = length devices))
      then false
      else match_grants grants devices
  end.

(** ** Instructions *)

Record BpfInsn : Type := mkInsn { bi_code : Z; bi_regs : Z; bi_off : Z; bi_imm : Z }.

Definition pack_regs (dst src : Z) : Z :=
  Z.lor (Z.land dst 15) (Z.shiftl (Z.land src 15) 4).
Definition u32_as_i32 (value : Z) : Z :=
  if value <? 2 ^ 31 then value else value - 2 ^ 32.

Definition ldx_mem (size dst src off : Z) : BpfInsn :=
  mkInsn (Z.lor (Z.lor BPF_LDX size) BPF_MEM) (pack_regs dst src) off 0.
Definition alu32_imm (op dst imm : Z) : BpfInsn :=
  mkInsn (Z.lor (Z.lor BPF_ALU op) BPF_K) (pack_regs dst 0) 0 imm.
Definition alu32_reg (op dst src : Z) : BpfInsn :=
  mkInsn (Z.lor (Z.lor BPF_ALU op) BPF_X) (pack_regs dst src) 0 0.
Definition mov64_reg (dst src : Z) : BpfInsn :=
  mkInsn (Z.lor (Z.lor BPF_ALU64 BPF_MOV) BPF_X) (pack_regs dst src) 0 0.
Definition mov64_imm (dst imm : Z) : BpfInsn :=
  mkInsn (Z.lor (Z.lor BPF_ALU64 BPF_MOV) BPF_K) (pack_regs dst 0) 0 imm.
Definition exit_insn : BpfInsn := mkInsn (Z.lor BPF_JMP BPF_EXIT) 0 0 0.

(** The unpatched conditional jumps; the index of the pushed instruction is
    returned with the program. *)
Definition jne_imm (dst imm off : Z) : BpfInsn :=
  mkInsn (Z.lor (Z.lor BPF_JMP BPF_JNE) BPF_K) (pack_regs dst 0) off imm.
Definition jne_reg (dst src off : Z) : BpfInsn :=
  mkInsn (Z.lor (Z.lor BPF_JMP BPF_JNE) BPF_X) (pack_regs dst src) off 0.
Definition push_jne_imm (program : list BpfInsn) (dst imm : Z) : list BpfInsn * nat :=
  (program ++ [jne_imm dst imm 0], length program).
Definition push_jne_reg (program : list BpfInsn) (dst src : Z) : list BpfInsn * nat :=
  (program ++ [jne_reg dst src 0], length program).

Definition patch_jump (program : list BpfInsn) (jump_index target : nat)
    : Result (list BpfInsn) :=
  match program !! jump_index with
  | None => Err (device_error Internal "cgroup device BPF program lost a patch target")
  | Some jump =>
      let offset := Z.of_nat target - Z.of_nat jump_index - 1 in
      if bool_decide (- 2 ^ 15 ≤ offset < 2 ^ 15)
      then Ok (<[jump_index := mkInsn (bi_code jump) (bi_regs jump) offset (bi_imm jump)]> program)
      else Err (device_error ResourceExhausted
                  "cgroup device BPF program exceeds jump limits: {error}")
  end.
Definition patch_jumps (program : list BpfInsn) (jumps : list nat) (target : nat)
    : Result (list BpfInsn) :=
  rfold (λ program jump, patch_jump program jump target) program jumps.

(** ** The compiler *)

Definition device_program_prelude (initial_access : Z) : list BpfInsn :=
  [ mov64_imm 0 initial_access;
    ldx_mem BPF_W 2 1 0; alu32_imm BPF_AND 2 0xFFFF;
    ldx_mem BPF_W 3 1 0; alu32_imm BPF_RSH 3 16;
    ldx_mem BPF_W 4 1 4; ldx_mem BPF_W 5 1 8 ].

(** The optional jumps of a rule: [if let Some(n) = number { push_jne_imm(..) }]. *)
Definition push_number (pj : list BpfInsn * list nat) (reg : Z) (number : option Z)
    : list BpfInsn * list nat :=
  match number with
  | Some n => let '(program, j) := push_jne_imm pj.1 reg (u32_as_i32 n) in (program, pj.2 ++ [j])
  | None => pj
  end.

Definition append_rule (program : list BpfInsn) (rule : DeviceAccessRule)
    : Result (list BpfInsn) :=
  let pj := match dr_kind rule with
    | KindAll => (program, [])
    | KindBlock => let '(program, j) := push_jne_imm program 2 BPF_DEVCG_DEV_BLOCK in (program, [j])
    | KindCharacter => let '(program, j) := push_jne_imm program 2 BPF_DEVCG_DEV_CHAR in (program, [j])
    end in
  let pj := push_number pj 4 (dr_major rule) in
  let '(program, mismatch_jumps) := push_number pj 5 (dr_minor rule) in
  let program := program ++
    [ if bool_decide (dr_kind rule = KindAll)
      then mov64_imm 0 (if dr_allow rule then ALL_ACCESS else 0)
      else if dr_allow rule then alu32_imm BPF_OR 0 (dr_access rule)
      else alu32_imm BPF_AND 0 (Z.ldiff ALL_ACCESS (dr_access rule)) ] in
  patch_jumps program mismatch_jumps (length program).
Definition append_ordered_rules (program : list BpfInsn) (rules : list DeviceAccessRule)
    : Result (list BpfInsn) :=
  rfold append_rule program rules.

Definition append_inventory_identity (program : list BpfInsn) (identity : DeviceAccessIdentity)
    : Result (list BpfInsn) :=
  try! expected_kind := match di_kind identity with
    | KindBlock => Ok BPF_DEVCG_DEV_BLOCK
    | KindCharacter => Ok BPF_DEVCG_DEV_CHAR
    | KindAll => Err (device_error PermissionDenied
                        "OCI device inventory contains a wildcard device type")
    end in
  let '(program, j1) := push_jne_imm program 2 expected_kind in
  let '(program, j2) := push_jne_imm program 4 (u32_as_i32 (di_major identity)) in
  let '(program, mismatch_jumps) := push_number (program, [j1; j2]) 5 (di_minor identity) in
  let program := program ++ [alu32_imm BPF_OR 0 ALL_ACCESS] in
  patch_jumps program mismatch_jumps (length program).

(** The identities that an ordered policy cannot remove. *)
Definition normative_identities : list DeviceAccessIdentity :=
  ((λ d, mkIdentity KindCharacter (dn_major d) (Some (dn_minor d)))
     <$> OCI_LINUX_DEFAULT_DEVICE_NODES)
  ++ [ptmx_identity; pty_identity].
Definition append_normative_default_access (program : list BpfInsn) : Result (list BpfInsn) :=
  rfold append_inventory_identity program normative_identities.

Definition finish_device_program (program : list BpfInsn) : Result (list BpfInsn) :=
  let program := program ++ [mov64_reg 1 3] in
  let program := program ++ [alu32_reg BPF_AND 1 0] in
  let '(program, reject_jump) := push_jne_reg program 1 3 in
  let program := program ++ [mov64_imm 0 1] in
  let program := program ++ [exit_insn] in
  let reject := length program in
  let program := program ++ [mov64_imm 0 0] in
  let program := program ++ [exit_insn] in
  patch_jump program reject_jump reject.

Definition build_program (b : DeviceAccessBoundary) : Result (list BpfInsn) :=
  let program := device_program_prelude 0 in
  try! program := rfold append_inventory_identity program (db_identities b) in
  let program := program ++ [mov64_reg 6 0] in
  let program := program ++
    [mov64_imm 0 (match db_policy b with Some _ => 0 | None => ALL_ACCESS end)] in
  try! program := match db_policy b with
    | Some policy =>
        try! program := append_ordered_rules program (dp_rules policy) in
        append_normative_default_access program
    | None => Ok program
    end in
  let program := program ++ [alu32_reg BPF_AND 0 6] in
  finish_device_program program.

(** [load] without the kernel call: what is handed to BPF_PROG_LOAD. *)
Definition boundary_program (b : DeviceAccessBoundary) : Result (list BpfInsn) :=
  check! boundary_validate b;
  build_program b.

(** ** Loading (access/kernel.rs)

    [prog_load attempt log_level log_size] is the answer of the n-th
    BPF_PROG_LOAD system call: a descriptor or an errno. *)

Definition EPERM : Z := 1.
Definition ENOMEM : Z := 12.
Definition EACCES : Z := 13.
Definition EINVAL : Z := 22.
Definition ENOSPC : Z := 28.
Definition ENOSYS : Z := 38.
Definition EOPNOTSUPP : Z := 95.
Definition MAX_BPF_LOG_BYTES : Z := 64 * 1024.

Definition bpf_error_code (errno : Z) : ErrorCode :=
  if (errno =? EPERM) || (errno =? EACCES) then PermissionDenied
  else if errno =? ENOMEM then ResourceExhausted
  else if (errno =? EINVAL) || (errno =? EOPNOTSUPP) || (errno =? ENOSYS) then Unsupported
  else FailedPrecondition.

Section load.
Variable prog_load : nat → Z → Z → result Z Z.

(** The retry loop; [None] when the attempts run out. *)
Fixpoint load_loop (fuel attempt : nat) (with_log : bool) (log_len : Z) : option (Result Z) :=
  match fuel with
  | O => None
  | S fuel =>
      match prog_load attempt (if with_log then 1 else 0) log_len with
      | Ok loaded =>
          if bool_decide (loaded ≤ i32_max) then Some (Ok loaded)
          else Some (Err (device_error Internal
                 "BPF_PROG_LOAD returned an invalid descriptor: {error}"))
      | Err errno =>
          if negb with_log then load_loop fuel (S attempt) true (16 * 1024)
          else if (errno =? ENOSPC) && (log_len <? MAX_BPF_LOG_BYTES) then
            let next := Z.min (Z.max log_len (16 * 1024) * 2) MAX_BPF_LOG_BYTES in
            load_loop fuel (S attempt) true next
          else Some (Err (device_error (bpf_error_code errno)
                 "failed to load cgroup device BPF program: {error}"))
      end
  end.

Definition load_cgroup_device_program (fuel : nat) (program : list BpfInsn) : option (Result Z) :=
  if bool_decide (Z.of_nat (length program) ≤ u32_max) then load_loop fuel 0 false 0
  else Some (Err (device_error ResourceExhausted
         "cgroup device BPF program exceeds the kernel instruction limit: {error}")).

(** [DeviceAccessBoundary::load] *)
Definition boundary_load (fuel : nat) (b : DeviceAccessBoundary) : option (Result Z) :=
  match boundary_validate b with
  | Err e => Some (Err e)
  | Ok _ => match build_program b with
            | Err e => Some (Err e)
            | Ok program => load_cgroup_device_program fuel program
            end
  end.
End load.
