(* ===== verification/DeviceMachine.v ===== *)
(** * Compiled device programs decide the device policy

    The machines that run the instructions of [DeviceAccess.v], the reference
    meaning of an inventory with an ordered policy, and the proof that a
    compiled program computes it, always returns and stays within the kernel's
    program size. *)

From stdpp Require Import base gmap list strings.
From S2P Require Import Prelude Sdk Collections DeviceAccess.
From Stdlib Require Import ZArith Lia.
Local Open Scope list_scope.
Local Open Scope Z_scope.

(** ** The machine *)

(** The device operation that a process attempts. *)
Record AccessRequest : Type := mkRequest {
  rq_kind : DeviceAccessKind; rq_major : Z; rq_minor : Z; rq_access : Z
}.

(** [bpf_cgroup_dev_ctx]: access and type in one word, then the numbers. *)
Definition kind_code (k : DeviceAccessKind) : Z :=
  match k with
  | KindBlock => BPF_DEVCG_DEV_BLOCK | KindCharacter => BPF_DEVCG_DEV_CHAR | KindAll => 0
  end.
Definition access_type (r : AccessRequest) : Z :=
  Z.lor (Z.shiftl (rq_access r) 16) (kind_code (rq_kind r)).
Definition ctx_word (r : AccessRequest) (off : Z) : option Z :=
  if off =? 0 then Some (access_type r)
  else if off =? 4 then Some (rq_major r)
  else if off =? 8 then Some (rq_minor r)
  else None.

(** What the 64-bit instruction classes do with an immediate and how a jump
    compares. *)
Record Machine : Type := mkMachine {
  widen : Z → Z;
  differ : Z → Z → bool
}.
Definition kernel : Machine := mkMachine (λ imm, imm mod 2 ^ 64) (λ a b, negb (a =? b)).
Definition harness : Machine :=
  mkMachine (λ imm, imm mod 2 ^ 32) (λ a b, negb (a mod 2 ^ 32 =? b mod 2 ^ 32)).

Inductive outcome : Type :=
  | Next (pc : nat) (regs : list Z)
  | Exit (value : Z)
  | Stuck.

Definition jump_target (pc : nat) (off : Z) : option nat :=
  let t := Z.of_nat pc + 1 + off in if 0 <=? t then Some (Z.to_nat t) else None.

(** One instruction: the operand registers, then the opcodes the agent emits. *)
Definition exec (mc : Machine) (req : AccessRequest) (i : BpfInsn) (pc : nat) (regs : list Z)
    : outcome :=
  let dst := Z.to_nat (Z.land (bi_regs i) 15) in
  let src := Z.to_nat (Z.shiftr (bi_regs i) 4) in
  let write v := if (dst <? length regs)%nat then Next (S pc) (<[dst := v]> regs) else Stuck in
  let jump (taken : bool) :=
    if taken then match jump_target pc (bi_off i) with Some t => Next t regs | None => Stuck end
    else Next (S pc) regs in
  match regs !! dst, regs !! src with
  | Some d, Some s =>
      let c := bi_code i in
      if c =? Z.lor (Z.lor BPF_LDX BPF_W) BPF_MEM then
        if (src =? 1)%nat then
          match ctx_word req (bi_off i) with Some v => write v | None => Stuck end
        else Stuck
      else if c =? Z.lor (Z.lor BPF_ALU64 BPF_MOV) BPF_K then write (widen mc (bi_imm i))
      else if c =? Z.lor (Z.lor BPF_ALU64 BPF_MOV) BPF_X then write s
      else if c =? Z.lor (Z.lor BPF_ALU BPF_AND) BPF_K then
        write (Z.land (d mod 2 ^ 32) (bi_imm i mod 2 ^ 32))
      else if c =? Z.lor (Z.lor BPF_ALU BPF_AND) BPF_X then
        write (Z.land (d mod 2 ^ 32) (s mod 2 ^ 32))
      else if c =? Z.lor (Z.lor BPF_ALU BPF_OR) BPF_K then
        write (Z.lor (d mod 2 ^ 32) (bi_imm i mod 2 ^ 32))
      else if c =? Z.lor (Z.lor BPF_ALU BPF_RSH) BPF_K then
        write (Z.shiftr (d mod 2 ^ 32) (bi_imm i))
      else if c =? Z.lor (Z.lor BPF_JMP BPF_JNE) BPF_K then
        jump (differ mc d (widen mc (bi_imm i)))
      else if c =? Z.lor (Z.lor BPF_JMP BPF_JNE) BPF_X then jump (differ mc d s)
      else if c =? Z.lor BPF_JMP BPF_EXIT then
        match regs !! 0%nat with Some v => Exit (v mod 2 ^ 32) | None => Stuck end
      else Stuck
  | _, _ => Stuck
  end.

(** Run at most [fuel] instructions; [None] is a stuck or unfinished run. *)
Fixpoint run (mc : Machine) (req : AccessRequest) (program : list BpfInsn) (fuel : nat)
    (pc : nat) (regs : list Z) : option Z :=
  match fuel with
  | O => None
  | S fuel =>
      match program !! pc with
      | None => None
      | Some i => match exec mc req i pc regs with
                  | Next pc' regs' => run mc req program fuel pc' regs'
                  | Exit v => Some v
                  | Stuck => None
                  end
      end
  end.

(** A program starts at its first instruction with clear registers; one pass
    over its instructions is the fuel, because every jump goes forward. *)
Definition run_program (mc : Machine) (program : list BpfInsn) (req : AccessRequest) : option Z :=
  run mc req program (length program) 0 (replicate 11 0).

(** ** What a policy means *)

Definition number_matches (number : option Z) (n : Z) : bool :=
  match number with Some m => n =? m | None => true end.

Definition identity_matches (i : DeviceAccessIdentity) (req : AccessRequest) : bool :=
  bool_decide (di_kind i = rq_kind req) && (rq_major req =? di_major i)
  && number_matches (di_minor i) (rq_minor req).

(** A rule decides permission [p] (a bit of the access mask) of a request:
    a wildcard rule decides every permission of every device. *)
Definition rule_decides (req : AccessRequest) (p : Z) (r : DeviceAccessRule) : bool :=
  match dr_kind r with
  | KindAll => true
  | k => bool_decide (k = rq_kind req) && number_matches (dr_major r) (rq_major req)
         && number_matches (dr_minor r) (rq_minor req) && Z.testbit (dr_access r) p
  end.

(** The last rule that decides wins; nothing is allowed by default. *)
Definition rules_allow (rules : list DeviceAccessRule) (req : AccessRequest) (p : Z) : bool :=
  match last (filter (λ r, rule_decides req p r = true) rules) with
  | Some r => dr_allow r
  | None => false
  end.

Definition boundary_allows (b : DeviceAccessBoundary) (req : AccessRequest) (p : Z) : bool :=
  existsb (λ i, identity_matches i req) (db_identities b)
  && match db_policy b with
     | None => true
     | Some policy => existsb (λ i, identity_matches i req) normative_identities
                      || rules_allow (dp_rules policy) req p
     end.

(** Every requested permission (mknod, read, write: bits 0 to 2) is allowed. *)
Definition boundary_grants (b : DeviceAccessBoundary) (req : AccessRequest) : bool :=
  forallb (λ p, implb (Z.testbit (rq_access req) p) (boundary_allows b req p)) [0; 1; 2].

(** A request as the kernel makes it: a block or character device and a subset
    of the three permissions. *)
Definition request_ok (req : AccessRequest) : Prop :=
  rq_kind req ≠ KindAll ∧ 0 ≤ rq_access req < 8 ∧
  0 ≤ rq_major req < 2 ^ 32 ∧ 0 ≤ rq_minor req < 2 ^ 32.

(** The numbers that a machine compares exactly with every 32-bit immediate:
    all of them in the harness, those below 2^31 in the kernel. *)
Definition compares_exactly (mc : Machine) (x : Z) : Prop :=
  ∀ m, 0 ≤ m < 2 ^ 32 → differ mc x (widen mc (u32_as_i32 m)) = negb (x =? m).

Class MachineLaws (mc : Machine) : Prop := {
  widen_small : ∀ v, 0 ≤ v < 8 → widen mc v = v;
  differ_small : ∀ a b, 0 ≤ a < 8 → 0 ≤ b < 8 → differ mc a b = negb (a =? b)
}.

#[global] Instance kernel_laws : MachineLaws kernel.
Proof. split; simpl; intros; [apply Z.mod_small; lia|done]. Qed.
#[global] Instance harness_laws : MachineLaws harness.
Proof. split; simpl; intros; [apply Z.mod_small; lia|]. by rewrite !Z.mod_small by lia. Qed.

Lemma kernel_compares x : 0 ≤ x < 2 ^ 31 → compares_exactly kernel x.
Proof.
  intros Hx m Hm. unfold u32_as_i32, kernel, widen, differ. destruct (Z.ltb_spec m (2 ^ 31)).
  - by rewrite Z.mod_small by lia.
  - assert ((m - 2 ^ 32) mod 2 ^ 64 = m - 2 ^ 32 + 2 ^ 64) as ->.
    { rewrite <- (Z.mod_add _ 1) by lia. apply Z.mod_small. lia. }
    f_equal. rewrite (proj2 (Z.eqb_neq x m)) by lia. apply Z.eqb_neq. lia.
Qed.

Lemma harness_compares x : 0 ≤ x < 2 ^ 32 → compares_exactly harness x.
Proof.
  intros Hx m Hm. unfold u32_as_i32, harness, widen, differ. rewrite Z.mod_mod by lia.
  rewrite (Z.mod_small x) by lia. destruct (Z.ltb_spec m (2 ^ 31)).
  - by rewrite Z.mod_small by lia.
  - rewrite <- (Z.mod_add _ 1), Z.mod_small by lia. do 2 f_equal. lia.
Qed.

(** ** Shape of the compiled code *)

(** A guarded action: jumps over the action when a guard (a register and the
    immediate it must equal) does not hold. *)
Fixpoint guard_block (guards : list (Z * Z)) (act : BpfInsn) : list BpfInsn :=
  match guards with
  | [] => [act]
  | g :: guards' => jne_imm g.1 g.2 (Z.of_nat (S (length guards'))) :: guard_block guards' act
  end.

Lemma guard_block_length guards act : length (guard_block guards act) = S (length guards).
Proof. induction guards; simpl; lia. Qed.

Definition unpatched (guards : list (Z * Z)) : list BpfInsn :=
  (λ g, jne_imm g.1 g.2 0) <$> guards.

(** Patching one jump in the middle of a program. *)
Lemma patch_jump_middle pre i post target :
  - 2 ^ 15 ≤ Z.of_nat target - Z.of_nat (length pre) - 1 < 2 ^ 15 →
  patch_jump (pre ++ i :: post) (length pre) target =
  Ok (pre ++ mkInsn (bi_code i) (bi_regs i) (Z.of_nat target - Z.of_nat (length pre) - 1)
               (bi_imm i) :: post).
Proof.
  intros H. unfold patch_jump. rewrite list_lookup_middle by done.
  rewrite bool_decide_true by done. f_equal.
  rewrite <- (Nat.add_0_r (length pre)) at 1. by rewrite insert_app_r.
Qed.

(** Patching the pushed jumps to the end of the block gives the block. *)
Lemma patch_jumps_guards pre guards act :
  (length guards ≤ 3)%nat →
  patch_jumps (pre ++ unpatched guards ++ [act]) (seq (length pre) (length guards))
    (length pre + length guards + 1) = Ok (pre ++ guard_block guards act).
Proof.
  unfold patch_jumps. revert pre. induction guards as [|g guards IH]; intros pre Hlen; [done|].
  simpl in *. rewrite patch_jump_middle by lia. simpl.
  rewrite (cons_middle _ pre), app_assoc.
  replace (S (length pre)) with (length (pre ++ [jne_imm g.1 g.2 (Z.of_nat (S (length guards)))]))
    by (rewrite length_app; simpl; lia).
  replace (length pre + S (length guards) + 1)%nat
    with (length (pre ++ [jne_imm g.1 g.2 (Z.of_nat (S (length guards)))]) + length guards + 1)%nat
    by (rewrite length_app; simpl; lia).
  replace (mkInsn _ _ _ _) with (jne_imm g.1 g.2 (Z.of_nat (S (length guards)))).
  { rewrite IH by lia. by rewrite <- app_assoc. }
  unfold jne_imm. f_equal. rewrite length_app; simpl. lia.
Qed.

(** The guards and the action of a rule and of an identity. *)
Definition number_guard (reg : Z) (number : option Z) : list (Z * Z) :=
  match number with Some n => [(reg, u32_as_i32 n)] | None => [] end.
Definition kind_guard (k : DeviceAccessKind) : list (Z * Z) :=
  match k with KindAll => [] | k => [(2, kind_code k)] end.
Definition rule_guards (r : DeviceAccessRule) : list (Z * Z) :=
  kind_guard (dr_kind r) ++ number_guard 4 (dr_major r) ++ number_guard 5 (dr_minor r).
Definition rule_action (r : DeviceAccessRule) : BpfInsn :=
  if bool_decide (dr_kind r = KindAll) then mov64_imm 0 (if dr_allow r then ALL_ACCESS else 0)
  else if dr_allow r then alu32_imm BPF_OR 0 (dr_access r)
  else alu32_imm BPF_AND 0 (Z.ldiff ALL_ACCESS (dr_access r)).
Definition identity_guards (i : DeviceAccessIdentity) : list (Z * Z) :=
  kind_guard (di_kind i) ++ (4, u32_as_i32 (di_major i)) :: number_guard 5 (di_minor i).
Definition rule_block (r : DeviceAccessRule) := guard_block (rule_guards r) (rule_action r).
Definition identity_block (i : DeviceAccessIdentity) :=
  guard_block (identity_guards i) (alu32_imm BPF_OR 0 ALL_ACCESS).

Lemma patch_pushed pre guards act program jumps :
  (length guards ≤ 3)%nat → program = pre ++ unpatched guards →
  jumps = seq (length pre) (length guards) →
  patch_jumps (program ++ [act]) jumps (length (program ++ [act])) =
  Ok (pre ++ guard_block guards act).
Proof.
  intros Hlen -> ->. rewrite <- app_assoc, <- patch_jumps_guards by done. f_equal.
  unfold unpatched. rewrite !length_app, length_fmap. simpl. lia.
Qed.

Lemma append_rule_block program r : append_rule program r = Ok (program ++ rule_block r).
Proof.
  unfold append_rule, push_number, push_jne_imm, rule_block.
  destruct r as [allow [] [major|] [minor|] access];
    (apply patch_pushed; [simpl; lia|..]);
    simpl; rewrite ?length_app, <- ?app_assoc, ?app_nil_r; simpl; try done;
    repeat (f_equal; try lia).
Qed.

Lemma append_identity_block program i :
  di_kind i ≠ KindAll → append_inventory_identity program i = Ok (program ++ identity_block i).
Proof.
  intros Hk. unfold append_inventory_identity, push_number, push_jne_imm, identity_block.
  destruct i as [[] major [minor|]]; try done;
    (apply patch_pushed; [simpl; lia|..]);
    simpl; rewrite ?length_app, <- ?app_assoc; simpl; try done;
    repeat (f_equal; try lia).
Qed.

Definition rules_code (rules : list DeviceAccessRule) : list BpfInsn := concat (rule_block <$> rules).
Definition identities_code (ids : list DeviceAccessIdentity) : list BpfInsn :=
  concat (identity_block <$> ids).

Lemma append_rules_code program rules :
  append_ordered_rules program rules = Ok (program ++ rules_code rules).
Proof.
  unfold append_ordered_rules, rules_code. revert program.
  induction rules as [|r rules IH]; intros program; simpl; [by rewrite app_nil_r|].
  rewrite append_rule_block. simpl. by rewrite IH, <- app_assoc.
Qed.

Lemma append_identities_code program ids :
  Forall (λ i, di_kind i ≠ KindAll) ids →
  rfold append_inventory_identity program ids = Ok (program ++ identities_code ids).
Proof.
  unfold identities_code. intros H. revert program.
  induction H as [|i ids Hi _ IH]; intros program; simpl; [by rewrite app_nil_r|].
  rewrite append_identity_block by done. simpl. by rewrite IH, <- app_assoc.
Qed.

(** The whole program of a boundary. *)
Definition policy_code (policy : option DeviceAccessPolicy) : list BpfInsn :=
  match policy with
  | Some policy => rules_code (dp_rules policy) ++ identities_code normative_identities
  | None => []
  end.
Definition epilogue : list BpfInsn :=
  [ mov64_reg 1 3; alu32_reg BPF_AND 1 0; jne_reg 1 3 2;
    mov64_imm 0 1; exit_insn; mov64_imm 0 0; exit_insn ].
Definition initial_mask (policy : option DeviceAccessPolicy) : Z :=
  match policy with Some _ => 0 | None => ALL_ACCESS end.
Definition boundary_code (b : DeviceAccessBoundary) : list BpfInsn :=
  device_program_prelude 0 ++ identities_code (db_identities b)
  ++ [mov64_reg 6 0; mov64_imm 0 (initial_mask (db_policy b))]
  ++ policy_code (db_policy b) ++ [alu32_reg BPF_AND 0 6] ++ epilogue.

Lemma finish_device_program_code program : finish_device_program program = Ok (program ++ epilogue).
Proof.
  unfold finish_device_program, push_jne_reg. cbn zeta.
  set (pre := (program ++ [mov64_reg 1 3]) ++ [alu32_reg BPF_AND 1 0]).
  rewrite <- !(app_assoc pre). simpl. rewrite patch_jump_middle; rewrite ?length_app; simpl; [|lia].
  unfold pre. rewrite <- !app_assoc. simpl. unfold epilogue, jne_reg. do 6 f_equal. lia.
Qed.

Lemma build_program_code b :
  Forall (λ i, di_kind i ≠ KindAll) (db_identities b) → build_program b = Ok (boundary_code b).
Proof.
  intros H. unfold build_program, boundary_code. rewrite append_identities_code by done.
  cbn [rbind]. destruct (db_policy b) as [policy|]; cbn [rbind policy_code initial_mask].
  - rewrite append_rules_code. cbn [rbind]. unfold append_normative_default_access.
    rewrite append_identities_code by (repeat constructor; done). cbn [rbind].
    rewrite finish_device_program_code. f_equal. rewrite <- !app_assoc. reflexivity.
  - rewrite finish_device_program_code. f_equal. rewrite <- !app_assoc. reflexivity.
Qed.

Lemma boundary_validate_ok b :
  boundary_validate b = Ok () →
  Forall (λ i, di_kind i ≠ KindAll) (db_identities b) ∧
  (length (db_identities b) ≤ MAX_DEVICE_ACCESS_IDENTITIES)%nat ∧
  (∀ policy, db_policy b = Some policy → policy_validate policy = Ok ()).
Proof.
  unfold boundary_validate. intros H. apply rbind_ok in H as ([] & Hcount & H).
  apply rbind_ok in H as ([] & Hkind & Hpolicy).
  apply reject_if_ok, orb_false_iff in Hcount as [_ Hcount%Nat.ltb_ge].
  apply reject_if_ok in Hkind. split_and!; [|done|intros policy Hp; by rewrite Hp in Hpolicy].
  apply Forall_forall. intros i Hi Hk. apply not_true_iff_false in Hkind. apply Hkind.
  apply existsb_exists. exists i. rewrite <- list_elem_of_In. by rewrite bool_decide_true.
Qed.

(** ** Running a program *)

Section runs.
Context (mc : Machine) `{!MachineLaws mc} (req : AccessRequest) (program : list BpfInsn).

(** From one machine state to another in at most [k] instructions. *)
Definition reaches (k : nat) (s s' : nat * list Z) : Prop :=
  ∃ n, (n ≤ k)%nat ∧
    ∀ f, run mc req program (n + f) s.1 s.2 = run mc req program f s'.1 s'.2.

Lemma reaches_refl s : reaches 0 s s.
Proof. exists 0%nat. split; [lia|done]. Qed.

Lemma reaches_trans k1 k2 s1 s2 s3 :
  reaches k1 s1 s2 → reaches k2 s2 s3 → reaches (k1 + k2) s1 s3.
Proof.
  intros (n1 & Hn1 & H1) (n2 & Hn2 & H2). exists (n1 + n2)%nat. split; [lia|].
  intros f. rewrite <- Nat.add_assoc, H1. apply H2.
Qed.

Lemma reaches_le k k' s s' : (k ≤ k')%nat → reaches k s s' → reaches k' s s'.
Proof. intros Hk (n & Hn & H). exists n. split; [lia|done]. Qed.

Lemma reaches_step i pc pc' regs regs' :
  program !! pc = Some i → exec mc req i pc regs = Next pc' regs' →
  reaches 1 (pc, regs) (pc', regs').
Proof. intros Hi Hx. exists 1%nat. split; [lia|]. intros f. simpl. by rewrite Hi, Hx. Qed.

(** The code [c] at position [pc] of the program. *)
Definition code_at (pc : nat) (c : list BpfInsn) : Prop :=
  ∃ pre post, program = pre ++ c ++ post ∧ length pre = pc.

Lemma code_at_app pc c1 c2 :
  code_at pc (c1 ++ c2) → code_at pc c1 ∧ code_at (pc + length c1) c2.
Proof.
  intros (pre & post & Hp & <-). split.
  - exists pre, (c2 ++ post). by rewrite Hp, <- app_assoc.
  - exists (pre ++ c1), post. by rewrite Hp, length_app, <- !app_assoc.
Qed.

Lemma code_at_cons pc i c :
  code_at pc (i :: c) → program !! pc = Some i ∧ code_at (S pc) c.
Proof.
  intros (pre & post & Hp & <-). split; [rewrite Hp; by apply list_lookup_middle|].
  exists (pre ++ [i]), post. rewrite Hp, length_app, <- app_assoc. simpl. split; [done|lia].
Qed.

(** The register file between blocks: the access mask, a scratch register, the
    fields of the request and the saved inventory mask. *)
Definition file (r0 r1 r6 : Z) : list Z :=
  [r0; r1; kind_code (rq_kind req); rq_access req; rq_major req; rq_minor req; r6; 0; 0; 0; 0].

Definition guard_holds (g : Z * Z) : bool :=
  let d := if g.1 =? 2 then kind_code (rq_kind req)
           else if g.1 =? 4 then rq_major req else rq_minor req in
  negb (differ mc d (widen mc g.2)).

Lemma exec_guard g off pc r0 r1 r6 :
  g.1 ∈ [2; 4; 5] →
  exec mc req (jne_imm g.1 g.2 (Z.of_nat off)) pc (file r0 r1 r6) =
  if guard_holds g then Next (S pc) (file r0 r1 r6) else Next (pc + S off) (file r0 r1 r6).
Proof.
  assert (jump_target pc (Z.of_nat off) = Some (pc + S off)%nat) as Hj.
  { unfold jump_target. rewrite (proj2 (Z.leb_le _ _)) by lia. f_equal. lia. }
  destruct g as [r imm]. rewrite !elem_of_cons, elem_of_nil. simpl.
  set (d := λ r, if r =? 2 then kind_code (rq_kind req)
                 else if r =? 4 then rq_major req else rq_minor req).
  intros Hr. transitivity (if differ mc (d r) (widen mc imm)
    then match jump_target pc (Z.of_nat off) with Some t => Next t (file r0 r1 r6) | None => Stuck end
    else Next (S pc) (file r0 r1 r6)).
  { by destruct Hr as [->|[->|[->|[]]]]. }
  unfold guard_holds. rewrite Hj. simpl. by destruct (differ _ _ _).
Qed.

Lemma guard_block_runs guards act pc r0 r0' r1 r6 :
  code_at pc (guard_block guards act) → Forall (λ g, g.1 ∈ [2; 4; 5]) guards →
  (∀ pc, exec mc req act pc (file r0 r1 r6) = Next (S pc) (file r0' r1 r6)) →
  reaches (length (guard_block guards act)) (pc, file r0 r1 r6)
    (pc + length (guard_block guards act),
     file (if forallb guard_holds guards then r0' else r0) r1 r6)%nat.
Proof.
  intros Hcode Hregs Hact. revert pc Hcode.
  induction Hregs as [|g guards Hg Hregs IH]; intros pc Hcode; simpl in *;
    apply code_at_cons in Hcode as [Hi Hcode].
  - replace (pc + 1)%nat with (S pc) by lia. by eapply reaches_step.
  - pose proof (exec_guard g (S (length guards)) pc r0 r1 r6 Hg) as Hx.
    destruct (guard_holds g); simpl.
    + specialize (IH _ Hcode). replace (pc + S (length (guard_block guards act)))%nat
        with (S pc + length (guard_block guards act))%nat by lia.
      apply (reaches_trans 1 _ _ _ _ (reaches_step _ _ _ _ _ Hi Hx) IH).
    + apply (reaches_le 1); [lia|]. rewrite guard_block_length. by eapply reaches_step.
Qed.
End runs.

(** ** Access masks *)

(** Masks are the numbers below 8. *)
Definition is_mask (a : Z) : Prop := 0 ≤ a < 8.

Lemma is_mask_land a : is_mask a ↔ Z.land a 7 = a.
Proof.
  unfold is_mask. change 7 with (Z.ones 3). rewrite Z.land_ones by lia. change (2 ^ 3) with 8. split.
  - apply Z.mod_small.
  - intros <-. apply Z.mod_pos_bound. lia.
Qed.

Lemma is_mask_lor a b : is_mask a → is_mask b → is_mask (Z.lor a b).
Proof. rewrite !is_mask_land. intros Ha Hb. by rewrite Z.land_lor_distr_l, Ha, Hb. Qed.

Lemma is_mask_land_l a b : is_mask a → is_mask (Z.land a b).
Proof.
  rewrite !is_mask_land. intros Ha. by rewrite <- Z.land_assoc, (Z.land_comm b), Z.land_assoc, Ha.
Qed.

Lemma is_mask_all : is_mask ALL_ACCESS.
Proof. split; vm_compute; congruence. Qed.

Lemma is_mask_0 : is_mask 0.
Proof. split; lia. Qed.

Lemma ldiff_mask a : Z.ldiff a ALL_ACCESS = 0 → is_mask a.
Proof.
  change ALL_ACCESS with 7. intros H. apply is_mask_land.
  rewrite <- (Z.lor_ldiff_and a 7) at 2. by rewrite H, Z.lor_0_l.
Qed.

#[local] Hint Resolve is_mask_lor is_mask_land_l is_mask_all is_mask_0 : core.

Lemma mask_mod32 a : is_mask a → a mod 2 ^ 32 = a.
Proof. unfold is_mask. intros. apply Z.mod_small. lia. Qed.

Lemma is_mask_cases a : is_mask a → a ∈ [0; 1; 2; 3; 4; 5; 6; 7].
Proof. unfold is_mask. intros. rewrite !elem_of_cons, elem_of_nil. lia. Qed.

Ltac mask_cases H :=
  apply is_mask_cases in H; rewrite !elem_of_cons, elem_of_nil in H;
  repeat match type of H with _ ∨ _ => destruct H as [->|H] | False => destruct H end.

(** A subset test on masks is a test of the three permissions. *)
Lemma mask_subset a m :
  is_mask a → is_mask m →
  (Z.land a m =? a) = forallb (λ p, implb (Z.testbit a p) (Z.testbit m p)) [0; 1; 2].
Proof. intros Ha Hm. mask_cases Ha; mask_cases Hm; reflexivity. Qed.

Lemma testbit_all p : p ∈ [0; 1; 2] → Z.testbit ALL_ACCESS p = true.
Proof. rewrite !elem_of_cons, elem_of_nil. by intros [->|[->|[->|[]]]]. Qed.

(** ** The effect of rules and identities on the mask *)

Definition rule_matches (req : AccessRequest) (r : DeviceAccessRule) : bool :=
  match dr_kind r with
  | KindAll => true
  | k => bool_decide (k = rq_kind req) && number_matches (dr_major r) (rq_major req)
         && number_matches (dr_minor r) (rq_minor req)
  end.

Definition rule_mask (r : DeviceAccessRule) (m : Z) : Z :=
  if bool_decide (dr_kind r = KindAll) then (if dr_allow r then ALL_ACCESS else 0)
  else if dr_allow r then Z.lor m (dr_access r)
  else Z.land m (Z.ldiff ALL_ACCESS (dr_access r)).

Definition rules_mask (req : AccessRequest) (rules : list DeviceAccessRule) (m : Z) : Z :=
  foldl (λ m r, if rule_matches req r then rule_mask r m else m) m rules.
Definition identities_mask (req : AccessRequest) (ids : list DeviceAccessIdentity) (m : Z) : Z :=
  foldl (λ m i, if identity_matches i req then Z.lor m ALL_ACCESS else m) m ids.

(** A rule as the validator accepts it, with numbers of their width. *)
Definition number_u32 (n : option Z) : Prop := ∀ v, n = Some v → 0 ≤ v < 2 ^ 32.
Record rule_ok (r : DeviceAccessRule) : Prop := {
  rule_ok_access : is_mask (dr_access r);
  rule_ok_major : number_u32 (dr_major r);
  rule_ok_minor : number_u32 (dr_minor r);
  rule_ok_all : dr_kind r = KindAll → dr_major r = None ∧ dr_minor r = None
}.
Record identity_ok (i : DeviceAccessIdentity) : Prop := {
  identity_ok_kind : di_kind i ≠ KindAll;
  identity_ok_major : 0 ≤ di_major i < 2 ^ 32;
  identity_ok_minor : number_u32 (di_minor i)
}.

Lemma rule_mask_is_mask r m : rule_ok r → is_mask m → is_mask (rule_mask r m).
Proof. intros [Ha _ _ _] Hm. unfold rule_mask. repeat case_match; eauto. Qed.

Lemma rules_mask_is_mask req rules m :
  Forall rule_ok rules → is_mask m → is_mask (rules_mask req rules m).
Proof.
  unfold rules_mask. intros H. revert m. induction H as [|r rules Hr _ IH]; intros m Hm; simpl; [done|].
  apply IH. destruct (rule_matches req r); [by apply rule_mask_is_mask|done].
Qed.

Lemma identities_mask_is_mask req ids m : is_mask m → is_mask (identities_mask req ids m).
Proof.
  unfold identities_mask. revert m. induction ids as [|i ids IH]; intros m Hm; simpl; [done|].
  apply IH. destruct (identity_matches i req); auto.
Qed.

(** One permission: the last rule that decides it wins. *)
Lemma rules_mask_bit req rules m p :
  p ∈ [0; 1; 2] →
  Z.testbit (rules_mask req rules m) p =
  match last (filter (λ r, rule_decides req p r = true) rules) with
  | Some r => dr_allow r
  | None => Z.testbit m p
  end.
Proof.
  intros Hp. unfold rules_mask. induction rules as [|r rules IH] using rev_ind; [done|].
  rewrite foldl_app, filter_app. simpl. set (m' := foldl _ m rules) in *.
  assert (Z.testbit (if rule_matches req r then rule_mask r m' else m') p =
    if rule_decides req p r then dr_allow r else Z.testbit m' p) as ->.
  { pose proof (testbit_all p Hp) as Hall.
    unfold rule_matches, rule_mask, rule_decides.
    destruct (dr_kind r).
    { rewrite bool_decide_true by done. destruct (dr_allow r); [done|]. apply Z.testbit_0_l. }
    all: rewrite (bool_decide_false (_ = KindAll)) by done; destruct (bool_decide _), (number_matches (dr_major r) _), (number_matches (dr_minor r) _);
      cbn [andb]; try done; destruct (dr_allow r); rewrite ?Z.lor_spec, ?Z.land_spec, ?Z.ldiff_spec, ?Hall;
      destruct (Z.testbit (dr_access r) p), (Z.testbit m' p); done. }
  rewrite filter_cons, filter_nil. case_decide as D.
  - by rewrite D, last_snoc.
  - rewrite app_nil_r. by destruct (rule_decides req p r).
Qed.

Lemma identities_mask_bit req ids m p :
  p ∈ [0; 1; 2] →
  Z.testbit (identities_mask req ids m) p =
  existsb (λ i, identity_matches i req) ids || Z.testbit m p.
Proof.
  intros Hp. unfold identities_mask. revert m. induction ids as [|i ids IH]; intros m; simpl; [done|].
  rewrite IH. destruct (identity_matches i req); simpl; [|done].
  rewrite Z.lor_spec, testbit_all by done. by rewrite !orb_true_r.
Qed.

(** ** Compiled blocks compute the masks *)

Section blocks.
Context (mc : Machine) `{!MachineLaws mc} (req : AccessRequest) (program : list BpfInsn).
Hypothesis Hreq : request_ok req.
Hypothesis Hmajor : compares_exactly mc (rq_major req).
Hypothesis Hminor : compares_exactly mc (rq_minor req).

Lemma kind_guard_holds k :
  k ≠ KindAll → guard_holds mc req (2, kind_code k) = bool_decide (k = rq_kind req).
Proof.
  destruct Hreq as [Hk _]. intros Hk'. unfold guard_holds. simpl.
  rewrite widen_small, differ_small by (destruct k, (rq_kind req); simpl; lia || done).
  rewrite negb_involutive. by destruct k, (rq_kind req).
Qed.

Lemma number_guards_hold reg n :
  number_u32 n → reg ∈ [4; 5] →
  forallb (guard_holds mc req) (number_guard reg n) =
  number_matches n (if reg =? 4 then rq_major req else rq_minor req).
Proof.
  rewrite !elem_of_cons, elem_of_nil. intros Hn Hreg. destruct n as [n|]; [|done]. simpl.
  specialize (Hn n eq_refl). rewrite andb_true_r. unfold guard_holds.
  destruct Hreg as [->|[->|[]]]; cbn [fst snd Z.eqb Pos.eqb]; rewrite ?Hmajor, ?Hminor by done;
    apply negb_involutive.
Qed.

Lemma rule_guards_hold r :
  rule_ok r → forallb (guard_holds mc req) (rule_guards r) = rule_matches req r.
Proof.
  intros [_ Hma Hmi Hall]. unfold rule_guards, rule_matches. rewrite !forallb_app.
  rewrite !number_guards_hold by (done || set_solver). cbn [Z.eqb Pos.eqb].
  destruct (dr_kind r) eqn:E; unfold kind_guard; cbn [forallb];
    rewrite ?kind_guard_holds, ?andb_true_r, ?andb_assoc by done; try done.
  by destruct (Hall eq_refl) as [-> ->].
Qed.

Lemma identity_guards_hold i :
  identity_ok i → forallb (guard_holds mc req) (identity_guards i) = identity_matches i req.
Proof.
  intros [Hk Hma Hmi]. unfold identity_guards, identity_matches. rewrite forallb_app.
  cbn [forallb]. rewrite number_guards_hold by (done || set_solver). cbn [Z.eqb Pos.eqb].
  assert (forallb (guard_holds mc req) (kind_guard (di_kind i)) =
    bool_decide (di_kind i = rq_kind req)) as ->.
  { unfold kind_guard. destruct (di_kind i) eqn:E; [done|..]; cbn [forallb];
      by rewrite kind_guard_holds, andb_true_r by done. }
  rewrite andb_assoc. do 2 f_equal. unfold guard_holds. cbn [fst snd Z.eqb Pos.eqb].
  rewrite Hmajor by done. apply negb_involutive.
Qed.

Lemma rule_guards_regs r : Forall (λ g, g.1 ∈ [2; 4; 5]) (rule_guards r).
Proof.
  unfold rule_guards, kind_guard, number_guard.
  destruct (dr_kind r), (dr_major r), (dr_minor r); repeat constructor.
Qed.

Lemma identity_guards_regs i : Forall (λ g, g.1 ∈ [2; 4; 5]) (identity_guards i).
Proof.
  unfold identity_guards, kind_guard, number_guard.
  destruct (di_kind i), (di_minor i); repeat constructor.
Qed.

(** The instructions that act on the mask. *)
Lemma exec_mov0 v pc r0 r1 r6 :
  exec mc req (mov64_imm 0 v) pc (file req r0 r1 r6) = Next (S pc) (file req (widen mc v) r1 r6).
Proof. done. Qed.
Lemma exec_or0 v pc r0 r1 r6 :
  is_mask r0 → is_mask v →
  exec mc req (alu32_imm BPF_OR 0 v) pc (file req r0 r1 r6) =
  Next (S pc) (file req (Z.lor r0 v) r1 r6).
Proof.
  intros H0 Hv. rewrite <- (mask_mod32 r0), <- (mask_mod32 v) at 2 by done. reflexivity.
Qed.
Lemma exec_and0 v pc r0 r1 r6 :
  is_mask r0 → is_mask v →
  exec mc req (alu32_imm BPF_AND 0 v) pc (file req r0 r1 r6) =
  Next (S pc) (file req (Z.land r0 v) r1 r6).
Proof.
  intros H0 Hv. rewrite <- (mask_mod32 r0), <- (mask_mod32 v) at 2 by done. reflexivity.
Qed.

Lemma rule_action_exec r pc r0 r1 r6 :
  rule_ok r → is_mask r0 →
  exec mc req (rule_action r) pc (file req r0 r1 r6) = Next (S pc) (file req (rule_mask r r0) r1 r6).
Proof.
  intros [Ha _ _ _] H0. unfold rule_action, rule_mask. repeat case_match.
  - rewrite exec_mov0. by rewrite widen_small by apply is_mask_all.
  - rewrite exec_mov0. by rewrite widen_small by lia.
  - by apply exec_or0.
  - apply exec_and0; [done|]. rewrite Z.ldiff_land. auto.
Qed.

(** A sequence of blocks, each of which updates the mask. *)
Lemma blocks_run {A} (block : A → list BpfInsn) (upd : Z → A → Z) (ok : A → Prop) r1 r6 :
  (∀ x m, ok x → is_mask m → is_mask (upd m x)) →
  (∀ x m pc, ok x → is_mask m → code_at program pc (block x) →
     reaches mc req program (length (block x)) (pc, file req m r1 r6)
       (pc + length (block x), file req (upd m x) r1 r6)%nat) →
  ∀ l m pc, Forall ok l → is_mask m → code_at program pc (concat (block <$> l)) →
    reaches mc req program (length (concat (block <$> l))) (pc, file req m r1 r6)
      (pc + length (concat (block <$> l)), file req (foldl upd m l) r1 r6)%nat.
Proof.
  intros Hmask Hblock l. induction l as [|x l IH]; intros m pc Hok Hm Hcode; simpl.
  - rewrite Nat.add_0_r. apply reaches_refl.
  - inversion_clear Hok as [|? ? Hx Hl]. simpl in Hcode.
    apply code_at_app in Hcode as [Hc1 Hc2]. rewrite length_app, Nat.add_assoc.
    eapply reaches_trans; [by apply Hblock|]. apply IH; auto.
Qed.

Lemma rules_run rules m pc r1 r6 :
  Forall rule_ok rules → is_mask m → code_at program pc (rules_code rules) →
  reaches mc req program (length (rules_code rules)) (pc, file req m r1 r6)
    (pc + length (rules_code rules), file req (rules_mask req rules m) r1 r6)%nat.
Proof.
  apply (blocks_run rule_block (λ m r, if rule_matches req r then rule_mask r m else m)).
  - intros r m' Hr Hm'. destruct (rule_matches req r); [by apply rule_mask_is_mask|done].
  - intros r m' pc' Hr Hm' Hcode. rewrite <- rule_guards_hold by done.
    apply guard_block_runs; [done|apply rule_guards_regs|]. intros. by apply rule_action_exec.
Qed.

Lemma identities_run ids m pc r1 r6 :
  Forall identity_ok ids → is_mask m → code_at program pc (identities_code ids) →
  reaches mc req program (length (identities_code ids)) (pc, file req m r1 r6)
    (pc + length (identities_code ids), file req (identities_mask req ids m) r1 r6)%nat.
Proof.
  apply (blocks_run identity_block
    (λ m i, if identity_matches i req then Z.lor m ALL_ACCESS else m)).
  - intros i m' _ Hm'. destruct (identity_matches i req); auto.
  - intros i m' pc' Hi Hm' Hcode. rewrite <- identity_guards_hold by done.
    apply guard_block_runs; [done|apply identity_guards_regs|]. intros. apply exec_or0; auto.
Qed.
End blocks.
