(* ===== verification/DeviceProps.v ===== *)
(** * What device enforcement guarantees

    From the OCI configuration to the answer of the attached program: parsed
    policies are well formed, every accepted boundary compiles to a program
    within the kernel's limits, and the kernel's run of it decides exactly the
    requests that the inventory and the ordered rules allow. *)

From stdpp Require Import base gmap list strings.
From S2P Require Import Prelude Sdk Collections DeviceAccess DeviceMachine.
From Stdlib Require Import ZArith Lia Ascii.
Local Open Scope string_scope.
Local Open Scope list_scope.
Local Open Scope Z_scope.

(** ** Entry and exit of a program *)

Section ends.
Context (mc : Machine) `{!MachineLaws mc} (req : AccessRequest) (program : list BpfInsn).
Hypothesis Hreq : request_ok req.

Lemma access_type_fields :
  Z.land (access_type req mod 2 ^ 32) (0xFFFF mod 2 ^ 32) = kind_code (rq_kind req) ∧
  Z.shiftr (access_type req mod 2 ^ 32) 16 = rq_access req.
Proof.
  destruct Hreq as (_ & Ha & _). unfold access_type. fold (is_mask (rq_access req)) in Ha.
  apply is_mask_cases in Ha. rewrite !elem_of_cons, elem_of_nil in Ha.
  repeat destruct Ha as [->|Ha]; [..|done]; by destruct (rq_kind req).
Qed.

Lemma prelude_runs pc :
  code_at program pc (device_program_prelude 0) →
  reaches mc req program 7 (pc, replicate 11 0) (pc + 7, file req 0 0 0)%nat.
Proof.
  destruct access_type_fields as [Hk Ha]. unfold device_program_prelude. intros Hcode.
  repeat match goal with H : code_at _ _ (_ :: _) |- _ => apply code_at_cons in H as [? H] end.
  replace (pc + 7)%nat with (S (S (S (S (S (S (S pc))))))) by lia.
  change 7%nat with (1 + (1 + (1 + (1 + (1 + (1 + 1))))))%nat.
  do 6 (eapply reaches_trans; [eapply reaches_step; [eassumption|reflexivity]|]).
  eapply reaches_step; [eassumption|]. transitivity
    (Next (S (S (S (S (S (S (S pc)))))))
       [widen mc 0; 0; Z.land (access_type req mod 2 ^ 32) (0xFFFF mod 2 ^ 32);
        Z.shiftr (access_type req mod 2 ^ 32) 16; rq_major req; rq_minor req; 0; 0; 0; 0; 0]);
    [reflexivity|]. by rewrite Ha, Hk, widen_small by lia.
Qed.

(** The epilogue answers 1 exactly when the mask covers the request. *)
Lemma epilogue_runs pc m r6 f :
  is_mask m → code_at program pc epilogue → (6 ≤ f)%nat →
  run mc req program f pc (file req m 0 r6) =
  Some (if Z.land (rq_access req) m =? rq_access req then 1 else 0).
Proof.
  unfold epilogue. intros Hm Hcode Hf. destruct Hreq as (_ & Ha & _). fold (is_mask (rq_access req)) in Ha.
  repeat match goal with H : code_at _ _ (_ :: _) |- _ => apply code_at_cons in H as [? H] end.
  set (l := Z.land (rq_access req) m).
  assert (reaches mc req program 2 (pc, file req m 0 r6) (S (S pc), file req m l r6)) as Hmask.
  { change 2%nat with (1 + 1)%nat. eapply reaches_trans; [eapply reaches_step; [eassumption|reflexivity]|].
    eapply reaches_step; [eassumption|]. transitivity (Next (S (S pc))
      (file req m (Z.land (rq_access req mod 2 ^ 32) (m mod 2 ^ 32)) r6)); [reflexivity|].
    by rewrite !mask_mod32 by done. }
  assert (exec mc req (jne_reg 1 3 2) (S (S pc)) (file req m l r6) =
    if l =? rq_access req then Next (S (S (S pc))) (file req m l r6)
    else Next (S (S (S (S (S pc))))) (file req m l r6)) as Hjump.
  { transitivity (if differ mc l (rq_access req)
      then match jump_target (S (S pc)) 2 with
           | Some t => Next t (file req m l r6) | None => Stuck end
      else Next (S (S (S pc))) (file req m l r6)); [reflexivity|].
    rewrite differ_small by (done || by apply is_mask_land_l).
    unfold jump_target. rewrite (proj2 (Z.leb_le _ _)) by lia.
    replace (Z.to_nat (Z.of_nat (S (S pc)) + 1 + 2)) with (S (S (S (S (S pc))))) by lia.
    by destruct (l =? rq_access req). }
  destruct Hmask as (n & Hn & Hrun). replace f with (n + (S (S (S (f - n - 3)))))%nat by lia.
  rewrite Hrun. cbn [fst snd run].
  repeat match goal with H : program !! _ = Some _ |- _ => rewrite H end.
  rewrite Hjump. destruct (l =? rq_access req); cbn [run];
    repeat match goal with H : program !! _ = Some _ |- _ => rewrite H end;
    rewrite exec_mov0; cbn [run];
    repeat match goal with H : program !! _ = Some _ |- _ => rewrite H end;
    rewrite widen_small by lia; reflexivity.
Qed.
End ends.

(** ** A whole program *)

(** The numbers of a boundary have their machine width. *)
Definition boundary_typed (b : DeviceAccessBoundary) : Prop :=
  Forall (λ i, 0 ≤ di_major i < 2 ^ 32 ∧ number_u32 (di_minor i)) (db_identities b) ∧
  ∀ policy, db_policy b = Some policy →
    Forall (λ r, number_u32 (dr_major r) ∧ number_u32 (dr_minor r)) (dp_rules policy).

Lemma policy_validate_rules policy :
  policy_validate policy = Ok () →
  (length (dp_rules policy) ≤ MAX_DEVICE_ACCESS_RULES)%nat ∧
  Forall (λ r, rule_malformed r = false) (dp_rules policy).
Proof.
  unfold policy_validate. intros H. apply rbind_ok in H as ([] & Hcount & Hrules).
  apply reject_if_ok, orb_false_iff in Hcount as [_ Hcount%Nat.ltb_ge]. split; [done|].
  apply reject_if_ok in Hrules. apply Forall_forall. intros r Hr.
  apply not_true_iff_false. intros Hbad. apply not_true_iff_false in Hrules. apply Hrules.
  apply existsb_exists. exists r. by rewrite <- list_elem_of_In.
Qed.

Lemma well_formed_rule r :
  rule_malformed r = false → number_u32 (dr_major r) → number_u32 (dr_minor r) → rule_ok r.
Proof.
  unfold rule_malformed. intros H Hma Hmi.
  apply orb_false_iff in H as [H Hall]. apply orb_false_iff in H as [_ Ha].
  apply negb_false_iff, Z.eqb_eq in Ha. split; [by apply ldiff_mask|done|done|].
  intros Hk. rewrite bool_decide_true in Hall by done. simpl in Hall.
  apply orb_false_iff in Hall as [H1%bool_decide_eq_false H2%bool_decide_eq_false].
  split; by apply eq_None_not_Some.
Qed.

Lemma boundary_parts_ok b :
  boundary_validate b = Ok () → boundary_typed b →
  Forall identity_ok (db_identities b) ∧
  ∀ policy, db_policy b = Some policy → Forall rule_ok (dp_rules policy).
Proof.
  intros (Hk & _ & Hp)%boundary_validate_ok [Hids Hrules]. split.
  - apply Forall_forall. intros i Hi. rewrite Forall_forall in Hk, Hids.
    destruct (Hids i Hi). by constructor; [apply Hk|..].
  - intros policy Hpol. destruct (policy_validate_rules policy (Hp _ Hpol)) as [_ Hok].
    specialize (Hrules _ Hpol). rewrite Forall_forall in Hrules, Hok. apply Forall_forall.
    intros r Hr. destruct (Hrules r Hr). apply well_formed_rule; auto.
Qed.

Lemma normative_ok : Forall identity_ok normative_identities.
Proof.
  unfold normative_identities, ptmx_identity, pty_identity, OCI_PTMX_MAJOR, OCI_PTMX_MINOR,
    UNIX98_PTY_SLAVE_MAJOR. simpl.
  repeat (apply Forall_cons; split; [split; simpl; [done|lia|intros v Hv; simplify_eq; lia]|]).
  by apply Forall_nil_2.
Qed.

(** The mask of a boundary, permission by permission. *)
Definition policy_mask (req : AccessRequest) (policy : option DeviceAccessPolicy) : Z :=
  match policy with
  | Some policy => identities_mask req normative_identities (rules_mask req (dp_rules policy) 0)
  | None => ALL_ACCESS
  end.
Definition boundary_mask (req : AccessRequest) (b : DeviceAccessBoundary) : Z :=
  Z.land (policy_mask req (db_policy b)) (identities_mask req (db_identities b) 0).

Lemma boundary_mask_bit b req p :
  p ∈ [0; 1; 2] → Z.testbit (boundary_mask req b) p = boundary_allows b req p.
Proof.
  intros Hp. unfold boundary_mask, boundary_allows. rewrite Z.land_spec, identities_mask_bit by done.
  rewrite Z.testbit_0_l, orb_false_r, andb_comm. f_equal.
  destruct (db_policy b) as [policy|]; cbn [policy_mask]; [|by apply testbit_all].
  rewrite identities_mask_bit, rules_mask_bit by done. f_equal. unfold rules_allow.
  by rewrite Z.testbit_0_l.
Qed.

Lemma boundary_grants_mask b req :
  is_mask (rq_access req) → is_mask (boundary_mask req b) →
  (Z.land (rq_access req) (boundary_mask req b) =? rq_access req) = boundary_grants b req.
Proof.
  intros Ha Hm. rewrite mask_subset by done. unfold boundary_grants. cbn [forallb].
  by rewrite !boundary_mask_bit by set_solver.
Qed.

Lemma policy_runs mc `{!MachineLaws mc} req program policy pc r6 :
  request_ok req → compares_exactly mc (rq_major req) → compares_exactly mc (rq_minor req) →
  (∀ p, policy = Some p → Forall rule_ok (dp_rules p)) →
  code_at program pc (policy_code policy) →
  is_mask (policy_mask req policy) ∧
  reaches mc req program (length (policy_code policy)) (pc, file req (initial_mask policy) 0 r6)
    (pc + length (policy_code policy), file req (policy_mask req policy) 0 r6)%nat.
Proof.
  intros Hreq Hma Hmi Hok Hcode.
  destruct policy as [policy|]; cbn [policy_mask policy_code initial_mask length] in *.
  - specialize (Hok _ eq_refl). apply code_at_app in Hcode as [Hc1 Hc2].
    assert (is_mask (rules_mask req (dp_rules policy) 0)) as Hm
      by (apply rules_mask_is_mask; [done|apply is_mask_0]).
    split; [by apply identities_mask_is_mask|].
    rewrite length_app, Nat.add_assoc. eapply reaches_trans.
    + apply rules_run; (done || apply is_mask_0).
    + apply identities_run; (done || apply normative_ok).
  - split; [apply is_mask_all|]. rewrite Nat.add_0_r. apply reaches_refl.
Qed.

(** The three instructions between the blocks. *)
Lemma exec_save mc req pc r0 r1 r6 :
  exec mc req (mov64_reg 6 0) pc (file req r0 r1 r6) = Next (S pc) (file req r0 r1 r0).
Proof. done. Qed.
Lemma exec_init mc `{!MachineLaws mc} req pc r0 r1 r6 policy :
  exec mc req (mov64_imm 0 (initial_mask policy)) pc (file req r0 r1 r6) =
  Next (S pc) (file req (initial_mask policy) r1 r6).
Proof. rewrite exec_mov0, widen_small; [done|]. by destruct policy. Qed.
Lemma exec_meet mc req pc r0 r1 r6 :
  is_mask r0 → is_mask r6 →
  exec mc req (alu32_reg BPF_AND 0 6) pc (file req r0 r1 r6) =
  Next (S pc) (file req (Z.land r0 r6) r1 r6).
Proof.
  intros H0 H6. transitivity
    (Next (S pc) (file req (Z.land (r0 mod 2 ^ 32) (r6 mod 2 ^ 32)) r1 r6)); [reflexivity|].
  by rewrite !mask_mod32 by done.
Qed.

Lemma boundary_code_runs mc `{!MachineLaws mc} req b :
  request_ok req → compares_exactly mc (rq_major req) → compares_exactly mc (rq_minor req) →
  boundary_validate b = Ok () → boundary_typed b →
  run_program mc (boundary_code b) req = Some (if boundary_grants b req then 1 else 0).
Proof.
  intros Hreq Hma Hmi Hvalid Htyped.
  destruct (boundary_parts_ok b Hvalid Htyped) as [Hids Hrules].
  set (program := boundary_code b). unfold run_program.
  assert (code_at program 0 (boundary_code b)) as Hcode
    by (exists [], []; by rewrite app_nil_r).
  assert (length program = 7 + (length (identities_code (db_identities b)) +
    (1 + (1 + (length (policy_code (db_policy b)) + 1)))) + 7)%nat as Hlen
    by (unfold program, boundary_code; rewrite !length_app; simpl; lia).
  unfold boundary_code in Hcode.
  apply code_at_app in Hcode as [Hpre Hcode]. apply code_at_app in Hcode as [Hinv Hcode].
  apply code_at_cons in Hcode as [Hsave Hcode]. apply code_at_cons in Hcode as [Hinit Hcode].
  apply code_at_app in Hcode as [Hpol Hcode]. apply code_at_cons in Hcode as [Hmeet Hepi].
  set (inv := identities_mask req (db_identities b) 0).
  destruct (policy_runs mc req program (db_policy b) _ inv Hreq Hma Hmi Hrules Hpol)
    as [Hpm Hpolicy].
  assert (is_mask inv) as Him by (apply identities_mask_is_mask, is_mask_0).
  pose proof (reaches_trans _ _ _ _ _ _ _ _ (prelude_runs mc req program Hreq 0 Hpre)
    (reaches_trans _ _ _ _ _ _ _ _
      (identities_run mc req program Hreq Hma Hmi _ _ _ 0 0 Hids is_mask_0 Hinv)
    (reaches_trans _ _ _ _ _ _ _ _ (reaches_step _ _ _ _ _ _ _ _ Hsave (exec_save _ _ _ _ _ _))
    (reaches_trans _ _ _ _ _ _ _ _ (reaches_step _ _ _ _ _ _ _ _ Hinit (exec_init _ _ _ _ _ _ _))
    (reaches_trans _ _ _ _ _ _ _ _ Hpolicy
      (reaches_step _ _ _ _ _ _ _ _ Hmeet (exec_meet _ _ _ _ _ _ Hpm Him)))))))
    as (n & Hn & Hrun).
  transitivity (run mc req program (n + (length program - n)) 0 (replicate 11 0)); [f_equal; lia|].
  specialize (Hrun (length program - n)%nat). cbn [fst snd] in Hrun. rewrite Hrun.
  rewrite (epilogue_runs mc req program Hreq _ _ _ _ (is_mask_land_l _ _ Hpm) Hepi) by lia.
  change (Z.land (policy_mask req (db_policy b)) inv) with (boundary_mask req b).
  rewrite boundary_grants_mask; [done|apply Hreq|by apply is_mask_land_l].
Qed.

(** ** Admission: every accepted program is safe to run *)

(** The checks of a program: known opcodes, registers and context offsets in
    range, jumps forward inside the code. *)
Definition jump_codes : list Z :=
  [Z.lor (Z.lor BPF_JMP BPF_JNE) BPF_K; Z.lor (Z.lor BPF_JMP BPF_JNE) BPF_X].
Definition plain_codes : list Z :=
  [ Z.lor (Z.lor BPF_ALU64 BPF_MOV) BPF_K; Z.lor (Z.lor BPF_ALU64 BPF_MOV) BPF_X;
    Z.lor (Z.lor BPF_ALU BPF_AND) BPF_K; Z.lor (Z.lor BPF_ALU BPF_AND) BPF_X;
    Z.lor (Z.lor BPF_ALU BPF_OR) BPF_K; Z.lor (Z.lor BPF_ALU BPF_RSH) BPF_K ].
Definition is_jump (i : BpfInsn) : bool := existsb (Z.eqb (bi_code i)) jump_codes.
Definition is_exit (i : BpfInsn) : bool := bi_code i =? Z.lor BPF_JMP BPF_EXIT.
Definition is_load (i : BpfInsn) : bool :=
  (bi_code i =? Z.lor (Z.lor BPF_LDX BPF_W) BPF_MEM) && (Z.shiftr (bi_regs i) 4 =? 1)
  && existsb (Z.eqb (bi_off i)) [0; 4; 8].
Definition opcode_known (i : BpfInsn) : bool :=
  is_load i || existsb (Z.eqb (bi_code i)) plain_codes || is_jump i || is_exit i.
Definition regs_in_range (i : BpfInsn) : bool :=
  (Z.to_nat (Z.land (bi_regs i) 15) <? 11)%nat && (Z.to_nat (Z.shiftr (bi_regs i) 4) <? 11)%nat.
(** The instruction at [j] of [c] is valid and stays inside [c] or leaves it at
    its end. *)
Definition insn_closed (c : list BpfInsn) (j : nat) (i : BpfInsn) : bool :=
  opcode_known i && regs_in_range i
  && implb (is_jump i) ((0 <=? bi_off i) && (Z.of_nat j + 1 + bi_off i <=? Z.of_nat (length c))).
Definition closed (c : list BpfInsn) : Prop := ∀ j i, c !! j = Some i → insn_closed c j i = true.

(** A program whose code is closed and whose last instruction exits, with no
    jump to the position after it. *)
Definition admissible (program : list BpfInsn) : Prop :=
  ∀ j i, program !! j = Some i →
    opcode_known i && regs_in_range i = true ∧
    (is_exit i = false → (S j < length program)%nat) ∧
    (is_jump i = true → 0 ≤ bi_off i ∧ Z.of_nat j + 1 + bi_off i < Z.of_nat (length program)).

Lemma exec_admissible mc req i pc regs :
  length regs = 11%nat → opcode_known i && regs_in_range i = true →
  (is_jump i = true → 0 ≤ bi_off i) →
  match exec mc req i pc regs with
  | Next pc' regs' => length regs' = 11%nat ∧ is_exit i = false ∧
      (pc' = S pc ∨ is_jump i = true ∧ pc' = Z.to_nat (Z.of_nat pc + 1 + bi_off i))
  | Exit _ => True
  | Stuck => False
  end.
Proof.
  intros Hlen [Hop Hregs]%andb_true_iff Hjump. unfold regs_in_range in Hregs.
  apply andb_true_iff in Hregs as [Hd%Nat.ltb_lt Hs%Nat.ltb_lt]. unfold exec.
  destruct (lookup_lt_is_Some_2 regs (Z.to_nat (Z.land (bi_regs i) 15))) as [d ->]; [lia|].
  destruct (lookup_lt_is_Some_2 regs (Z.to_nat (Z.shiftr (bi_regs i) 4))) as [s ->]; [lia|].
  destruct (lookup_lt_is_Some_2 regs 0) as [r0 Hr0]; [lia|].
  rewrite (proj2 (Nat.ltb_lt _ _)) by lia. destruct i as [c rs off imm].
  unfold opcode_known, is_load in Hop. cbn [bi_code bi_regs bi_off bi_imm] in *.
  rewrite !orb_true_iff in Hop. destruct Hop as [[[Hop|Hop]|Hop]|Hop].
  - apply andb_true_iff in Hop as [[->%Z.eqb_eq Hsrc%Z.eqb_eq]%andb_true_iff Hoff]. rewrite Hsrc.
    simpl in Hoff. unfold ctx_word.
    destruct (off =? 0), (off =? 4), (off =? 8); try done; simpl; rewrite length_insert; auto.
  - simpl in Hop. repeat (apply orb_prop in Hop as [->%Z.eqb_eq|Hop]; [simpl; rewrite length_insert; auto|]).
    done.
  - assert (jump_target pc off = Some (Z.to_nat (Z.of_nat pc + 1 + off))) as Hj.
    { unfold jump_target. rewrite (proj2 (Z.leb_le _ _)); [done|]. specialize (Hjump Hop). lia. }
    unfold is_jump in *. simpl in Hop. rewrite Hj.
    repeat (apply orb_prop in Hop as [->%Z.eqb_eq|Hop]; [simpl; destruct (differ _ _ _); auto|]). done.
  - unfold is_exit in Hop. simpl in Hop. apply Z.eqb_eq in Hop as ->. simpl. by rewrite Hr0.
Qed.

(** An admissible program returns on every machine and for every request: each
    instruction moves forward, so its length is enough fuel. *)
Lemma admissible_returns mc req program pc regs :
  admissible program → (pc < length program)%nat → length regs = 11%nat →
  ∀ fuel, (length program - pc ≤ fuel)%nat → ∃ v, run mc req program fuel pc regs = Some v.
Proof.
  intros Hadm Hpc Hregs fuel. revert pc regs Hpc Hregs.
  induction fuel as [|fuel IH]; intros pc regs Hpc Hregs Hfuel; [lia|]. simpl.
  destruct (lookup_lt_is_Some_2 program pc Hpc) as [i Hi]. rewrite Hi.
  destruct (Hadm pc i Hi) as (Hok & Hnext & Hjump).
  pose proof (exec_admissible mc req i pc regs Hregs Hok (λ H, proj1 (Hjump H))) as Hx.
  destruct (exec mc req i pc regs) as [pc' regs'|v|]; [|by eauto|done].
  destruct Hx as (Hlen & Hexit & [->|[Hj ->]]).
  - apply IH; [by apply Hnext|done|lia].
  - destruct (Hjump Hj). apply IH; [lia|done|lia].
Qed.

Lemma closed_app c1 c2 : closed c1 → closed c2 → closed (c1 ++ c2).
Proof.
  intros H1 H2 j i Hi. apply lookup_app_Some in Hi as [Hi|[Hj Hi]].
  - specialize (H1 j i Hi). unfold insn_closed in *. rewrite length_app.
    apply andb_true_iff in H1 as [-> H1]. simpl. destruct (is_jump i); [|done]. simpl in *.
    apply andb_true_iff in H1 as [-> H1%Z.leb_le]. apply Z.leb_le. lia.
  - specialize (H2 _ i Hi). unfold insn_closed in *. rewrite length_app.
    apply andb_true_iff in H2 as [-> H2]. simpl. destruct (is_jump i); [|done]. simpl in *.
    apply andb_true_iff in H2 as [-> H2%Z.leb_le]. apply Z.leb_le. lia.
Qed.

Lemma closed_concat {A} (f : A → list BpfInsn) l : (∀ x, closed (f x)) → closed (concat (f <$> l)).
Proof. intros H. induction l; simpl; [by intros j i Hi|by apply closed_app]. Qed.

Lemma closed_cons i c : insn_closed (i :: c) 0 i = true → closed c → closed (i :: c).
Proof.
  intros Hi Hc [|j] i' Hj; simpl in Hj; [by simplify_eq|].
  specialize (Hc j i' Hj). unfold insn_closed in *. simpl length.
  apply andb_true_iff in Hc as [-> Hc]. simpl. destruct (is_jump i'); [|done]. simpl in *.
  apply andb_true_iff in Hc as [-> Hc%Z.leb_le]. apply Z.leb_le. lia.
Qed.

Lemma closed_single i : insn_closed [i] 0 i = true → closed [i].
Proof. intros Hi. apply closed_cons; [done|]. by intros j i' Hj. Qed.

Lemma guard_block_closed guards act :
  Forall (λ g, g.1 ∈ [2; 4; 5]) guards → closed [act] → closed (guard_block guards act).
Proof.
  intros Hg Hact. induction Hg as [|g guards Hg _ IH]; simpl; [done|].
  apply closed_cons; [|done]. rewrite !elem_of_cons, elem_of_nil in Hg.
  assert ((Z.of_nat 0 + 1 + Z.of_nat (S (length guards)) <=?
    Z.of_nat (length (jne_imm g.1 g.2 (Z.of_nat (S (length guards))) :: guard_block guards act)))
    = true)
    as Hle by (apply Z.leb_le; simpl; rewrite guard_block_length; lia).
  unfold insn_closed. change (bi_off (jne_imm _ _ ?o)) with o. rewrite Hle.
  rewrite (proj2 (Z.leb_le 0 _)) by lia. cbn [andb]. rewrite implb_true_r, andb_true_r.
  by destruct Hg as [->|[->|[->|[]]]].
Qed.

Lemma rule_block_closed r : closed (rule_block r).
Proof.
  apply guard_block_closed; [apply rule_guards_regs|]. apply closed_single.
  unfold rule_action. by repeat case_match.
Qed.

Lemma identity_block_closed i : closed (identity_block i).
Proof. apply guard_block_closed; [apply identity_guards_regs|]. by apply closed_single. Qed.

Lemma admissible_epilogue body : closed body → admissible (body ++ epilogue).
Proof.
  intros Hbody j i Hi. rewrite length_app. change (length epilogue) with 7%nat.
  apply lookup_app_Some in Hi as [Hi|[Hj Hi]].
  - apply lookup_lt_Some in Hi as Hlt. specialize (Hbody j i Hi). unfold insn_closed in Hbody.
    apply andb_true_iff in Hbody as [Hok Hjump]. split_and!; [done|lia|]. intros Hij.
    rewrite Hij in Hjump. simpl in Hjump.
    apply andb_true_iff in Hjump as [H1%Z.leb_le H2%Z.leb_le]. lia.
  - remember (j - length body)%nat as k eqn:Hk.
    do 7 (destruct k as [|k]; [simpl in Hi; injection Hi as <-;
      split_and!; [done|intros He; try done; lia|intros He; try done; simpl; lia]|]).
    by destruct k.
Qed.

Lemma boundary_code_admissible b : admissible (boundary_code b).
Proof.
  unfold boundary_code. rewrite !app_assoc. apply admissible_epilogue.
  repeat apply closed_app.
  - repeat (apply closed_cons; [done|]). by intros j i Hi.
  - apply closed_concat, identity_block_closed.
  - repeat (apply closed_cons; [by destruct (db_policy b)|]). by intros j i Hi.
  - destruct (db_policy b) as [policy|]; [|by intros j i Hi].
    apply closed_app; apply closed_concat; [apply rule_block_closed|apply identity_block_closed].
  - by apply closed_single.
Qed.

Lemma boundary_code_length b :
  (length (boundary_code b) ≤ 17 + 4 * length (db_identities b) +
     match db_policy b with Some p => 4 * length (dp_rules p) + 32 | None => 0 end)%nat.
Proof.
  assert (∀ {A} (f : A → list BpfInsn) l, (∀ x, (length (f x) ≤ 4)%nat) →
    (length (concat (f <$> l)) ≤ 4 * length l)%nat) as Hconcat.
  { intros A f l Hf. induction l as [|x l IH]; csimpl; [lia|]. rewrite length_app.
    specialize (Hf x). lia. }
  assert (∀ i, (length (identity_block i) ≤ 4)%nat) as Hid.
  { intros [[] ma [mi|]]; unfold identity_block; rewrite guard_block_length; simpl; lia. }
  assert (∀ r, (length (rule_block r) ≤ 4)%nat) as Hrule.
  { intros [al [] [ma|] [mi|] ac]; unfold rule_block; rewrite guard_block_length; simpl; lia. }
  unfold boundary_code. rewrite !length_app. simpl length.
  pose proof (Hconcat _ identity_block (db_identities b) Hid) as H1. fold (identities_code (db_identities b)) in H1.
  destruct (db_policy b) as [policy|]; simpl policy_code; rewrite ?length_app; [|simpl; lia].
  pose proof (Hconcat _ rule_block (dp_rules policy) Hrule) as H2. fold (rules_code (dp_rules policy)) in H2.
  pose proof (Hconcat _ identity_block normative_identities Hid) as H3.
  fold (identities_code normative_identities) in H3.
  change (length normative_identities) with 8%nat in H3. simpl in *. lia.
Qed.

(** ** From the OCI configuration *)

Lemma parse_device_number_u32 v n : parse_device_number v = Ok n → number_u32 n.
Proof.
  unfold parse_device_number, number_u32, u32_max. destruct v as [v|]; [|by intros [= <-]].
  case_bool_decide; [|done]. intros [= <-] w [= <-]. lia.
Qed.

Lemma rule_from_oci_typed rule r :
  rule_from_oci rule = Ok r → number_u32 (dr_major r) ∧ number_u32 (dr_minor r).
Proof.
  unfold rule_from_oci. intros H. apply rbind_ok in H as (kind & _ & H).
  apply rbind_ok in H as (major & Hma%parse_device_number_u32 & H).
  apply rbind_ok in H as (minor & Hmi%parse_device_number_u32 & H).
  apply rbind_ok in H as (access & _ & [= <-]). simpl.
  destruct (negb _); [done|]. by split.
Qed.

Lemma policy_from_oci_typed rules policy :
  policy_from_oci rules = Ok (Some policy) →
  policy_validate policy = Ok () ∧
  Forall (λ r, number_u32 (dr_major r) ∧ number_u32 (dr_minor r)) (dp_rules policy).
Proof.
  unfold policy_from_oci. case_bool_decide; [done|]. intros Hp.
  apply rbind_ok in Hp as ([] & _ & Hp). apply rbind_ok in Hp as (parsed & Hparsed & Hp).
  cbv zeta in Hp. case_bool_decide; [done|].
  apply rbind_ok in Hp as ([] & Hv & [= <-]). split; [done|]. simpl.
  apply Forall_forall. intros r [_ Hr]%list_elem_of_filter.
  apply rmap_ok in Hparsed. apply list_elem_of_lookup in Hr as [j Hj].
  destruct (Forall2_lookup_r _ _ _ _ _ Hparsed Hj) as (rule & _ & Hrule).
  by apply rule_from_oci_typed in Hrule.
Qed.

(** The nodes as the planner hands them over. *)
Definition nodes_typed (nodes : list (DeviceAccessKind * Z * Z)) : Prop :=
  Forall (λ n, 0 ≤ n.1.2 < 2 ^ 32 ∧ 0 ≤ n.2 < 2 ^ 32) nodes.

Lemma for_oci_nodes_ok nodes policy b :
  for_oci_nodes nodes policy = Ok b →
  boundary_validate b = Ok () ∧ db_policy b = policy ∧
  ∀ i, i ∈ db_identities b ↔ i = ptmx_identity ∨ i = pty_identity ∨
    ∃ n, n ∈ nodes ∧ i = mkIdentity n.1.1 n.1.2 (Some n.2).
Proof.
  unfold for_oci_nodes. intros H. apply rbind_ok in H as ([] & Hv & [= <-]).
  split_and!; [done..|]. intros i. simpl.
  rewrite !elem_of_btree_insert, elem_of_btree_collect, list_elem_of_fmap. naive_solver.
Qed.

Lemma configured_boundary_typed nodes rules policy b :
  nodes_typed nodes → policy_from_oci rules = Ok policy → for_oci_nodes nodes policy = Ok b →
  boundary_typed b.
Proof.
  intros Hnodes Hpolicy (_ & Hpol & Hids)%for_oci_nodes_ok. split.
  - apply Forall_forall. intros i [->|[->|(n & Hn & ->)]]%Hids.
    + split; [|intros v Hv]; simpl in *; simplify_eq;
        unfold OCI_PTMX_MAJOR, OCI_PTMX_MINOR in *; lia.
    + split; [simpl; unfold UNIX98_PTY_SLAVE_MAJOR; lia|done].
    + unfold nodes_typed in Hnodes. rewrite Forall_forall in Hnodes.
      destruct (Hnodes n Hn). split; [done|]. by intros v [= <-].
  - intros p Hp. apply (policy_from_oci_typed rules p). by rewrite Hpolicy, <- Hpol, Hp.
Qed.

(** Linux device numbers are 12 and 20 bits wide; 31 bits are enough for an
    exact comparison. *)
Definition device_number_ok (req : AccessRequest) : Prop :=
  rq_major req < 2 ^ 31 ∧ rq_minor req < 2 ^ 31.


Definition sample_rules : list LinuxDeviceCgroup :=
  [ mkDeviceCgroup false None None None (Some "rwm");
    mkDeviceCgroup true (Some DevC) (Some 10) None (Some "rw");
    mkDeviceCgroup false (Some DevC) (Some 10) (Some 229) (Some "w") ].
Definition sample_nodes : list (DeviceAccessKind * Z * Z) :=
  [(KindCharacter, 10, 229); (KindBlock, 8, 0)].
Definition sample_policy : option DeviceAccessPolicy :=
  Some (mkPolicy [ mkRule false KindAll None None 7;
                   mkRule true KindCharacter (Some 10) None 6;
                   mkRule false KindCharacter (Some 10) (Some 229) 4 ]).
Definition sample_boundary : DeviceAccessBoundary :=
  mkBoundary [ mkIdentity KindBlock 8 (Some 0); ptmx_identity;
               mkIdentity KindCharacter 10 (Some 229); pty_identity ] sample_policy.


(** C33: Admission and termination: every validated boundary compiles (no error
    path of the compiler is reached), to at most 3,153 instructions, below the
    4,096 that the kernel loads; and on any machine and any request the program
    returns, with its own length as fuel, because every jump goes forward. *)
Theorem device_program_terminates b :
  boundary_validate b = Ok () →
  ∃ program, boundary_program b = Ok program ∧ (length program ≤ 3153)%nat ∧
    admissible program ∧ ∀ mc req, ∃ v, run_program mc program req = Some v.
Proof.
  intros Hv. destruct (boundary_validate_ok b Hv) as (Hk & Hn & Hp). exists (boundary_code b).
  pose proof (boundary_code_admissible b) as Hadm. split_and!.
  - unfold boundary_program. rewrite Hv. by apply build_program_code.
  - pose proof (boundary_code_length b) as Hlen. unfold MAX_DEVICE_ACCESS_IDENTITIES in Hn.
    destruct (db_policy b) as [policy|]; [|lia].
    destruct (policy_validate_rules policy (Hp _ eq_refl)) as [Hr _].
    unfold MAX_DEVICE_ACCESS_RULES in Hr. lia.
  - done.
  - intros mc req. apply admissible_returns; [done|simpl; lia|done|lia].
Qed.

Lemma device_program_terminates_witness :
  ∃ program, boundary_program sample_boundary = Ok program ∧ (length program ≤ 3153)%nat ∧
    admissible program ∧ ∀ mc req, ∃ v, run_program mc program req = Some v.
Proof. apply device_program_terminates. reflexivity. Defined.

(** ** The rootless allowlist *)

Lemma position_some {A} (p : A → bool) l j :
  position p l = Some j → ∃ x, l !! j = Some x ∧ p x = true.
Proof.
  revert j. induction l as [|x l IH]; intros j; simpl; [done|].
  destruct (p x) eqn:Hp; [intros [= <-]; eauto|].
  destruct (position p l) as [k|]; [|done]. intros [= <-]. simpl. by apply IH.
Qed.

Lemma position_none {A} (p : A → bool) l x : position p l = None → x ∈ l → p x = false.
Proof.
  induction l as [|y l IH]; simpl; [set_solver|].
  destruct (p y) eqn:Hp; [done|]. destruct (position p l); [done|].
  intros _ [->|Hx]%elem_of_cons; auto.
Qed.

(** A rule that grants exactly the device [k]. *)
Definition grants_device (g : DeviceAccessRule) (k : DeviceAccessKind * Z * Z) : Prop :=
  dr_allow g = true ∧ dr_kind g ≠ KindAll ∧ dr_access g ≠ 0 ∧
  Z.ldiff (dr_access g) ALL_ACCESS = 0 ∧
  (dr_kind g, dr_major g, dr_minor g) = (k.1.1, Some k.1.2, Some k.2).

Lemma match_grants_spec grants remaining :
  match_grants grants remaining = true ↔
  ∃ keys, Forall2 grants_device grants keys ∧ keys ≡ₚ remaining.
Proof.
  revert remaining. induction grants as [|g grants IH]; intros remaining; simpl.
  { rewrite bool_decide_eq_true. split.
    - intros ->. exists []. auto using Forall2_nil_2.
    - intros (keys & Hk%Forall2_nil_inv_l & Hp). subst. by apply Permutation_nil. }
  set (bad := negb (dr_allow g) || _ || _ || _).
  assert (bad = false ↔ dr_allow g = true ∧ dr_kind g ≠ KindAll ∧ dr_access g ≠ 0 ∧
    Z.ldiff (dr_access g) ALL_ACCESS = 0) as Hbad.
  { unfold bad. rewrite !orb_false_iff, !negb_false_iff, bool_decide_eq_false, Z.eqb_neq, Z.eqb_eq.
    tauto. }
  split.
  - destruct bad; [done|]. destruct (proj1 Hbad eq_refl) as (Hal & Hki & Hac & Hld).
    destruct (dr_major g) as [major|] eqn:Hma, (dr_minor g) as [minor|] eqn:Hmi; try done.
    destruct (position _ remaining) as [j|] eqn:Hpos; [|done].
    apply position_some in Hpos as (k & Hj & ->%bool_decide_eq_true).
    intros (keys & Hkeys & Hperm)%IH. exists ((dr_kind g, major, minor) :: keys). split.
    + constructor; [|done]. repeat split; simpl; congruence.
    + by rewrite Hperm, <- swap_remove_Permutation.
  - intros (keys & Hkeys & Hperm). apply Forall2_cons_inv_l in Hkeys as (k & keys' & Hg & Hks & ->).
    destruct Hg as (Hal & Hki & Hac & Hld & [= Hk1 Hk2 Hk3]).
    rewrite (proj2 Hbad) by done. rewrite Hk2, Hk3.
    assert ((dr_kind g, k.1.2, k.2) = k) as Hkey by (destruct k as [[k1 k2] k3]; simpl in *; congruence).
    destruct (position _ remaining) as [j|] eqn:Hpos.
    + apply position_some in Hpos as (k' & Hj & ->%bool_decide_eq_true).
      apply IH. exists keys'. split; [done|]. rewrite Hkey in Hj.
      apply swap_remove_Permutation in Hj. rewrite Hj in Hperm. by apply Permutation_cons_inv in Hperm.
    + assert (k ∈ remaining) as Hin by (rewrite <- Hperm; set_solver).
      eapply position_none in Hin; [|exact Hpos]. rewrite Hkey in Hin.
      by rewrite bool_decide_true in Hin.
Qed.

(** The rootless check accepts exactly the policies that deny everything and
    then grant each expected device once, in any order. *)
Theorem rootless_allowlist_exact policy devices :
  is_exact_rootless_allowlist policy devices = true ↔
  ∃ grants keys, dp_rules policy = mkRule false KindAll None None ALL_ACCESS :: grants ∧
    Forall2 grants_device grants keys ∧ keys ≡ₚ devices.
Proof.
  unfold is_exact_rootless_allowlist. destruct (dp_rules policy) as [|reset grants]; [naive_solver|].
  set (bad := dr_allow reset || _ || _ || _ || _ || _).
  assert (bad = false ↔ reset = mkRule false KindAll None None ALL_ACCESS ∧
    length grants = length devices) as Hbad.
  { unfold bad. rewrite !orb_false_iff, !negb_false_iff, !bool_decide_eq_false, !bool_decide_eq_true,
      Z.eqb_eq, <- !eq_None_not_Some. destruct reset; simpl. naive_solver. }
  split.
  - destruct bad; [done|]. destruct (proj1 Hbad eq_refl) as [-> _].
    intros (keys & Hk & Hp)%match_grants_spec. by exists grants, keys.
  - intros (grants' & keys & [= -> ->] & Hk & Hp). rewrite (proj2 Hbad).
    + apply match_grants_spec. eauto.
    + split; [done|]. apply Forall2_length in Hk. rewrite Hk. by apply Permutation_length.
Qed.

(** ** Device numbers from 2^31 on *)

(** A configuration whose inventory holds block device 4294967295:4294967295. *)
Definition high_boundary : DeviceAccessBoundary :=
  mkBoundary [mkIdentity KindBlock u32_max (Some u32_max); ptmx_identity; pty_identity] None.
Definition high_request : AccessRequest := mkRequest KindBlock u32_max u32_max 2.

(** The compiler emits 64-bit jumps with a 32-bit immediate.  The kernel
    sign-extends the immediate, so a device number from 2^31 on never matches
    its own rule: the program refuses the device although the inventory grants
    it and the interpreter of the unit tests, which compares 32 bits, accepts
    it. *)
Theorem high_device_number_refused :
  for_oci_nodes [(KindBlock, u32_max, u32_max)] None = Ok high_boundary ∧
  boundary_grants high_boundary high_request = true ∧
  ∃ program, boundary_program high_boundary = Ok program ∧
    run_program kernel program high_request = Some 0 ∧
    run_program harness program high_request = Some 1.
Proof.
  split; [reflexivity|]. split; [reflexivity|].
  exists (boundary_code high_boundary). split; [reflexivity|]. by split; vm_compute.
Qed.

(** ** Loading *)

Lemma load_loop_last prog_load attempt log_len :
  MAX_BPF_LOG_BYTES ≤ log_len → is_Some (load_loop prog_load 1 attempt true log_len).
Proof.
  intros H. simpl. destruct (prog_load _ _ _); [case_bool_decide; eauto|].
  rewrite (proj2 (Z.ltb_ge _ _)), andb_false_r by done. eauto.
Qed.

Lemma load_loop_grow prog_load fuel attempt log_len :
  is_Some (load_loop prog_load fuel (S attempt) true
             (Z.min (Z.max log_len (16 * 1024) * 2) MAX_BPF_LOG_BYTES)) →
  is_Some (load_loop prog_load (S fuel) attempt true log_len).
Proof.
  intros H. cbn [load_loop negb]. destruct (prog_load _ _ _); [case_bool_decide; eauto|].
  by destruct (_ && _); [|eauto].
Qed.

Lemma load_loop_first prog_load fuel attempt log_len :
  is_Some (load_loop prog_load fuel (S attempt) true (16 * 1024)) →
  is_Some (load_loop prog_load (S fuel) attempt false log_len).
Proof.
  intros H. cbn [load_loop negb]. destruct (prog_load _ _ _); [case_bool_decide; eauto|done].
Qed.

(** Loading returns after at most four system calls whatever the kernel
    answers: without a log, then with 16, 32 and 64 KiB of verifier log. *)
Theorem boundary_load_returns prog_load b : is_Some (boundary_load prog_load 4 b).
Proof.
  unfold boundary_load, load_cgroup_device_program.
  destruct (boundary_validate b); [|eauto]. destruct (build_program b); [|eauto].
  case_bool_decide; [|eauto].
  apply load_loop_first, load_loop_grow, load_loop_grow, load_loop_last. done.
Qed.
