(* ===== verification/OutputBuffer.v ===== *)
(** * Captured process output (agent/src/executor/io.rs and
    session_supervisor/output_buffer.rs)

    One bounded buffer orders what a process writes to stdout and stderr: every
    byte takes a sequence number, the end of a stream takes one more, readers
    poll after a cursor, and the oldest chunks are evicted above 8 MiB.  The
    executor's [OutputBuffer] and the supervisor's [SyncOutputBuffer] have the
    same code over two error constructors, so the operations are written once
    over [mk_error] and instantiated for both.

    The buffer's mutex makes each operation atomic; a waiting reader is a poll
    of each state it wakes up in. *)

From stdpp Require Import base gmap list strings.
From S2P Require Import Prelude Sdk.
From Stdlib Require Import ZArith Lia.

Local Open Scope string_scope.
Local Open Scope list_scope.
Local Open Scope Z_scope.

Definition OUTPUT_BUFFER_BYTES : Z := 8 * 1024 * 1024.

Inductive OutputStream : Type := Stdout | Stderr.
#[global] Instance OutputStream_eq_dec : EqDecision OutputStream.
Proof. solve_decision. Defined.

(** [OutputChunk] of the SDK; a byte is a [Z]. *)
Record OutputChunk : Type := mkOutputChunk {
  oc_sequence : Z; oc_stream : OutputStream; oc_data : list Z; oc_eof : bool
}.

Record BufferedChunk : Type := mkBuffered {
  bc_start : Z; bc_end : Z; bc_stream : OutputStream; bc_data : list Z; bc_eof : bool
}.

Record OutputState : Type := mkOutputState {
  os_chunks : list BufferedChunk;
  os_retained_bytes : Z;
  os_next_sequence : Z;
  os_dropped_through : Z;
  os_open_streams : Z;
  os_terminal_error : option string
}.

Inductive OutputPoll : Type := Ready (chunks : list OutputChunk) | Complete | Pending.

Definition data_len (data : list Z) : Z := Z.of_nat (length data).

(** [OutputBuffer::new] *)
Definition buffer_new (open_streams : Z) : OutputState :=
  mkOutputState [] 0 1 0 open_streams None.

Section buffer.
Variable mk_error : ErrorCode → string → Error.

Definition sequence_exhausted : Error :=
  mk_error ResourceExhausted "process output sequence space is exhausted".

(** The eviction loop: pops the oldest chunks while too much is retained. *)
Fixpoint evict (chunks : list BufferedChunk) (retained dropped : Z)
    : Result () * (list BufferedChunk * Z * Z) :=
  if OUTPUT_BUFFER_BYTES <? retained then
    match chunks with
    | [] => (Ok (), ([], retained, dropped))
    | c :: rest =>
        if retained <? data_len (bc_data c)
        then (Err (mk_error Internal
                "process output buffer byte accounting became inconsistent"),
              (rest, retained, dropped))
        else evict rest (retained - data_len (bc_data c)) (bc_end c)
    end
  else (Ok (), (chunks, retained, dropped)).

(** [OutputState::append]: an error keeps what was assigned before it. *)
Definition append (stream : OutputStream) (data : list Z) (eof : bool)
    : prog OutputState Error () := λ st,
  let width := if eof then 1 else data_len data in
  match checked_add_u64 (os_next_sequence st) width with
  | None => (Err sequence_exhausted, st)
  | Some next =>
      let start_sequence := os_next_sequence st in
      let end_sequence := next - 1 in
      match checked_add_u64 (os_retained_bytes st) (data_len data) with
      | None =>
          (Err (mk_error ResourceExhausted "process output buffer byte accounting overflowed"),
           mkOutputState (os_chunks st) (os_retained_bytes st) next (os_dropped_through st)
             (os_open_streams st) (os_terminal_error st))
      | Some retained =>
          let chunks := os_chunks st ++
            [mkBuffered start_sequence end_sequence stream data eof] in
          let '(r, (chunks, retained, dropped)) :=
            evict chunks retained (os_dropped_through st) in
          (r, mkOutputState chunks retained next dropped (os_open_streams st) (os_terminal_error st))
      end
  end.

(** [terminal_error.get_or_insert(message)] *)
Definition record_error (st : OutputState) (msg : string) : OutputState :=
  mkOutputState (os_chunks st) (os_retained_bytes st) (os_next_sequence st)
    (os_dropped_through st) (os_open_streams st)
    (match os_terminal_error st with Some e => Some e | None => Some msg end).
Definition append_or_record (stream : OutputStream) (data : list Z) (eof : bool)
    (st : OutputState) : OutputState :=
  match append stream data eof st with
  | (Ok _, st') => st'
  | (Err e, st') => record_error st' (message e)
  end.

(** [OutputBuffer::append] *)
Definition buffer_append (stream : OutputStream) (data : list Z) (st : OutputState) : OutputState :=
  match data with
  | [] => st
  | _ => append_or_record stream data false st
  end.

(** [OutputBuffer::finish]; the text of an I/O error is its own string. *)
Definition buffer_finish (stream : OutputStream) (error : option string) (st : OutputState)
    : OutputState :=
  let st := match error with Some e => record_error st e | None => st end in
  let st := if 0 <? os_open_streams st
            then mkOutputState (os_chunks st) (os_retained_bytes st) (os_next_sequence st)
                   (os_dropped_through st) (os_open_streams st - 1) (os_terminal_error st)
            else st in
  append_or_record stream [] true st.

(** The collection loop of [OutputState::poll]. *)
Fixpoint collect (after remaining : Z) (chunks : list BufferedChunk) : Result (list OutputChunk) :=
  match chunks with
  | [] => Ok []
  | c :: rest =>
      if bc_end c <=? after then collect after remaining rest
      else if bc_eof c then
        try! out := collect after remaining rest in
        Ok (mkOutputChunk (bc_end c) (bc_stream c) [] true :: out)
      else if remaining =? 0 then Ok []
      else
        let offset := if bc_start c <=? after then after - bc_start c + 1 else 0 in
        let available := Z.max 0 (data_len (bc_data c) - offset) in
        let length := Z.min available remaining in
        if length =? 0 then collect after remaining rest
        else
          try! sequence := ok_or sequence_exhausted
            (checked_add_u64 (bc_start c) (offset + length - 1)) in
          let chunk := mkOutputChunk sequence (bc_stream c)
            (take (Z.to_nat length) (drop (Z.to_nat offset) (bc_data c))) false in
          if length <? available then Ok [chunk]
          else try! out := collect after (remaining - length) rest in Ok (chunk :: out)
  end.

Definition poll (after max_bytes : Z) (st : OutputState) : Result OutputPoll :=
  if after <? os_dropped_through st
  then Err (mk_error ResourceExhausted
         "output cursor {} fell behind retained cursor {}; restart from the retained cursor")
  else if os_next_sequence st <=? after
  then Err (mk_error InvalidArgument "output cursor {} is ahead of latest cursor {}")
  else
    try! output := collect after max_bytes (os_chunks st) in
    match output with
    | _ :: _ => Ok (Ready output)
    | [] => if os_open_streams st =? 0
            then match os_terminal_error st with
                 | Some msg => Err (mk_error Internal msg)
                 | None => Ok Complete
                 end
            else Ok Pending
    end.

(** [OutputBuffer::read]: the states in which the reader holds the lock, first
    when it starts and then at every wake-up before the deadline. *)
Fixpoint read (after max_bytes : Z) (wait : bool) (observed : list OutputState)
    : Result (list OutputChunk) :=
  match observed with
  | [] => Ok []
  | st :: later =>
      try! p := poll after max_bytes st in
      match p with
      | Ready chunks => Ok chunks
      | Complete => Ok []
      | Pending => if wait then read after max_bytes wait later else Ok []
      end
  end.
End buffer.

(** The two buffers. *)
Definition io_error (c : ErrorCode) (msg : string) : Error :=
  for_operation (error_new c msg) "process-io".
Definition buffer_error (c : ErrorCode) (msg : string) : Error := error_new c msg.

Definition host_append := buffer_append io_error.
Definition host_finish := buffer_finish io_error.
Definition host_read := read io_error.
Definition sync_append := buffer_append buffer_error.
Definition sync_finish := buffer_finish buffer_error.
Definition sync_read := read buffer_error.

(** * What readers of captured output see

    The abstract output of a process is one list of items: the bytes of both
    streams in the order they were drained and one end marker per stream.  The
    buffer implements it: sequence numbers are positions in the list, a poll
    returns the items after the cursor, and a reader that follows its cursor
    receives a prefix of the list, whatever writers do in between. *)

(** ** The abstract output *)

Inductive item : Type :=
  | ItemByte (stream : OutputStream) (byte : Z)
  | ItemEof (stream : OutputStream).

Definition items_of (stream : OutputStream) (data : list Z) (eof : bool) : list item :=
  if eof then [ItemEof stream] else ItemByte stream <$> data.
Definition chunk_items (c : BufferedChunk) : list item :=
  items_of (bc_stream c) (bc_data c) (bc_eof c).
Definition out_items (o : OutputChunk) : list item :=
  items_of (oc_stream o) (oc_data o) (oc_eof o).

Definition ilen (l : list item) : Z := Z.of_nat (length l).
Definition all_items (cs : list BufferedChunk) : list item := concat (chunk_items <$> cs).
Definition received (os : list OutputChunk) : list item := concat (out_items <$> os).
Fixpoint total_bytes (cs : list BufferedChunk) : Z :=
  match cs with [] => 0 | c :: cs' => data_len (bc_data c) + total_bytes cs' end.
Fixpoint out_bytes (os : list OutputChunk) : Z :=
  match os with [] => 0 | o :: os' => data_len (oc_data o) + out_bytes os' end.

(** Chunks number the items after position [d] without gaps. *)
Definition chunk_at (d : Z) (c : BufferedChunk) : Prop :=
  bc_start c = d + 1 ∧ bc_end c = d + ilen (chunk_items c) ∧ 0 < ilen (chunk_items c) ∧
  (bc_eof c = true → bc_data c = []).
Fixpoint chain (d : Z) (cs : list BufferedChunk) : Prop :=
  match cs with
  | [] => True
  | c :: cs' => chunk_at d c ∧ chain (bc_end c) cs'
  end.

(** Returned chunks carry the position of their last item. *)
Fixpoint numbered (cursor : Z) (os : list OutputChunk) : Prop :=
  match os with
  | [] => True
  | o :: os' => oc_sequence o = cursor + ilen (out_items o) ∧ numbered (oc_sequence o) os'
  end.

Record buffer_inv (hist : list item) (st : OutputState) : Prop := {
  inv_next : os_next_sequence st = 1 + ilen hist;
  inv_width : os_next_sequence st ≤ u64_max;
  inv_dropped : 0 ≤ os_dropped_through st ≤ ilen hist;
  inv_chain : chain (os_dropped_through st) (os_chunks st);
  inv_items : all_items (os_chunks st) = drop (Z.to_nat (os_dropped_through st)) hist;
  inv_retained : os_retained_bytes st = total_bytes (os_chunks st);
  inv_bound : os_retained_bytes st ≤ OUTPUT_BUFFER_BYTES
}.

Lemma ilen_app l k : ilen (l ++ k) = ilen l + ilen k.
Proof. unfold ilen. rewrite length_app. lia. Qed.
Lemma ilen_cons x l : ilen (x :: l) = 1 + ilen l.
Proof. unfold ilen. simpl. lia. Qed.
Lemma ilen_nonneg l : 0 ≤ ilen l.
Proof. unfold ilen. lia. Qed.
Lemma ilen_bytes s data : ilen (items_of s data false) = data_len data.
Proof. unfold ilen, items_of, data_len. by rewrite length_fmap. Qed.

Lemma all_items_app cs1 cs2 : all_items (cs1 ++ cs2) = all_items cs1 ++ all_items cs2.
Proof. unfold all_items. by rewrite fmap_app, concat_app. Qed.

Lemma chain_app d cs1 cs2 :
  chain d (cs1 ++ cs2) ↔ chain d cs1 ∧ chain (d + ilen (all_items cs1)) cs2.
Proof.
  revert d. induction cs1 as [|c cs1 IH]; intros d; simpl.
  - change (ilen (all_items [])) with 0. rewrite Z.add_0_r. tauto.
  - rewrite IH. change (all_items (c :: cs1)) with (chunk_items c ++ all_items cs1).
    rewrite ilen_app, Z.add_assoc. unfold chunk_at. split.
    + intros [(? & He & ?) [? ?]]. rewrite He in *. tauto.
    + intros [[(? & He & ?) ?] ?]. rewrite He in *. tauto.
Qed.

Lemma total_bytes_app cs1 cs2 : total_bytes (cs1 ++ cs2) = total_bytes cs1 + total_bytes cs2.
Proof. induction cs1 as [|c cs1 IH]; simpl; [done|]. rewrite IH. lia. Qed.

Lemma data_len_nonneg data : 0 ≤ data_len data.
Proof. unfold data_len. lia. Qed.

Lemma total_bytes_nonneg cs : 0 ≤ total_bytes cs.
Proof. induction cs as [|c cs IH]; simpl; [lia|]. pose proof (data_len_nonneg (bc_data c)). lia. Qed.

Lemma chunk_bytes_items d c : chunk_at d c → data_len (bc_data c) ≤ ilen (chunk_items c).
Proof.
  intros (_ & _ & Hpos & Heof). unfold chunk_items in *. destruct (bc_eof c).
  - rewrite Heof by done. apply ilen_nonneg.
  - by rewrite ilen_bytes.
Qed.

Lemma total_bytes_items d cs : chain d cs → total_bytes cs ≤ ilen (all_items cs).
Proof.
  revert d. induction cs as [|c cs IH]; intros d Hc; simpl; [done|].
  destruct Hc as [Hc Hcs]. change (all_items (c :: cs)) with (chunk_items c ++ all_items cs).
  rewrite ilen_app. apply chunk_bytes_items in Hc. apply IH in Hcs. lia.
Qed.

(** ** Eviction and append *)

Lemma evict_spec mk_error cs retained d :
  chain d cs → retained = total_bytes cs →
  ∃ pre post, cs = pre ++ post ∧
    evict mk_error cs retained d = (Ok (), (post, total_bytes post, d + ilen (all_items pre))) ∧
    total_bytes post ≤ OUTPUT_BUFFER_BYTES.
Proof.
  revert retained d. induction cs as [|c cs IH]; intros retained d Hchain ->; simpl.
  - exists [], []. change (ilen (all_items [])) with 0. rewrite Z.add_0_r. by split_and!.
  - destruct (Z.ltb_spec OUTPUT_BUFFER_BYTES (data_len (bc_data c) + total_bytes cs)).
    + pose proof (total_bytes_nonneg cs). rewrite (proj2 (Z.ltb_ge _ _)) by lia.
      destruct Hchain as [Hc Hcs].
      destruct (IH (data_len (bc_data c) + total_bytes cs - data_len (bc_data c)) (bc_end c))
        as (pre & post & -> & -> & Hb); [done|lia|].
      exists (c :: pre), post. split_and!; [done| |done].
      change (all_items (c :: pre)) with (chunk_items c ++ all_items pre).
      rewrite ilen_app. destruct Hc as (_ & -> & _). do 2 f_equal. lia.
    + exists [], (c :: cs). change (ilen (all_items [])) with 0. rewrite Z.add_0_r. by split_and!.
Qed.

(** [append] records the items at the end of the history, or changes nothing
    when the sequence numbers are used up. *)
Lemma append_spec mk_error hist st stream data (eof : bool) :
  buffer_inv hist st → (if eof then data = [] else data ≠ []) →
  if decide (os_next_sequence st + ilen (items_of stream data eof) ≤ u64_max)
  then ∃ st', append mk_error stream data eof st = (Ok (), st') ∧
         buffer_inv (hist ++ items_of stream data eof) st' ∧
         os_open_streams st' = os_open_streams st ∧
         os_terminal_error st' = os_terminal_error st
  else append mk_error stream data eof st = (Err (sequence_exhausted mk_error), st).
Proof.
  intros [Hnext Hwidth Hdrop Hchain Hitems Hret Hbound] Hdata.
  set (items := items_of stream data eof).
  assert ((if eof then 1 else data_len data) = ilen items) as Hw
    by (destruct eof; [done|by rewrite <- (ilen_bytes stream)]).
  assert (0 < ilen items) as Hpos.
  { rewrite <- Hw. destruct eof; [lia|]. unfold data_len. destruct data; [done|]. simpl. lia. }
  assert (data_len data ≤ ilen items) as Hdl.
  { rewrite <- Hw. destruct eof; [subst; unfold data_len; simpl; lia|lia]. }
  unfold append. rewrite Hw. unfold checked_add_u64.
  case_decide as D; [|done].
  pose proof (total_bytes_items _ _ Hchain) as Hti. rewrite Hitems in Hti.
  assert (ilen (drop (Z.to_nat (os_dropped_through st)) hist) ≤ ilen hist) as Hdl'
    by (unfold ilen; rewrite length_drop; lia).
  rewrite decide_True by lia.
  set (c := mkBuffered _ _ stream data eof).
  assert (chunk_items c = items) as Hci by done.
  assert (chain (os_dropped_through st) (os_chunks st ++ [c])) as Hchain'.
  { apply chain_app. split; [done|]. simpl. split; [|done]. rewrite Hitems.
    assert (os_dropped_through st + ilen (drop (Z.to_nat (os_dropped_through st)) hist) = ilen hist)
      as -> by (unfold ilen in *; rewrite length_drop; lia).
    unfold chunk_at. rewrite Hci. simpl. split_and!; [lia|lia|done|]. by intros ->. }
  destruct (evict_spec mk_error (os_chunks st ++ [c]) (os_retained_bytes st + data_len data)
    (os_dropped_through st)) as (pre & post & Heq & -> & Hb); [done| |].
  { rewrite total_bytes_app. simpl. lia. }
  eexists. split; [done|]. split; [|done].
  assert (all_items pre ++ all_items post = drop (Z.to_nat (os_dropped_through st)) hist ++ items)
    as Hall.
  { rewrite <- all_items_app, <- Heq, all_items_app, Hitems. f_equal.
    unfold all_items. simpl. by rewrite app_nil_r. }
  assert (ilen (all_items pre) ≤ ilen (drop (Z.to_nat (os_dropped_through st)) hist ++ items))
    as Hpre by (rewrite <- Hall, ilen_app; pose proof (ilen_nonneg (all_items post)); lia).
  assert (os_dropped_through st + ilen (drop (Z.to_nat (os_dropped_through st)) hist) = ilen hist)
    as Hsum by (unfold ilen in *; rewrite length_drop; lia).
  rewrite ilen_app in Hpre. pose proof (ilen_nonneg (all_items pre)).
  split; simpl; try done.
  - rewrite ilen_app. lia.
  - rewrite ilen_app. lia.
  - rewrite Heq in Hchain'. by apply chain_app in Hchain' as [_ ?].
  - rewrite Z2Nat.inj_add by lia. rewrite <- drop_drop.
    rewrite (drop_app_le hist items) by (unfold ilen in *; lia). rewrite <- Hall.
    rewrite drop_app_length'; [done|]. unfold ilen. lia.
Qed.

(** ** Collecting and polling *)

Lemma received_cons o os : received (o :: os) = out_items o ++ received os.
Proof. done. Qed.

(** Where a read starts inside the chunk that holds its cursor. *)
Lemma chunk_offset d c after :
  bc_start c = d + 1 → bc_end c = d + data_len (bc_data c) → after < bc_end c →
  0 < data_len (bc_data c) →
  let off := if bc_start c <=? after then after - bc_start c + 1 else 0 in
  Z.to_nat off = Z.to_nat (after - d) ∧ 0 ≤ off < data_len (bc_data c) ∧ d + off = Z.max after d.
Proof. intros. destruct (Z.leb_spec (bc_start c) after); lia. Qed.

(** The slice of a chunk's bytes and what remains of it. *)
Lemma slice_items stream data off len seq :
  0 ≤ off → 0 ≤ len ≤ data_len data - off →
  let o := mkOutputChunk seq stream (take (Z.to_nat len) (drop (Z.to_nat off) data)) false in
  drop (Z.to_nat off) (items_of stream data false) =
    out_items o ++ items_of stream (drop (Z.to_nat len) (drop (Z.to_nat off) data)) false ∧
  ilen (out_items o) = len ∧ data_len (oc_data o) = len.
Proof.
  intros Hoff Hlen o. unfold o, out_items, items_of, ilen, data_len in *.
  cbn [oc_stream oc_data oc_eof]. rewrite length_fmap, length_take, length_drop.
  split; [|lia]. by rewrite <- fmap_drop, <- fmap_app, take_drop.
Qed.

(** What a collection from position [d] answers for the items [items]: the
    items after the cursor, numbered by position, up to the byte budget and
    nothing less. *)
Definition collected (items : list item) (d after remaining : Z) (out : list OutputChunk) : Prop :=
  ∃ rest, drop (Z.to_nat (after - d)) items = received out ++ rest ∧
    numbered (Z.max after d) out ∧ out_bytes out ≤ remaining ∧
    (rest = [] ∨ out_bytes out = remaining).

(** A chunk whose items all follow the cursor is returned in front of what the
    rest of the buffer answers. *)
Lemma collected_cons items rest_items d d' after remaining o out :
  Z.max after d = d' - ilen (out_items o) → after ≤ d' →
  oc_sequence o = d' → drop (Z.to_nat (after - d)) items = out_items o ++ rest_items →
  collected rest_items d' after (remaining - data_len (oc_data o)) out →
  collected items d after remaining (o :: out).
Proof.
  intros Hd Hafter Hseq Hitems (rest & Hdrop & Hnum & Hb & Hm). exists rest.
  replace (Z.to_nat (after - d')) with 0%nat in Hdrop by lia. rewrite drop_0 in Hdrop.
  rewrite Z.max_r in Hnum by lia. rewrite received_cons, <- app_assoc, <- Hdrop.
  cbn [numbered out_bytes]. rewrite Hseq. split_and!; [done|lia|done|lia|].
  destruct Hm; [by left|right; lia].
Qed.

Lemma collect_spec mk_error cs after remaining d :
  chain d cs → d + ilen (all_items cs) ≤ u64_max → 0 ≤ remaining → 0 ≤ d →
  ∃ out, collect mk_error after remaining cs = Ok out ∧
    collected (all_items cs) d after remaining out.
Proof.
  revert d remaining. induction cs as [|c cs IH]; intros d remaining Hchain Hmax Hrem Hd.
  { exists []. split; [done|]. exists []. simpl.
    split_and!; try done; [by destruct (Z.to_nat _)|by left]. }
  destruct Hchain as [(Hstart & Hend & Hpos & Heof) Hchain].
  change (all_items (c :: cs)) with (chunk_items c ++ all_items cs) in *.
  rewrite ilen_app in Hmax. pose proof (ilen_nonneg (all_items cs)). cbn [collect].
  destruct (Z.leb_spec (bc_end c) after) as [Hskip|Hskip].
  { destruct (IH (bc_end c) remaining) as (out & -> & rest & Hdrop & Hnum & Hb); [done|lia..|].
    exists out. split; [done|]. exists rest.
    replace (Z.max after d) with (Z.max after (bc_end c)) by lia. split; [|done].
    rewrite <- Hdrop, drop_app_ge by (unfold ilen in *; lia). f_equal. unfold ilen in *. lia. }
  unfold chunk_items in *. destruct (bc_eof c) eqn:Heofc.
  { change (ilen (items_of _ _ true)) with 1 in *.
    destruct (IH (bc_end c) remaining) as (out & -> & Hout); [done|lia..|].
    eexists. split; [done|]. eapply (collected_cons _ (all_items cs) _ (bc_end c)); [| |done| |].
    - change (ilen (out_items _)) with 1. lia.
    - lia.
    - by replace (Z.to_nat (after - d)) with 0%nat by lia.
    - cbn [oc_data]. change (data_len []) with 0. by rewrite Z.sub_0_r. }
  rewrite ilen_bytes in *. destruct (Z.eqb_spec remaining 0) as [->|Hrem0].
  { exists []. split; [done|]. eexists. split_and!; [done|done|simpl; lia|by right]. }
  destruct (chunk_offset d c after) as (Hoff & Hoffb & Hcur); [done..|].
  set (off := if bc_start c <=? after then after - bc_start c + 1 else 0) in *.
  rewrite (Z.max_r 0) by lia. set (len := Z.min _ _).
  rewrite (proj2 (Z.eqb_neq len 0)) by lia. unfold checked_add_u64.
  rewrite decide_True by lia. cbn [ok_or rbind].
  destruct (slice_items (bc_stream c) (bc_data c) off len (bc_start c + (off + len - 1)))
    as (Hslice & Hilen & Hdl); [lia..|]. set (o := mkOutputChunk _ _ _ false) in *.
  assert (drop (Z.to_nat (after - d)) (items_of (bc_stream c) (bc_data c) false ++ all_items cs) =
    out_items o ++ items_of (bc_stream c) (drop (Z.to_nat len) (drop (Z.to_nat off) (bc_data c))) false
    ++ all_items cs) as Hitems.
  { rewrite <- Hoff, drop_app_le, Hslice, app_assoc; [done|].
    pose proof (ilen_bytes (bc_stream c) (bc_data c)). unfold ilen in *. lia. }
  assert (oc_sequence o = d + off + len) as Hseq by (unfold o; cbn [oc_sequence]; lia).
  destruct (Z.ltb_spec len (data_len (bc_data c) - off)) as [Hpart|Hfull].
  - eexists. split; [done|]. eapply (collected_cons _ _ _ (d + off + len)); [lia|lia|done|exact Hitems|].
    eexists. split_and!; [done|done|cbn [out_bytes]; lia|right; cbn [out_bytes]; lia].
  - destruct (IH (bc_end c) (remaining - len)) as (out & -> & Hout); [done|lia..|].
    eexists. split; [done|]. eapply (collected_cons _ (all_items cs) _ (bc_end c)); [lia|lia|lia| |by rewrite Hdl].
    rewrite Hitems. f_equal. rewrite (drop_ge (drop _ _)); [done|].
    rewrite length_drop. unfold data_len in *. lia.
Qed.

(** The cursor that a reader continues from. *)
Definition next_cursor (cursor : Z) (out : list OutputChunk) : Z :=
  match last out with Some o => oc_sequence o | None => cursor end.

Lemma numbered_cursor cursor out :
  numbered cursor out → next_cursor cursor out = cursor + ilen (received out).
Proof.
  unfold next_cursor. revert cursor. induction out as [|o out IH]; intros cursor Hn.
  - change (received []) with (@nil item). unfold ilen. simpl. lia.
  - destruct Hn as [Ho Hn]. rewrite received_cons, ilen_app, last_cons.
    specialize (IH _ Hn). destruct (last out); lia.
Qed.

(** A poll after a retained cursor returns the items that follow it: numbered
    by their position, at most [max_bytes] bytes, and as many as the budget
    allows.  Nothing is returned only when nothing follows or the budget is
    zero, and then the answer tells an open buffer from a finished one. *)
Lemma poll_spec mk_error hist st after max_bytes :
  buffer_inv hist st → os_dropped_through st ≤ after ≤ ilen hist → 0 ≤ max_bytes →
  (∃ out rest, poll mk_error after max_bytes st = Ok (Ready out) ∧ out ≠ [] ∧
     drop (Z.to_nat after) hist = received out ++ rest ∧ numbered after out ∧
     out_bytes out ≤ max_bytes ∧ (rest = [] ∨ out_bytes out = max_bytes)) ∨
  ((after = ilen hist ∨ max_bytes = 0) ∧
   poll mk_error after max_bytes st =
     if os_open_streams st =? 0
     then match os_terminal_error st with
          | Some msg => Err (mk_error Internal msg)
          | None => Ok Complete
          end
     else Ok Pending).
Proof.
  intros [Hnext Hwidth Hdrop Hchain Hitems _ _] Hafter Hmax. unfold poll.
  rewrite (proj2 (Z.ltb_ge _ _)), (proj2 (Z.leb_gt _ _)) by lia.
  assert (os_dropped_through st + ilen (all_items (os_chunks st)) = ilen hist) as Hsum.
  { rewrite Hitems. unfold ilen in *. rewrite length_drop. lia. }
  destruct (collect_spec mk_error (os_chunks st) after max_bytes (os_dropped_through st))
    as (out & -> & rest & Heq & Hnum & Hb & Hm); [done|lia..|]. cbn [rbind].
  rewrite Hitems, drop_drop in Heq.
  replace (Z.to_nat (os_dropped_through st) + Z.to_nat (after - os_dropped_through st))%nat
    with (Z.to_nat after) in Heq by lia.
  rewrite Z.max_l in Hnum by lia.
  destruct out as [|o out]; [right|left].
  - split; [|done]. destruct Hm as [->|Hm]; [left|by right].
    apply (f_equal length) in Heq. rewrite length_drop in Heq. simpl in Heq. unfold ilen in *. lia.
  - exists (o :: out), rest. by split_and!.
Qed.

(** ** Readers and writers *)

(** A client that keeps its cursor and the items it has received. *)
Inductive BufferOp : Type :=
  | OpAppend (stream : OutputStream) (data : list Z)
  | OpFinish (stream : OutputStream) (error : option string)
  | OpRead (max_bytes : N).

Record Session : Type := mkSession {
  ss_buffer : OutputState; ss_cursor : Z; ss_received : list item
}.
Definition session_new (open_streams : Z) : Session := mkSession (buffer_new open_streams) 0 [].

Definition session_step (mk_error : ErrorCode → string → Error) (s : Session) (op : BufferOp)
    : Session :=
  match op with
  | OpAppend stream data =>
      mkSession (buffer_append mk_error stream data (ss_buffer s)) (ss_cursor s) (ss_received s)
  | OpFinish stream error =>
      mkSession (buffer_finish mk_error stream error (ss_buffer s)) (ss_cursor s) (ss_received s)
  | OpRead max_bytes =>
      match read mk_error (ss_cursor s) (Z.of_N max_bytes) false [ss_buffer s] with
      | Ok out => mkSession (ss_buffer s) (next_cursor (ss_cursor s) out)
                    (ss_received s ++ received out)
      | Err _ => s
      end
  end.
Definition run_session (mk_error : ErrorCode → string → Error) (open_streams : Z)
    (ops : list BufferOp) : Session :=
  foldl (session_step mk_error) (session_new open_streams) ops.

(** The abstract output: everything drained, while sequence numbers last. *)
Definition extend (hist items : list item) : list item :=
  if decide (1 + ilen hist + ilen items ≤ u64_max) then hist ++ items else hist.
Definition history_step (hist : list item) (op : BufferOp) : list item :=
  match op with
  | OpAppend _ [] => hist
  | OpAppend stream data => extend hist (items_of stream data false)
  | OpFinish stream _ => extend hist [ItemEof stream]
  | OpRead _ => hist
  end.
Definition history (ops : list BufferOp) : list item := foldl history_step [] ops.

Lemma buffer_inv_new n : buffer_inv [] (buffer_new n).
Proof. split; try done. Qed.

Lemma buffer_inv_fields hist st st' :
  buffer_inv hist st → os_chunks st' = os_chunks st →
  os_retained_bytes st' = os_retained_bytes st → os_next_sequence st' = os_next_sequence st →
  os_dropped_through st' = os_dropped_through st → buffer_inv hist st'.
Proof. intros [] H1 H2 H3 H4. split; by rewrite ?H1, ?H2, ?H3, ?H4. Qed.

Lemma append_or_record_inv mk_error hist st stream data (eof : bool) :
  buffer_inv hist st → (if eof then data = [] else data ≠ []) →
  buffer_inv (extend hist (items_of stream data eof))
    (append_or_record mk_error stream data eof st).
Proof.
  intros Hinv Hdata. pose proof (append_spec mk_error hist st stream data eof Hinv Hdata) as H.
  unfold append_or_record, extend. rewrite (inv_next _ _ Hinv) in H. case_decide.
  - destruct H as (st' & -> & Hinv' & _). done.
  - rewrite H. by apply (buffer_inv_fields _ st).
Qed.

Lemma buffer_step_inv mk_error hist s op :
  buffer_inv hist (ss_buffer s) → buffer_inv (history_step hist op) (ss_buffer (session_step mk_error s op)).
Proof.
  intros Hinv. destruct op as [stream data|stream error|max_bytes]; simpl.
  - destruct data as [|b data]; [done|].
    by apply (append_or_record_inv mk_error hist (ss_buffer s) stream (b :: data) false).
  - apply (append_or_record_inv mk_error hist _ stream [] true); [|done].
    destruct error; simpl; case_match; by apply (buffer_inv_fields _ (ss_buffer s)).
  - by case_match.
Qed.

Lemma extend_prefix hist items : hist `prefix_of` extend hist items.
Proof. unfold extend. case_decide; [by apply prefix_app_r|done]. Qed.

Lemma history_step_prefix hist op : hist `prefix_of` history_step hist op.
Proof. destruct op as [? []| |]; simpl; (done || apply extend_prefix). Qed.

(** Everything a session has received is the history up to its cursor. *)
Definition session_inv (hist : list item) (s : Session) : Prop :=
  buffer_inv hist (ss_buffer s) ∧ 0 ≤ ss_cursor s ≤ ilen hist ∧
  ss_received s = take (Z.to_nat (ss_cursor s)) hist.

Lemma take_received (hist items rest : list item) n :
  drop n hist = items ++ rest → take n hist ++ items = take (n + length items) hist.
Proof.
  intros H. rewrite <- (take_drop n hist) at 2. rewrite H.
  destruct (decide (n ≤ length hist)%nat).
  - rewrite take_app_ge by (rewrite length_take; lia). rewrite length_take, Nat.min_l by lia.
    replace (n + length items - n)%nat with (length items) by lia. by rewrite take_app_length.
  - rewrite drop_ge in H by lia. symmetry in H. apply app_eq_nil in H as [-> ->].
    rewrite !app_nil_r, take_take. by rewrite Nat.min_r by (simpl; lia).
Qed.

Lemma session_step_inv mk_error hist s op :
  session_inv hist s → session_inv (history_step hist op) (session_step mk_error s op).
Proof.
  intros (Hinv & Hcur & Hrec). split; [by apply buffer_step_inv|].
  assert (0 ≤ ss_cursor s ≤ ilen (history_step hist op) ∧
    ss_received s = take (Z.to_nat (ss_cursor s)) (history_step hist op)) as Hsame.
  { destruct (history_step_prefix hist op) as [more ->]. rewrite ilen_app.
    pose proof (ilen_nonneg more). split; [lia|].
    rewrite Hrec, take_app_le; [done|]. unfold ilen in *. lia. }
  destruct op as [stream data|stream error|max_bytes]; [done..|]. simpl in *.
  destruct (decide (os_dropped_through (ss_buffer s) ≤ ss_cursor s)).
  2:{ unfold poll. by rewrite (proj2 (Z.ltb_lt _ _)) by lia. }
  destruct (poll_spec mk_error hist (ss_buffer s) (ss_cursor s) (Z.of_N max_bytes))
    as [(out & rest & -> & _ & Hdrop & Hnum & _)|[_ ->]]; [done|lia|lia| |].
  - simpl. rewrite (numbered_cursor _ _ Hnum), Hrec, (take_received _ _ _ _ Hdrop).
    apply (f_equal length) in Hdrop. rewrite length_drop, length_app in Hdrop.
    unfold ilen in *. split; [lia|]. f_equal. lia.
  - destruct (os_open_streams _ =? 0); [destruct (os_terminal_error _)|]; simpl;
      rewrite ?app_nil_r; exact Hsame.
Qed.

Lemma run_session_inv mk_error open_streams ops :
  session_inv (history ops) (run_session mk_error open_streams ops).
Proof.
  unfold history, run_session.
  assert (session_inv [] (session_new open_streams)) as H0.
  { split; [apply buffer_inv_new|]. by split. }
  revert H0. generalize (session_new open_streams), (@nil item).
  induction ops as [|op ops IH]; intros s hist Hs; simpl; [done|].
  by apply IH, session_step_inv.
Qed.

(** C21: Output refinement: after any interleaving of drained output, stream ends and
    reads, the reader holds exactly the first [cursor] items of what the
    process wrote, in order, without loss or duplication, and the buffer keeps
    at most 8 MiB and numbers the items by their position.  It holds for the
    executor's and for the supervisor's buffer. *)
Theorem output_reader_receives_prefix mk_error open_streams ops :
  let s := run_session mk_error open_streams ops in
  ss_received s = take (Z.to_nat (ss_cursor s)) (history ops) ∧
  ss_cursor s = ilen (ss_received s) ∧
  os_next_sequence (ss_buffer s) = 1 + ilen (history ops) ∧
  os_retained_bytes (ss_buffer s) = total_bytes (os_chunks (ss_buffer s)) ∧
  os_retained_bytes (ss_buffer s) ≤ OUTPUT_BUFFER_BYTES.
Proof.
  destruct (run_session_inv mk_error open_streams ops) as ([] & Hcur & Hrec).
  cbv zeta. split_and!; [done| |done..].
  rewrite Hrec. unfold ilen in *. rewrite length_take. lia.
Qed.

(** Reading makes progress: a reader whose cursor is still retained and who
    offers a positive budget gets every item that follows or fills its budget;
    only a reader more than the buffer behind is refused, with
    [ResourceExhausted], and its state does not change. *)
Theorem output_reader_progress mk_error open_streams ops max_bytes :
  0 < max_bytes →
  let s := run_session mk_error open_streams ops in
  if decide (ss_cursor s < os_dropped_through (ss_buffer s))
  then ∃ msg, read mk_error (ss_cursor s) max_bytes false [ss_buffer s] =
         Err (mk_error ResourceExhausted msg)
  else ss_cursor s < ilen (history ops) →
    ∃ out rest, read mk_error (ss_cursor s) max_bytes false [ss_buffer s] = Ok out ∧
      drop (Z.to_nat (ss_cursor s)) (history ops) = received out ++ rest ∧
      received out ≠ [] ∧ numbered (ss_cursor s) out ∧ out_bytes out ≤ max_bytes ∧
      (rest = [] ∨ out_bytes out = max_bytes).
Proof.
  intros Hmax s. destruct (run_session_inv mk_error open_streams ops) as (Hinv & Hcur & Hrec).
  fold s in Hinv, Hcur, Hrec. case_decide as D.
  - simpl. unfold poll. rewrite (proj2 (Z.ltb_lt _ _)) by lia. by eexists.
  - intros Hlt. destruct (poll_spec mk_error (history ops) (ss_buffer s) (ss_cursor s) max_bytes)
      as [(out & rest & Hp & _ & Hdrop & Hnum & Hb & Hm)|[Hno _]]; [done|lia|lia| |lia].
    exists out, rest. simpl. rewrite Hp. split_and!; try done. intros Hnil.
    assert (rest ≠ []) as Hrest.
    { intros ->. rewrite Hnil in Hdrop. apply (f_equal length) in Hdrop.
      rewrite length_drop in Hdrop. unfold ilen in *. simpl in Hdrop. lia. }
    destruct Hm as [|Hm]; [done|].
    assert (∀ os, received os = [] → out_bytes os ≤ 0) as Hzero.
    { induction os as [|o os IH]; intros Hos; simpl; [lia|].
      rewrite received_cons in Hos. apply app_eq_nil in Hos as [Ho Hos]. specialize (IH Hos).
      unfold out_items, items_of in Ho. destruct (oc_eof o); [done|].
      apply fmap_nil_inv in Ho. rewrite Ho. unfold data_len. simpl. lia. }
    specialize (Hzero _ Hnil). lia.
Qed.

Definition sample_ops : list BufferOp :=
  [OpAppend Stdout [104; 105]; OpAppend Stderr [33]; OpRead 2; OpFinish Stdout None].

Lemma output_reader_progress_witness :
  ∃ out rest, read io_error 2 8 false [ss_buffer (run_session io_error 2 sample_ops)] = Ok out ∧
    drop 2 (history sample_ops) = received out ++ rest ∧
    received out ≠ [] ∧ numbered 2 out ∧ out_bytes out ≤ 8 ∧ (rest = [] ∨ out_bytes out = 8).
Proof.
  pose proof (output_reader_progress io_error 2 sample_ops 8 eq_refl) as H.
  vm_compute in H. vm_compute. apply H. reflexivity.
Defined.
