(* ===== verification/Seccomp.v ===== *)
(** * Seccomp planning of the guest agent (agent/src/executor/seccomp.rs and
    its submodules architecture.rs and syscall.rs)

    [linux.seccomp] becomes a stack of classic BPF programs: a gate that kills
    every system-call ABI that was not selected, then, ABI by ABI, one filter
    per restrictive action and one for the default action.  The kernel runs
    every installed filter and takes the most restrictive answer.

    The compilation of one filter and the system-call tables are third-party
    crates: [SeccompEnv] holds them as operations.  Everything else, the
    planning, the rule normalisation, the gate and the ABI scopes written in
    BPF by the agent, is translated here. *)

From stdpp Require Import base gmap list strings.
From S2P Require Import Prelude Sdk Collections.
From Stdlib Require Import ZArith Lia.
Local Open Scope string_scope.
Local Open Scope list_scope.
Local Open Scope Z_scope.

(** ** Errors *)

Definition seccomp_error (c : ErrorCode) (msg : string) : Error :=
  for_operation (error_new c msg) "plan-seccomp".
Definition seccomp_invalid (msg : string) : Error := seccomp_error InvalidArgument msg.
Definition seccomp_unsupported (msg : string) : Error := seccomp_error Unsupported msg.

(** ** OCI configuration (oci-spec) *)

Inductive LinuxSeccompAction : Type :=
  | ScmpActKill | ScmpActKillProcess | ScmpActKillThread | ScmpActTrap | ScmpActErrno
  | ScmpActNotify | ScmpActTrace | ScmpActAllow | ScmpActLog.
Inductive LinuxSeccompOperator : Type :=
  | ScmpCmpNe | ScmpCmpLt | ScmpCmpLe | ScmpCmpEq | ScmpCmpGe | ScmpCmpGt | ScmpCmpMaskedEq.
(** The architectures that the agent distinguishes; every other one by name. *)
Inductive Arch : Type :=
  | ScmpArchNative | ScmpArchAarch64 | ScmpArchArm | ScmpArchX86 | ScmpArchX86_64 | ScmpArchX32
  | ScmpArchOther (name : string).

Record LinuxSeccompArg : Type := mkSeccompArg {
  sa_index : Z; sa_value : Z; sa_value_two : option Z; sa_op : LinuxSeccompOperator
}.
Record LinuxSyscall : Type := mkLinuxSyscall {
  sy_names : list string; sy_action : LinuxSeccompAction; sy_errno_ret : option Z;
  sy_args : option (list LinuxSeccompArg)
}.
Record LinuxSeccomp : Type := mkLinuxSeccomp {
  sc_default_action : LinuxSeccompAction;
  sc_default_errno_ret : option Z;
  sc_architectures : option (list Arch);
  sc_flags : option (list string);
  sc_listener_path : option string;
  sc_listener_metadata : option string;
  sc_syscalls : option (list LinuxSyscall)
}.

(** ** Plans *)

Inductive SeccompArchitecture : Type := Aarch64 | Arm | X86 | X86_64 | X32.
Definition arch_index (a : SeccompArchitecture) : Z :=
  match a with Aarch64 => 0 | Arm => 1 | X86 => 2 | X86_64 => 3 | X32 => 4 end.
#[global] Instance SeccompArchitecture_ord : Ord SeccompArchitecture.
Proof. refine (Ord_via arch_index _). by intros [] []. Defined.
#[global] Instance SeccompArchitecture_eq_dec : EqDecision SeccompArchitecture.
Proof. solve_decision. Defined.

Inductive SeccompActionPlan : Type :=
  | Allow | Errno (data : Z) | KillThread | KillProcess | Log | Trace (data : Z) | Trap.
(** The derived order: the variant, then its data. *)
Definition action_view (a : SeccompActionPlan) : Z * Z :=
  match a with
  | Allow => (0, 0) | Errno d => (1, d) | KillThread => (2, 0) | KillProcess => (3, 0)
  | Log => (4, 0) | Trace d => (5, d) | Trap => (6, 0)
  end.
#[global] Instance SeccompActionPlan_ord : Ord SeccompActionPlan.
Proof.
  refine (Ord_via action_view _).
  intros [| | | | | |] [| | | | | |]; simpl; intros H; simplify_eq; done.
Defined.
#[global] Instance SeccompActionPlan_eq_dec : EqDecision SeccompActionPlan.
Proof. solve_decision. Defined.

Inductive SeccompOperatorPlan : Type :=
  | Equal | GreaterEqual | GreaterThan | LessEqual | LessThan | MaskedEqual (mask : Z) | NotEqual.
Definition operator_view (o : SeccompOperatorPlan) : Z * Z :=
  match o with
  | Equal => (0, 0) | GreaterEqual => (1, 0) | GreaterThan => (2, 0) | LessEqual => (3, 0)
  | LessThan => (4, 0) | MaskedEqual m => (5, m) | NotEqual => (6, 0)
  end.
#[global] Instance SeccompOperatorPlan_ord : Ord SeccompOperatorPlan.
Proof.
  refine (Ord_via operator_view _).
  intros [| | | | | |] [| | | | | |]; simpl; intros H; simplify_eq; done.
Defined.

Record SeccompConditionPlan : Type := mkCondition {
  cp_argument_index : Z; cp_operator : SeccompOperatorPlan; cp_value : Z
}.
#[global] Instance SeccompConditionPlan_ord : Ord SeccompConditionPlan.
Proof.
  refine (Ord_via (λ c, (cp_argument_index c, (cp_operator c, cp_value c))) _).
  intros [i o v] [i' o' v']. simpl. by intros [= -> -> ->].
Defined.

Record ActionedRule : Type := mkActioned {
  ar_syscall_number : Z; ar_action : SeccompActionPlan; ar_conditions : list SeccompConditionPlan
}.
Record SeccompRulePlan : Type := mkRulePlan {
  rp_syscall_number : Z; rp_conditions : list SeccompConditionPlan
}.
Record SeccompFilterPlan : Type := mkFilterPlan {
  fp_architecture : option SeccompArchitecture;
  fp_mismatch_action : SeccompActionPlan;
  fp_match_action : SeccompActionPlan;
  fp_rules : list SeccompRulePlan
}.
Record SeccompPlan : Type := mkSeccompPlan {
  pl_architecture : option SeccompArchitecture;
  pl_architectures : list SeccompArchitecture;
  pl_filters : list SeccompFilterPlan
}.
Definition plan_default : SeccompPlan := mkSeccompPlan None [] [].

(** ** Classic BPF *)

Record sock_filter : Type := mkSock { sf_code : Z; sf_jt : Z; sf_jf : Z; sf_k : Z }.
#[global] Instance sock_filter_eq_dec : EqDecision sock_filter.
Proof. solve_decision. Defined.
Definition BpfProgram : Type := list sock_filter.

(** ** The third-party crates *)

(** [compile_bpf rules mismatch match audit]: [SeccompFilter::new] and its
    conversion to BPF of the seccompiler crate, for the rules by system-call
    number (an empty list of alternatives matches every call).  The
    [sysno_] functions are the tables of the syscalls crate. *)
Class SeccompEnv : Type := {
  consts_arch : string;
  sysno_aarch64 : string → option Z;
  sysno_arm : string → option Z;
  sysno_x86 : string → option Z;
  sysno_x86_64 : string → option Z;
  condition_new_ok : SeccompConditionPlan → bool;
  rule_new_ok : list SeccompConditionPlan → bool;
  filter_new_ok : list (Z * list (list SeccompConditionPlan)) → SeccompActionPlan →
                  SeccompActionPlan → bool;
  compile_bpf : list (Z * list (list SeccompConditionPlan)) → SeccompActionPlan →
                SeccompActionPlan → Z → option BpfProgram
}.

(** ** architecture.rs *)

Definition AUDIT_ARCH_AARCH64 : Z := 0xc00000b7.
Definition AUDIT_ARCH_ARM : Z := 0x40000028.
Definition AUDIT_ARCH_I386 : Z := 0x40000003.
Definition AUDIT_ARCH_X86_64 : Z := 0xc000003e.
Definition X32_SYSCALL_BIT : Z := 0x40000000.
Definition SECCOMP_DATA_NR_OFFSET : Z := 0.
Definition SECCOMP_DATA_ARCH_OFFSET : Z := 4.
Definition MAX_BPF_INSTRUCTIONS : nat := Z.to_nat 4096.
Definition CBPF_LD : Z := 0x00.
Definition CBPF_JMP : Z := 0x05.
Definition CBPF_RET : Z := 0x06.
Definition CBPF_W : Z := 0x00.
Definition CBPF_ABS : Z := 0x20.
Definition CBPF_JEQ : Z := 0x10.
Definition CBPF_JGE : Z := 0x30.
Definition CBPF_K : Z := 0x00.
Definition SECCOMP_RET_ALLOW : Z := 0x7fff0000.
Definition SECCOMP_RET_KILL_PROCESS : Z := 0x80000000.

Definition LOAD : Z := Z.lor (Z.lor CBPF_LD CBPF_W) CBPF_ABS.
Definition JUMP_EQ : Z := Z.lor (Z.lor CBPF_JMP CBPF_JEQ) CBPF_K.
Definition JUMP_GE : Z := Z.lor (Z.lor CBPF_JMP CBPF_JGE) CBPF_K.
Definition RETURN : Z := Z.lor CBPF_RET CBPF_K.

Definition statement (code k : Z) : sock_filter := mkSock code 0 0 k.
Definition jump (code k jt jf : Z) : sock_filter := mkSock code jt jf k.
Definition allow : sock_filter := statement RETURN SECCOMP_RET_ALLOW.
Definition kill_process : sock_filter := statement RETURN SECCOMP_RET_KILL_PROCESS.

Definition arch_name (a : SeccompArchitecture) : string :=
  match a with
  | Aarch64 => "aarch64" | Arm => "arm" | X86 => "x86" | X86_64 => "x86_64" | X32 => "x32"
  end.
Definition audit_value (a : SeccompArchitecture) : Z :=
  match a with
  | Aarch64 => AUDIT_ARCH_AARCH64 | Arm => AUDIT_ARCH_ARM | X86 => AUDIT_ARCH_I386
  | X86_64 | X32 => AUDIT_ARCH_X86_64
  end.
Definition compiler_audit_value (a : SeccompArchitecture) : Z :=
  match a with
  | Aarch64 | Arm => AUDIT_ARCH_AARCH64
  | X86 | X86_64 | X32 => AUDIT_ARCH_X86_64
  end.

Definition append_simple_allow (program : BpfProgram) (audit : Z) : BpfProgram :=
  (program ++ [jump JUMP_EQ audit 0 1]) ++ [allow].

Definition compile_architecture_gate (architectures : list SeccompArchitecture) : BpfProgram :=
  let selected := btree_collect architectures in
  let has a := bool_decide (a ∈ selected) in
  let program := [statement LOAD SECCOMP_DATA_ARCH_OFFSET] in
  let program := if has Aarch64 then append_simple_allow program AUDIT_ARCH_AARCH64 else program in
  let program := if has Arm then append_simple_allow program AUDIT_ARCH_ARM else program in
  let program := if has X86 then append_simple_allow program AUDIT_ARCH_I386 else program in
  let program := match has X86_64, has X32 with
    | true, true => append_simple_allow program AUDIT_ARCH_X86_64
    | true, false => program ++
        [ jump JUMP_EQ AUDIT_ARCH_X86_64 0 4; statement LOAD SECCOMP_DATA_NR_OFFSET;
          jump JUMP_EQ u32_max 1 0; jump JUMP_GE X32_SYSCALL_BIT 1 0; allow ]
    | false, true => program ++
        [ jump JUMP_EQ AUDIT_ARCH_X86_64 0 4; statement LOAD SECCOMP_DATA_NR_OFFSET;
          jump JUMP_EQ u32_max 2 0; jump JUMP_GE X32_SYSCALL_BIT 0 1; allow ]
    | false, false => program
    end in
  program ++ [kill_process].

Definition architecture_scope (a : SeccompArchitecture) : BpfProgram :=
  [ statement LOAD SECCOMP_DATA_ARCH_OFFSET; jump JUMP_EQ (audit_value a) 1 0; allow ] ++
  match a with
  | Aarch64 | Arm | X86 => []
  | X86_64 => [ statement LOAD SECCOMP_DATA_NR_OFFSET; jump JUMP_EQ u32_max 2 0;
                jump JUMP_GE X32_SYSCALL_BIT 0 1; allow ]
  | X32 => [ statement LOAD SECCOMP_DATA_NR_OFFSET; jump JUMP_EQ u32_max 1 0;
             jump JUMP_GE X32_SYSCALL_BIT 1 0; allow ]
  end.

(** The architecture check that seccompiler emits first. *)
Definition expected_prefix (a : SeccompArchitecture) : BpfProgram :=
  [ statement LOAD SECCOMP_DATA_ARCH_OFFSET; jump JUMP_EQ (compiler_audit_value a) 1 0; kill_process ].

Definition scope_compiled_filter (compiled : BpfProgram) (a : SeccompArchitecture)
    : Result BpfProgram :=
  check! reject_if ((length compiled <=? length (expected_prefix a))%nat
                    || negb (bool_decide (take (length (expected_prefix a)) compiled
                                          = expected_prefix a)))
    (seccomp_error Internal "seccompiler emitted an unexpected architecture validation prefix");
  let body := drop (length (expected_prefix a)) compiled in
  let scoped := architecture_scope a ++ body in
  check! reject_if (MAX_BPF_INSTRUCTIONS <? length scoped)%nat
    (seccomp_error ResourceExhausted
       "scoped seccomp filter requires {} BPF instructions; maximum is {}");
  Ok scoped.

Section planning.
Context `{!SeccompEnv}.

Definition native : Result SeccompArchitecture :=
  if bool_decide (consts_arch = "aarch64") then Ok Aarch64
  else if bool_decide (consts_arch = "x86_64") then Ok X86_64
  else Err (seccomp_unsupported
    "linux.seccomp.architectures: seccomp is not implemented for architecture `{architecture}`").

Definition plan_architectures (architectures : option (list Arch))
    : Result (SeccompArchitecture * list SeccompArchitecture) :=
  try! nat_arch := native in
  try! selected := rfold (λ selected architecture,
    try! a := match architecture with
      | ScmpArchNative => Ok nat_arch
      | ScmpArchAarch64 => Ok Aarch64
      | ScmpArchArm => Ok Arm
      | ScmpArchX86 => Ok X86
      | ScmpArchX86_64 => Ok X86_64
      | ScmpArchX32 => Ok X32
      | ScmpArchOther _ => Err (seccomp_unsupported
          "linux.seccomp.architectures[{index}]: seccomp architecture `{architecture:?}` is not implemented")
      end in
    Ok (btree_insert a selected)) (btree_collect [nat_arch]) (default [] architectures) in
  Ok (nat_arch, selected).

Definition installation_order (architectures : list SeccompArchitecture)
    (native : SeccompArchitecture) : list SeccompArchitecture :=
  filter (λ a, a ≠ native) architectures ++ [native].

(** ** syscall.rs *)

Record SyscallTarget : Type := mkTarget { tg_number : Z; tg_multiplexer_selector : option Z }.
#[global] Instance SyscallTarget_ord : Ord SyscallTarget.
Proof.
  refine (Ord_via (λ t, (tg_number t, tg_multiplexer_selector t)) _).
  intros [n s] [n' s']. simpl. by intros [= -> ->].
Defined.

Definition X86_SOCKETCALL : Z := 102.
Definition X86_IPC : Z := 117.

Definition architecture_syscall_name (a : SeccompArchitecture) (name : string) : string :=
  match a with
  | Aarch64 => if bool_decide (name = "newfstatat") then "fstatat" else name
  | Arm => if bool_decide (name = "newfstatat") then "fstatat64" else name
  | _ => name
  end.

Definition direct (number : option Z) : list SyscallTarget :=
  match number with Some n => [mkTarget n None] | None => [] end.

(** A [match] on names is a lookup in the list of its arms. *)
Fixpoint name_lookup {A} (name : string) (arms : list (string * A)) : option A :=
  match arms with
  | [] => None
  | (n, a) :: arms' => if bool_decide (name = n) then Some a else name_lookup name arms'
  end.

Definition x86_multiplexer (name : string) : option (Z * Z) :=
  name_lookup name
    [ ("socket", (X86_SOCKETCALL, 1)); ("bind", (X86_SOCKETCALL, 2));
      ("connect", (X86_SOCKETCALL, 3)); ("listen", (X86_SOCKETCALL, 4));
      ("accept", (X86_SOCKETCALL, 5)); ("getsockname", (X86_SOCKETCALL, 6));
      ("getpeername", (X86_SOCKETCALL, 7)); ("socketpair", (X86_SOCKETCALL, 8));
      ("send", (X86_SOCKETCALL, 9)); ("recv", (X86_SOCKETCALL, 10));
      ("sendto", (X86_SOCKETCALL, 11)); ("recvfrom", (X86_SOCKETCALL, 12));
      ("shutdown", (X86_SOCKETCALL, 13)); ("setsockopt", (X86_SOCKETCALL, 14));
      ("getsockopt", (X86_SOCKETCALL, 15)); ("sendmsg", (X86_SOCKETCALL, 16));
      ("recvmsg", (X86_SOCKETCALL, 17)); ("accept4", (X86_SOCKETCALL, 18));
      ("recvmmsg", (X86_SOCKETCALL, 19)); ("sendmmsg", (X86_SOCKETCALL, 20));
      ("semop", (X86_IPC, 1)); ("semget", (X86_IPC, 2)); ("semctl", (X86_IPC, 3));
      ("semtimedop", (X86_IPC, 4)); ("msgsnd", (X86_IPC, 11)); ("msgrcv", (X86_IPC, 12));
      ("msgget", (X86_IPC, 13)); ("msgctl", (X86_IPC, 14)); ("shmat", (X86_IPC, 21));
      ("shmdt", (X86_IPC, 22)); ("shmget", (X86_IPC, 23)); ("shmctl", (X86_IPC, 24)) ].

Definition resolve_x86 (name : string) : list SyscallTarget :=
  let targets := match sysno_x86 name with
    | Some id => btree_insert (mkTarget id None) [] | None => [] end in
  match x86_multiplexer name with
  | Some (number, selector) => btree_insert (mkTarget number (Some selector)) targets
  | None => targets
  end.

Definition x32_special_number (name : string) : option Z :=
  name_lookup name
    [ ("rt_sigaction", 512); ("rt_sigreturn", 513); ("ioctl", 514); ("readv", 515);
      ("writev", 516); ("recvfrom", 517); ("sendmsg", 518); ("recvmsg", 519); ("execve", 520);
      ("ptrace", 521); ("rt_sigpending", 522); ("rt_sigtimedwait", 523);
      ("rt_sigqueueinfo", 524); ("sigaltstack", 525); ("timer_create", 526);
      ("mq_notify", 527); ("kexec_load", 528); ("waitid", 529); ("set_robust_list", 530);
      ("get_robust_list", 531); ("vmsplice", 532); ("move_pages", 533); ("preadv", 534);
      ("pwritev", 535); ("rt_tgsigqueueinfo", 536); ("recvmmsg", 537); ("sendmmsg", 538);
      ("process_vm_readv", 539); ("process_vm_writev", 540); ("setsockopt", 541);
      ("getsockopt", 542); ("io_setup", 543); ("io_submit", 544); ("execveat", 545);
      ("preadv2", 546); ("pwritev2", 547) ].

Definition x32_unavailable (name : string) : bool :=
  bool_decide (name ∈ ["create_module"; "epoll_ctl_old"; "epoll_wait_old"; "get_kernel_syms";
    "get_thread_area"; "nfsservctl"; "query_module"; "set_thread_area"; "_sysctl"; "uselib";
    "vserver"]).

(** [u32::try_from(syscall.id()).ok()] *)
Definition u32_id (id : option Z) : option Z :=
  match id with
  | Some n => if bool_decide (0 ≤ n ≤ u32_max) then Some n else None
  | None => None
  end.

Definition resolve_x32 (name : string) : option Z :=
  if x32_unavailable name then None
  else
    let number := match x32_special_number name with
      | Some n => Some n | None => u32_id (sysno_x86_64 name) end in
    match number with Some n => Some (Z.lor n X32_SYSCALL_BIT) | None => None end.

Definition resolve (a : SeccompArchitecture) (name : string) : list SyscallTarget :=
  match a with
  | Aarch64 => direct (sysno_aarch64 (architecture_syscall_name a name))
  | Arm => direct (sysno_arm (architecture_syscall_name a name))
  | X86_64 => direct (sysno_x86_64 name)
  | X86 => resolve_x86 name
  | X32 => direct (resolve_x32 name)
  end.

(** ** seccomp.rs *)

Definition MAX_FILTERS : nat := 32.
Definition MAX_TOTAL_BPF_INSTRUCTIONS : Z := 32768.
Definition FILTER_PATH_PENALTY : Z := 4.
Definition MAX_SYSCALL_ARGUMENT_INDEX : Z := 5.
Definition EPERM_DATA : Z := 1.

Definition validate_unsupported_properties (seccomp : LinuxSeccomp) : Result () :=
  check! reject_if (bool_decide (is_Some (sc_listener_path seccomp))
                    || bool_decide (is_Some (sc_listener_metadata seccomp)))
    (seccomp_unsupported "linux.seccomp.listenerPath/listenerMetadata: seccomp userspace notification listeners are not implemented");
  reject_if (match sc_flags seccomp with Some (_ :: _) => true | _ => false end)
    (seccomp_unsupported "linux.seccomp.flags: seccomp filter flags are not implemented by the bootstrap executor").

Definition reject_unused_errno (errno_ret : option Z) : Result () :=
  reject_if (bool_decide (is_Some errno_ret))
    (seccomp_invalid "{field} must not define errnoRet for this seccomp action").

Definition validate_action_data (value : Z) : Result Z :=
  if 65535 <? value
  then Err (seccomp_invalid "{field} seccomp action data {value} exceeds the 16-bit kernel field")
  else Ok value.

Definition plan_action (action : LinuxSeccompAction) (errno_ret : option Z)
    : Result SeccompActionPlan :=
  match action with
  | ScmpActAllow => check! reject_unused_errno errno_ret; Ok Allow
  | ScmpActErrno => try! d := validate_action_data (default EPERM_DATA errno_ret) in Ok (Errno d)
  | ScmpActKill | ScmpActKillThread => check! reject_unused_errno errno_ret; Ok KillThread
  | ScmpActKillProcess => check! reject_unused_errno errno_ret; Ok KillProcess
  | ScmpActLog => check! reject_unused_errno errno_ret; Ok Log
  | ScmpActNotify => Err (seccomp_unsupported
      "{field}: SCMP_ACT_NOTIFY requires a userspace notification listener")
  | ScmpActTrace => try! d := validate_action_data (default EPERM_DATA errno_ret) in Ok (Trace d)
  | ScmpActTrap => check! reject_unused_errno errno_ret; Ok Trap
  end.

Definition plan_condition (argument : LinuxSeccompArg) : Result SeccompConditionPlan :=
  if MAX_SYSCALL_ARGUMENT_INDEX <? sa_index argument
  then Err (seccomp_invalid "{field}.index {} exceeds the final syscall argument index {}")
  else
    let '(operator, value) := match sa_op argument with
      | ScmpCmpEq => (Equal, sa_value argument)
      | ScmpCmpGe => (GreaterEqual, sa_value argument)
      | ScmpCmpGt => (GreaterThan, sa_value argument)
      | ScmpCmpLe => (LessEqual, sa_value argument)
      | ScmpCmpLt => (LessThan, sa_value argument)
      | ScmpCmpMaskedEq => (MaskedEqual (sa_value argument), default 0 (sa_value_two argument))
      | ScmpCmpNe => (NotEqual, sa_value argument)
      end in
    Ok (mkCondition (sa_index argument) operator value).

Definition has_nul (name : string) : bool :=
  bool_decide (Ascii.zero ∈ String.list_ascii_of_string name).

(** The rules of one system-call name. *)
Definition plan_name (a : SeccompArchitecture) (default_action action : SeccompActionPlan)
    (conditions : list SeccompConditionPlan) (planned : list ActionedRule) (name : string)
    : Result (list ActionedRule) :=
  check! reject_if (bool_decide (name = "") || has_nul name)
    (seccomp_invalid "{field}.names[{}] must be a non-empty syscall name without NUL bytes");
  let targets := resolve a name in
  if bool_decide (targets = []) then
    if bool_decide (action = Allow) && negb (bool_decide (default_action = Allow))
    then Ok planned
    else Err (seccomp_unsupported "{field}.names[{}]: syscall `{name}` is unavailable on {}")
  else
    check! reject_if (negb (bool_decide (conditions = []))
                      && existsb (λ t, bool_decide (is_Some (tg_multiplexer_selector t))) targets)
      (seccomp_unsupported "{field}.names[{}]: conditional syscall `{name}` cannot be represented through the legacy {} multiplexer");
    Ok (planned ++ ((λ t, mkActioned (tg_number t) action
          (conditions ++ match tg_multiplexer_selector t with
                         | Some selector => [mkCondition 0 Equal selector]
                         | None => []
                         end)) <$> targets)).

Definition plan_syscall (a : SeccompArchitecture) (default_action : SeccompActionPlan)
    (planned : list ActionedRule) (syscall : LinuxSyscall) : Result (list ActionedRule) :=
  check! reject_if (bool_decide (sy_names syscall = []))
    (seccomp_invalid "{field}.names must not be empty");
  try! action := plan_action (sy_action syscall) (sy_errno_ret syscall) in
  try! conditions := rmap plan_condition (default [] (sy_args syscall)) in
  rfold (plan_name a default_action action conditions) planned (sy_names syscall).

Definition plan_rules (seccomp : LinuxSeccomp) (a : SeccompArchitecture)
    (default_action : SeccompActionPlan) : Result (list ActionedRule) :=
  rfold (plan_syscall a default_action) [] (default [] (sc_syscalls seccomp)).

(** [normalize_rules]: alternatives by system call, an unconditional rule
    replaces the conditional ones. *)
Definition normalize_step (grouped : list (Z * list (list SeccompConditionPlan)))
    (rule : ActionedRule) : list (Z * list (list SeccompConditionPlan)) :=
  let conditions := default [] (btree_get (ar_syscall_number rule) grouped) in
  if bool_decide ([] ∈ conditions) then btree_set (ar_syscall_number rule) conditions grouped
  else
    let conditions := if bool_decide (ar_conditions rule = []) then [] else conditions in
    btree_set (ar_syscall_number rule) (btree_insert (ar_conditions rule) conditions) grouped.
Definition normalize_rules (rules : list ActionedRule) : list SeccompRulePlan :=
  flat_map (λ e, map (mkRulePlan e.1) e.2) (foldl normalize_step [] rules).

Definition validate_install_order (filters : list SeccompFilterPlan) (a : SeccompArchitecture)
    : Result () :=
  if (length filters <? 2)%nat then Ok ()
  else
    let bootstrap_syscalls := btree_collect
      (tg_number <$> concat (resolve a <$> ["prctl"; "seccomp"])) in
    reject_if (existsb (λ f, negb (bool_decide (fp_match_action f = Allow))
                 && existsb (λ r, bool_decide (rp_syscall_number r ∈ bootstrap_syscalls)) (fp_rules f))
                 (removelast filters))
      (seccomp_unsupported "linux.seccomp.syscalls: filter {index} restricts the seccomp installer before all stacked filters can be attached").

Definition plan_filters (default_action : SeccompActionPlan) (rules : list ActionedRule)
    (a : SeccompArchitecture) : Result (list SeccompFilterPlan) :=
  let actions := btree_collect (ar_action <$> filter (λ r, ar_action r ≠ Allow) rules) in
  let filters := (λ action, mkFilterPlan (Some a) Allow action
      (normalize_rules (filter (λ r, ar_action r = action) rules))) <$> actions in
  let filters := filters ++
    (if bool_decide (default_action = Allow) then []
     else [mkFilterPlan (Some a) default_action Allow
             (normalize_rules (filter (λ r, ar_action r ≠ default_action) rules))]) in
  check! validate_install_order filters a;
  Ok filters.

(** The grouping loop of [SeccompFilterPlan::compile]: [None] matches every
    call, [Some] lists the alternatives. *)
Definition group_step (grouped : list (Z * option (list (list SeccompConditionPlan))))
    (rule : SeccompRulePlan) : Result (list (Z * option (list (list SeccompConditionPlan)))) :=
  let nr := rp_syscall_number rule in
  if bool_decide (rp_conditions rule = []) then Ok (btree_set nr None grouped)
  else
    let entry := default (Some []) (btree_get nr grouped) in
    match entry with
    | None => Ok (btree_set nr None grouped)
    | Some compiled_rules =>
        check! reject_if (negb (forallb condition_new_ok (rp_conditions rule)))
          (seccomp_invalid "invalid seccomp syscall argument condition: {error}");
        check! reject_if (negb (rule_new_ok (rp_conditions rule)))
          (seccomp_invalid "invalid seccomp syscall rule: {error}");
        Ok (btree_set nr (Some (compiled_rules ++ [rp_conditions rule])) grouped)
    end.

Definition filter_compile (f : SeccompFilterPlan) (a : SeccompArchitecture) : Result BpfProgram :=
  try! grouped := rfold group_step [] (fp_rules f) in
  let rules := (λ e, (e.1, default [] e.2)) <$> grouped in
  check! reject_if (negb (filter_new_ok rules (fp_mismatch_action f) (fp_match_action f)))
    (seccomp_invalid "invalid seccomp filter: {error}");
  try! compiled := ok_or (seccomp_error ResourceExhausted
      "failed to compile seccomp BPF program: {error}")
    (compile_bpf rules (fp_mismatch_action f) (fp_match_action f) (compiler_audit_value a)) in
  scope_compiled_filter compiled a.

(** [usize] arithmetic cannot overflow below 2^64 and the bound is far lower. *)
Definition add_instruction_budget (total : Z) (program : BpfProgram) : Result Z :=
  let total := total + Z.of_nat (length program) + FILTER_PATH_PENALTY in
  if MAX_TOTAL_BPF_INSTRUCTIONS <? total
  then Err (seccomp_error ResourceExhausted
         "seccomp policy requires {total} effective BPF instructions; maximum is {}")
  else Ok total.

Definition selected_architectures (p : SeccompPlan) (native : SeccompArchitecture)
    : Result (list SeccompArchitecture) :=
  if bool_decide (pl_architectures p = []) then Ok [native]
  else
    let architectures := btree_collect (pl_architectures p) in
    if bool_decide (native ∈ architectures) then Ok architectures
    else Err (seccomp_error Internal
           "seccomp architecture set omits its retained native architecture").

Definition compile_one (architecture : SeccompArchitecture)
    (architectures : list SeccompArchitecture) (acc : Z * list BpfProgram)
    (f : SeccompFilterPlan) : Result (Z * list BpfProgram) :=
  let a := default architecture (fp_architecture f) in
  if bool_decide (a ∈ architectures) then
    try! program := map_err (λ e, for_operation (error_new (code e)
      "failed to compile seccomp filter {index}: {error}") "plan-seccomp") (filter_compile f a) in
    try! total := add_instruction_budget acc.1 program in
    Ok (total, acc.2 ++ [program])
  else Err (seccomp_error Internal "seccomp filter {index} targets unselected architecture {}").

Definition compile_filters (p : SeccompPlan) : Result (list BpfProgram) :=
  let program_count := ((match pl_architecture p with Some _ => 1 | None => 0 end)
                        + length (pl_filters p))%nat in
  check! reject_if (MAX_FILTERS <? program_count)%nat
    (seccomp_error ResourceExhausted
       "seccomp policy requires {program_count} stacked filters; maximum is {MAX_FILTERS}");
  match pl_architecture p with
  | None => if bool_decide (length (pl_filters p) = 0%nat) then Ok []
            else Err (seccomp_error Internal "disabled seccomp plan unexpectedly contains filters")
  | Some architecture =>
      try! architectures := selected_architectures p architecture in
      let gate := compile_architecture_gate architectures in
      try! total := add_instruction_budget 0 gate in
      try! compiled := rfold (compile_one architecture architectures) (total, [gate]) (pl_filters p) in
      Ok compiled.2
  end.

Definition from_linux (seccomp : option LinuxSeccomp) : Result SeccompPlan :=
  match seccomp with
  | None => Ok plan_default
  | Some seccomp =>
      check! validate_unsupported_properties seccomp;
      try! arch := plan_architectures (sc_architectures seccomp) in
      let '(architecture, architectures) := arch in
      try! default_action := plan_action (sc_default_action seccomp) (sc_default_errno_ret seccomp) in
      try! filters := rfold (λ filters selected,
        try! rules := plan_rules seccomp selected default_action in
        try! planned := plan_filters default_action rules selected in
        Ok (filters ++ planned)) [] (installation_order architectures architecture) in
      let plan := mkSeccompPlan (Some architecture) architectures filters in
      check! compile_filters plan;
      Ok plan
  end.

(** [SeccompPlan::install] up to the system calls: the programs in the order
    they are attached. *)
Definition install_programs (p : SeccompPlan) : Result (list BpfProgram) :=
  match pl_architecture p with
  | None => Ok []
  | Some architecture =>
      try! running := native in
      check! reject_if (negb (bool_decide (architecture = running)))
        (seccomp_error FailedPrecondition
           "seccomp policy architecture {} does not match the running architecture {}");
      compile_filters p
  end.
End planning.
