(* ===== verification/SeccompMachine.v ===== *)
(** * What a stack of seccomp filters decides

    The classic BPF machine over [seccomp_data], the kernel's choice among the
    answers of the installed filters, the meaning of the planned rules, and the
    documented behaviour of the filter compiler as the laws of a class. *)

From stdpp Require Import base gmap list strings.
From S2P Require Import Prelude Sdk Collections Seccomp.
From Stdlib Require Import ZArith Lia.
Local Open Scope string_scope.
Local Open Scope list_scope.
Local Open Scope Z_scope.

(** ** The machine *)

Record SeccompData : Type := mkData { sd_nr : Z; sd_arch : Z; sd_args : list Z }.
Definition data_ok (d : SeccompData) : Prop :=
  0 ≤ sd_nr d < 2 ^ 32 ∧ 0 ≤ sd_arch d < 2 ^ 32 ∧ length (sd_args d) = 6%nat ∧
  Forall (λ v, 0 ≤ v < 2 ^ 64) (sd_args d).
Definition sd_arg (d : SeccompData) (i : Z) : Z := default 0 (sd_args d !! Z.to_nat i).

(** A 32-bit load: number, architecture, or half of an argument (little endian). *)
Definition load_word (d : SeccompData) (off : Z) : option Z :=
  if off =? SECCOMP_DATA_NR_OFFSET then Some (sd_nr d)
  else if off =? SECCOMP_DATA_ARCH_OFFSET then Some (sd_arch d)
  else if (16 <=? off) && (off <? 64) && (off mod 4 =? 0) then
    let v := sd_arg d ((off - 16) / 8) in
    Some (if off mod 8 =? 0 then v mod 2 ^ 32 else v / 2 ^ 32)
  else None.

(** Opcodes: the agent emits loads, equality and order jumps and returns; a
    compiled body may also mask, jump and compare otherwise. *)
Definition CODE_AND : Z := 0x54.
Definition CODE_JA : Z := 0x05.
Definition CODE_JGT : Z := 0x25.
Definition CODE_JSET : Z := 0x45.

(** Jumps only go forward, so the machine is a structural recursion that skips
    instructions. *)
Fixpoint run_cbpf (program : BpfProgram) (skip : nat) (acc : Z) (d : SeccompData) : option Z :=
  match program with
  | [] => None
  | i :: rest =>
      match skip with
      | S skip => run_cbpf rest skip acc d
      | O =>
          let branch (taken : bool) :=
            run_cbpf rest (Z.to_nat (if taken then sf_jt i else sf_jf i)) acc d in
          if sf_code i =? LOAD then
            match load_word d (sf_k i) with Some v => run_cbpf rest 0 v d | None => None end
          else if sf_code i =? JUMP_EQ then branch (acc =? sf_k i)
          else if sf_code i =? JUMP_GE then branch (sf_k i <=? acc)
          else if sf_code i =? CODE_JGT then branch (sf_k i <? acc)
          else if sf_code i =? CODE_JSET then branch (negb (Z.land acc (sf_k i) =? 0))
          else if sf_code i =? CODE_JA then run_cbpf rest (Z.to_nat (sf_k i)) acc d
          else if sf_code i =? CODE_AND then run_cbpf rest 0 (Z.land acc (sf_k i)) d
          else if sf_code i =? RETURN then Some (sf_k i)
          else None
      end
  end.

(** The kernel runs the filters from the newest to the oldest and keeps the
    smallest action as a signed 32-bit number; ties keep the newest. *)
Definition ret_class (v : Z) : Z :=
  let c := Z.land v 0xffff0000 in if c <? 2 ^ 31 then c else c - 2 ^ 32.
Definition kernel_verdict (rets : list Z) : Z :=
  foldl (λ best cur, if ret_class cur <? ret_class best then cur else best)
    SECCOMP_RET_ALLOW (reverse rets).
Fixpoint run_all (programs : list BpfProgram) (d : SeccompData) : option (list Z) :=
  match programs with
  | [] => Some []
  | p :: ps => match run_cbpf p 0 0 d, run_all ps d with
               | Some v, Some vs => Some (v :: vs) | _, _ => None end
  end.
(** The answer of an installed stack, oldest program first. *)
Definition run_stack (programs : list BpfProgram) (d : SeccompData) : option Z :=
  match run_all programs d with Some rets => Some (kernel_verdict rets) | None => None end.

(** ** The meaning of a plan *)

(** The value a filter returns for an action. *)
Definition action_ret (a : SeccompActionPlan) : Z :=
  match a with
  | Allow => SECCOMP_RET_ALLOW
  | Errno data => 0x00050000 + data
  | KillThread => 0x00000000
  | KillProcess => SECCOMP_RET_KILL_PROCESS
  | Log => 0x7ffc0000
  | Trace data => 0x7ff00000 + data
  | Trap => 0x00030000
  end.
Definition action_ok (a : SeccompActionPlan) : Prop :=
  match a with Errno d | Trace d => 0 ≤ d ≤ 65535 | _ => True end.

(** How restrictive an action is. *)
Definition strictness (a : SeccompActionPlan) : Z :=
  match a with
  | Allow => 0 | Log => 1 | Trace _ => 2 | Errno _ => 3 | Trap => 4
  | KillThread => 5 | KillProcess => 6
  end.

Definition cond_holds (d : SeccompData) (c : SeccompConditionPlan) : bool :=
  let arg := sd_arg d (cp_argument_index c) in
  let v := cp_value c in
  match cp_operator c with
  | Equal => arg =? v
  | GreaterEqual => v <=? arg
  | GreaterThan => v <? arg
  | LessEqual => arg <=? v
  | LessThan => arg <? v
  | MaskedEqual mask => Z.land arg mask =? Z.land v mask
  | NotEqual => negb (arg =? v)
  end.
Definition conds_hold (d : SeccompData) (cs : list SeccompConditionPlan) : bool :=
  forallb (cond_holds d) cs.
Definition rule_applies (d : SeccompData) (r : ActionedRule) : bool :=
  (sd_nr d =? ar_syscall_number r) && conds_hold d (ar_conditions r).

(** The strictest of a list of actions; of two equally strict ones the later. *)
Definition strictest (actions : list SeccompActionPlan) : SeccompActionPlan :=
  foldl (λ best a, if strictness best <=? strictness a then a else best) Allow actions.

(** The OCI meaning: the strictest action among the rules that apply (ties by
    the order of the actions), the default action when none applies. *)
Definition policy_action (rules : list ActionedRule) (default_action : SeccompActionPlan)
    (d : SeccompData) : SeccompActionPlan :=
  match filter (λ r, rule_applies d r = true) rules with
  | [] => default_action
  | applying => strictest (btree_collect (ar_action <$> applying))
  end.

(** The ABI a call is made through; the invalid number -1 counts as x86_64. *)
Definition abi_of (d : SeccompData) : option SeccompArchitecture :=
  if sd_arch d =? AUDIT_ARCH_AARCH64 then Some Aarch64
  else if sd_arch d =? AUDIT_ARCH_ARM then Some Arm
  else if sd_arch d =? AUDIT_ARCH_I386 then Some X86
  else if sd_arch d =? AUDIT_ARCH_X86_64 then
    if sd_nr d =? u32_max then Some X86_64
    else if X32_SYSCALL_BIT <=? sd_nr d then Some X32 else Some X86_64
  else None.

(** ** The filter compiler *)

(** A filter of the compiler matches a call when its number is listed and one
    of the alternatives holds; no alternative means every call. *)
Definition compiled_match (rules : list (Z * list (list SeccompConditionPlan)))
    (d : SeccompData) : bool :=
  match btree_get (sd_nr d) rules with
  | None => false
  | Some [] => true
  | Some alternatives => existsb (conds_hold d) alternatives
  end.

(** Documented behaviour of seccompiler: the program checks the architecture
    first and kills on a mismatch; the rest, which does not look at the
    architecture again, returns the match or the mismatch action. *)
Class SeccompCompiler `{!SeccompEnv} : Prop := {
  compile_bpf_correct rules mismatch match_ audit program :
    map_increasing rules → action_ok mismatch → action_ok match_ →
    compile_bpf rules mismatch match_ audit = Some program →
    ∃ body, program = [ statement LOAD SECCOMP_DATA_ARCH_OFFSET; jump JUMP_EQ audit 1 0;
                        kill_process ] ++ body ∧
      ∀ acc d, data_ok d →
        run_cbpf body 0 acc d =
        Some (action_ret (if compiled_match rules d then match_ else mismatch))
}.

(** ** The agent's own BPF *)

Lemma run_load rest k acc d v :
  load_word d k = Some v → run_cbpf (statement LOAD k :: rest) 0 acc d = run_cbpf rest 0 v d.
Proof. simpl. by intros ->. Qed.
Lemma run_jeq rest k jt jf acc d :
  run_cbpf (jump JUMP_EQ k jt jf :: rest) 0 acc d =
  run_cbpf rest (Z.to_nat (if acc =? k then jt else jf)) acc d.
Proof. done. Qed.
Lemma run_jge rest k jt jf acc d :
  run_cbpf (jump JUMP_GE k jt jf :: rest) 0 acc d =
  run_cbpf rest (Z.to_nat (if k <=? acc then jt else jf)) acc d.
Proof. done. Qed.
Lemma run_ret rest v acc d : run_cbpf (statement RETURN v :: rest) 0 acc d = Some v.
Proof. done. Qed.

(** A call made through the ABI [a]. *)
Definition in_abi (a : SeccompArchitecture) (d : SeccompData) : bool :=
  (sd_arch d =? audit_value a) &&
  match a with
  | X86_64 => (sd_nr d =? u32_max) || negb (X32_SYSCALL_BIT <=? sd_nr d)
  | X32 => negb (sd_nr d =? u32_max) && (X32_SYSCALL_BIT <=? sd_nr d)
  | _ => true
  end.

Lemma abi_of_spec d a : abi_of d = Some a ↔ in_abi a d = true.
Proof.
  unfold abi_of, in_abi.
  destruct (Z.eqb_spec (sd_arch d) AUDIT_ARCH_AARCH64) as [->|].
  { destruct a; simpl; naive_solver. }
  destruct (Z.eqb_spec (sd_arch d) AUDIT_ARCH_ARM) as [->|].
  { destruct a; simpl; naive_solver. }
  destruct (Z.eqb_spec (sd_arch d) AUDIT_ARCH_I386) as [->|].
  { destruct a; simpl; naive_solver. }
  destruct (Z.eqb_spec (sd_arch d) AUDIT_ARCH_X86_64) as [->|].
  { destruct a, (sd_nr d =? u32_max), (X32_SYSCALL_BIT <=? sd_nr d); simpl; naive_solver. }
  split; [done|]. intros [H%Z.eqb_eq _]%andb_true_iff. by destruct a.
Qed.

Lemma run_skip i rest n acc d : run_cbpf (i :: rest) (S n) acc d = run_cbpf rest n acc d.
Proof. done. Qed.

Ltac run_steps d :=
  repeat first
    [ rewrite run_jeq | rewrite run_jge | rewrite run_skip | rewrite run_ret
    | rewrite (run_load _ SECCOMP_DATA_ARCH_OFFSET _ _ (sd_arch d)) by done
    | rewrite (run_load _ SECCOMP_DATA_NR_OFFSET _ _ (sd_nr d)) by done
    | progress change (Z.to_nat 0) with 0%nat | progress change (Z.to_nat 1) with 1%nat
    | progress change (Z.to_nat 2) with 2%nat | progress change (Z.to_nat 4) with 4%nat ].

(** A scoped filter answers ALLOW outside its ABI and runs its body inside. *)
Lemma scope_runs a body acc d :
  ∃ acc', run_cbpf (architecture_scope a ++ body) 0 acc d =
    if in_abi a d then run_cbpf body 0 acc' d else Some SECCOMP_RET_ALLOW.
Proof.
  exists (match a with X86_64 | X32 => sd_nr d | _ => sd_arch d end).
  unfold architecture_scope, in_abi, allow.
  destruct a; cbn [app]; run_steps d; destruct (sd_arch d =? _); run_steps d; try done;
    destruct (sd_nr d =? u32_max); run_steps d; try done;
    destruct (X32_SYSCALL_BIT <=? sd_nr d); run_steps d; done.
Qed.

(** A prefix of the gate: ALLOW when [b], otherwise on to the rest with the
    architecture in the accumulator. *)
Definition gate_prefix (d : SeccompData) (program : BpfProgram) (b : bool) : Prop :=
  ∀ rest, run_cbpf (program ++ rest) 0 0 d =
    if b then Some SECCOMP_RET_ALLOW else run_cbpf rest 0 (sd_arch d) d.

Lemma gate_prefix_allow d program b (has : bool) audit :
  gate_prefix d program b →
  gate_prefix d (if has then append_simple_allow program audit else program)
    (b || has && (sd_arch d =? audit)).
Proof.
  intros H. destruct has; [|by rewrite orb_false_r]. intros rest.
  unfold append_simple_allow. rewrite <- !app_assoc, H. destruct b; [done|]. unfold allow.
  cbn [app]. run_steps d. destruct (sd_arch d =? audit); run_steps d; done.
Qed.

(** The gate admits exactly the selected ABIs and kills every other one. *)
Lemma gate_decides architectures d :
  run_cbpf (compile_architecture_gate architectures) 0 0 d =
  Some (if existsb (λ a, in_abi a d) architectures
        then SECCOMP_RET_ALLOW else SECCOMP_RET_KILL_PROCESS).
Proof.
  set (has a := bool_decide (a ∈ btree_collect architectures)).
  assert (existsb (λ a, in_abi a d) architectures =
    existsb (λ a, has a && in_abi a d) [Aarch64; Arm; X86; X86_64; X32]) as ->.
  { apply eq_iff_eq_true. rewrite !existsb_exists. split.
    - intros (a & Ha & Hd). exists a. rewrite Hd, andb_true_r. split; [destruct a; simpl; tauto|].
      apply bool_decide_eq_true, elem_of_btree_collect. by apply list_elem_of_In.
    - intros (a & _ & [Ha Hd]%andb_true_iff). exists a. split; [|done].
      unfold has in Ha. rewrite bool_decide_eq_true, elem_of_btree_collect in Ha.
      by apply list_elem_of_In. }
  assert (gate_prefix d [statement LOAD SECCOMP_DATA_ARCH_OFFSET] false) as H0.
  { intros rest. cbn [app]. by run_steps d. }
  pose proof (gate_prefix_allow _ _ _ (has X86) AUDIT_ARCH_I386
    (gate_prefix_allow _ _ _ (has Arm) AUDIT_ARCH_ARM
    (gate_prefix_allow _ _ _ (has Aarch64) AUDIT_ARCH_AARCH64 H0))) as H3.
  set (program := if has X86 then _ else _) in H3.
  change (compile_architecture_gate architectures) with (
    match has X86_64, has X32 with
    | true, true => append_simple_allow program AUDIT_ARCH_X86_64
    | true, false => program ++
        [ jump JUMP_EQ AUDIT_ARCH_X86_64 0 4; statement LOAD SECCOMP_DATA_NR_OFFSET;
          jump JUMP_EQ u32_max 1 0; jump JUMP_GE X32_SYSCALL_BIT 1 0; allow ]
    | false, true => program ++
        [ jump JUMP_EQ AUDIT_ARCH_X86_64 0 4; statement LOAD SECCOMP_DATA_NR_OFFSET;
          jump JUMP_EQ u32_max 2 0; jump JUMP_GE X32_SYSCALL_BIT 0 1; allow ]
    | false, false => program
    end ++ [kill_process]).
  clearbody program.
  unfold in_abi. cbn [existsb audit_value]. rewrite !andb_true_r, orb_false_r, !orb_assoc.
  cbn [orb] in H3. set (b := has Aarch64 && _ || _ || _) in *.
  assert (∀ rest, run_cbpf (program ++ rest) 0 0 d =
    if b then Some SECCOMP_RET_ALLOW else run_cbpf rest 0 (sd_arch d) d) as Hrun by apply H3.
  destruct (has X86_64), (has X32); unfold append_simple_allow, allow, kill_process;
    rewrite <- ?app_assoc, Hrun; destruct b; try done; cbn [app]; run_steps d;
    destruct (sd_arch d =? AUDIT_ARCH_X86_64); run_steps d; try done;
    destruct (sd_nr d =? u32_max); run_steps d; try done;
    destruct (X32_SYSCALL_BIT <=? sd_nr d); run_steps d; done.
Qed.
