(* ===== verification/SeccompProps.v ===== *)
(** * The installed seccomp stack decides the planned policy

    Rule normalisation, grouping, filter splitting, ABI scoping and the
    kernel's choice among the filters compose to the meaning of the planned
    rules, and the stack never blocks its own installation. *)

From stdpp Require Import base gmap list strings sorting.
From S2P Require Import Prelude Sdk Collections Seccomp SeccompMachine.
From Stdlib Require Import ZArith Lia.

Local Open Scope string_scope.
Local Open Scope list_scope.
Local Open Scope Z_scope.

(** ** Normalisation and grouping keep the matches *)

Definition plan_applies (d : SeccompData) (r : SeccompRulePlan) : bool :=
  (sd_nr d =? rp_syscall_number r) && conds_hold d (rp_conditions r).
Definition alternatives_hold (d : SeccompData) (alts : list (list SeccompConditionPlan)) : bool :=
  existsb (conds_hold d) alts.

Lemma existsb_ext_elem {A} (f g : A → bool) (l k : list A) :
  (∀ x, x ∈ l ∧ f x = true → ∃ y, y ∈ k ∧ g y = true) →
  (∀ y, y ∈ k ∧ g y = true → ∃ x, x ∈ l ∧ f x = true) → existsb f l = existsb g k.
Proof.
  intros H1 H2. apply eq_iff_eq_true. rewrite !existsb_exists.
  setoid_rewrite <- list_elem_of_In. naive_solver.
Qed.

Lemma existsb_elem {A} (f : A → bool) l : existsb f l = true ↔ ∃ x, x ∈ l ∧ f x = true.
Proof. rewrite existsb_exists. by setoid_rewrite <- list_elem_of_In. Qed.

Lemma alternatives_insert d c alts :
  alternatives_hold d (btree_insert c alts) = conds_hold d c || alternatives_hold d alts.
Proof.
  unfold alternatives_hold. apply eq_iff_eq_true. rewrite orb_true_iff, !existsb_elem.
  setoid_rewrite elem_of_btree_insert. naive_solver.
Qed.

Lemma normalize_step_spec d grouped rule nr :
  alternatives_hold d (default [] (btree_get nr (normalize_step grouped rule))) =
  alternatives_hold d (default [] (btree_get nr grouped))
  || (nr =? ar_syscall_number rule) && conds_hold d (ar_conditions rule).
Proof.
  unfold normalize_step. set (nr' := ar_syscall_number rule).
  set (alts := default [] (btree_get nr' grouped)).
  destruct (Z.eqb_spec nr nr') as [->|Hne]; simpl.
  - case_bool_decide as Hall; rewrite btree_get_set, decide_True by done; simpl.
    + assert (alternatives_hold d alts = true) as Htrue by (apply existsb_elem; by exists []).
      fold alts. by rewrite Htrue.
    + rewrite alternatives_insert. case_bool_decide as Hnil; [rewrite Hnil; simpl; by rewrite orb_true_r|].
      by rewrite orb_comm.
  - rewrite orb_false_r. case_bool_decide; rewrite btree_get_set, decide_False by done; done.
Qed.

Lemma normalize_step_increasing grouped rule :
  map_increasing grouped → map_increasing (normalize_step grouped rule).
Proof. intros. unfold normalize_step. case_bool_decide; by apply btree_set_increasing. Qed.

Lemma normalize_rules_match d rules :
  existsb (plan_applies d) (normalize_rules rules) = existsb (rule_applies d) rules.
Proof.
  assert (∀ grouped, map_increasing grouped →
    map_increasing (foldl normalize_step grouped rules) ∧
    alternatives_hold d (default [] (btree_get (sd_nr d) (foldl normalize_step grouped rules))) =
    alternatives_hold d (default [] (btree_get (sd_nr d) grouped)) || existsb (rule_applies d) rules)
    as Hfold.
  { induction rules as [|rule rules IH]; intros grouped Hg; simpl; [by rewrite orb_false_r|].
    destruct (IH _ (normalize_step_increasing grouped rule Hg)) as [Hinc ->]. split; [done|].
    rewrite normalize_step_spec, <- orb_assoc. done. }
  destruct (Hfold [] (SSorted_nil _)) as [Hinc Heq]. simpl in Heq. rewrite <- Heq.
  unfold normalize_rules. set (grouped := foldl normalize_step [] rules) in *.
  apply eq_iff_eq_true. unfold alternatives_hold. rewrite !existsb_elem. split.
  - intros (r & Hr & Hd). apply list_elem_of_In, in_flat_map in Hr as ([k alts] & Hk & Hr).
    apply in_map_iff in Hr as (cs & <- & Hcs). unfold plan_applies in Hd. simpl in Hd.
    apply andb_true_iff in Hd as [->%Z.eqb_eq Hd]. exists cs. split; [|done].
    apply list_elem_of_In, elem_of_btree_get in Hk; [|done]. rewrite Hk. by apply list_elem_of_In.
  - intros (cs & Hcs & Hd). destruct (btree_get (sd_nr d) grouped) as [alts|] eqn:Hget;
      simpl in Hcs; [|set_solver].
    exists (mkRulePlan (sd_nr d) cs). split.
    + apply list_elem_of_In, in_flat_map. exists (sd_nr d, alts). split.
      * by apply list_elem_of_In, elem_of_btree_get.
      * apply in_map_iff. exists cs. split; [done|]. by apply list_elem_of_In.
    + unfold plan_applies. simpl. by rewrite Z.eqb_refl.
Qed.

Section grouping.
Context `{!SeccompEnv}.

(** The entry of a grouped system call: everything, or some alternatives. *)
Definition entry_holds (d : SeccompData) (e : option (option (list (list SeccompConditionPlan))))
    : bool :=
  match e with None => false | Some None => true | Some (Some alts) => alternatives_hold d alts end.

Lemma group_step_spec d grouped rule grouped' :
  map_increasing grouped → (∀ nr alts, btree_get nr grouped = Some (Some alts) → alts ≠ []) →
  group_step grouped rule = Ok grouped' →
  map_increasing grouped' ∧ (∀ nr alts, btree_get nr grouped' = Some (Some alts) → alts ≠ []) ∧
  entry_holds d (btree_get (sd_nr d) grouped') =
    entry_holds d (btree_get (sd_nr d) grouped) || plan_applies d rule.
Proof.
  intros Hinc Hne. unfold group_step, plan_applies.
  assert (∀ e, (∀ alts, e = Some alts → alts ≠ []) →
    entry_holds d (Some e) = entry_holds d (btree_get (rp_syscall_number rule) grouped)
      || conds_hold d (rp_conditions rule) →
    map_increasing (btree_set (rp_syscall_number rule) e grouped) ∧
    (∀ nr alts, btree_get nr (btree_set (rp_syscall_number rule) e grouped) = Some (Some alts) →
       alts ≠ []) ∧
    entry_holds d (btree_get (sd_nr d) (btree_set (rp_syscall_number rule) e grouped)) =
      entry_holds d (btree_get (sd_nr d) grouped)
      || (sd_nr d =? rp_syscall_number rule) && conds_hold d (rp_conditions rule)) as Hset.
  { intros e He Heq. split_and!; [by apply btree_set_increasing| |].
    - intros nr alts. rewrite btree_get_set. case_decide; [intros [= ->]; by apply He|apply Hne].
    - rewrite btree_get_set. destruct (Z.eqb_spec (sd_nr d) (rp_syscall_number rule)) as [E|E].
      + rewrite decide_True by done. by rewrite Heq, E.
      + rewrite decide_False by done. by rewrite orb_false_r. }
  case_bool_decide as Hnil.
  { intros [= <-]. apply Hset; [done|]. rewrite Hnil. simpl. by rewrite orb_true_r. }
  destruct (btree_get (rp_syscall_number rule) grouped) as [[alts|]|] eqn:Hget; simpl; intros Hg.
  - apply rbind_ok in Hg as ([] & _ & Hg). apply rbind_ok in Hg as ([] & _ & [= <-]).
    apply Hset; [intros a [= <-]; by destruct alts|]. simpl. unfold alternatives_hold.
    rewrite existsb_app. simpl. by rewrite orb_false_r.
  - injection Hg as <-. by apply Hset.
  - apply rbind_ok in Hg as ([] & _ & Hg). apply rbind_ok in Hg as ([] & _ & [= <-]).
    apply Hset; [by intros a [= <-]|]. simpl. by rewrite orb_false_r.
Qed.

Lemma group_rules_spec d rules grouped :
  rfold group_step [] rules = Ok grouped →
  map_increasing grouped ∧ (∀ nr alts, btree_get nr grouped = Some (Some alts) → alts ≠ []) ∧
  entry_holds d (btree_get (sd_nr d) grouped) = existsb (plan_applies d) rules.
Proof.
  intros Hg. apply (rfold_invariant group_step (λ pre g,
    map_increasing g ∧ (∀ nr alts, btree_get nr g = Some (Some alts) → alts ≠ []) ∧
    entry_holds d (btree_get (sd_nr d) g) = existsb (plan_applies d) pre) [] rules grouped) in Hg;
    [done|by split_and!; [apply SSorted_nil|..]|].
  intros pre x rest g1 g2 _ (Hi & Hn & He) Hstep.
  destruct (group_step_spec d g1 x g2 Hi Hn Hstep) as (Hi' & Hn' & He').
  split_and!; [done..|]. rewrite existsb_app, He', He. simpl. by rewrite orb_false_r.
Qed.

Lemma btree_get_map {V W} (f : V → W) nr (m : list (Z * V)) :
  btree_get nr ((λ e, (e.1, f e.2)) <$> m) = f <$> btree_get nr m.
Proof. induction m as [|[k v] m IH]; csimpl; [done|]. destruct (nr ?= k); [done|done|apply IH]. Qed.

(** What is handed to the compiler matches what the filter's rules match. *)
Lemma compiled_rules_match d rules grouped :
  rfold group_step [] rules = Ok grouped →
  map_increasing ((λ e, (e.1, default [] e.2)) <$> grouped) ∧
  compiled_match ((λ e, (e.1, default [] e.2)) <$> grouped) d = existsb (plan_applies d) rules.
Proof.
  intros (Hinc & Hne & Heq)%(group_rules_spec d). split.
  - unfold map_increasing in *. by rewrite <- list_fmap_compose.
  - rewrite <- Heq. unfold compiled_match. rewrite btree_get_map.
    destruct (btree_get (sd_nr d) grouped) as [[alts|]|] eqn:Hget; simpl; [|done..].
    specialize (Hne _ _ Hget). by destruct alts.
Qed.
End grouping.

(** ** The kernel takes the strictest answer *)

Lemma land_high x : 0 ≤ x < 2 ^ 32 → Z.land x 0xffff0000 = x / 65536 * 65536.
Proof.
  intros Hx. change 0xffff0000 with (Z.shiftl (Z.ones 16) 16). change 65536 with (2 ^ 16).
  rewrite <- Z.shiftr_div_pow2, <- Z.shiftl_mul_pow2 by lia.
  apply Z.bits_inj'. intros n Hn. rewrite Z.land_spec, !Z.shiftl_spec by lia.
  destruct (Z.ltb_spec n 16).
  - rewrite !(Z.testbit_neg_r _ (n - 16)) by lia. by rewrite andb_false_r.
  - rewrite Z.shiftr_spec by lia. replace (n - 16 + 16) with n by lia.
    destruct (Z.ltb_spec n 32).
    + rewrite Z.ones_spec_low by lia. by rewrite andb_true_r.
    + rewrite Z.ones_spec_high by lia. rewrite andb_false_r. symmetry.
      destruct (decide (x = 0)) as [->|]; [apply Z.testbit_0_l|].
      apply Z.bits_above_log2; [lia|]. apply Z.log2_lt_pow2; [lia|].
      apply (Z.lt_le_trans _ (2 ^ 32)); [lia|]. apply Z.pow_le_mono_r; lia.
Qed.

Lemma ret_class_high k data :
  0 ≤ data ≤ 65535 → 0 ≤ k < 65536 →
  ret_class (k * 65536 + data) = if k * 65536 <? 2 ^ 31 then k * 65536 else k * 65536 - 2 ^ 32.
Proof.
  intros Hd Hk. unfold ret_class. rewrite land_high by lia.
  rewrite (Z.div_add_l k 65536), (Z.div_small data), Z.add_0_r by lia. done.
Qed.

(** The class of an answer falls as the action gets stricter. *)
Lemma ret_class_strictness a b :
  action_ok a → action_ok b →
  (ret_class (action_ret a) <? ret_class (action_ret b)) = (strictness b <? strictness a).
Proof.
  assert (∀ a, action_ok a → ret_class (action_ret a) =
    match a with
    | Allow => 0x7fff0000 | Log => 0x7ffc0000 | Trace _ => 0x7ff00000 | Errno _ => 0x50000
    | Trap => 0x30000 | KillThread => 0 | KillProcess => - 2 ^ 31
    end) as Hclass.
  { intros c Hc. destruct c; try reflexivity; simpl action_ret.
    - by rewrite (ret_class_high 5).
    - by rewrite (ret_class_high 0x7ff0). }
  intros Ha Hb. rewrite !Hclass by done. by destruct a, b.
Qed.

(** The kernel's fold, from the newest filter. *)
Definition newest_first (x : SeccompActionPlan) (actions : list SeccompActionPlan)
    : SeccompActionPlan :=
  foldr (λ cur best, if strictness best <? strictness cur then cur else best) x actions.

Lemma newest_first_split x actions :
  newest_first x actions =
  if strictness (newest_first Allow actions) <=? strictness x then x else newest_first Allow actions.
Proof.
  induction actions as [|c actions IH]; simpl.
  - destruct (Z.leb_spec 0 (strictness x)); [done|]. by destruct x.
  - fold (newest_first x actions) (newest_first Allow actions). rewrite IH. clear IH.
    set (m := newest_first Allow actions).
    destruct (Z.leb_spec (strictness m) (strictness x)); destruct (Z.ltb_spec (strictness m) (strictness c));
      repeat match goal with
      | |- context [?p <? ?q] => destruct (Z.ltb_spec p q)
      | |- context [?p <=? ?q] => destruct (Z.leb_spec p q)
      end; try done; lia.
Qed.

Lemma strictest_snoc actions x :
  strictest (actions ++ [x]) =
  if strictness (strictest actions) <=? strictness x then x else strictest actions.
Proof. unfold strictest. by rewrite foldl_app. Qed.

Lemma strictest_newest_first actions : newest_first Allow actions = strictest actions.
Proof.
  induction actions as [|x actions IH] using rev_ind; [done|].
  rewrite strictest_snoc, <- IH. unfold newest_first at 1. rewrite foldr_app. simpl.
  assert ((if 0 <? strictness x then x else Allow) = x) as -> by by destruct x.
  apply newest_first_split.
Qed.

Lemma foldl_reverse {A B} (f : B → A → B) x (l : list A) :
  foldl f x (reverse l) = foldr (λ a b, f b a) x l.
Proof. induction l as [|a l IH]; [done|]. rewrite reverse_cons, foldl_app. simpl. by rewrite IH. Qed.

Lemma kernel_verdict_strictest actions :
  Forall action_ok actions → kernel_verdict (action_ret <$> actions) = action_ret (strictest actions).
Proof.
  intros Hok. rewrite <- strictest_newest_first. unfold kernel_verdict. rewrite foldl_reverse.
  change SECCOMP_RET_ALLOW with (action_ret Allow).
  enough (foldr (λ cur best, if ret_class cur <? ret_class best then cur else best) (action_ret Allow)
    (action_ret <$> actions) = action_ret (newest_first Allow actions) ∧
    action_ok (newest_first Allow actions)) by tauto.
  induction Hok as [|c l Hc Hl [IH IHok]]; [done|]. rewrite fmap_cons. cbn [foldr]. rewrite IH.
  rewrite ret_class_strictness by done.
  change (newest_first Allow (c :: l)) with
    (if strictness (newest_first Allow l) <? strictness c then c else newest_first Allow l).
  by destruct (_ <? _).
Qed.

(** Answers that allow do not count; a kill of the process always wins. *)
Lemma strictest_drop_allow actions : strictest (filter (λ a, a ≠ Allow) actions) = strictest actions.
Proof.
  induction actions as [|x actions IH] using rev_ind; [done|].
  rewrite filter_app, filter_cons, filter_nil. case_decide as D.
  - by rewrite !strictest_snoc, IH.
  - rewrite app_nil_r, strictest_snoc, IH. subst x. simpl.
    destruct (strictest actions); done.
Qed.

Lemma strictest_kill actions : KillProcess ∈ actions → strictest actions = KillProcess.
Proof.
  induction actions as [|x actions IH] using rev_ind; [set_solver|].
  rewrite elem_of_app, list_elem_of_singleton, strictest_snoc. intros [H|<-].
  - rewrite IH by done. by destruct x.
  - by destruct (strictest actions).
Qed.

Lemma strictest_constant x actions : Forall (λ a, a = x) actions → strictest (actions ++ [x]) = x.
Proof.
  intros H. rewrite strictest_snoc. assert (strictest actions = x ∨ strictest actions = Allow) as [->| ->].
  { induction actions as [|y actions IH] using rev_ind; [by right|].
    apply Forall_app in H as [H1 [-> _]%Forall_cons]. rewrite strictest_snoc.
    destruct (_ <=? _); [by left|auto]. }
  - by destruct x.
  - by destruct x.
Qed.

(** ** The filters of one ABI decide the policy of its rules *)

(** The answer of one planned filter to a call of its ABI. *)
Definition filter_answer (d : SeccompData) (f : SeccompFilterPlan) : SeccompActionPlan :=
  if existsb (plan_applies d) (fp_rules f) then fp_match_action f else fp_mismatch_action f.

(** The filters that [plan_filters] builds. *)
Definition planned_filters (default_action : SeccompActionPlan) (rules : list ActionedRule)
    (a : SeccompArchitecture) : list SeccompFilterPlan :=
  ((λ action, mkFilterPlan (Some a) Allow action
      (normalize_rules (filter (λ r, ar_action r = action) rules)))
     <$> btree_collect (ar_action <$> filter (λ r, ar_action r ≠ Allow) rules))
  ++ (if bool_decide (default_action = Allow) then []
      else [mkFilterPlan (Some a) default_action Allow
              (normalize_rules (filter (λ r, ar_action r ≠ default_action) rules))]).

Lemma filter_applies_action d rules x :
  existsb (rule_applies d) (filter (λ r, ar_action r = x) rules) =
  bool_decide (x ∈ ar_action <$> filter (λ r, rule_applies d r = true) rules).
Proof.
  apply eq_iff_eq_true. rewrite bool_decide_eq_true, existsb_elem, list_elem_of_fmap.
  setoid_rewrite list_elem_of_filter. naive_solver.
Qed.

(** Keeping the answers that do not allow keeps the actions that apply. *)
Lemma filter_answers (f : SeccompActionPlan → SeccompActionPlan)
    (acts all : list SeccompActionPlan) :
  (∀ x, f x = if decide (x ∈ acts) then x else Allow) → (∀ x, x ∈ all → x ≠ Allow) →
  filter (λ x, x ≠ Allow) (f <$> all) = filter (λ x, x ∈ acts) all.
Proof.
  intros Hf Hall. induction all as [|x all IH]; [done|]. rewrite fmap_cons, !filter_cons.
  specialize (Hf x) as Hx. rewrite IH by set_solver.
  assert (x ≠ Allow) by (apply Hall; set_solver).
  destruct (decide (x ∈ acts)) as [D|D]; case_decide as D2; congruence.
Qed.

Lemma restrictive_answers rules a d :
  let acts := ar_action <$> filter (λ r, rule_applies d r = true) rules in
  filter (λ x, x ≠ Allow) (filter_answer d <$> ((λ action, mkFilterPlan (Some a) Allow action
      (normalize_rules (filter (λ r, ar_action r = action) rules)))
     <$> btree_collect (ar_action <$> filter (λ r, ar_action r ≠ Allow) rules))) =
  filter (λ x, x ≠ Allow) (btree_collect acts).
Proof.
  intros acts. rewrite <- list_fmap_compose. rewrite (filter_answers _ acts).
  - apply increasing_ext; [apply increasing_filter, btree_collect_increasing..|].
    intros x. rewrite !list_elem_of_filter, !elem_of_btree_collect. unfold acts.
    rewrite !list_elem_of_fmap. setoid_rewrite list_elem_of_filter. split.
    + intros [Hx (r & -> & Hne & Hr)]. split; [done|]. exact Hx.
    + intros [Hne (r & -> & Happ & Hr)]. eauto 10.
  - intros x. unfold filter_answer. cbn [compose fp_rules fp_match_action fp_mismatch_action].
    rewrite normalize_rules_match, filter_applies_action. fold acts.
    by case_bool_decide; case_decide.
  - intros x (r & -> & Hr)%elem_of_btree_collect%list_elem_of_fmap.
    by apply list_elem_of_filter in Hr as [? _].
Qed.

(** The default filter answers with the default action exactly when every rule
    that applies carries it. *)
Lemma default_applies d rules default_action :
  existsb (rule_applies d) (filter (λ r, ar_action r ≠ default_action) rules) = false ↔
  ∀ x, x ∈ ar_action <$> filter (λ r, rule_applies d r = true) rules → x = default_action.
Proof.
  rewrite <- not_true_iff_false, existsb_elem. setoid_rewrite list_elem_of_fmap.
  setoid_rewrite list_elem_of_filter. split.
  - intros H x (r & -> & Happ & Hr). destruct (decide (ar_action r = default_action)); [done|].
    destruct H. eauto.
  - intros H (r & [Hne Hr] & Happ). destruct Hne. eauto.
Qed.

Lemma planned_filters_decide default_action rules a d :
  strictest (filter_answer d <$> planned_filters default_action rules a) =
  policy_action rules default_action d.
Proof.
  unfold planned_filters, policy_action.
  rewrite fmap_app, <- strictest_drop_allow, filter_app, restrictive_answers.
  pose proof (default_applies d rules default_action) as Hdefault.
  set (applying := filter (λ r, rule_applies d r = true) rules) in *.
  case_bool_decide as Hda.
  { rewrite fmap_nil, filter_nil, app_nil_r, strictest_drop_allow.
    destruct applying; [by subst|done]. }
  rewrite fmap_cons, fmap_nil. unfold filter_answer.
  cbn [fp_rules fp_match_action fp_mismatch_action]. rewrite normalize_rules_match.
  destruct (existsb (rule_applies d) _) eqn:Hex.
  { rewrite filter_cons, decide_False, filter_nil, app_nil_r, strictest_drop_allow by naive_solver.
    destruct applying; [|done]. enough (true = false) by done.
    apply Hdefault. set_solver. }
  rewrite filter_cons, decide_True, filter_nil by done.
  assert (∀ x, x ∈ ar_action <$> applying → x = default_action) as Hacts by by apply Hdefault.
  rewrite strictest_constant.
  2:{ apply Forall_forall. intros x [_ Hx]%list_elem_of_filter.
      apply Hacts. rewrite elem_of_btree_collect in Hx. exact Hx. }
  destruct applying as [|r applying']; [done|].
  assert (btree_collect (ar_action <$> r :: applying') = [default_action]) as ->; [|by destruct default_action].
  apply increasing_ext; [apply btree_collect_increasing|repeat constructor|].
  intros x. rewrite elem_of_btree_collect, list_elem_of_singleton. split; [apply Hacts|].
  intros ->. rewrite fmap_cons, (Hacts (ar_action r)) by (csimpl; set_solver). set_solver.
Qed.

(** ** The stack *)

Section stack.
Context `{!SeccompEnv, !SeccompCompiler}.

Lemma scope_compiled_filter_ok compiled a scoped :
  scope_compiled_filter compiled a = Ok scoped →
  ∃ body, compiled = expected_prefix a ++ body ∧ scoped = architecture_scope a ++ body ∧
    (length scoped ≤ MAX_BPF_INSTRUCTIONS)%nat.
Proof.
  unfold scope_compiled_filter. intros Hs.
  apply rbind_ok in Hs as ([] & Hprefix & Hs). apply rbind_ok in Hs as ([] & Hlen & [= <-]).
  apply reject_if_ok, orb_false_iff in Hprefix as [_ Hprefix%negb_false_iff%bool_decide_eq_true].
  apply reject_if_ok, Nat.ltb_ge in Hlen.
  exists (drop (length (expected_prefix a)) compiled). split_and!; [|done|done].
  rewrite <- Hprefix at 1. by rewrite take_drop.
Qed.

(** One compiled filter answers for its ABI and allows every other call. *)
Lemma filter_compile_runs f a program d :
  filter_compile f a = Ok program → action_ok (fp_mismatch_action f) →
  action_ok (fp_match_action f) → data_ok d →
  run_cbpf program 0 0 d = Some (action_ret (if in_abi a d then filter_answer d f else Allow)).
Proof.
  unfold filter_compile. intros Hf Hmis Hmat Hd.
  apply rbind_ok in Hf as (grouped & Hgroup & Hf). cbv zeta in Hf.
  apply rbind_ok in Hf as ([] & _ & Hf). apply rbind_ok in Hf as (compiled & Hc & Hs).
  apply ok_or_ok in Hc. destruct (compiled_rules_match d _ _ Hgroup) as [Hinc Hmatch].
  destruct (compile_bpf_correct _ _ _ _ _ Hinc Hmis Hmat Hc) as (body & -> & Hbody).
  apply scope_compiled_filter_ok in Hs as (body' & Heq & -> & _).
  assert (body' = body) as -> by by apply (app_inv_head (expected_prefix a)).
  destruct (scope_runs a body 0 d) as [acc ->]. destruct (in_abi a d); [|done].
  rewrite Hbody by done. by rewrite Hmatch.
Qed.

Lemma compile_filters_ok p programs architecture :
  pl_architecture p = Some architecture → compile_filters p = Ok programs →
  ∃ architectures compiled, selected_architectures p architecture = Ok architectures ∧
    programs = compile_architecture_gate architectures :: compiled ∧
    (length programs ≤ MAX_FILTERS)%nat ∧
    Forall2 (λ f program, default architecture (fp_architecture f) ∈ architectures ∧
      filter_compile f (default architecture (fp_architecture f)) = Ok program) (pl_filters p) compiled.
Proof.
  intros Harch. unfold compile_filters. rewrite Harch. intros Hc.
  apply rbind_ok in Hc as ([] & Hcount & Hc). apply reject_if_ok, Nat.ltb_ge in Hcount.
  apply rbind_ok in Hc as (architectures & Hsel & Hc). cbv zeta in Hc.
  apply rbind_ok in Hc as (total & _ & Hc). apply rbind_ok in Hc as ([total' programs'] & Hfold & [= <-]).
  set (gate := compile_architecture_gate architectures) in *.
  apply (rfold_invariant (compile_one architecture architectures) (λ pre acc,
    ∃ compiled, acc.2 = gate :: compiled ∧
      Forall2 (λ f program, default architecture (fp_architecture f) ∈ architectures ∧
        filter_compile f (default architecture (fp_architecture f)) = Ok program) pre compiled))
    in Hfold.
  - destruct Hfold as (compiled & Heq & Hall). simpl in *. exists architectures, compiled.
    split_and!; [done|done| |done]. rewrite Heq. simpl. apply Forall2_length in Hall. lia.
  - exists []. split; [done|constructor].
  - intros pre f rest [t acc] [t' acc'] _ (compiled & Heq & Hall) Hstep. simpl in Heq. subst acc.
    unfold compile_one in Hstep. cbv zeta in Hstep. simpl in Hstep.
    case_bool_decide as Hin; [|done]. apply rbind_ok in Hstep as (program & Hp & Hstep).
    apply map_err_ok in Hp. apply rbind_ok in Hstep as (t'' & _ & [= <- <-]).
    exists (compiled ++ [program]). split; [done|]. apply Forall2_app; [done|].
    by repeat constructor.
Qed.

(** The answers of the compiled filters to one call. *)
Definition stack_answers (architecture : SeccompArchitecture) (filters : list SeccompFilterPlan)
    (d : SeccompData) : list SeccompActionPlan :=
  (λ f, if in_abi (default architecture (fp_architecture f)) d then filter_answer d f else Allow)
    <$> filters.

Definition filter_ok (f : SeccompFilterPlan) : Prop :=
  action_ok (fp_mismatch_action f) ∧ action_ok (fp_match_action f).

Lemma filter_answer_ok d f : filter_ok f → action_ok (filter_answer d f).
Proof. intros [? ?]. unfold filter_answer. by destruct (existsb _ _). Qed.

Lemma stack_answers_ok architecture filters d :
  Forall filter_ok filters → Forall action_ok (stack_answers architecture filters d).
Proof.
  intros Hok. unfold stack_answers. apply Forall_fmap. eapply Forall_impl; [exact Hok|].
  intros f Hf. simpl. destruct (in_abi _ d); [by apply filter_answer_ok|done].
Qed.

Lemma run_all_filters architecture (architectures : list SeccompArchitecture) filters compiled d :
  data_ok d → Forall filter_ok filters →
  Forall2 (λ f program, default architecture (fp_architecture f) ∈ architectures ∧
      filter_compile f (default architecture (fp_architecture f)) = Ok program) filters compiled →
  run_all compiled d = Some (action_ret <$> stack_answers architecture filters d).
Proof.
  intros Hd Hok Hall. revert Hok.
  induction Hall as [|f program filters compiled [_ Hc] _ IH]; intros Hok; [done|].
  apply Forall_cons in Hok as [[Hmis Hmat] Hok]. unfold stack_answers in *.
  rewrite fmap_cons. simpl. rewrite (filter_compile_runs _ _ _ _ Hc Hmis Hmat Hd), IH by done. done.
Qed.

(** A stack of the gate and compiled filters decides by the gate, then by the
    strictest answer. *)
Lemma run_stack_filters architecture (architectures : list SeccompArchitecture) filters compiled d :
  data_ok d → Forall filter_ok filters →
  Forall2 (λ f program, default architecture (fp_architecture f) ∈ architectures ∧
      filter_compile f (default architecture (fp_architecture f)) = Ok program) filters compiled →
  run_stack (compile_architecture_gate architectures :: compiled) d =
  Some (action_ret (if existsb (λ a, in_abi a d) architectures
                    then strictest (stack_answers architecture filters d) else KillProcess)).
Proof.
  intros Hd Hok Hall. unfold run_stack. simpl.
  rewrite gate_decides, (run_all_filters _ _ _ _ _ Hd Hok Hall). f_equal.
  set (answers := stack_answers architecture filters d).
  assert (Forall action_ok answers) as Hans by by apply stack_answers_ok.
  destruct (existsb _ architectures).
  - change SECCOMP_RET_ALLOW with (action_ret Allow). rewrite <- fmap_cons, kernel_verdict_strictest.
    + by rewrite <- strictest_drop_allow, filter_cons, decide_False, strictest_drop_allow by naive_solver.
    + by constructor.
  - change SECCOMP_RET_KILL_PROCESS with (action_ret KillProcess).
    rewrite <- fmap_cons, kernel_verdict_strictest by by constructor.
    by rewrite strictest_kill by set_solver.
Qed.

(** ** Plans of a configuration *)

(** The planned rules of an ABI ([from_linux] fails when they do not exist). *)
Definition rules_of (seccomp : LinuxSeccomp) (default_action : SeccompActionPlan)
    (a : SeccompArchitecture) : list ActionedRule :=
  match plan_rules seccomp a default_action with Ok rules => rules | Err _ => [] end.

Lemma plan_architectures_ok archs nat_arch selected :
  plan_architectures archs = Ok (nat_arch, selected) →
  native = Ok nat_arch ∧ nat_arch ∈ selected ∧ increasing selected.
Proof.
  unfold plan_architectures. intros Hp. apply rbind_ok in Hp as (n & Hn & Hp).
  apply rbind_ok in Hp as (sel & Hsel & [= -> ->]). split; [done|].
  apply (rfold_invariant _ (λ _ sel, nat_arch ∈ sel ∧ increasing sel)) in Hsel; [done| |].
  - split; [set_solver|apply btree_collect_increasing].
  - intros pre x rest s1 s2 _ [Hin Hinc] Hstep. apply rbind_ok in Hstep as (a & _ & [= <-]).
    split; [rewrite elem_of_btree_insert; by right|by apply btree_insert_increasing].
Qed.

Lemma plan_filters_ok default_action rules a filters :
  plan_filters default_action rules a = Ok filters →
  filters = planned_filters default_action rules a ∧ validate_install_order filters a = Ok ().
Proof.
  unfold plan_filters. cbv zeta. intros Hp. by apply rbind_ok in Hp as ([] & Hv & [= <-]).
Qed.

(** What a successful plan consists of. *)
Lemma from_linux_ok seccomp plan :
  from_linux (Some seccomp) = Ok plan →
  ∃ nat_arch default_action programs,
    native = Ok nat_arch ∧
    plan_action (sc_default_action seccomp) (sc_default_errno_ret seccomp) = Ok default_action ∧
    pl_architecture plan = Some nat_arch ∧ nat_arch ∈ pl_architectures plan ∧
    increasing (pl_architectures plan) ∧ compile_filters plan = Ok programs ∧
    (∀ a, a ∈ pl_architectures plan →
       plan_rules seccomp a default_action = Ok (rules_of seccomp default_action a) ∧
       validate_install_order
         (planned_filters default_action (rules_of seccomp default_action a) a) a = Ok ()) ∧
    pl_filters plan = concat ((λ a, planned_filters default_action (rules_of seccomp default_action a) a)
                               <$> installation_order (pl_architectures plan) nat_arch).
Proof.
  unfold from_linux. intros Hf. apply rbind_ok in Hf as ([] & _ & Hf).
  apply rbind_ok in Hf as ([nat_arch selected] & Harch & Hf).
  destruct (plan_architectures_ok _ _ _ Harch) as (Hnat & Hin & Hinc).
  apply rbind_ok in Hf as (default_action & Hda & Hf).
  apply rbind_ok in Hf as (filters & Hfilters & Hf). cbv zeta in Hf.
  apply rbind_ok in Hf as (programs & Hprograms & [= <-]).
  exists nat_arch, default_action, programs. simpl.
  apply (rfold_invariant _ (λ pre acc,
    acc = concat ((λ a, planned_filters default_action (rules_of seccomp default_action a) a) <$> pre) ∧
    ∀ a, a ∈ pre → plan_rules seccomp a default_action = Ok (rules_of seccomp default_action a) ∧
       validate_install_order
         (planned_filters default_action (rules_of seccomp default_action a) a) a = Ok ())) in Hfilters.
  - destruct Hfilters as [-> Hall]. split_and!; try done. intros a Ha. apply Hall.
    unfold installation_order. rewrite elem_of_app, list_elem_of_filter, list_elem_of_singleton.
    destruct (decide (a = nat_arch)); [by right|by left].
  - split; [done|set_solver].
  - intros pre a rest acc acc' _ [-> Hall] Hstep. apply rbind_ok in Hstep as (rules & Hrules & Hstep).
    apply rbind_ok in Hstep as (planned & Hplanned & [= <-]).
    apply plan_filters_ok in Hplanned as [-> Hv].
    assert (rules_of seccomp default_action a = rules) as Hr by (unfold rules_of; by rewrite Hrules).
    split.
    + rewrite fmap_app, concat_app. csimpl. by rewrite app_nil_r, Hr.
    + intros b. rewrite elem_of_app, list_elem_of_singleton. intros [Hb| ->]; [by apply Hall|].
      by rewrite Hr.
Qed.

(** Values of their machine width in the configuration. *)
Definition seccomp_typed (seccomp : LinuxSeccomp) : Prop :=
  (∀ v, sc_default_errno_ret seccomp = Some v → 0 ≤ v) ∧
  ∀ sy v, sy ∈ default [] (sc_syscalls seccomp) → sy_errno_ret sy = Some v → 0 ≤ v.

Lemma plan_action_ok action errno_ret planned :
  (∀ v, errno_ret = Some v → 0 ≤ v) → plan_action action errno_ret = Ok planned → action_ok planned.
Proof.
  intros Hv. assert (0 ≤ default EPERM_DATA errno_ret) as Hpos
    by (destruct errno_ret; simpl; [by apply Hv|done]).
  unfold plan_action, validate_action_data. intros Hp.
  destruct action; try done;
    apply rbind_ok in Hp as (x & Hx & [= <-]); try done;
    destruct (Z.ltb_spec 65535 (default EPERM_DATA errno_ret)); simplify_eq; simpl; lia.
Qed.

Lemma plan_rules_actions seccomp a default_action rules :
  seccomp_typed seccomp → plan_rules seccomp a default_action = Ok rules →
  Forall (λ r, action_ok (ar_action r)) rules.
Proof.
  intros [_ Htyped] Hp. unfold plan_rules in Hp.
  apply (rfold_invariant _ (λ _ acc, Forall (λ r, action_ok (ar_action r)) acc)) in Hp; [done|done|].
  intros pre sy rest acc acc' Hsplit Hacc Hstep. unfold plan_syscall in Hstep.
  apply rbind_ok in Hstep as ([] & _ & Hstep). apply rbind_ok in Hstep as (action & Haction & Hstep).
  apply rbind_ok in Hstep as (conditions & _ & Hstep).
  apply plan_action_ok in Haction; [|intros v; apply Htyped; rewrite Hsplit; set_solver].
  apply (rfold_invariant _ (λ _ acc, Forall (λ r, action_ok (ar_action r)) acc)) in Hstep; [done|done|].
  intros pre' name rest' acc1 acc2 _ Hacc1 Hname. unfold plan_name in Hname.
  apply rbind_ok in Hname as ([] & _ & Hname). cbv zeta in Hname.
  case_bool_decide; [by destruct (_ && _); simplify_eq|].
  apply rbind_ok in Hname as ([] & _ & [= <-]). apply Forall_app. split; [done|].
  apply Forall_fmap, Forall_forall. intros t _. done.
Qed.

Lemma planned_filters_ok default_action rules a :
  action_ok default_action → Forall (λ r, action_ok (ar_action r)) rules →
  Forall filter_ok (planned_filters default_action rules a).
Proof.
  intros Hd Hrules. unfold planned_filters. apply Forall_app. split.
  - apply Forall_fmap, Forall_forall. intros x (r & -> & Hr)%elem_of_btree_collect%list_elem_of_fmap.
    apply list_elem_of_filter in Hr as [_ Hr]. rewrite Forall_forall in Hrules.
    split; [done|]. by apply Hrules.
  - case_bool_decide; [done|]. by repeat constructor.
Qed.

Lemma planned_filters_arch default_action rules a f :
  f ∈ planned_filters default_action rules a → fp_architecture f = Some a.
Proof.
  unfold planned_filters. rewrite elem_of_app, list_elem_of_fmap.
  intros [(x & -> & _)|Hf]; [done|]. case_bool_decide; set_solver.
Qed.

(** Answers of one ABI's filters to a call. *)
Lemma stack_answers_planned nat_arch default_action rules a d :
  stack_answers nat_arch (planned_filters default_action rules a) d =
  (λ f, if in_abi a d then filter_answer d f else Allow) <$> planned_filters default_action rules a.
Proof.
  unfold stack_answers. apply list_fmap_ext. intros i f Hf%list_elem_of_lookup_2.
  by rewrite (planned_filters_arch _ _ _ _ Hf).
Qed.

Lemma in_abi_unique a b d : in_abi a d = true → in_abi b d = true → a = b.
Proof. rewrite <- !abi_of_spec. congruence. Qed.

(** A list of groups of which only one keeps anything under a filter. *)
Lemma filter_concat_select {A B} (f : A → list B) (P : B → Prop) `{∀ x, Decision (P x)} a order :
  NoDup order → a ∈ order → (∀ b, b ∈ order → b ≠ a → filter P (f b) = []) →
  filter P (concat (f <$> order)) = filter P (f a).
Proof.
  intros Hnodup Hin Hother. induction Hnodup as [|b order Hb Hnodup IH]; [set_solver|].
  rewrite fmap_cons. cbn [concat]. rewrite filter_app. apply elem_of_cons in Hin as [<-|Hin].
  - assert (filter P (concat (f <$> order)) = []) as ->; [|by rewrite app_nil_r].
    clear IH Hnodup. induction order as [|c order IHo]; [done|]. rewrite fmap_cons. cbn [concat].
    rewrite filter_app, Hother, IHo by set_solver. done.
  - rewrite (Hother b) by set_solver. apply IH; [done|]. intros c Hc. apply Hother. set_solver.
Qed.

Lemma stack_answers_concat {A} nat_arch (g : A → list SeccompFilterPlan) order d :
  stack_answers nat_arch (concat (g <$> order)) d =
  concat ((λ b, stack_answers nat_arch (g b) d) <$> order).
Proof.
  unfold stack_answers. induction order as [|b order IH]; [done|].
  rewrite !fmap_cons. cbn [concat]. by rewrite fmap_app, IH.
Qed.

(** Only the filters of the calling ABI count. *)
Lemma stack_answers_select nat_arch default_action (rules : SeccompArchitecture → list ActionedRule)
    order a d :
  NoDup order → a ∈ order → in_abi a d = true →
  strictest (stack_answers nat_arch
    (concat ((λ b, planned_filters default_action (rules b) b) <$> order)) d) =
  policy_action (rules a) default_action d.
Proof.
  intros Hnodup Hin Habi. rewrite <- (planned_filters_decide _ _ a), <- strictest_drop_allow.
  rewrite stack_answers_concat, (filter_concat_select _ _ a); [|done..|].
  - by rewrite strictest_drop_allow, stack_answers_planned, Habi.
  - intros b Hb Hne. rewrite stack_answers_planned.
    destruct (in_abi b d) eqn:Hc; [by destruct (Hne (in_abi_unique _ _ _ Hc Habi))|].
    induction (planned_filters default_action (rules b) b) as [|f l IHl]; [done|].
    rewrite fmap_cons, filter_cons. by case_decide.
Qed.

Lemma installation_order_spec selected nat_arch :
  increasing selected → nat_arch ∈ selected →
  NoDup (installation_order selected nat_arch) ∧
  ∀ a, a ∈ installation_order selected nat_arch ↔ a ∈ selected.
Proof.
  intros Hinc Hin. unfold installation_order. split.
  - apply NoDup_app. split_and!; [by apply NoDup_filter, increasing_NoDup| |apply NoDup_singleton].
    intros x [Hne _]%list_elem_of_filter Hx%list_elem_of_singleton. done.
  - intros a. rewrite elem_of_app, list_elem_of_filter, list_elem_of_singleton.
    destruct (decide (a = nat_arch)) as [->|]; tauto.
Qed.

Lemma from_linux_increasing seccomp plan :
  from_linux (Some seccomp) = Ok plan → increasing (pl_architectures plan).
Proof. intros (? & ? & ? & ? & ? & ? & ? & ? & ?)%from_linux_ok. done. Qed.

(** What an accepted configuration installs: the gate and one program per
    planned filter. *)
Lemma from_linux_stack seccomp plan :
  seccomp_typed seccomp → from_linux (Some seccomp) = Ok plan →
  ∃ nat_arch default_action compiled,
    let programs := compile_architecture_gate (pl_architectures plan) :: compiled in
    native = Ok nat_arch ∧ nat_arch ∈ pl_architectures plan ∧
    install_programs plan = Ok programs ∧ (length programs ≤ MAX_FILTERS)%nat ∧
    Forall filter_ok (pl_filters plan) ∧
    Forall2 (λ f program, default nat_arch (fp_architecture f) ∈ pl_architectures plan ∧
      filter_compile f (default nat_arch (fp_architecture f)) = Ok program) (pl_filters plan) compiled ∧
    plan_action (sc_default_action seccomp) (sc_default_errno_ret seccomp) = Ok default_action ∧
    (∀ a, a ∈ pl_architectures plan →
       plan_rules seccomp a default_action = Ok (rules_of seccomp default_action a) ∧
       validate_install_order
         (planned_filters default_action (rules_of seccomp default_action a) a) a = Ok ()) ∧
    pl_filters plan = concat ((λ a, planned_filters default_action (rules_of seccomp default_action a) a)
                               <$> installation_order (pl_architectures plan) nat_arch).
Proof.
  intros Htyped Hplan.
  destruct (from_linux_ok _ _ Hplan) as (nat_arch & default_action & programs & Hnat & Hda & Harch &
    Hin & Hinc & Hcompile & Hrules & Hfilters).
  destruct (compile_filters_ok _ _ _ Harch Hcompile) as (architectures & compiled & Hsel & -> & Hlen & Hall).
  assert (architectures = pl_architectures plan) as ->.
  { unfold selected_architectures in Hsel. case_bool_decide as Hnil; [rewrite Hnil in Hin; set_solver|].
    rewrite btree_collect_increasing_id in Hsel by done. by case_bool_decide; simplify_eq. }
  exists nat_arch, default_action, compiled. split_and!; try done.
  - unfold install_programs. rewrite Harch, Hnat. simpl. by rewrite bool_decide_true by done.
  - rewrite Hfilters. apply Forall_concat, Forall_fmap, Forall_forall. intros a Ha.
    apply (proj2 (installation_order_spec _ _ Hinc Hin)) in Ha. destruct (Hrules a Ha) as [Hr _].
    apply planned_filters_ok; [|by eapply plan_rules_actions].
    eapply plan_action_ok; [|exact Hda]. apply Htyped.
Qed.

(** C13: Seccomp enforcement is equivalent to the planned policy: a configuration
    that the agent accepts is compiled to a stack of at most 32 programs which,
    under the kernel's rule that the strictest filter wins, kills every call
    made through an ABI that was not selected and answers every other call with
    the strictest action among the rules that apply to it, or the default
    action when none does. *)
Theorem seccomp_stack_decides_policy seccomp plan :
  seccomp_typed seccomp → from_linux (Some seccomp) = Ok plan →
  ∃ default_action programs,
    plan_action (sc_default_action seccomp) (sc_default_errno_ret seccomp) = Ok default_action ∧
    install_programs plan = Ok programs ∧ (length programs ≤ MAX_FILTERS)%nat ∧
    (∀ a, a ∈ pl_architectures plan →
       plan_rules seccomp a default_action = Ok (rules_of seccomp default_action a)) ∧
    ∀ d, data_ok d → run_stack programs d = Some (action_ret
      match abi_of d with
      | Some a => if decide (a ∈ pl_architectures plan)
                  then policy_action (rules_of seccomp default_action a) default_action d
                  else KillProcess
      | None => KillProcess
      end).
Proof.
  intros Htyped Hplan.
  destruct (from_linux_stack _ _ Htyped Hplan) as (nat_arch & default_action & compiled & _ & Hin &
    Hinst & Hlen & Hok & Hall & Hda & Hrules & Hfilters).
  assert (increasing (pl_architectures plan)) as Hinc by by apply (from_linux_increasing _ _ Hplan).
  exists default_action. eexists. split_and!; [done|exact Hinst|exact Hlen|by intros a Ha; apply Hrules|].
  intros d Hd. rewrite (run_stack_filters nat_arch _ (pl_filters plan)) by done. do 2 f_equal.
  destruct (abi_of d) as [a|] eqn:Habi.
  - apply abi_of_spec in Habi. case_decide as Hsela.
    + rewrite (proj2 (existsb_elem _ _)) by eauto. rewrite Hfilters.
      apply stack_answers_select; [by apply installation_order_spec| |done].
      by apply installation_order_spec.
    + destruct (existsb _ _) eqn:Hex; [|done]. apply existsb_elem in Hex as (b & Hb & Hbd).
      by rewrite (in_abi_unique _ _ _ Habi Hbd) in Hsela.
  - destruct (existsb _ _) eqn:Hex; [|done]. apply existsb_elem in Hex as (b & _ & Hbd).
    apply abi_of_spec in Hbd. congruence.
Qed.

(** ** Installing the stack *)

(** Numbers of the system calls that attach the next filter. *)
Definition installer_number (a : SeccompArchitecture) (nr : Z) : bool :=
  bool_decide (nr ∈ tg_number <$> concat (resolve a <$> ["prctl"; "seccomp"])).

Lemma elem_of_take_weak {A} (l : list A) n x : x ∈ take n l → x ∈ l.
Proof. intros Hx. rewrite <- (take_drop n l). apply elem_of_app. by left. Qed.
Lemma elem_of_removelast {A} (l : list A) x : x ∈ removelast l → x ∈ l.
Proof. rewrite removelast_firstn_len. apply elem_of_take_weak. Qed.

Lemma take_removelast {A} (l : list A) n x :
  (n < length l)%nat → x ∈ take n l → x ∈ removelast l.
Proof.
  intros Hn Hx. rewrite removelast_firstn_len. apply list_elem_of_lookup in Hx as [i Hi].
  apply lookup_take_Some in Hi as [Hi Hlt]. apply list_elem_of_lookup. exists i.
  apply lookup_take_Some. split; [done|lia].
Qed.

(** Before the last filter of an ABI is attached, its filters let the installer
    through. *)
Lemma early_filter_allows default_action rules a f d :
  validate_install_order (planned_filters default_action rules a) a = Ok () →
  f ∈ removelast (planned_filters default_action rules a) →
  installer_number a (sd_nr d) = true → filter_answer d f = Allow.
Proof.
  intros Hv Hf Hnr%bool_decide_eq_true. set (filters := planned_filters _ _ _) in *.
  assert (¬ (length filters < 2)%nat) as Hlen.
  { intros Hl. destruct filters as [|f1 [|f2 l]]; simpl in *; [set_solver..|lia]. }
  assert (fp_mismatch_action f = Allow ∧ fp_match_action f ≠ Allow) as [Hmis Hmat].
  { unfold filters, planned_filters in Hf. set (L := fmap _ _) in Hf.
    assert (f ∈ L) as (x & -> & Hx)%list_elem_of_fmap.
    { case_bool_decide; [rewrite app_nil_r in Hf; by apply elem_of_removelast
                        |by rewrite removelast_last in Hf]. }
    split; [done|]. simpl. apply elem_of_btree_collect, list_elem_of_fmap in Hx as (r & -> & Hr).
    by apply list_elem_of_filter in Hr as [? _]. }
  unfold validate_install_order in Hv. rewrite (proj2 (Nat.ltb_ge _ _)) in Hv by lia.
  apply reject_if_ok in Hv. apply not_true_iff_false in Hv. rewrite existsb_elem in Hv.
  unfold filter_answer. destruct (existsb _ (fp_rules f)) eqn:Hex; [|done].
  destruct Hv. exists f. split; [done|]. rewrite bool_decide_false by done. simpl.
  apply existsb_elem in Hex as (r & Hr & [Hn%Z.eqb_eq _]%andb_true_iff).
  apply existsb_elem. exists r. split; [done|]. rewrite bool_decide_eq_true, elem_of_btree_collect.
  by rewrite <- Hn.
Qed.

Lemma strictest_all_allow actions : Forall (λ x, x = Allow) actions → strictest actions = Allow.
Proof.
  intros Hall. rewrite <- strictest_drop_allow.
  induction Hall as [|x l -> _ IH]; [done|]. by rewrite filter_cons, decide_False by naive_solver.
Qed.

(** Every filter attached before the last one of the plan allows the
    installer's own calls. *)
Lemma partial_answers_allow seccomp default_action nat_arch selected n d :
  (∀ a, a ∈ selected → validate_install_order
      (planned_filters default_action (rules_of seccomp default_action a) a) a = Ok ()) →
  nat_arch ∈ selected → in_abi nat_arch d = true → installer_number nat_arch (sd_nr d) = true →
  let filters := concat ((λ a, planned_filters default_action (rules_of seccomp default_action a) a)
                           <$> installation_order selected nat_arch) in
  (n < length filters)%nat → Forall (λ x, x = Allow) (stack_answers nat_arch (take n filters) d).
Proof.
  intros Hv Hin Habi Hnr. unfold installation_order. rewrite fmap_app, concat_app. csimpl.
  rewrite app_nil_r. set (others := concat _). set (own := planned_filters _ _ _). intros Hn.
  unfold stack_answers. apply Forall_fmap, Forall_forall. intros f Hf. simpl.
  assert (f ∈ others ∨ f ∈ removelast own) as [Ho|Ho].
  { rewrite take_app, elem_of_app in Hf. destruct Hf as [Hf|Hf]; [left; by eapply elem_of_take_weak|].
    right. eapply take_removelast; [|exact Hf]. rewrite length_app in Hn.
    destruct own; simpl in *; [rewrite take_nil in Hf; set_solver|lia]. }
  - apply list_elem_of_In, in_concat in Ho as (l & Hl & Hfl%list_elem_of_In).
    apply list_elem_of_In, list_elem_of_fmap in Hl as (b & -> & [Hne _]%list_elem_of_filter).
    rewrite (planned_filters_arch _ _ _ _ Hfl). simpl. destruct (in_abi b d) eqn:Hb; [|done].
    by destruct (Hne (in_abi_unique _ _ _ Hb Habi)).
  - assert (f ∈ own) as Hown by by apply elem_of_removelast.
    rewrite (planned_filters_arch _ _ _ _ Hown). simpl. rewrite Habi.
    by eapply early_filter_allows; [apply Hv| |].
Qed.

(** Installing seccomp never blocks itself: at every point before the last
    program is attached, the partial stack allows the prctl and seccomp calls
    of the native ABI that attach the next one, whatever their arguments. *)
Theorem seccomp_install_never_self_blocks seccomp plan nat_arch :
  seccomp_typed seccomp → from_linux (Some seccomp) = Ok plan → native = Ok nat_arch →
  ∃ programs, install_programs plan = Ok programs ∧
    ∀ n d, (n < length programs)%nat → data_ok d → in_abi nat_arch d = true →
      installer_number nat_arch (sd_nr d) = true →
      run_stack (take n programs) d = Some SECCOMP_RET_ALLOW.
Proof.
  intros Htyped Hplan Hnative.
  destruct (from_linux_stack _ _ Htyped Hplan) as (nat' & default_action & compiled & Hnat & Hin &
    Hinst & _ & Hok & Hall & _ & Hrules & Hfilters).
  assert (nat' = nat_arch) as -> by congruence.
  eexists. split; [exact Hinst|]. intros n d Hn Hd Habi Hnr. destruct n as [|n]; [done|].
  cbn [take length] in *. rewrite (run_stack_filters nat_arch _ (take n (pl_filters plan)));
    [|done|by apply Forall_take|by apply Forall2_take].
  rewrite (proj2 (existsb_elem _ _)) by eauto. do 2 f_equal.
  change SECCOMP_RET_ALLOW with (action_ret Allow). f_equal. apply strictest_all_allow.
  rewrite Hfilters. apply partial_answers_allow; [|done..|].
  - intros a Ha. by apply Hrules.
  - rewrite <- Hfilters. apply Forall2_length in Hall. lia.
Qed.
End stack.

(** * A concrete seccomp policy

    The filter compiler and the system-call tables are third-party code, so the
    theorems of [SeccompProps] quantify over them.  Here they are instantiated:
    a compiler of unconditional rules that satisfies the documented law, small
    system-call tables, and an allow list for x86_64 with its 32-bit ABI. *)

(** ** A compiler of unconditional rules *)

Definition ladder (rules : list (Z * list (list SeccompConditionPlan)))
    (mismatch match_ : SeccompActionPlan) : BpfProgram :=
  flat_map (λ e, [jump JUMP_EQ e.1 0 1; statement RETURN (action_ret match_)]) rules
  ++ [statement RETURN (action_ret mismatch)].
Definition ladder_compile (rules : list (Z * list (list SeccompConditionPlan)))
    (mismatch match_ : SeccompActionPlan) (audit : Z) : option BpfProgram :=
  if forallb (λ e, bool_decide (e.2 = [])) rules
  then Some ([ statement LOAD SECCOMP_DATA_ARCH_OFFSET; jump JUMP_EQ audit 1 0; kill_process ]
             ++ statement LOAD SECCOMP_DATA_NR_OFFSET :: ladder rules mismatch match_)
  else None.

Lemma ladder_runs rules mismatch match_ d :
  run_cbpf (ladder rules mismatch match_) 0 (sd_nr d) d =
  Some (action_ret (if existsb (λ e, sd_nr d =? e.1) rules then match_ else mismatch)).
Proof.
  unfold ladder. induction rules as [|e rules IH]; [done|]. cbn [flat_map app existsb].
  run_steps d. destruct (sd_nr d =? e.1); run_steps d; [done|apply IH].
Qed.

Lemma compiled_match_unconditional rules d :
  map_increasing rules → forallb (λ e, bool_decide (e.2 = [])) rules = true →
  compiled_match rules d = existsb (λ e, sd_nr d =? e.1) rules.
Proof.
  intros Hinc Hall. unfold compiled_match. rewrite forallb_forall in Hall.
  setoid_rewrite <- list_elem_of_In in Hall.
  destruct (btree_get (sd_nr d) rules) as [alts|] eqn:Hget.
  - apply elem_of_btree_get in Hget; [|done]. specialize (Hall _ Hget).
    apply bool_decide_eq_true in Hall. simpl in Hall. subst alts. symmetry.
    apply existsb_elem. eexists. split; [exact Hget|]. apply Z.eqb_refl.
  - symmetry. apply not_true_iff_false. rewrite existsb_elem. intros ([k v] & Hk & E%Z.eqb_eq).
    simpl in E. subst k. apply elem_of_btree_get in Hk; [|done]. congruence.
Qed.

#[local] Instance ladder_env : SeccompEnv := {|
  consts_arch := "x86_64";
  sysno_aarch64 _ := None;
  sysno_arm _ := None;
  sysno_x86 name := name_lookup name
    [("prctl", 172); ("seccomp", 354); ("read", 3); ("write", 4); ("mount", 21)];
  sysno_x86_64 name := name_lookup name
    [("prctl", 157); ("seccomp", 317); ("read", 0); ("write", 1); ("mount", 165); ("reboot", 169)];
  condition_new_ok _ := true;
  rule_new_ok _ := true;
  filter_new_ok _ _ _ := true;
  compile_bpf := ladder_compile
|}.

#[local] Instance ladder_compiler : SeccompCompiler.
Proof.
  constructor. intros rules mismatch match_ audit program Hinc _ _. simpl. unfold ladder_compile.
  destruct (forallb _ rules) eqn:Hall; [|done]. intros [= <-].
  eexists. split; [reflexivity|]. intros acc d _. run_steps d.
  by rewrite ladder_runs, compiled_match_unconditional.
Qed.

(** ** An allow list *)

Definition allow_list : LinuxSeccomp :=
  mkLinuxSeccomp ScmpActErrno (Some 38) (Some [ScmpArchX86_64; ScmpArchX86]) None None None
    (Some [ mkLinuxSyscall ["read"; "write"; "prctl"; "seccomp"] ScmpActAllow None None;
            mkLinuxSyscall ["mount"] ScmpActKillProcess None None ]).
Definition allow_list_plan : SeccompPlan :=
  Eval vm_compute in match from_linux (Some allow_list) with Ok p => p | Err _ => plan_default end.
Definition call (arch nr : Z) : SeccompData := mkData nr arch [0; 0; 0; 0; 0; 0].

Lemma allow_list_typed : seccomp_typed allow_list.
Proof.
  split; [by intros v [= <-]|]. intros sy v Hsy Hv. simpl in Hsy.
  apply elem_of_cons in Hsy as [->|[->|Hsy]%elem_of_cons]; [done..|set_solver].
Qed.
Lemma allow_list_planned : from_linux (Some allow_list) = Ok allow_list_plan.
Proof. vm_compute. reflexivity. Qed.
Lemma call_ok arch nr : 0 ≤ nr < 2 ^ 32 → 0 ≤ arch < 2 ^ 32 → data_ok (call arch nr).
Proof. intros. split_and!; simpl; [lia..|done|]. by repeat constructor. Qed.

(** The theorem at the allow list: an unlisted x86_64 call fails with ENOSYS,
    and an x32 call kills the process. *)
Lemma seccomp_stack_decides_policy_witness :
  ∃ programs, install_programs allow_list_plan = Ok programs ∧
    run_stack programs (call AUDIT_ARCH_X86_64 169) = Some 0x00050026 ∧
    run_stack programs (call AUDIT_ARCH_X86_64 165) = Some SECCOMP_RET_KILL_PROCESS ∧
    run_stack programs (call AUDIT_ARCH_X86_64 X32_SYSCALL_BIT) = Some SECCOMP_RET_KILL_PROCESS.
Proof.
  destruct (seccomp_stack_decides_policy allow_list allow_list_plan allow_list_typed
    allow_list_planned) as (default_action & programs & Hda & Hprograms & _ & _ & Hrun).
  vm_compute in Hda. injection Hda as <-. exists programs. split; [done|].
  split_and!; rewrite Hrun by (by apply call_ok); vm_compute; reflexivity.
Defined.

(** The theorem at the allow list: with one program missing the installer may
    still call seccomp. *)
Lemma seccomp_install_never_self_blocks_witness :
  ∃ programs, install_programs allow_list_plan = Ok programs ∧ length programs = 5%nat ∧
    run_stack (take 4 programs) (call AUDIT_ARCH_X86_64 317) = Some SECCOMP_RET_ALLOW.
Proof.
  destruct (seccomp_install_never_self_blocks allow_list allow_list_plan X86_64 allow_list_typed
    allow_list_planned eq_refl) as (programs & Hprograms & Hrun).
  exists programs. assert (length programs = 5%nat) as Hlen.
  { vm_compute in Hprograms. by injection Hprograms as <-. }
  split_and!; [done|done|]. apply Hrun; [lia|by apply call_ok|reflexivity..].
Defined.
