(* ===== verification/Wire.v ===== *)
(** * Length-prefixed JSON frames (agent-protocol/src/wire.rs and
    sdk/src/transport/wire.rs)

    Both transports carry a message as four big-endian bytes of length and its
    JSON text.  The two modules share their code over different errors and a
    limit, so [write_frame] and [read_frame] are written once over a record of
    these and instantiated twice.

    [serde_json] is third-party: [Json] holds its two directions and the round
    trip that its derived instances document.  A stream is the bytes it has
    carried: the writer may refuse bytes at any point, the reader sees the
    bytes that arrived and then an end of file or a failure. *)

From stdpp Require Import base gmap list strings.
From S2P Require Import Prelude Sdk.
From Stdlib Require Import ZArith Lia.

Local Open Scope string_scope.
Local Open Scope list_scope.
Local Open Scope Z_scope.

(** ** Bytes *)

Abbreviation bytes := (list Z).
Definition is_byte (b : Z) : Prop := 0 ≤ b < 256.

(** [u32::to_be_bytes] and [u32::from_be_bytes] *)
Definition to_be_bytes (n : Z) : bytes :=
  [n / 2 ^ 24 mod 256; n / 2 ^ 16 mod 256; n / 2 ^ 8 mod 256; n mod 256].
Definition from_be_bytes (b : bytes) : Z := foldl (λ acc x, acc * 256 + x) 0 b.

(** ** JSON *)

Class Json (T : Type) : Type := {
  to_vec : T → option bytes;
  from_slice : bytes → option T
}.
Class JsonLaws (T : Type) `{!Json T} : Prop := {
  from_slice_to_vec (v : T) b : to_vec v = Some b → from_slice b = Some v
}.

(** SHA-256 is third-party: the digest has 32 bytes. *)
Class Sha256 : Type := { sha256 : bytes → bytes }.
Class Sha256Laws `{!Sha256} : Prop := {
  sha256_length b : length (sha256 b) = 32%nat;
  sha256_bytes b : Forall is_byte (sha256 b)
}.

(** ** Streams *)

(** The sending half: the bytes accepted so far, how many more are accepted
    before an I/O failure, and whether flushing works. *)
Record Writer : Type := mkWriter {
  wr_bytes : bytes;
  wr_budget : option nat;
  wr_flushes : bool
}.
(** The receiving half: the bytes that arrive, then the end. *)
Inductive StreamEnd : Type := Eof | Broken.
Record Reader : Type := mkReader {
  rd_bytes : bytes;
  rd_end : StreamEnd
}.

(** [AsyncWriteExt::write_all]: on failure a prefix has been accepted. *)
Definition write_all (error : Error) (data : bytes) : prog Writer Error () := λ w,
  match wr_budget w with
  | None => (Ok (), mkWriter (wr_bytes w ++ data) None (wr_flushes w))
  | Some n =>
      if (length data <=? n)%nat
      then (Ok (), mkWriter (wr_bytes w ++ data) (Some (n - length data)%nat) (wr_flushes w))
      else (Err error, mkWriter (wr_bytes w ++ take n data) (Some 0%nat) (wr_flushes w))
  end.
Definition flush (error : Error) : prog Writer Error () := λ w,
  (if wr_flushes w then Ok () else Err error, w).

(** [read] into a one-byte slice: [None] at the end of the stream. *)
Definition read_byte (error : Error) : prog Reader Error (option Z) := λ r,
  match rd_bytes r with
  | b :: rest => (Ok (Some b), mkReader rest (rd_end r))
  | [] => (match rd_end r with Eof => Ok None | Broken => Err error end, r)
  end.
(** [AsyncReadExt::read_exact] *)
Definition read_exact (error : Error) (n : nat) : prog Reader Error bytes := λ r,
  if (n <=? length (rd_bytes r))%nat
  then (Ok (take n (rd_bytes r)), mkReader (drop n (rd_bytes r)) (rd_end r))
  else (Err error, mkReader [] (rd_end r)).

(** ** Frames *)

Record WireProfile : Type := mkWireProfile {
  wp_maximum : Z;
  wp_encode : Error;
  wp_too_large : Error;
  wp_write_header : Error;
  wp_write_payload : Error;
  wp_flush : Error;
  wp_read_header : Error;
  wp_read_length : Error;
  wp_bad_length : Z → Error;
  wp_read_payload : Error;
  wp_decode : Error
}.

Section frames.
Variable profile : WireProfile.
Context {T : Type} `{!Json T}.

Definition write_frame (value : T) : prog Writer Error () :=
  let! payload := lift (ok_or (wp_encode profile) (to_vec value)) in
  let len := Z.of_nat (length payload) in
  do! lift (reject_if (u32_max <? len) (wp_too_large profile));
  do! lift (reject_if ((len =? 0) || (wp_maximum profile <? len)) (wp_too_large profile));
  do! write_all (wp_write_header profile) (to_be_bytes len);
  do! write_all (wp_write_payload profile) payload;
  flush (wp_flush profile).

Definition read_frame : prog Reader Error (option T) :=
  let! first := read_byte (wp_read_header profile) in
  match first with
  | None => ret None
  | Some b =>
      let! rest := read_exact (wp_read_length profile) 3 in
      let len := from_be_bytes (b :: rest) in
      do! lift (reject_if ((len =? 0) || (wp_maximum profile <? len)) (wp_bad_length profile len));
      let! payload := read_exact (wp_read_payload profile) (Z.to_nat len) in
      lift (rbind (ok_or (wp_decode profile) (from_slice payload)) (λ v, Ok (Some v)))
  end.

(** Sending a sequence of messages until the first failure, and reading until
    something other than a message comes back. *)
Definition write_frames (values : list T) : prog Writer Error () := for_each write_frame values.
Fixpoint read_frames (fuel : nat) (r : Reader) : list T * Result (option ()) :=
  match fuel with
  | O => ([], Ok (Some ()))
  | S fuel =>
      match read_frame r with
      | (Ok (Some v), r') => let '(vs, last) := read_frames fuel r' in (v :: vs, last)
      | (Ok None, _) => ([], Ok None)
      | (Err e, _) => ([], Err e)
      end
  end.
End frames.

(** ** The two transports *)

Definition protocol_wire_error (c : ErrorCode) (operation msg : string) : Error :=
  for_operation (error_new c msg) operation.
Definition io_error (operation : string) : Error :=
  set_retryable (protocol_wire_error Unavailable operation "agent transport I/O failed: {error}") true.
Definition frame_too_large : Error :=
  protocol_wire_error ResourceExhausted "encode-agent-frame"
    "agent frame is {actual} bytes; maximum is {maximum}".

Definition AGENT_MAX_FRAME_BYTES : Z := 64 * 1024 * 1024.
Definition agent_wire : WireProfile := {|
  wp_maximum := AGENT_MAX_FRAME_BYTES;
  wp_encode := protocol_wire_error Internal "encode-agent-frame"
    "failed to encode agent frame: {error}";
  wp_too_large := frame_too_large;
  wp_write_header := io_error "write-agent-frame-header";
  wp_write_payload := io_error "write-agent-frame-payload";
  wp_flush := io_error "flush-agent-frame";
  wp_read_header := io_error "read-agent-frame-header";
  wp_read_length := io_error "read-agent-frame-header";
  wp_bad_length _ := protocol_wire_error ResourceExhausted "read-agent-frame"
    "agent frame length {length} is outside 1..={maximum} bytes";
  wp_read_payload := io_error "read-agent-frame-payload";
  wp_decode := protocol_wire_error InvalidArgument "decode-agent-frame"
    "invalid agent frame JSON: {error}"
|}.

(** [protocol_error] and [transport_error] of sdk/src/transport/mod.rs. *)
Definition sdk_protocol_error (msg : string) : Error :=
  for_operation (error_new Internal msg) "sdk-transport".
Definition sdk_transport_error (operation msg : string) : Error :=
  for_operation (set_retryable (error_new Unavailable msg) true) operation.
Definition MAX_FRAME_BYTES : Z := 64 * 1024 * 1024.
Definition sdk_wire : WireProfile := {|
  wp_maximum := MAX_FRAME_BYTES;
  wp_encode := sdk_protocol_error "failed to encode SDK transport frame: {error}";
  wp_too_large := for_operation (error_new ResourceExhausted
    "SDK transport frame is {length} bytes; maximum is {MAX_FRAME_BYTES}") "sdk-transport-write";
  wp_write_header := sdk_transport_error "sdk-transport-write"
    "failed to write SDK frame length: {error}";
  wp_write_payload := sdk_transport_error "sdk-transport-write"
    "failed to write SDK frame payload: {error}";
  wp_flush := sdk_transport_error "sdk-transport-write" "failed to flush SDK frame: {error}";
  wp_read_header := sdk_transport_error "sdk-transport-read"
    "failed to read SDK frame length: {error}";
  wp_read_length := sdk_transport_error "sdk-transport-read" "truncated SDK frame length: {error}";
  wp_bad_length len := if len =? 0 then sdk_protocol_error "SDK transport frame must not be empty"
    else for_operation (error_new ResourceExhausted
      "SDK transport frame is {length} bytes; maximum is {MAX_FRAME_BYTES}") "sdk-transport-read";
  wp_read_payload := sdk_transport_error "sdk-transport-read"
    "truncated SDK frame payload: {error}";
  wp_decode := sdk_protocol_error "invalid SDK transport frame: {error}"
|}.

(** * Framing delivers a prefix of what was sent

    Whatever point a transport fails at, a receiver decodes exactly the first
    messages that were sent: never a fragment, a merge of two messages or one
    that was not sent, and it reports a clean end only between messages. *)

Lemma from_to_be_bytes n : 0 ≤ n < 2 ^ 32 → from_be_bytes (to_be_bytes n) = n.
Proof.
  intros Hn. unfold from_be_bytes, to_be_bytes. cbn [foldl]. rewrite Z.mul_0_l, Z.add_0_l.
  change (2 ^ 24) with (256 * (256 * 256)). change (2 ^ 16) with (256 * 256). change (2 ^ 8) with 256.
  rewrite <- !Z.div_div by lia.
  rewrite (Z.mod_small (n / 256 / 256 / 256) 256) by (split; [|apply Z.div_lt_upper_bound;
    [lia|apply Z.div_lt_upper_bound; [lia|apply Z.div_lt_upper_bound; lia]]]; repeat apply Z.div_pos; lia).
  pose proof (Z.div_mod n 256). pose proof (Z.div_mod (n / 256) 256).
  pose proof (Z.div_mod (n / 256 / 256) 256). lia.
Qed.

Section delivery.
Variable profile : WireProfile.
Context {T : Type} `{!Json T, !JsonLaws T}.
Implicit Types (v : T) (vs : list T).

(** The bytes of a message, when the profile can send it. *)
Definition frame_of v : option bytes :=
  match to_vec v with
  | None => None
  | Some payload =>
      let len := Z.of_nat (length payload) in
      if (u32_max <? len) || (len =? 0) || (wp_maximum profile <? len) then None
      else Some (to_be_bytes len ++ payload)
  end.
Definition frames_of vs : bytes := concat ((λ v, default [] (frame_of v)) <$> vs).
Definition sendable v : Prop := is_Some (frame_of v).

Lemma frames_of_cons v vs b : frame_of v = Some b → frames_of (v :: vs) = b ++ frames_of vs.
Proof. intros Hb. unfold frames_of. csimpl. by rewrite Hb. Qed.

Lemma write_all_spec error data w r w' :
  write_all error data w = (r, w') →
  ∃ k, wr_bytes w' = wr_bytes w ++ take k data ∧ (r = Ok () → take k data = data) ∧
    (r = Ok () ∨ r = Err error).
Proof.
  unfold write_all. destruct (wr_budget w) as [n|].
  - destruct (Nat.leb_spec (length data) n); intros [= <- <-].
    + exists (length data). rewrite take_ge by lia. auto.
    + exists n. simpl. split_and!; [done|done|by right].
  - intros [= <- <-]. exists (length data). rewrite take_ge by lia. auto.
Qed.

(** One message: a prefix of its frame reaches the stream, all of it on
    success; a message that cannot be sent leaves no byte. *)
Lemma write_frame_spec v w r w' :
  write_frame profile v w = (r, w') →
  ∃ k, wr_bytes w' = wr_bytes w ++ take k (default [] (frame_of v)) ∧
    (r = Ok () → sendable v ∧ take k (default [] (frame_of v)) = default [] (frame_of v)).
Proof.
  unfold write_frame, frame_of, sendable, frame_of, bind, lift, ok_or, reject_if.
  destruct (to_vec v) as [payload|]; [|intros [= <- <-]; exists 0%nat; by rewrite app_nil_r].
  set (len := Z.of_nat (length payload)). cbv zeta.
  pose proof (eq_refl : length (to_be_bytes len) = 4%nat) as Hh. revert Hh.
  generalize (to_be_bytes len) as header. intros header Hh.
  destruct (u32_max <? len); simpl; [intros [= <- <-]; exists 0%nat; by rewrite app_nil_r|].
  destruct ((len =? 0) || (wp_maximum profile <? len)) eqn:Hb; simpl;
    [intros [= <- <-]; exists 0%nat; by rewrite app_nil_r|].
  destruct (write_all _ header w) as [r1 w1] eqn:H1.
  destruct (write_all_spec _ _ _ _ _ H1) as (k1 & E1 & F1 & C1).
  destruct C1 as [->| ->].
  2:{ intros [= <- <-]. exists (Nat.min k1 4). rewrite take_app_le by lia.
      rewrite E1. split; [|done]. f_equal. rewrite <- Hh, <- take_take. by rewrite firstn_all. }
  destruct (write_all _ payload w1) as [r2 w2] eqn:H2.
  destruct (write_all_spec _ _ _ _ _ H2) as (k2 & E2 & F2 & C2).
  assert (wr_bytes w2 = wr_bytes w ++ take (4 + k2) (header ++ payload)) as E.
  { rewrite E2, E1, F1 by done. rewrite <- app_assoc. f_equal. by rewrite <- Hh, take_app_add. }
  destruct C2 as [->| ->].
  - intros Hf. exists (4 + k2)%nat. assert (w' = w2) as -> by (unfold flush in Hf; by injection Hf).
    split; [done|]. intros _. split; [done|]. cbn [from_option id]. rewrite <- Hh, take_app_add. f_equal.
    by apply F2.
  - intros [= <- <-]. by exists (4 + k2)%nat.
Qed.

(** A sequence of messages up to the first failure. *)
Lemma write_frames_spec vs w r w' :
  write_frames profile vs w = (r, w') →
  ∃ sent rest, vs = sent ++ rest ∧ Forall sendable sent ∧
    (∃ k, wr_bytes w' = wr_bytes w ++ frames_of sent ++
       take k (match rest with v :: _ => default [] (frame_of v) | [] => [] end)) ∧
    (r = Ok () → rest = []).
Proof.
  revert w. induction vs as [|v vs IH]; intros w; cbn [write_frames for_each].
  - intros [= <- <-]. exists [], []. split_and!; [done..| |done].
    exists 0%nat. by rewrite !app_nil_r.
  - unfold bind. destruct (write_frame profile v w) as [[[]|e] w1] eqn:Hv.
    + intros Hvs. destruct (write_frame_spec _ _ _ _ Hv) as (k1 & E1 & S1).
      destruct (S1 eq_refl) as [[b Hb] E1']. rewrite E1', Hb in E1. simpl in E1.
      destruct (IH _ Hvs) as (sent & rest & -> & Hs & (k & Ek) & Hok).
      exists (v :: sent), rest. split_and!; [done|by constructor; [exists b|]| |done].
      exists k. by rewrite Ek, E1, (frames_of_cons v sent b Hb), <- !app_assoc.
    + intros [= <- <-]. destruct (write_frame_spec _ _ _ _ Hv) as (k1 & E1 & _).
      exists [], (v :: vs). split_and!; [done|done| |done]. by exists k1.
Qed.

(** What is on the stream is a prefix of the frames of messages that can be
    sent, which begin the sequence. *)
Lemma write_frames_good vs budget flushes r w :
  write_frames profile vs (mkWriter [] budget flushes) = (r, w) →
  ∃ good k, good `prefix_of` vs ∧ Forall sendable good ∧ wr_bytes w = take k (frames_of good) ∧
    (r = Ok () → good = vs ∧ wr_bytes w = frames_of vs).
Proof.
  intros (sent & rest & -> & Hs & (k & Ek) & Hok)%write_frames_spec. simpl in Ek.
  destruct rest as [|v rest].
  { exists sent, (length (frames_of sent)). rewrite take_nil, app_nil_r in *.
    rewrite take_ge by lia. split_and!; [done..|]. done. }
  destruct (frame_of v) as [b|] eqn:Hb; cbn [from_option id] in Ek.
  - exists (sent ++ [v]), (length (frames_of sent) + k)%nat. split_and!.
    + exists rest. by rewrite <- app_assoc.
    + apply Forall_app. split; [done|]. repeat constructor. by exists b.
    + rewrite Ek. unfold frames_of. rewrite fmap_app, concat_app. csimpl. rewrite Hb. simpl.
      rewrite app_nil_r, take_app_add. done.
    + intros Hr%Hok. done.
  - exists sent, (length (frames_of sent)). rewrite take_ge by lia. split_and!.
    + by exists (v :: rest).
    + done.
    + rewrite Ek. by rewrite take_nil, app_nil_r.
    + intros Hr%Hok. done.
Qed.

(** Behind a complete header the payload is read. *)
Lemma read_frame_header len rest ending :
  0 ≤ len ≤ u32_max → (len =? 0) || (wp_maximum profile <? len) = false →
  read_frame profile (T:=T) (mkReader (to_be_bytes len ++ rest) ending) =
  bind (read_exact (wp_read_payload profile) (Z.to_nat len))
    (λ payload, lift (rbind (ok_or (wp_decode profile) (from_slice payload)) (λ v, Ok (Some v))))
    (mkReader rest ending).
Proof.
  intros Hlen Hb. pose proof (from_to_be_bytes len ltac:(unfold u32_max in *; lia)) as Heq.
  unfold to_be_bytes in *. unfold read_frame. erewrite bind_ok by reflexivity. cbv iota.
  erewrite bind_ok by reflexivity. cbn [rd_bytes firstn skipn rd_end app].
  rewrite take_0, drop_0, Heq, Hb. done.
Qed.

(** What a message that can be sent looks like on the stream. *)
Lemma frame_of_ok v b :
  frame_of v = Some b →
  ∃ payload, to_vec v = Some payload ∧ let len := Z.of_nat (length payload) in
    b = to_be_bytes len ++ payload ∧ 0 ≤ len ≤ u32_max ∧
    (len =? 0) || (wp_maximum profile <? len) = false.
Proof.
  unfold frame_of. destruct (to_vec v) as [payload|]; [|done]. cbv zeta.
  destruct (_ || _ || _) eqn:Hb; [done|]. intros [= <-]. exists payload.
  rewrite !orb_false_iff in Hb. destruct Hb as [[H1%Z.ltb_ge H2] H3].
  split_and!; [done|done|lia|done|by rewrite H2, H3].
Qed.

(** Reading a whole frame, or less than one. *)
Lemma read_frame_whole v b rest ending :
  frame_of v = Some b →
  read_frame profile (mkReader (b ++ rest) ending) = (Ok (Some v), mkReader rest ending).
Proof.
  intros (payload & Hp & -> & Hlen & Hb)%frame_of_ok. rewrite <- app_assoc, read_frame_header by done.
  unfold bind, read_exact, lift. cbn [rd_bytes rd_end].
  rewrite Nat2Z.id, length_app, (proj2 (Nat.leb_le _ _)) by lia.
  by rewrite take_app_length, drop_app_length, (from_slice_to_vec _ _ Hp).
Qed.

Lemma read_frame_partial v b k ending :
  frame_of v = Some b → (k < length b)%nat →
  ∃ res r', read_frame profile (T:=T) (mkReader (take k b) ending) = (res, r') ∧
    match res with
    | Ok None => k = 0%nat ∧ ending = Eof
    | Ok (Some _) => False
    | Err _ => k ≠ 0%nat ∨ ending = Broken
    end.
Proof.
  intros (payload & Hp & -> & Hlen & Hb)%frame_of_ok. rewrite length_app.
  change (length (to_be_bytes _)) with 4%nat. intros Hk.
  do 2 eexists. split; [apply surjective_pairing|].
  destruct (decide (k < 4)%nat) as [Hk4|Hk4].
  - destruct k as [|[|[|[|k]]]]; [|cbn; by auto..|lia]. cbn. destruct ending; cbn; auto.
  - rewrite take_app_ge by (change (length (to_be_bytes _)) with 4%nat; lia).
    rewrite read_frame_header by done. change (length (to_be_bytes _)) with 4%nat.
    unfold bind, read_exact, lift. cbn [rd_bytes rd_end].
    rewrite Nat2Z.id, length_take, (proj2 (Nat.leb_gt _ _)) by lia. simpl. left. lia.
Qed.

Lemma frame_nonempty v b : frame_of v = Some b → (0 < length b)%nat.
Proof.
  unfold frame_of. destruct (to_vec v); [|done]. cbv zeta. destruct (_ || _ || _); [done|].
  intros [= <-]. simpl. lia.
Qed.

(** Any prefix of the frames of a sequence decodes to a prefix of it. *)
Lemma read_frames_prefix vs k ending fuel :
  Forall sendable vs → (length (take k (frames_of vs)) < fuel)%nat →
  ∃ n last, read_frames profile fuel (mkReader (take k (frames_of vs)) ending) = (take n vs, last) ∧
    (last = Ok None ↔ ending = Eof ∧ take k (frames_of vs) = frames_of (take n vs)) ∧
    last ≠ Ok (Some ()) ∧ ((length (frames_of vs) ≤ k)%nat → (length vs ≤ n)%nat).
Proof.
  intros Hall. revert k fuel. induction Hall as [|v vs [b Hb] Hall IH]; intros k fuel Hfuel.
  - destruct fuel as [|fuel]; [lia|]. change (frames_of []) with (@nil Z). rewrite take_nil.
    exists 0%nat. destruct ending; eexists; (split; [reflexivity|]); split_and!; try done; naive_solver.
  - destruct fuel as [|fuel]; [lia|]. rewrite (frames_of_cons v vs b Hb) in *.
    pose proof (frame_nonempty v b Hb).
    destruct (decide (length b ≤ k)%nat) as [Hk|Hk].
    + rewrite take_app_ge in * by lia. rewrite length_app in Hfuel.
      destruct (IH (k - length b)%nat fuel) as (n & last & Hread & Hlast & Hne & Hn); [lia|].
      exists (S n), last. cbn [read_frames]. rewrite (read_frame_whole v b _ _ Hb), Hread.
      split_and!; [done| |done|].
      * rewrite Hlast. cbn [take]. rewrite (frames_of_cons v _ b Hb). split; [intros [? ->]; done|].
        intros [? E%app_inv_head]. done.
      * rewrite length_app. simpl. lia.
    + rewrite take_app_le in * by lia.
      destruct (read_frame_partial v b k ending Hb) as (res & r' & Hread & Hres); [lia|].
      exists 0%nat. cbn [read_frames]. rewrite Hread.
      assert (take k b = frames_of (take 0 (v :: vs)) ↔ k = 0%nat) as Hzero.
      { cbn. split; [|by intros ->]. intros E. destruct k, b; simpl in *; [done..|lia|done]. }
      destruct res as [[u|]|e]; [done| |].
      * eexists. split; [reflexivity|]. rewrite Hzero. split_and!; [naive_solver|done|].
        rewrite length_app. simpl. lia.
      * eexists. split; [reflexivity|]. rewrite Hzero. split_and!; [|done|].
        -- split; [done|]. intros [-> ->]. destruct Hres; done.
        -- rewrite length_app. simpl. lia.
Qed.

(** C23: Framed transport: whatever the sender's stream does (it may fail after any
    byte or at a flush) and however much of it arrives before the receiver
    sees an end of file or an I/O failure, the receiver decodes exactly the
    first messages that were sent, reports a clean end only between two
    messages, and receives all of them when every write succeeded and nothing
    was lost. *)
Theorem wire_delivers_prefix vs budget flushes cut ending :
  let '(sent, w) := write_frames profile vs (mkWriter [] budget flushes) in
  let arrived := take cut (wr_bytes w) in
  ∃ n last,
    read_frames profile (S (length arrived)) (mkReader arrived ending) = (take n vs, last) ∧
    last ≠ Ok (Some ()) ∧
    (last = Ok None ↔ ending = Eof ∧ arrived = frames_of (take n vs)) ∧
    (sent = Ok () → (length (wr_bytes w) ≤ cut)%nat → take n vs = vs).
Proof.
  destruct (write_frames profile vs _) as [r w] eqn:Hw. intros arrived.
  destruct (write_frames_good _ _ _ _ _ Hw) as (good & k & Hpre & Hs & Ek & Hok).
  assert (arrived = take (Nat.min cut k) (frames_of good)) as Harr
    by (unfold arrived; by rewrite Ek, take_take).
  rewrite Harr. destruct (read_frames_prefix good (Nat.min cut k) ending
    (S (length (take (Nat.min cut k) (frames_of good))))) as (n & last & Hread & Hlast & Hne & Hn);
    [done|lia|].
  assert (take n good = take (Nat.min n (length good)) vs) as Htake.
  { destruct Hpre as [tail ->]. rewrite take_app_le by lia. rewrite <- (firstn_all good) at 1.
    by rewrite take_take. }
  exists (Nat.min n (length good)), last. rewrite <- Htake. split_and!; [done..|].
  intros Hr Hcut. destruct (Hok Hr) as [-> Hbytes]. rewrite take_ge; [done|]. apply Hn.
  apply (f_equal length) in Ek. rewrite Hbytes in *. rewrite length_take in Ek. lia.
Qed.
End delivery.

(** ** A concrete exchange *)

(** Text carried as it is. *)
#[local] Instance raw_json : Json bytes := { to_vec := Some; from_slice := Some }.
#[local] Instance raw_json_laws : JsonLaws bytes.
Proof. constructor. by intros v b [= ->]. Qed.

(** The theorem at two messages of which the stream carries seven bytes: the
    first arrives, the second is reported as an error. *)
Lemma wire_delivers_prefix_witness :
  ∃ n last, read_frames agent_wire 8 (mkReader [0; 0; 0; 2; 7; 8; 0] Eof) = (take n [[7; 8]; [9]], last) ∧
    take n [[7; 8]; [9]] = [[7; 8]] ∧ last ≠ Ok None ∧ last ≠ Ok (Some ()).
Proof.
  pose proof (wire_delivers_prefix agent_wire [[7; 8]; [9]] (Some 7%nat) true 100 Eof) as H.
  destruct (write_frames agent_wire [[7; 8]; [9]] (mkWriter [] (Some 7%nat) true)) as [r w] eqn:E.
  vm_compute in E. injection E as <- <-. destruct H as (n & last & Hread & Hne & _ & _).
  exists n, last. simpl in Hread. split; [exact Hread|]. vm_compute in Hread.
  assert (take n [[7; 8]; [9]] = [[7; 8]] ∧ last = Err (wp_read_length agent_wire)) as [-> ->].
  { split; by injection Hread. }
  split_and!; [done|discriminate..].
Defined.
