(* ===== verification/AgentModel.v ===== *)
(** * Host-to-guest protocol: messages and their validation
    (agent-protocol/src/model.rs and validation.rs)

    Versions, operations, capabilities, the session token, every request and
    response and the checks both ends run on them.  Bundle parsing, schema
    validation, base64 and the Unicode tables are operations of [AgentEnv]:
    they are other components or third-party code. *)

From stdpp Require Import base gmap list strings.
From S2P Require Import Prelude Collections Sdk Identifiers OutputBuffer Wire.
From Stdlib Require Import Ascii ZArith Lia.

Local Open Scope string_scope.
Local Open Scope list_scope.
Local Open Scope Z_scope.

Definition AGENT_PROTOCOL_VERSION_MIN : Z := 1.
Definition AGENT_PROTOCOL_VERSION_MAX : Z := 10.
Definition AGENT_MAX_IO_PAYLOAD_BYTES : Z := 4 * 1024 * 1024.
Definition AGENT_MAX_ACKNOWLEDGED_OPERATIONS : Z := 4096.
Definition AGENT_SESSION_TOKEN_BYTES : nat := 32.
Definition MAX_GUEST_PATH_BYTES : Z := 4096.
Definition MAX_CAPABILITY_TEXT_BYTES : Z := 128.

Definition protocol_error (c : ErrorCode) (msg : string) : Error :=
  for_operation (error_new c msg) "agent-protocol".

Class AgentEnv : Type := {
  bundle_from_json : string → string → Result OciBundle;
  attachments_from_bundle : OciBundle → ProcessIo → Result CreateAttachments;
  create_request_validate : CreateRequest → Result ();
  validate_process : OciProcess → Result ();
  validate_linux_resources : string → Result ();
  base64_decoded_len : string → option Z;
  has_control : string → bool;
  has_control_or_space : string → bool
}.

(** ** Session tokens *)

Record SessionToken : Type := mkToken { tk_bytes : bytes }.
#[global] Instance SessionToken_eq_dec : EqDecision SessionToken.
Proof. solve_decision. Defined.

Definition token_from_bytes (b : bytes) : Result SessionToken :=
  if forallb (λ x, x =? 0) b
  then Err (for_operation (error_new InvalidArgument "agent session token must not be all zero")
         "construct-agent-session-token")
  else Ok (mkToken b).

(** [u8::is_ascii_hexdigit] and the value of a hexadecimal digit. *)
Definition hex_value (c : Ascii.ascii) : option Z :=
  let n := Z.of_N (Ascii.N_of_ascii c) in
  if (48 <=? n) && (n <=? 57) then Some (n - 48)
  else if (97 <=? n) && (n <=? 102) then Some (n - 87)
  else if (65 <=? n) && (n <=? 70) then Some (n - 55)
  else None.
Definition is_ascii_hexdigit (c : Ascii.ascii) : bool := bool_decide (is_Some (hex_value c)).

(** The pairs of digits of a text of even length. *)
Fixpoint hex_pairs (s : list Ascii.ascii) : option bytes :=
  match s with
  | [] => Some []
  | h :: l :: rest =>
      match hex_value h, hex_value l, hex_pairs rest with
      | Some a, Some b, Some bs => Some (a * 16 + b :: bs)
      | _, _, _ => None
      end
  | _ => None
  end.

Definition token_from_hex (encoded : string) : Result SessionToken :=
  let invalid msg := for_operation (error_new InvalidArgument msg) "decode-agent-session-token" in
  let chars := String.list_ascii_of_string encoded in
  check! reject_if (negb (length chars =? AGENT_SESSION_TOKEN_BYTES * 2)%nat
                    || negb (forallb is_ascii_hexdigit chars))
    (invalid "agent session token must contain exactly 64 hexadecimal characters");
  try! b := ok_or (invalid "agent session token contains invalid hexadecimal: {error}")
    (hex_pairs chars) in
  token_from_bytes b.

(** [write!(f, "{byte:02x}")] *)
Definition hex_digit (n : Z) : Ascii.ascii :=
  Ascii.ascii_of_N (Z.to_N (if n <? 10 then 48 + n else 87 + n)).
Fixpoint hex_chars (b : bytes) : list Ascii.ascii :=
  match b with
  | [] => []
  | x :: rest => hex_digit (x / 16) :: hex_digit (x mod 16) :: hex_chars rest
  end.
Definition hex_text (b : bytes) : string := String.string_of_list_ascii (hex_chars b).
Definition expose_hex (t : SessionToken) : string := hex_text (tk_bytes t).

(** [SessionToken::matches]: the fold of the differences. *)
Definition token_matches (t candidate : SessionToken) : bool :=
  foldl (λ difference p, Z.lor difference (Z.lxor p.1 p.2)) 0 (zip (tk_bytes t) (tk_bytes candidate)) =? 0.

(** ** Guest paths *)

(** [str::split('/')]: always at least one component. *)
Fixpoint split_slash (s : string) : list string :=
  match s with
  | EmptyString => [""]
  | String c rest =>
      if bool_decide (c = "/"%char) then "" :: split_slash rest
      else match split_slash rest with
           | [] => [String c ""]
           | first :: others => String c first :: others
           end
  end.
Fixpoint string_contains (c : Ascii.ascii) (s : string) : bool :=
  match s with
  | EmptyString => false
  | String d rest => bool_decide (c = d) || string_contains c rest
  end.
Definition ends_with_slash (s : string) : bool :=
  match last (String.list_ascii_of_string s) with
  | Some c => bool_decide (c = "/"%char)
  | None => false
  end.

Definition validate_guest_path (value : string) : Result () :=
  check! reject_if (bool_decide (value = "") || negb (starts_with "/" value)
                    || (MAX_GUEST_PATH_BYTES <? byte_len value) || contains_nul value
                    || string_contains "\"%char value)
    (protocol_error InvalidArgument "guest path must be an absolute Linux path of at most 4096 bytes");
  if bool_decide (value = "/") then Ok ()
  else
    check! reject_if (ends_with_slash value)
      (protocol_error InvalidArgument "guest path must not contain a trailing separator");
    reject_if (existsb (λ component, bool_decide (component = "") || bool_decide (component = ".")
                 || bool_decide (component = "..")) (drop 1 (split_slash value)))
      (protocol_error InvalidArgument
         "guest path must be normalized and must not contain dot components").

Record GuestPath : Type := mkGuestPath { gp_value : string }.
Definition guest_path_new (value : string) : Result GuestPath :=
  check! validate_guest_path value; Ok (mkGuestPath value).

(** ** Operations and capabilities *)

Inductive AgentOperation : Type :=
  | OpCreate | OpState | OpStart | OpKill | OpDelete | OpWait | OpExec | OpSignalProcess
  | OpWaitProcess | OpPause | OpResume | OpProcesses | OpUpdate | OpStats | OpReadOutput
  | OpWriteStdin | OpCloseStdin | OpResize | OpFile | OpFilesystem | OpAcknowledgeOperations.
#[global] Instance AgentOperation_eq_dec : EqDecision AgentOperation.
Proof. solve_decision. Defined.

Definition AgentOperation_ALL : list AgentOperation :=
  [ OpCreate; OpState; OpStart; OpKill; OpDelete; OpWait; OpExec; OpSignalProcess; OpWaitProcess;
    OpPause; OpResume; OpProcesses; OpUpdate; OpStats; OpReadOutput; OpWriteStdin; OpCloseStdin;
    OpResize; OpFile; OpFilesystem; OpAcknowledgeOperations ].

Definition operation_minimum_version (op : AgentOperation) : Z :=
  match op with
  | OpCreate | OpState | OpStart | OpKill | OpDelete => 1
  | OpWait => 2
  | OpExec | OpSignalProcess | OpWaitProcess => 3
  | OpPause | OpResume | OpProcesses => 4
  | OpUpdate | OpStats => 5
  | OpReadOutput | OpWriteStdin | OpCloseStdin => 6
  | OpResize => 7
  | OpFile | OpFilesystem => 9
  | OpAcknowledgeOperations => 10
  end.

Definition requires_operation_id (op : AgentOperation) (version : Z) : bool :=
  match op with
  | OpState | OpWait | OpWaitProcess | OpProcesses | OpStats | OpReadOutput
  | OpAcknowledgeOperations => false
  | OpWriteStdin | OpCloseStdin | OpResize => 8 <=? version
  | OpCreate | OpStart | OpKill | OpDelete | OpExec | OpSignalProcess | OpPause | OpResume
  | OpUpdate | OpFile | OpFilesystem => true
  end.

Record AgentCapabilities : Type := mkCapabilities {
  cap_agent_version : string;
  cap_architecture : string;
  cap_operations : list AgentOperation;
  cap_max_frame_bytes : Z
}.

Section capabilities.
Context `{!AgentEnv}.

Definition validate_capability_text (value : string) : Result () :=
  reject_if (bool_decide (value = "") || (MAX_CAPABILITY_TEXT_BYTES <? byte_len value)
             || has_control value)
    (protocol_error InvalidArgument
       "{field} must contain 1..={MAX_CAPABILITY_TEXT_BYTES} printable bytes").

(** The duplicate scan: each operation against the ones before it. *)
Fixpoint duplicate_operation (before ops : list AgentOperation) : bool :=
  match ops with
  | [] => false
  | op :: rest => bool_decide (op ∈ before) || duplicate_operation (before ++ [op]) rest
  end.

Definition capabilities_validate (c : AgentCapabilities) : Result () :=
  check! validate_capability_text (cap_agent_version c);
  check! validate_capability_text (cap_architecture c);
  check! reject_if (duplicate_operation [] (cap_operations c))
    (protocol_error InvalidArgument "guest advertises duplicate operation {operation:?}");
  reject_if (negb (cap_max_frame_bytes c =? AGENT_MAX_FRAME_BYTES))
    (protocol_error InvalidArgument "agent protocol requires maxFrameBytes={AGENT_MAX_FRAME_BYTES}").

Definition capabilities_new (agent_version architecture : string)
    (operations : list AgentOperation) : Result AgentCapabilities :=
  let c := mkCapabilities agent_version architecture operations AGENT_MAX_FRAME_BYTES in
  check! capabilities_validate c; Ok c.

Definition capabilities_validate_for (c : AgentCapabilities) (version : Z) : Result () :=
  check! capabilities_validate c;
  check! reject_if (negb ((AGENT_PROTOCOL_VERSION_MIN <=? version)
                          && (version <=? AGENT_PROTOCOL_VERSION_MAX)))
    (protocol_error FailedPrecondition "unsupported agent protocol version {selected_version}");
  reject_if (existsb (λ op, version <? operation_minimum_version op) (cap_operations c))
    (protocol_error FailedPrecondition
       "protocol version {selected_version} cannot advertise {operation:?}").

Definition capabilities_for_protocol (c : AgentCapabilities) (version : Z)
    : Result AgentCapabilities :=
  let c' := mkCapabilities (cap_agent_version c) (cap_architecture c)
    (filter (λ op, operation_minimum_version op ≤ version) (cap_operations c))
    (cap_max_frame_bytes c) in
  check! capabilities_validate_for c' version; Ok c'.
End capabilities.

Record AgentHello : Type := mkAgentHello {
  hello_selected_version : Z;
  hello_capabilities : AgentCapabilities
}.

(** ** Requests *)

Record AgentBundle : Type := mkAgentBundle {
  ab_guest_directory : GuestPath; ab_config_digest : string; ab_config_json : string
}.
Record AgentAcknowledgeOperationsRequest : Type := mkAgentAck { ak_operation_ids : list string }.
Record AgentCreateRequest : Type := mkAgentCreate {
  acr_context : OperationContext; acr_target : ContainerTarget; acr_bundle : AgentBundle;
  acr_io : ProcessIo
}.
Record AgentStateRequest : Type := mkAgentStateReq { asr_target : ContainerTarget }.
Record AgentWaitRequest : Type := mkAgentWait {
  awr_target : ContainerTarget; awr_timeout_ms : option Z
}.
Record AgentExecRequest : Type := mkAgentExec {
  aer_context : OperationContext; aer_target : ProcessTarget; aer_process : OciProcess;
  aer_io : ProcessIo
}.
Record AgentSignalProcessRequest : Type := mkAgentSignal {
  asp_context : OperationContext; asp_target : ProcessTarget; asp_signal : Z
}.
Record AgentWaitProcessRequest : Type := mkAgentWaitProcess {
  awp_target : ProcessTarget; awp_timeout_ms : option Z
}.
Record AgentContainerOperationRequest : Type := mkAgentContainerOp {
  aco_context : OperationContext; aco_target : ContainerTarget
}.
Record AgentProcessesRequest : Type := mkAgentProcesses { apr_target : ContainerTarget }.
Record AgentUpdateRequest : Type := mkAgentUpdate {
  aur_context : OperationContext; aur_target : ContainerTarget; aur_resources : string
}.
Record AgentStatsRequest : Type := mkAgentStats { ast_target : ContainerTarget }.
Record AgentReadOutputRequest : Type := mkAgentReadOutput {
  aro_process : ProcessTarget; aro_after_sequence : Z; aro_max_bytes : Z;
  aro_wait_timeout_ms : option Z
}.
Record AgentWriteStdinRequest : Type := mkAgentWriteStdin {
  aws_context : option OperationContext; aws_process : ProcessTarget; aws_data : bytes
}.
Record AgentCloseStdinRequest : Type := mkAgentCloseStdin {
  acs_context : option OperationContext; acs_process : ProcessTarget
}.
Record AgentResizeRequest : Type := mkAgentResize {
  arz_context : option OperationContext; arz_process : ProcessTarget; arz_size : TerminalSize
}.
Record AgentStartRequest : Type := mkAgentStart {
  ass_context : OperationContext; ass_target : ContainerTarget; ass_expected_config_digest : string
}.
Record AgentKillRequest : Type := mkAgentKill {
  akr_context : OperationContext; akr_target : ContainerTarget; akr_signal : Z; akr_all : bool
}.
Record AgentDeleteRequest : Type := mkAgentDelete {
  adr_context : OperationContext; adr_target : ContainerTarget; adr_mode : DeleteMode
}.

Inductive AgentRequest : Type :=
  | ReqCreate (r : AgentCreateRequest)
  | ReqState (r : AgentStateRequest)
  | ReqStart (r : AgentStartRequest)
  | ReqKill (r : AgentKillRequest)
  | ReqDelete (r : AgentDeleteRequest)
  | ReqWait (r : AgentWaitRequest)
  | ReqExec (r : AgentExecRequest)
  | ReqSignalProcess (r : AgentSignalProcessRequest)
  | ReqWaitProcess (r : AgentWaitProcessRequest)
  | ReqPause (r : AgentContainerOperationRequest)
  | ReqResume (r : AgentContainerOperationRequest)
  | ReqProcesses (r : AgentProcessesRequest)
  | ReqUpdate (r : AgentUpdateRequest)
  | ReqStats (r : AgentStatsRequest)
  | ReqReadOutput (r : AgentReadOutputRequest)
  | ReqWriteStdin (r : AgentWriteStdinRequest)
  | ReqCloseStdin (r : AgentCloseStdinRequest)
  | ReqResize (r : AgentResizeRequest)
  | ReqFile (r : FileRequest)
  | ReqFilesystem (r : FilesystemRequest)
  | ReqAcknowledgeOperations (r : AgentAcknowledgeOperationsRequest).

Definition request_operation (r : AgentRequest) : AgentOperation :=
  match r with
  | ReqCreate _ => OpCreate | ReqState _ => OpState | ReqStart _ => OpStart | ReqKill _ => OpKill
  | ReqDelete _ => OpDelete | ReqWait _ => OpWait | ReqExec _ => OpExec
  | ReqSignalProcess _ => OpSignalProcess | ReqWaitProcess _ => OpWaitProcess
  | ReqPause _ => OpPause | ReqResume _ => OpResume | ReqProcesses _ => OpProcesses
  | ReqUpdate _ => OpUpdate | ReqStats _ => OpStats | ReqReadOutput _ => OpReadOutput
  | ReqWriteStdin _ => OpWriteStdin | ReqCloseStdin _ => OpCloseStdin | ReqResize _ => OpResize
  | ReqFile _ => OpFile | ReqFilesystem _ => OpFilesystem
  | ReqAcknowledgeOperations _ => OpAcknowledgeOperations
  end.

Definition request_operation_id (r : AgentRequest) : option string :=
  match r with
  | ReqCreate r => Some (oc_operation_id (acr_context r))
  | ReqStart r => Some (oc_operation_id (ass_context r))
  | ReqKill r => Some (oc_operation_id (akr_context r))
  | ReqDelete r => Some (oc_operation_id (adr_context r))
  | ReqExec r => Some (oc_operation_id (aer_context r))
  | ReqSignalProcess r => Some (oc_operation_id (asp_context r))
  | ReqPause r | ReqResume r => Some (oc_operation_id (aco_context r))
  | ReqUpdate r => Some (oc_operation_id (aur_context r))
  | ReqWriteStdin r => oc_operation_id <$> aws_context r
  | ReqCloseStdin r => oc_operation_id <$> acs_context r
  | ReqResize r => oc_operation_id <$> arz_context r
  | ReqFile r => oc_operation_id <$> file_context r
  | ReqFilesystem r => oc_operation_id <$> fs_context r
  | ReqState _ | ReqWait _ | ReqWaitProcess _ | ReqProcesses _ | ReqStats _ | ReqReadOutput _
  | ReqAcknowledgeOperations _ => None
  end.

(** ** Responses *)

Record AgentState : Type := mkAgentState {
  as_target : ContainerTarget; as_status : ContainerState; as_pid : option Z;
  as_config_digest : string; as_paused : bool
}.
#[global] Instance AgentState_eq_dec : EqDecision AgentState.
Proof. solve_decision. Defined.
Record AgentProcess : Type := mkAgentProcess {
  ap_target : ProcessTarget; ap_pid : Z; ap_terminal : bool
}.
#[global] Instance AgentProcess_eq_dec : EqDecision AgentProcess.
Proof. solve_decision. Defined.
Record AgentProcessSignal : Type := mkAgentProcessSignal { aps_target : ProcessTarget }.
Record AgentProcessExit : Type := mkAgentProcessExit {
  ape_target : ProcessTarget; ape_status : ExitStatus
}.

Inductive AgentResponse : Type :=
  | RespState (s : AgentState)
  | RespDeleted
  | RespExitStatus (s : ExitStatus)
  | RespProcess (p : AgentProcess)
  | RespProcessSignaled (s : AgentProcessSignal)
  | RespProcessExit (e : AgentProcessExit)
  | RespProcesses (ps : list ProcessRecord)
  | RespStats (s : ContainerStats)
  | RespOutput (chunks : list OutputChunk)
  | RespStdinWritten (t : ProcessTarget)
  | RespStdinClosed (t : ProcessTarget)
  | RespTerminalResized (t : ProcessTarget)
  | RespFile (r : FileResponse)
  | RespFilesystem (r : FilesystemResponse)
  | RespOperationsAcknowledged.

Record ProtocolRange : Type := mkRange { pr_min : Z; pr_max : Z }.
Definition range_current : ProtocolRange :=
  mkRange AGENT_PROTOCOL_VERSION_MIN AGENT_PROTOCOL_VERSION_MAX.
Definition range_validate (r : ProtocolRange) : Result () :=
  reject_if ((pr_min r =? 0) || (pr_max r <? pr_min r))
    (protocol_error InvalidArgument "invalid agent protocol range {}..={}").

Record HostHello : Type := mkHostHello { hh_protocols : ProtocolRange; hh_token : SessionToken }.
Inductive HelloOutcome : Type := HelloAccepted (hello : AgentHello) | HelloRejected (error : Error).
Record RequestEnvelope : Type := mkRequestEnvelope {
  re_version : Z; re_request_id : Z; re_request : AgentRequest
}.
Inductive ResponseOutcome : Type := Succeeded (response : AgentResponse) | Failed (error : Error).
Record ResponseEnvelope : Type := mkResponseEnvelope {
  rs_version : Z; rs_request_id : Z; rs_outcome : ResponseOutcome
}.

(** * Host-to-guest protocol: validation (agent-protocol/src/validation.rs and
    the response matching of client.rs) *)

Definition validate_exact_target (t : ContainerTarget) : Result () :=
  match ct_generation t with
  | Some g => if 0 <? g then Ok () else Err (protocol_error InvalidArgument
      "guest request for container {} must carry a positive exact generation")
  | None => Err (protocol_error InvalidArgument
      "guest request for container {} must carry a positive exact generation")
  end.
Definition validate_exact_process_target (t : ProcessTarget) : Result () :=
  validate_exact_target (pt_container t).

Definition invalid_digest : Error :=
  protocol_error InvalidArgument "configuration digest must be canonical lowercase sha256:<64 hex>".
(** [strip_prefix("sha256:")] *)
Definition strip_digest_prefix (value : string) : option string :=
  if starts_with "sha256:" value
  then Some (String.substring 7 (String.length value - 7) value) else None.
Definition is_lower_hex_digit (c : ascii) : bool :=
  let n := Z.of_N (N_of_ascii c) in
  is_ascii_hexdigit c && negb ((65 <=? n) && (n <=? 90)).
Definition validate_digest (value : string) : Result () :=
  match strip_digest_prefix value with
  | None => Err invalid_digest
  | Some hex => reject_if (negb (byte_len hex =? 64)
                           || negb (forallb is_lower_hex_digit (String.list_ascii_of_string hex)))
                  invalid_digest
  end.

Definition validate_ack (r : AgentAcknowledgeOperationsRequest) : Result () :=
  let ids := ak_operation_ids r in
  check! reject_if (bool_decide (ids = [])) (protocol_error InvalidArgument
    "agent operation acknowledgement must contain at least one identity");
  check! reject_if (AGENT_MAX_ACKNOWLEDGED_OPERATIONS <? Z.of_nat (length ids))
    (protocol_error ResourceExhausted
       "agent operation acknowledgement contains {} identities; maximum is {AGENT_MAX_ACKNOWLEDGED_OPERATIONS}");
  reject_if (negb (size (list_to_set (C := gset string) ids) =? length ids)%nat)
    (protocol_error InvalidArgument "agent operation acknowledgement contains a duplicate identity").

(** [validate_process_io_context] *)
Definition validate_process_io_context (version : Z) (context : option OperationContext) : Result () :=
  match 8 <=? version, context with
  | true, Some _ | false, None => Ok ()
  | true, None => Err (protocol_error InvalidArgument
      "agent protocol version 8 process-I/O mutations require operation context")
  | false, Some _ => Err (protocol_error Unsupported
      "process-I/O operation context requires agent protocol version 8")
  end.

Section requests.
Context `{!AgentEnv}.

(** [AgentBundle::validate] with the host's validation directory. *)
Definition bundle_validate (b : AgentBundle) : Result OciBundle :=
  try! bundle := bundle_from_json "/a3s-agent-protocol-validation" (ab_config_json b) in
  if bool_decide (bundle_config_digest bundle = ab_config_digest b) then Ok bundle
  else Err (protocol_error InvalidArgument
         "agent bundle digest mismatch: calculated {}, received {}").

Definition validate_agent_create (r : AgentCreateRequest) : Result () :=
  check! validate_exact_target (acr_target r);
  try! bundle := bundle_validate (acr_bundle r) in
  try! attachments := attachments_from_bundle bundle (acr_io r) in
  create_request_validate (mkCreateRequest (acr_context r) (ct_id (acr_target r)) bundle
    RequestDedicatedVm attachments).

(** [ExecRequest::validate] of the SDK. *)
Definition exec_request_validate (process_id : string) (process : OciProcess) (io : ProcessIo)
    : Result () :=
  check! reject_if (is_init process_id)
    (invalid_request "exec.process_id `init` is reserved for the container's configured process");
  check! validate_process process;
  check! resolve_for_process io process; Ok ().

Definition validate_agent_exec (r : AgentExecRequest) : Result () :=
  check! validate_exact_process_target (aer_target r);
  exec_request_validate (pt_process_id (aer_target r)) (aer_process r) (aer_io r).

Definition validate_agent_update (r : AgentUpdateRequest) : Result () :=
  check! validate_exact_target (aur_target r);
  validate_linux_resources (aur_resources r).

Definition validate_agent_read_output (r : AgentReadOutputRequest) : Result () :=
  check! validate_exact_process_target (aro_process r);
  check! reject_if (AGENT_MAX_IO_PAYLOAD_BYTES <? aro_max_bytes r)
    (protocol_error ResourceExhausted
       "agent read-output maxBytes is {}; maximum is {AGENT_MAX_IO_PAYLOAD_BYTES}");
  validate_positive_bounded (aro_max_bytes r) MAX_OUTPUT_READ_BYTES.

Definition validate_agent_write_stdin (r : AgentWriteStdinRequest) : Result () :=
  check! validate_exact_process_target (aws_process r);
  reject_if (AGENT_MAX_IO_PAYLOAD_BYTES <? data_len (aws_data r))
    (protocol_error ResourceExhausted
       "agent write-stdin payload is {} bytes; maximum is {AGENT_MAX_IO_PAYLOAD_BYTES}").

Definition validate_agent_resize (r : AgentResizeRequest) : Result () :=
  check! validate_exact_process_target (arz_process r);
  reject_if ((ts_width (arz_size r) =? 0) || (ts_height (arz_size r) =? 0))
    (protocol_error InvalidArgument "agent resize width and height must both be positive").

Definition validate_agent_start (r : AgentStartRequest) : Result () :=
  check! validate_exact_target (ass_target r);
  validate_digest (ass_expected_config_digest r).

Definition request_validate (r : AgentRequest) : Result () :=
  match r with
  | ReqCreate r => validate_agent_create r
  | ReqState r => validate_exact_target (asr_target r)
  | ReqStart r => validate_agent_start r
  | ReqKill r => validate_exact_target (akr_target r)
  | ReqDelete r => validate_exact_target (adr_target r)
  | ReqWait r => validate_exact_target (awr_target r)
  | ReqExec r => validate_agent_exec r
  | ReqSignalProcess r => validate_exact_process_target (asp_target r)
  | ReqWaitProcess r => validate_exact_process_target (awp_target r)
  | ReqPause r | ReqResume r => validate_exact_target (aco_target r)
  | ReqProcesses r => validate_exact_target (apr_target r)
  | ReqUpdate r => validate_agent_update r
  | ReqStats r => validate_exact_target (ast_target r)
  | ReqReadOutput r => validate_agent_read_output r
  | ReqWriteStdin r => validate_agent_write_stdin r
  | ReqCloseStdin r => validate_exact_process_target (acs_process r)
  | ReqResize r => validate_agent_resize r
  | ReqFile r => check! validate_file_request base64_decoded_len r; validate_exact_target (file_target r)
  | ReqFilesystem r => check! validate_filesystem_request r; validate_exact_target (fs_target r)
  | ReqAcknowledgeOperations r => validate_ack r
  end.

Definition request_minimum_version (r : AgentRequest) : Z :=
  match r with
  | ReqCreate _ | ReqState _ | ReqStart _ | ReqKill _ | ReqDelete _ => 1
  | ReqWait _ => 2
  | ReqExec _ | ReqSignalProcess _ | ReqWaitProcess _ => 3
  | ReqPause _ | ReqResume _ | ReqProcesses _ => 4
  | ReqUpdate _ | ReqStats _ => 5
  | ReqReadOutput _ | ReqWriteStdin _ | ReqCloseStdin _ => 6
  | ReqResize _ => 7
  | ReqFile _ | ReqFilesystem _ => 9
  | ReqAcknowledgeOperations _ => 10
  end.

Definition request_validate_for (r : AgentRequest) (version : Z) : Result () :=
  check! reject_if (version <? request_minimum_version r)
    (protocol_error Unsupported
       "agent request requires protocol version {}, negotiated {selected_version}");
  check! match r with
         | ReqWriteStdin r => validate_process_io_context version (aws_context r)
         | ReqCloseStdin r => validate_process_io_context version (acs_context r)
         | ReqResize r => validate_process_io_context version (arz_context r)
         | _ => Ok ()
         end;
  request_validate r.
End requests.

(** ** Responses *)

Definition state_validate (s : AgentState) : Result () :=
  check! validate_exact_target (as_target s);
  check! validate_digest (as_config_digest s);
  let invalid := Err (protocol_error InvalidArgument
    "guest returned invalid OCI state {status} with PID {pid:?} and paused={paused}") in
  match as_status s, as_pid s, as_paused s with
  | Created, Some pid, false => if 0 <? pid then Ok () else invalid
  | Running, Some pid, _ => if 0 <? pid then Ok () else invalid
  | Stopped, None, false => Ok ()
  | _, _, _ => invalid
  end.

(** [AgentState::new_with_pause] *)
Definition state_new (target : ContainerTarget) (status : ContainerState) (pid : option Z)
    (config_digest : string) (paused : bool) : Result AgentState :=
  let s := mkAgentState target status pid config_digest paused in
  check! state_validate s; Ok s.

Definition process_validate (p : AgentProcess) : Result () :=
  check! validate_exact_process_target (ap_target p);
  check! reject_if (is_init (pt_process_id (ap_target p)))
    (protocol_error InvalidArgument "exec response cannot use the reserved init process ID");
  reject_if (ap_pid p <=? 0)
    (protocol_error InvalidArgument "guest returned invalid exec process PID {}").
(** [AgentProcess::new] *)
Definition process_new (target : ProcessTarget) (pid : Z) (terminal : bool) : Result AgentProcess :=
  let p := mkAgentProcess target pid terminal in
  check! process_validate p; Ok p.
Definition process_signal_new (target : ProcessTarget) : Result AgentProcessSignal :=
  check! validate_exact_process_target target; Ok (mkAgentProcessSignal target).
Definition process_exit_new (target : ProcessTarget) (status : ExitStatus) : Result AgentProcessExit :=
  check! validate_exact_process_target target;
  check! exit_status_validate status;
  Ok (mkAgentProcessExit target status).

Fixpoint validate_processes_from (before ps : list ProcessRecord) : Result () :=
  match ps with
  | [] => Ok ()
  | p :: rest =>
      check! validate_exact_process_target (pr_target p);
      check! reject_if (match pr_pid p with None => true | Some pid => pid =? 0 end)
        (protocol_error InvalidArgument "guest process inventory returned no live PID for {}");
      check! reject_if (existsb (λ c, bool_decide (pr_target c = pr_target p)) before)
        (protocol_error InvalidArgument "guest process inventory returned duplicate process {}");
      validate_processes_from (before ++ [p]) rest
  end.
Definition validate_processes (ps : list ProcessRecord) : Result () := validate_processes_from [] ps.

(** The cursor width of a chunk: its bytes, or one position for an end. *)
Definition chunk_width (c : OutputChunk) : Z := if oc_eof c then 1 else data_len (oc_data c).

Fixpoint validate_chunks_from (previous : option Z) (total : Z) (chunks : list OutputChunk) : Result Z :=
  match chunks with
  | [] => Ok total
  | c :: rest =>
      check! reject_if (oc_sequence c =? 0) (protocol_error InvalidArgument
        "guest output chunks must have strictly increasing positive sequences");
      check! reject_if (negb (oc_eof c) && bool_decide (oc_data c = [])) (protocol_error InvalidArgument
        "guest output data chunks must not be empty");
      check! reject_if (oc_eof c && negb (bool_decide (oc_data c = []))) (protocol_error InvalidArgument
        "guest output EOF chunks must not contain data");
      check! match previous with
             | None => Ok ()
             | Some previous =>
                 try! expected := ok_or (protocol_error ResourceExhausted
                   "guest output sequence space is exhausted")
                   (checked_add_u64 previous (chunk_width c)) in
                 reject_if (negb (oc_sequence c =? expected)) (protocol_error InvalidArgument
                   "guest output chunks are not byte-cursor contiguous")
             end;
      try! total := ok_or (protocol_error ResourceExhausted
        "guest output response byte count overflowed") (checked_add_u64 total (data_len (oc_data c))) in
      validate_chunks_from (Some (oc_sequence c)) total rest
  end.
Definition validate_output_chunks (chunks : list OutputChunk) : Result () :=
  try! total := validate_chunks_from None 0 chunks in
  reject_if (AGENT_MAX_IO_PAYLOAD_BYTES <? total) (protocol_error ResourceExhausted
    "guest output response contains {total_bytes} bytes; maximum is {AGENT_MAX_IO_PAYLOAD_BYTES}").

Section responses.
Context `{!AgentEnv}.

Definition response_validate (r : AgentResponse) : Result () :=
  match r with
  | RespState s => state_validate s
  | RespDeleted => Ok ()
  | RespExitStatus s => exit_status_validate s
  | RespProcess p => process_validate p
  | RespProcessSignaled s => validate_exact_process_target (aps_target s)
  | RespProcessExit e =>
      check! validate_exact_process_target (ape_target e); exit_status_validate (ape_status e)
  | RespProcesses ps => validate_processes ps
  | RespStats s => container_stats_validate has_control_or_space s
  | RespOutput chunks => validate_output_chunks chunks
  | RespStdinWritten t | RespStdinClosed t | RespTerminalResized t => validate_exact_process_target t
  | RespFile r => validate_exact_target (fileresp_target r)
  | RespFilesystem r => validate_exact_target (fsresp_target r)
  | RespOperationsAcknowledged => Ok ()
  end.

Definition response_minimum_version (r : AgentResponse) : Z :=
  match r with
  | RespState _ | RespDeleted => 1
  | RespExitStatus _ => 2
  | RespProcess _ | RespProcessSignaled _ | RespProcessExit _ => 3
  | RespProcesses _ => 4
  | RespStats _ => 5
  | RespOutput _ | RespStdinWritten _ | RespStdinClosed _ => 6
  | RespTerminalResized _ => 7
  | RespFile _ | RespFilesystem _ => 9
  | RespOperationsAcknowledged => 10
  end.
Definition response_validate_for (r : AgentResponse) (version : Z) : Result () :=
  check! reject_if (version <? response_minimum_version r)
    (protocol_error Unsupported
       "agent response requires protocol version {minimum_version}, negotiated {selected_version}");
  response_validate r.

Definition request_envelope_validate (e : RequestEnvelope) (version : Z) : Result () :=
  check! reject_if (negb (re_version e =? version)) (protocol_error FailedPrecondition
    "agent request version {} does not match negotiated version {selected_version}");
  check! reject_if (re_request_id e =? 0)
    (protocol_error InvalidArgument "agent request ID zero is reserved");
  request_validate_for (re_request e) version.

Definition response_envelope_validate (e : ResponseEnvelope) (version expected_id : Z) : Result () :=
  check! reject_if (negb (rs_version e =? version)) (protocol_error FailedPrecondition
    "agent response version {} does not match negotiated version {selected_version}");
  check! reject_if (negb (rs_request_id e =? expected_id)) (protocol_error Conflict
    "agent response ID {} does not match request ID {expected_request_id}");
  match rs_outcome e with
  | Succeeded r => response_validate_for r version
  | Failed _ => Ok ()
  end.

(** ** Matching a response to its request (client.rs) *)

Definition check_state_target (expected : ContainerTarget) (s : AgentState) : Result () :=
  if bool_decide (as_target s = expected) then Ok ()
  else Err (protocol_error Conflict "guest state target {:?} does not match request target {expected:?}").
Definition check_container_target (expected actual : ContainerTarget) : Result () :=
  if bool_decide (actual = expected) then Ok ()
  else Err (protocol_error Conflict
         "guest container target {actual:?} does not match request target {expected:?}").
Definition check_process_target (expected actual : ProcessTarget) : Result () :=
  if bool_decide (actual = expected) then Ok ()
  else Err (protocol_error Conflict
         "guest process target {actual:?} does not match request target {expected:?}").
Definition digest_mismatch : Error := protocol_error Conflict
  "guest {operation} response configuration digest does not match the request".
Definition state_mismatch : Error := protocol_error FailedPrecondition
  "guest violated OCI {operation} barrier by returning {status}".

Fixpoint match_chunks (previous total : Z) (chunks : list OutputChunk) : Result Z :=
  match chunks with
  | [] => Ok total
  | c :: rest =>
      try! expected := ok_or (protocol_error ResourceExhausted
        "guest output sequence space is exhausted") (checked_add_u64 previous (chunk_width c)) in
      check! reject_if (negb (oc_sequence c =? expected)) (protocol_error Conflict
        "guest output response returned a non-contiguous byte cursor");
      try! total := ok_or (protocol_error ResourceExhausted
        "guest output response byte count overflowed") (checked_add_u64 total (data_len (oc_data c))) in
      match_chunks (oc_sequence c) total rest
  end.

Definition validate_response_for_request (request : AgentRequest) (response : AgentResponse)
    : Result () :=
  match request, response with
  | ReqCreate r, RespState s =>
      check! check_state_target (acr_target r) s;
      check! reject_if (negb (bool_decide (as_config_digest s = ab_config_digest (acr_bundle r))))
        digest_mismatch;
      reject_if (negb (bool_decide (as_status s = Created))) state_mismatch
  | ReqState r, RespState s => check_state_target (asr_target r) s
  | ReqStart r, RespState s =>
      check! check_state_target (ass_target r) s;
      check! reject_if (negb (bool_decide (as_config_digest s = ass_expected_config_digest r)))
        digest_mismatch;
      reject_if (negb (bool_decide (as_status s = Running) || bool_decide (as_status s = Stopped)))
        state_mismatch
  | ReqKill r, RespState s => check_state_target (akr_target r) s
  | ReqDelete _, RespDeleted => Ok ()
  | ReqWait _, RespExitStatus s => exit_status_validate s
  | ReqExec r, RespProcess p =>
      check! check_process_target (aer_target r) (ap_target p);
      reject_if (negb (bool_decide (ap_terminal p = default false (proc_terminal (aer_process r)))))
        (protocol_error Conflict
           "guest exec response terminal={} does not match request terminal={expected_terminal}")
  | ReqSignalProcess r, RespProcessSignaled s => check_process_target (asp_target r) (aps_target s)
  | ReqWaitProcess r, RespProcessExit e =>
      check! check_process_target (awp_target r) (ape_target e); exit_status_validate (ape_status e)
  | ReqPause r, RespState s =>
      check! check_state_target (aco_target r) s;
      if as_paused s then Ok () else Err (protocol_error FailedPrecondition
        "guest pause response did not report a frozen container")
  | ReqResume r, RespState s =>
      check! check_state_target (aco_target r) s;
      if as_paused s then Err (protocol_error FailedPrecondition
        "guest resume response still reported a frozen container") else Ok ()
  | ReqProcesses r, RespProcesses ps =>
      reject_if (existsb (λ p, negb (bool_decide (pt_container (pr_target p) = apr_target r))) ps)
        (protocol_error Conflict "guest process {} belongs to a different container target")
  | ReqUpdate r, RespState s => check_state_target (aur_target r) s
  | ReqStats r, RespStats s =>
      if bool_decide (stats_target s = ast_target r)
      then container_stats_validate has_control_or_space s
      else Err (protocol_error Conflict
             "guest stats target {:?} does not match request target {:?}")
  | ReqReadOutput r, RespOutput chunks =>
      try! total := match_chunks (aro_after_sequence r) 0 chunks in
      reject_if (aro_max_bytes r <? total) (protocol_error ResourceExhausted
        "guest returned {total} output bytes for a {}-byte request")
  | ReqWriteStdin r, RespStdinWritten t => check_process_target (aws_process r) t
  | ReqCloseStdin r, RespStdinClosed t => check_process_target (acs_process r) t
  | ReqResize r, RespTerminalResized t => check_process_target (arz_process r) t
  | ReqFile r, RespFile s => check_container_target (file_target r) (fileresp_target s)
  | ReqFilesystem r, RespFilesystem s => check_container_target (fs_target r) (fsresp_target s)
  | ReqAcknowledgeOperations _, RespOperationsAcknowledged => Ok ()
  | _, _ => Err (protocol_error Internal "guest response {response:?} does not match request {}")
  end.
End responses.

(** ** Negotiation *)

Definition negotiate_protocol (host : ProtocolRange) : Result Z :=
  check! range_validate host;
  let minimum := Z.max (pr_min host) AGENT_PROTOCOL_VERSION_MIN in
  let maximum := Z.min (pr_max host) AGENT_PROTOCOL_VERSION_MAX in
  check! reject_if (maximum <? minimum) (protocol_error FailedPrecondition
    "no common agent protocol version: host {}..={}, guest {}..={}");
  Ok maximum.

Section hello.
Context `{!AgentEnv}.

Definition hello_validate (hello : AgentHello) (requested : ProtocolRange) : Result () :=
  check! range_validate requested;
  let v := hello_selected_version hello in
  check! reject_if ((v <? pr_min requested) || (pr_max requested <? v)
                    || (v <? AGENT_PROTOCOL_VERSION_MIN) || (AGENT_PROTOCOL_VERSION_MAX <? v))
    (protocol_error FailedPrecondition "guest selected unsupported agent protocol version {}");
  capabilities_validate_for (hello_capabilities hello) v.

(** [validate_hello] of server.rs. *)
Definition validate_hello (host : HostHello) (expected_token : SessionToken)
    (capabilities : AgentCapabilities) : Result Z :=
  check! range_validate (hh_protocols host);
  check! reject_if (negb (token_matches expected_token (hh_token host)))
    (protocol_error PermissionDenied "agent session authentication failed");
  check! capabilities_validate capabilities;
  negotiate_protocol (hh_protocols host).
End hello.
