(* ===== verification/AgentRecovery.v ===== *)
(** * The recovery report of a guest that shuts down
    (agent-protocol/src/recovery.rs)

    The guest lists the exit of every init process, sorted and unique by
    container generation, and authenticates the list with an HMAC under the
    session token; the host verifies it. *)

From stdpp Require Import base gmap list sorting strings.
From S2P Require Import Prelude Collections Sdk Wire AgentModel.
From Stdlib Require Import Ascii ZArith Lia.

Local Open Scope string_scope.
Local Open Scope list_scope.
Local Open Scope Z_scope.

Definition AGENT_RECOVERY_REPORT_SCHEMA_VERSION : Z := 1.
Definition AGENT_RECOVERY_REPORT_MAX_RECORDS : Z := 1024.
Definition AGENT_RECOVERY_REPORT_MAX_BYTES : Z := 1024 * 1024.
Definition HMAC_BLOCK_BYTES : nat := 64.
Definition HMAC_BYTES : nat := 32.
Definition AUTHENTICATION_DOMAIN : bytes := string_bytes "a3s-oci-agent-recovery-v1" ++ [0].

Definition recovery_error (c : ErrorCode) (msg : string) : Error :=
  for_operation (error_new c msg) "authenticate-agent-recovery".

(** ** Records *)

Record AgentRecoveryRecord : Type := mkRecoveryRecord {
  rr_target : ContainerTarget; rr_config_digest : string; rr_init_exit_status : ExitStatus
}.
#[global] Instance AgentRecoveryRecord_eq_dec : EqDecision AgentRecoveryRecord.
Proof. solve_decision. Defined.

Definition invalid_config_digest : Error := recovery_error InvalidArgument
  "recovery config digest must be canonical sha256:<64 lowercase hexadecimal bytes>".
(** [byte.is_ascii_digit() || matches!(byte, b'a'..=b'f')] *)
Definition is_digit_or_lower_hex (c : ascii) : bool :=
  let n := byte_of c in ((48 <=? n) && (n <=? 57)) || ((97 <=? n) && (n <=? 102)).
Definition validate_config_digest (digest : string) : Result () :=
  match strip_digest_prefix digest with
  | None => Err invalid_config_digest
  | Some hex => reject_if (negb (byte_len hex =? 64)
      || negb (forallb is_digit_or_lower_hex (String.list_ascii_of_string hex))) invalid_config_digest
  end.

Definition recovery_record_validate (r : AgentRecoveryRecord) : Result () :=
  try! g := ok_or (recovery_error InvalidArgument
    "recovery evidence requires an exact container generation") (ct_generation (rr_target r)) in
  check! reject_if (g =? 0) (recovery_error InvalidArgument
    "recovery evidence requires a positive container generation");
  check! validate_config_digest (rr_config_digest r);
  map_err (λ e, recovery_error (code e)
    "recovery evidence contains an invalid init exit status: {error}")
    (exit_status_validate (rr_init_exit_status r)).

Definition recovery_record_new (target : ContainerTarget) (digest : string) (status : ExitStatus)
    : Result AgentRecoveryRecord :=
  let r := mkRecoveryRecord target digest status in
  check! recovery_record_validate r; Ok r.

Definition recovery_key (r : AgentRecoveryRecord) : string * Z :=
  (ct_id (rr_target r), default 0 (ct_generation (rr_target r))).

(** ** Reports *)

Record AgentRecoveryReport : Type := mkReport {
  rp_schema_version : Z; rp_records : list AgentRecoveryRecord
}.

(** [sort_by]: a stable sort. *)
Fixpoint sort_insert {A B} `{Ord B} (key : A → B) (x : A) (l : list A) : list A :=
  match l with
  | [] => [x]
  | y :: l' => match cmp (key y) (key x) with
               | Lt => y :: sort_insert key x l'
               | _ => x :: y :: l'
               end
  end.
Definition sort_by {A B} `{Ord B} (key : A → B) (l : list A) : list A :=
  foldr (sort_insert key) [] l.

(** [records.windows(2)]: no pair is out of order. *)
Fixpoint sorted_unique {A B} `{Ord B} (key : A → B) (l : list A) : bool :=
  match l with
  | x :: l' => match l' with
               | y :: _ => bool_decide (cmp (key x) (key y) = Lt) && sorted_unique key l'
               | [] => true
               end
  | [] => true
  end.

Definition report_validate (r : AgentRecoveryReport) : Result () :=
  check! reject_if (negb (rp_schema_version r =? AGENT_RECOVERY_REPORT_SCHEMA_VERSION))
    (recovery_error FailedPrecondition "unsupported recovery report schema {}; expected {}");
  check! reject_if (AGENT_RECOVERY_REPORT_MAX_RECORDS <? Z.of_nat (length (rp_records r)))
    (recovery_error ResourceExhausted "recovery report contains {} records; maximum is {}");
  check! rbind (rmap recovery_record_validate (rp_records r)) (λ _, Ok ());
  reject_if (negb (sorted_unique recovery_key (rp_records r))) (recovery_error InvalidArgument
    "recovery records must be sorted and unique by exact container generation").

Definition report_new (records : list AgentRecoveryRecord) : Result AgentRecoveryReport :=
  let report := mkReport AGENT_RECOVERY_REPORT_SCHEMA_VERSION (sort_by recovery_key records) in
  check! report_validate report; Ok report.

(** ** Encoding and authentication *)

Definition validate_encoded_size (encoded : bytes) : Result () :=
  reject_if (AGENT_RECOVERY_REPORT_MAX_BYTES <? Z.of_nat (length encoded))
    (recovery_error ResourceExhausted "encoded recovery report is {} bytes; maximum is {}").
Definition encode_bounded {T} `{!Json T} (v : T) : Result bytes :=
  try! encoded := ok_or (recovery_error Internal "failed to encode {label}: {error}") (to_vec v) in
  check! validate_encoded_size encoded; Ok encoded.

Record AuthenticatedAgentRecoveryReport : Type := mkAuthenticated {
  au_report : AgentRecoveryReport; au_authentication_tag : string
}.

Section recovery.
Context `{!Sha256, !Json AgentRecoveryReport, !Json AuthenticatedAgentRecoveryReport}.

Definition report_to_json (r : AgentRecoveryReport) : Result bytes :=
  check! report_validate r; encode_bounded r.
Definition report_from_json (encoded : bytes) : Result AgentRecoveryReport :=
  check! validate_encoded_size encoded;
  try! report := ok_or (recovery_error InvalidArgument "failed to decode recovery report: {error}")
    (from_slice encoded) in
  check! report_validate report; Ok report.

Definition canonical_payload (r : AgentRecoveryReport) : Result bytes :=
  ok_or (recovery_error Internal "failed to encode recovery report payload: {error}") (to_vec r).

(** The key is XORed into a block of the pad byte. *)
Definition hmac_pad (pad : Z) (key : bytes) : bytes :=
  (λ i, Z.lxor pad (default 0 (key !! i))) <$> seq 0 HMAC_BLOCK_BYTES.
Definition hmac_sha256 (key message : bytes) : bytes :=
  let inner := sha256 (hmac_pad 54 key ++ AUTHENTICATION_DOMAIN ++ message) in
  sha256 (hmac_pad 92 key ++ inner).

Definition encode_hex (b : bytes) : string := hex_text b.
Definition decode_authentication_tag (encoded : string) : Result bytes :=
  let chars := String.list_ascii_of_string encoded in
  check! reject_if (negb (length chars =? HMAC_BYTES * 2)%nat
                    || negb (forallb is_digit_or_lower_hex chars))
    (recovery_error InvalidArgument
       "recovery authentication tag must contain 64 lowercase hexadecimal characters");
  ok_or (recovery_error InvalidArgument "recovery authentication tag is invalid: {error}")
    (hex_pairs chars).

Definition constant_time_eq (left right : bytes) : bool :=
  if negb (length left =? length right)%nat then false
  else foldl (λ difference p, Z.lor difference (Z.lxor p.1 p.2)) 0 (zip left right) =? 0.

Definition authenticate (r : AgentRecoveryReport) (token : SessionToken)
    : Result AuthenticatedAgentRecoveryReport :=
  check! report_validate r;
  try! payload := canonical_payload r in
  Ok (mkAuthenticated r (encode_hex (hmac_sha256 (tk_bytes token) payload))).

Definition authenticated_to_json (a : AuthenticatedAgentRecoveryReport) : Result bytes :=
  encode_bounded a.

Definition verify (a : AuthenticatedAgentRecoveryReport) (token : SessionToken)
    : Result AgentRecoveryReport :=
  check! report_validate (au_report a);
  try! received := decode_authentication_tag (au_authentication_tag a) in
  try! payload := canonical_payload (au_report a) in
  check! reject_if (negb (constant_time_eq received (hmac_sha256 (tk_bytes token) payload)))
    (recovery_error PermissionDenied "recovery report authentication failed");
  Ok (au_report a).

Definition verify_json (encoded : bytes) (token : SessionToken) : Result AgentRecoveryReport :=
  check! validate_encoded_size encoded;
  try! a := ok_or (recovery_error InvalidArgument
    "failed to decode authenticated recovery report: {error}") (from_slice encoded) in
  verify a token.
End recovery.

(** * The recovery report survives the handoff, and only the session's report does *)

(** ** Hexadecimal *)

Lemma byte_of_ascii n : 0 ≤ n < 256 → byte_of (ascii_of_N (Z.to_N n)) = n.
Proof. intros Hn. unfold byte_of. rewrite N_ascii_embedding by lia. lia. Qed.
Lemma byte_of_digit n : 0 ≤ n < 16 → byte_of (hex_digit n) = if n <? 10 then 48 + n else 87 + n.
Proof. intros Hn. unfold hex_digit. apply byte_of_ascii. destruct (Z.ltb_spec n 10); lia. Qed.

(** Solve a goal made of comparisons on the byte of a digit. *)
Ltac digit_cases := repeat match goal with
  | |- context [?a <=? ?b] => destruct (Z.leb_spec a b)
  | |- context [?a <? ?b] => destruct (Z.ltb_spec a b)
  | H : context [?a <=? ?b] |- _ => destruct (Z.leb_spec a b)
  | H : context [?a <? ?b] |- _ => destruct (Z.ltb_spec a b)
  end; simpl in *; try (done || lia || (f_equal; lia)).

Lemma hex_value_digit n : 0 ≤ n < 16 → hex_value (hex_digit n) = Some n.
Proof.
  intros Hn. unfold hex_value. fold (byte_of (hex_digit n)). rewrite byte_of_digit by done. digit_cases.
Qed.
Lemma hex_digit_in_range n : 0 ≤ n < 16 → is_digit_or_lower_hex (hex_digit n) = true.
Proof. intros Hn. unfold is_digit_or_lower_hex. rewrite byte_of_digit by done. digit_cases. Qed.
Lemma hex_digit_value c n :
  is_digit_or_lower_hex c = true → hex_value c = Some n → 0 ≤ n < 16 ∧ hex_digit n = c.
Proof.
  unfold is_digit_or_lower_hex, hex_value. fold (byte_of c). intros Hc Hv.
  assert (0 ≤ n < 16 ∧ byte_of c = if n <? 10 then 48 + n else 87 + n) as [Hn Hb].
  { digit_cases; simplify_eq; lia. }
  split; [done|]. apply byte_of_inj. by rewrite byte_of_digit, Hb.
Qed.

Lemma hex_pairs_chars b : Forall is_byte b →
  hex_pairs (hex_chars b) = Some b ∧ forallb is_digit_or_lower_hex (hex_chars b) = true ∧
  length (hex_chars b) = (2 * length b)%nat.
Proof.
  induction 1 as [|x b Hx Hb (IH1 & IH2 & IH3)]; [done|]. unfold is_byte in Hx.
  pose proof (Z.div_mod x 16 ltac:(lia)) as Hd.
  pose proof (Z.mod_pos_bound x 16 ltac:(lia)) as Hm.
  assert (0 ≤ x / 16 < 16) as Hq by (split; [apply Z.div_pos; lia|apply Z.div_lt_upper_bound; lia]).
  cbn [hex_chars hex_pairs forallb length].
  rewrite !hex_value_digit, IH1, !hex_digit_in_range, IH2, IH3 by done.
  split_and!; [do 2 f_equal; lia|done|lia].
Qed.

Lemma hex_pairs_inj n chars b :
  (length chars ≤ n)%nat → hex_pairs chars = Some b → forallb is_digit_or_lower_hex chars = true →
  chars = hex_chars b ∧ Forall is_byte b.
Proof.
  revert chars b. induction n as [|n IH]; intros [|h [|l rest]] b Hn Hp Hf; simplify_eq/=; try lia; try done.
  apply andb_true_iff in Hf as [Hh Hf]. apply andb_true_iff in Hf as [Hl Hf].
  destruct (hex_value h) as [x|] eqn:Ex; [|done]. destruct (hex_value l) as [y|] eqn:Ey; [|done].
  destruct (hex_pairs rest) as [bs|] eqn:Eb; [|done]. simplify_eq.
  destruct (hex_digit_value _ _ Hh Ex) as [Hx <-]. destruct (hex_digit_value _ _ Hl Ey) as [Hy <-].
  destruct (IH rest bs) as [-> Hbs]; [lia|done|done|]. simpl. split.
  - rewrite (Z.div_add_l x 16 y), (Z.div_small y 16), Z.add_0_r by lia.
    rewrite (Z.add_comm (x * 16) y), Z.mod_add, (Z.mod_small y 16) by lia. done.
  - constructor; [unfold is_byte; lia|done].
Qed.

(** ** Constant-time comparison is equality *)

Lemma fold_difference (l : list (Z * Z)) d :
  foldl (λ difference p, Z.lor difference (Z.lxor p.1 p.2)) d l = 0 ↔
  d = 0 ∧ Forall (λ p, p.1 = p.2) l.
Proof.
  revert d. induction l as [|[x y] l IH]; intros d; simpl.
  - split; [intros ->; by split|by intros [-> _]].
  - rewrite IH, Z.lor_eq_0_iff, Z.lxor_eq_0_iff, Forall_cons. naive_solver.
Qed.
Lemma zip_forall_eq (l k : bytes) : length l = length k →
  Forall (λ p, p.1 = p.2) (zip l k) ↔ l = k.
Proof.
  revert k. induction l as [|x l IH]; intros [|y k] Hlen; simplify_eq/=; [done|].
  rewrite Forall_cons, IH by done. simpl. naive_solver.
Qed.
Lemma constant_time_eq_spec l k : constant_time_eq l k = true ↔ l = k.
Proof.
  unfold constant_time_eq. destruct (Nat.eqb_spec (length l) (length k)) as [Hlen|Hne]; simpl.
  - rewrite Z.eqb_eq, fold_difference, zip_forall_eq by done. naive_solver.
  - split; [done|]. by intros ->.
Qed.

(** ** Sorting *)

Section sorting.
Context {A B : Type} `{Ord B} (key : A → B).

Definition key_le (x y : A) : Prop := cmp (key x) (key y) ≠ Gt.
#[local] Instance key_le_trans : Transitive key_le.
Proof.
  unfold key_le. intros x y z Hxy Hyz Hxz. apply cmp_gt in Hxz.
  destruct (cmp (key x) (key y)) eqn:E1; [| |done].
  - apply cmp_eq in E1. rewrite E1 in Hxz. by apply cmp_gt in Hxz.
  - apply (cmp_lt_trans _ _ _ Hxz) in E1. by apply cmp_gt in E1.
Qed.

Lemma sort_insert_perm x l : sort_insert key x l ≡ₚ x :: l.
Proof.
  induction l as [|y l IH]; simpl; [done|]. destruct (cmp (key y) (key x)); [done| |done].
  rewrite IH. constructor.
Qed.
Lemma sort_by_perm l : sort_by key l ≡ₚ l.
Proof. induction l as [|x l IH]; simpl; [done|]. by rewrite sort_insert_perm, IH. Qed.

Lemma sort_insert_sorted x l : StronglySorted key_le l → StronglySorted key_le (sort_insert key x l).
Proof.
  induction 1 as [|y l Hl IH Hy]; simpl; [repeat constructor|].
  destruct (cmp (key y) (key x)) eqn:E.
  2:{ constructor; [done|]. rewrite sort_insert_perm. constructor; [|done]. unfold key_le. by rewrite E. }
  all: assert (key_le x y) as Hxy
         by (unfold key_le; rewrite (cmp_antisym (key y) (key x)), E; done);
    constructor; [by constructor|]; constructor; [done|];
    eapply Forall_impl; [exact Hy|]; intros z Hz; by transitivity y.
Qed.
Lemma sort_by_sorted l : StronglySorted key_le (sort_by key l).
Proof. induction l as [|x l IH]; simpl; [constructor|]. by apply sort_insert_sorted. Qed.

Lemma sorted_unique_spec l : sorted_unique key l = true ↔ increasing (key <$> l).
Proof.
  induction l as [|x l IH]; [split; [constructor|done]|].
  cbn [sorted_unique fmap list_fmap]. destruct l as [|y l].
  - split; [repeat constructor|done].
  - rewrite andb_true_iff, bool_decide_eq_true, IH. split.
    + intros [Hxy Hl]. constructor; [done|]. apply StronglySorted_inv in Hl as [Hl Hy].
      constructor; [done|]. eapply Forall_impl; [exact Hy|]. intros z Hz. by eapply cmp_lt_trans.
    + intros [Hl Hx]%StronglySorted_inv. apply Forall_cons in Hx as [Hxy _]. done.
Qed.

(** Unique keys: the sorted list does not depend on the order given. *)
Lemma sort_by_canonical l l' :
  l ≡ₚ l' → NoDup (key <$> l) → sort_by key l = sort_by key l'.
Proof.
  intros Hp Hnd. apply (StronglySorted_unique_strong key_le); [|apply sort_by_sorted..|].
  - intros x y Hx Hy Hxy Hyx. rewrite sort_by_perm in Hx, Hy. rewrite <- Hp in Hy.
    assert (key x = key y) as Hk.
    { unfold key_le in *. rewrite (cmp_antisym (key x) (key y)) in Hyx.
      apply cmp_eq. by destruct (cmp (key x) (key y)). }
    apply list_elem_of_lookup in Hx as [i Hi], Hy as [j Hj].
    assert (i = j) as ->.
    { eapply NoDup_lookup; [exact Hnd| |]; rewrite list_lookup_fmap; [by rewrite Hi|].
      rewrite Hj. simpl. by f_equal. }
    by simplify_eq.
  - by rewrite !sort_by_perm.
Qed.

Lemma sorted_weak_increasing l :
  StronglySorted key_le l → NoDup (key <$> l) → increasing (key <$> l).
Proof.
  induction 1 as [|x l Hl IH Hx]; intros Hnd; [constructor|].
  apply NoDup_cons in Hnd as [Hnx Hnd]. constructor; [by apply IH|].
  apply Forall_fmap. rewrite Forall_forall in Hx |- *. intros y Hy. specialize (Hx y Hy).
  simpl. unfold key_le in Hx. destruct (cmp (key x) (key y)) eqn:E; [|done|done].
  apply cmp_eq in E. destruct Hnx. rewrite E. by apply list_elem_of_fmap_2.
Qed.
End sorting.

(** ** Reports *)

Definition report_ok (r : AgentRecoveryReport) : Prop :=
  rp_schema_version r = AGENT_RECOVERY_REPORT_SCHEMA_VERSION ∧
  Z.of_nat (length (rp_records r)) ≤ AGENT_RECOVERY_REPORT_MAX_RECORDS ∧
  Forall (λ x, recovery_record_validate x = Ok ()) (rp_records r) ∧
  increasing (recovery_key <$> rp_records r).

Lemma rmap_unit_ok {E A} (f : A → result E ()) l :
  (∃ k, rmap f l = Ok k) ↔ Forall (λ x, f x = Ok ()) l.
Proof.
  setoid_rewrite rmap_ok. split.
  - intros [k Hk]. induction Hk as [|x [] l k]; by constructor.
  - induction 1 as [|x l Hx Hl [k Hk]]; [by exists []|]. exists (() :: k). by constructor.
Qed.

Lemma report_validate_ok r : report_validate r = Ok () ↔ report_ok r.
Proof.
  unfold report_validate, report_ok. rewrite <- rmap_unit_ok, <- sorted_unique_spec.
  destruct (Z.eqb_spec (rp_schema_version r) AGENT_RECOVERY_REPORT_SCHEMA_VERSION); simpl; [|naive_solver].
  destruct (Z.ltb_spec AGENT_RECOVERY_REPORT_MAX_RECORDS (Z.of_nat (length (rp_records r)))); simpl;
    [naive_solver lia|].
  destruct (rmap _ _); simpl; [|naive_solver].
  destruct (sorted_unique _ _); simpl; naive_solver.
Qed.

Lemma report_new_ok l r : report_new l = Ok r ↔
  r = mkReport AGENT_RECOVERY_REPORT_SCHEMA_VERSION (sort_by recovery_key l) ∧ report_ok r.
Proof.
  unfold report_new. rewrite rbind_ok. split.
  - intros ([] & Hv & [= <-]). split; [done|]. by apply report_validate_ok.
  - intros [-> Hr]. exists (). split; [by apply report_validate_ok|done].
Qed.

(** Enough for a report. *)
Lemma report_new_total l :
  Z.of_nat (length l) ≤ AGENT_RECOVERY_REPORT_MAX_RECORDS →
  Forall (λ x, recovery_record_validate x = Ok ()) l → NoDup (recovery_key <$> l) →
  report_new l = Ok (mkReport AGENT_RECOVERY_REPORT_SCHEMA_VERSION (sort_by recovery_key l)).
Proof.
  intros Hlen Hv Hn. apply report_new_ok. split; [done|]. unfold report_ok. simpl.
  split_and!; [done|by rewrite (sort_by_perm recovery_key l)..|].
  apply sorted_weak_increasing; [apply sort_by_sorted|]. by rewrite (sort_by_perm recovery_key l).
Qed.

(** A report is canonical: it is accepted exactly when there are at most
    1024 valid records with pairwise different container generations; it then
    holds those records, in increasing order of generation, whatever order they
    were collected in. *)
Theorem recovery_report_canonical l :
  (is_ok (report_new l) = true ↔
     Z.of_nat (length l) ≤ AGENT_RECOVERY_REPORT_MAX_RECORDS ∧
     Forall (λ x, recovery_record_validate x = Ok ()) l ∧ NoDup (recovery_key <$> l)) ∧
  ∀ r, report_new l = Ok r →
    rp_records r ≡ₚ l ∧ increasing (recovery_key <$> rp_records r) ∧
    ∀ l', l' ≡ₚ l → report_new l' = Ok r.
Proof.
  assert (∀ r, report_new l = Ok r → NoDup (recovery_key <$> l)) as Hnd.
  { intros r Hr%report_new_ok. destruct Hr as [-> (_ & _ & _ & Hi)].
    apply increasing_NoDup in Hi. simpl in Hi. by rewrite (sort_by_perm recovery_key l) in Hi. }
  split.
  - split.
    + destruct (report_new l) as [r|e] eqn:E; [|done]. intros _. pose proof (Hnd r eq_refl) as Hn.
      apply report_new_ok in E as [-> (_ & Hlen & Hv & _)]. simpl in *.
      rewrite (sort_by_perm recovery_key l) in Hlen, Hv. done.
    + intros (Hlen & Hv & Hn). by rewrite report_new_total.
  - intros r Hr. pose proof (Hnd r Hr) as Hn. pose proof Hr as [-> Hok]%report_new_ok. simpl.
    split_and!; [apply sort_by_perm|by apply Hok|]. intros l' Hp. apply report_new_ok.
    rewrite <- (sort_by_canonical recovery_key l l') by done. done.
Qed.

(** ** Authentication *)

Section authentication.
Context `{!Sha256, !Json AgentRecoveryReport, !Json AuthenticatedAgentRecoveryReport}.
Context `{!Sha256Laws}.

Lemma hmac_shape key message :
  length (hmac_sha256 key message) = HMAC_BYTES ∧ Forall is_byte (hmac_sha256 key message).
Proof. unfold hmac_sha256. split; [apply sha256_length|apply sha256_bytes]. Qed.

Lemma decode_tag_spec s b :
  decode_authentication_tag s = Ok b ↔ s = encode_hex b ∧ Forall is_byte b ∧ length b = HMAC_BYTES.
Proof.
  unfold decode_authentication_tag, encode_hex, hex_text. rewrite rbind_ok.
  setoid_rewrite reject_if_ok. setoid_rewrite ok_or_ok. split.
  - intros (_ & Hc & Hp). apply orb_false_iff in Hc as [Hlen%negb_false_iff%Nat.eqb_eq Hf%negb_false_iff].
    destruct (hex_pairs_inj _ _ _ (le_n _) Hp Hf) as [Hs Hb].
    rewrite <- Hs, String.string_of_list_ascii_of_string. split_and!; [done..|].
    rewrite Hs in Hlen. destruct (hex_pairs_chars b Hb) as (_ & _ & Hl). rewrite Hl in Hlen.
    unfold HMAC_BYTES in *. lia.
  - intros (-> & Hb & Hlen). destruct (hex_pairs_chars b Hb) as (Hp & Hf & Hl).
    rewrite String.list_ascii_of_string_of_list_ascii. exists (). split; [|done].
    by rewrite Hf, Hl, Hlen.
Qed.

Lemma verify_ok a token report : verify a token = Ok report ↔
  au_report a = report ∧ report_ok report ∧
  ∃ payload, to_vec report = Some payload ∧
    au_authentication_tag a = encode_hex (hmac_sha256 (tk_bytes token) payload).
Proof.
  unfold verify, canonical_payload. split.
  - intros Hv. apply rbind_ok in Hv as ([] & Hr%report_validate_ok & Hv).
    apply rbind_ok in Hv as (received & (Htag & _)%decode_tag_spec & Hv).
    apply rbind_ok in Hv as (payload & Hp%ok_or_ok & Hv).
    apply rbind_ok in Hv as (_ & Heq%reject_if_ok%negb_false_iff%constant_time_eq_spec & [= <-]).
    subst received. split_and!; [done..|]. by exists payload.
  - intros (<- & Hr%report_validate_ok & payload & Hp & Htag).
    destruct (hmac_shape (tk_bytes token) payload) as [Hl Hb]. rewrite Hr. cbn [rbind].
    rewrite (proj2 (decode_tag_spec _ (hmac_sha256 (tk_bytes token) payload))) by done. cbn [rbind].
    rewrite Hp. cbn [ok_or rbind]. by rewrite (proj2 (constant_time_eq_spec _ _) eq_refl).
Qed.

Context `{!JsonLaws AuthenticatedAgentRecoveryReport}.

(** C24: What the guest hands over, the host of the same session accepts: the
    records collected, authenticated and encoded decode and verify to the same
    report.  And nothing else is accepted: a text verifies only if it is small
    enough and decodes to a valid report with the tag that HMAC-SHA-256 under
    this session's token gives for that very report. *)
Theorem recovery_report_handoff (token : SessionToken) :
  (∀ l report a encoded,
     report_new l = Ok report → authenticate report token = Ok a →
     authenticated_to_json a = Ok encoded → verify_json encoded token = Ok report) ∧
  (∀ encoded report,
     verify_json encoded token = Ok report ↔
     Z.of_nat (length encoded) ≤ AGENT_RECOVERY_REPORT_MAX_BYTES ∧ report_ok report ∧
     ∃ tag payload, from_slice encoded = Some (mkAuthenticated report tag) ∧
       to_vec report = Some payload ∧ tag = encode_hex (hmac_sha256 (tk_bytes token) payload)).
Proof.
  assert (∀ encoded report,
     verify_json encoded token = Ok report ↔
     Z.of_nat (length encoded) ≤ AGENT_RECOVERY_REPORT_MAX_BYTES ∧ report_ok report ∧
     ∃ tag payload, from_slice encoded = Some (mkAuthenticated report tag) ∧
       to_vec report = Some payload ∧ tag = encode_hex (hmac_sha256 (tk_bytes token) payload)) as Hv.
  { intros encoded report. unfold verify_json, validate_encoded_size. rewrite rbind_ok.
    setoid_rewrite rbind_ok. setoid_rewrite ok_or_ok. setoid_rewrite reject_if_ok.
    setoid_rewrite Z.ltb_ge. setoid_rewrite verify_ok. split.
    - intros (_ & Hlen & [report' tag] & Hd & Heq & Hr & payload & Hp & Ht). simpl in *. subst.
      split_and!; [done..|]. by eexists _, payload.
    - intros (Hlen & Hr & tag & payload & Hd & Hp & Ht). exists (). split; [done|].
      exists (mkAuthenticated report tag). split_and!; [done..|]. by exists payload. }
  split; [|done]. intros l report a encoded Hl Ha He. apply Hv.
  apply report_new_ok in Hl as [_ Hok].
  unfold authenticate, canonical_payload in Ha. apply rbind_ok in Ha as ([] & _ & Ha).
  apply rbind_ok in Ha as (payload & Hp%ok_or_ok & [= <-]).
  unfold authenticated_to_json, encode_bounded, validate_encoded_size in He.
  apply rbind_ok in He as (b & Hb%ok_or_ok & He). apply rbind_ok in He as (u & Hsz & He).
  injection He as He. subst b. apply reject_if_ok, Z.ltb_ge in Hsz. split_and!; [done..|].
  eexists _, payload. split_and!; [by apply from_slice_to_vec|done|done].
Qed.
End authentication.

(** ** A concrete handoff *)

Module RecoveryExample.
(** A digest and an encoding of the reports below. *)
Definition sum_bytes (b : bytes) : Z := foldl Z.add 0 b mod 256.
#[local] Instance digest : Sha256 := {
  sha256 b := (λ i, (sum_bytes b + Z.of_nat i) mod 256) <$> seq 0 32
}.
#[local] Instance digest_laws : Sha256Laws.
Proof.
  split; intros b; unfold sha256; simpl; [done|].
  repeat (apply Forall_cons; split; [unfold is_byte; apply Z.mod_pos_bound; lia|]). constructor.
Qed.

Definition status : ExitStatus := mkExitStatus (Some 0) None false.
Definition config : string :=
  "sha256:aaaaaaaaaaaaaaaaaaaaaaaaaaaaaaaaaaaaaaaaaaaaaaaaaaaaaaaaaaaaaaaa".
Definition one : AgentRecoveryRecord := mkRecoveryRecord (target_exact "one" 1) config status.
Definition two : AgentRecoveryRecord := mkRecoveryRecord (target_exact "two" 2) config status.
Definition report : AgentRecoveryReport := mkReport 1 [one; two].
Definition token : SessionToken := mkToken (replicate 32 7).

#[local] Instance report_json : Json AgentRecoveryReport := {
  to_vec _ := Some [1; 2; 3]; from_slice _ := None
}.
#[local] Instance authenticated_json : Json AuthenticatedAgentRecoveryReport := {
  to_vec a := match rp_records (au_report a) with
              | [r1; r2] =>
                  match decide (r1 = one), decide (r2 = two), decide (rp_schema_version (au_report a) = 1) with
                  | left _, left _, left _ => Some (string_bytes (au_authentication_tag a))
                  | _, _, _ => None
                  end
              | _ => None
              end;
  from_slice b := Some (mkAuthenticated report
    (String.string_of_list_ascii ((λ n, ascii_of_N (Z.to_N n)) <$> b)))
}.
#[local] Instance authenticated_laws : JsonLaws AuthenticatedAgentRecoveryReport.
Proof.
  split. intros [[version records] tag] b. cbn [to_vec authenticated_json au_report rp_records
    rp_schema_version au_authentication_tag].
  destruct records as [|r1 [|r2 [|]]]; try done.
  destruct (decide (r1 = one)) as [->|]; [|done]. destruct (decide (r2 = two)) as [->|]; [|done].
  destruct (decide (version = 1)) as [->|]; [|done]. intros [= <-].
  unfold from_slice, authenticated_json. do 2 f_equal. unfold string_bytes, byte_of.
  rewrite <- (String.string_of_list_ascii_of_string tag) at 2. f_equal.
  rewrite <- list_fmap_compose. rewrite <- (list_fmap_id (String.list_ascii_of_string tag)) at 2.
  apply list_fmap_ext. intros _ c _. simpl. by rewrite N2Z.id, ascii_N_embedding.
Qed.

Definition handed : result Error bytes :=
  try! report := report_new [two; one] in
  try! a := authenticate report token in
  authenticated_to_json a.

(** Two records collected out of order reach the host. *)
Lemma recovery_report_handoff_witness :
  ∃ encoded, handed = Ok encoded ∧ length encoded = 64%nat ∧ verify_json encoded token = Ok report.
Proof.
  eexists. split; [vm_compute; reflexivity|]. split; [reflexivity|].
  eapply (proj1 (recovery_report_handoff token) [two; one]); vm_compute; reflexivity.
Defined.
End RecoveryExample.
