(* ===== verification/AgentSession.v ===== *)
(** * Host-to-guest protocol: one authenticated connection
    (agent-protocol/src/client.rs, server.rs and fault.rs)

    The host's client serialises its calls on one stream and poisons it at the
    first failure or cancellation; the guest's server reads requests, runs the
    service and writes responses.  [call] is split where it waits for the
    response: [call_send] up to the wait and [call_receive] after it, with
    [call_cancel] for a caller that goes away in between.

    A fault injector is represented by the results of its checks, so a call is
    a function of them; the step relation at the end ranges over all results,
    all points at which a stream can break and all interleavings. *)

From stdpp Require Import base gmap list strings.
From S2P Require Import Prelude Sdk OutputBuffer Wire AgentModel.
From Stdlib Require Import ZArith Lia.
Local Open Scope string_scope.
Local Open Scope list_scope.
Local Open Scope Z_scope.

(** ** The guest service *)

(** [GuestAgentService]: every method over the state of the implementation. *)
Class GuestAgentService (S : Type) : Type := {
  svc_capabilities : AgentCapabilities;
  svc_acknowledge_operations : list string → prog S Error ();
  svc_create : AgentCreateRequest → prog S Error AgentState;
  svc_state : AgentStateRequest → prog S Error AgentState;
  svc_start : AgentStartRequest → prog S Error AgentState;
  svc_kill : AgentKillRequest → prog S Error AgentState;
  svc_delete : AgentDeleteRequest → prog S Error ();
  svc_wait : AgentWaitRequest → prog S Error ExitStatus;
  svc_exec : AgentExecRequest → prog S Error AgentProcess;
  svc_signal_process : AgentSignalProcessRequest → prog S Error ();
  svc_wait_process : AgentWaitProcessRequest → prog S Error ExitStatus;
  svc_pause : AgentContainerOperationRequest → prog S Error AgentState;
  svc_resume : AgentContainerOperationRequest → prog S Error AgentState;
  svc_processes : AgentProcessesRequest → prog S Error (list ProcessRecord);
  svc_update : AgentUpdateRequest → prog S Error AgentState;
  svc_stats : AgentStatsRequest → prog S Error ContainerStats;
  svc_read_output : AgentReadOutputRequest → prog S Error (list OutputChunk);
  svc_write_stdin : AgentWriteStdinRequest → prog S Error ();
  svc_close_stdin : AgentCloseStdinRequest → prog S Error ();
  svc_resize : AgentResizeRequest → prog S Error ();
  svc_file : FileRequest → prog S Error FileResponse;
  svc_filesystem : FilesystemRequest → prog S Error FilesystemResponse
}.

(** [.map(AgentResponse::...)] *)
Definition prog_map {W E A B} (f : A → B) (m : prog W E A) : prog W E B :=
  let! a := m in ret (f a).

Definition invalid_service_response : Error :=
  protocol_error Internal "guest service produced an invalid response: {error}".

Definition dispatch {S} `{!GuestAgentService S} (request : AgentRequest) : prog S Error AgentResponse :=
  match request with
  | ReqCreate r => prog_map RespState (svc_create r)
  | ReqState r => prog_map RespState (svc_state r)
  | ReqStart r => prog_map RespState (svc_start r)
  | ReqKill r => prog_map RespState (svc_kill r)
  | ReqDelete r => do! svc_delete r; ret RespDeleted
  | ReqWait r => prog_map RespExitStatus (svc_wait r)
  | ReqExec r =>
      let! process := svc_exec r in
      if bool_decide (ap_target process = aer_target r) then ret (RespProcess process)
      else fail invalid_service_response
  | ReqSignalProcess r =>
      do! svc_signal_process r;
      lift (rbind (process_signal_new (asp_target r)) (λ s, Ok (RespProcessSignaled s)))
  | ReqWaitProcess r =>
      let! status := svc_wait_process r in
      lift (rbind (process_exit_new (awp_target r) status) (λ e, Ok (RespProcessExit e)))
  | ReqPause r => prog_map RespState (svc_pause r)
  | ReqResume r => prog_map RespState (svc_resume r)
  | ReqProcesses r => prog_map RespProcesses (svc_processes r)
  | ReqUpdate r => prog_map RespState (svc_update r)
  | ReqStats r => prog_map RespStats (svc_stats r)
  | ReqReadOutput r => prog_map RespOutput (svc_read_output r)
  | ReqWriteStdin r => do! svc_write_stdin r; ret (RespStdinWritten (aws_process r))
  | ReqCloseStdin r => do! svc_close_stdin r; ret (RespStdinClosed (acs_process r))
  | ReqResize r => do! svc_resize r; ret (RespTerminalResized (arz_process r))
  | ReqFile r => prog_map RespFile (svc_file r)
  | ReqFilesystem r => prog_map RespFilesystem (svc_filesystem r)
  | ReqAcknowledgeOperations r =>
      do! svc_acknowledge_operations (ak_operation_ids r); ret RespOperationsAcknowledged
  end.

(** ** The client *)

Record ClientConnection : Type := mkClient {
  cc_stream : bool;
  cc_selected_version : Z;
  cc_next_request_id : Z;
  cc_poisoned : bool;
  cc_closed : bool
}.
(** [poison_and_release], also the [Drop] of an incomplete [InFlightCall]. *)
Definition poison_and_release (c : ClientConnection) : ClientConnection :=
  mkClient false (cc_selected_version c) (cc_next_request_id c) true (cc_closed c).

Definition ensure_advertised (operations : list AgentOperation) (request : AgentRequest) : Result () :=
  if bool_decide (request_operation request ∈ operations) then Ok ()
  else Err (protocol_error Unsupported "guest does not advertise {required:?}").

(** Results of the injector at the host's stages. *)
Record HostFaults : Type := mkHostFaults {
  hf_before_request_write : Result (); hf_after_request_write : Result ();
  hf_before_response_read : Result (); hf_after_response_read : Result ()
}.
Definition no_host_faults : HostFaults := mkHostFaults (Ok ()) (Ok ()) (Ok ()) (Ok ()).

Section session.
Context `{!AgentEnv}.
Context `{!Json HostHello, !Json HelloOutcome, !Json RequestEnvelope, !Json ResponseEnvelope}.

(** [AgentClient::connect_with_range_and_fault_injector] around the exchange of
    hellos: what is written, and the verdict on the answer. *)
Definition connect_send (protocols : ProtocolRange) (token : SessionToken) : prog Writer Error () :=
  do! lift (range_validate protocols);
  write_frame agent_wire (mkHostHello protocols token).
Definition connect_receive (protocols : ProtocolRange) : prog Reader Error (AgentHello * ClientConnection) :=
  let! outcome := read_frame agent_wire in
  lift (
    try! outcome := ok_or (set_retryable (protocol_error Unavailable
      "guest closed the stream before protocol negotiation") true) outcome in
    match outcome with
    | HelloRejected error => Err error
    | HelloAccepted hello =>
        check! hello_validate hello protocols;
        Ok (hello, mkClient true (hello_selected_version hello) 1 false false)
    end).

(** [AgentClient::call] up to the wait for the response: the request ID.  An
    error after the connection is locked poisons it. *)
Definition call_send (hello : AgentHello) (faults : HostFaults) (request : AgentRequest)
    (c : ClientConnection) (w : Writer) : Result Z * ClientConnection * Writer :=
  match rbind (request_validate request)
          (λ _, ensure_advertised (cap_operations (hello_capabilities hello)) request) with
  | Err e => (Err e, c, w)
  | Ok _ =>
      let failed e w := (Err e, poison_and_release c, w) in
      if cc_closed c then failed (protocol_error Unavailable
        "guest-agent connection was explicitly closed") w
      else if cc_poisoned c then failed (set_retryable (protocol_error Unavailable
        "guest-agent connection is closed after an earlier protocol failure") true) w
      else
        let request_id := cc_next_request_id c in
        match checked_add_u64 request_id 1 with
        | None => failed (protocol_error ResourceExhausted
            "guest-agent request ID space is exhausted") w
        | Some next =>
            let c := mkClient (cc_stream c) (cc_selected_version c) next (cc_poisoned c) (cc_closed c) in
            let failed e w := (Err e, poison_and_release c, w) in
            match hf_before_request_write faults with
            | Err e => failed e w
            | Ok _ =>
                if cc_stream c then
                  match write_frame agent_wire
                          (mkRequestEnvelope (cc_selected_version c) request_id request) w with
                  | (Err e, w') => failed e w'
                  | (Ok _, w') =>
                      match rbind (hf_after_request_write faults) (λ _, hf_before_response_read faults) with
                      | Err e => failed e w'
                      | Ok _ => (Ok request_id, c, w')
                      end
                  end
                else failed (protocol_error Unavailable "guest-agent connection lost its transport") w
            end
        end
  end.

(** The rest of [call]: the response is read, correlated and matched. *)
Definition call_receive (faults : HostFaults) (request : AgentRequest) (request_id : Z)
    (c : ClientConnection) (r : Reader) : Result AgentResponse * ClientConnection * Reader :=
  let failed e r := (Err e, poison_and_release c, r) in
  if cc_stream c then
    match read_frame agent_wire r with
    | (Err e, r') => failed e r'
    | (Ok None, r') => failed (set_retryable (protocol_error Unavailable
        "guest closed the stream before returning a response") true) r'
    | (Ok (Some response), r') =>
        match rbind (hf_after_response_read faults)
                (λ _, response_envelope_validate response (cc_selected_version c) request_id) with
        | Err e => failed e r'
        | Ok _ =>
            match rs_outcome response with
            | Succeeded response =>
                match validate_response_for_request request response with
                | Err e => failed e r'
                | Ok _ => (Ok response, c, r')
                end
            | Failed error => (Err error, c, r')
            end
        end
    end
  else failed (protocol_error Unavailable "guest-agent connection lost its transport") r.

(** A caller dropped while its call is in flight. *)
Definition call_cancel (c : ClientConnection) : ClientConnection := poison_and_release c.

(** [AgentClient::close]: the results of the two shutdown checks and of the
    stream's own shutdown, which only matters when it is not a disconnect. *)
Definition close (before after shutdown : Result ()) (c : ClientConnection)
    : Result () * ClientConnection :=
  if cc_closed c then (Ok (), c)
  else
    let c' := mkClient false (cc_selected_version c) (cc_next_request_id c) true true in
    if cc_stream c then
      match before with
      | Err e => (Err e, c')
      | Ok _ => (rbind (match shutdown with
                        | Ok _ => Ok ()
                        | Err _ => Err (protocol_error Internal
                            "failed to close the guest-agent transport: {error}")
                        end) (λ _, after), c')
      end
    else (Ok (), c').

(** ** The server *)

(** Results of the injector at the guest's stages. *)
Record GuestFaults : Type := mkGuestFaults {
  gf_after_request_read : Result (); gf_before_dispatch : Result ();
  gf_after_dispatch : Result (); gf_before_response_write : Result ();
  gf_after_response_write : Result ()
}.
Definition no_guest_faults : GuestFaults := mkGuestFaults (Ok ()) (Ok ()) (Ok ()) (Ok ()) (Ok ()).

(** The start of [serve_agent_connection]: the host's hello is checked and
    answered; the negotiated version, or the error that ends the connection. *)
Definition serve_hello (capabilities : AgentCapabilities) (expected_token : SessionToken)
    (r : Reader) (w : Writer) : Result Z * Reader * Writer :=
  match read_frame agent_wire r with
  | (Err e, r') => (Err e, r', w)
  | (Ok None, r') => (Err (protocol_error Unavailable
      "host closed the stream before agent protocol negotiation"), r', w)
  | (Ok (Some host), r') =>
      match rbind (validate_hello host expected_token capabilities)
              (λ v, rbind (capabilities_for_protocol capabilities v) (λ c, Ok (v, c))) with
      | Err error =>
          match write_frame agent_wire (HelloRejected error) w with
          | (Err e, w') => (Err e, r', w')
          | (Ok _, w') => (Err error, r', w')
          end
      | Ok (v, c) =>
          match write_frame agent_wire (HelloAccepted (mkAgentHello v c)) w with
          | (Err e, w') => (Err e, r', w')
          | (Ok _, w') => (Ok v, r', w')
          end
      end
  end.

(** [write_response_with_fault_injector] *)
Definition write_response (faults : GuestFaults) (version request_id : Z) (outcome : ResponseOutcome)
    : prog Writer Error () :=
  do! lift (gf_before_response_write faults);
  do! write_frame agent_wire (mkResponseEnvelope version request_id outcome);
  lift (gf_after_response_write faults).

(** What a round of the request loop did: the loop goes on, or it is over. *)
Inductive Served : Type := Continue | Stop (result : Result ()).
(** The request it ran, if any, and what became of it. *)
Inductive Ran : Type := RanNothing | RanRequest (id : Z) (request : AgentRequest) (result : Result AgentResponse).

Definition service_outcome (result : Result AgentResponse) : ResponseOutcome :=
  match result with
  | Ok response => match response_validate response with
                   | Ok _ => Succeeded response
                   | Err _ => Failed invalid_service_response
                   end
  | Err error => Failed error
  end.

Section serve.
Context {S : Type} `{!GuestAgentService S}.

(** One round of the loop of [serve_agent_connection]. *)
Definition serve_request (faults : GuestFaults) (version : Z) (s : S) (r : Reader) (w : Writer)
    : Served * Ran * S * Reader * Writer :=
  match read_frame agent_wire r with
  | (Err e, r') => (Stop (Err e), RanNothing, s, r', w)
  | (Ok None, r') => (Stop (Ok ()), RanNothing, s, r', w)
  | (Ok (Some envelope), r') =>
      let id := re_request_id envelope in
      match request_envelope_validate envelope version with
      | Err error =>
          let terminal := negb (re_version envelope =? version) || (id =? 0) in
          match write_response faults version id (Failed error) w with
          | (Err e, w') => (Stop (Err e), RanNothing, s, r', w')
          | (Ok _, w') => (if terminal then Stop (Err error) else Continue, RanNothing, s, r', w')
          end
      | Ok _ =>
          match rbind (gf_after_request_read faults) (λ _, gf_before_dispatch faults) with
          | Err e => (Stop (Err e), RanNothing, s, r', w)
          | Ok _ =>
              let '(dispatched, s') := dispatch (re_request envelope) s in
              let ran := RanRequest id (re_request envelope) dispatched in
              match gf_after_dispatch faults with
              | Err e => (Stop (Err e), ran, s', r', w)
              | Ok _ =>
                  match write_response faults version id (service_outcome dispatched) w with
                  | (Err e, w') => (Stop (Err e), ran, s', r', w')
                  | (Ok _, w') => (Continue, ran, s', r', w')
                  end
              end
          end
      end
  end.

(** ** The two ends of a connection *)

(** What happened: a request ID taken for a request, a request run by the
    service, and a call that returned. *)
Inductive Event : Type :=
  | Attempted (id : Z) (request : AgentRequest)
  | Executed (id : Z) (request : AgentRequest) (result : Result AgentResponse)
  | Returned (id : Z) (request : AgentRequest) (result : Result AgentResponse).

Record Session : Type := mkSession {
  ss_client : ClientConnection;
  ss_call : option (Z * AgentRequest);
  ss_to_guest : bytes;
  ss_to_host : bytes;
  ss_serving : bool;
  ss_state : S;
  ss_log : list Event
}.

Definition session_start (version : Z) (s : S) : Session :=
  mkSession (mkClient true version 1 false false) None [] [] true s [].

Definition attempt_event (c c' : ClientConnection) (request : AgentRequest) : list Event :=
  if cc_next_request_id c =? cc_next_request_id c' then [] else [Attempted (cc_next_request_id c) request].
Definition ran_event (ran : Ran) : list Event :=
  match ran with RanNothing => [] | RanRequest id request result => [Executed id request result] end.

(** One step of either end.  A reader sees the first [k] bytes in flight and
    then [ending]; a writer accepts [budget] bytes.  The call mutex admits one
    call at a time. *)
Inductive session_step (hello : AgentHello) (version : Z) : Session → Session → Prop :=
  | step_call ss faults request budget flushes result c' w' :
      ss_call ss = None →
      call_send hello faults request (ss_client ss) (mkWriter (ss_to_guest ss) budget flushes)
        = (result, c', w') →
      session_step hello version ss
        (mkSession c' (match result with Ok id => Some (id, request) | Err _ => None end)
           (wr_bytes w') (ss_to_host ss) (ss_serving ss) (ss_state ss)
           (ss_log ss ++ attempt_event (ss_client ss) c' request))
  | step_receive ss faults id request k ending result c' r' :
      ss_call ss = Some (id, request) →
      call_receive faults request id (ss_client ss) (mkReader (take k (ss_to_host ss)) ending)
        = (result, c', r') →
      session_step hello version ss
        (mkSession c' None (ss_to_guest ss) (rd_bytes r' ++ drop k (ss_to_host ss)) (ss_serving ss)
           (ss_state ss) (ss_log ss ++ [Returned id request result]))
  | step_cancel ss id request :
      ss_call ss = Some (id, request) →
      session_step hello version ss
        (mkSession (call_cancel (ss_client ss)) None (ss_to_guest ss) (ss_to_host ss) (ss_serving ss)
           (ss_state ss) (ss_log ss))
  | step_close ss before after shutdown :
      ss_call ss = None →
      session_step hello version ss
        (mkSession (close before after shutdown (ss_client ss)).2 None (ss_to_guest ss) (ss_to_host ss)
           (ss_serving ss) (ss_state ss) (ss_log ss))
  | step_serve ss faults k ending budget flushes served ran s' r' w' :
      ss_serving ss = true →
      serve_request faults version (ss_state ss) (mkReader (take k (ss_to_guest ss)) ending)
        (mkWriter (ss_to_host ss) budget flushes) = (served, ran, s', r', w') →
      session_step hello version ss
        (mkSession (ss_client ss) (ss_call ss) (rd_bytes r' ++ drop k (ss_to_guest ss)) (wr_bytes w')
           (match served with Continue => true | Stop _ => false end) s'
           (ss_log ss ++ ran_event ran)).
End serve.
End session.

Arguments Session S : clear implicits.

