(* ===== verification/AgentSessionProps.v ===== *)
(** * The agent connection correlates calls with executions

    Over any stream, fault and cancellation behaviour: a request reaches the
    service at most once, a call returns only what the service produced for
    it, and an error that leaves the connection usable is the guest's own. *)

From stdpp Require Import base gmap list relations strings.
From S2P Require Import Prelude Sdk Wire AgentModel AgentSession.
From Stdlib Require Import ZArith Lia.

Local Open Scope string_scope.
Local Open Scope list_scope.
Local Open Scope Z_scope.

(** ** One frame in flight *)

Section frame.
Context {T : Type} `{!Json T, !JsonLaws T}.

(** [b] is the beginning of the frame of [v] (nothing when it cannot be sent). *)
Definition partial_frame (v : T) (b : bytes) : Prop :=
  ∃ k, b = take k (default [] (frame_of agent_wire v)).
Definition whole_frame (v : T) (b : bytes) : Prop := frame_of agent_wire v = Some b.

Lemma partial_nil v : partial_frame v [].
Proof. by exists 0%nat. Qed.
Lemma whole_partial v b : whole_frame v b → partial_frame v b.
Proof. intros Hb. exists (length b). rewrite Hb. simpl. by rewrite take_ge. Qed.
Lemma partial_take v b k : partial_frame v b → partial_frame v (take k b).
Proof. intros [j ->]. exists (Nat.min k j). by rewrite take_take. Qed.

(** What a read of such bytes returns. *)
Lemma read_partial v b ending res r' :
  partial_frame v b → read_frame agent_wire (mkReader b ending) = (res, r') →
  (res = Ok (Some v) ∧ whole_frame v b ∧ rd_bytes r' = []) ∨ (∀ u, res ≠ Ok (Some u)).
Proof.
  intros [k ->] Hread. destruct (frame_of agent_wire v) as [b|] eqn:Hb; cbn [from_option id] in Hread.
  - destruct (decide (length b ≤ k)%nat).
    + left. rewrite take_ge in Hread by done. rewrite <- (app_nil_r b) in Hread.
      rewrite (read_frame_whole _ _ _ _ _ Hb) in Hread. injection Hread as <- <-.
      split_and!; [done| |done]. unfold whole_frame. cbn [from_option id]. by rewrite take_ge.
    + right. destruct (read_frame_partial agent_wire v b k ending Hb) as (res' & r2 & Hr & Hres); [lia|].
      rewrite Hr in Hread. injection Hread as <- <-. intros u ->. done.
  - right. intros u ->. rewrite take_nil in Hread. cbn in Hread. by destruct ending.
Qed.

(** What a write leaves on an empty stream. *)
Lemma write_partial v budget flushes res w' :
  write_frame agent_wire v (mkWriter [] budget flushes) = (res, w') →
  partial_frame v (wr_bytes w') ∧ (res = Ok () → whole_frame v (wr_bytes w')).
Proof.
  intros (k & Hk & Hok)%write_frame_spec. simpl in Hk. split; [by exists k|].
  intros [[b Hb] Hw]%Hok. rewrite Hk, Hw. unfold whole_frame. by rewrite Hb.
Qed.
Lemma whole_take_rest (envelope : T) tg k :
  partial_frame envelope tg → whole_frame envelope (take k tg) → drop k tg = [].
Proof.
  intros [j ->] Hw. unfold whole_frame in Hw.
  destruct (frame_of agent_wire envelope) as [b|]; [|done]. cbn [from_option id] in *.
  injection Hw as Hw. apply (f_equal length) in Hw. rewrite !length_take in Hw.
  apply length_zero_iff_nil. rewrite length_drop, length_take. lia.
Qed.
End frame.

(** ** The invariant *)

Section correlation.
Context `{!AgentEnv}.
Context `{!Json HostHello, !Json HelloOutcome, !Json RequestEnvelope, !Json ResponseEnvelope}.
Context `{!JsonLaws RequestEnvelope, !JsonLaws ResponseEnvelope}.
Context {S : Type} `{!GuestAgentService S}.
Variable hello : AgentHello.
Variable version : Z.
Implicit Types (ss : Session S).

(** The guest's verdict on an attempted request: the service's outcome, or a
    refusal before the service was called. *)
Definition guest_answer (log : list Event) (id : Z) (request : AgentRequest)
    (outcome : ResponseOutcome) : Prop :=
  (∃ result, Executed id request result ∈ log ∧ outcome = service_outcome result) ∨
  (∃ error, outcome = Failed error ∧
     request_envelope_validate (mkRequestEnvelope version id request) version = Err error).

Definition executed (log : list Event) (id : Z) : Prop :=
  ∃ request result, Executed id request result ∈ log.
Definition executed_ids (log : list Event) : list Z :=
  omap (λ e, match e with Executed id _ _ => Some id | _ => None end) log.

Record log_ok (c : ClientConnection) (log : list Event) : Prop := {
  lo_attempted : ∀ id request, Attempted id request ∈ log → 1 ≤ id < cc_next_request_id c;
  lo_unique : ∀ id r1 r2, Attempted id r1 ∈ log → Attempted id r2 ∈ log → r1 = r2;
  lo_executed : ∀ id request result, Executed id request result ∈ log → Attempted id request ∈ log;
  lo_once : NoDup (executed_ids log);
  lo_returned : ∀ id request response,
    Returned id request (Ok response) ∈ log →
    ∃ result, Executed id request result ∈ log ∧ service_outcome result = Succeeded response;
  lo_refused : ∀ id request error,
    Returned id request (Err error) ∈ log → cc_poisoned c = true ∨ guest_answer log id request (Failed error)
}.

(** Bytes towards the guest, while it still reads: nothing, or the beginning of
    the frame of a request that has not run. *)
Definition to_guest_ok ss : Prop :=
  ss_serving ss = true →
  (ss_to_guest ss = [] ∨ ∃ id request, Attempted id request ∈ ss_log ss ∧ ¬ executed (ss_log ss) id ∧
     partial_frame (mkRequestEnvelope version id request) (ss_to_guest ss) ∧
     (cc_stream (ss_client ss) = true → ss_call ss = Some (id, request) ∧ ss_to_host ss = [])).

(** Bytes towards the host, while it still reads: the beginning of the answer
    to the call in flight. *)
Definition to_host_ok ss : Prop :=
  cc_stream (ss_client ss) = true →
  match ss_call ss with
  | None => ss_to_host ss = []
  | Some (id, request) =>
      Attempted id request ∈ ss_log ss ∧
      (ss_to_host ss = [] ∨ ∃ outcome, guest_answer (ss_log ss) id request outcome ∧
         partial_frame (mkResponseEnvelope version id outcome) (ss_to_host ss))
  end.

Record session_ok ss : Prop := {
  so_version : cc_selected_version (ss_client ss) = version;
  so_next : 1 ≤ cc_next_request_id (ss_client ss);
  so_poisoned : cc_stream (ss_client ss) = negb (cc_poisoned (ss_client ss));
  so_closed : cc_closed (ss_client ss) = true → cc_stream (ss_client ss) = false;
  so_log : log_ok (ss_client ss) (ss_log ss);
  so_guest : to_guest_ok ss;
  so_host : to_host_ok ss
}.

Lemma session_start_ok s : session_ok (session_start version s).
Proof.
  constructor; simpl; try done.
  - constructor; simpl; try (intros; set_solver). constructor.
  - intros _. by left.
Qed.

Lemma guest_answer_mono log log' id request outcome :
  guest_answer log id request outcome → guest_answer (log ++ log') id request outcome.
Proof. intros [(r & Hk & ->)|Hk]; [left|right; done]. exists r. split; [set_solver|done]. Qed.

(** Changes of the client that keep the log's facts. *)
Lemma log_ok_client c c' log :
  cc_next_request_id c ≤ cc_next_request_id c' → (cc_poisoned c = true → cc_poisoned c' = true) →
  log_ok c log → log_ok c' log.
Proof.
  intros Hn Hp []. constructor; eauto.
  - intros id request Hk. specialize (lo_attempted0 _ _ Hk). lia.
  - intros id request error [Hk|Hk]%lo_refused0; [left; auto|by right].
Qed.

Lemma executed_app log log' id : executed (log ++ log') id ↔ executed log id ∨ executed log' id.
Proof. unfold executed. setoid_rewrite elem_of_app. naive_solver. Qed.
Lemma executed_ids_spec log id : id ∈ executed_ids log ↔ executed log id.
Proof.
  unfold executed_ids, executed. rewrite list_elem_of_omap. split.
  - intros (e & He & Hk). destruct e; simplify_eq. eauto.
  - intros (request & result & Hk). by exists (Executed id request result).
Qed.

Ltac in_app := repeat match goal with
  | H : _ ∈ _ ++ _ |- _ => apply elem_of_app in H as [H|H]
  | H : _ ∈ [_] |- _ => apply list_elem_of_singleton in H
  | H : _ ∈ [] |- _ => by apply elem_of_nil in H
  end.

(** A fresh attempt, an execution and a return extend the log. *)
Lemma log_ok_attempt c c' log request :
  1 ≤ cc_next_request_id c < cc_next_request_id c' → (cc_poisoned c = true → cc_poisoned c' = true) →
  log_ok c log → log_ok c' (log ++ [Attempted (cc_next_request_id c) request]).
Proof.
  intros Hn Hp [Hatt Huniq Hex Honce Hret Href]. constructor.
  - intros id r Hk. in_app; [specialize (Hatt _ _ Hk); lia|]. injection Hk as -> ->. lia.
  - intros id r1 r2 H1 H2. in_app; simplify_eq; eauto;
      match goal with H : Attempted _ _ ∈ _ |- _ => specialize (Hatt _ _ H); lia end.
  - intros id r res Hk. in_app; [|done]. apply elem_of_app. left. eauto.
  - unfold executed_ids. rewrite omap_app. simpl. by rewrite app_nil_r.
  - intros id r res Hk. in_app; [|done]. destruct (Hret _ _ _ Hk) as (x & Hx & Ex).
    exists x. split; [set_solver|done].
  - intros id r e Hk. in_app; [|done]. destruct (Href _ _ _ Hk) as [Hc|Hc]; [left; auto|right].
    by apply guest_answer_mono.
Qed.

Lemma log_ok_execute c log id request result :
  Attempted id request ∈ log → ¬ executed log id → log_ok c log →
  log_ok c (log ++ [Executed id request result]).
Proof.
  intros Ha Hnew [Hatt Huniq Hex Honce Hret Href]. constructor.
  - intros i r Hk. in_app; [eauto|done].
  - intros i r1 r2 H1 H2. in_app; simplify_eq; eauto.
  - intros i r res Hk. apply elem_of_app. left. in_app; [eauto|]. by injection Hk as -> -> ->.
  - unfold executed_ids. rewrite omap_app. simpl. apply NoDup_app. split_and!; [done| |apply NoDup_singleton].
    intros x Hx ->%list_elem_of_singleton. by apply executed_ids_spec in Hx.
  - intros i r res Hk. in_app; [|done]. destruct (Hret _ _ _ Hk) as (x & Hx & Ex).
    exists x. split; [set_solver|done].
  - intros i r e Hk. in_app; [|done]. destruct (Href _ _ _ Hk) as [Hc|Hc]; [left; auto|right].
    by apply guest_answer_mono.
Qed.

Lemma log_ok_return c c' log id request result :
  cc_next_request_id c = cc_next_request_id c' → (cc_poisoned c = true → cc_poisoned c' = true) →
  match result with
  | Ok response => guest_answer log id request (Succeeded response)
  | Err error => cc_poisoned c' = true ∨ guest_answer log id request (Failed error)
  end →
  log_ok c log → log_ok c' (log ++ [Returned id request result]).
Proof.
  intros Hn Hp Hres [Hatt Huniq Hex Honce Hret Href]. constructor.
  - intros i r Hk. in_app; [rewrite <- Hn; eauto|done].
  - intros i r1 r2 H1 H2. in_app; simplify_eq; eauto.
  - intros i r res Hk. apply elem_of_app. left. in_app; [eauto|done].
  - unfold executed_ids. rewrite omap_app. simpl. by rewrite app_nil_r.
  - intros i r res Hk. in_app.
    + destruct (Hret _ _ _ Hk) as (x & Hx & Ex). exists x. split; [set_solver|done].
    + injection Hk as -> -> <-. destruct Hres as [(x & Hx & Ex)|(e & He & _)]; [|done].
      exists x. split; [set_solver|done].
  - intros i r e Hk. in_app.
    + destruct (Href _ _ _ Hk) as [Hc|Hc]; [left; auto|right]. by apply guest_answer_mono.
    + injection Hk as -> -> <-. destruct Hres as [Hc|Hc]; [by left|right]. by apply guest_answer_mono.
Qed.

(** ** The operations *)

Lemma call_send_spec faults request c tg budget flushes result c' w' :
  cc_stream c = negb (cc_poisoned c) →
  call_send hello faults request c (mkWriter tg budget flushes) = (result, c', w') →
  ((c' = c ∨ c' = poison_and_release c) ∧ wr_bytes w' = tg ∧ ∃ e, result = Err e) ∨
  (cc_stream c = true ∧ cc_next_request_id c' = cc_next_request_id c + 1 ∧
   cc_selected_version c' = cc_selected_version c ∧
   (cc_closed c' = true → cc_stream c' = false) ∧ cc_stream c' = negb (cc_poisoned c') ∧
   let envelope := mkRequestEnvelope (cc_selected_version c) (cc_next_request_id c) request in
   match result with
   | Ok id => id = cc_next_request_id c ∧ cc_stream c' = true
   | Err _ => cc_stream c' = false
   end ∧ (tg = [] → partial_frame envelope (wr_bytes w'))).
Proof.
  intros Hpois. unfold call_send. destruct (rbind (request_validate request) _) as [[]|e];
    [|intros [= <- <- <-]; left; eauto].
  destruct (cc_closed c) eqn:Hclosed; [intros [= <- <- <-]; left; eauto|].
  destruct (cc_poisoned c) eqn:Hp; [intros [= <- <- <-]; left; eauto|].
  simpl in Hpois. unfold checked_add_u64. case_decide as Hadd; [|intros [= <- <- <-]; left; eauto].
  cbn [cc_stream cc_selected_version cc_closed]. rewrite Hpois.
  destruct (hf_before_request_write faults) as [[]|e].
  2:{ intros [= <- <- <-]. right. simpl. split_and!; [done..|]. intros ->. apply partial_nil. }
  destruct (write_frame agent_wire _ _) as [[[]|e] w1] eqn:Hw.
  2:{ intros [= <- <- <-]. right. simpl. split_and!; [done..|]. intros ->.
      by apply write_partial in Hw as [? _]. }
  destruct (rbind (hf_after_request_write faults) _) as [[]|e]; intros [= <- <- <-]; right; simpl;
    split_and!; try done; intros ->; by apply write_partial in Hw as [? _].
Qed.

Lemma call_receive_spec faults request id c r result c' r' :
  call_receive faults request id c r = (result, c', r') →
  (c' = poison_and_release c ∧ ∃ e, result = Err e) ∨
  (c' = c ∧ cc_stream c = true ∧ ∃ outcome,
     read_frame agent_wire r = (Ok (Some (mkResponseEnvelope (cc_selected_version c) id outcome)), r') ∧
     match result with Ok response => outcome = Succeeded response | Err e => outcome = Failed e end).
Proof.
  unfold call_receive. destruct (cc_stream c); [|intros [= <- <- <-]; left; eauto].
  destruct (read_frame agent_wire r) as [[[[v i outcome]|]|e] r1]; [|intros [= <- <- <-]; left; eauto..].
  destruct (rbind (hf_after_response_read faults) _) as [[]|e] eqn:Hv; [|intros [= <- <- <-]; left; eauto].
  apply rbind_ok in Hv as ([] & _ & Hv). unfold response_envelope_validate in Hv. inv_ok. simpl in *.
  repeat match goal with H : negb (_ =? _) = false |- _ => apply negb_false_iff, Z.eqb_eq in H end. subst.
  destruct outcome as [response|error].
  - destruct (validate_response_for_request request response); intros [= <- <- <-]; [right|left; eauto].
    eauto.
  - intros [= <- <- <-]. right. eauto.
Qed.

(** A round on the bytes of one request envelope. *)
Lemma write_response_partial faults v id outcome budget flushes res w' :
  write_response faults v id outcome (mkWriter [] budget flushes) = (res, w') →
  partial_frame (mkResponseEnvelope v id outcome) (wr_bytes w').
Proof.
  unfold write_response, bind, lift. destruct (gf_before_response_write faults) as [[]|e];
    [|intros [= <- <-]; apply partial_nil].
  destruct (write_frame agent_wire _ _) as [[[]|e] w1] eqn:Hw; apply write_partial in Hw as [Hw _];
    by intros [= <- <-].
Qed.

Lemma serve_request_spec faults s r w served ran s' r' w' :
  serve_request faults version s r w = (served, ran, s', r', w') →
  ((∀ e, (read_frame agent_wire (T:=RequestEnvelope) r).1 ≠ Ok (Some e)) ∧ ran = RanNothing ∧ w' = w ∧
   ∃ res, served = Stop res) ∨
  ∃ envelope, read_frame agent_wire r = (Ok (Some envelope), r') ∧
    let id := re_request_id envelope in
    (w' = w ∨ ∃ outcome faults' res, write_response faults' version id outcome w = (res, w') ∧
       match ran with
       | RanNothing => ∃ error, outcome = Failed error ∧ request_envelope_validate envelope version = Err error
       | RanRequest _ _ result => outcome = service_outcome result
       end) ∧
    (ran = RanNothing ∨ ∃ result, ran = RanRequest id (re_request envelope) result).
Proof.
  unfold serve_request. destruct (read_frame agent_wire r) as [[[envelope|]|e] r1].
  - intros Hrun. right. exists envelope.
    destruct (request_envelope_validate envelope version) as [[]|error] eqn:Hv.
    + destruct (rbind (gf_after_request_read faults) _) as [[]|e];
        [|injection Hrun as <- <- <- <- <-; auto].
      destruct (dispatch (re_request envelope) s) as [dispatched s1].
      destruct (gf_after_dispatch faults) as [[]|e]; [|injection Hrun as <- <- <- <- <-; eauto 10].
      destruct (write_response faults version _ _ w) as [[[]|e] w1] eqn:Hw;
        injection Hrun as <- <- <- <- <-; (split; [done|split; [right; eauto 10|eauto]]).
    + destruct (write_response faults version _ _ w) as [[[]|e] w1] eqn:Hw;
        injection Hrun as <- <- <- <- <-; (split; [done|split; [right; eauto 10|eauto]]).
  - intros [= <- <- <- <- <-]. left. simpl. split_and!; [done..|eauto].
  - intros [= <- <- <- <- <-]. left. simpl. split_and!; [done..|eauto].
Qed.

(** ** Preservation *)

Lemma poison_ok ss c' :
  c' = poison_and_release (ss_client ss) → session_ok ss → ∀ result_log,
  log_ok c' (ss_log ss ++ result_log) → (∀ id, executed result_log id → executed (ss_log ss) id) →
  ∀ to_host, session_ok (mkSession c' None (ss_to_guest ss) to_host (ss_serving ss) (ss_state ss)
    (ss_log ss ++ result_log)).
Proof.
  intros -> [Hv Hn Hp Hcl Hl Hg Hh] extra Hlog Hex to_host. constructor; simpl; [done..| |done].
  intros Hs. destruct (Hg Hs) as [Hnil|(id & request & Ha & Hne & Hpart & _)]; [by left|right].
  exists id, request. split_and!; [set_solver| |done|done].
  simpl. rewrite executed_app. naive_solver.
Qed.

Lemma step_call_ok ss faults request budget flushes result c' w' :
  session_ok ss → ss_call ss = None →
  call_send hello faults request (ss_client ss) (mkWriter (ss_to_guest ss) budget flushes)
    = (result, c', w') →
  session_ok (mkSession c' (match result with Ok id => Some (id, request) | Err _ => None end)
    (wr_bytes w') (ss_to_host ss) (ss_serving ss) (ss_state ss)
    (ss_log ss ++ attempt_event (ss_client ss) c' request)).
Proof.
  intros Hok Hcall Hsend. pose proof Hok as [Hv Hn Hp Hcl Hl Hg Hh].
  destruct (call_send_spec _ _ _ _ _ _ _ _ _ Hp Hsend)
    as [([->| ->] & -> & e & ->)|(Hlive & Hnext & Hver & Hclosed & Hp' & Hres & Hpart)].
  - unfold attempt_event. rewrite Z.eqb_refl, app_nil_r.
    destruct ss as [c call tg th serving s log]. simpl in *. by subst.
  - unfold attempt_event. simpl. rewrite Z.eqb_refl. apply (poison_ok ss); [done..| |].
    + rewrite app_nil_r. by apply (log_ok_client (ss_client ss)).
    + intros id (? & ? & Hx). by apply elem_of_nil in Hx.
  - assert (attempt_event (ss_client ss) c' request = [Attempted (cc_next_request_id (ss_client ss)) request])
      as -> by (unfold attempt_event; rewrite (proj2 (Z.eqb_neq _ _)) by lia; done).
    assert (ss_serving ss = true → ss_to_guest ss = []) as Htg.
    { intros [?|(id & r & _ & _ & _ & Hc)]%Hg; [done|]. destruct (Hc Hlive). congruence. }
    assert (ss_to_host ss = []) as Hth by (specialize (Hh Hlive); by rewrite Hcall in Hh).
    rewrite Hv in Hpart.
    constructor; simpl; [congruence|lia|done|by apply Hclosed| | |].
    + apply log_ok_attempt; [lia| |done]. intros Hx. rewrite Hx in Hp. by rewrite Hp in Hlive.
    + intros Hs. simpl in Hs. right. exists (cc_next_request_id (ss_client ss)), request.
      split_and!; [set_solver| |by apply Hpart, Htg|].
      * simpl. rewrite executed_app. intros [(r & res & Hx)|(r & res & Hx)].
        -- apply (lo_executed _ _ Hl), (lo_attempted _ _ Hl) in Hx. lia.
        -- by apply list_elem_of_singleton in Hx.
      * simpl. intros Hs'. destruct result as [id|e]; [destruct Hres as [-> _]; done|congruence].
    + unfold to_host_ok. simpl. intros Hs'. destruct result as [id|e]; [|congruence].
      destruct Hres as [-> _]. split; [set_solver|by left].
Qed.

Lemma step_receive_ok ss faults id request k ending result c' r' :
  session_ok ss → ss_call ss = Some (id, request) →
  call_receive faults request id (ss_client ss) (mkReader (take k (ss_to_host ss)) ending)
    = (result, c', r') →
  session_ok (mkSession c' None (ss_to_guest ss) (rd_bytes r' ++ drop k (ss_to_host ss)) (ss_serving ss)
    (ss_state ss) (ss_log ss ++ [Returned id request result])).
Proof.
  intros Hok Hcall Hrecv. pose proof Hok as [Hv Hn Hp Hcl Hl Hg Hh].
  assert (∀ i, executed [Returned id request result] i → executed (ss_log ss) i) as Hret.
  { intros i (? & ? & Hx). by apply list_elem_of_singleton in Hx. }
  destruct (call_receive_spec _ _ _ _ _ _ _ _ Hrecv) as [(-> & e & ->)|(-> & Hlive & outcome & Hread & Hres)].
  - apply (poison_ok ss); [done..| |done].
    apply (log_ok_return (ss_client ss)); [done|done| |done]. by left.
  - rewrite Hv in Hread. specialize (Hh Hlive) as Hth. rewrite Hcall in Hth.
    destruct Hth as [Ha [Hnil|(outcome' & Hans & Hpart)]].
    { rewrite Hnil, take_nil in Hread. cbn in Hread. by destruct ending. }
    destruct (read_partial _ _ _ _ _ (partial_take _ _ k Hpart) Hread) as [([= ->] & Hwhole & Hrd)|Hno];
      [|by destruct (Hno _ eq_refl)].
    pose proof (whole_take_rest _ _ _ Hpart Hwhole) as Hdrop.
    constructor; simpl; [done|done|done|done| | |].
    + apply (log_ok_return (ss_client ss)); [done|done| |done].
      destruct result; [by rewrite <- Hres|right; by rewrite <- Hres].
    + intros Hs. simpl in Hs. destruct (Hg Hs) as [?|(i & r & Hai & _ & _ & Hc)]; [by left|].
      destruct (Hc Hlive) as [_ Hnil]. rewrite Hnil in Hwhole. rewrite take_nil in Hwhole.
      apply frame_nonempty in Hwhole. simpl in Hwhole. lia.
    + unfold to_host_ok. simpl. intros _. by rewrite Hrd, Hdrop.
Qed.

(** A server that stops leaves what it has written to the call in flight. *)
Lemma step_stop_ok ss s' to_guest :
  session_ok ss →
  session_ok (mkSession (ss_client ss) (ss_call ss) to_guest (ss_to_host ss) false s' (ss_log ss)).
Proof. intros [Hv Hn Hp Hcl Hl Hg Hh]. by constructor. Qed.

Lemma step_serve_ok ss faults k ending budget flushes served ran s' r' w' :
  session_ok ss → ss_serving ss = true →
  serve_request faults version (ss_state ss) (mkReader (take k (ss_to_guest ss)) ending)
    (mkWriter (ss_to_host ss) budget flushes) = (served, ran, s', r', w') →
  session_ok (mkSession (ss_client ss) (ss_call ss) (rd_bytes r' ++ drop k (ss_to_guest ss)) (wr_bytes w')
    (match served with Continue => true | Stop _ => false end) s' (ss_log ss ++ ran_event ran)).
Proof.
  intros Hok Hserving Hserve. pose proof Hok as [Hv Hn Hp Hcl Hl Hg Hh].
  destruct (serve_request_spec _ _ _ _ _ _ _ _ _ Hserve)
    as [(_ & -> & -> & res & ->)|(envelope & Hread & Hwrite & Hran)].
  { simpl. rewrite app_nil_r. by apply step_stop_ok. }
  destruct (Hg Hserving) as [Hnil|(id & request & Ha & Hne & Hpart & Hlive)].
  { rewrite Hnil, take_nil in Hread. cbn in Hread. by destruct ending. }
  destruct (read_partial _ _ _ _ _ (partial_take _ _ k Hpart) Hread) as [([= ->] & Hwhole & Hrd)|Hno];
    [|by destruct (Hno _ eq_refl)].
  rewrite Hrd, (whole_take_rest _ _ _ Hpart Hwhole). simpl in Hwrite, Hran.
  assert (log_ok (ss_client ss) (ss_log ss ++ ran_event ran)) as Hlog.
  { destruct Hran as [->|[result ->]]; [simpl; by rewrite app_nil_r|by apply log_ok_execute]. }
  constructor; simpl; [done..|intros _; by left|].
  unfold to_host_ok. simpl. intros Hs. destruct (Hlive Hs) as [-> Hth]. split; [set_solver|].
  destruct Hwrite as [->|(outcome & faults' & res & Hw & Hout)]; [by left|right].
  rewrite Hth in Hw. apply write_response_partial in Hw. exists outcome. split; [|done].
  destruct Hran as [->|[result ->]]; simpl in *.
  - destruct Hout as (error & -> & Hv'). right. eauto.
  - left. exists result. split; [set_solver|done].
Qed.

Lemma session_step_ok ss ss' : session_ok ss → session_step hello version ss ss' → session_ok ss'.
Proof.
  intros Hok Hstep.
  destruct Hstep as [ss faults request budget flushes result c' w' Hc Hs
    |ss faults id request k ending result c' r' Hc Hs|ss id request Hc|ss before after shutdown Hc
    |ss faults k ending budget flushes served ran s' r' w' Hc Hs].
  - by apply step_call_ok with faults budget flushes.
  - by apply step_receive_ok with faults ending.
  - rewrite <- (app_nil_r (ss_log ss)). apply poison_ok; [done|done| |].
    + rewrite app_nil_r. apply (log_ok_client (ss_client ss)); [done|done|by apply Hok].
    + intros i (? & ? & Hx). by apply elem_of_nil in Hx.
  - destruct Hok as [Hv Hn Hp Hcl Hl Hg Hh]. unfold close.
    destruct (cc_closed (ss_client ss)); simpl.
    { constructor; simpl; try done.
      - intros _. by apply Hcl.
      - intros Hserv. destruct (Hg Hserv) as [?|(i & r & ? & ? & ? & Hlive)]; [by left|right].
        exists i, r. split_and!; [done..|]. intros Hst. destruct (Hlive Hst). congruence.
      - intros Hst. specialize (Hh Hst). simpl. by rewrite Hc in Hh. }
    assert (∀ x : Result (), session_ok (mkSession (x, mkClient false (cc_selected_version (ss_client ss))
      (cc_next_request_id (ss_client ss)) true true).2 None (ss_to_guest ss) (ss_to_host ss) (ss_serving ss)
      (ss_state ss) (ss_log ss))) as Hx.
    { intros x. constructor; simpl; [done..| | |done].
      - by apply (log_ok_client (ss_client ss)).
      - intros Hserv. destruct (Hg Hserv) as [?|(i & r & ? & ? & ? & _)]; [by left|right].
        exists i, r. by split_and!. }
    destruct (cc_stream (ss_client ss)); [|apply (Hx (Ok ()))].
    destruct before as [[]|e]; [|apply (Hx (Err e))]. apply Hx.
  - by eapply step_serve_ok.
Qed.

(** ** Every run of a connection *)

Definition session_reachable (s : S) : Session S → Prop := rtc (session_step hello version) (session_start version s).

Lemma session_reachable_ok s ss : session_reachable s ss → session_ok ss.
Proof.
  unfold session_reachable. intros Hr. remember (session_start version s) as ss0 eqn:E.
  assert (session_ok ss0) as H0 by (subst; apply session_start_ok). clear E.
  induction Hr as [|a b c Hab _ IH]; [done|]. apply IH. by eapply session_step_ok.
Qed.


(** ** A call without faults *)

Lemma write_frame_whole {T} `{!Json T} (v : T) b tg :
  frame_of agent_wire v = Some b →
  write_frame agent_wire v (mkWriter tg None true) = (Ok (), mkWriter (tg ++ b) None true).
Proof.
  unfold frame_of, write_frame, bind, lift, ok_or, reject_if. destruct (to_vec v) as [payload|]; [|done].
  cbv zeta. destruct (u32_max <? _); [done|]. simpl orb.
  destruct ((Z.of_nat (length payload) =? 0) || _) eqn:Hb; rewrite ?Hb; [done|]. intros [= <-].
  unfold write_all, flush. cbn [wr_budget wr_bytes wr_flushes]. by rewrite <- app_assoc.
Qed.

(** The three halves of a call, when nothing fails. *)
Lemma call_send_honest request c b :
  cc_stream c = true → cc_poisoned c = false → cc_closed c = false →
  request_validate request = Ok () →
  request_operation request ∈ cap_operations (hello_capabilities hello) →
  cc_next_request_id c < u64_max →
  frame_of agent_wire (mkRequestEnvelope (cc_selected_version c) (cc_next_request_id c) request) = Some b →
  call_send hello no_host_faults request c (mkWriter [] None true) =
  (Ok (cc_next_request_id c),
   mkClient true (cc_selected_version c) (cc_next_request_id c + 1) false false, mkWriter b None true).
Proof.
  intros Hlive Hpois Hclosed Hreq Hadv Hid Hb. unfold call_send. rewrite Hreq. simpl.
  unfold ensure_advertised. rewrite bool_decide_true by done.
  rewrite Hclosed, Hpois. unfold checked_add_u64. rewrite decide_True by lia.
  cbn [cc_stream]. by rewrite Hlive, (write_frame_whole _ b []) by done.
Qed.

Lemma serve_request_honest request id s result s' b a :
  id ≠ 0 → request_validate_for request version = Ok () → dispatch request s = (result, s') →
  frame_of agent_wire (mkRequestEnvelope version id request) = Some b →
  frame_of agent_wire (mkResponseEnvelope version id (service_outcome result)) = Some a →
  serve_request no_guest_faults version s (mkReader b Eof) (mkWriter [] None true) =
  (Continue, RanRequest id request result, s', mkReader [] Eof, mkWriter a None true).
Proof.
  intros Hid Hvalid Hdisp Hb Ha. unfold serve_request.
  rewrite <- (app_nil_r b), (read_frame_whole _ _ _ _ _ Hb). simpl.
  unfold request_envelope_validate. simpl. rewrite Z.eqb_refl. simpl.
  rewrite (proj2 (Z.eqb_neq id 0)) by done. simpl. rewrite Hvalid. simpl.
  rewrite Hdisp. unfold write_response, bind, lift. simpl. by rewrite (write_frame_whole _ a []) by done.
Qed.

Lemma call_receive_honest request id c outcome a :
  cc_stream c = true → frame_of agent_wire (mkResponseEnvelope (cc_selected_version c) id outcome) = Some a →
  response_envelope_validate (mkResponseEnvelope (cc_selected_version c) id outcome)
    (cc_selected_version c) id = Ok () →
  (∀ response, outcome = Succeeded response → validate_response_for_request request response = Ok ()) →
  call_receive no_host_faults request id c (mkReader a Eof) =
  (match outcome with Succeeded r => Ok r | Failed e => Err e end, c, mkReader [] Eof).
Proof.
  intros Hlive Ha Henv Hmatch. unfold call_receive. rewrite Hlive.
  rewrite <- (app_nil_r a), (read_frame_whole _ _ _ _ _ Ha).
  cbn [hf_after_response_read no_host_faults rbind]. rewrite Henv. cbn [rs_outcome].
  destruct outcome as [response|error]; [|done]. by rewrite Hmatch by done.
Qed.

(** C32: A live connection serves a valid call to the end: when nothing fails, the
    request is executed once, the caller receives the service's outcome, and
    the connection is ready for the next call. *)
Theorem agent_call_completes s ss request result s' :
  session_reachable s ss →
  cc_stream (ss_client ss) = true → ss_call ss = None → ss_serving ss = true →
  request_operation request ∈ cap_operations (hello_capabilities hello) →
  request_validate_for request version = Ok () →
  let id := cc_next_request_id (ss_client ss) in
  let answer := mkResponseEnvelope version id (service_outcome result) in
  id < u64_max → dispatch request (ss_state ss) = (result, s') →
  is_Some (frame_of agent_wire (mkRequestEnvelope version id request)) →
  is_Some (frame_of agent_wire answer) → response_envelope_validate answer version id = Ok () →
  (∀ response, service_outcome result = Succeeded response →
     validate_response_for_request request response = Ok ()) →
  ∃ ss', session_reachable s ss' ∧ ss_state ss' = s' ∧ ss_call ss' = None ∧ ss_serving ss' = true ∧
    cc_stream (ss_client ss') = true ∧
    ss_log ss' = ss_log ss ++ [Attempted id request; Executed id request result;
      Returned id request (match service_outcome result with Succeeded r => Ok r | Failed e => Err e end)].
Proof.
  intros Hr Hlive Hcall Hserv Hadv Hvalid id answer Hid Hdisp [b Hb] [a Ha] Henv Hmatch.
  pose proof (session_reachable_ok _ _ Hr) as [Hv Hn Hp Hcl Hl Hg Hh].
  assert (cc_poisoned (ss_client ss) = false) as Hpois by (rewrite Hlive in Hp; by destruct (cc_poisoned _)).
  assert (cc_closed (ss_client ss) = false) as Hclosed
    by (destruct (cc_closed _); [by rewrite Hcl in Hlive|done]).
  assert (ss_to_guest ss = []) as Htg.
  { destruct (Hg Hserv) as [?|(i & r & _ & _ & _ & Hc)]; [done|]. destruct (Hc Hlive). congruence. }
  assert (ss_to_host ss = []) as Hth by (specialize (Hh Hlive); by rewrite Hcall in Hh).
  assert (request_validate request = Ok ()) as Hreq
    by (unfold request_validate_for in Hvalid; inv_ok; repeat match goal with u : () |- _ => destruct u end; done).
  subst id answer. rewrite <- Hv in Hb.
  pose proof (call_send_honest _ _ _ Hlive Hpois Hclosed Hreq Hadv Hid Hb) as Hsend.
  rewrite Hv in Hb, Hsend. rewrite <- Htg in Hsend.
  pose proof (step_call hello version ss no_host_faults request None true _ _ _ Hcall Hsend) as H1.
  unfold attempt_event in H1. cbn [cc_next_request_id] in H1.
  rewrite (proj2 (Z.eqb_neq _ (cc_next_request_id (ss_client ss) + 1))) in H1 by lia.
  rewrite Hth, Hserv in H1. set (ss1 := mkSession _ _ _ _ _ _ _) in H1.
  assert (cc_next_request_id (ss_client ss) ≠ 0) as Hnz by lia.
  pose proof (serve_request_honest request _ _ _ _ _ _ Hnz Hvalid Hdisp Hb Ha) as Hserve.
  rewrite <- (firstn_all b) in Hserve.
  pose proof (step_serve hello version ss1 no_guest_faults (length b) Eof None true _ _ _ _ _ eq_refl Hserve) as H2.
  simpl in H2. rewrite drop_ge in H2 by done. set (ss2 := mkSession _ _ _ _ _ _ _) in H2.
  rewrite <- (firstn_all a) in Ha.
  pose proof (call_receive_honest request _ (ss_client ss2) _ _ eq_refl Ha Henv Hmatch) as Hrecv.
  pose proof (step_receive hello version ss2 no_host_faults _ request (length a) Eof _ _ _ eq_refl Hrecv) as H3.
  simpl in H3. rewrite drop_ge in H3 by done.
  match type of H3 with session_step _ _ _ ?ss3 => exists ss3 end.
  split_and!; [|done..|simpl; by rewrite <- !app_assoc].
  unfold session_reachable in *. etrans; [exact Hr|].
  eapply rtc_l; [exact H1|]. eapply rtc_l; [exact H2|]. by apply rtc_once.
Qed.
End correlation.

(** * A concrete agent connection

    The theorems of [AgentSessionProps] range over the JSON codec, the service
    and the unmodelled validators.  Here they are instantiated: a codec for
    delete requests and their answers, and a service that counts deletions. *)

#[local] Instance demo_env : AgentEnv := {|
  bundle_from_json _ _ := Err (protocol_error Unsupported "demo");
  attachments_from_bundle _ _ := Err (protocol_error Unsupported "demo");
  create_request_validate _ := Ok ();
  validate_process _ := Ok ();
  validate_linux_resources _ := Ok ();
  base64_decoded_len _ := None;
  has_control _ := false;
  has_control_or_space _ := false
|}.

Definition demo_delete (generation : Z) : AgentRequest :=
  ReqDelete (mkAgentDelete (mkOperationContext "op" None) (target_exact "a" generation) StoppedOnly).

#[local] Instance demo_host_hello : Json HostHello := { to_vec _ := None; from_slice _ := None }.
#[local] Instance demo_hello_outcome : Json HelloOutcome := { to_vec _ := None; from_slice _ := None }.
#[local] Instance demo_request : Json RequestEnvelope := {
  to_vec e := match re_request e with
    | ReqDelete (mkAgentDelete (mkOperationContext op None) (mkContainerTarget id (Some g)) StoppedOnly) =>
        if bool_decide (op = "op" ∧ id = "a") then Some [re_version e; re_request_id e; g] else None
    | _ => None
    end;
  from_slice b := match b with
    | [v; i; g] => Some (mkRequestEnvelope v i (demo_delete g))
    | _ => None
    end
}.
#[local] Instance demo_request_laws : JsonLaws RequestEnvelope.
Proof.
  constructor. intros [v i request] b. simpl. destruct request; try done.
  destruct r as [[op [d|]] [id [g|]] []]; try done. case_bool_decide as D; [|done].
  destruct D as [-> ->]. by intros [= <-].
Qed.
#[local] Instance demo_response : Json ResponseEnvelope := {
  to_vec e := match rs_outcome e with
    | Succeeded RespDeleted => Some [rs_version e; rs_request_id e]
    | _ => None
    end;
  from_slice b := match b with
    | [v; i] => Some (mkResponseEnvelope v i (Succeeded RespDeleted))
    | _ => None
    end
}.
#[local] Instance demo_response_laws : JsonLaws ResponseEnvelope.
Proof.
  constructor. intros [v i outcome] b. simpl. destruct outcome as [[]|]; try done. by intros [= <-].
Qed.

Definition unsupported {W A} : prog W Error A := fail (protocol_error Unsupported "demo").
#[local] Instance demo_service : GuestAgentService nat := {|
  svc_capabilities := mkCapabilities "1" "x86_64" [OpDelete] AGENT_MAX_FRAME_BYTES;
  svc_acknowledge_operations _ := unsupported;
  svc_create _ := unsupported; svc_state _ := unsupported; svc_start _ := unsupported;
  svc_kill _ := unsupported; svc_delete _ := λ n, (Ok (), S n);
  svc_wait _ := unsupported; svc_exec _ := unsupported; svc_signal_process _ := unsupported;
  svc_wait_process _ := unsupported; svc_pause _ := unsupported; svc_resume _ := unsupported;
  svc_processes _ := unsupported; svc_update _ := unsupported; svc_stats _ := unsupported;
  svc_read_output _ := unsupported; svc_write_stdin _ := unsupported; svc_close_stdin _ := unsupported;
  svc_resize _ := unsupported; svc_file _ := unsupported; svc_filesystem _ := unsupported
|}.
Definition demo_hello : AgentHello := mkAgentHello 10 svc_capabilities.

(** A call whose caller goes away: the request is on the stream. *)
Definition demo_cancelled : Session nat :=
  mkSession (mkClient false 10 2 true false) None [0; 0; 0; 3; 10; 1; 7] [] true 0%nat
    [Attempted 1 (demo_delete 7)].
Lemma demo_cancelled_reachable : session_reachable demo_hello 10 0%nat demo_cancelled.
Proof.
  eapply rtc_l; [eapply (step_call _ _ _ no_host_faults (demo_delete 7) None true); reflexivity|].
  eapply rtc_l; [eapply step_cancel; reflexivity|]. apply rtc_refl.
Qed.


(** The theorem at the first call of a fresh connection. *)
Lemma agent_call_completes_witness :
  ∃ ss' : Session nat, ss_state ss' = 1%nat ∧
    ss_log ss' = [Attempted 1 (demo_delete 7); Executed 1 (demo_delete 7) (Ok RespDeleted);
                  Returned 1 (demo_delete 7) (Ok RespDeleted)].
Proof.
  destruct (agent_call_completes demo_hello 10 0%nat (session_start 10 0%nat) (demo_delete 7)
    (Ok RespDeleted) 1%nat) as (ss' & _ & Hs & _ & _ & _ & Hlog).
  - apply rtc_refl.
  - reflexivity.
  - reflexivity.
  - reflexivity.
  - apply list_elem_of_In. simpl. auto.
  - reflexivity.
  - reflexivity.
  - reflexivity.
  - by eexists.
  - by eexists.
  - reflexivity.
  - intros response. intros [= <-]. reflexivity.
  - exists ss'. split; [exact Hs|exact Hlog].
Defined.
