(* ===== verification/GuestJournal.v ===== *)
(** * The guest's operation journal (agent/src/executor/state.rs)

    Every mutating request carries an operation ID.  The executor records the
    outcome of each, replays it for the same request, joins retries of a
    request that is still running and refuses an ID that comes back with
    another request.  The host acknowledges outcomes it has stored, which
    releases their records.

    A [watch] channel is a cell that starts empty and is filled once: cells are
    numbered and live in the journal, so that the callers that wait on the same
    operation share one. *)

From stdpp Require Import base gmap list relations strings.
From S2P Require Import Prelude Sdk AgentModel Wire.
From Stdlib Require Import ZArith Lia.

Local Open Scope string_scope.
Local Open Scope list_scope.
Local Open Scope Z_scope.

Definition executor_error (c : ErrorCode) (msg : string) : Error :=
  for_operation (error_new c msg) "linux-guest-executor".
Definition MAX_OPERATION_RECORDS : nat := Z.to_nat AGENT_MAX_ACKNOWLEDGED_OPERATIONS.

(** ** Recorded requests and outcomes *)

Inductive MutationKind : Type :=
  | MutCreate | MutStart | MutKill | MutDelete | MutExec | MutSignalProcess | MutPause | MutResume
  | MutUpdate | MutWriteStdin | MutCloseStdin | MutResize | MutFile | MutFilesystem.
#[global] Instance MutationKind_eq_dec : EqDecision MutationKind.
Proof. solve_decision. Defined.

Record RecordedRequest : Type := mkRecorded { rq_kind : MutationKind; rq_digest : bytes }.
#[global] Instance RecordedRequest_eq_dec : EqDecision RecordedRequest.
Proof. solve_decision. Defined.

(** The JSON text of a request is third-party. *)
Class Canonical (T : Type) : Type := { canonical_json : T → option bytes }.

(** [RecordedRequest::new] *)
Definition recorded_new `{!Sha256} {T} `{!Canonical T} (kind : MutationKind) (request : T)
    : Result RecordedRequest :=
  try! encoded := ok_or (executor_error Internal
    "failed to fingerprint guest operation request: {error}") (canonical_json request) in
  Ok (mkRecorded kind (sha256 encoded)).

Inductive RecordedOutcome : Type :=
  | OutState (r : Result AgentState)
  | OutUnit (r : Result ())
  | OutProcess (r : Result AgentProcess)
  | OutFile (r : Result FileResponse)
  | OutFilesystem (r : Result FilesystemResponse).

Inductive PendingOperationKind : Type := KindState | KindUnit | KindProcess | KindFile | KindFilesystem.
#[global] Instance PendingOperationKind_eq_dec : EqDecision PendingOperationKind.
Proof. solve_decision. Defined.

Definition error_outcome (kind : PendingOperationKind) (e : Error) : RecordedOutcome :=
  match kind with
  | KindState => OutState (Err e) | KindUnit => OutUnit (Err e) | KindProcess => OutProcess (Err e)
  | KindFile => OutFile (Err e) | KindFilesystem => OutFilesystem (Err e)
  end.
Definition outcome_kind (o : RecordedOutcome) : PendingOperationKind :=
  match o with
  | OutState _ => KindState | OutUnit _ => KindUnit | OutProcess _ => KindProcess
  | OutFile _ => KindFile | OutFilesystem _ => KindFilesystem
  end.

(** The five result types of an operation: how each is recorded and found
    again. *)
Class OutcomeKind (T : Type) : Type := {
  ok_kind : PendingOperationKind;
  inject : Result T → RecordedOutcome;
  project : RecordedOutcome → option (Result T)
}.
Class OutcomeKindLaws (T : Type) `{!OutcomeKind T} : Prop := {
  project_inject r : project (inject r) = Some r;
  inject_project o r : project o = Some r → o = inject r;
  project_none o : project o = None → outcome_kind o ≠ ok_kind;
  inject_kind r : outcome_kind (inject r) = ok_kind;
  inject_error e : error_outcome ok_kind e = inject (Err e)
}.
#[global] Instance state_outcome : OutcomeKind AgentState := {
  ok_kind := KindState; inject := OutState; project o := match o with OutState r => Some r | _ => None end }.
#[global] Instance unit_outcome : OutcomeKind () := {
  ok_kind := KindUnit; inject := OutUnit; project o := match o with OutUnit r => Some r | _ => None end }.
#[global] Instance process_outcome : OutcomeKind AgentProcess := {
  ok_kind := KindProcess; inject := OutProcess; project o := match o with OutProcess r => Some r | _ => None end }.
#[global] Instance file_outcome : OutcomeKind FileResponse := {
  ok_kind := KindFile; inject := OutFile; project o := match o with OutFile r => Some r | _ => None end }.
#[global] Instance filesystem_outcome : OutcomeKind FilesystemResponse := {
  ok_kind := KindFilesystem; inject := OutFilesystem;
  project o := match o with OutFilesystem r => Some r | _ => None end }.

Ltac solve_outcome_kind := constructor; [done|intros [] ?; naive_solver|by intros []|done|done].
#[global] Instance state_outcome_laws : OutcomeKindLaws AgentState.
Proof. solve_outcome_kind. Qed.
#[global] Instance unit_outcome_laws : OutcomeKindLaws ().
Proof. solve_outcome_kind. Qed.
#[global] Instance process_outcome_laws : OutcomeKindLaws AgentProcess.
Proof. solve_outcome_kind. Qed.
#[global] Instance file_outcome_laws : OutcomeKindLaws FileResponse.
Proof. solve_outcome_kind. Qed.
#[global] Instance filesystem_outcome_laws : OutcomeKindLaws FilesystemResponse.
Proof. solve_outcome_kind. Qed.

(** ** The journal *)

Record OperationRecord : Type := mkOperationRecord {
  or_request : RecordedRequest; or_outcome : RecordedOutcome
}.
Record PendingOperation : Type := mkPendingOperation {
  po_request : RecordedRequest; po_kind : PendingOperationKind; po_completion : nat
}.
Record OperationJournal : Type := mkJournal {
  jn_operations : gmap string OperationRecord;
  jn_pending_operations : gmap string PendingOperation;
  jn_cells : gmap nat (option RecordedOutcome);
  jn_next_cell : nat
}.
Definition journal_default : OperationJournal := mkJournal ∅ ∅ ∅ 0.

Definition reused_operation : Error :=
  executor_error Conflict "guest operation ID {operation_id} was reused across operation kinds".
(** [OperationRecord::validate_request] and [PendingOperation::validate_request] *)
Definition validate_recorded (recorded request : RecordedRequest) : Result () :=
  if bool_decide (recorded = request) then Ok ()
  else Err (executor_error Conflict "guest operation ID was reused for a different request").

Definition acknowledge_operations (ids : list string) (j : OperationJournal)
    : Result () * OperationJournal :=
  if (MAX_OPERATION_RECORDS <? length ids)%nat
  then (Err (executor_error InvalidArgument
          "guest operation acknowledgement contains {} entries; maximum is {MAX_OPERATION_RECORDS}"), j)
  else if existsb (λ id, bool_decide (is_Some (jn_pending_operations j !! id))) ids
  then (Err (executor_error FailedPrecondition
          "guest operation {operation_id} cannot be acknowledged while it is still pending"), j)
  else (Ok (), mkJournal (foldl (λ m id, delete id m) (jn_operations j) ids)
                 (jn_pending_operations j) (jn_cells j) (jn_next_cell j)).

Definition reserve_operation (id : string) (j : OperationJournal) : Result () :=
  if bool_decide (is_Some (jn_pending_operations j !! id)) then Err reused_operation
  else if (MAX_OPERATION_RECORDS <=? size (jn_operations j) + size (jn_pending_operations j))%nat
  then Err (executor_error ResourceExhausted
         "guest operation journal reached {MAX_OPERATION_RECORDS} entries before operation {operation_id}")
  else Ok ().

(** [record] *)
Definition journal_record (id : string) (request : RecordedRequest) (outcome : RecordedOutcome)
    (j : OperationJournal) : OperationJournal :=
  mkJournal (<[id := mkOperationRecord request outcome]> (jn_operations j))
    (jn_pending_operations j) (jn_cells j) (jn_next_cell j).

Inductive PendingOperationPreparation : Type := PrepPending (cell : nat) | PrepClaimed (cell : nat).

Definition prepare_pending_operation (id : string) (request : RecordedRequest)
    (kind : PendingOperationKind) (j : OperationJournal)
    : Result PendingOperationPreparation * OperationJournal :=
  match jn_pending_operations j !! id with
  | Some pending =>
      if bool_decide (po_kind pending = kind)
      then (try! u := validate_recorded (po_request pending) request in
            Ok (PrepPending (po_completion pending)), j)
      else (Err reused_operation, j)
  | None =>
      match reserve_operation id j with
      | Err e => (Err e, j)
      | Ok _ =>
          let cell := jn_next_cell j in
          (Ok (PrepClaimed cell),
           mkJournal (jn_operations j)
             (<[id := mkPendingOperation request kind cell]> (jn_pending_operations j))
             (<[cell := None]> (jn_cells j)) (S cell))
      end
  end.

(** [completion.send_replace(Some(outcome))] *)
Definition send_cell (cell : nat) (outcome : RecordedOutcome) (j : OperationJournal)
    : OperationJournal :=
  mkJournal (jn_operations j) (jn_pending_operations j) (<[cell := Some outcome]> (jn_cells j))
    (jn_next_cell j).

Definition complete_pending_operation (id : string) (request : RecordedRequest)
    (outcome : RecordedOutcome) (j : OperationJournal) : Result () * OperationJournal :=
  match jn_pending_operations j !! id with
  | None => (Err (executor_error Internal
      "guest operation {operation_id} completed without an active claim"), j)
  | Some pending =>
      let j := mkJournal (jn_operations j) (delete id (jn_pending_operations j)) (jn_cells j)
                 (jn_next_cell j) in
      let result := if bool_decide (po_kind pending = outcome_kind outcome)
                    then validate_recorded (po_request pending) request
                    else Err reused_operation in
      match result with
      | Err error =>
          let outcome := error_outcome (po_kind pending) error in
          (Err error,
           send_cell (po_completion pending) outcome
             (journal_record id (po_request pending) outcome j))
      | Ok _ => (Ok (), send_cell (po_completion pending) outcome (journal_record id request outcome j))
      end
  end.

(** [replay_state], [replay_unit], ...: the recorded outcome of an operation. *)
Definition replay {T} `{!OutcomeKind T} (id : string) (request : RecordedRequest)
    (j : OperationJournal) : option (Result T) :=
  match jn_operations j !! id with
  | None => None
  | Some record => Some (
      check! validate_recorded (or_request record) request;
      match project (or_outcome record) with
      | Some result => result
      | None => Err reused_operation
      end)
  end.

(** [StateOperationPreparation], [UnitOperationPreparation], ... *)
Inductive Preparation (T : Type) : Type :=
  | Completed (result : Result T) | Pending (cell : nat) | Claimed (cell : nat).
Arguments Completed {_}. Arguments Pending {_}. Arguments Claimed {_}.

(** [prepare_state_operation], [prepare_unit_operation], ... *)
Definition prepare_operation {T} `{!OutcomeKind T} (id : string) (request : RecordedRequest)
    (j : OperationJournal) : Result (Preparation T) * OperationJournal :=
  match replay id request j with
  | Some result => (Ok (Completed result), j)
  | None =>
      match prepare_pending_operation id request ok_kind j with
      | (Err e, j') => (Err e, j')
      | (Ok (PrepPending cell), j') => (Ok (Pending cell), j')
      | (Ok (PrepClaimed cell), j') => (Ok (Claimed cell), j')
      end
  end.

(** [complete_state_operation], [complete_unit_operation], ... *)
Definition complete_operation {T} `{!OutcomeKind T} (id : string) (request : RecordedRequest)
    (result : Result T) (j : OperationJournal) : Result () * OperationJournal :=
  complete_pending_operation id request (inject result) j.

(** [wait_for_state_operation], ...: a waiter that finds its cell filled. *)
Definition wait_for_operation {T} `{!OutcomeKind T} (cell : nat) (j : OperationJournal)
    : option (Result T) :=
  match jn_cells j !! cell with
  | Some (Some outcome) => Some (match project outcome with
      | Some result => result
      | None => Err (executor_error Internal
          "guest operation completed with the wrong outcome kind")
      end)
  | _ => None
  end.

(** The operations that run under the lock from lookup to record:
    [signal_process_recorded] and [resize_recorded]. *)
Definition run_recorded {S T} `{!OutcomeKind T} (id : string) (request : RecordedRequest)
    (effect : S → Result T * S) (j : OperationJournal) (s : S) : Result T * OperationJournal * S :=
  match replay id request j with
  | Some result => (result, j, s)
  | None =>
      match reserve_operation id j with
      | Err e => (Err e, j, s)
      | Ok _ =>
          let '(result, s') := effect s in
          (result, journal_record id request (inject result) j, s')
      end
  end.

(** ** Callers and owners *)

(** What happened to an operation: its effect began, ended with an outcome,
    its record was released, a caller was answered. *)
Inductive JournalEvent : Type :=
  | Began (id : string) (request : RecordedRequest)
  | Finished (id : string) (request : RecordedRequest) (outcome : RecordedOutcome)
  | Acknowledged (ids : list string)
  | Replied (id : string) (request : RecordedRequest) (outcome : RecordedOutcome).

(** A caller that waits, and a detached task that owns a claim. *)
Record Waiter : Type := mkWaiter {
  wt_id : string; wt_request : RecordedRequest; wt_kind : PendingOperationKind; wt_cell : nat
}.
Record Owner : Type := mkOwner {
  ow_id : string; ow_request : RecordedRequest; ow_kind : PendingOperationKind
}.

Record JournalSystem : Type := mkJournalSystem {
  js_journal : OperationJournal;
  js_waiters : list Waiter;
  js_owners : list Owner;
  js_log : list JournalEvent
}.
Definition journal_system_start : JournalSystem := mkJournalSystem journal_default [] [] [].

(** A request arrives and prepares its operation under the lock: it is
    answered, or it waits, and a claim starts its task. *)
Definition submit {T} `{!OutcomeKind T} (id : string) (request : RecordedRequest)
    (js : JournalSystem) : JournalSystem :=
  match prepare_operation (T := T) id request (js_journal js) with
  | (Err e, j') =>
      mkJournalSystem j' (js_waiters js) (js_owners js)
        (js_log js ++ [Replied id request (inject (Err e))])
  | (Ok (Completed result), j') =>
      mkJournalSystem j' (js_waiters js) (js_owners js)
        (js_log js ++ [Replied id request (inject result)])
  | (Ok (Pending cell), j') =>
      mkJournalSystem j' (js_waiters js ++ [mkWaiter id request ok_kind cell]) (js_owners js) (js_log js)
  | (Ok (Claimed cell), j') =>
      mkJournalSystem j' (js_waiters js ++ [mkWaiter id request ok_kind cell])
        (js_owners js ++ [mkOwner id request ok_kind]) (js_log js ++ [Began id request])
  end.

(** An operation that runs under the lock. *)
Definition submit_locked {T} `{!OutcomeKind T} (id : string) (request : RecordedRequest)
    (result : Result T) (js : JournalSystem) : JournalSystem :=
  let '(reply, j', ran) := run_recorded id request (λ _ : bool, (result, true)) (js_journal js) false in
  mkJournalSystem j' (js_waiters js) (js_owners js)
    (js_log js ++ (if ran then [Began id request; Finished id request (inject result)] else [])
     ++ [Replied id request (inject reply)]).

Inductive journal_step : JournalSystem → JournalSystem → Prop :=
  | journal_submit {T} `{!OutcomeKind T, !OutcomeKindLaws T} id request js :
      journal_step js (submit (T := T) id request js)
  | journal_submit_locked {T} `{!OutcomeKind T, !OutcomeKindLaws T} id request (result : Result T) js :
      journal_step js (submit_locked id request result js)
  | journal_finish {T} `{!OutcomeKind T, !OutcomeKindLaws T} js before owner after (result : Result T) :
      js_owners js = before ++ owner :: after → ow_kind owner = ok_kind →
      journal_step js
        (mkJournalSystem (complete_operation (ow_id owner) (ow_request owner) result (js_journal js)).2
           (js_waiters js) (before ++ after)
           (js_log js ++ [Finished (ow_id owner) (ow_request owner) (inject result)]))
  | journal_wake {T} `{!OutcomeKind T, !OutcomeKindLaws T} js before waiter after (result : Result T) :
      js_waiters js = before ++ waiter :: after → wt_kind waiter = ok_kind →
      wait_for_operation (wt_cell waiter) (js_journal js) = Some result →
      journal_step js
        (mkJournalSystem (js_journal js) (before ++ after) (js_owners js)
           (js_log js ++ [Replied (wt_id waiter) (wt_request waiter) (inject result)]))
  | journal_leave js before waiter after :
      js_waiters js = before ++ waiter :: after →
      journal_step js (mkJournalSystem (js_journal js) (before ++ after) (js_owners js) (js_log js))
  | journal_acknowledge ids js :
      journal_step js
        (mkJournalSystem (acknowledge_operations ids (js_journal js)).2 (js_waiters js) (js_owners js)
           (js_log js ++ match (acknowledge_operations ids (js_journal js)).1 with
                         | Ok _ => [Acknowledged ids] | Err _ => [] end)).

(** * The guest journal runs an operation at most once

    Over every interleaving of retries, completions, cancelled callers and
    acknowledgements. *)

(** ** Counting *)

Definition begins (id : string) (e : JournalEvent) : bool :=
  match e with Began i _ => bool_decide (i = id) | _ => false end.
Definition releases (id : string) (e : JournalEvent) : bool :=
  match e with Acknowledged ids => bool_decide (id ∈ ids) | _ => false end.
Definition count (p : JournalEvent → bool) (log : list JournalEvent) : nat :=
  length (filter (λ e, p e = true) log).

Lemma count_app p l k : count p (l ++ k) = (count p l + count p k)%nat.
Proof. unfold count. by rewrite filter_app, length_app. Qed.
Lemma count_one p e : count p [e] = if p e then 1%nat else 0%nat.
Proof. unfold count. rewrite filter_cons. by destruct (p e). Qed.

(** An operation the journal still knows. *)
Definition known (j : OperationJournal) (id : string) : bool :=
  bool_decide (is_Some (jn_operations j !! id)) || bool_decide (is_Some (jn_pending_operations j !! id)).

(** Answers that did not come from an execution. *)
Definition refusal (e : Error) : Prop := code e = Conflict ∨ code e = ResourceExhausted.

(** ** The invariant *)

Definition waiter_ok (j : OperationJournal) (log : list JournalEvent) (w : Waiter) : Prop :=
  jn_pending_operations j !! wt_id w = Some (mkPendingOperation (wt_request w) (wt_kind w) (wt_cell w)) ∨
  ∃ outcome, jn_cells j !! wt_cell w = Some (Some outcome) ∧ outcome_kind outcome = wt_kind w ∧
    Finished (wt_id w) (wt_request w) outcome ∈ log.

Record journal_ok (js : JournalSystem) : Prop := {
  jo_fresh : ∀ c v, jn_cells (js_journal js) !! c = Some v → (c < jn_next_cell (js_journal js))%nat;
  jo_cell : ∀ id p, jn_pending_operations (js_journal js) !! id = Some p →
    (po_completion p < jn_next_cell (js_journal js))%nat;
  jo_cells : ∀ id1 id2 p1 p2, jn_pending_operations (js_journal js) !! id1 = Some p1 →
    jn_pending_operations (js_journal js) !! id2 = Some p2 → po_completion p1 = po_completion p2 → id1 = id2;
  jo_filled : ∀ id p v, jn_pending_operations (js_journal js) !! id = Some p →
    jn_cells (js_journal js) !! po_completion p = Some v → v = None;
  jo_disjoint : ∀ id, is_Some (jn_pending_operations (js_journal js) !! id) →
    jn_operations (js_journal js) !! id = None;
  jo_owners : ∀ o, o ∈ js_owners js → ∃ c,
    jn_pending_operations (js_journal js) !! ow_id o = Some (mkPendingOperation (ow_request o) (ow_kind o) c);
  jo_owned : ∀ id p, jn_pending_operations (js_journal js) !! id = Some p →
    mkOwner id (po_request p) (po_kind p) ∈ js_owners js;
  jo_owner_ids : NoDup (ow_id <$> js_owners js);
  jo_waiters : ∀ w, w ∈ js_waiters js → waiter_ok (js_journal js) (js_log js) w;
  jo_records : ∀ id r, jn_operations (js_journal js) !! id = Some r →
    Finished id (or_request r) (or_outcome r) ∈ js_log js;
  jo_began : ∀ id request outcome, Finished id request outcome ∈ js_log js → Began id request ∈ js_log js;
  jo_pending_began : ∀ id p, jn_pending_operations (js_journal js) !! id = Some p →
    Began id (po_request p) ∈ js_log js;
  jo_count : ∀ id, (count (begins id) (js_log js) ≤
    (if known (js_journal js) id then 1 else 0) + count (releases id) (js_log js))%nat;
  jo_capacity : (size (jn_operations (js_journal js)) + size (jn_pending_operations (js_journal js))
    ≤ MAX_OPERATION_RECORDS)%nat;
  jo_replied : ∀ id request outcome, Replied id request outcome ∈ js_log js →
    Finished id request outcome ∈ js_log js ∨
    ∃ e, outcome = error_outcome (outcome_kind outcome) e ∧ refusal e
}.

Lemma journal_start_ok : journal_ok journal_system_start.
Proof.
  constructor; simpl; try done; try (intros *; by rewrite lookup_empty).
  - intros o Ho. by apply elem_of_nil in Ho.
  - constructor.
  - intros w Hw. by apply elem_of_nil in Hw.
  - intros id request outcome Hf. by apply elem_of_nil in Hf.
  - rewrite !map_size_empty. unfold MAX_OPERATION_RECORDS. lia.
  - intros id request outcome Hr. by apply elem_of_nil in Hr.
Qed.

Ltac in_app := repeat match goal with
  | H : _ ∈ _ ++ _ |- _ => apply elem_of_app in H as [H|H]
  | H : _ ∈ [_] |- _ => apply list_elem_of_singleton in H
  | H : _ ∈ [] |- _ => by apply elem_of_nil in H
  end.
Ltac app_left := apply elem_of_app; left.

(** Answers and departures change no journal state. *)
Lemma journal_ok_reply js waiters id request outcome :
  journal_ok js → (∀ w, w ∈ waiters → w ∈ js_waiters js) →
  (Finished id request outcome ∈ js_log js ∨ ∃ e, outcome = error_outcome (outcome_kind outcome) e ∧ refusal e) →
  journal_ok (mkJournalSystem (js_journal js) waiters (js_owners js)
    (js_log js ++ [Replied id request outcome])).
Proof.
  intros [] Hw Hreply. constructor; simpl; try done.
  - intros w [Hp|(o & Ho & Hk & Hf)]%Hw%jo_waiters0; [by left|right]. exists o. split_and!; [done..|by app_left].
  - intros i r Hr%jo_records0. by app_left.
  - intros i r o Hf. in_app; [app_left; eauto|done].
  - intros i p Hp%jo_pending_began0. by app_left.
  - intros i. rewrite !count_app, !count_one. simpl. specialize (jo_count0 i). lia.
  - intros i r o Hr. in_app.
    + destruct (jo_replied0 _ _ _ Hr); [left; by app_left|by right].
    + injection Hr as -> -> ->. destruct Hreply; [left; by app_left|by right].
Qed.

Lemma refusal_reused : refusal reused_operation.
Proof. by left. Qed.
Lemma validate_recorded_err a b e : validate_recorded a b = Err e → refusal e.
Proof. unfold validate_recorded. case_bool_decide; [done|]. intros [= <-]. by left. Qed.
Lemma validate_recorded_ok a b u : validate_recorded a b = Ok u → a = b.
Proof. unfold validate_recorded. by case_bool_decide. Qed.
Lemma reserve_err id j e : reserve_operation id j = Err e → refusal e.
Proof.
  unfold reserve_operation. case_bool_decide; [intros [= <-]; apply refusal_reused|].
  destruct (_ <=? _)%nat; [|done]. intros [= <-]. by right.
Qed.
Lemma reserve_ok id j u :
  reserve_operation id j = Ok u →
  jn_pending_operations j !! id = None ∧
  (size (jn_operations j) + size (jn_pending_operations j) < MAX_OPERATION_RECORDS)%nat.
Proof.
  unfold reserve_operation. case_bool_decide as Hp; [done|].
  destruct (Nat.leb_spec MAX_OPERATION_RECORDS (size (jn_operations j) + size (jn_pending_operations j)));
    [done|]. intros _. split; [by apply eq_None_not_Some|lia].
Qed.

(** The outcome of a replay is the recorded one, or a refusal. *)
Lemma replay_spec {T} `{!OutcomeKind T, !OutcomeKindLaws T} id request j (result : Result T) :
  replay id request j = Some result →
  ∃ r, jn_operations j !! id = Some r ∧
    ((or_request r = request ∧ or_outcome r = inject result) ∨ ∃ e, result = Err e ∧ refusal e).
Proof.
  unfold replay. destruct (jn_operations j !! id) as [r|]; [|done]. intros [= <-].
  exists r. split; [done|]. destruct (validate_recorded (or_request r) request) as [[]|e] eqn:Hv; simpl.
  - apply validate_recorded_ok in Hv. destruct (project (or_outcome r)) as [res|] eqn:Hp.
    + left. split; [done|]. by apply inject_project.
    + right. eexists. split; [done|apply refusal_reused].
  - right. exists e. split; [done|by eapply validate_recorded_err].
Qed.
Lemma replay_none {T} `{!OutcomeKind T} id request j :
  replay (T := T) id request j = None ↔ jn_operations j !! id = None.
Proof. unfold replay. by destruct (jn_operations j !! id). Qed.

Lemma inject_error_outcome {T} `{!OutcomeKind T, !OutcomeKindLaws T} (e : Error) :
  inject (Err e : Result T) = error_outcome (outcome_kind (inject (Err e : Result T))) e.
Proof. by rewrite inject_kind, inject_error. Qed.

(** ** Steps of the journal *)

Lemma journal_ok_wait js w :
  journal_ok js → waiter_ok (js_journal js) (js_log js) w →
  journal_ok (mkJournalSystem (js_journal js) (js_waiters js ++ [w]) (js_owners js) (js_log js)).
Proof. intros [] Hw. constructor; simpl; try done. intros w' Hin. in_app; [eauto|by subst]. Qed.

Lemma journal_ok_leave js waiters :
  journal_ok js → (∀ w, w ∈ waiters → w ∈ js_waiters js) →
  journal_ok (mkJournalSystem (js_journal js) waiters (js_owners js) (js_log js)).
Proof. intros [] Hw. constructor; simpl; try done. eauto. Qed.

(** A claim of an unknown operation. *)
Lemma journal_ok_claim js id request kind :
  journal_ok js → jn_operations (js_journal js) !! id = None →
  jn_pending_operations (js_journal js) !! id = None →
  (size (jn_operations (js_journal js)) + size (jn_pending_operations (js_journal js))
     < MAX_OPERATION_RECORDS)%nat →
  let j := js_journal js in let cell := jn_next_cell j in
  journal_ok (mkJournalSystem
    (mkJournal (jn_operations j) (<[id := mkPendingOperation request kind cell]> (jn_pending_operations j))
       (<[cell := None]> (jn_cells j)) (S cell))
    (js_waiters js ++ [mkWaiter id request kind cell]) (js_owners js ++ [mkOwner id request kind])
    (js_log js ++ [Began id request])).
Proof.
  intros [] Hops Hpend Hcap j cell. subst j cell. constructor; simpl.
  - intros c v [[<- _]|[_ Hc%jo_fresh0]]%lookup_insert_Some; lia.
  - intros i p [[<- <-]|[_ Hp%jo_cell0]]%lookup_insert_Some; simpl; lia.
  - intros i1 i2 p1 p2 [[<- <-]|[_ H1]]%lookup_insert_Some [[<- <-]|[_ H2]]%lookup_insert_Some; simpl; try done.
    + apply jo_cell0 in H2. lia.
    + apply jo_cell0 in H1. lia.
    + eauto.
  - intros i p v [[<- <-]|[_ Hp]]%lookup_insert_Some [[_ <-]|[_ Hc]]%lookup_insert_Some; try done.
    + simpl in Hc. apply jo_fresh0 in Hc. lia.
    + eauto.
  - intros i [p [[<- _]|[_ Hp]]%lookup_insert_Some]; [done|eauto].
  - intros o Ho. in_app.
    + destruct (jo_owners0 o Ho) as [c Hc]. exists c. rewrite lookup_insert_ne by congruence. done.
    + subst o. simpl. eexists. by rewrite lookup_insert_eq.
  - intros i p [[<- <-]|[_ Hp]]%lookup_insert_Some; [set_solver|]. app_left. eauto.
  - rewrite fmap_app. apply NoDup_app. split_and!; [done| |apply NoDup_singleton].
    intros x (o & -> & Ho)%list_elem_of_fmap Hx%list_elem_of_singleton.
    destruct (jo_owners0 o Ho) as [c Hc]. simpl in Hx. congruence.
  - intros w Hw. in_app.
    + destruct (jo_waiters0 w Hw) as [Hp|(o & Hc & Hk & Hf)]; [left; simpl|right].
      * rewrite lookup_insert_ne by congruence. done.
      * exists o. simpl. rewrite lookup_insert_ne by (apply jo_fresh0 in Hc; lia).
        split_and!; [done..|by app_left].
    + subst w. left. simpl. by rewrite lookup_insert_eq.
  - intros i r Hr%jo_records0. by app_left.
  - intros i r o Hf. in_app; [|done]. app_left. eauto.
  - intros i p [[<- <-]|[_ Hp]]%lookup_insert_Some; [set_solver|]. app_left. eauto.
  - intros i. rewrite !count_app, !count_one. specialize (jo_count0 i). unfold known in *. simpl.
    destruct (decide (i = id)) as [->|Hne].
    + rewrite Hops, Hpend in jo_count0. simpl in *. rewrite (bool_decide_true (id = id)) by done.
      rewrite lookup_insert_eq, (bool_decide_true (is_Some (Some _))), orb_true_r by done. lia.
    + rewrite lookup_insert_ne by done. rewrite bool_decide_false by done. lia.
  - rewrite map_size_insert_None by done. lia.
  - intros i r o Hr. in_app; [|done]. destruct (jo_replied0 _ _ _ Hr); [left; by app_left|by right].
Qed.

Lemma complete_pending_ok id request outcome cell j :
  jn_pending_operations j !! id = Some (mkPendingOperation request (outcome_kind outcome) cell) →
  complete_pending_operation id request outcome j =
  (Ok (), mkJournal (<[id := mkOperationRecord request outcome]> (jn_operations j))
     (delete id (jn_pending_operations j)) (<[cell := Some outcome]> (jn_cells j)) (jn_next_cell j)).
Proof.
  intros Hp. unfold complete_pending_operation. rewrite Hp. simpl.
  rewrite bool_decide_true by done. unfold validate_recorded. by rewrite bool_decide_true by done.
Qed.

(** The owner of a claim publishes its outcome. *)
Lemma journal_ok_finish js before owner after outcome :
  journal_ok js → js_owners js = before ++ owner :: after → ow_kind owner = outcome_kind outcome →
  journal_ok (mkJournalSystem
    (complete_pending_operation (ow_id owner) (ow_request owner) outcome (js_journal js)).2
    (js_waiters js) (before ++ after)
    (js_log js ++ [Finished (ow_id owner) (ow_request owner) outcome])).
Proof.
  intros [] Howners Hkind. destruct (jo_owners0 owner) as [cell Hp]; [rewrite Howners; set_solver|].
  destruct owner as [id request kind]. simpl in *. subst kind.
  rewrite (complete_pending_ok _ _ _ cell) by done. simpl.
  rewrite Howners, fmap_app in jo_owner_ids0. simpl in jo_owner_ids0.
  apply NoDup_app in jo_owner_ids0 as (Hb & Hd & [Ha Hc]%NoDup_cons).
  assert (∀ o, o ∈ before ++ after → ow_id o ≠ id) as Hother.
  { intros o Ho E. in_app.
    - apply (Hd (ow_id o)); [apply list_elem_of_fmap; eauto|rewrite E; set_solver].
    - apply Ha. rewrite <- E. apply list_elem_of_fmap. eauto. }
  constructor; simpl.
  - intros c v [[<- _]|[_ Hx%jo_fresh0]]%lookup_insert_Some; [|done]. by apply jo_cell0 in Hp.
  - intros i p [_ Hx%jo_cell0]%lookup_delete_Some. done.
  - intros i1 i2 p1 p2 [_ H1]%lookup_delete_Some [_ H2]%lookup_delete_Some. eauto.
  - intros i p v [Hne Hx]%lookup_delete_Some [[E _]|[_ Hv]]%lookup_insert_Some; [|eauto].
    destruct Hne. by apply (jo_cells0 _ _ _ _ Hp Hx).
  - intros i [p [Hne Hx]%lookup_delete_Some]. rewrite lookup_insert_ne by done. eauto.
  - intros o Ho. specialize (Hother o Ho). destruct (jo_owners0 o) as [c Hoc]; [rewrite Howners; set_solver|].
    exists c. by rewrite lookup_delete_ne.
  - intros i p [Hne Hx%jo_owned0]%lookup_delete_Some. rewrite Howners in Hx. set_solver.
  - rewrite fmap_app. apply NoDup_app. split_and!; [done| |done]. intros x Hx1 Hx2. apply (Hd x); set_solver.
  - intros w Hw. destruct (jo_waiters0 w Hw) as [Hx|(o & Hcell & Hk & Hf)].
    + destruct (decide (wt_id w = id)) as [E|Hne].
      * right. rewrite E in Hx. rewrite Hp in Hx. injection Hx as -> <- ->. exists outcome.
        simpl. rewrite lookup_insert_eq, E. split_and!; [done..|set_solver].
      * left. simpl. by rewrite lookup_delete_ne.
    + right. exists o. simpl. rewrite lookup_insert_ne; [split_and!; [done..|by app_left]|].
      intros E. rewrite <- E in Hcell. by specialize (jo_filled0 _ _ _ Hp Hcell).
  - intros i r [[<- <-]|[_ Hr%jo_records0]]%lookup_insert_Some; [set_solver|by app_left].
  - intros i r o Hf. app_left. in_app; [eauto|]. injection Hf as -> -> ->.
    by apply (jo_pending_began0 _ _ Hp).
  - intros i p [_ Hx%jo_pending_began0]%lookup_delete_Some. by app_left.
  - intros i. rewrite !count_app, !count_one. simpl. specialize (jo_count0 i). unfold known in *. simpl.
    destruct (decide (i = id)) as [->|Hne].
    + rewrite lookup_insert_eq. rewrite (bool_decide_true (is_Some (Some _))) by done. simpl.
      destruct (_ || _) in jo_count0; lia.
    + rewrite lookup_insert_ne, lookup_delete_ne by done. lia.
  - rewrite map_size_insert_None by eauto. rewrite map_size_delete, Hp.
    assert (size (jn_pending_operations (js_journal js)) ≠ 0%nat); [|lia].
    intros E%map_size_empty_inv. rewrite E, lookup_empty in Hp. done.
  - intros i r o Hr. in_app; [|done]. destruct (jo_replied0 _ _ _ Hr); [left; by app_left|by right].
Qed.

(** An operation that runs and is recorded under the lock. *)
Lemma journal_ok_locked js id request outcome :
  journal_ok js → jn_operations (js_journal js) !! id = None →
  jn_pending_operations (js_journal js) !! id = None →
  (size (jn_operations (js_journal js)) + size (jn_pending_operations (js_journal js))
     < MAX_OPERATION_RECORDS)%nat →
  journal_ok (mkJournalSystem (journal_record id request outcome (js_journal js))
    (js_waiters js) (js_owners js) (js_log js ++ [Began id request; Finished id request outcome])).
Proof.
  intros [] Hops Hpend Hcap. constructor; simpl; try done.
  - intros i [p Hx]. rewrite lookup_insert_ne by congruence. eauto.
  - intros w Hw. destruct (jo_waiters0 w Hw) as [Hx|(o & Hcell & Hk & Hf)]; [by left|right].
    exists o. split_and!; [done..|by app_left].
  - intros i r [[<- <-]|[_ Hr%jo_records0]]%lookup_insert_Some; [set_solver|by app_left].
  - intros i r o Hf. apply elem_of_app in Hf as [Hf|Hf]; [app_left; eauto|]. set_solver.
  - intros i p Hx%jo_pending_began0. by app_left.
  - intros i. change [Began id request; Finished id request outcome] with
      ([Began id request] ++ [Finished id request outcome]).
    rewrite !count_app, !count_one. specialize (jo_count0 i). unfold known in *. simpl.
    destruct (decide (i = id)) as [->|Hne].
    + rewrite Hops, Hpend in jo_count0. simpl in *. rewrite (bool_decide_true (id = id)) by done.
      rewrite lookup_insert_eq, (bool_decide_true (is_Some (Some _))) by done. simpl. lia.
    + rewrite lookup_insert_ne by done. rewrite bool_decide_false by done. lia.
  - rewrite map_size_insert_None by done. lia.
  - intros i r o Hr. apply elem_of_app in Hr as [Hr|Hr]; [|set_solver].
    destruct (jo_replied0 _ _ _ Hr); [left; by app_left|by right].
Qed.

(** Releasing records. *)
Lemma lookup_foldl_delete {V} (m : gmap string V) ids i :
  foldl (λ m id, delete id m) m ids !! i = if decide (i ∈ ids) then None else m !! i.
Proof.
  revert m. induction ids as [|x ids IH]; intros m; cbn [foldl].
  - by rewrite decide_False by set_solver.
  - rewrite IH. destruct (decide (i ∈ ids)); [by rewrite decide_True by set_solver|].
    destruct (decide (i = x)) as [->|].
    + by rewrite lookup_delete_eq, decide_True by set_solver.
    + by rewrite lookup_delete_ne, decide_False by set_solver.
Qed.
Lemma size_foldl_delete {V} (m : gmap string V) ids :
  (size (foldl (λ m id, delete id m) m ids) ≤ size m)%nat.
Proof.
  revert m. induction ids as [|x ids IH]; intros m; simpl; [done|].
  etrans; [apply IH|]. rewrite map_size_delete. destruct (m !! x); simpl; lia.
Qed.

Lemma acknowledge_spec ids j :
  (∃ e, acknowledge_operations ids j = (Err e, j)) ∨
  ((∀ id, id ∈ ids → jn_pending_operations j !! id = None) ∧
   acknowledge_operations ids j =
   (Ok (), mkJournal (foldl (λ m id, delete id m) (jn_operations j) ids)
      (jn_pending_operations j) (jn_cells j) (jn_next_cell j))).
Proof.
  unfold acknowledge_operations. destruct (_ <? _)%nat; [left; eauto|].
  destruct (existsb _ ids) eqn:Hex; [left; eauto|right]. split; [|done].
  intros id Hid. apply eq_None_not_Some. intros Hs. apply not_true_iff_false in Hex. apply Hex.
  apply existsb_exists. exists id. split; [by apply list_elem_of_In|by apply bool_decide_eq_true].
Qed.

Lemma journal_ok_acknowledge js ids :
  journal_ok js → (∀ id, id ∈ ids → jn_pending_operations (js_journal js) !! id = None) →
  let j := js_journal js in
  journal_ok (mkJournalSystem
    (mkJournal (foldl (λ m id, delete id m) (jn_operations j) ids)
       (jn_pending_operations j) (jn_cells j) (jn_next_cell j))
    (js_waiters js) (js_owners js) (js_log js ++ [Acknowledged ids])).
Proof.
  intros [] Hids j. subst j. constructor; simpl; try done.
  - intros i Hp. rewrite lookup_foldl_delete. case_decide; [done|eauto].
  - intros w Hw. destruct (jo_waiters0 w Hw) as [Hx|(o & Hcell & Hk & Hf)]; [by left|right].
    exists o. split_and!; [done..|by app_left].
  - intros i r. rewrite lookup_foldl_delete. case_decide; [done|]. intros Hr%jo_records0. by app_left.
  - intros i r o Hf. in_app; [app_left; eauto|done].
  - intros i p Hx%jo_pending_began0. by app_left.
  - intros i. rewrite !count_app, !count_one. specialize (jo_count0 i). unfold known in *. simpl.
    rewrite lookup_foldl_delete. case_decide as Hi.
    + rewrite (bool_decide_true (i ∈ ids)), Hids by done. simpl.
      destruct (_ || _) in jo_count0; lia.
    + rewrite (bool_decide_false (i ∈ ids)) by done. lia.
  - pose proof (size_foldl_delete (jn_operations (js_journal js)) ids). lia.
  - intros i r o Hr. in_app; [|done]. destruct (jo_replied0 _ _ _ Hr); [left; by app_left|by right].
Qed.

Lemma prepare_pending_spec id request kind j :
  (∃ e, prepare_pending_operation id request kind j = (Err e, j) ∧ refusal e) ∨
  (∃ cell, prepare_pending_operation id request kind j = (Ok (PrepPending cell), j) ∧
     jn_pending_operations j !! id = Some (mkPendingOperation request kind cell)) ∨
  (reserve_operation id j = Ok () ∧
   prepare_pending_operation id request kind j =
   (Ok (PrepClaimed (jn_next_cell j)),
    mkJournal (jn_operations j) (<[id := mkPendingOperation request kind (jn_next_cell j)]> (jn_pending_operations j))
      (<[jn_next_cell j := None]> (jn_cells j)) (S (jn_next_cell j)))).
Proof.
  unfold prepare_pending_operation. destruct (jn_pending_operations j !! id) as [[rq k cell]|] eqn:Hp; simpl.
  - case_bool_decide as Hk; [|left; eexists; split; [done|apply refusal_reused]].
    destruct (validate_recorded rq request) as [[]|e] eqn:Hv; simpl.
    + right; left. apply validate_recorded_ok in Hv. subst. eauto.
    + left. eexists. split; [done|by eapply validate_recorded_err].
  - destruct (reserve_operation id j) as [[]|e] eqn:Hr; [by right; right|].
    left. eexists. split; [done|by eapply reserve_err].
Qed.

Lemma submit_ok {T} `{!OutcomeKind T, !OutcomeKindLaws T} id request js :
  journal_ok js → journal_ok (submit (T := T) id request js).
Proof.
  intros Hok. unfold submit, prepare_operation.
  destruct (replay id request (js_journal js)) as [result|] eqn:Hreplay.
  - apply journal_ok_reply; [done|done|].
    destruct (replay_spec _ _ _ _ Hreplay) as (r & Hr & [[<- Ho]|(e & -> & He)]).
    + left. rewrite <- Ho. by apply (jo_records _ Hok).
    + right. exists e. split; [apply inject_error_outcome|done].
  - apply replay_none in Hreplay.
    destruct (prepare_pending_spec id request ok_kind (js_journal js))
      as [(e & -> & He)|[(cell & -> & Hp)|[Hres ->]]].
    + apply journal_ok_reply; [done|done|]. right. exists e. split; [apply inject_error_outcome|done].
    + apply journal_ok_wait; [done|]. by left.
    + destruct (reserve_ok _ _ _ Hres) as [Hnone Hcap]. by apply journal_ok_claim.
Qed.

Lemma submit_locked_ok {T} `{!OutcomeKind T, !OutcomeKindLaws T} id request (result : Result T) js :
  journal_ok js → journal_ok (submit_locked id request result js).
Proof.
  intros Hok. unfold submit_locked, run_recorded.
  destruct (replay id request (js_journal js)) as [replayed|] eqn:Hreplay; simpl.
  { apply journal_ok_reply; [done|done|].
    destruct (replay_spec _ _ _ _ Hreplay) as (r & Hr & [[<- Ho]|(e & -> & He)]).
    + left. rewrite <- Ho. by apply (jo_records _ Hok).
    + right. exists e. split; [apply inject_error_outcome|done]. }
  apply replay_none in Hreplay.
  destruct (reserve_operation id (js_journal js)) as [[]|e] eqn:Hres; simpl.
  - destruct (reserve_ok _ _ _ Hres) as [Hnone Hcap].
    pose proof (journal_ok_locked js id request (inject result) Hok Hreplay Hnone Hcap) as Hlocked.
    change [Began id request; Finished id request (inject result); Replied id request (inject result)]
      with ([Began id request; Finished id request (inject result)] ++ [Replied id request (inject result)]).
    rewrite app_assoc. apply (journal_ok_reply _ _ _ _ _ Hlocked); [done|]. left. simpl. set_solver.
  - apply journal_ok_reply; [done|done|]. right. exists e. split; [apply inject_error_outcome|by eapply reserve_err].
Qed.

Lemma journal_step_ok js js' : journal_ok js → journal_step js js' → journal_ok js'.
Proof.
  intros Hok Hstep. destruct Hstep as [T ? ? id request js|T ? ? id request result js
    |T ? ? js before owner after result Ho Hk|T ? ? js before waiter after result Hw Hk Hwait
    |js before waiter after Hw|ids js].
  - by apply submit_ok.
  - by apply submit_locked_ok.
  - unfold complete_operation. apply journal_ok_finish; [done|done|]. by rewrite Hk, inject_kind.
  - apply journal_ok_reply; [done|rewrite Hw; set_solver|].
    unfold wait_for_operation in Hwait.
    destruct (jn_cells (js_journal js) !! wt_cell waiter) as [[outcome|]|] eqn:Hc; [|done..].
    destruct (jo_waiters _ Hok waiter) as [Hp|(o & Hcell & Hkind & Hf)]; [rewrite Hw; set_solver| |].
    { by specialize (jo_filled _ Hok _ _ _ Hp Hc). }
    rewrite Hc in Hcell. injection Hcell as ->. left.
    destruct (project o) as [r|] eqn:Hproj; [|apply project_none in Hproj; congruence].
    injection Hwait as ->. apply inject_project in Hproj. by rewrite <- Hproj.
  - apply journal_ok_leave; [done|]. rewrite Hw. set_solver.
  - destruct (acknowledge_spec ids (js_journal js)) as [[e ->]|[Hids ->]]; simpl.
    + rewrite app_nil_r. by destruct js.
    + by apply journal_ok_acknowledge.
Qed.

Definition journal_reachable : JournalSystem → Prop := rtc journal_step journal_system_start.
Lemma journal_reachable_ok js : journal_reachable js → journal_ok js.
Proof.
  unfold journal_reachable. intros Hr. remember journal_system_start as js0 eqn:E.
  assert (journal_ok js0) as H0 by (subst; apply journal_start_ok). clear E.
  induction Hr as [|a b c Hab _ IH]; [done|]. apply IH. by eapply journal_step_ok.
Qed.

(** C7: The guest runs an operation at most once: over every interleaving of
    requests, retries, completions, cancelled callers and acknowledgements,
    the effect of an operation ID begins at most once more often than the host
    released it; a caller is answered with the outcome of an effect that ran
    for its own request, or refused with a conflict or an exhausted journal;
    and the journal holds at most 4096 operations. *)
Theorem guest_operation_at_most_once js :
  journal_reachable js →
  (∀ id, (count (begins id) (js_log js) ≤ 1 + count (releases id) (js_log js))%nat) ∧
  (∀ id request outcome, Replied id request outcome ∈ js_log js →
     (Finished id request outcome ∈ js_log js ∧ Began id request ∈ js_log js) ∨
     ∃ e, outcome = error_outcome (outcome_kind outcome) e ∧ refusal e) ∧
  (size (jn_operations (js_journal js)) + size (jn_pending_operations (js_journal js))
     ≤ MAX_OPERATION_RECORDS)%nat.
Proof.
  intros Hok%journal_reachable_ok. split_and!.
  - intros id. pose proof (jo_count _ Hok id). destruct (known _ _); lia.
  - intros id request outcome [Hf|Hf]%(jo_replied _ Hok); [left|by right].
    split; [done|]. by apply (jo_began _ Hok _ _ outcome).
  - apply (jo_capacity _ Hok).
Qed.

(** No caller is left behind: each waiting caller can take its answer now, or
    the task that runs its operation is alive, and the result that this task
    publishes, whatever it is, is the caller's answer. *)
Theorem guest_waiter_answered {T} `{!OutcomeKind T, !OutcomeKindLaws T} js waiter :
  journal_reachable js → waiter ∈ js_waiters js → wt_kind waiter = ok_kind →
  (∃ result : Result T, wait_for_operation (wt_cell waiter) (js_journal js) = Some result ∧
     Finished (wt_id waiter) (wt_request waiter) (inject result) ∈ js_log js) ∨
  mkOwner (wt_id waiter) (wt_request waiter) (wt_kind waiter) ∈ js_owners js ∧
  ∀ result : Result T,
    let '(completed, j') := complete_operation (wt_id waiter) (wt_request waiter) result (js_journal js) in
    completed = Ok () ∧ wait_for_operation (wt_cell waiter) j' = Some result.
Proof.
  intros Hok%journal_reachable_ok Hin Hk.
  destruct (jo_waiters _ Hok waiter Hin) as [Hp|(o & Hcell & Hkind & Hf)].
  - right. split; [by apply (jo_owned _ Hok _ _ Hp)|]. intros result. unfold complete_operation.
    rewrite (complete_pending_ok _ _ _ (wt_cell waiter)) by (by rewrite inject_kind, <- Hk).
    split; [done|]. unfold wait_for_operation. simpl. by rewrite lookup_insert_eq, project_inject.
  - left. destruct (project o) as [r|] eqn:Hproj; [|apply project_none in Hproj; congruence].
    exists r. unfold wait_for_operation. rewrite Hcell, Hproj.
    apply inject_project in Hproj. by rewrite <- Hproj.
Qed.
