(* ===== verification/GuestExecutor.v ===== *)
(** * The guest executor's containers (agent/src/executor/state.rs, mod.rs,
    exec.rs, process_io.rs and the process handles of process.rs and
    exec_process.rs)

    [ExecutorState] keeps one record per container generation, the highest
    generation seen for each ID and the operation journal.  The kernel, the
    helpers and the file system are the operations of [GuestKernel]; what the
    executor does with their results is translated here.  The release of
    descriptors when a handle is dropped is not modelled. *)

From stdpp Require Import base gmap list strings.
From S2P Require Import Prelude Collections Sdk OutputBuffer Wire AgentModel AgentRecovery.
From S2P Require Import GuestJournal.
From Stdlib Require Import Ascii ZArith Lia.
Local Open Scope string_scope.
Local Open Scope list_scope.
Local Open Scope Z_scope.

Inductive SignalOutcome : Type := Delivered | Exited.
#[global] Instance SignalOutcome_eq_dec : EqDecision SignalOutcome.
Proof. solve_decision. Defined.
Definition SIGKILL : Z := 9.

(** A raw wait status, and a bounded wait for a child. *)
Record ProcessExitStatus : Type := mkRawStatus { raw_code : option Z; raw_signal : option Z }.
Inductive WaitResult : Type := Waited (status : ProcessExitStatus) | WaitFailed | WaitTimedOut.

(** What a create plan asks of the rest of [create_new]. *)
Record CreatePlan : Type := mkCreatePlan {
  cpl_has_cgroup : bool; cpl_device_mounts : bool; cpl_separate_device_source : bool;
  cpl_durable_owner : bool; cpl_has_process : bool
}.

(** The kernel and the helpers.  A child is a number; its pidfd goes with it. *)
Class GuestKernel : Type := {
  K : Type;
  k_unix_ms : prog K Error Z;
  k_child_try_wait : nat → prog K () (option ProcessExitStatus);
  k_child_wait : nat → K → WaitResult * K;
  k_child_terminate : nat → K → K;
  k_signal : nat → Z → prog K Error SignalOutcome;
  k_signal_all : nat → Z → prog K Error SignalOutcome;
  k_write_start : nat → prog K () ();
  k_read_start : nat → prog K Error ();
  k_encode_hook_state : nat → prog K Error ();
  k_poststart : nat → prog K Error ();
  k_poststop : nat → K → K;
  k_set_frozen : nat → bool → prog K Error ();
  k_update_resources : nat → string → prog K Error ();
  k_stats : nat → ContainerTarget → prog K Error ContainerStats;
  k_cleanup_intel_rdt : nat → prog K Error ();
  k_rollback_network : nat → K → K;
  k_commit_network : nat → K → K;
  k_cleanup_device_targets : string → prog K Error ();
  k_remove_container_directory : string → prog K Error ();
  k_plan_create : AgentCreateRequest → prog K Error CreatePlan;
  k_create_cgroup_manager : prog K Error ();
  k_create_directory : string → prog K Error ();
  k_write_snapshot : string → prog K Error ();
  k_prepare_device_mounts : prog K Error ();
  k_create_device_directory : string → prog K Error ();
  k_remove_device_directory : string → prog K Error ();
  k_spawn_init : AgentCreateRequest → prog K Error (Z * nat);
  k_supervisor_identity : prog K Error ();
  k_write_recovery_record : AgentCreateRequest → prog K Error ();
  k_plan_exec : nat → AgentExecRequest → prog K Error ();
  k_encode_plan : AgentExecRequest → prog K Error ();
  k_spawn_exec : nat → AgentExecRequest → prog K Error (Z * nat);
  k_has_session_supervisor : string → prog K Error bool;
  k_session_supervisor : prog K Error ();
  k_record_exec_identity : string → AgentExecRequest → prog K Error ();
  k_remove_process_directory : string → string → prog K Error ();
  k_shutdown_device_authority : prog K Error ();
  k_remove_cgroup_manager : prog K Error ();
  k_remove_runtime_root : prog K Error ();
  k_remove_device_root : prog K Error ();
  k_validate_create : AgentCreateRequest → Result ();
  k_create_context : prog K Error ();
  k_duplicate_executable : prog K Error ();
  k_read_output : nat → AgentReadOutputRequest → prog K Error (list OutputChunk);
  k_write_stdin : nat → bytes → prog K Error ();
  k_close_stdin : nat → prog K Error ();
  k_resize : nat → TerminalSize → prog K Error ();
  k_file : nat → FileRequest → prog K Error FileResponse;
  k_filesystem : nat → FilesystemRequest → prog K Error FilesystemResponse;
  k_runtime_directory : Z → string;
  k_process_directory : string → Z → string
}.

Section executor.
Context `{!GuestKernel}.

(** ** Process handles *)

Record PreparedProcess : Type := mkPrepared {
  pp_pid : Z; pp_child : nat; pp_exit_status : option ExitStatus;
  pp_control : bool; pp_has_process : bool
}.
Record ExecProcess : Type := mkExecProcess {
  ep_pid : Z; ep_child : nat; ep_exit_status : option ExitStatus; ep_terminal : bool
}.

Definition process_error (c : ErrorCode) (msg : string) : Error :=
  for_operation (error_new c msg) "run-container-init".

(** [error.message = format!("{}; ...", error.message, ...)] *)
Definition append_message (e : Error) (suffix : string) : Error :=
  mkError (code e) (err_operation e) (message e +:+ suffix) (retryable e).

(** [convert_exit_status] *)
Definition convert_exit_status (status : ProcessExitStatus) : Result ExitStatus :=
  match raw_code status, raw_signal status with
  | Some c, _ => exit_status_exited c
  | None, Some s => exit_status_signaled s false
  | None, None => Err (process_error Internal
      "container init returned an unsupported process status {status}")
  end.

(** [try_wait] of both handles: the cached status, or a poll of the child. *)
Definition try_wait_child (cached : option ExitStatus) (child : nat) (error : Error)
    : K → Result (option ExitStatus) * option ExitStatus * K := λ k,
  match cached with
  | Some s => (Ok (Some s), cached, k)
  | None =>
      match k_child_try_wait child k with
      | (Err _, k') => (Err error, None, k')
      | (Ok None, k') => (Ok None, None, k')
      | (Ok (Some raw), k') =>
          match convert_exit_status raw with
          | Err e => (Err e, None, k')
          | Ok s => (Ok (Some s), Some s, k')
          end
      end
  end.

Definition set_exit_status (p : PreparedProcess) (s : option ExitStatus) : PreparedProcess :=
  mkPrepared (pp_pid p) (pp_child p) s (pp_control p) (pp_has_process p).
Definition set_control (p : PreparedProcess) (b : bool) : PreparedProcess :=
  mkPrepared (pp_pid p) (pp_child p) (pp_exit_status p) b (pp_has_process p).
Definition set_exec_status (p : ExecProcess) (s : option ExitStatus) : ExecProcess :=
  mkExecProcess (ep_pid p) (ep_child p) s (ep_terminal p).

Definition process_try_wait : prog (PreparedProcess * K) Error (option ExitStatus) := λ '(p, k),
  let '(r, s, k') := try_wait_child (pp_exit_status p) (pp_child p)
    (process_error Internal "failed to inspect container init state: {error}") k in
  (r, (set_exit_status p s, k')).
Definition exec_try_wait : prog (ExecProcess * K) Error (option ExitStatus) := λ '(p, k),
  let '(r, s, k') := try_wait_child (ep_exit_status p) (ep_child p)
    (for_operation (error_new Internal "failed to inspect exec process state: {error}")
       "run-container-exec") k in
  (r, (set_exec_status p s, k')).

(** The body of [force_stop] once the child is known to run. *)
Definition stop_child (child : nat) (signal_error : Error → Error) (wait_error timeout_error : Error)
    : K → Result ExitStatus * K := λ k,
  match k_signal_all child SIGKILL k with
  | (Err e, k') => (Err (signal_error e), k_child_terminate child k')
  | (Ok _, k') =>
      match k_child_wait child k' with
      | (Waited raw, k'') => (convert_exit_status raw, k'')
      | (WaitFailed, k'') => (Err wait_error, k'')
      | (WaitTimedOut, k'') => (Err timeout_error, k_child_terminate child k'')
      end
  end.

Definition process_force_stop : prog (PreparedProcess * K) Error () :=
  let! status := process_try_wait in
  match status with
  | Some _ => ret ()
  | None => λ '(p, k),
      match stop_child (pp_child p)
              (λ e, set_retryable (process_error (code e)
                 "failed to terminate container init PID {} during cleanup: {error}") (retryable e))
              (process_error Internal
                 "failed to reap container init supervisor during cleanup: {error}")
              (process_error DeadlineExceeded
                 "timed out reaping container init supervisor during cleanup") k with
      | (Ok s, k') => (Ok (), (set_exit_status p (Some s), k'))
      | (Err e, k') => (Err e, (p, k'))
      end
  end.
Definition exec_force_stop : prog (ExecProcess * K) Error () :=
  let! status := exec_try_wait in
  match status with
  | Some _ => ret ()
  | None => λ '(p, k),
      let exec_error c msg := for_operation (error_new c msg) "run-container-exec" in
      match stop_child (ep_child p) (λ e, e)
              (exec_error Internal "failed to reap exec helper during cleanup: {error}")
              (exec_error DeadlineExceeded "timed out reaping exec helper during cleanup") k with
      | (Ok s, k') => (Ok (), (set_exec_status p (Some s), k'))
      | (Err e, k') => (Err e, (p, k'))
      end
  end.

(** A kernel operation on the process's child. *)
Definition on_child {A} (op : nat → prog K Error A) : prog (PreparedProcess * K) Error A := λ '(p, k),
  let '(r, k') := op (pp_child p) k in (r, (p, k')).

(** [PreparedProcess::release]: the start barrier. *)
Definition process_release : prog (PreparedProcess * K) Error () := λ '(p, k),
  if negb (pp_control p) then (Err (process_error FailedPrecondition
    "container init has already crossed the start barrier"), (p, k))
  else if negb (pp_has_process p) then
    let '(r, st) := process_force_stop (set_control p false, k) in
    let error := process_error FailedPrecondition "config.process is required before OCI start" in
    (Err (match r with
          | Ok _ => error
          | Err cleanup => set_retryable
              (append_message error "; failed to stop the processless created container: {cleanup}")
              (retryable cleanup)
          end), st)
  else
    match k_write_start (pp_child p) k with
    | (Err _, k') => (Err (process_error Unavailable
        "failed to release prepared container init: {error}"), (p, k'))
    | (Ok _, k') =>
        let '(started, k'') := k_read_start (pp_child p) k' in
        let p := set_control p false in
        match started with
        | Err e => let '(_, st) := process_force_stop (p, k'') in (Err e, st)
        | Ok _ =>
            match on_child k_encode_hook_state (p, k'') with
            | (Err e, st) => (Err e, st)
            | (Ok _, st) =>
                match on_child k_poststart st with
                | (Err e, st') => let '(_, st'') := process_force_stop st' in (Err e, st'')
                | (Ok _, st') => (Ok (), st')
                end
            end
        end
    end.

(** ** Container records *)

Record GuestContainer : Type := mkGuestContainer {
  gc_target : ContainerTarget;
  gc_config_digest : string;
  gc_status : ContainerState;
  gc_paused : bool;
  gc_process : PreparedProcess;
  gc_processes : list (string * ExecProcess);
  gc_runtime_directory : string
}.
Definition set_status (c : GuestContainer) (status : ContainerState) : GuestContainer :=
  mkGuestContainer (gc_target c) (gc_config_digest c) status (gc_paused c) (gc_process c)
    (gc_processes c) (gc_runtime_directory c).
Definition set_paused (c : GuestContainer) (paused : bool) : GuestContainer :=
  mkGuestContainer (gc_target c) (gc_config_digest c) (gc_status c) paused (gc_process c)
    (gc_processes c) (gc_runtime_directory c).
Definition set_process (c : GuestContainer) (p : PreparedProcess) : GuestContainer :=
  mkGuestContainer (gc_target c) (gc_config_digest c) (gc_status c) (gc_paused c) p
    (gc_processes c) (gc_runtime_directory c).
Definition set_processes (c : GuestContainer) (ps : list (string * ExecProcess)) : GuestContainer :=
  mkGuestContainer (gc_target c) (gc_config_digest c) (gc_status c) (gc_paused c) (gc_process c)
    ps (gc_runtime_directory c).

Abbreviation CProg := (prog (GuestContainer * K) Error).
Definition get_container : CProg GuestContainer := λ st, (Ok st.1, st).
Definition update_container (f : GuestContainer → GuestContainer) : CProg () :=
  λ st, (Ok (), (f st.1, st.2)).
(** An operation of the init process or of an exec process of the record. *)
Definition on_process {A} (m : prog (PreparedProcess * K) Error A) : CProg A := λ st,
  let '(r, (p, k)) := m (gc_process st.1, st.2) in (r, (set_process st.1 p, k)).

(** A loop over the exec processes that stops at the first error. *)
Fixpoint each_process (m : prog (ExecProcess * K) Error ()) (ps : list (string * ExecProcess)) (k : K)
    : Result () * list (string * ExecProcess) * K :=
  match ps with
  | [] => (Ok (), [], k)
  | (id, p) :: rest =>
      match m (p, k) with
      | (Err e, (p', k')) => (Err e, (id, p') :: rest, k')
      | (Ok _, (p', k')) =>
          let '(r, rest', k'') := each_process m rest k' in (r, (id, p') :: rest', k'')
      end
  end.
Definition on_processes (m : prog (ExecProcess * K) Error ()) : CProg () := λ st,
  let '(r, ps, k) := each_process m (gc_processes st.1) st.2 in (r, (set_processes st.1 ps, k)).

Definition poll_wait : CProg (option ExitStatus) :=
  let! status := on_process process_try_wait in
  do! (match status with
       | Some _ => update_container (λ c, set_paused (set_status c Stopped) false)
       | None => ret ()
       end);
  ret status.

Definition refresh : CProg () :=
  do! poll_wait;
  on_processes (let! status := exec_try_wait in ret ()).

Definition container_state : CProg AgentState := λ st,
  let c := st.1 in
  (state_new (gc_target c) (gc_status c)
     (if bool_decide (gc_status c = Stopped) then None else Some (pp_pid (gc_process c)))
     (gc_config_digest c) (gc_paused c), st).

Definition container_set_frozen (frozen : bool) : CProg () :=
  do! refresh;
  let! c := get_container in
  if negb (bool_decide (gc_status c = Running)) then
    fail (executor_error FailedPrecondition "container cannot change freezer state while {}")
  else if bool_decide (gc_paused c = frozen) then ret ()
  else
    do! on_process (on_child (λ child, k_set_frozen child frozen));
    update_container (λ c, set_paused c frozen).

Definition container_update_resources (resources : string) : CProg () :=
  do! refresh;
  let! c := get_container in
  if bool_decide (gc_status c = Created) || bool_decide (gc_status c = Running)
  then on_process (on_child (λ child, k_update_resources child resources))
  else fail (executor_error FailedPrecondition "container cannot update resources while {}").

Definition container_stats : CProg ContainerStats :=
  do! refresh;
  let! c := get_container in
  on_process (on_child (λ child, k_stats child (gc_target c))).

(** [process_record] *)
Definition live_record (container : ContainerTarget) (process_id : string) (pid : Z) (terminal : bool)
    : Result ProcessRecord :=
  check! reject_if (pid <? 0) (executor_error Internal
    "live process PID {pid} does not fit the SDK process model: {error}");
  check! reject_if (pid =? 0) (executor_error Internal "live process inventory contained PID zero");
  Ok (mkProcessRecord (mkProcessTarget container process_id) (Some pid) terminal).

Fixpoint live_execs (target : ContainerTarget) (ps : list (string * ExecProcess)) (k : K)
    : Result (list ProcessRecord) * list (string * ExecProcess) * K :=
  match ps with
  | [] => (Ok [], [], k)
  | (id, p) :: rest =>
      match exec_try_wait (p, k) with
      | (Err e, (p', k')) => (Err e, (id, p') :: rest, k')
      | (Ok status, (p', k')) =>
          match (match status with
                 | Some _ => Ok []
                 | None => rbind (live_record target id (ep_pid p') (ep_terminal p')) (λ r, Ok [r])
                 end) with
          | Err e => (Err e, (id, p') :: rest, k')
          | Ok records =>
              let '(r, rest', k'') := live_execs target rest k' in
              (rbind r (λ more, Ok (records ++ more)), (id, p') :: rest', k'')
          end
      end
  end.

Definition live_processes : CProg (list ProcessRecord) :=
  do! refresh;
  let! c := get_container in
  let! init := lift (if bool_decide (gc_status c = Stopped) then Ok []
                     else rbind (live_record (gc_target c) INIT_PROCESS_ID (pp_pid (gc_process c)) false)
                            (λ r, Ok [r])) in
  let! execs := λ st, (let '(r, ps, k) := live_execs (gc_target (fst st)) (gc_processes (fst st)) (snd st) in
                       (r, (set_processes (fst st) ps, k))) in
  ret (init ++ execs).

(** Collect the first of a sequence of errors. *)
Definition first_error (a b : Result ()) : Result () := match a with Err _ => a | Ok _ => b end.

Fixpoint stop_processes (ps : list (string * ExecProcess)) (k : K)
    : Result () * list (string * ExecProcess) * K :=
  match ps with
  | [] => (Ok (), [], k)
  | (id, p) :: rest =>
      let '(r, (p', k')) := exec_force_stop (p, k) in
      let '(r', rest', k'') := stop_processes rest k' in
      (first_error r r', (id, p') :: rest', k'')
  end.

Definition force_stop_all : CProg () := λ '(c, k),
  let '(thawed, (c, k)) :=
    if gc_paused c then
      match on_process (on_child (λ child, k_set_frozen child false)) (c, k) with
      | (Err e, st) => (Err e, st)
      | (Ok _, (c', k')) => (Ok (), (set_paused c' false, k'))
      end
    else (Ok (), (c, k)) in
  let '(execs, ps, k) := stop_processes (gc_processes c) k in
  let '(init, st) := on_process process_force_stop (set_processes c ps, k) in
  (first_error thawed (first_error execs init), st).

Fixpoint signal_processes (signal : Z) (ps : list (string * ExecProcess)) (k : K) : Result () * K :=
  match ps with
  | [] => (Ok (), k)
  | (_, p) :: rest =>
      let '(r, k') := k_signal_all (ep_child p) signal k in
      let '(r', k'') := signal_processes signal rest k' in
      (first_error (rbind r (λ _, Ok ())) r', k'')
  end.
Definition container_signal_all (signal : Z) : CProg SignalOutcome := λ '(c, k),
  let '(execs, k) := signal_processes signal (gc_processes c) k in
  let '(init, k) := k_signal_all (pp_child (gc_process c)) signal k in
  (match execs, init with
   | Err e, _ => Err e
   | Ok _, Err e => Err e
   | Ok _, Ok outcome => Ok outcome
   end, (c, k)).

(** ** Executor state *)

Record ContainerKey : Type := mkKey { key_id : string; key_generation : Z }.
#[global] Instance ContainerKey_ord : Ord ContainerKey.
Proof.
  refine (Ord_via (λ x, (key_id x, key_generation x)) _). intros [a b] [c d]. simpl. by intros [= -> ->].
Defined.
Definition key_from_target (t : ContainerTarget) : Result ContainerKey :=
  try! g := ok_or (executor_error InvalidArgument
    "guest executor requires an exact container generation") (ct_generation t) in
  check! reject_if (g =? 0) (executor_error InvalidArgument
    "guest executor requires a positive container generation");
  Ok (mkKey (ct_id t) g).

Record ExecutorState : Type := mkExecutor {
  es_containers : list (ContainerKey * GuestContainer);
  es_highest_generations : gmap string Z;
  es_next_slot : Z;
  es_cgroup_manager : bool
}.
Definition executor_default : ExecutorState := mkExecutor [] ∅ 0 false.
Definition set_containers (s : ExecutorState) (cs : list (ContainerKey * GuestContainer)) : ExecutorState :=
  mkExecutor cs (es_highest_generations s) (es_next_slot s) (es_cgroup_manager s).

Abbreviation EProg := (prog (ExecutorState * K) Error).

Definition container_missing : Error :=
  executor_error NotFound "container {} generation {} does not exist".
(** [state.containers.get_mut(&key)] and an operation of the record found. *)
Definition with_container_or {A} (missing : Error) (key : ContainerKey) (m : CProg A) : EProg A := λ '(s, k),
  match btree_get key (es_containers s) with
  | None => (Err missing, (s, k))
  | Some c => let '(r, (c', k')) := m (c, k) in
              (r, (set_containers s (btree_set key c' (es_containers s)), k'))
  end.
Definition with_container {A} (key : ContainerKey) (m : CProg A) : EProg A :=
  with_container_or container_missing key m.

Definition kernel {A} (m : prog K Error A) : EProg A := λ '(s, k),
  let '(r, k') := m k in (r, (s, k')).
(** A kernel step whose result is discarded. *)
Definition kernel_ignore {A} (m : prog K Error A) : EProg () := λ '(s, k), (Ok (), (s, (m k).2)).

(** [validate_deadline] *)
Definition validate_deadline (context : OperationContext) : EProg () :=
  match oc_deadline_unix_ms context with
  | None => ret ()
  | Some deadline =>
      let! now := kernel k_unix_ms in
      lift (reject_if (deadline <=? now)
        (executor_error DeadlineExceeded "guest operation deadline {deadline} has expired"))
  end.

Definition start_new (r : AgentStartRequest) : EProg AgentState :=
  do! validate_deadline (ass_context r);
  let! key := lift (key_from_target (ass_target r)) in
  with_container key (
    do! refresh;
    let! c := get_container in
    do! lift (reject_if (negb (bool_decide (gc_config_digest c = ass_expected_config_digest r)))
      (executor_error Conflict "start configuration digest does not match guest create state"));
    do! lift (reject_if (negb (bool_decide (gc_status c = Created)))
      (executor_error FailedPrecondition "container cannot start from {}"));
    catch (on_process process_release) (λ released,
      match released with
      | Err e => do! update_container (λ c, set_status c Stopped); fail e
      | Ok _ => do! update_container (λ c, set_status c Running); container_state
      end)).

Definition state_query (r : AgentStateRequest) : EProg AgentState :=
  let! key := lift (key_from_target (asr_target r)) in
  with_container key (do! refresh; container_state).

Definition freezer_new (r : AgentContainerOperationRequest) (frozen : bool) : EProg AgentState :=
  do! validate_deadline (aco_context r);
  let! key := lift (key_from_target (aco_target r)) in
  with_container key (do! container_set_frozen frozen; container_state).

Definition processes_new (r : AgentProcessesRequest) : EProg (list ProcessRecord) :=
  let! key := lift (key_from_target (apr_target r)) in
  with_container key live_processes.

Definition update_new (r : AgentUpdateRequest) : EProg AgentState :=
  do! validate_deadline (aur_context r);
  let! key := lift (key_from_target (aur_target r)) in
  with_container key (do! container_update_resources (aur_resources r); container_state).

Definition stats_new (r : AgentStatsRequest) : EProg ContainerStats :=
  let! key := lift (key_from_target (ast_target r)) in
  with_container key container_stats.

(** The confirmation loop of a delivered SIGKILL; [polls] is how often the
    clock is still before the deadline. *)
Fixpoint confirm_kill (polls : nat) : CProg () :=
  do! refresh;
  let! c := get_container in
  if bool_decide (gc_status c = Stopped) then ret ()
  else match polls with O => ret () | S polls => confirm_kill polls end.

Definition kill_new (polls : nat) (r : AgentKillRequest) : EProg AgentState :=
  do! validate_deadline (akr_context r);
  let! key := lift (key_from_target (akr_target r)) in
  with_container key (
    do! refresh;
    let! c := get_container in
    do! lift (reject_if (bool_decide (gc_status c = Stopped))
      (executor_error FailedPrecondition "cannot signal a stopped container"));
    let! outcome := (if akr_all r then container_signal_all (akr_signal r)
                     else on_process (on_child (λ child, k_signal child (akr_signal r)))) in
    do! (match outcome with
         | Delivered => if akr_signal r =? SIGKILL then confirm_kill polls else refresh
         | Exited => update_container (λ c, set_status c Stopped)
         end);
    container_state).

Definition delete_new (r : AgentDeleteRequest) : EProg () :=
  do! validate_deadline (adr_context r);
  let! key := lift (key_from_target (adr_target r)) in
  let! c := with_container key (
    do! refresh;
    let! c := get_container in
    do! lift (reject_if (negb (bool_decide (gc_status c = Stopped))
                         && bool_decide (adr_mode r = StoppedOnly))
      (executor_error FailedPrecondition "stopped-only delete requires a stopped container"));
    do! force_stop_all;
    do! on_process (on_child k_cleanup_intel_rdt);
    do! update_container (λ c, set_status c Stopped);
    get_container) in
  do! kernel (k_cleanup_device_targets (gc_runtime_directory c));
  do! kernel (k_remove_container_directory (gc_runtime_directory c));
  λ '(s, k), (Ok (), (set_containers s (filter (λ e, e.1 ≠ key) (es_containers s)),
                      k_poststop (pp_child (gc_process c)) k)).

(** Undo a spawned init: the cleanup of the failure paths of [create_new]. *)
Definition abandon_init (p : PreparedProcess) (directory : string) : EProg () := λ '(s, k),
  let k := k_rollback_network (pp_child p) k in
  let '(_, (p, k)) := process_force_stop (p, k) in
  let '(_, k) := k_cleanup_intel_rdt (pp_child p) k in
  let '(cleaned, k) := k_cleanup_device_targets directory k in
  match cleaned with
  | Ok _ => (Ok (), (s, (k_remove_container_directory directory k).2))
  | Err _ => (Ok (), (s, k))
  end.
(** [m], and on an error [cleanup] before it is returned. *)
Definition or_cleanup {A} (m : EProg A) (cleanup : EProg ()) : EProg A :=
  catch m (λ r, match r with Ok a => ret a | Err e => do! cleanup; fail e end).

(** [create_new] after its guards. *)
Definition create_admitted (key : ContainerKey) (r : AgentCreateRequest) : EProg AgentState :=
  let! plan := kernel (k_plan_create r) in
  do! (λ '(s, k), if cpl_has_cgroup plan && negb (es_cgroup_manager s) then
                    match k_create_cgroup_manager k with
                    | (Err e, k') => (Err e, (s, k'))
                    | (Ok _, k') => (Ok (), (mkExecutor (es_containers s) (es_highest_generations s)
                                               (es_next_slot s) true, k'))
                    end
                  else (Ok (), (s, k)));
  let! slot := (λ '(s, k), match checked_add_u64 (es_next_slot s) 1 with
                           | None => (Err (executor_error ResourceExhausted
                               "guest container slot space is exhausted"), (s, k))
                           | Some slot => (Ok slot, (mkExecutor (es_containers s)
                               (es_highest_generations s) slot (es_cgroup_manager s), k))
                           end) in
  let directory := k_runtime_directory slot in
  let remove := kernel_ignore (k_remove_container_directory directory) in
  do! kernel (k_create_directory directory);
  do! or_cleanup (kernel (k_write_snapshot directory)) remove;
  do! (if cpl_device_mounts plan then or_cleanup (kernel k_prepare_device_mounts) remove else ret ());
  do! (if cpl_separate_device_source plan
       then or_cleanup (kernel (k_create_device_directory directory)) remove else ret ());
  let! spawned := catch (kernel (k_spawn_init r)) (λ spawned,
    match spawned with
    | Ok spawned => ret spawned
    | Err error =>
        catch (if cpl_separate_device_source plan
               then kernel (k_remove_device_directory directory) else ret ()) (λ cleanup,
        do! catch (kernel (k_cleanup_device_targets directory))
              (λ cleaned, match cleaned with Ok _ => remove | Err _ => ret () end);
        fail (match cleanup with Ok _ => error | Err _ => append_message error
                "; failed to clean the guest-local device sources: {}" end))
    end) in
  let process := mkPrepared spawned.1 spawned.2 None true (cpl_has_process plan) in
  let abandon := abandon_init process directory in
  do! (if cpl_separate_device_source plan
       then or_cleanup (kernel (k_remove_device_directory directory)) abandon else ret ());
  do! (if cpl_durable_owner plan
       then do! kernel k_supervisor_identity;
            or_cleanup (kernel (k_write_recovery_record r)) abandon
       else ret ());
  let! response := or_cleanup (lift (state_new (acr_target r) Created (Some (pp_pid process))
                                       (ab_config_digest (acr_bundle r)) false)) abandon in
  λ '(s, k),
    (Ok response,
     (mkExecutor
        (btree_set key (mkGuestContainer (acr_target r) (ab_config_digest (acr_bundle r)) Created false
                          process [] directory) (es_containers s))
        (<[key_id key := key_generation key]> (es_highest_generations s))
        (es_next_slot s) (es_cgroup_manager s),
      k_commit_network (pp_child process) k)).

Definition create_new (r : AgentCreateRequest) : EProg AgentState :=
  do! validate_deadline (acr_context r);
  let! key := lift (key_from_target (acr_target r)) in
  do! (λ st, (reject_if (existsb (λ e, bool_decide (key_id (fst e) = key_id key)) (es_containers (fst st)))
                (executor_error AlreadyExists "container {} already exists in the guest"), st));
  do! (λ st, (reject_if (match es_highest_generations (fst st) !! key_id key with
                         | Some g => key_generation key <=? g | None => false end)
                (executor_error Conflict
                   "container {} generation {} is not newer than the guest fence"), st));
  create_admitted key r.

(** ** Exec processes *)

Definition exec_missing : Error :=
  executor_error NotFound "process {} does not exist in container {} generation {}".

Definition missing_locked_container : Error := executor_error Internal
  "container {} generation {} disappeared while executor state remained locked".
(** [containers.get(&key).ok_or_else(missing_locked_container)] *)
Definition locked_container (key : ContainerKey) : EProg GuestContainer := λ '(s, k),
  (ok_or missing_locked_container (btree_get key (es_containers s)), (s, k)).

Definition exec_new (r : AgentExecRequest) : EProg AgentProcess :=
  do! validate_deadline (aer_context r);
  do! lift (reject_if (is_init (pt_process_id (aer_target r))) (executor_error InvalidArgument
    "exec process ID `init` is reserved for the configured process"));
  let! key := lift (key_from_target (pt_container (aer_target r))) in
  do! with_container key (
    do! refresh;
    let! c := get_container in
    do! lift (reject_if (negb (bool_decide (gc_status c = Running))) (executor_error FailedPrecondition
      "container exec requires a running configured process"));
    do! lift (reject_if (gc_paused c) (executor_error FailedPrecondition
      "container exec is unavailable while the container is paused"));
    lift (reject_if (bool_decide (is_Some (btree_get (pt_process_id (aer_target r)) (gc_processes c))))
      (executor_error AlreadyExists "process {} already exists in container {} generation {}")));
  do! lift (rbind (resolve_for_process (aer_io r) (aer_process r)) (λ _, Ok ()));
  let! c := locked_container key in
  do! kernel (k_plan_exec (pp_child (gc_process c)) r);
  let! slot := (λ '(s, k), match checked_add_u64 (es_next_slot s) 1 with
                           | None => (Err (executor_error ResourceExhausted
                               "guest process slot space is exhausted"), (s, k))
                           | Some slot => (Ok slot, (mkExecutor (es_containers s)
                               (es_highest_generations s) slot (es_cgroup_manager s), k))
                           end) in
  let container_directory := gc_runtime_directory c in
  let directory := k_process_directory container_directory slot in
  let remove := kernel_ignore (k_remove_process_directory container_directory directory) in
  do! kernel (k_create_directory directory);
  do! kernel (k_encode_plan r);
  do! or_cleanup (kernel (k_write_snapshot directory)) remove;
  let! spawned := or_cleanup (kernel (k_spawn_exec (pp_child (gc_process c)) r)) remove in
  let process := mkExecProcess spawned.1 spawned.2 None (default false (proc_terminal (aer_process r))) in
  let stop := (do! (λ '(s, k), let '(_, (_, k')) := exec_force_stop (process, k) in (Ok (), (s, k')));
               remove) in
  let! response := or_cleanup (lift (process_new (aer_target r) (ep_pid process) (ep_terminal process))) stop in
  do! locked_container key;
  let! supervised := kernel (k_has_session_supervisor container_directory) in
  do! (if supervised
       then or_cleanup (kernel (k_record_exec_identity container_directory r)) stop else ret ());
  do! with_container key (update_container (λ c, set_processes c
    (btree_set (pt_process_id (aer_target r)) process (gc_processes c))));
  ret response.

(** [supervised_exec_session_supervisor] *)
Definition supervised_exec_session_supervisor (r : AgentExecRequest) : EProg () :=
  let! key := lift (key_from_target (pt_container (aer_target r))) in
  let! c := (λ '(s, k), (ok_or container_missing (btree_get key (es_containers s)), (s, k))) in
  let! supervised := kernel (k_has_session_supervisor (gc_runtime_directory c)) in
  if supervised then kernel k_session_supervisor else ret ().

(** [processes.get_mut(process_id)] and an operation of the process found. *)
Definition with_process {A} (process_id : string) (m : prog (ExecProcess * K) Error A) : CProg A := λ '(c, k),
  match btree_get process_id (gc_processes c) with
  | None => (Err exec_missing, (c, k))
  | Some p => let '(r, (p', k')) := m (p, k) in
              (r, (set_processes c (btree_set process_id p' (gc_processes c)), k'))
  end.

Definition signal_process_new (r : AgentSignalProcessRequest) : EProg () :=
  do! validate_deadline (asp_context r);
  let! key := lift (key_from_target (pt_container (asp_target r))) in
  with_container key (
    do! refresh;
    let! c := get_container in
    if is_init (pt_process_id (asp_target r)) then
      do! lift (reject_if (bool_decide (gc_status c = Stopped)) (executor_error FailedPrecondition
        "cannot signal a stopped configured process"));
      let! outcome := on_process (on_child (λ child, k_signal child (asp_signal r))) in
      match outcome with
      | Exited => do! update_container (λ c, set_status c Stopped);
                  fail (executor_error FailedPrecondition
                    "configured process exited before signal delivery")
      | Delivered => ret ()
      end
    else
      with_process (pt_process_id (asp_target r)) (
        let! status := exec_try_wait in
        do! lift (reject_if (bool_decide (is_Some status)) (executor_error FailedPrecondition
          "process {} has already exited"));
        let! outcome := (λ '(p, k), let '(o, k') := k_signal (ep_child p) (asp_signal r) k in (o, (p, k'))) in
        match outcome with
        | Exited => do! exec_try_wait;
                    fail (executor_error FailedPrecondition "process {} exited before signal delivery")
        | Delivered => ret ()
        end)).

(** ** Waiting *)

(** [wait_new] and [wait_process_new] poll: one turn of the loop gives the exit
    status when there is one. *)
Definition wait_turn (r : AgentWaitRequest) : EProg (option ExitStatus) :=
  let! key := lift (key_from_target (awr_target r)) in
  with_container key poll_wait.
Definition wait_process_turn (r : AgentWaitProcessRequest) : EProg (option ExitStatus) :=
  let! key := lift (key_from_target (pt_container (awp_target r))) in
  with_container key (
    if is_init (pt_process_id (awp_target r)) then
      let! status := poll_wait in
      do! (match status with Some _ => on_processes exec_force_stop | None => ret () end);
      ret status
    else
      do! refresh;
      with_process (pt_process_id (awp_target r)) exec_try_wait).

(** The loop, with [started.elapsed()] after each turn.  When the readings run
    out the caller has gone away, and [abandoned] stands for its outcome. *)
Fixpoint wait_loop (readings : list Z) (timeout : option Z) (abandoned : Error)
    (turn : EProg (option ExitStatus)) : EProg ExitStatus :=
  let! status := turn in
  match status with
  | Some status => ret status
  | None =>
      match readings with
      | [] => fail abandoned
      | elapsed :: readings =>
          if match timeout with Some limit => limit <=? elapsed | None => false end
          then fail (set_retryable (executor_error DeadlineExceeded
                 "timed out after {} ms waiting for container {} generation {}") true)
          else wait_loop readings timeout abandoned turn
      end
  end.

(** ** Shutdown *)

(** [recovery_record] *)
Definition recovery_record : CProg AgentRecoveryRecord :=
  let! status := poll_wait in
  let! status := lift (ok_or (executor_error Internal
    "init process for container {} has no terminal result after forced shutdown") status) in
  let! c := get_container in
  lift (recovery_record_new (gc_target c) (gc_config_digest c) status).

(** The first loop of [shutdown_executor]: every container is stopped; the
    evidence of those that could be, and the first error. *)
Fixpoint stop_containers (cs : list (ContainerKey * GuestContainer)) (k : K)
    : Result () * list AgentRecoveryRecord * K :=
  match cs with
  | [] => (Ok (), [], k)
  | (_, c) :: rest =>
      let '(stopped, (c, k)) := force_stop_all (c, k) in
      let '(result, evidence, k) :=
        match stopped with
        | Err e => (Err e, [], k)
        | Ok _ =>
            let '(rdt, (c, k)) := on_process (on_child k_cleanup_intel_rdt) (c, k) in
            let '(record, (_, k)) := recovery_record (c, k) in
            match record with
            | Ok record => (rdt, [record], k)
            | Err e => (first_error rdt (Err e), [], k)
            end
        end in
      let '(result', evidence', k) := stop_containers rest k in
      (first_error result result', evidence ++ evidence', k)
  end.

(** [cleanup_shutdown_device_targets]: every directory, the first error. *)
Fixpoint cleanup_shutdown_device_targets (directories : list string) (k : K) : Result () * K :=
  match directories with
  | [] => (Ok (), k)
  | d :: rest =>
      let '(r, k) := k_cleanup_device_targets d k in
      let '(r', k) := cleanup_shutdown_device_targets rest k in
      (first_error r r', k)
  end.

(** A step whose error does not stop the shutdown. *)
Definition optional_step (b : bool) (m : prog K Error ()) (k : K) : Result () * K :=
  if b then m k else (Ok (), k).

Definition shutdown_executor (delegated separate_device_root : bool)
    : EProg (list AgentRecoveryRecord) := λ '(s, k),
  let '(stopped, recovery, k) := stop_containers (es_containers s) k in
  let '(devices, k) := cleanup_shutdown_device_targets (gc_runtime_directory ∘ snd <$> es_containers s) k in
  let '(authority, k) := optional_step delegated k_shutdown_device_authority k in
  let '(manager, k) := optional_step (es_cgroup_manager s) k_remove_cgroup_manager k in
  let '(root, k) := optional_step (is_ok devices) k_remove_runtime_root k in
  let '(device_root, k) := optional_step separate_device_root k_remove_device_root k in
  let k := foldl (λ k e, k_poststop (pp_child (gc_process (snd e))) k) k (es_containers s) in
  let result := foldr first_error (Ok ()) [stopped; devices; authority; manager; root; device_root] in
  (match result with Ok _ => Ok recovery | Err e => Err e end,
   (mkExecutor [] (es_highest_generations s) (es_next_slot s) false, k)).
End executor.
