(* ===== verification/GuestService.v ===== *)
(** * The guest executor as the agent's service (agent/src/executor/mod.rs,
    exec.rs, process_io.rs and filesystem.rs)

    The executor state is behind one lock.  A mutating request prepares its
    operation in the journal, runs it if it claimed it and answers with the
    recorded result.  A call here runs from its first to its last step, as the
    lock enforces for all but standard input; the interleavings of callers that
    wait for the same operation are those of [GuestJournal]. *)

From stdpp Require Import base gmap list strings.
From S2P Require Import Prelude Collections Sdk OutputBuffer Wire AgentModel AgentSession.
From S2P Require Import GuestJournal GuestExecutor.
From Stdlib Require Import ZArith Lia.
Local Open Scope string_scope.
Local Open Scope list_scope.
Local Open Scope Z_scope.

(** What is hashed for a create. *)
Record CreateFingerprint : Type := mkCreateFingerprint {
  cf_request : AgentCreateRequest; cf_inherited_descriptors : option string
}.

(** The JSON texts of the requests that are recorded. *)
Class GuestCanonical : Type := {
  can_create :: Canonical CreateFingerprint;
  can_start :: Canonical AgentStartRequest;
  can_kill :: Canonical AgentKillRequest;
  can_delete :: Canonical AgentDeleteRequest;
  can_exec :: Canonical AgentExecRequest;
  can_signal :: Canonical AgentSignalProcessRequest;
  can_freezer :: Canonical AgentContainerOperationRequest;
  can_update :: Canonical AgentUpdateRequest;
  can_write :: Canonical AgentWriteStdinRequest;
  can_close :: Canonical AgentCloseStdinRequest;
  can_resize :: Canonical AgentResizeRequest;
  can_file :: Canonical FileRequest;
  can_filesystem :: Canonical FilesystemRequest
}.

Section service.
Context `{!GuestKernel, !Sha256, !GuestCanonical, !AgentEnv}.

(** The capabilities the executor was opened with; how often the kill loop
    polls; the clock readings of a wait and the outcome of one that its caller
    gave up. *)
Context (capabilities : AgentCapabilities) (polls : nat) (readings : list Z) (abandoned : Error).

Record LinuxExecutor : Type := mkLinuxExecutor {
  le_state : ExecutorState; le_journal : OperationJournal; le_kernel : K
}.
Abbreviation SProg := (prog LinuxExecutor Error).

(** An operation on the executor state, under the lock. *)
Definition locked {A} (m : prog (ExecutorState * K) Error A) : SProg A := λ l,
  let '(r, (s, k)) := m (le_state l, le_kernel l) in (r, mkLinuxExecutor s (le_journal l) k).

(** A request that prepares its operation, runs it if it claimed it, and then
    waits for the outcome. *)
Definition recorded {T} `{!OutcomeKind T} (id : string) (operation : Result RecordedRequest)
    (effect : prog (ExecutorState * K) Error T) : SProg T := λ l,
  match operation with
  | Err e => (Err e, l)
  | Ok operation =>
      match prepare_operation id operation (le_journal l) with
      | (Err e, j) => (Err e, mkLinuxExecutor (le_state l) j (le_kernel l))
      | (Ok (Completed result), j) => (result, mkLinuxExecutor (le_state l) j (le_kernel l))
      | (Ok (Pending cell), j) =>
          (default (Err abandoned) (wait_for_operation cell j), mkLinuxExecutor (le_state l) j (le_kernel l))
      | (Ok (Claimed cell), j) =>
          let '(result, (s, k)) := effect (le_state l, le_kernel l) in
          let '(_, j) := complete_operation id operation result j in
          (default (Err abandoned) (wait_for_operation cell j), mkLinuxExecutor s j k)
      end
  end.

(** The same for an operation that is looked up, run and recorded in one turn. *)
Definition recorded_locked {T} `{!OutcomeKind T} (id : string) (operation : Result RecordedRequest)
    (effect : prog (ExecutorState * K) Error T) : SProg T := λ l,
  match operation with
  | Err e => (Err e, l)
  | Ok operation =>
      let '(result, j, (s, k)) :=
        run_recorded id operation effect (le_journal l) (le_state l, le_kernel l) in
      (result, mkLinuxExecutor s j k)
  end.

(** ** Process I/O *)

Inductive Access : Type := Read | Write | Close | Resize.
#[global] Instance Access_eq_dec : EqDecision Access.
Proof. solve_decision. Defined.

Definition configured_process_accepts_stdin (status : ContainerState) : bool :=
  bool_decide (status = Created) || bool_decide (status = Running).

(** The handle of a process's streams is named by its child. *)
Definition process_io_handle (target : ProcessTarget) (access : Access)
    : prog (ExecutorState * K) Error nat :=
  let! key := lift (key_from_target (pt_container target)) in
  with_container key (
    do! refresh;
    let! c := get_container in
    if is_init (pt_process_id target) then
      do! lift (reject_if (bool_decide (access = Write)
                           && negb (configured_process_accepts_stdin (gc_status c)))
        (executor_error FailedPrecondition
           "configured process stdin cannot be written while container is {}"));
      do! lift (reject_if (bool_decide (access = Resize) && bool_decide (gc_status c = Stopped))
        (executor_error FailedPrecondition "configured process has already exited"));
      ret (pp_child (gc_process c))
    else
      with_process (pt_process_id target) (
        do! (if bool_decide (access = Write) || bool_decide (access = Resize) then
               let! status := exec_try_wait in
               lift (reject_if (bool_decide (is_Some status)) (executor_error FailedPrecondition
                 "process {} has already exited"))
             else ret ());
        λ '(p, k), (Ok (ep_child p), (p, k)))).

Definition read_output_new (r : AgentReadOutputRequest) : prog (ExecutorState * K) Error (list OutputChunk) :=
  let! io := process_io_handle (aro_process r) Read in
  kernel (k_read_output io r).
Definition write_stdin_new (r : AgentWriteStdinRequest) : prog (ExecutorState * K) Error () :=
  let! io := process_io_handle (aws_process r) Write in
  kernel (k_write_stdin io (aws_data r)).
Definition close_stdin_new (r : AgentCloseStdinRequest) : prog (ExecutorState * K) Error () :=
  let! io := process_io_handle (acs_process r) Close in
  kernel (k_close_stdin io).
Definition resize_new (r : AgentResizeRequest) : prog (ExecutorState * K) Error () :=
  let! io := process_io_handle (arz_process r) Resize in
  kernel (k_resize io (arz_size r)).

Definition write_stdin_recorded (r : AgentWriteStdinRequest) : SProg () :=
  match aws_context r with
  | None => locked (write_stdin_new r)
  | Some context => recorded (oc_operation_id context) (recorded_new MutWriteStdin r)
                      (do! validate_deadline context; write_stdin_new r)
  end.
Definition close_stdin_recorded (r : AgentCloseStdinRequest) : SProg () :=
  match acs_context r with
  | None => locked (close_stdin_new r)
  | Some context => recorded (oc_operation_id context) (recorded_new MutCloseStdin r)
                      (do! validate_deadline context; close_stdin_new r)
  end.
Definition resize_recorded (r : AgentResizeRequest) : SProg () :=
  match arz_context r with
  | None => locked (resize_new r)
  | Some context => recorded_locked (oc_operation_id context) (recorded_new MutResize r)
                      (do! validate_deadline context; resize_new r)
  end.

(** ** Files *)

Definition filesystem_error (c : ErrorCode) (msg : string) : Error :=
  for_operation (executor_error c msg) "linux-container-filesystem".

(** [container_record], and the helper run in the container's namespaces. *)
Definition in_container {A} (target : ContainerTarget) (helper : nat → prog K Error A)
    : prog (ExecutorState * K) Error A :=
  let! key := lift (key_from_target target) in
  with_container_or (filesystem_error NotFound "container {} generation {} does not exist") key (
    do! refresh;
    let! c := get_container in
    do! lift (reject_if (negb (bool_decide (gc_status c = Created) || bool_decide (gc_status c = Running)))
      (filesystem_error FailedPrecondition "container filesystem is unavailable while {}"));
    on_process (on_child helper)).

Definition file_mutation_new (r : FileRequest) : prog (ExecutorState * K) Error FileResponse :=
  let! context := lift (ok_or (filesystem_error InvalidArgument
    "file upload requires an operation context") (file_context r)) in
  do! validate_deadline context;
  in_container (file_target r) (λ child, k_file child r).
Definition filesystem_mutation_new (r : FilesystemRequest) : prog (ExecutorState * K) Error FilesystemResponse :=
  let! context := lift (ok_or (filesystem_error InvalidArgument
    "filesystem mutation requires an operation context") (fs_context r)) in
  do! validate_deadline context;
  in_container (fs_target r) (λ child, k_filesystem child r).

Definition file_recorded (r : FileRequest) : SProg FileResponse :=
  do! lift (validate_file_request base64_decoded_len r);
  if bool_decide (file_op r = Upload) then
    let! context := lift (ok_or (filesystem_error InvalidArgument
      "file upload requires an operation context") (file_context r)) in
    recorded (oc_operation_id context) (recorded_new MutFile r)
      (do! kernel k_duplicate_executable; file_mutation_new r)
  else locked (in_container (file_target r) (λ child, k_file child r)).
Definition filesystem_recorded (r : FilesystemRequest) : SProg FilesystemResponse :=
  do! lift (validate_filesystem_request r);
  if fs_is_mutating (fs_op r) then
    let! context := lift (ok_or (filesystem_error InvalidArgument
      "filesystem mutation requires an operation context") (fs_context r)) in
    recorded (oc_operation_id context) (recorded_new MutFilesystem r)
      (do! kernel k_duplicate_executable; filesystem_mutation_new r)
  else locked (in_container (fs_target r) (λ child, k_filesystem child r)).

(** ** The service *)

Definition create_with_inherited_descriptors (r : AgentCreateRequest) (schema : option string)
    : SProg AgentState :=
  recorded (oc_operation_id (acr_context r)) (recorded_new MutCreate (mkCreateFingerprint r schema))
    (do! kernel k_create_context; create_new r).
Definition exec_recorded (r : AgentExecRequest) : SProg AgentProcess :=
  let! operation := lift (recorded_new MutExec r) in
  do! locked (supervised_exec_session_supervisor r);
  recorded (oc_operation_id (aer_context r)) (Ok operation)
    (do! kernel k_duplicate_executable; exec_new r).
Definition signal_process_recorded (r : AgentSignalProcessRequest) : SProg () :=
  recorded_locked (oc_operation_id (asp_context r)) (recorded_new MutSignalProcess r)
    (signal_process_new r).

(** [impl GuestAgentService for LinuxExecutor] *)
#[global] Instance linux_executor : GuestAgentService LinuxExecutor := {
  svc_capabilities := capabilities;
  svc_acknowledge_operations ids := λ l,
    let '(r, j) := acknowledge_operations ids (le_journal l) in
    (r, mkLinuxExecutor (le_state l) j (le_kernel l));
  svc_create r := do! lift (k_validate_create r); create_with_inherited_descriptors r None;
  svc_state r := locked (state_query r);
  svc_start r := recorded (oc_operation_id (ass_context r)) (recorded_new MutStart r) (start_new r);
  svc_kill r := recorded (oc_operation_id (akr_context r)) (recorded_new MutKill r) (kill_new polls r);
  svc_delete r := recorded (oc_operation_id (adr_context r)) (recorded_new MutDelete r) (delete_new r);
  svc_wait r := locked (wait_loop readings (awr_timeout_ms r) abandoned (wait_turn r));
  svc_exec r := exec_recorded r;
  svc_signal_process r := signal_process_recorded r;
  svc_wait_process r := locked (wait_loop readings (awp_timeout_ms r) abandoned (wait_process_turn r));
  svc_pause r :=
    recorded (oc_operation_id (aco_context r)) (recorded_new MutPause r) (freezer_new r true);
  svc_resume r :=
    recorded (oc_operation_id (aco_context r)) (recorded_new MutResume r) (freezer_new r false);
  svc_processes r := locked (processes_new r);
  svc_update r := recorded (oc_operation_id (aur_context r)) (recorded_new MutUpdate r) (update_new r);
  svc_stats r := locked (stats_new r);
  svc_read_output r := locked (read_output_new r);
  svc_write_stdin r := write_stdin_recorded r;
  svc_close_stdin r := close_stdin_recorded r;
  svc_resize r := resize_recorded r;
  svc_file r := file_recorded r;
  svc_filesystem r := filesystem_recorded r
}.

Definition executor_open (k : K) : LinuxExecutor := mkLinuxExecutor executor_default journal_default k.

(** A sequence of requests. *)
Fixpoint serve_requests (requests : list AgentRequest) (l : LinuxExecutor) : LinuxExecutor :=
  match requests with
  | [] => l
  | request :: rest => serve_requests rest (dispatch request l).2
  end.
End service.
