(* ===== verification/GuestServiceProps.v ===== *)
(** * The guest service: retries and generations

    A retry of a recorded request answers as the first attempt did and does
    nothing; a container generation that was deleted never comes back. *)

From stdpp Require Import base gmap list sorting strings.
From S2P Require Import Prelude Collections Sdk OutputBuffer Wire AgentModel AgentRecovery.
From S2P Require Import AgentSession GuestJournal GuestExecutor GuestService.
From Stdlib Require Import ZArith Lia.

Local Open Scope string_scope.
Local Open Scope list_scope.
Local Open Scope Z_scope.

Section service_props.
Context `{!GuestKernel, !Sha256, !GuestCanonical, !AgentEnv}.
Context (capabilities : AgentCapabilities) (polls : nat) (readings : list Z) (abandoned : Error).
#[local] Existing Instance linux_executor.
Abbreviation service := (linux_executor capabilities polls readings abandoned).
Abbreviation SProg := (prog LinuxExecutor Error).

(** ** Recorded operations *)

(** A recorded operation leaves everything as it was, or runs once and records
    its result. *)
Lemma recorded_cases {T} `{!OutcomeKind T, !OutcomeKindLaws T} id operation effect l :
  (recorded (T := T) abandoned id operation effect l).2 = l ∨
  ∃ op j, operation = Ok op ∧ jn_operations (le_journal l) !! id = None ∧
    jn_operations j = <[id := mkOperationRecord op (inject (effect (le_state l, le_kernel l)).1)]>
      (jn_operations (le_journal l)) ∧
    recorded abandoned id operation effect l =
      ((effect (le_state l, le_kernel l)).1,
       mkLinuxExecutor (effect (le_state l, le_kernel l)).2.1 j (effect (le_state l, le_kernel l)).2.2).
Proof.
  unfold recorded, prepare_operation, prepare_pending_operation. destruct l as [s j k]. simpl.
  destruct operation as [op|e]; [|by left].
  destruct (replay id op j) as [r|] eqn:Hr; [by left|]. apply replay_none in Hr.
  destruct (jn_pending_operations j !! id) as [p|] eqn:Hp; simpl.
  { left. destruct (bool_decide (po_kind p = ok_kind)); [|done]. by destruct (validate_recorded _ _). }
  destruct (reserve_operation id j) as [u|e]; [|by left]. right. exists op.
  destruct (effect (s, k)) as [r [s' k']]. simpl. unfold complete_operation.
  erewrite complete_pending_ok; simpl; [|rewrite lookup_insert_eq; by rewrite (inject_kind r)].
  eexists. split_and!; [done|done|..].
  2:{ unfold wait_for_operation. simpl. by rewrite lookup_insert_eq, project_inject. }
  done.
Qed.

Lemma recorded_locked_cases {T} `{!OutcomeKind T} id operation effect l :
  (recorded_locked (T := T) id operation effect l).2 = l ∨
  ∃ op j, operation = Ok op ∧ jn_operations (le_journal l) !! id = None ∧
    jn_operations j = <[id := mkOperationRecord op (inject (effect (le_state l, le_kernel l)).1)]>
      (jn_operations (le_journal l)) ∧
    recorded_locked id operation effect l =
      ((effect (le_state l, le_kernel l)).1,
       mkLinuxExecutor (effect (le_state l, le_kernel l)).2.1 j (effect (le_state l, le_kernel l)).2.2).
Proof.
  unfold recorded_locked, run_recorded. destruct l as [s j k]. simpl.
  destruct operation as [op|e]; [|by left].
  destruct (replay id op j) as [r|] eqn:Hr; [by left|]. apply replay_none in Hr.
  destruct (reserve_operation id j) as [u|e]; [|by left]. right. exists op.
  destruct (effect (s, k)) as [r [s' k']]. eexists. split_and!; [done|done|..]; [|simpl; reflexivity].
  done.
Qed.

Lemma replay_record {T} `{!OutcomeKind T, !OutcomeKindLaws T} id op (r : Result T) j :
  jn_operations j !! id = Some (mkOperationRecord op (inject r)) → replay id op j = Some r.
Proof.
  intros Hr. unfold replay. rewrite Hr. simpl. unfold validate_recorded.
  rewrite bool_decide_true by done. simpl. by rewrite project_inject.
Qed.

(** ** Replay *)

(** [m] either changes nothing, or answers the same from every state that
    still has the record it left. *)
Definition replayable {A} (id : string) (m : SProg A) : Prop := ∀ l,
  (m l).2 = l ∨
  ∃ rec, jn_operations (le_journal (m l).2) !! id = Some rec ∧
    ∀ l', jn_operations (le_journal l') !! id = Some rec → m l' = ((m l).1, l').

Lemma recorded_replayable {T} `{!OutcomeKind T, !OutcomeKindLaws T} id operation effect :
  replayable id (recorded (T := T) abandoned id operation effect).
Proof.
  intros l. destruct (recorded_cases id operation effect l) as [?|(op & j & -> & Hn & Hj & Heq)]; [by left|].
  right. rewrite Heq. simpl. eexists. split; [by rewrite Hj, lookup_insert_eq|].
  intros [s' j' k'] Hr. simpl in Hr. unfold recorded, prepare_operation. simpl.
  by rewrite (replay_record _ _ _ _ Hr).
Qed.
Lemma recorded_locked_replayable {T} `{!OutcomeKind T, !OutcomeKindLaws T} id operation effect :
  replayable id (recorded_locked (T := T) id operation effect).
Proof.
  intros l. destruct (recorded_locked_cases id operation effect l) as [?|(op & j & -> & Hn & Hj & Heq)];
    [by left|].
  right. rewrite Heq. simpl. eexists. split; [by rewrite Hj, lookup_insert_eq|].
  intros [s' j' k'] Hr. simpl in Hr. unfold recorded_locked, run_recorded. simpl.
  by rewrite (replay_record _ _ _ _ Hr).
Qed.

(** A pure continuation, and a pure check before. *)
Lemma replayable_bind {A B} id (m : SProg A) (f : A → Result B) (k : A → SProg B) :
  (∀ a l, k a l = (f a, l)) → replayable id m → replayable id (bind m k).
Proof.
  intros Hk Hm l. destruct (Hm l) as [Hl|(rec & Hrec & Hrep)].
  - left. unfold bind. destruct (m l) as [[a|e] l2]; simpl in *; [by rewrite Hk|done].
  - right. exists rec. unfold bind. destruct (m l) as [[a|e] l2]; simpl in *.
    + rewrite Hk. split; [done|]. intros l' Hl'. by rewrite (Hrep l' Hl'), Hk.
    + split; [done|]. intros l' Hl'. by rewrite (Hrep l' Hl').
Qed.
Lemma replayable_check {A B} id (r : Result A) (k : A → SProg B) :
  (∀ a, r = Ok a → replayable id (k a)) → replayable id (bind (lift r) k).
Proof. destruct r as [a|e]; intros Hk l; [apply (Hk a eq_refl)|by left]. Qed.

(** ** Records persist *)

Definition acknowledges (id : string) (request : AgentRequest) : bool :=
  match request with
  | ReqAcknowledgeOperations r => bool_decide (id ∈ ak_operation_ids r)
  | _ => false
  end.

Definition keeps {A} (id : string) (rec : OperationRecord) (m : SProg A) : Prop := ∀ l,
  jn_operations (le_journal l) !! id = Some rec → jn_operations (le_journal (m l).2) !! id = Some rec.

Lemma keeps_bind {A B} id rec (m : SProg A) (k : A → SProg B) :
  keeps id rec m → (∀ a, keeps id rec (k a)) → keeps id rec (bind m k).
Proof.
  intros Hm Hk l Hl. specialize (Hm l Hl). unfold bind.
  destruct (m l) as [[a|e] l2]; [by apply Hk|done].
Qed.
Lemma keeps_pure {A} id rec (r : Result A) : keeps id rec (lift r).
Proof. by intros l. Qed.
Lemma keeps_locked {A} id rec (m : prog (ExecutorState * K) Error A) : keeps id rec (locked m).
Proof. intros l. unfold locked. by destruct (m _) as [r [s k]]. Qed.
Lemma keeps_recorded {T} `{!OutcomeKind T, !OutcomeKindLaws T} id rec id' operation effect :
  keeps id rec (recorded (T := T) abandoned id' operation effect).
Proof.
  intros l Hl. destruct (recorded_cases id' operation effect l) as [->|(op & j & _ & Hn & Hj & ->)]; [done|].
  simpl. rewrite Hj. destruct (decide (id' = id)) as [->|]; [congruence|]. by rewrite lookup_insert_ne.
Qed.
Lemma keeps_recorded_locked {T} `{!OutcomeKind T, !OutcomeKindLaws T} id rec id' operation effect :
  keeps id rec (recorded_locked (T := T) id' operation effect).
Proof.
  intros l Hl.
  destruct (recorded_locked_cases id' operation effect l) as [->|(op & j & _ & Hn & Hj & ->)]; [done|].
  simpl. rewrite Hj. destruct (decide (id' = id)) as [->|]; [congruence|]. by rewrite lookup_insert_ne.
Qed.

Ltac keeps_step := first
  [ simple apply keeps_pure | simple apply keeps_locked
  | simple apply keeps_recorded; apply _ | simple apply keeps_recorded_locked; apply _
  | apply keeps_bind; [|intros ?] ].

Lemma dispatch_keeps id rec request :
  acknowledges id request = false → keeps id rec (dispatch (GuestAgentService0 := service) request).
Proof.
  intros Hack.
  assert (∀ ids, id ∉ ids → keeps id rec (svc_acknowledge_operations (GuestAgentService := service) ids))
    as Hacked.
  { intros ids Hids l Hl. simpl. destruct (acknowledge_spec ids (le_journal l)) as [[e ->]|[_ ->]]; [done|].
    simpl. by rewrite lookup_foldl_delete, decide_False. }
  destruct request; simpl in *; unfold prog_map, create_with_inherited_descriptors, exec_recorded,
    signal_process_recorded, write_stdin_recorded, close_stdin_recorded, resize_recorded, file_recorded,
    filesystem_recorded;
    repeat first [ keeps_step | case_match ]; try apply keeps_pure.
  apply Hacked. by apply bool_decide_eq_false in Hack.
Qed.

Lemma serve_requests_keep id rec requests l :
  Forall (λ q, acknowledges id q = false) requests →
  jn_operations (le_journal l) !! id = Some rec →
  jn_operations (le_journal (serve_requests capabilities polls readings abandoned requests l)) !! id = Some rec.
Proof.
  intros Hq. revert l. induction Hq as [|q requests Hq _ IH]; intros l Hl; [done|]. simpl.
  apply IH. by apply (dispatch_keeps id rec q Hq).
Qed.

Ltac replayable_step := first
  [ simple apply recorded_replayable; apply _ | simple apply recorded_locked_replayable; apply _
  | apply replayable_check; intros ? ?; simplify_eq
  | eapply replayable_bind; [intros ? ?; reflexivity|] ].

Lemma file_replayable id r :
  oc_operation_id <$> file_context r = Some id → replayable id (file_recorded abandoned r).
Proof.
  intros Hid. unfold file_recorded. apply replayable_check. intros [] Hv.
  destruct (bool_decide (file_op r = Upload)) eqn:Hu.
  - destruct (file_context r) as [context|]; simplify_eq/=. cbn [ok_or]. repeat replayable_step.
  - exfalso. apply bool_decide_eq_false in Hu. unfold validate_file_request in Hv.
    destruct (file_op r); [done|]. destruct (file_context r); [|done].
    apply rbind_ok in Hv as (? & _ & Hv). apply rbind_ok in Hv as (? & _ & Hv).
    by apply rbind_ok in Hv as (? & _ & Hv).
Qed.
Lemma filesystem_replayable id r :
  oc_operation_id <$> fs_context r = Some id → replayable id (filesystem_recorded abandoned r).
Proof.
  intros Hid. unfold filesystem_recorded. apply replayable_check. intros [] Hv.
  destruct (fs_is_mutating (fs_op r)) eqn:Hm.
  - destruct (fs_context r) as [context|]; simplify_eq/=. cbn [ok_or]. repeat replayable_step.
  - exfalso. unfold validate_filesystem_request in Hv. destruct (fs_context r); [|done].
    do 5 apply rbind_ok in Hv as (? & _ & Hv). by rewrite Hm in Hv.
Qed.

Lemma dispatch_replayable id request :
  request_operation_id request = Some id → request_operation request ≠ OpExec →
  replayable id (dispatch (GuestAgentService0 := service) request).
Proof.
  intros Hid Hop.
  destruct request as [| | | | | |r|r| | | | | | | |r|r|r|r|r|]; simpl in Hid; simplify_eq/=;
    unfold prog_map, create_with_inherited_descriptors, signal_process_recorded; try done;
    eapply replayable_bind; try (intros ? ?; reflexivity);
    try first [by apply file_replayable|by apply filesystem_replayable];
    unfold write_stdin_recorded, close_stdin_recorded, resize_recorded;
    repeat first [ replayable_step | case_match; simplify_eq/= ].
Qed.

End service_props.

(** * Container generations in the guest

    The executor keeps at most one generation of a container, its fence never
    goes down, and a generation that has gone never comes back. *)

Section generations.
Context `{!GuestKernel, !Sha256, !GuestCanonical, !AgentEnv}.

(** ** The invariant and the order *)

Record executor_ok (s : ExecutorState) : Prop := {
  eo_sorted : map_increasing (es_containers s);
  eo_fence : ∀ key c, (key, c) ∈ es_containers s →
    es_highest_generations s !! key_id key = Some (key_generation key);
  eo_target : ∀ key c, (key, c) ∈ es_containers s → key_from_target (gc_target c) = Ok key
}.

(** The fence only rises, and a new container is above it. *)
Record executor_le (s s' : ExecutorState) : Prop := {
  el_fence : ∀ id g, es_highest_generations s !! id = Some g →
    ∃ g', es_highest_generations s' !! id = Some g' ∧ g ≤ g';
  el_new : ∀ key, key ∈ (es_containers s').*1 → key ∈ (es_containers s).*1 ∨
    ∀ g, es_highest_generations s !! key_id key = Some g → g < key_generation key
}.
#[local] Instance executor_le_refl : Reflexive executor_le.
Proof. intros s. split; [intros id g Hg; by exists g|by left]. Qed.
#[local] Instance executor_le_trans : Transitive executor_le.
Proof.
  intros s1 s2 s3 [F1 N1] [F2 N2]. split.
  - intros id g Hg. destruct (F1 _ _ Hg) as (g2 & Hg2 & ?). destruct (F2 _ _ Hg2) as (g3 & Hg3 & ?).
    exists g3. split; [done|lia].
  - intros key Hk. destruct (N2 key Hk) as [Hk2|Hnew]; [by apply N1|right].
    intros g Hg. destruct (F1 _ _ Hg) as (g2 & Hg2 & ?). specialize (Hnew g2 Hg2). lia.
Qed.

Abbreviation EProg := (prog (ExecutorState * K) Error).
Abbreviation CProg := (prog (GuestContainer * K) Error).

Definition good {A} (m : EProg A) : Prop := ∀ st,
  executor_ok st.1 → executor_ok (m st).2.1 ∧ executor_le st.1 (m st).2.1.
(** Operations that leave the containers and the fence alone. *)
Definition framed {A} (m : EProg A) : Prop := ∀ st,
  es_containers (m st).2.1 = es_containers st.1 ∧
  es_highest_generations (m st).2.1 = es_highest_generations st.1.
Definition keeps_target {A} (m : CProg A) : Prop := ∀ st, gc_target (m st).2.1 = gc_target st.1.

Lemma framed_ok s s' : es_containers s' = es_containers s →
  es_highest_generations s' = es_highest_generations s → executor_ok s → executor_ok s' ∧ executor_le s s'.
Proof.
  intros Hc Hh [Hs Hf Ht]. split.
  - split; rewrite ?Hc, ?Hh; done.
  - split; rewrite ?Hc, ?Hh; [intros id g Hg; by exists g|by left].
Qed.
Lemma framed_good {A} (m : EProg A) : framed m → good m.
Proof. intros Hm st Hok. destruct (Hm st) as [? ?]. by apply framed_ok. Qed.

(** *** Structural rules *)
Lemma good_pure {A} (r : Result A) : good (lift r).
Proof. intros st Hok. by split. Qed.
Lemma good_bind {A B} (m : EProg A) (k : A → EProg B) :
  good m → (∀ a, good (k a)) → good (bind m k).
Proof.
  intros Hm Hk st Hok. destruct (Hm st Hok) as [Hok' Hle]. unfold bind.
  destruct (m st) as [[a|e] st']; [|done]. simpl in *.
  destruct (Hk a st' Hok') as [Hok'' Hle']. split; [done|]. by etrans.
Qed.
Lemma framed_pure {A} (r : Result A) : framed (lift r).
Proof. by intros st. Qed.
Lemma framed_bind {A B} (m : EProg A) (k : A → EProg B) :
  framed m → (∀ a, framed (k a)) → framed (bind m k).
Proof.
  intros Hm Hk st. destruct (Hm st) as [E1 E2]. unfold bind.
  destruct (m st) as [[a|e] st']; [|done]. simpl in *.
  destruct (Hk a st') as [E3 E4]. split; congruence.
Qed.
Lemma framed_catch {A B} (m : EProg A) (k : Result A → EProg B) :
  framed m → (∀ r, framed (k r)) → framed (catch m k).
Proof.
  intros Hm Hk st. destruct (Hm st) as [E1 E2]. unfold catch.
  destruct (m st) as [r st']. simpl in *. destruct (Hk r st') as [E3 E4]. split; congruence.
Qed.
Lemma framed_kernel {A} (m : prog K Error A) : framed (kernel m).
Proof. intros [s k]. unfold kernel. by destruct (m k). Qed.
Lemma framed_kernel_ignore {A} (m : prog K Error A) : framed (kernel_ignore m).
Proof. by intros [s k]. Qed.
Lemma framed_or_cleanup {A} (m : EProg A) cleanup :
  framed m → framed cleanup → framed (or_cleanup m cleanup).
Proof.
  intros Hm Hc. apply framed_catch; [done|]. intros [a|e]; [apply framed_pure|].
  apply framed_bind; [done|]. intros _. apply framed_pure.
Qed.
Lemma framed_deadline context : framed (validate_deadline context).
Proof.
  unfold validate_deadline. destruct (oc_deadline_unix_ms context); [|apply framed_pure].
  apply framed_bind; [apply framed_kernel|]. intros now. apply framed_pure.
Qed.
Lemma framed_locked_container key : framed (locked_container key).
Proof. by intros [s k]. Qed.

Lemma target_pure {A} (r : Result A) : keeps_target (lift r).
Proof. done. Qed.
Lemma target_bind {A B} (m : CProg A) (k : A → CProg B) :
  keeps_target m → (∀ a, keeps_target (k a)) → keeps_target (bind m k).
Proof.
  intros Hm Hk st. specialize (Hm st). unfold bind.
  destruct (m st) as [[a|e] st']; [|done]. simpl in *. by rewrite (Hk a st').
Qed.
Lemma target_catch {A B} (m : CProg A) (k : Result A → CProg B) :
  keeps_target m → (∀ r, keeps_target (k r)) → keeps_target (catch m k).
Proof.
  intros Hm Hk st. specialize (Hm st). unfold catch. destruct (m st) as [r st']. simpl in *.
  by rewrite (Hk r st').
Qed.
Lemma target_get : keeps_target get_container.
Proof. done. Qed.
Lemma target_update f : (∀ c, gc_target (f c) = gc_target c) → keeps_target (update_container f).
Proof. intros Hf st. apply Hf. Qed.
Lemma target_on_process {A} (m : prog (PreparedProcess * K) Error A) : keeps_target (on_process m).
Proof. intros [c k]. unfold on_process. by destruct (m _) as [r [p k']]. Qed.
Lemma target_on_processes m : keeps_target (on_processes m).
Proof. intros [c k]. unfold on_processes. by destruct (each_process _ _ _) as [[r ps] k']. Qed.
Lemma target_with_process {A} id (m : prog (ExecProcess * K) Error A) : keeps_target (with_process id m).
Proof.
  intros [c k]. unfold with_process. destruct (btree_get _ _); [|done]. by destruct (m _) as [r [p k']].
Qed.

(** *** Container operations *)

Ltac target_step := first
  [ simple apply target_get | simple apply target_on_process | simple apply target_on_processes
  | simple apply target_with_process | simple apply target_pure | apply target_update; done
  | apply target_catch; [|intros ?] | apply target_bind; [|intros ?] | case_match ].
Ltac solve_target := repeat target_step; try simple apply target_pure.

Lemma target_poll_wait : keeps_target poll_wait.
Proof. unfold poll_wait. solve_target. Qed.
Lemma target_refresh : keeps_target refresh.
Proof. unfold refresh. apply target_bind; [apply target_poll_wait|]. intros ?. solve_target. Qed.
Lemma target_state : keeps_target container_state.
Proof. done. Qed.
Lemma target_set_frozen frozen : keeps_target (container_set_frozen frozen).
Proof. apply target_bind; [apply target_refresh|]. intros _. solve_target. Qed.
Lemma target_update_resources resources : keeps_target (container_update_resources resources).
Proof. apply target_bind; [apply target_refresh|]. intros _. solve_target. Qed.
Lemma target_stats : keeps_target container_stats.
Proof. apply target_bind; [apply target_refresh|]. intros _. solve_target. Qed.
Lemma target_live_processes : keeps_target live_processes.
Proof.
  apply target_bind; [apply target_refresh|]. intros _. apply target_bind; [solve_target|]. intros c.
  apply target_bind; [solve_target|]. intros init. apply target_bind; [|intros; solve_target].
  intros [c' k]. simpl. by destruct (live_execs _ _ _) as [[r ps] k'].
Qed.
Lemma target_force_stop_all : keeps_target force_stop_all.
Proof.
  intros [c k]. unfold force_stop_all.
  assert (∀ thawed c k, gc_target
    ((let '(execs, ps, k) := stop_processes (gc_processes c) k in
      let '(init, st) := on_process process_force_stop (set_processes c ps, k) in
      (first_error thawed (first_error execs init), st)).2).1 = gc_target c) as Hrest.
  { intros thawed c' k'. destruct (stop_processes _ _) as [[r ps] k''].
    pose proof (target_on_process process_force_stop (set_processes c' ps, k'')) as Ht.
    by destruct (on_process _ _) as [r' st]. }
  destruct (gc_paused c); [|apply Hrest].
  pose proof (target_on_process (on_child (λ child, k_set_frozen child false)) (c, k)) as Ht.
  destruct (on_process _ _) as [[a|e] [c' k']]; simpl in Ht;
    (etrans; [apply Hrest|exact Ht]).
Qed.
Lemma target_signal_all signal : keeps_target (container_signal_all signal).
Proof.
  intros [c k]. unfold container_signal_all. destruct (signal_processes _ _ _) as [r k'].
  by destruct (k_signal_all _ _ _).
Qed.
Lemma target_confirm n : keeps_target (confirm_kill n).
Proof.
  induction n; simpl; (apply target_bind; [apply target_refresh|]; intros _; solve_target).
  by apply IHn.
Qed.

Lemma good_with_container {A} missing key (m : CProg A) :
  keeps_target m → good (with_container_or missing key m).
Proof.
  intros Hm [s k] Hok. unfold with_container_or.
  destruct (btree_get key (es_containers s)) as [c|] eqn:Hg; [|by split].
  specialize (Hm (c, k)). destruct (m (c, k)) as [r [c' k']]. simpl in *.
  destruct Hok as [Hs Hf Ht]. apply (elem_of_btree_get _ _ _ Hs) in Hg.
  assert (∀ key' c'', (key', c'') ∈ btree_set key c' (es_containers s) →
    (key' = key ∧ c'' = c') ∨ (key', c'') ∈ es_containers s) as Hin.
  { intros key' c''. rewrite (elem_of_btree_get key' c'' _ (btree_set_increasing _ _ _ Hs)), btree_get_set.
    case_decide; [naive_solver|]. rewrite <- (elem_of_btree_get _ _ _ Hs). by right. }
  split; split; simpl.
  - by apply btree_set_increasing.
  - intros key' c'' [[-> ->]|Hk]%Hin; [by eapply Hf|by eapply Hf].
  - intros key' c'' [[-> ->]|Hk]%Hin; [rewrite Hm; by apply Ht|by apply Ht].
  - intros id g Hgen. by exists g.
  - intros key'. rewrite elem_of_btree_set_keys. intros [->|Hk]; [left|by left].
    by apply (list_elem_of_fmap_2 fst _ (key, c)).
Qed.

(** *** Executor operations *)

Ltac framed_step := first
  [ simple apply framed_pure | simple apply framed_kernel | simple apply framed_kernel_ignore
  | simple apply framed_deadline | simple apply framed_locked_container
  | apply framed_or_cleanup | apply framed_catch; [|intros ?] | apply framed_bind; [|intros ?] | case_match ].
Ltac solve_framed := repeat framed_step; try simple apply framed_pure.

Lemma framed_abandon p directory : framed (abandon_init p directory).
Proof.
  intros [s k]. unfold abandon_init. destruct (process_force_stop _) as [r [p' k']].
  destruct (k_cleanup_intel_rdt _ _) as [r' k'']. by destruct (k_cleanup_device_targets _ _) as [[]].
Qed.

(** From a state with these containers and this fence. *)
Definition good_at {A} (cs : list (ContainerKey * GuestContainer)) (hg : gmap string Z) (m : EProg A)
    : Prop := ∀ st, es_containers st.1 = cs → es_highest_generations st.1 = hg → executor_ok st.1 →
  executor_ok (m st).2.1 ∧ executor_le st.1 (m st).2.1.
Lemma good_at_bind {A B} cs hg (m : EProg A) (k : A → EProg B) :
  framed m → (∀ a, good_at cs hg (k a)) → good_at cs hg (bind m k).
Proof.
  intros Hm Hk st Hcs Hhg Hok. destruct (Hm st) as [E1 E2].
  destruct (framed_ok _ _ E1 E2 Hok) as [Hok' Hle]. unfold bind.
  destruct (m st) as [[a|e] st']; [|done]. simpl in *.
  destruct (Hk a st') as [Hok'' Hle']; [congruence|congruence|done|]. split; [done|]. by etrans.
Qed.

Lemma good_insert key c hg s slot manager :
  key_from_target (gc_target c) = Ok key → hg = es_highest_generations s →
  existsb (λ e, bool_decide (key_id (fst e) = key_id key)) (es_containers s) = false →
  match hg !! key_id key with Some g => key_generation key <=? g | None => false end = false →
  executor_ok s →
  let s' := mkExecutor (btree_set key c (es_containers s))
              (<[key_id key := key_generation key]> (es_highest_generations s)) slot manager in
  executor_ok s' ∧ executor_le s s'.
Proof.
  intros Ht -> Hid Hgen [Hs Hf Htg].
  assert (∀ key' c', (key', c') ∈ es_containers s → key_id key' ≠ key_id key) as Hne.
  { intros key' c' Hin Heq. apply not_true_iff_false in Hid. apply Hid, existsb_exists.
    exists (key', c'). split; [by apply list_elem_of_In|by apply bool_decide_eq_true]. }
  assert (∀ key' c', (key', c') ∈ btree_set key c (es_containers s) →
    (key' = key ∧ c' = c) ∨ (key', c') ∈ es_containers s) as Hin.
  { intros key' c'. rewrite (elem_of_btree_get key' c' _ (btree_set_increasing _ _ _ Hs)), btree_get_set.
    case_decide; [naive_solver|]. rewrite <- (elem_of_btree_get _ _ _ Hs). by right. }
  assert (∀ g, es_highest_generations s !! key_id key = Some g → g < key_generation key) as Hlt.
  { intros g Hg. rewrite Hg in Hgen. by apply Z.leb_gt. }
  split; split; simpl.
  - by apply btree_set_increasing.
  - intros key' c' [[-> ->]|Hk]%Hin; [by rewrite lookup_insert_eq|].
    rewrite lookup_insert_ne by (intros Heq; by eapply (Hne _ _ Hk)). by eapply Hf.
  - intros key' c' [[-> ->]|Hk]%Hin; [done|by apply Htg].
  - intros id g Hg. destruct (decide (id = key_id key)) as [->|].
    + rewrite lookup_insert_eq. eexists. split; [done|]. specialize (Hlt g Hg). lia.
    + rewrite lookup_insert_ne by done. by exists g.
  - intros key'. rewrite elem_of_btree_set_keys. intros [->|Hk]; [by right|by left].
Qed.

Lemma good_create_admitted key r cs hg :
  key_from_target (acr_target r) = Ok key →
  existsb (λ e, bool_decide (key_id (fst e) = key_id key)) cs = false →
  match hg !! key_id key with Some g => key_generation key <=? g | None => false end = false →
  good_at cs hg (create_admitted key r).
Proof.
  intros Hkey Hid Hgen. unfold create_admitted.
  repeat (apply good_at_bind;
    [solve_framed; try apply framed_abandon; intros [s k]; repeat case_match; done|intros ?]).
  intros [s k] Hcs Hhg Hok. simpl in *. subst cs. eapply good_insert; done.
Qed.

Lemma good_create r : good (create_new r).
Proof.
  unfold create_new. apply good_bind; [apply framed_good, framed_deadline|]. intros _.
  destruct (key_from_target (acr_target r)) as [key|e] eqn:Hkey; [|apply good_pure].
  intros st Hok. unfold bind, lift. simpl.
  destruct (existsb _ _) eqn:Hid; [by split|]. simpl.
  destruct (match _ with Some _ => _ | None => _ end) eqn:Hgen; [by split|]. simpl.
  by eapply good_create_admitted.
Qed.

Lemma filter_increasing (P : ContainerKey * GuestContainer → Prop) `{!∀ e, Decision (P e)} m :
  map_increasing m → map_increasing (filter P m).
Proof.
  unfold map_increasing, increasing. induction m as [|e m IH]; csimpl; [done|].
  intros [Hm He]%StronglySorted_inv. rewrite filter_cons. case_decide; [|by apply IH].
  csimpl. constructor; [by apply IH|]. rewrite Forall_forall in He |- *. intros x Hx.
  apply He. apply list_elem_of_fmap in Hx as (y & -> & Hy%list_elem_of_filter).
  apply list_elem_of_fmap_2. naive_solver.
Qed.
Lemma good_remove key f : good (λ '(s, k), (Ok () : Result (),
  (set_containers s (filter (λ e, e.1 ≠ key) (es_containers s)), f k))).
Proof.
  intros [s k] [Hs Hf Ht]. simpl. split; split; simpl.
  - by apply filter_increasing.
  - intros key' c [_ Hin]%list_elem_of_filter. by eapply Hf.
  - intros key' c [_ Hin]%list_elem_of_filter. by apply Ht.
  - intros id g Hg. by exists g.
  - intros key' Hk. left. apply list_elem_of_fmap in Hk as (e & -> & [_ Hin]%list_elem_of_filter).
    by apply list_elem_of_fmap_2.
Qed.

Create HintDb guest_target.
#[local] Hint Resolve target_poll_wait target_refresh target_state target_set_frozen
  target_update_resources target_stats target_live_processes target_force_stop_all target_signal_all
  target_confirm : guest_target.
Ltac target_walk := first
  [ solve [auto with guest_target nocore] | simple apply target_get | simple apply target_on_process
  | simple apply target_on_processes | simple apply target_with_process | simple apply target_pure
  | apply target_update; done
  | apply target_catch; [|intros ?] | apply target_bind; [|intros ?] | case_match ].
Ltac good_step := first
  [ simple apply good_pure | exact (good_pure (Ok _)) | exact (good_pure (Err _)) | simple apply good_create
  | apply framed_good; first [simple apply framed_kernel | simple apply framed_deadline
      | simple apply framed_locked_container]
  | apply good_with_container; repeat target_walk; try simple apply target_pure; fail
  | apply good_bind; [|intros ?] ].

Lemma good_delete r : good (delete_new r).
Proof. unfold delete_new, with_container. repeat good_step. apply (good_remove _ (k_poststop _)). Qed.
Lemma good_start r : good (start_new r).
Proof. unfold start_new, with_container. repeat good_step. Qed.
Lemma good_state r : good (state_query r).
Proof. unfold state_query, with_container. repeat good_step. Qed.
Lemma good_freezer r frozen : good (freezer_new r frozen).
Proof. unfold freezer_new, with_container. repeat good_step. Qed.
Lemma good_processes r : good (processes_new r).
Proof. unfold processes_new, with_container. repeat good_step. Qed.
Lemma good_update r : good (update_new r).
Proof. unfold update_new, with_container. repeat good_step. Qed.
Lemma good_stats r : good (stats_new r).
Proof. unfold stats_new, with_container. repeat good_step. Qed.
Lemma good_kill polls r : good (kill_new polls r).
Proof. unfold kill_new, with_container. repeat good_step. Qed.
Lemma good_signal r : good (signal_process_new r).
Proof. unfold signal_process_new, with_container. repeat good_step. Qed.
Lemma good_exec r : good (exec_new r).
Proof.
  unfold exec_new, with_container. repeat good_step.
  all: apply framed_good; solve_framed; intros [s k]; repeat case_match; done.
Qed.
Lemma good_supervised r : good (supervised_exec_session_supervisor r).
Proof.
  unfold supervised_exec_session_supervisor. repeat good_step.
  all: apply framed_good; solve_framed; intros [s k]; repeat case_match; done.
Qed.
Lemma good_wait readings timeout abandoned turn : good turn → good (wait_loop readings timeout abandoned turn).
Proof.
  intros Hturn. induction readings as [|t readings IH]; simpl; (apply good_bind; [done|]);
    intros [status|]; try apply good_pure. case_match; [apply good_pure|done].
Qed.
Lemma good_wait_turn r : good (wait_turn r).
Proof. unfold wait_turn, with_container. repeat good_step. Qed.
Lemma good_wait_process_turn r : good (wait_process_turn r).
Proof. unfold wait_process_turn, with_container. repeat good_step. Qed.
Lemma good_io target access : good (process_io_handle target access).
Proof. unfold process_io_handle, with_container. repeat good_step. Qed.
Lemma good_in_container {A} target (helper : nat → prog K Error A) : good (in_container target helper).
Proof. unfold in_container. repeat good_step. Qed.

(** ** The service *)

Context (capabilities : AgentCapabilities) (polls : nat) (readings : list Z) (abandoned : Error).
Abbreviation service := (linux_executor capabilities polls readings abandoned).

Definition service_good {A} (m : prog LinuxExecutor Error A) : Prop := ∀ l,
  executor_ok (le_state l) → executor_ok (le_state (m l).2) ∧ executor_le (le_state l) (le_state (m l).2).

Lemma service_pure {A} (r : Result A) : service_good (lift r).
Proof. intros l Hok. by split. Qed.
Lemma service_bind {A B} (m : prog LinuxExecutor Error A) (k : A → prog LinuxExecutor Error B) :
  service_good m → (∀ a, service_good (k a)) → service_good (bind m k).
Proof.
  intros Hm Hk l Hok. destruct (Hm l Hok) as [Hok' Hle]. unfold bind.
  destruct (m l) as [[a|e] l']; [|done]. simpl in *.
  destruct (Hk a l' Hok') as [Hok'' Hle']. split; [done|]. by etrans.
Qed.
Lemma service_locked {A} (m : EProg A) : good m → service_good (locked m).
Proof.
  intros Hm l Hok. unfold locked. specialize (Hm (le_state l, le_kernel l) Hok).
  by destruct (m _) as [r [s k]].
Qed.
Lemma service_recorded {T} `{!OutcomeKind T, !OutcomeKindLaws T} id operation (effect : EProg T) :
  good effect → service_good (recorded abandoned id operation effect).
Proof.
  intros Hm l Hok. destruct (recorded_cases abandoned id operation effect l)
    as [->|(op & j & _ & _ & _ & ->)]; [by split|]. apply (Hm (le_state l, le_kernel l) Hok).
Qed.
Lemma service_recorded_locked {T} `{!OutcomeKind T, !OutcomeKindLaws T} id operation (effect : EProg T) :
  good effect → service_good (recorded_locked id operation effect).
Proof.
  intros Hm l Hok. destruct (recorded_locked_cases id operation effect l)
    as [->|(op & j & _ & _ & _ & ->)]; [by split|]. apply (Hm (le_state l, le_kernel l) Hok).
Qed.

Create HintDb guest_good.
#[local] Hint Resolve good_delete good_start good_state good_freezer good_processes good_update good_stats
  good_kill good_signal good_exec good_supervised good_wait_turn good_wait_process_turn good_io
  good_create good_wait good_in_container : guest_good.
Ltac good_walk := repeat first [ solve [auto with guest_good nocore] | good_step ].
Ltac service_step := first
  [ simple apply service_pure | exact (service_pure (Ok _)) | exact (service_pure (Err _))
  | apply service_locked; good_walk; fail
  | apply service_recorded; good_walk; fail | apply service_recorded_locked; good_walk; fail
  | apply service_bind; [|intros ?] | case_match ].

Lemma dispatch_good request : service_good (dispatch (GuestAgentService0 := service) request).
Proof.
  assert (∀ ids, service_good (svc_acknowledge_operations (GuestAgentService := service) ids)) as Hack.
  { intros ids l Hok. simpl. by destruct (acknowledge_operations ids (le_journal l)). }
  destruct request; simpl; unfold prog_map, create_with_inherited_descriptors, exec_recorded,
    signal_process_recorded, write_stdin_recorded, close_stdin_recorded, resize_recorded, file_recorded,
    filesystem_recorded, read_output_new, write_stdin_new, close_stdin_new, resize_new,
    file_mutation_new, filesystem_mutation_new;
    repeat service_step.
  apply Hack.
Qed.

Lemma serve_good requests l :
  executor_ok (le_state l) →
  let l' := serve_requests capabilities polls readings abandoned requests l in
  executor_ok (le_state l') ∧ executor_le (le_state l) (le_state l').
Proof.
  revert l. induction requests as [|q requests IH]; intros l Hok; [by split|]. simpl.
  destruct (dispatch_good q l Hok) as [Hok' Hle]. destruct (IH _ Hok') as [Hok'' Hle'].
  split; [done|]. by etrans.
Qed.
Lemma open_ok k : executor_ok (le_state (executor_open k)).
Proof.
  split; simpl; [constructor|..]; intros key c Hin; by apply elem_of_nil in Hin.
Qed.

Definition generations (l : LinuxExecutor) : list ContainerKey := (es_containers (le_state l)).*1.

(** C20: Container generations are fenced in the guest.  After any sequence of
    requests the executor holds at most one generation of a container ID, the
    highest it has ever held; and a generation that is no longer there, after
    a delete, is not there after any further requests, creates included. *)
Theorem guest_generation_never_returns k before between after key :
  let l1 := serve_requests capabilities polls readings abandoned before (executor_open k) in
  let l2 := serve_requests capabilities polls readings abandoned between l1 in
  let l3 := serve_requests capabilities polls readings abandoned after l2 in
  (∀ key', key ∈ generations l1 → key' ∈ generations l1 → key_id key = key_id key' → key = key') ∧
  (∀ key', key ∈ generations l1 → key' ∈ generations l2 → key_id key = key_id key' →
     key_generation key ≤ key_generation key') ∧
  (key ∈ generations l1 → key ∉ generations l2 → key ∉ generations l3).
Proof.
  intros l1 l2 l3.
  destruct (serve_good before _ (open_ok k)) as [Ok1 _]. fold l1 in Ok1.
  destruct (serve_good between l1 Ok1) as [Ok2 Le2]. fold l2 in Ok2, Le2.
  destruct (serve_good after l2 Ok2) as [Ok3 Le3]. fold l3 in Ok3, Le3.
  assert (∀ l key, executor_ok (le_state l) → key ∈ generations l →
    es_highest_generations (le_state l) !! key_id key = Some (key_generation key)) as Hfence.
  { intros l key' Hok Hk. apply list_elem_of_fmap in Hk as ([? c] & -> & Hin). by eapply eo_fence. }
  assert (∀ key', key ∈ generations l1 → key' ∈ generations l2 → key_id key = key_id key' →
     key_generation key ≤ key_generation key') as Hmono.
  { intros key' Hk Hk' Hid. pose proof (Hfence _ _ Ok2 Hk') as Hf'. rewrite <- Hid in Hf'.
    destruct (el_fence _ _ Le2 _ _ (Hfence _ _ Ok1 Hk)) as (g & Hg & ?). simplify_eq. done. }
  split_and!; [|done|].
  - intros key' Hk Hk' Hid. pose proof (Hfence _ _ Ok1 Hk) as Hf. pose proof (Hfence _ _ Ok1 Hk') as Hf'.
    rewrite Hid in Hf. destruct key, key'; simplify_eq/=. congruence.
  - intros Hk Hn Hk3. destruct (el_new _ _ Le3 key Hk3) as [?|Hnew]; [done|].
    destruct (el_fence _ _ Le2 _ _ (Hfence _ _ Ok1 Hk)) as (g & Hg & ?). specialize (Hnew g Hg). lia.
Qed.
End generations.
