(* ===== verification/GuestAnswers.v ===== *)
(** * The guest's answers are the ones its client accepts

    A request that succeeds in the executor is answered with a response that
    passes the client's check of the response against the request. *)

From stdpp Require Import base gmap list strings.
From S2P Require Import Prelude Collections Sdk OutputBuffer Wire AgentModel AgentRecovery.
From S2P Require Import AgentSession GuestJournal GuestExecutor GuestService GuestServiceProps.
From Stdlib Require Import ZArith Lia.

Local Open Scope string_scope.
Local Open Scope list_scope.
Local Open Scope Z_scope.

Section answers.
Context `{!GuestKernel, !AgentEnv}.
Abbreviation EProg := (prog (ExecutorState * K) Error).
Abbreviation CProg := (prog (GuestContainer * K) Error).

(** The lifecycle requests and the executor operations that run them. *)
Definition executor_answer (polls : nat) (request : AgentRequest) : option (EProg AgentResponse) :=
  match request with
  | ReqCreate r => Some (prog_map RespState (create_new r))
  | ReqState r => Some (prog_map RespState (state_query r))
  | ReqStart r => Some (prog_map RespState (start_new r))
  | ReqKill r => Some (prog_map RespState (kill_new polls r))
  | ReqDelete r => Some (do! delete_new r; ret RespDeleted)
  | ReqExec r => Some (prog_map RespProcess (exec_new r))
  | ReqPause r => Some (prog_map RespState (freezer_new r true))
  | ReqResume r => Some (prog_map RespState (freezer_new r false))
  | ReqProcesses r => Some (prog_map RespProcesses (processes_new r))
  | ReqUpdate r => Some (prog_map RespState (update_new r))
  | _ => None
  end.

(** The result of [m] satisfies [P] when it succeeds on a container of [t]. *)
Definition yields {A} (t : ContainerTarget) (P : A → Prop) (m : CProg A) : Prop := ∀ st,
  gc_target st.1 = t → match (m st).1 with Ok a => P a | Err _ => True end.
Definition gives {A} (P : A → Prop) (m : EProg A) : Prop := ∀ st,
  executor_ok st.1 → match (m st).1 with Ok a => P a | Err _ => True end.

Lemma yields_bind {A B} t (P : B → Prop) (m : CProg A) (k : A → CProg B) :
  keeps_target m → (∀ a, yields t P (k a)) → yields t P (bind m k).
Proof.
  intros Hm Hk st Ht. specialize (Hm st). unfold bind. destruct (m st) as [[a|e] st']; [|done].
  apply Hk. simpl in Hm. congruence.
Qed.
Lemma yields_err {A} t (P : A → Prop) e : yields t P (lift (Err e)).
Proof. done. Qed.
Lemma gives_bind {A B} (P : B → Prop) (m : EProg A) (k : A → EProg B) :
  good m → (∀ a, gives P (k a)) → gives P (bind m k).
Proof.
  intros Hm Hk st Hok. destruct (Hm st Hok) as [Hok' _]. unfold bind.
  destruct (m st) as [[a|e] st']; [|done]. by apply Hk.
Qed.
Lemma gives_key {B} (P : B → Prop) t (k : ContainerKey → EProg B) :
  (∀ key, key_from_target t = Ok key → gives P (k key)) → gives P (bind (lift (key_from_target t)) k).
Proof. intros Hk st Hok. unfold bind, lift. destruct (key_from_target t) as [key|e]; [by apply Hk|done]. Qed.

Lemma key_from_target_inj t t' key :
  key_from_target t = Ok key → key_from_target t' = Ok key → t = t'.
Proof.
  unfold key_from_target. destruct t as [id [g|]], t' as [id' [g'|]]; simpl; try done.
  destruct (g =? 0), (g' =? 0); simpl; naive_solver.
Qed.
Lemma gives_with_container {A} (P : A → Prop) t key (m : CProg A) :
  key_from_target t = Ok key → yields t P m → gives P (with_container key m).
Proof.
  intros Hkey Hm [s k] Hok. unfold with_container, with_container_or.
  destruct (btree_get key (es_containers s)) as [c|] eqn:Hg; [|done].
  apply (elem_of_btree_get _ _ _ (eo_sorted _ Hok)), (eo_target _ Hok) in Hg.
  specialize (Hm (c, k) (key_from_target_inj _ _ _ Hg Hkey)). by destruct (m (c, k)) as [r [c' k']].
Qed.

(** ** States *)

Lemma state_new_ok t status pid digest paused s :
  state_new t status pid digest paused = Ok s → s = mkAgentState t status pid digest paused.
Proof. unfold state_new. intros Hs. by apply rbind_ok in Hs as (u & _ & [= <-]). Qed.
Lemma yields_state t : yields t (λ s, as_target s = t) container_state.
Proof.
  intros [c k] Ht. unfold container_state. simpl in *.
  destruct (state_new _ _ _ _ _) as [s|e] eqn:Hs; [|done]. by apply state_new_ok in Hs as ->.
Qed.

(** A container operation that ends with the state. *)
Lemma yields_then_state {A} t (m : CProg A) :
  keeps_target m → yields t (λ s, as_target s = t) (do! m; container_state).
Proof. intros Hm. apply yields_bind; [done|]. intros _. apply yields_state. Qed.

Lemma state_matches t s : as_target s = t → check_state_target t s = Ok ().
Proof. intros Ht. unfold check_state_target. by rewrite bool_decide_true. Qed.

(** The result of a program, from any state. *)
Definition returns {W A} (P : A → Prop) (m : prog W Error A) : Prop := ∀ w,
  match (m w).1 with Ok a => P a | Err _ => True end.
Lemma returns_bind {W A B} (Q : A → Prop) (P : B → Prop) (m : prog W Error A) (k : A → prog W Error B) :
  returns Q m → (∀ a, Q a → returns P (k a)) → returns P (bind m k).
Proof.
  intros Hm Hk w. specialize (Hm w). unfold bind. destruct (m w) as [[a|e] w']; [|done]. by apply Hk.
Qed.
Lemma returns_any {W A} (m : prog W Error A) : returns (λ _, True) m.
Proof. intros w. by destruct (m w).1. Qed.
Lemma returns_or_cleanup {A} (P : A → Prop) (m : EProg A) cleanup :
  returns P m → returns P (or_cleanup m cleanup).
Proof.
  intros Hm w. specialize (Hm w). unfold or_cleanup, catch. destruct (m w) as [[a|e] w']; [done|].
  unfold bind. by destruct (cleanup w') as [[]].
Qed.
Lemma returns_lift {W A} (P : A → Prop) (r : Result A) :
  (∀ a, r = Ok a → P a) → returns (W := W) P (lift r).
Proof. intros Hr w. simpl. destruct r; [by apply Hr|done]. Qed.
(** Skip a step whose result does not matter. *)
Ltac skip := apply (returns_bind (λ _, True)); [apply returns_any|intros ? _].

Lemma create_answers r :
  returns (λ s, validate_response_for_request (ReqCreate r) (RespState s) = Ok ()) (create_new r).
Proof.
  unfold create_new. do 4 skip. unfold create_admitted. do 10 skip.
  eapply returns_bind; [apply returns_or_cleanup, returns_lift; intros s Hs; exact (state_new_ok _ _ _ _ _ _ Hs)|].
  intros s -> [s' k]. simpl. unfold check_state_target. simpl. by rewrite !bool_decide_true.
Qed.
Lemma exec_answers r :
  returns (λ p, validate_response_for_request (ReqExec r) (RespProcess p) = Ok ()) (exec_new r).
Proof.
  unfold exec_new. do 12 skip.
  eapply (returns_bind (λ p, p = mkAgentProcess _ _ _)); [apply returns_or_cleanup, returns_lift|].
  { intros p Hp. unfold process_new in Hp. apply rbind_ok in Hp as (u & _ & [= <-]). reflexivity. }
  intros p ->. do 4 skip. apply (returns_lift _ (Ok _)). intros p [= <-]. simpl.
  unfold check_process_target. simpl. by rewrite !bool_decide_true.
Qed.

(** ** Requests about an existing container *)

Ltac at_container t :=
  try (apply gives_bind; [apply framed_good, framed_deadline|intros _]);
  apply (gives_key _ t); intros key Hkey; apply (gives_with_container _ t); [done|].

Lemma state_answers r :
  gives (λ s, validate_response_for_request (ReqState r) (RespState s) = Ok ()) (state_query r).
Proof.
  at_container (asr_target r). intros st Ht.
  pose proof (yields_then_state (asr_target r) refresh target_refresh st Ht) as Hy.
  destruct ((do! refresh; container_state) st).1; [by apply state_matches|done].
Qed.
Lemma update_answers r :
  gives (λ s, validate_response_for_request (ReqUpdate r) (RespState s) = Ok ()) (update_new r).
Proof.
  at_container (aur_target r). intros st Ht.
  pose proof (yields_then_state (aur_target r) _ (target_update_resources (aur_resources r)) st Ht) as Hy.
  destruct (bind _ _ st).1; [by apply state_matches|done].
Qed.

Lemma kill_answers polls r :
  gives (λ s, validate_response_for_request (ReqKill r) (RespState s) = Ok ()) (kill_new polls r).
Proof.
  at_container (akr_target r). apply yields_bind; [apply target_refresh|]. intros _.
  apply yields_bind; [apply target_get|]. intros c. apply yields_bind; [apply target_pure|]. intros _.
  apply yields_bind; [destruct (akr_all r); [apply target_signal_all|apply target_on_process]|].
  intros outcome st Ht.
  match goal with |- context [bind ?m _ st] => pose proof (yields_then_state (akr_target r) m) as Hy end.
  specialize (Hy ltac:(destruct outcome; [case_match; [apply target_confirm|apply target_refresh]|];
                       by apply target_update) st Ht).
  destruct (bind _ _ st).1; [by apply state_matches|done].
Qed.

(** A freezer change that succeeds leaves the flag as asked. *)
Lemma set_frozen_paused frozen st u :
  (container_set_frozen frozen st).1 = Ok u → gc_paused (container_set_frozen frozen st).2.1 = frozen.
Proof.
  unfold container_set_frozen, bind, get_container. destruct (refresh st) as [[?|?] st1]; [|done]. simpl.
  destruct (negb _); [done|]. case_bool_decide as Hp; [by destruct st1|].
  destruct (on_process _ st1) as [[?|?] st2]; done.
Qed.
Lemma freezer_answers r frozen :
  gives (λ s, as_target s = aco_target r ∧ as_paused s = frozen) (freezer_new r frozen).
Proof.
  at_container (aco_target r). intros st Ht.
  pose proof (target_set_frozen frozen st) as Hk. pose proof (set_frozen_paused frozen st) as Hp.
  unfold bind. destruct (container_set_frozen frozen st) as [[u|e] [c k]]; [|done]. simpl in *.
  destruct (state_new _ _ _ _ _) as [s|e] eqn:Hs; [|done]. apply state_new_ok in Hs as ->. simpl.
  split; [congruence|by eapply Hp].
Qed.

Lemma start_answers r :
  gives (λ s, validate_response_for_request (ReqStart r) (RespState s) = Ok ()) (start_new r).
Proof.
  at_container (ass_target r). apply yields_bind; [apply target_refresh|]. intros _ [c k] Ht. simpl in Ht.
  unfold bind, get_container, lift. simpl. case_bool_decide as Hd; [|done]. simpl.
  case_bool_decide as Hc; [|done]. simpl. unfold catch, on_process.
  destruct (process_release _) as [[u|e] [p k']]; [|done]. simpl.
  destruct (state_new _ _ _ _ _) as [s|e] eqn:Hs; [|done]. apply state_new_ok in Hs as ->.
  unfold check_state_target. simpl. by rewrite !bool_decide_true.
Qed.

Lemma live_record_target t id pid terminal p : live_record t id pid terminal = Ok p → pt_container (pr_target p) = t.
Proof.
  unfold live_record. intros Hp. apply rbind_ok in Hp as (? & _ & Hp).
  by apply rbind_ok in Hp as (? & _ & [= <-]).
Qed.
Lemma live_execs_targets t ps k rs ps' k' :
  live_execs t ps k = (Ok rs, ps', k') → Forall (λ p, pt_container (pr_target p) = t) rs.
Proof.
  revert k rs ps' k'. induction ps as [|[id p] ps IH]; intros k rs ps' k'; cbn [live_execs]; [intros; simplify_eq; constructor|].
  destruct (exec_try_wait (p, k)) as [[status|e] [p' k1]]; [|done].
  destruct (live_execs t ps k1) as [[[more|e] ps1] k2] eqn:E; simpl.
  2:{ destruct status; simpl; [done|]. destruct (live_record _ _ _ _); simpl; done. }
  apply IH in E. destruct status; simpl; [intros; by simplify_eq|].
  destruct (live_record _ _ _ _) as [rec|e] eqn:Hr; [|done]. intros; simplify_eq/=.
  constructor; [by eapply live_record_target|done].
Qed.
Lemma processes_answers r :
  gives (λ ps, validate_response_for_request (ReqProcesses r) (RespProcesses ps) = Ok ()) (processes_new r).
Proof.
  at_container (apr_target r). apply yields_bind; [apply target_refresh|]. intros _ [c k] Ht. simpl in Ht.
  unfold bind, get_container, lift, ret. cbn [fst snd].
  destruct (if bool_decide (gc_status c = Stopped) then _ else _) as [init|e] eqn:Hi; [|done].
  cbn [fst snd]. destruct (live_execs _ _ _) as [[[rs|e] ps] k'] eqn:E; [|done]. apply live_execs_targets in E.
  cbn [fst]. apply reject_if_ok, not_true_iff_false. rewrite existsb_exists. intros (p & Hp & Hne).
  apply list_elem_of_In, elem_of_app in Hp. apply negb_true_iff, bool_decide_eq_false in Hne. apply Hne.
  destruct Hp as [Hp|Hp].
  - destruct (bool_decide _); [simplify_eq; set_solver|].
    apply rbind_ok in Hi as (p' & Hp' & [= <-]). apply list_elem_of_singleton in Hp as ->.
    apply live_record_target in Hp'. congruence.
  - rewrite Forall_forall in E. rewrite (E p Hp). done.
Qed.

(** The guest and the client agree on what answers a request.  Whatever the
    kernel does, when a lifecycle request succeeds in an executor that keeps its
    invariant, the response passes every check the client makes of it against
    the request: it is about the requested container or process, with its
    digest, in a state the operation allows, frozen exactly when asked. *)
Theorem guest_answers_match_requests polls request m st response :
  executor_ok st.1 → executor_answer polls request = Some m → (m st).1 = Ok response →
  validate_response_for_request request response = Ok ().
Proof.
  intros Hok Hm Hr.
  assert (∀ A (n : EProg A) (f : A → AgentResponse),
    gives (λ a, validate_response_for_request request (f a) = Ok ()) n →
    m = prog_map f n → validate_response_for_request request response = Ok ()) as Hmap.
  { intros A n f Hn ->. specialize (Hn st Hok). unfold prog_map, bind in Hr.
    destruct (n st) as [[a|e] st']; [|done]. injection Hr as <-. exact Hn. }
  destruct request as [r|r|r|r|r| |r| | |r|r|r|r| | | | | | | |]; try discriminate Hm; injection Hm as <-;
    (eapply Hmap; [clear Hmap Hr|reflexivity]);
    [intros ? _; apply create_answers|apply state_answers|apply start_answers|apply kill_answers
    |intros st' _; by destruct (delete_new r st').1
    |intros ? _; apply exec_answers| | |apply processes_answers|apply update_answers].
  - intros st' Hok'. pose proof (freezer_answers r true st' Hok') as Hf.
    destruct (freezer_new r true st').1 as [s|]; [|done]. destruct Hf as [Ht Hp]. simpl.
    by rewrite state_matches, Hp.
  - intros st' Hok'. pose proof (freezer_answers r false st' Hok') as Hf.
    destruct (freezer_new r false st').1 as [s|]; [|done]. destruct Hf as [Ht Hp]. simpl.
    by rewrite state_matches, Hp.
Qed.
End answers.

(** * Shutdown evidence

    What the executor reports when it shuts down is a recovery report that the
    host can accept. *)

Section shutdown.
Context `{!GuestKernel, !Sha256, !GuestCanonical, !AgentEnv}.

Definition evidence_for (e : ContainerKey * GuestContainer) (r : AgentRecoveryRecord) : Prop :=
  rr_target r = gc_target e.2 ∧ recovery_record_validate r = Ok ().

Lemma recovery_record_spec c k r st :
  recovery_record (c, k) = (Ok r, st) → rr_target r = gc_target c ∧ recovery_record_validate r = Ok ().
Proof.
  unfold recovery_record. intros Hr. pose proof (target_poll_wait (c, k)) as Ht.
  unfold bind at 1 in Hr. destruct (poll_wait (c, k)) as [[status|e] [c' k']]; [|done]. simpl in Ht.
  unfold bind, lift, get_container in Hr. destruct status as [status|]; [|done]. simpl in Hr.
  injection Hr as Hr _. unfold recovery_record_new in Hr. apply rbind_ok in Hr as ([] & Hv & [= <-]).
  by rewrite <- Ht.
Qed.

Lemma first_error_ok a b : first_error a b = Ok () ↔ a = Ok () ∧ b = Ok ().
Proof. destruct a as [[]|]; simpl; naive_solver. Qed.

Lemma stop_containers_evidence cs k recs k' :
  stop_containers cs k = (Ok (), recs, k') → Forall2 evidence_for cs recs.
Proof.
  revert k recs k'. induction cs as [|[key c] cs IH]; intros k recs k'; cbn [stop_containers].
  { intros. simplify_eq. constructor. }
  pose proof (target_force_stop_all (c, k)) as Ht.
  destruct (force_stop_all (c, k)) as [[[]|e] [c1 k1]]; cbn [fst snd] in Ht.
  2:{ destruct (stop_containers cs k1) as [[[]]]; cbn; intros; simplify_eq. }
  pose proof (target_on_process (on_child k_cleanup_intel_rdt) (c1, k1)) as Ht1.
  destruct (on_process _ (c1, k1)) as [rdt [c2 k2]]. cbn [fst snd] in Ht1.
  destruct (recovery_record (c2, k2)) as [[rec|e] [c3 k3]] eqn:Hr.
  - destruct (stop_containers cs k3) as [[r' recs'] k4] eqn:Hs. intros [= He <- <-].
    apply first_error_ok in He as [-> ->]. apply recovery_record_spec in Hr as [Hrt Hv].
    constructor; [|by eapply IH]. split; simpl; [congruence|done].
  - destruct (stop_containers cs k3) as [[r' recs'] k4]. intros [= He <- <-].
    apply first_error_ok in He as [He _]. by apply first_error_ok in He as [_ ?].
Qed.

Lemma evidence_keys cs recs :
  Forall2 evidence_for cs recs → (∀ key c, (key, c) ∈ cs → key_from_target (gc_target c) = Ok key) →
  recovery_key <$> recs = (λ key, (key_id key, key_generation key)) <$> cs.*1.
Proof.
  induction 1 as [|[key c] r cs recs [Ht _] _ IH]; intros Hk; [done|]. csimpl. f_equal.
  - specialize (Hk key c ltac:(left)). simpl in Ht. unfold recovery_key. rewrite Ht.
    unfold key_from_target in Hk. destruct (gc_target c) as [id [g|]]; [|done]. simpl in *.
    destruct (g =? 0); simplify_eq/=. done.
  - apply IH. intros key' c' Hin. apply Hk. by right.
Qed.

(** A shutdown of the guest that succeeds leaves no container and gives one
    recovery record for each container it held, about its exact generation;
    and these records are always accepted as a recovery report, however many
    requests came before, up to the 1024 records a report may have. *)
Theorem shutdown_evidence_reportable capabilities polls readings abandoned k requests delegated separate
    recovery s' k' :
  let l := serve_requests capabilities polls readings abandoned requests (executor_open k) in
  shutdown_executor delegated separate (le_state l, le_kernel l) = (Ok recovery, (s', k')) →
  es_containers s' = [] ∧
  recovery_key <$> recovery = (λ key, (key_id key, key_generation key)) <$> generations l ∧
  (Z.of_nat (length recovery) ≤ AGENT_RECOVERY_REPORT_MAX_RECORDS →
     ∃ report, report_new recovery = Ok report ∧ rp_records report ≡ₚ recovery).
Proof.
  intros l. destruct (serve_good capabilities polls readings abandoned requests _ (open_ok k)) as [Hok _].
  fold l in Hok. destruct (le_state l) as [cs hg slot manager] eqn:Hl. unfold shutdown_executor.
  cbn [es_containers es_highest_generations es_next_slot es_cgroup_manager].
  destruct (stop_containers cs (le_kernel l)) as [[stopped recs] k1] eqn:Hs.
  destruct (cleanup_shutdown_device_targets _ k1) as [devices k2].
  destruct (optional_step delegated _ k2) as [authority k3].
  destruct (optional_step manager _ k3) as [mgr k4]. destruct (optional_step (is_ok devices) _ k4) as [root k5].
  destruct (optional_step separate _ k5) as [droot k6]. cbn [foldr].
  destruct (first_error stopped _) as [[]|e] eqn:He; [|done]. intros Hr.
  injection Hr as Hrec Hs' _. apply first_error_ok in He as [-> _]. subst recs s'.
  pose proof (stop_containers_evidence _ _ _ _ Hs) as Hev. destruct Hok as [Hsort Hf Ht]. simpl in *.
  pose proof (evidence_keys _ _ Hev Ht) as Hkeys. unfold generations. rewrite Hl. simpl.
  split_and!; [done|done|]. intros Hlen. eexists. split; [apply report_new_total|apply sort_by_perm].
  - done.
  - clear -Hev. induction Hev as [|e r cs recs [_ Hv] _ IH]; by constructor.
  - rewrite Hkeys. apply NoDup_fmap_2; [|by apply increasing_NoDup].
    intros [i g] [i' g'] [= -> ->]. done.
Qed.
End shutdown.
