(* ===== verification/GuestExample.v ===== *)
(** * A concrete guest

    A kernel with one child, in one of three phases: running, exited but not
    yet reaped, reaped.  The theorems on the guest are applied to it, and two
    behaviours of the executor that its callers would not expect are shown. *)

From stdpp Require Import base gmap list relations strings.
From S2P Require Import Prelude Collections Sdk OutputBuffer Wire AgentModel AgentRecovery.
From S2P Require Import AgentSession GuestJournal GuestExecutor GuestService GuestServiceProps.
From S2P Require Import GuestAnswers.
From Stdlib Require Import ZArith Lia.
Local Open Scope string_scope.
Local Open Scope list_scope.
Local Open Scope Z_scope.

Module GuestExample.

#[local] Instance env : AgentEnv := {|
  bundle_from_json _ _ := Err (protocol_error Unsupported "example");
  attachments_from_bundle _ _ := Err (protocol_error Unsupported "example");
  create_request_validate _ := Ok ();
  validate_process _ := Ok ();
  validate_linux_resources _ := Ok ();
  base64_decoded_len _ := None;
  has_control _ := false;
  has_control_or_space _ := false
|}.

Inductive Phase : Type := Alive | Gone | Reaped.
Definition works {A} (a : A) : prog Phase Error A := ret a.
Definition outcome (k : Phase) : SignalOutcome := match k with Alive => Delivered | _ => Exited end.
Definition raw_zero : ProcessExitStatus := mkRawStatus (Some 0) None.

#[local] Instance one_child : GuestKernel := {|
  K := Phase;
  k_unix_ms := works 1000;
  k_child_try_wait _ k := (Ok (match k with Reaped => Some raw_zero | _ => None end), k);
  k_child_wait _ _ := (Waited raw_zero, Reaped);
  k_child_terminate _ _ := Reaped;
  k_signal _ signal k := (Ok (outcome k), k);
  k_signal_all _ signal k := (Ok (outcome k), k);
  k_write_start _ k := (Ok (), k);
  k_read_start _ := works ();
  k_encode_hook_state _ := works ();
  k_poststart _ := works ();
  k_poststop _ k := k;
  k_set_frozen _ _ := works ();
  k_update_resources _ _ := works ();
  k_stats _ _ := fail (executor_error Unsupported "example");
  k_cleanup_intel_rdt _ := works ();
  k_rollback_network _ k := k;
  k_commit_network _ k := k;
  k_cleanup_device_targets _ := works ();
  k_remove_container_directory _ := works ();
  k_plan_create _ := works (mkCreatePlan false false false false true);
  k_create_cgroup_manager := works ();
  k_create_directory _ := works ();
  k_write_snapshot _ := works ();
  k_prepare_device_mounts := works ();
  k_create_device_directory _ := works ();
  k_remove_device_directory _ := works ();
  k_spawn_init _ _ := (Ok (100, 0%nat), Alive);
  k_supervisor_identity := works ();
  k_write_recovery_record _ := works ();
  k_plan_exec _ _ := works ();
  k_encode_plan _ := works ();
  k_spawn_exec _ _ := works (101, 1%nat);
  k_has_session_supervisor _ := works false;
  k_session_supervisor := works ();
  k_record_exec_identity _ _ := works ();
  k_remove_process_directory _ _ := works ();
  k_shutdown_device_authority := works ();
  k_remove_cgroup_manager := works ();
  k_remove_runtime_root := works ();
  k_remove_device_root := works ();
  k_validate_create _ := Ok ();
  k_create_context := works ();
  k_duplicate_executable := works ();
  k_read_output _ _ := works [];
  k_write_stdin _ _ := works ();
  k_close_stdin _ := works ();
  k_resize _ _ := works ();
  k_file _ _ := fail (executor_error Unsupported "example");
  k_filesystem _ _ := fail (executor_error Unsupported "example");
  k_runtime_directory _ := "c";
  k_process_directory d _ := d
|}.

#[local] Instance identity_digest : Sha256 := {| sha256 b := b |}.
#[local] Instance canonical : GuestCanonical := {|
  can_create := {| canonical_json r := Some [default 0 (ct_generation (acr_target (cf_request r)))] |};
  can_start := {| canonical_json _ := Some [1] |};
  can_kill := {| canonical_json r := Some [akr_signal r] |};
  can_delete := {| canonical_json r := Some [default 0 (ct_generation (adr_target r))] |};
  can_exec := {| canonical_json _ := Some [1] |};
  can_signal := {| canonical_json r := Some [asp_signal r] |};
  can_freezer := {| canonical_json _ := Some [1] |};
  can_update := {| canonical_json _ := Some [1] |};
  can_write := {| canonical_json r := Some (aws_data r) |};
  can_close := {| canonical_json _ := Some [1] |};
  can_resize := {| canonical_json _ := Some [1] |};
  can_file := {| canonical_json _ := Some [1] |};
  can_filesystem := {| canonical_json _ := Some [1] |}
|}.

(** ** Requests *)

Definition digest : string :=
  "sha256:bbbbbbbbbbbbbbbbbbbbbbbbbbbbbbbbbbbbbbbbbbbbbbbbbbbbbbbbbbbbbbbb".
Definition context (id : string) : OperationContext := mkOperationContext id None.
Definition box (generation : Z) : ContainerTarget := target_exact "box" generation.
Definition null_io : ProcessIo := mkProcessIo IoNull IoNull IoNull None.
Definition create (id : string) (g : Z) : AgentCreateRequest :=
  mkAgentCreate (context id) (box g) (mkAgentBundle (mkGuestPath "/b") digest "{}") null_io.
Definition start (id : string) : AgentRequest := ReqStart (mkAgentStart (context id) (box 1) digest).
Definition pause (id : string) : AgentContainerOperationRequest := mkAgentContainerOp (context id) (box 1).
Definition kill (id : string) : AgentKillRequest := mkAgentKill (context id) (box 1) 9 false.
Definition remove (id : string) : AgentRequest := ReqDelete (mkAgentDelete (context id) (box 1) Force).
Definition run_shell : AgentExecRequest :=
  mkAgentExec (context "exec") (mkProcessTarget (box 1) "shell") (mkOciProcess None None "") null_io.

Definition capabilities : AgentCapabilities := mkCapabilities "1.0.0" "x86_64" [] 1024.
Definition lost : Error := executor_error Unavailable "the caller went away".
Abbreviation serve := (serve_requests capabilities 0 [] lost).
Abbreviation service := (linux_executor capabilities 0 [] lost).
Definition opened : LinuxExecutor := executor_open Alive.
Definition started : LinuxExecutor := serve [ReqCreate (create "create" 1); start "start"] opened.

Example started_running : (dispatch (GuestAgentService0 := service) (ReqState (mkAgentStateReq (box 1))) started).1 =
  Ok (RespState (mkAgentState (box 1) Running (Some 100) digest false)).
Proof. vm_compute. reflexivity. Qed.

(** Generation 1 is deleted and generation 2 created. *)
Example generations_example :
  generations started = [mkKey "box" 1] ∧
  generations (serve [remove "delete"; ReqCreate (create "again" 1)] started) = [] ∧
  generations (serve [remove "delete"; ReqCreate (create "next" 2)] started) = [mkKey "box" 2].
Proof. vm_compute. done. Qed.

(** ** The theorems at work *)


(** A pause, answered as the client expects. *)
Lemma guest_answers_match_requests_witness :
  ∃ response, ((prog_map RespState (freezer_new (pause "pause") true)) (le_state started, le_kernel started)).1 = Ok response ∧
    validate_response_for_request (ReqPause (pause "pause")) response = Ok ().
Proof.
  eexists. split; [vm_compute; reflexivity|].
  eapply (guest_answers_match_requests 0 (ReqPause (pause "pause")) _ (le_state started, le_kernel started));
    [|reflexivity|vm_compute; reflexivity].
  apply (serve_good capabilities 0 [] lost [ReqCreate (create "create" 1); start "start"] opened).
  apply open_ok.
Defined.

(** The journal: a delete, a retry while it runs, its end, the retry's answer. *)
Definition first_delete : RecordedRequest := mkRecorded MutDelete [1].
Definition two_callers : JournalSystem :=
  submit (T := ()) "delete" first_delete (submit (T := ()) "delete" first_delete journal_system_start).
Lemma two_callers_reachable : journal_reachable two_callers.
Proof.
  eapply rtc_l; [apply (journal_submit (T := ()) "delete" first_delete)|].
  eapply rtc_l; [apply (journal_submit (T := ()) "delete" first_delete)|]. apply rtc_refl.
Qed.
Lemma guest_operation_at_most_once_witness :
  count (begins "delete") (js_log two_callers) = 1%nat ∧ length (js_waiters two_callers) = 2%nat ∧
  (count (begins "delete") (js_log two_callers) ≤ 1 + count (releases "delete") (js_log two_callers))%nat.
Proof.
  split; [vm_compute; reflexivity|]. split; [vm_compute; reflexivity|].
  apply (guest_operation_at_most_once two_callers two_callers_reachable).
Defined.
Lemma guest_waiter_answered_witness : ∃ waiter,
  waiter ∈ js_waiters two_callers ∧
  ((∃ result : Result (), wait_for_operation (wt_cell waiter) (js_journal two_callers) = Some result ∧
     Finished (wt_id waiter) (wt_request waiter) (inject result) ∈ js_log two_callers) ∨
   mkOwner (wt_id waiter) (wt_request waiter) (wt_kind waiter) ∈ js_owners two_callers ∧
   ∀ result : Result (),
     let '(completed, j') := complete_operation (wt_id waiter) (wt_request waiter) result (js_journal two_callers) in
     completed = Ok () ∧ wait_for_operation (wt_cell waiter) j' = Some result).
Proof.
  exists (mkWaiter "delete" first_delete KindUnit 0).
  assert (mkWaiter "delete" first_delete KindUnit 0 ∈ js_waiters two_callers) as Hin
    by (vm_compute; left).
  split; [exact Hin|].
  apply (guest_waiter_answered (T := ()) two_callers _ two_callers_reachable Hin). reflexivity.
Defined.

(** A guest with one running container shuts down. *)
Lemma shutdown_evidence_reportable_witness :
  ∃ recovery st, shutdown_executor false false (le_state started, le_kernel started) = (Ok recovery, st) ∧
    length recovery = 1%nat ∧ ∃ report, report_new recovery = Ok report ∧ rp_records report ≡ₚ recovery.
Proof.
  eexists _, (_, _). split; [vm_compute; reflexivity|]. split; [reflexivity|].
  eapply (shutdown_evidence_reportable capabilities 0 [] lost (Alive : @K one_child)
            [ReqCreate (create "create" 1); start "start"] false false).
  - vm_compute. reflexivity.
  - vm_compute. discriminate.
Defined.

(** ** Two surprises *)

(** A kill of a paused container whose init has just exited fails: the
    signal finds the process gone, the record is marked stopped but stays
    paused, and the state built from it is refused as invalid.  The refusal is
    the recorded outcome: the retry of the kill gets it again. *)
Theorem kill_paused_exit_refused :
  let paused := serve [ReqPause (pause "pause")] started in
  let gone := mkLinuxExecutor (le_state paused) (le_journal paused) Gone in
  let '(r, l) := dispatch (GuestAgentService0 := service) (ReqKill (kill "kill")) gone in
  match r with Err e => code e = InvalidArgument | Ok _ => False end ∧
  ((λ c, (gc_status c, gc_paused c)) ∘ snd <$> es_containers (le_state l)) = [(Stopped, true)] ∧
  dispatch (GuestAgentService0 := service) (ReqKill (kill "kill")) l = (r, l).
Proof. vm_compute. split_and!; reflexivity. Qed.

(** The retry of an exec whose container has been deleted is not answered
    from the journal: the container is looked up first, and the caller that
    missed the first answer is told that the container does not exist, although
    the outcome is still recorded. *)
Theorem exec_retry_after_delete_not_found :
  let '(r, l) := dispatch (GuestAgentService0 := service) (ReqExec run_shell) started in
  let l2 := serve [remove "delete"] l in
  is_ok r = true ∧
  (dispatch (GuestAgentService0 := service) (ReqExec run_shell) l2) = (Err container_missing, l2) ∧
  ∃ outcome, or_outcome <$> jn_operations (le_journal l2) !! "exec" = Some (OutProcess (Ok outcome)).
Proof. vm_compute. split_and!; [reflexivity|reflexivity|]. eexists. reflexivity. Qed.
End GuestExample.
