(* ===== verification/Lifecycle.v ===== *)
(** * Lifecycle and capability contracts (crates/core)

    The OCI lifecycle state machine that every durable record follows, and the
    driver capability rule that decides whether a driver may launch. *)

From stdpp Require Import base gmap strings list relations.
From S2P Require Import Prelude Sdk.

(** ** lifecycle.rs *)

Inductive LifecycleState : Type := LCreating | LCreated | LRunning | LStopped.
#[global] Instance LifecycleState_eq_dec : EqDecision LifecycleState.
Proof. solve_decision. Defined.

Inductive LifecycleEvent : Type := CreateCompleted | StartCompleted | LProcessExited.
#[global] Instance LifecycleEvent_eq_dec : EqDecision LifecycleEvent.
Proof. solve_decision. Defined.

Record TransitionError : Type := mkTransitionError {
  te_state : LifecycleState;
  te_event : LifecycleEvent
}.

(** [LifecycleState::transition] *)
Definition transition (s : LifecycleState) (e : LifecycleEvent)
    : result TransitionError LifecycleState :=
  match s, e with
  | LCreating, CreateCompleted => Ok LCreated
  | LCreated, StartCompleted => Ok LRunning
  | LCreated, LProcessExited => Ok LStopped
  | LRunning, LProcessExited => Ok LStopped
  | _, _ => Err (mkTransitionError s e)
  end.

(** [container_state] of state/oci_state.rs. *)
Definition container_state (s : LifecycleState) : ContainerState :=
  match s with
  | LCreating => Creating
  | LCreated => Created
  | LRunning => Running
  | LStopped => Stopped
  end.

(** [lifecycle_state] of state/kill.rs and state/observe.rs. *)
Definition lifecycle_state (s : ContainerState) : LifecycleState :=
  match s with
  | Creating => LCreating
  | Created => LCreated
  | Running => LRunning
  | Stopped => LStopped
  end.

(** One accepted lifecycle event, as a relation on OCI states. *)
Definition lifecycle_step (s s' : ContainerState) : Prop :=
  ∃ e, transition (lifecycle_state s) e = Ok (lifecycle_state s').

Abbreviation lifecycle_reach := (rtc lifecycle_step).

(** ** capability.rs *)

Inductive CapabilityStatus : Type := Available | HostUnavailable | HostUnsupported.
Inductive DriverReadiness : Type := ProbeOnly | Experimental | Supported.

Record DriverCapability : Type := mkDriverCapability {
  dc_driver : DriverKind;
  dc_status : CapabilityStatus;
  dc_readiness : DriverReadiness;
  dc_isolation_classes : list IsolationClass;
  dc_reason : option string;
  dc_evidence : gmap string string
}.

(** [DriverCapability::can_launch] *)
Definition can_launch (c : DriverCapability) : bool :=
  match dc_status c with
  | Available => match dc_readiness c with Experimental | Supported => true | ProbeOnly => false end
  | _ => false
  end.

Inductive HostPlatform : Type := Linux | Macos | Windows | PlatformUnsupported.

Record RuntimeFeatures : Type := mkRuntimeFeatures {
  rf_schema_version : string;
  rf_platform : HostPlatform;
  rf_architecture : string;
  rf_drivers : list DriverCapability
}.

(** [RuntimeFeatures::driver]: the first entry for the driver. *)
Definition features_driver (f : RuntimeFeatures) (d : DriverKind) : option DriverCapability :=
  find (λ item, bool_decide (dc_driver item = d)) (rf_drivers f).

(** ** Lemmas *)

Lemma container_state_lifecycle s : container_state (lifecycle_state s) = s.
Proof. by destruct s. Qed.

Lemma lifecycle_container_state s : lifecycle_state (container_state s) = s.
Proof. by destruct s. Qed.

Lemma transition_step s e s' :
  transition s e = Ok s' → lifecycle_step (container_state s) (container_state s').
Proof. intros H. exists e. by rewrite !lifecycle_container_state. Qed.

(** Progress order of the machine. *)
Definition lifecycle_rank (s : ContainerState) : nat :=
  match s with Creating => 0 | Created => 1 | Running => 2 | Stopped => 3 end.

Lemma lifecycle_step_rank s s' : lifecycle_step s s' → lifecycle_rank s < lifecycle_rank s'.
Proof. intros [e H]. destruct s, e, s'; simpl in *; try discriminate; lia. Qed.

Lemma lifecycle_reach_rank s s' : lifecycle_reach s s' → lifecycle_rank s ≤ lifecycle_rank s'.
Proof. induction 1 as [|s1 s2 s3 H _ IH]; [lia|]. apply lifecycle_step_rank in H. lia. Qed.

Lemma reach_created_running : lifecycle_reach Created Running.
Proof. apply rtc_once. by exists StartCompleted. Qed.
Lemma reach_creating_created : lifecycle_reach Creating Created.
Proof. apply rtc_once. by exists CreateCompleted. Qed.
Lemma reach_running_stopped : lifecycle_reach Running Stopped.
Proof. apply rtc_once. by exists LProcessExited. Qed.
Lemma reach_created_stopped : lifecycle_reach Created Stopped.
Proof. apply rtc_once. by exists LProcessExited. Qed.

Create HintDb lifecycle.
#[export] Hint Resolve reach_created_running reach_creating_created reach_running_stopped
  reach_created_stopped : lifecycle.
#[export] Hint Extern 1 (rtc lifecycle_step ?x ?x) => apply rtc_refl : lifecycle.

(** ** Properties *)

(** which states reach which: a container runs only through [Created],
    nothing leaves [Stopped], and no state is ever revisited. *)
Theorem lifecycle_reach_characterised s s' :
  lifecycle_reach s s' ↔ s = s' ∨ (lifecycle_rank s < lifecycle_rank s')%nat.
Proof.
  split.
  - intros H. destruct H as [|s1 s2 s3 H H']; [by left|right].
    apply lifecycle_step_rank in H. apply lifecycle_reach_rank in H'. lia.
  - intros [->|H]; [done|].
    destruct s, s'; simpl in H; try lia; eauto with lifecycle;
      (etrans; [apply reach_creating_created|eauto with lifecycle]).
Qed.
