(* ===== verification/Fault.v ===== *)
(** * Durable mutations and fault points (crates/runtime/src/fault.rs)

    Every durable write of the store names a [DurableMutation], and every
    commit stage of a write is a [FaultPoint] at which a fault injector may
    stop the operation.  The injector is a parameter of the store model. *)

From stdpp Require Import base list.
From S2P Require Import Prelude Sdk.

Inductive DurableMutation : Type :=
  | RuntimeRootMarker | AllocateGeneration
  | PrepareCreateOperation | StoreCreateConfig | StoreCreatingContainer
  | ClaimCreateOperation | CompleteCreateContainer | CompleteCreateOperation
  | PrepareStartOperation | ClaimStartOperation | ReconcileStartContainer
  | ReconcileStartOperation | CompleteStartContainer | CompleteStartOperation
  | PrepareKillOperation | ClaimKillOperation | ReconcileKillContainer
  | ReconcileKillOperation | CompleteKillContainer | CompleteKillOperation
  | PreparePauseOperation | ClaimPauseOperation | ReconcilePauseContainer
  | ReconcilePauseOperation | CompletePauseContainer | CompletePauseOperation
  | PrepareResumeOperation | ClaimResumeOperation | ReconcileResumeContainer
  | ReconcileResumeOperation | CompleteResumeContainer | CompleteResumeOperation
  | PrepareUpdateOperation | ClaimUpdateOperation | CompleteUpdateContainer
  | CompleteUpdateOperation
  | PrepareDeleteOperation | ClaimDeleteOperation | ReconcileDeleteOperation
  | MoveDeleteTombstone | CompleteDeleteOperation
  | PrepareExecOperation | StoreExecutingProcess | ClaimExecOperation
  | ReconcileExecProcess | ReconcileExecOperation | CompleteExecProcess
  | CompleteExecOperation
  | PrepareSignalProcessOperation | ClaimSignalProcessOperation
  | CompleteSignalProcessRecord | CompleteSignalProcessOperation
  | PrepareWriteStdinOperation | ClaimWriteStdinOperation | CompleteWriteStdinRecord
  | CompleteWriteStdinOperation
  | PrepareCloseStdinOperation | ClaimCloseStdinOperation | CompleteCloseStdinRecord
  | CompleteCloseStdinOperation
  | PrepareResizeOperation | ClaimResizeOperation | CompleteResizeRecord
  | CompleteResizeOperation
  | PrepareFileOperation | ClaimFileOperation | CompleteFileContainer | CompleteFileOperation
  | PrepareFilesystemOperation | ClaimFilesystemOperation | CompleteFilesystemContainer
  | CompleteFilesystemOperation
  | PrepareCheckpointOperation | ClaimCheckpointOperation | CompleteCheckpointContainer
  | CompleteCheckpointOperation
  | PrepareRestoreOperation | StoreRestoreConfig | StoreRestoringContainer
  | ClaimRestoreOperation | CompleteRestoreContainer | CompleteRestoreOperation
  | PrepareAttestationOperation | ClaimAttestationOperation | CompleteAttestationContainer
  | CompleteAttestationOperation
  | CacheInitWait | CacheProcessWait
  | AdvanceEventSequence | ClaimRuntimeEvent | StoreRuntimeEvent
  | RecordCreateFailure | MoveFailedCreateTombstone
  | ReleaseFailedStartClaim | RecordStartFailure
  | ReleaseFailedKillClaim | RecordKillFailure
  | ReleaseFailedPauseClaim | RecordPauseFailure
  | ReleaseFailedResumeClaim | RecordResumeFailure
  | ReleaseFailedUpdateClaim | RecordUpdateFailure
  | ReleaseFailedDeleteClaim | RecordDeleteFailure
  | ReleaseFailedExecClaim | RecordExecFailure
  | ReleaseFailedSignalProcessClaim | RecordSignalProcessFailure
  | ReleaseFailedWriteStdinClaim | RecordWriteStdinFailure
  | ReleaseFailedCloseStdinClaim | RecordCloseStdinFailure
  | ReleaseFailedResizeClaim | RecordResizeFailure
  | ReleaseFailedFileClaim | RecordFileFailure
  | ReleaseFailedFilesystemClaim | RecordFilesystemFailure
  | ReleaseFailedCheckpointClaim | RecordCheckpointFailure
  | RecordRestoreFailure | MoveFailedRestoreTombstone
  | ReleaseFailedAttestationClaim | RecordAttestationFailure
  | ObserveContainer | CompleteObservedOperation.

(** [DurableMutation::is_directory_move] *)
Definition is_directory_move (m : DurableMutation) : bool :=
  match m with
  | MoveDeleteTombstone | MoveFailedCreateTombstone | MoveFailedRestoreTombstone => true
  | _ => false
  end.

Inductive FileCommitStage : Type :=
  | TemporaryFileCreated | TemporaryFileProtected | DataWritten | DataFlushed
  | FileSynced | FileReplaced | ParentDirectorySynced.

Inductive DirectoryCommitStage : Type :=
  | DirectoryMoved | SourceParentSynced | DestinationParentSynced.

Inductive DriverOperation : Type :=
  | DriverCapabilityOp | DriverRecover | DriverCreate | DriverStateOp | DriverStart | DriverKill
  | DriverDelete | DriverWait | DriverExec | DriverSignalProcess | DriverWaitProcess
  | DriverPause | DriverResume | DriverProcesses | DriverUpdate | DriverStats
  | DriverReadOutput | DriverWriteStdin | DriverCloseStdin | DriverResize | DriverFile
  | DriverFilesystem | DriverCheckpoint | DriverRestoreValidation | DriverRestore
  | DriverAttest.

Inductive DriverBoundaryStage : Type := BeforeCall | AfterCall.

Inductive FaultPoint : Type :=
  | DurableFile (mutation : DurableMutation) (stage : FileCommitStage)
  | DurableDirectory (mutation : DurableMutation) (stage : DirectoryCommitStage)
  | DriverBoundary (operation : DriverOperation) (stage : DriverBoundaryStage).

(** [FaultInjector]: a checkpoint that may fail, with interior state. *)
Class FaultInjector : Type := {
  fault_state : Type;
  fault_check : FaultPoint → fault_state → Result unit * fault_state
}.

(** [NoFaultInjector] *)
#[global] Instance NoFaultInjector : FaultInjector | 100 := {
  fault_state := unit;
  fault_check := λ _ s, (Ok (), s)
}.
