(* ===== verification/OciState.v ===== *)
(** * OCI state construction (crates/runtime/src/state/oci_state.rs)

    Building and rebuilding the OCI [State] of a durable record, and the
    freezer annotation through which pause and resume are recorded.  The
    builder of the oci-spec crate has a default for every field, so
    [StateBuilder::build] returns the fields that were set. *)

From stdpp Require Import base gmap strings list.
From S2P Require Import Prelude Sdk.
Local Open Scope string_scope.

Definition PAUSED_STATE_ANNOTATION : string := "dev.a3s.oci.runtime.paused".

(** [if !annotations.is_empty() { builder.annotations(..) }] *)
Definition keep_annotations (m : gmap string string) : option (gmap string string) :=
  if decide (m = ∅) then None else Some m.

Definition build_state (id : string) (bundle : OciBundle) (status : ContainerState)
    (pid : option Z) : Result OciState :=
  try! annotations :=
    match bundle_annotations bundle with
    | Some m =>
        check! reject_if (bool_decide (is_Some (m !! PAUSED_STATE_ANNOTATION)))
          (state_error InvalidArgument "build-oci-state"
             "OCI annotation {PAUSED_STATE_ANNOTATION} is reserved for runtime state");
        Ok (keep_annotations m)
    | None => Ok None
    end in
  Ok (mkOciState (bundle_version bundle) id status pid (bundle_directory bundle) annotations).

Definition rebuild_state (state : OciState) (status : ContainerState) (pid : option Z)
    : Result OciState :=
  let annotations :=
    match st_annotations state with
    | Some m =>
        keep_annotations (if decide (status = Stopped) then delete PAUSED_STATE_ANNOTATION m else m)
    | None => None
    end in
  Ok (mkOciState (st_version state) (st_id state) status pid (st_bundle state) annotations).

Definition rebuild_paused_state (state : OciState) (paused : bool) : Result OciState :=
  check! reject_if (bool_decide (st_status state ≠ Running))
    (state_error FailedPrecondition "update-container-freezer-state"
       "container {} cannot change freezer state while {}");
  let annotations := default ∅ (st_annotations state) in
  let annotations :=
    if paused then <[PAUSED_STATE_ANNOTATION := "true"]> annotations
    else delete PAUSED_STATE_ANNOTATION annotations in
  Ok (mkOciState (st_version state) (st_id state) (st_status state) (st_pid state)
        (st_bundle state) (keep_annotations annotations)).

Definition is_paused (state : OciState) : bool :=
  match st_annotations state with
  | Some m => bool_decide (m !! PAUSED_STATE_ANNOTATION = Some "true")
  | None => false
  end.

(** [ContainerRecord::is_paused] of the SDK reads the same annotation. *)
Definition record_is_paused (r : ContainerRecord) : bool := is_paused (cr_state r).

Arguments rebuild_state : simpl never.
Arguments rebuild_paused_state : simpl never.

(** ** Lemmas *)

(** The states the builders produce never hold an empty annotation map. *)
Definition annotations_normal (s : OciState) : Prop := st_annotations s ≠ Some ∅.

Lemma keep_annotations_normal m : keep_annotations m ≠ Some ∅.
Proof. unfold keep_annotations. case_decide; [done|]. congruence. Qed.

Lemma keep_annotations_id m : m ≠ ∅ → keep_annotations m = Some m.
Proof. intros. unfold keep_annotations. by case_decide. Qed.

Lemma rebuild_state_ok state status pid : ∃ s,
  rebuild_state state status pid = Ok s ∧ st_status s = status ∧ st_pid s = pid ∧
  st_id s = st_id state ∧ st_version s = st_version state ∧ st_bundle s = st_bundle state ∧
  annotations_normal s.
Proof.
  eexists; split; [done|]; simpl. repeat split; [].
  unfold annotations_normal; simpl.
  destruct (st_annotations state); [apply keep_annotations_normal|done].
Qed.

Lemma rebuild_state_inv state status pid s :
  rebuild_state state status pid = Ok s →
  st_status s = status ∧ st_pid s = pid ∧ st_id s = st_id state ∧
  st_version s = st_version state ∧ st_bundle s = st_bundle state.
Proof. unfold rebuild_state. intros [= <-]. done. Qed.

Lemma rebuild_paused_state_inv state paused s :
  rebuild_paused_state state paused = Ok s →
  st_status state = Running ∧ st_status s = Running ∧ st_pid s = st_pid state ∧
  st_id s = st_id state ∧ st_version s = st_version state ∧ st_bundle s = st_bundle state.
Proof.
  unfold rebuild_paused_state. intros H. inv_ok.
  match goal with H : bool_decide _ = false |- _ => apply bool_decide_eq_false, dec_stable in H end.
  simpl. naive_solver.
Qed.

Lemma is_paused_keep m v i p s b :
  is_paused (mkOciState v i s p b (keep_annotations m)) =
    bool_decide (m !! PAUSED_STATE_ANNOTATION = Some "true").
Proof.
  unfold keep_annotations, is_paused; simpl. case_decide as H; [|done].
  subst m. by rewrite lookup_empty.
Qed.

Lemma default_keep m : default ∅ (keep_annotations m) = m.
Proof. unfold keep_annotations. by case_decide. Qed.

(** ** Properties *)

(** the freezer annotation is set exactly as requested, nothing else about
    the state changes, and the call fails, changing nothing, for a container
    that is not running. *)
Theorem rebuild_paused_state_spec state paused :
  match rebuild_paused_state state paused with
  | Ok s =>
      st_status state = Running ∧ is_paused s = paused ∧
      st_status s = Running ∧ st_pid s = st_pid state ∧ st_id s = st_id state ∧
      ∀ k, k ≠ PAUSED_STATE_ANNOTATION →
        (default ∅ (st_annotations s)) !! k = (default ∅ (st_annotations state)) !! k
  | Err e => st_status state ≠ Running ∧ code e = FailedPrecondition
  end.
Proof.
  unfold rebuild_paused_state. destruct (decide (st_status state = Running)) as [Hr|Hr].
  - rewrite bool_decide_eq_false_2 by naive_solver. simpl. split; [done|].
    split.
    { rewrite is_paused_keep. destruct paused.
      - rewrite lookup_insert_eq. by apply bool_decide_eq_true_2.
      - rewrite lookup_delete_eq. by apply bool_decide_eq_false_2. }
    repeat split; [done|]. intros k Hk.
    transitivity ((if paused then <[PAUSED_STATE_ANNOTATION:="true"]> (default ∅ (st_annotations state))
       else delete PAUSED_STATE_ANNOTATION (default ∅ (st_annotations state))) !! k).
    + by rewrite default_keep.
    + destruct paused; [by rewrite lookup_insert_ne|by rewrite lookup_delete_ne].
  - rewrite bool_decide_eq_true_2 by naive_solver. done.
Qed.

(** pausing and resuming a running, unpaused container restores exactly the
    original OCI state, absent annotations included. *)
Theorem pause_resume_roundtrip state :
  st_status state = Running → annotations_normal state →
  default ∅ (st_annotations state) !! PAUSED_STATE_ANNOTATION = None →
  rbind (rebuild_paused_state state true) (λ s, rebuild_paused_state s false) = Ok state.
Proof.
  intros Hr Hnorm Hnone. unfold rebuild_paused_state at 1.
  rewrite bool_decide_eq_false_2 by naive_solver. simpl. unfold rebuild_paused_state. simpl.
  rewrite bool_decide_eq_false_2 by naive_solver. simpl.
  rewrite (keep_annotations_id (<[_:=_]> _)) by apply insert_non_empty. simpl.
  rewrite delete_insert_id by done. destruct state as [v i s p b [m|]]; simpl in *.
  - rewrite keep_annotations_id; [done|]. intros ->. by apply Hnorm.
  - done.
Qed.

(** a lifecycle update of the OCI state always succeeds and changes exactly the
    status, the PID and, for a stopped container, the freezer state: identity
    and every other annotation stay, a stopped container is never left frozen,
    and no other update loses the freezer state. *)
Theorem rebuild_state_spec state status pid :
  ∃ s, rebuild_state state status pid = Ok s ∧ st_status s = status ∧ st_pid s = pid ∧
    st_id s = st_id state ∧ st_version s = st_version state ∧ st_bundle s = st_bundle state ∧
    is_paused s = (if decide (status = Stopped) then false else is_paused state) ∧
    ∀ k, k ≠ PAUSED_STATE_ANNOTATION →
      default ∅ (st_annotations s) !! k = default ∅ (st_annotations state) !! k.
Proof.
  eexists. split; [done|]. do 5 (split; [done|]). cbn [st_annotations].
  destruct (st_annotations state) as [m|] eqn:Hm.
  - rewrite is_paused_keep. split.
    + unfold is_paused. rewrite Hm. case_decide; [|done].
      rewrite lookup_delete_eq. by apply bool_decide_eq_false_2.
    + intros k Hk. rewrite default_keep. case_decide; simpl; [by rewrite lookup_delete_ne|done].
  - unfold is_paused. rewrite Hm. split; [by case_decide|done].
Qed.

(** ** Witnesses *)

Definition running_example : OciState :=
  mkOciState "1.3.0" "annotated-container" Running (Some 42%Z) "/bundle"
    (Some {["dev.a3s.test" := "retained"]}).

Lemma pause_resume_roundtrip_witness :
  rbind (rebuild_paused_state running_example true) (λ s, rebuild_paused_state s false)
  = Ok running_example.
Proof. apply (pause_resume_roundtrip running_example); [reflexivity|by vm_compute|reflexivity]. Defined.
