(* ===== verification/Contracts.v ===== *)
(** * Checkpoint and attestation contracts of the SDK (crates/sdk/src/checkpoint.rs,
      checkpoint/*.rs, tee.rs, extension/artifact.rs)

    The immutable values that checkpoint, restore and attestation exchange,
    with every check their constructors and deserialisers make.  A Rust type
    whose only constructor validates is a record here with that constructor as
    a function; the text types (digests, paths, measurements) are strings.
    Byte vectors are strings of bytes.  Artifact paths follow the Unix rules of
    [std::path].  The checks of a restore request that read the bundle and the
    attachments are in [RestoreContract]. *)

From Stdlib Require Import Ascii.
From stdpp Require Import base strings list gmap.
From S2P Require Import Prelude Sdk Identifiers Lifecycle OciState.

Local Open Scope string_scope.
Local Open Scope Z_scope.

(** ** extension.rs: the identity of the host executable *)

Definition negotiation_input_error (msg : string) : Error :=
  for_operation (error_new InvalidArgument msg) "negotiate-runtime".

(** [u8::is_ascii_graphic] *)
Definition is_ascii_graphic (c : ascii) : bool := byte_in 33 126 c.

Definition validate_bounded_text (value : string) (maximum : Z) : Result () :=
  if negb (bool_decide (value = "")) && (byte_len value <=? maximum)
     && all_bytes is_ascii_graphic value
  then Ok ()
  else Err (negotiation_input_error
              "{field} must contain between 1 and {maximum} visible ASCII bytes").

(** [value.strip_prefix("<algorithm>:").is_some_and(|hex| hex.len() == n && hex is lower-case)] *)
Definition is_canonical_digest (prefix : string) (hex_bytes : Z) (value : string) : bool :=
  match strip_prefix prefix value with
  | Some hex => (byte_len hex =? hex_bytes) && all_bytes is_lower_hex hex
  | None => false
  end.

Record RuntimeArtifact : Type := mkRuntimeArtifact {
  art_name : string;
  art_version : string;
  art_digest : string;
  art_source_revision : option string
}.
#[global] Instance RuntimeArtifact_eq_dec : EqDecision RuntimeArtifact.
Proof. solve_decision. Defined.

Definition MAX_ARTIFACT_NAME_BYTES : Z := 255.
Definition MAX_ARTIFACT_VERSION_BYTES : Z := 128.
Definition MAX_SOURCE_REVISION_BYTES : Z := 128.
Definition SHA256_HEX_BYTES : Z := 64.
Definition SHA384_HEX_BYTES : Z := 96.

(** [validate_sha256] of artifact.rs *)
Definition validate_sha256 (digest : string) : Result () :=
  if is_canonical_digest "sha256:" SHA256_HEX_BYTES digest then Ok ()
  else Err (negotiation_input_error "runtime artifact digest must be a canonical lowercase SHA-256").

(** ** tee.rs: launch requests *)

Inductive TeeTechnology : Type := AmdSevSnp | IntelTdx.
#[global] Instance TeeTechnology_eq_dec : EqDecision TeeTechnology.
Proof. solve_decision. Defined.

Definition AMD_SEV_SNP_LAUNCH_EXTENSION : string := "dev.a3s.tee.amd-sev-snp".
Definition INTEL_TDX_LAUNCH_EXTENSION : string := "dev.a3s.tee.intel-tdx".

(** [TeeTechnology::extension_name] and [from_extension_name] *)
Definition extension_name (t : TeeTechnology) : string :=
  match t with
  | AmdSevSnp => AMD_SEV_SNP_LAUNCH_EXTENSION
  | IntelTdx => INTEL_TDX_LAUNCH_EXTENSION
  end.
Definition from_extension_name (name : string) : option TeeTechnology :=
  if bool_decide (name = AMD_SEV_SNP_LAUNCH_EXTENSION) then Some AmdSevSnp
  else if bool_decide (name = INTEL_TDX_LAUNCH_EXTENSION) then Some IntelTdx
  else None.

Inductive TeeMode : Type := Hardware | Simulated.
#[global] Instance TeeMode_eq_dec : EqDecision TeeMode.
Proof. solve_decision. Defined.

Record TeeLaunchRequest : Type := mkTeeLaunch {
  tl_schema_version : string;
  tl_technology : TeeTechnology;
  tl_mode : TeeMode
}.
#[global] Instance TeeLaunchRequest_eq_dec : EqDecision TeeLaunchRequest.
Proof. solve_decision. Defined.

Definition TEE_LAUNCH_SCHEMA_V1 : string := "a3s.oci.tee-launch.v1".
Definition TEE_ATTESTATION_SCHEMA_V1 : string := "a3s.oci.tee-attestation.v1".
Definition TEE_REPORT_DATA_BYTES : Z := 64.
Definition MAX_TEE_EVIDENCE_BYTES : Z := 256 * 1024.
Definition MAX_TEE_LAUNCH_ANNOTATION_BYTES : Z := 4 * 1024.
Definition MAX_EVIDENCE_MEDIA_TYPE_BYTES : Z := 128.

Definition tee_error (msg : string) : Error :=
  for_operation (error_new InvalidArgument msg) "validate-tee-contract".

(** [TeeLaunchRequest::new] and [validate] *)
Definition tee_launch_new (technology : TeeTechnology) (mode : TeeMode) : TeeLaunchRequest :=
  mkTeeLaunch TEE_LAUNCH_SCHEMA_V1 technology mode.
Definition tee_launch_validate (r : TeeLaunchRequest) : Result () :=
  reject_if (bool_decide (tl_schema_version r ≠ TEE_LAUNCH_SCHEMA_V1))
    (tee_error "unsupported TEE launch schema {:?}").

(** The third-party functions that the contracts call: the base64 engine,
    SHA-256, the semver parser and serde's JSON of a launch request. *)
Class ContractEnv : Type := {
  base64_encode : string → string;
  base64_decode : string → option string;
  (** Lower-case hexadecimal SHA-256. *)
  sha256_hex : string → string;
  semver_parses : string → bool;
  launch_to_json : TeeLaunchRequest → option string;
  launch_from_json : string → option TeeLaunchRequest
}.

Section contracts.
Context `{CE : ContractEnv}.

(** [RuntimeArtifact::validate] and [new] *)
Definition runtime_artifact_validate (a : RuntimeArtifact) : Result () :=
  check! validate_bounded_text (art_name a) MAX_ARTIFACT_NAME_BYTES;
  check! validate_bounded_text (art_version a) MAX_ARTIFACT_VERSION_BYTES;
  check! reject_if (negb (semver_parses (art_version a)))
    (negotiation_input_error "runtime artifact version is not semantic versioning: {error}");
  check! validate_sha256 (art_digest a);
  match art_source_revision a with
  | Some revision => validate_bounded_text revision MAX_SOURCE_REVISION_BYTES
  | None => Ok ()
  end.
Definition runtime_artifact_new (name version digest : string) (source_revision : option string)
    : Result RuntimeArtifact :=
  let a := mkRuntimeArtifact name version digest source_revision in
  check! runtime_artifact_validate a; Ok a.

(** [TeeLaunchRequest::to_annotation_value] and [from_annotation_value].  The
    encoder writes UTF-8. *)
Definition to_annotation_value (r : TeeLaunchRequest) : Result string :=
  check! tee_launch_validate r;
  try! encoded := ok_or
    (tee_error "failed to encode canonical TEE launch annotation: {error}") (launch_to_json r) in
  check! reject_if (MAX_TEE_LAUNCH_ANNOTATION_BYTES <? byte_len encoded)
    (tee_error "TEE launch annotation exceeds its bounded size");
  Ok encoded.
Definition from_annotation_value (encoded : string) : Result TeeLaunchRequest :=
  check! reject_if (bool_decide (encoded = "")
                    || (MAX_TEE_LAUNCH_ANNOTATION_BYTES <? byte_len encoded))
    (tee_error "TEE launch annotation must contain between 1 and {MAX_TEE_LAUNCH_ANNOTATION_BYTES} bytes");
  try! request := ok_or
    (tee_error "TEE launch annotation is invalid JSON: {error}") (launch_from_json encoded) in
  check! tee_launch_validate request;
  try! canonical := to_annotation_value request in
  check! reject_if (bool_decide (canonical ≠ encoded))
    (tee_error "TEE launch annotation is not canonical JSON");
  Ok request.

(** ** tee.rs: report data, digests and evidence *)

(** [TeeReportData::from_bytes] and its deserialiser *)
Definition report_data_from_bytes (bytes : string) : Result string :=
  check! reject_if (negb (byte_len bytes =? TEE_REPORT_DATA_BYTES))
    (tee_error "TEE report data must contain exactly {TEE_REPORT_DATA_BYTES} bytes");
  Ok bytes.
Definition report_data_deserialize (encoded : string) : Result string :=
  try! decoded := ok_or (tee_error "{error}") (base64_decode encoded) in
  try! report_data := report_data_from_bytes decoded in
  check! reject_if (bool_decide (base64_encode report_data ≠ encoded))
    (tee_error "TEE report data is not canonical base64");
  Ok report_data.

(** [validate_digest], [TeeSha256Digest::new], [for_bytes] and [TeeMeasurement::new] *)
Definition tee_validate_digest (value algorithm : string) (hex_bytes : Z) : Result () :=
  if is_canonical_digest (algorithm +:+ ":") hex_bytes value then Ok ()
  else Err (tee_error "{label} must be a canonical lowercase {algorithm} value").
Definition tee_sha256_new (value : string) : Result string :=
  check! tee_validate_digest value "sha256" SHA256_HEX_BYTES; Ok value.
Definition tee_sha256_for_bytes (bytes : string) : string := "sha256:" +:+ sha256_hex bytes.
Definition tee_measurement_new (value : string) : Result string :=
  check! tee_validate_digest value "sha384" SHA384_HEX_BYTES; Ok value.

(** [value.split_once('/')] *)
Fixpoint split_once (sep : ascii) (s : string) : option (string * string) :=
  match s with
  | EmptyString => None
  | String c s' =>
      if bool_decide (c = sep) then Some ("", s')
      else match split_once sep s' with
           | Some (a, b) => Some (String c a, b)
           | None => None
           end
  end.

Definition media_type_byte (c : ascii) : bool :=
  is_ascii_lower c || is_ascii_digit c
  || bool_decide (c = "."%char) || bool_decide (c = "+"%char) || bool_decide (c = "-"%char).

(** [value.is_ascii()] *)
Definition is_ascii (s : string) : bool := all_bytes (byte_in 0 127) s.

Definition validate_media_type (value : string) : Result () :=
  let valid_components :=
    match split_once "/" value with
    | Some (kind, subtype) =>
        negb (bool_decide (kind = "")) && negb (bool_decide (subtype = ""))
        && all_bytes (λ c, negb (bool_decide (c = "/"%char))) subtype
        && all_bytes media_type_byte kind && all_bytes media_type_byte subtype
    | None => false
    end in
  reject_if (bool_decide (value = "") || (MAX_EVIDENCE_MEDIA_TYPE_BYTES <? byte_len value)
             || negb (is_ascii value) || negb valid_components)
    (tee_error "TEE evidence media type must be at most {MAX_EVIDENCE_MEDIA_TYPE_BYTES} bytes of canonical lowercase ASCII").

Record TeeEvidence : Type := mkTeeEvidence {
  te_media_type : string;
  te_data : string;
  te_digest : string;
  te_size_bytes : Z
}.
#[global] Instance TeeEvidence_eq_dec : EqDecision TeeEvidence.
Proof. solve_decision. Defined.

Definition evidence_size_error : Error :=
  tee_error "TEE evidence must contain between 1 and {MAX_TEE_EVIDENCE_BYTES} decoded bytes".
Definition evidence_size_invalid (data : string) : bool :=
  bool_decide (data = "") || (MAX_TEE_EVIDENCE_BYTES <? byte_len data).

(** [TeeEvidence::validate], also [decode], and [new] *)
Definition tee_evidence_validate (e : TeeEvidence) : Result string :=
  check! validate_media_type (te_media_type e);
  try! decoded := ok_or (tee_error "TEE evidence is not valid base64: {error}")
    (base64_decode (te_data e)) in
  check! reject_if (evidence_size_invalid decoded) evidence_size_error;
  check! reject_if (bool_decide (base64_encode decoded ≠ te_data e))
    (tee_error "TEE evidence is not canonical base64");
  check! reject_if (bool_decide (te_size_bytes e ≠ byte_len decoded)
                    || bool_decide (te_digest e ≠ tee_sha256_for_bytes decoded))
    (tee_error "TEE evidence size or digest does not match its payload");
  Ok decoded.
Definition tee_evidence_new (media_type data : string) : Result TeeEvidence :=
  check! reject_if (evidence_size_invalid data) evidence_size_error;
  let e := mkTeeEvidence media_type (base64_encode data) (tee_sha256_for_bytes data)
             (byte_len data) in
  check! (try! _decoded := tee_evidence_validate e in Ok ()); Ok e.

(** ** tee.rs: attestation requests and responses *)

Definition tee_require_exact_target (target : ContainerTarget) : Result () :=
  try! generation := ok_or
    (tee_error "TEE attestation requires an exact container generation") (ct_generation target) in
  reject_if (bool_decide (generation = 0))
    (tee_error "TEE attestation generation must be greater than zero").

Record TeeAttestationRequest : Type := mkAttestationRequest {
  atr_context : OperationContext;
  atr_target : ContainerTarget;
  atr_report_data : string
}.
#[global] Instance TeeAttestationRequest_eq_dec : EqDecision TeeAttestationRequest.
Proof. solve_decision. Defined.

(** [TeeAttestationRequest::validate_contract], also its [validate], and [new] *)
Definition attest_request_validate (r : TeeAttestationRequest) : Result () :=
  tee_require_exact_target (atr_target r).
Definition attest_request_new (context : OperationContext) (target : ContainerTarget)
    (report_data : string) : Result TeeAttestationRequest :=
  let r := mkAttestationRequest context target report_data in
  check! attest_request_validate r; Ok r.

Record TeeAttestationResponse : Type := mkAttestationResponse {
  ar_schema_version : string;
  ar_target : ContainerTarget;
  ar_launch : TeeLaunchRequest;
  ar_report_data : string;
  ar_config_digest : string;
  ar_attachments_digest : string;
  ar_driver : DriverKind;
  ar_runtime_artifact : RuntimeArtifact;
  ar_driver_build_digest : string;
  ar_measurement : string;
  ar_evidence : TeeEvidence
}.
#[global] Instance TeeAttestationResponse_eq_dec : EqDecision TeeAttestationResponse.
Proof. solve_decision. Defined.

(** [TeeAttestationResponse::validate], [new] and [validate_for_request] *)
Definition attest_response_validate (r : TeeAttestationResponse) : Result () :=
  check! reject_if (bool_decide (ar_schema_version r ≠ TEE_ATTESTATION_SCHEMA_V1))
    (tee_error "unsupported TEE attestation schema {:?}");
  check! tee_require_exact_target (ar_target r);
  check! tee_launch_validate (ar_launch r);
  check! runtime_artifact_validate (ar_runtime_artifact r);
  try! _decoded := tee_evidence_validate (ar_evidence r) in
  Ok ().
Definition attest_response_new (target : ContainerTarget) (launch : TeeLaunchRequest)
    (report_data config_digest attachments_digest : string) (driver : DriverKind)
    (runtime_artifact : RuntimeArtifact) (driver_build_digest measurement : string)
    (evidence : TeeEvidence) : Result TeeAttestationResponse :=
  let r := mkAttestationResponse TEE_ATTESTATION_SCHEMA_V1 target launch report_data config_digest
    attachments_digest driver runtime_artifact driver_build_digest measurement evidence in
  check! attest_response_validate r; Ok r.
Definition attest_response_validate_for_request (r : TeeAttestationResponse)
    (request : TeeAttestationRequest) : Result () :=
  check! attest_request_validate request;
  check! attest_response_validate r;
  reject_if (bool_decide (ar_target r ≠ atr_target request)
             || bool_decide (ar_report_data r ≠ atr_report_data request))
    (tee_error "TEE attestation response does not match the exact request target and report data").

(** ** checkpoint.rs, checkpoint/artifact.rs *)

Definition CHECKPOINT_REFERENCE_SCHEMA_V1 : string := "a3s.oci.checkpoint-reference.v1".
Definition MAX_CHECKPOINT_ARTIFACT_PATH_BYTES : Z := 4096.
Definition MAX_CHECKPOINT_FORMAT_NAME_BYTES : Z := 128.
Definition MAX_CHECKPOINT_ARCHITECTURE_BYTES : Z := 64.

Definition checkpoint_error (msg : string) : Error :=
  for_operation (error_new InvalidArgument msg) "validate-checkpoint-contract".

Definition token_byte (c : ascii) : bool :=
  is_ascii_lower c || is_ascii_digit c || bool_decide (c = "."%char)
  || bool_decide (c = "_"%char) || bool_decide (c = "+"%char) || bool_decide (c = "-"%char).

Definition validate_token (value : string) (maximum : Z) : Result () :=
  match value with
  | EmptyString => Err (checkpoint_error "{label} must not be empty")
  | String first bytes =>
      reject_if ((maximum <? byte_len value)
                 || negb (is_ascii_lower first) && negb (is_ascii_digit first)
                 || negb (all_bytes token_byte bytes))
        (checkpoint_error "{label} must be at most {maximum} bytes of canonical lowercase ASCII")
  end.

(** [CheckpointDigest::new] *)
Definition checkpoint_digest_new (value : string) : Result string :=
  check! reject_if (negb (is_canonical_digest "sha256:" 64 value))
    (checkpoint_error "checkpoint digest must be a canonical lowercase SHA-256");
  Ok value.

(** The text between the separators of a path. *)
Definition path_segments (s : string) : list string := split_on "/" s.

(** [Path::components] of an absolute path, after the root: empty segments and
    [.] are dropped, [..] stays. *)
Definition path_components (path : string) : list string :=
  filter (λ s, s ≠ "" ∧ s ≠ ".") (path_segments path).

(** [path.components().collect::<PathBuf>()] of an absolute path. *)
Definition path_normalized (path : string) : string :=
  "/" +:+ String.concat "/" (path_components path).

(** [path.file_name().is_none()]: the path is the root or ends in [..]. *)
Definition path_has_no_file_name (path : string) : bool :=
  match last (path_components path) with
  | None => true
  | Some name => bool_decide (name = "..")
  end.

(** [validate_artifact_path] and [CheckpointArtifactPath::new] *)
Definition validate_artifact_path (path : string) : Result () :=
  check! reject_if (negb (starts_with "/" path))
    (checkpoint_error "checkpoint artifact path must be absolute: {}");
  check! reject_if (bool_decide (path = "") || (MAX_CHECKPOINT_ARTIFACT_PATH_BYTES <? byte_len path)
                    || contains_nul path)
    (checkpoint_error "checkpoint artifact path must contain 1 through {MAX_CHECKPOINT_ARTIFACT_PATH_BYTES} non-NUL UTF-8 bytes");
  reject_if (bool_decide (path_normalized path ≠ path) || path_has_no_file_name path
             || existsb (λ s, bool_decide (s = "..")) (path_components path))
    (checkpoint_error "checkpoint artifact path must name one normalized file").
Definition artifact_path_new (path : string) : Result string :=
  check! validate_artifact_path path; Ok path.

Record CheckpointFormat : Type := mkCheckpointFormat { cf_name : string; cf_version : Z }.
#[global] Instance CheckpointFormat_eq_dec : EqDecision CheckpointFormat.
Proof. solve_decision. Defined.

(** [CheckpointFormat::validate] and [new] *)
Definition checkpoint_format_validate (f : CheckpointFormat) : Result () :=
  check! validate_token (cf_name f) MAX_CHECKPOINT_FORMAT_NAME_BYTES;
  reject_if (bool_decide (cf_version f = 0))
    (checkpoint_error "checkpoint format version must be greater than zero").
Definition checkpoint_format_new (name : string) (version : Z) : Result CheckpointFormat :=
  let f := mkCheckpointFormat name version in
  check! checkpoint_format_validate f; Ok f.

(** ** checkpoint/reference.rs *)

Inductive CheckpointQuiesce : Type := QuiescePaused.
#[global] Instance CheckpointQuiesce_eq_dec : EqDecision CheckpointQuiesce.
Proof. solve_decision. Defined.

Record CheckpointCompatibility : Type := mkCompatibility {
  cc_driver : DriverKind;
  cc_isolation : IsolationClass;
  cc_platform : HostPlatform;
  cc_architecture : string;
  cc_runtime_artifact : RuntimeArtifact;
  cc_driver_build_digest : string;
  cc_format : CheckpointFormat
}.
#[global] Instance HostPlatform_eq_dec : EqDecision HostPlatform.
Proof. solve_decision. Defined.
#[global] Instance CheckpointCompatibility_eq_dec : EqDecision CheckpointCompatibility.
Proof. solve_decision. Defined.

Definition expected_platform (d : DriverKind) : HostPlatform :=
  match d with
  | NativeLinux | LibkrunKvm => Linux
  | LibkrunHvf => Macos
  | LibkrunWhpx => Windows
  end.

(** [CheckpointCompatibility::validate] and [new] *)
Definition compatibility_validate (c : CheckpointCompatibility) : Result () :=
  check! reject_if (bool_decide (cc_platform c ≠ expected_platform (cc_driver c)))
    (checkpoint_error "checkpoint driver {:?} requires platform {expected_platform:?}, not {:?}");
  check! reject_if
    (bool_decide (cc_driver c = NativeLinux) && bool_decide (cc_isolation c ≠ SharedHostKernel)
     || bool_decide (cc_driver c ≠ NativeLinux) && bool_decide (cc_isolation c = SharedHostKernel))
    (checkpoint_error "checkpoint driver {:?} is incompatible with isolation {:?}");
  check! validate_token (cc_architecture c) MAX_CHECKPOINT_ARCHITECTURE_BYTES;
  check! runtime_artifact_validate (cc_runtime_artifact c);
  checkpoint_format_validate (cc_format c).
Definition compatibility_new (driver : DriverKind) (isolation : IsolationClass)
    (platform : HostPlatform) (architecture : string) (runtime_artifact : RuntimeArtifact)
    (driver_build_digest : string) (format : CheckpointFormat) : Result CheckpointCompatibility :=
  let c := mkCompatibility driver isolation platform architecture runtime_artifact
             driver_build_digest format in
  check! compatibility_validate c; Ok c.

Record CheckpointReference : Type := mkCheckpointReference {
  cref_schema_version : string;
  cref_source : ContainerTarget;
  cref_source_config_digest : string;
  cref_source_attachments_digest : string;
  cref_compatibility : CheckpointCompatibility;
  cref_quiesce : CheckpointQuiesce;
  cref_artifact_digest : string;
  cref_artifact_size_bytes : Z
}.
#[global] Instance CheckpointReference_eq_dec : EqDecision CheckpointReference.
Proof. solve_decision. Defined.

Definition exact_record_target (record : ContainerRecord) : Result ContainerTarget :=
  check! reject_if (bool_decide (cr_generation record = 0))
    (checkpoint_error "checkpoint container generation must be greater than zero");
  try! id := map_err
    (λ _, checkpoint_error "checkpoint container state has an invalid ID: {}")
    (validate_identifier (st_id (cr_state record))) in
  Ok (target_exact id (cr_generation record)).

Definition require_paused_running (record : ContainerRecord) : Result () :=
  reject_if (bool_decide (st_status (cr_state record) ≠ Running) || negb (record_is_paused record))
    (checkpoint_error "{label} must be a paused running container generation").

Definition require_exact_target (target : ContainerTarget) : Result () :=
  try! generation := ok_or
    (checkpoint_error "{label} requires an exact generation") (ct_generation target) in
  reject_if (bool_decide (generation = 0))
    (checkpoint_error "{label} generation must be greater than zero").

(** [CheckpointReference::validate] and [new] *)
Definition reference_validate (r : CheckpointReference) : Result () :=
  check! reject_if (bool_decide (cref_schema_version r ≠ CHECKPOINT_REFERENCE_SCHEMA_V1))
    (checkpoint_error "unsupported checkpoint reference schema {:?}");
  check! require_exact_target (cref_source r);
  check! compatibility_validate (cref_compatibility r);
  reject_if (bool_decide (cref_artifact_size_bytes r = 0))
    (checkpoint_error "checkpoint artifact size must be greater than zero").
Definition reference_new (source : ContainerRecord) (compatibility : CheckpointCompatibility)
    (artifact_digest : string) (artifact_size_bytes : Z) : Result CheckpointReference :=
  check! require_paused_running source;
  check! reject_if (bool_decide (cr_driver source ≠ cc_driver compatibility)
                    || bool_decide (cr_isolation source ≠ cc_isolation compatibility))
    (checkpoint_error "checkpoint compatibility does not match the paused source record");
  try! target := exact_record_target source in
  try! config_digest := checkpoint_digest_new (cr_config_digest source) in
  try! attachments := ok_or
    (checkpoint_error "checkpoint source has no attachment-manifest digest")
    (cr_attachments_digest source) in
  try! attachments_digest := checkpoint_digest_new attachments in
  let r := mkCheckpointReference CHECKPOINT_REFERENCE_SCHEMA_V1 target config_digest
    attachments_digest compatibility QuiescePaused artifact_digest artifact_size_bytes in
  check! reference_validate r; Ok r.

(** ** checkpoint/request.rs, checkpoint/response.rs *)

Record CheckpointRequest : Type := mkCheckpointRequest {
  ckr_context : OperationContext;
  ckr_target : ContainerTarget;
  ckr_artifact_path : string;
  ckr_quiesce : CheckpointQuiesce;
  ckr_legacy_leave_running : option bool
}.
#[global] Instance CheckpointRequest_eq_dec : EqDecision CheckpointRequest.
Proof. solve_decision. Defined.

(** [CheckpointRequest::validate_contract], also its [validate], and [new] *)
Definition checkpoint_request_validate (r : CheckpointRequest) : Result () :=
  check! require_exact_target (ckr_target r);
  reject_if (bool_decide (is_Some (ckr_legacy_leave_running r)))
    (checkpoint_error "legacy checkpoint leave_running semantics are unsupported; protocol v8 requires paused quiescence").
Definition checkpoint_request_new (context : OperationContext) (target : ContainerTarget)
    (artifact_path : string) : Result CheckpointRequest :=
  let r := mkCheckpointRequest context target artifact_path QuiescePaused None in
  check! checkpoint_request_validate r; Ok r.

Record RestoreRequest : Type := mkRestoreRequest {
  rr_context : OperationContext;
  rr_id : string;
  rr_bundle : OciBundle;
  rr_artifact_path : string;
  rr_isolation : IsolationRequest;
  rr_attachments : CreateAttachments;
  rr_reference_field : option CheckpointReference
}.
#[global] Instance RestoreRequest_eq_dec : EqDecision RestoreRequest.
Proof. solve_decision. Defined.

(** [RestoreRequest::reference] *)
Definition restore_reference (r : RestoreRequest) : Result CheckpointReference :=
  ok_or (checkpoint_error "restore request has no immutable checkpoint reference")
    (rr_reference_field r).

Definition validate_checkpoint_source (source : ContainerRecord) (reference : CheckpointReference)
    : Result () :=
  check! reference_validate reference;
  check! require_paused_running source;
  try! target := exact_record_target source in
  reject_if
    (bool_decide (target ≠ cref_source reference)
     || bool_decide (cr_config_digest source ≠ cref_source_config_digest reference)
     || bool_decide (cr_attachments_digest source ≠ Some (cref_source_attachments_digest reference))
     || bool_decide (cr_driver source ≠ cc_driver (cref_compatibility reference))
     || bool_decide (cr_isolation source ≠ cc_isolation (cref_compatibility reference)))
    (checkpoint_error "checkpoint reference does not match its exact paused source record").

(** [Option<Generation>] comparison: [None] is the smallest. *)
Definition generation_option_le (a b : option Z) : bool :=
  match a, b with
  | None, _ => true
  | Some _, None => false
  | Some x, Some y => x <=? y
  end.

Definition validate_restored_record (restored : ContainerRecord) (reference : CheckpointReference)
    : Result () :=
  check! reference_validate reference;
  check! require_paused_running restored;
  try! target := exact_record_target restored in
  check! reject_if
    (bool_decide (ct_id target = ct_id (cref_source reference))
     && generation_option_le (ct_generation target) (ct_generation (cref_source reference)))
    (checkpoint_error "checkpoint restore must create a generation newer than its same-ID source");
  try! attachments := ok_or
    (checkpoint_error "checkpoint restore result has no attachment-manifest digest")
    (cr_attachments_digest restored) in
  try! _digest := checkpoint_digest_new attachments in
  reject_if
    (bool_decide (cr_config_digest restored ≠ cref_source_config_digest reference)
     || bool_decide (cr_driver restored ≠ cc_driver (cref_compatibility reference))
     || bool_decide (cr_isolation restored ≠ cc_isolation (cref_compatibility reference)))
    (checkpoint_error "restored record does not match immutable checkpoint compatibility evidence").

Record CheckpointResponse : Type := mkCheckpointResponse {
  ckresp_source : ContainerRecord;
  ckresp_reference : CheckpointReference
}.
#[global] Instance CheckpointResponse_eq_dec : EqDecision CheckpointResponse.
Proof. solve_decision. Defined.

(** [CheckpointResponse::new] and [validate_for_request] *)
Definition checkpoint_response_new (source : ContainerRecord) (reference : CheckpointReference)
    : Result CheckpointResponse :=
  check! validate_checkpoint_source source reference;
  Ok (mkCheckpointResponse source reference).
Definition checkpoint_response_validate_for_request (r : CheckpointResponse)
    (request : CheckpointRequest) : Result () :=
  check! checkpoint_request_validate request;
  try! target := exact_record_target (ckresp_source r) in
  reject_if (bool_decide (target ≠ ckr_target request)
             || bool_decide (cref_quiesce (ckresp_reference r) ≠ ckr_quiesce request))
    (checkpoint_error "checkpoint response does not match the exact request target and quiescence").

Record RestoreResponse : Type := mkRestoreResponse {
  rresp_restored : ContainerRecord;
  rresp_reference : CheckpointReference
}.
#[global] Instance RestoreResponse_eq_dec : EqDecision RestoreResponse.
Proof. solve_decision. Defined.

(** [RestoreResponse::new] *)
Definition restore_response_new (restored : ContainerRecord) (reference : CheckpointReference)
    : Result RestoreResponse :=
  check! validate_restored_record restored reference;
  Ok (mkRestoreResponse restored reference).
End contracts.

(** * Laws of the checkpoint and TEE contracts

    Encoders and decoders of the contracts are inverse to each other, and the
    artifact paths that the constructor accepts are exactly the absolute paths
    of named components. *)

(** What the contracts rely on of the codecs: decoding inverts encoding, and
    the JSON text of a launch request is not empty. *)
Class ContractLaws `{CE : ContractEnv} : Prop := {
  decode_encode s : base64_decode (base64_encode s) = Some s;
  launch_json_inverse r s : launch_to_json r = Some s → launch_from_json s = Some r;
  launch_json_nonempty r : launch_to_json r ≠ Some ""
}.

Section codecs.
Context `{CE : ContractEnv} {CL : ContractLaws}.

(** TEE evidence round trip.  An evidence value is what the constructor makes of
    a media type and a payload exactly when it has that media type and
    validates, decoding to that payload: no other base64 text, size or digest
    is accepted for it. *)
Theorem evidence_roundtrip media data e :
  tee_evidence_new media data = Ok e ↔
  te_media_type e = media ∧ tee_evidence_validate e = Ok data.
Proof.
  split.
  - unfold tee_evidence_new. intros H. inv_ok. split; [done|].
    match goal with H : tee_evidence_validate _ = Ok ?d |- _ => enough (d = data) by congruence;
      unfold tee_evidence_validate in H; inv_ok end.
    simpl in *. rewrite decode_encode in *. congruence.
  - intros [Hm Hv]. unfold tee_evidence_new.
    assert (e = mkTeeEvidence media (base64_encode data) (tee_sha256_for_bytes data) (byte_len data)
      ∧ evidence_size_invalid data = false) as [He Hs].
    { unfold tee_evidence_validate in Hv. inv_ok. destruct e; simpl in *.
      repeat match goal with
      | H : _ || _ = false |- _ => apply orb_false_iff in H as [? ?]
      | H : bool_decide (_ ≠ _) = false |- _ => apply bool_decide_eq_false, dec_stable in H
      end. by subst. }
    rewrite Hs. simpl. by rewrite <- He, Hv.
Qed.

(** TEE launch annotations round trip.  Reading an annotation yields a launch
    request exactly when writing the request yields the annotation. *)
Theorem launch_annotation_roundtrip r s :
  from_annotation_value s = Ok r ↔ to_annotation_value r = Ok s.
Proof.
  split.
  - unfold from_annotation_value. intros H. inv_ok.
    match goal with H : bool_decide (_ ≠ _) = false |- _ =>
      apply bool_decide_eq_false, dec_stable in H end. congruence.
  - intros H. pose proof H as Hto. unfold to_annotation_value in H. inv_ok.
    unfold from_annotation_value.
    rewrite bool_decide_eq_false_2 by (intros ->; by eapply launch_json_nonempty).
    match goal with H : (_ <? _) = false |- _ => rewrite H end. simpl.
    erewrite launch_json_inverse by done. simpl.
    match goal with H : tee_launch_validate _ = Ok ?u |- _ => rewrite H end. simpl. rewrite Hto. simpl.
    by rewrite bool_decide_eq_false_2 by naive_solver.
Qed.
End codecs.

(** ** Artifact paths *)

Definition no_slash (s : string) : Prop := ¬ has_byte "/"%char s.

Lemma no_slash_cons c s : no_slash (String c s) ↔ c ≠ "/"%char ∧ no_slash s.
Proof.
  unfold no_slash, has_byte. simpl. case_bool_decide; simpl; [naive_solver|].
  destruct (all_bytes _ s); naive_solver.
Qed.

Lemma path_segments_app a s :
  no_slash a → path_segments (a +:+ String "/"%char s) = a :: path_segments s.
Proof.
  unfold path_segments. induction a as [|c a IH]; [done|]. rewrite no_slash_cons. intros [Hc Ha].
  simpl. rewrite bool_decide_eq_false_2 by done. by rewrite IH.
Qed.

Lemma path_segments_single a : no_slash a → path_segments a = [a].
Proof.
  unfold path_segments. induction a as [|c a IH]; [done|]. rewrite no_slash_cons. intros [Hc Ha].
  simpl. rewrite bool_decide_eq_false_2 by done. by rewrite IH.
Qed.

Lemma path_segments_concat segs :
  segs ≠ [] → Forall no_slash segs → path_segments (String.concat "/" segs) = segs.
Proof.
  intros Hne H. induction H as [|a segs Ha H IH]; [done|].
  destruct segs as [|b segs]; [by apply path_segments_single|].
  change (String.concat "/" (a :: b :: segs)) with (a +:+ String "/"%char (String.concat "/" (b :: segs))).
  rewrite path_segments_app by done. by rewrite IH.
Qed.

Lemma path_segments_no_slash s : Forall no_slash (path_segments s).
Proof.
  unfold path_segments. induction s as [|c s IH]; simpl; [by repeat constructor|].
  case_bool_decide; [by constructor|].
  destruct (split_on _ s) as [|a segs]; [constructor; [by rewrite no_slash_cons|done]|].
  inversion IH; subst. constructor; [by rewrite no_slash_cons|done].
Qed.

(** The absolute paths of named components. *)
Definition absolute_path (segs : list string) : string := "/" +:+ String.concat "/" segs.
Definition named (s : string) : Prop := s ≠ "" ∧ s ≠ "." ∧ s ≠ "..".

Lemma path_components_file_path segs :
  segs ≠ [] → Forall no_slash segs → Forall named segs → path_components (absolute_path segs) = segs.
Proof.
  intros Hne Hs Hn. unfold path_components, absolute_path.
  change ("/" +:+ String.concat "/" segs) with (String "/"%char (String.concat "/" segs)).
  change (path_segments (String "/"%char ?s)) with ("" :: path_segments s).
  rewrite path_segments_concat by done. rewrite filter_cons_False by naive_solver.
  clear Hne Hs. induction Hn as [|s segs [? [? ?]] Hn IH]; [done|].
  rewrite filter_cons_True by done. by rewrite IH.
Qed.

(** Artifact paths.  The constructor accepts exactly the absolute paths of one
    or more components, none of them empty, [.] or [..] or containing a
    separator, without NUL and of at most 4096 bytes: an accepted path names one
    file, has a single spelling, and cannot climb out of its directory. *)
Theorem artifact_path_spec path :
  validate_artifact_path path = Ok () ↔
  ∃ segs, path = absolute_path segs ∧ segs ≠ [] ∧ Forall no_slash segs ∧ Forall named segs ∧
    byte_len path ≤ MAX_CHECKPOINT_ARTIFACT_PATH_BYTES ∧ contains_nul path = false.
Proof.
  unfold validate_artifact_path. split.
  - intros H. inv_ok.
    repeat match goal with
    | H : _ || _ = false |- _ => apply orb_false_iff in H as [? ?]
    | H : bool_decide _ = false |- _ => apply bool_decide_eq_false in H
    end.
    match goal with H : ¬ (path_normalized path ≠ path) |- _ => apply dec_stable in H as Hp end.
    exists (path_components path). split; [done|]. unfold path_has_no_file_name in *.
    split; [intros Hc; by rewrite Hc in *|]. split; [|split; [|split; [lia|done]]].
    + apply Forall_forall. intros s [_ Hs]%list_elem_of_filter.
      pose proof (path_segments_no_slash path) as Hall. rewrite Forall_forall in Hall.
      by apply Hall.
    + apply Forall_forall. intros s Hs. pose proof Hs as [[? ?] _]%list_elem_of_filter.
      repeat split; [done..|]. intros ->.
      match goal with H : existsb _ _ = false |- _ => apply not_true_iff_false in H; apply H end.
      apply existsb_exists. exists "..". split; [by apply list_elem_of_In|by apply bool_decide_eq_true].
  - intros (segs & -> & Hne & Hs & Hn & Hlen & Hnul).
    assert (starts_with "/" (absolute_path segs) = true) as -> by (unfold starts_with, absolute_path; by destruct (String.concat "/" segs)).
    rewrite bool_decide_eq_false_2 by done. rewrite Hnul.
    replace (_ <? _) with false by (symmetry; apply Z.ltb_ge; lia). simpl.
    unfold path_normalized, path_has_no_file_name. rewrite path_components_file_path by done.
    rewrite bool_decide_eq_false_2 by (intros []; done). simpl.
    destruct (last segs) as [s|] eqn:Hl; [|by apply last_None in Hl].
    rewrite Forall_forall in Hn. destruct (Hn s) as (_ & _ & Hs'); [by apply last_Some_elem_of|].
    rewrite bool_decide_eq_false_2 by done. simpl.
    destruct (existsb _ segs) eqn:He; [|done].
    apply existsb_exists in He as (s' & Hin%list_elem_of_In & ->%bool_decide_eq_true).
    by apply Hn in Hin as (_ & _ & []).
Qed.
