(* ===== verification/Capabilities.v ===== *)
(** * Attachment capabilities and the capability catalog (crates/sdk/src/attachment.rs,
      crates/sdk/src/extension.rs)

    What one driver advertises, how inventories are merged and intersected, the
    versioned catalog of all drivers, and the negotiation of a driver from it. *)

From stdpp Require Import base sets gmap strings list.
From S2P Require Import Prelude Collections Sdk Identifiers Lifecycle OciState Contracts.
From Stdlib Require Import Ascii.

Local Open Scope string_scope.
Local Open Scope Z_scope.

(** ** attachment.rs: [AttachmentCapabilities] *)

Definition ATTACHMENT_SCHEMA_V1 : string := "a3s.oci.attachments.v1".
Definition ATTACHMENT_SCHEMA_V2 : string := "a3s.oci.attachments.v2".
Definition ATTACHMENT_SCHEMA_V3 : string := "a3s.oci.attachments.v3".
Definition ATTACHMENT_SCHEMA_V4 : string := "a3s.oci.attachments.v4".
Definition MAX_RUNTIME_EXTENSIONS : nat := 64.
Definition MAX_ATTACHMENT_SCHEMAS : nat := 16.

Definition invalid_attachment (msg : string) : Error :=
  for_operation (error_new InvalidArgument msg) "validate-attachments".

(** A [BTreeMap<String, Vec<u16>>] is its entries in key order. *)
Record AttachmentCapabilities : Type := mkCapabilities {
  ac_schemas : list string;
  ac_extensions : list (string * list Z)
}.
#[global] Instance AttachmentCapabilities_eq_dec : EqDecision AttachmentCapabilities.
Proof. solve_decision. Defined.

Definition base_v1 : AttachmentCapabilities := mkCapabilities [ATTACHMENT_SCHEMA_V1] [].
Definition base_v2 : AttachmentCapabilities :=
  mkCapabilities [ATTACHMENT_SCHEMA_V1; ATTACHMENT_SCHEMA_V2] [].
Definition base_v3 : AttachmentCapabilities :=
  mkCapabilities [ATTACHMENT_SCHEMA_V1; ATTACHMENT_SCHEMA_V2; ATTACHMENT_SCHEMA_V3] [].
Definition base_v4 : AttachmentCapabilities :=
  mkCapabilities
    [ATTACHMENT_SCHEMA_V1; ATTACHMENT_SCHEMA_V2; ATTACHMENT_SCHEMA_V3; ATTACHMENT_SCHEMA_V4] [].

Definition extension_label_byte (c : ascii) : bool :=
  is_ascii_lower c || is_ascii_digit c || bool_decide (c = "-"%char).
Definition first_byte (s : string) : option ascii :=
  match s with EmptyString => None | String c _ => Some c end.
Definition valid_extension_label (label : string) : bool :=
  negb (bool_decide (label = "")) && (byte_len label <=? 63)
  && all_bytes extension_label_byte label
  && from_option is_ascii_alphanumeric false (first_byte label)
  && from_option is_ascii_alphanumeric false (last_byte label).

Definition validate_extension_name (name : string) : Result () :=
  let valid := (3 <=? byte_len name) && (byte_len name <=? 253)
               && negb (all_bytes (λ c, negb (bool_decide (c = "."%char))) name)
               && forallb valid_extension_label (split_on "." name) in
  if valid then Ok ()
  else Err (invalid_attachment "runtime extension name must be a lowercase reverse-DNS name: {name:?}").

(** [versions.sort_unstable(); versions.dedup()] leaves the distinct versions
    in increasing order, as a set does. *)
Definition sort_dedup (versions : list Z) : list Z := btree_collect versions.

Definition with_extension (c : AttachmentCapabilities) (name : string) (versions : list Z)
    : Result AttachmentCapabilities :=
  check! validate_extension_name name;
  let versions := sort_dedup versions in
  check! reject_if (bool_decide (versions = []) || bool_decide (head versions = Some 0))
    (invalid_attachment "runtime extension capability {name} must advertise positive versions");
  check! reject_if (bool_decide (is_Some (btree_get name (ac_extensions c))))
    (invalid_attachment "runtime extension capability {name} is duplicated");
  Ok (mkCapabilities (ac_schemas c) (btree_set name versions (ac_extensions c))).

(** [AttachmentCapabilities::merged] *)
Definition merge_schemas (mine other : list string) : list string :=
  sort_by_key id (foldl (λ acc s, if bool_decide (s ∈ acc) then acc else (acc ++ [s])%list) mine other).
Definition merge_extensions (mine other : list (string * list Z)) : list (string * list Z) :=
  foldl (λ acc e, btree_set e.1 (sort_dedup (default [] (btree_get e.1 acc) ++ e.2)%list) acc)
    mine other.
Definition merged (self other : AttachmentCapabilities) : AttachmentCapabilities :=
  mkCapabilities (merge_schemas (ac_schemas self) (ac_schemas other))
    (merge_extensions (ac_extensions self) (ac_extensions other)).

(** [AttachmentCapabilities::common_with] *)
Definition common_with (self other : AttachmentCapabilities) : AttachmentCapabilities :=
  mkCapabilities
    (filter (λ s, binary_search s (ac_schemas other) = true) (ac_schemas self))
    (omap (λ e,
       match btree_get e.1 (ac_extensions other) with
       | None => None
       | Some other_versions =>
           let versions := filter (λ v, binary_search v other_versions = true) e.2 in
           if bool_decide (versions = []) then None else Some (e.1, versions)
       end) (ac_extensions self)).

Definition versions_canonical (versions : list Z) : bool :=
  negb (bool_decide (versions = [])) && negb (bool_decide (head versions = Some 0))
  && strictly_increasing versions.

Fixpoint validate_extensions (extensions : list (string * list Z)) : Result () :=
  match extensions with
  | [] => Ok ()
  | (name, versions) :: rest =>
      check! validate_extension_name name;
      check! reject_if (negb (versions_canonical versions))
        (invalid_attachment "runtime extension capability {name} must advertise canonical positive versions");
      validate_extensions rest
  end.

(** [AttachmentCapabilities::validate] *)
Definition capabilities_validate (c : AttachmentCapabilities) : Result () :=
  check! reject_if
    (bool_decide (ac_schemas c = []) || Nat.ltb MAX_ATTACHMENT_SCHEMAS (length (ac_schemas c))
     || existsb (λ s, bool_decide (s = "") || (128 <? byte_len s)) (ac_schemas c)
     || negb (strictly_increasing (ac_schemas c)))
    (invalid_attachment "attachment capabilities must advertise between 1 and {MAX_ATTACHMENT_SCHEMAS} canonical schemas");
  check! reject_if (Nat.ltb MAX_RUNTIME_EXTENSIONS (length (ac_extensions c)))
    (invalid_attachment "attachment capabilities exceed {MAX_RUNTIME_EXTENSIONS} runtime extensions");
  validate_extensions (ac_extensions c).

Definition supports_schema (c : AttachmentCapabilities) (schema : string) : bool :=
  existsb (λ candidate, bool_decide (candidate = schema)) (ac_schemas c).
Definition supports_extension (c : AttachmentCapabilities) (name : string) (version : Z) : bool :=
  from_option (binary_search version) false (btree_get name (ac_extensions c)).
Definition extension_versions (c : AttachmentCapabilities) (name : string) : option (list Z) :=
  btree_get name (ac_extensions c).

(** [RuntimeExtensionAttachment]: what [require] reads of a declared extension. *)
Record RuntimeExtensionAttachment : Type := mkRuntimeExtension {
  ext_name : string;
  ext_version : Z;
  ext_required : bool
}.

(** [AttachmentCapabilities::require], of a manifest's schema and extensions *)
Definition capabilities_require (c : AttachmentCapabilities) (schema : string)
    (extensions : list RuntimeExtensionAttachment) : Result () :=
  let unsupported msg := for_operation (error_new Unsupported msg) "create" in
  check! reject_if (negb (supports_schema c schema))
    (unsupported "runtime does not support attachment schema {}");
  reject_if
    (existsb (λ e, ext_required e && negb (supports_extension c (ext_name e) (ext_version e)))
       extensions)
    (unsupported "runtime does not support required extension {} version {}").

(** ** extension.rs: the catalog *)

Inductive RuntimeOperation : Type :=
  | OpFeatures | OpCreate | OpState | OpStart | OpKill | OpDelete | OpExec | OpWait | OpList
  | OpPause | OpResume | OpUpdate | OpProcesses | OpStats | OpEvents | OpReadOutput
  | OpWriteStdin | OpCloseStdin | OpResize | OpSignalProcess | OpWaitProcess | OpFile
  | OpFilesystem | OpCheckpoint | OpRestore | OpAttest.
#[global] Instance RuntimeOperation_eq_dec : EqDecision RuntimeOperation.
Proof. solve_decision. Defined.

(** The derived order of the enum: the position of the variant. *)
Definition operation_index (o : RuntimeOperation) : Z :=
  match o with
  | OpFeatures => 0 | OpCreate => 1 | OpState => 2 | OpStart => 3 | OpKill => 4 | OpDelete => 5
  | OpExec => 6 | OpWait => 7 | OpList => 8 | OpPause => 9 | OpResume => 10 | OpUpdate => 11
  | OpProcesses => 12 | OpStats => 13 | OpEvents => 14 | OpReadOutput => 15 | OpWriteStdin => 16
  | OpCloseStdin => 17 | OpResize => 18 | OpSignalProcess => 19 | OpWaitProcess => 20
  | OpFile => 21 | OpFilesystem => 22 | OpCheckpoint => 23 | OpRestore => 24 | OpAttest => 25
  end.
Lemma operation_index_inj a b : operation_index a = operation_index b → a = b.
Proof. by destruct a, b. Qed.
#[global] Instance Ord_operation : Ord RuntimeOperation := Ord_via operation_index operation_index_inj.

Definition driver_index (d : DriverKind) : Z :=
  match d with NativeLinux => 0 | LibkrunKvm => 1 | LibkrunHvf => 2 | LibkrunWhpx => 3 end.
Lemma driver_index_inj a b : driver_index a = driver_index b → a = b.
Proof. by destruct a, b. Qed.
#[global] Instance Ord_driver : Ord DriverKind := Ord_via driver_index driver_index_inj.

Definition isolation_key (i : IsolationClass) : Z :=
  match i with DedicatedVm => 0 | SharedGuestKernel => 1 | SharedHostKernel => 2 end.
Lemma isolation_key_inj a b : isolation_key a = isolation_key b → a = b.
Proof. by destruct a, b. Qed.

Definition RUNTIME_EXTENSIONS_SCHEMA_V1 : string := "a3s.oci.extensions.v1".
Definition RUNTIME_OPERATION_CONTRACT_V1 : Z := 1.
Definition MAX_DRIVER_CAPABILITIES : nat := 16.
Definition MAX_OPERATION_VERSIONS : nat := 16.
Definition MAX_NEGOTIATED_OPERATIONS : nat := 64.
Definition MAX_NEGOTIATED_ATTACHMENT_EXTENSIONS : nat := 64.
Definition MAX_ATTACHMENT_SCHEMA_BYTES : Z := 128.

Definition negotiation_unsupported (msg : string) : Error :=
  for_operation (error_new Unsupported msg) "negotiate-runtime".

Record RuntimeOperationCapability : Type := mkOperationCapability {
  roc_operation : RuntimeOperation;
  roc_versions : list Z
}.

(** [RuntimeOperationCapability::new], [v1], [supports] and [validate] *)
Definition operation_capability_new (operation : RuntimeOperation) (versions : list Z)
    : Result RuntimeOperationCapability :=
  let versions := sort_dedup versions in
  check! reject_if (bool_decide (versions = []) || bool_decide (head versions = Some 0)
                    || Nat.ltb MAX_OPERATION_VERSIONS (length versions))
    (negotiation_input_error "runtime operation {operation:?} must advertise between 1 and {MAX_OPERATION_VERSIONS} positive versions");
  Ok (mkOperationCapability operation versions).
Definition operation_capability_v1 (operation : RuntimeOperation) : RuntimeOperationCapability :=
  mkOperationCapability operation [RUNTIME_OPERATION_CONTRACT_V1].
Definition capability_supports (c : RuntimeOperationCapability) (version : Z) : bool :=
  binary_search version (roc_versions c).
Definition operation_capability_validate (c : RuntimeOperationCapability) : Result () :=
  reject_if (Nat.ltb MAX_OPERATION_VERSIONS (length (roc_versions c))
             || negb (versions_canonical (roc_versions c)))
    (negotiation_input_error "runtime operation {:?} has a non-canonical version inventory").

Record RuntimeDriverCapabilities : Type := mkDriverCapabilities {
  rdc_driver : DriverKind;
  rdc_isolation_classes : list IsolationClass;
  rdc_operations : list RuntimeOperationCapability;
  rdc_attachments : AttachmentCapabilities
}.

Fixpoint validate_operations (operations : list RuntimeOperationCapability) : Result () :=
  match operations with
  | [] => Ok ()
  | c :: rest => check! operation_capability_validate c; validate_operations rest
  end.

(** [RuntimeDriverCapabilities::validate], [new] and [supports_operation] *)
Definition driver_capabilities_validate (c : RuntimeDriverCapabilities) : Result () :=
  check! reject_if
    (bool_decide (rdc_isolation_classes c = [])
     || negb (strictly_increasing_by isolation_key (rdc_isolation_classes c)))
    (negotiation_input_error "runtime driver {:?} must own a non-empty, unique isolation inventory");
  check! reject_if
    (match rdc_operations c with [] => true | _ => false end
     || negb (strictly_increasing_by roc_operation (rdc_operations c)))
    (negotiation_input_error "runtime driver {:?} must advertise a non-empty, unique operation inventory");
  check! validate_operations (rdc_operations c);
  map_err (λ _, negotiation_input_error "{error.message}") (capabilities_validate (rdc_attachments c)).
Definition driver_capabilities_new (driver : DriverKind) (isolation_classes : list IsolationClass)
    (operations : list RuntimeOperationCapability) (attachments : AttachmentCapabilities)
    : Result RuntimeDriverCapabilities :=
  let c := mkDriverCapabilities driver (sort_by_key isolation_key isolation_classes)
             (sort_by_key roc_operation operations) attachments in
  check! driver_capabilities_validate c; Ok c.
Definition driver_supports_operation (c : RuntimeDriverCapabilities) (operation : RuntimeOperation)
    (version : Z) : bool :=
  match binary_search_by_key roc_operation operation (rdc_operations c) with
  | Some index =>
      from_option (λ capability, capability_supports capability version) false
        (rdc_operations c !! index)
  | None => false
  end.

Record RuntimeExtensions : Type := mkRuntimeExtensions {
  rx_schema_version : string;
  rx_artifact : option RuntimeArtifact;
  rx_drivers : list RuntimeDriverCapabilities
}.

(** The owners loop of [RuntimeExtensions::validate]: seen drivers and
    isolation classes. *)
Definition claim_isolation (owners : list IsolationClass) (isolation : IsolationClass)
    : Result (list IsolationClass) :=
  check! reject_if (bool_decide (isolation ∈ owners))
    (negotiation_input_error "runtime isolation {isolation:?} is advertised by both {owner:?} and {:?}");
  Ok (isolation :: owners).
Fixpoint validate_drivers (seen : list DriverKind) (owners : list IsolationClass)
    (drivers : list RuntimeDriverCapabilities) : Result () :=
  match drivers with
  | [] => Ok ()
  | d :: rest =>
      check! driver_capabilities_validate d;
      check! reject_if (bool_decide (rdc_driver d ∈ seen))
        (negotiation_input_error "runtime extension catalog duplicates driver {:?}");
      try! owners := rfold claim_isolation owners (rdc_isolation_classes d) in
      validate_drivers (rdc_driver d :: seen) owners rest
  end.

Section catalog.
Context `{CE : ContractEnv}.

Definition extensions_validate (x : RuntimeExtensions) : Result () :=
  if bool_decide (rx_schema_version x = "") && bool_decide (rx_artifact x = None)
     && match rx_drivers x with [] => true | _ => false end
  then Ok ()
  else
    check! reject_if (bool_decide (rx_schema_version x ≠ RUNTIME_EXTENSIONS_SCHEMA_V1))
      (negotiation_input_error "unsupported runtime extension catalog schema {:?}");
    try! artifact := ok_or (negotiation_input_error "runtime extension catalog has no artifact")
      (rx_artifact x) in
    check! runtime_artifact_validate artifact;
    check! reject_if (Nat.ltb MAX_DRIVER_CAPABILITIES (length (rx_drivers x)))
      (negotiation_input_error "runtime extension catalog exceeds {MAX_DRIVER_CAPABILITIES} drivers");
    check! reject_if (negb (strictly_increasing_by rdc_driver (rx_drivers x)))
      (negotiation_input_error "runtime extension catalog driver inventory is not canonical");
    validate_drivers [] [] (rx_drivers x).

Definition extensions_new (artifact : RuntimeArtifact) (drivers : list RuntimeDriverCapabilities)
    : Result RuntimeExtensions :=
  check! runtime_artifact_validate artifact;
  let catalog := mkRuntimeExtensions RUNTIME_EXTENSIONS_SCHEMA_V1 (Some artifact)
                   (sort_by_key rdc_driver drivers) in
  check! extensions_validate catalog; Ok catalog.

(** ** extension.rs: negotiation *)

Record RuntimeNegotiationRequest : Type := mkNegotiation {
  nr_isolation : IsolationClass;
  nr_operations : list (RuntimeOperation * Z);
  nr_attachment_schema : option string;
  nr_attachment_extensions : list (string * Z)
}.

Fixpoint validate_required_extensions (extensions : list (string * Z)) : Result () :=
  match extensions with
  | [] => Ok ()
  | (name, version) :: rest =>
      check! map_err (λ _, negotiation_input_error "{error.message}") (validate_extension_name name);
      check! reject_if (bool_decide (version = 0))
        (negotiation_input_error "attachment extension {name} uses reserved version zero");
      validate_required_extensions rest
  end.

Definition negotiation_validate (r : RuntimeNegotiationRequest) : Result () :=
  check! reject_if (Nat.ltb MAX_NEGOTIATED_OPERATIONS (length (nr_operations r)))
    (negotiation_input_error "runtime negotiation exceeds {MAX_NEGOTIATED_OPERATIONS} operation requirements");
  check! reject_if
    (Nat.ltb MAX_NEGOTIATED_ATTACHMENT_EXTENSIONS (length (nr_attachment_extensions r)))
    (negotiation_input_error "runtime negotiation exceeds {MAX_NEGOTIATED_ATTACHMENT_EXTENSIONS} attachment extension requirements");
  check! reject_if (existsb (λ e, bool_decide (e.2 = 0)) (nr_operations r))
    (negotiation_input_error "runtime negotiation contains operation version zero");
  check! match nr_attachment_schema r with
         | Some schema => validate_bounded_text schema MAX_ATTACHMENT_SCHEMA_BYTES
         | None => Ok ()
         end;
  validate_required_extensions (nr_attachment_extensions r).

(** [RuntimeNegotiationRequest::new], [with_operation],
    [with_attachment_schema] and [with_attachment_extension] *)
Definition negotiation_new (isolation : IsolationClass) : RuntimeNegotiationRequest :=
  mkNegotiation isolation [] None [].
Definition with_operation (r : RuntimeNegotiationRequest) (operation : RuntimeOperation)
    (version : Z) : Result RuntimeNegotiationRequest :=
  check! reject_if (bool_decide (version = 0))
    (negotiation_input_error "runtime operation {operation:?} uses reserved version zero");
  check! reject_if (bool_decide (is_Some (btree_get operation (nr_operations r))))
    (negotiation_input_error "runtime operation requirement {operation:?} is duplicated");
  let r := mkNegotiation (nr_isolation r) (btree_set operation version (nr_operations r))
             (nr_attachment_schema r) (nr_attachment_extensions r) in
  check! negotiation_validate r; Ok r.
Definition with_attachment_schema (r : RuntimeNegotiationRequest) (schema : string)
    : Result RuntimeNegotiationRequest :=
  check! reject_if (bool_decide (is_Some (nr_attachment_schema r)))
    (negotiation_input_error "attachment schema requirement is duplicated");
  let r := mkNegotiation (nr_isolation r) (nr_operations r) (Some schema)
             (nr_attachment_extensions r) in
  check! negotiation_validate r; Ok r.
Definition with_attachment_extension (r : RuntimeNegotiationRequest) (name : string) (version : Z)
    : Result RuntimeNegotiationRequest :=
  check! map_err (λ _, negotiation_input_error "{error.message}") (validate_extension_name name);
  check! reject_if (bool_decide (version = 0))
    (negotiation_input_error "attachment extension {name} uses reserved version zero");
  check! reject_if (bool_decide (is_Some (btree_get name (nr_attachment_extensions r))))
    (negotiation_input_error "attachment extension requirement {name} is duplicated");
  let r := mkNegotiation (nr_isolation r) (nr_operations r) (nr_attachment_schema r)
             (btree_set name version (nr_attachment_extensions r)) in
  check! negotiation_validate r; Ok r.

(** [RuntimeExtensions::negotiate] *)
Definition negotiate (x : RuntimeExtensions) (r : RuntimeNegotiationRequest)
    : Result RuntimeDriverCapabilities :=
  check! extensions_validate x;
  check! negotiation_validate r;
  check! reject_if (bool_decide (rx_schema_version x ≠ RUNTIME_EXTENSIONS_SCHEMA_V1)
                    || bool_decide (rx_artifact x = None))
    (negotiation_unsupported "runtime peer did not advertise the v1 extension capability catalog");
  try! driver := ok_or (negotiation_unsupported "no advertised driver owns requested isolation {:?}")
    (find (λ d, bool_decide (nr_isolation r ∈ rdc_isolation_classes d)) (rx_drivers x)) in
  check! reject_if
    (existsb (λ e, negb (driver_supports_operation driver e.1 e.2)) (nr_operations r))
    (negotiation_unsupported "runtime driver {:?} does not advertise operation {operation:?} version {version}");
  check! match nr_attachment_schema r with
         | Some schema =>
             reject_if (negb (supports_schema (rdc_attachments driver) schema))
               (negotiation_unsupported "runtime driver {:?} does not advertise attachment schema {schema}")
         | None => Ok ()
         end;
  check! reject_if
    (existsb (λ e, negb (supports_extension (rdc_attachments driver) e.1 e.2))
       (nr_attachment_extensions r))
    (negotiation_unsupported "runtime driver {:?} does not advertise attachment extension {name} version {version}");
  Ok driver.
End catalog.

(** * Correctness of capability inventories and of negotiation

    Canonical inventories answer by binary search exactly what membership
    says; merging and intersecting keep them canonical; and negotiation finds
    a driver exactly when one meets every requirement. *)

(** ** Canonical inventories *)

(** What [validate] establishes, as a predicate: positive increasing versions
    under increasing well-formed names, beside increasing schemas. *)
Definition canonical_versions (versions : list Z) : Prop :=
  versions ≠ [] ∧ head versions ≠ Some 0 ∧ increasing versions.

Lemma versions_canonical_spec versions :
  versions_canonical versions = true ↔ canonical_versions versions.
Proof.
  unfold versions_canonical, canonical_versions.
  rewrite !andb_true_iff, !negb_true_iff, !bool_decide_eq_false, strictly_increasing_spec. tauto.
Qed.

Record canonical (c : AttachmentCapabilities) : Prop := {
  can_schemas : increasing (ac_schemas c);
  can_versions : ∀ name versions, (name, versions) ∈ ac_extensions c → canonical_versions versions;
  can_keys : map_increasing (ac_extensions c)
}.

Lemma validate_extensions_ok extensions :
  validate_extensions extensions = Ok () →
  ∀ name versions, (name, versions) ∈ extensions →
    validate_extension_name name = Ok () ∧ canonical_versions versions.
Proof.
  induction extensions as [|[n v] extensions IH]; simpl; [set_solver|].
  intros H. inv_ok. intros name versions [[= -> ->]|Hin]%elem_of_cons; [|by apply IH].
  split; [by match goal with H : validate_extension_name _ = Ok ?u |- _ => destruct u end|].
  apply versions_canonical_spec. by apply negb_false_iff.
Qed.

(** A validated inventory whose map is a map is canonical. *)
Lemma capabilities_validate_canonical c :
  map_increasing (ac_extensions c) → capabilities_validate c = Ok () → canonical c.
Proof.
  intros Hkeys H. unfold capabilities_validate in H. inv_ok.
  repeat match goal with H : _ || _ = false |- _ => apply orb_false_iff in H as [? ?] end.
  split; [|intros name versions Hin; by eapply validate_extensions_ok|done].
  apply strictly_increasing_spec. by apply negb_false_iff.
Qed.

Lemma supports_extension_spec c name version :
  canonical c →
  supports_extension c name version = true ↔
  ∃ versions, (name, versions) ∈ ac_extensions c ∧ version ∈ versions.
Proof.
  intros [_ Hv Hk]. unfold supports_extension.
  destruct (btree_get name (ac_extensions c)) as [versions|] eqn:Hg; simpl.
  - apply elem_of_btree_get in Hg; [|done]. rewrite binary_search_spec by (by eapply Hv).
    split; [by eauto|]. intros (versions' & Hin & ?).
    apply elem_of_btree_get in Hin, Hg; [|done..]. congruence.
  - split; [done|]. intros (versions & Hin%elem_of_btree_get & _); [|done]. congruence.
Qed.

Lemma supports_schema_spec c schema : supports_schema c schema = true ↔ schema ∈ ac_schemas c.
Proof.
  unfold supports_schema. rewrite existsb_exists. split.
  - by intros (s & Hs%list_elem_of_In & ->%bool_decide_eq_true).
  - intros Hs. exists schema. split; [by apply list_elem_of_In|by apply bool_decide_eq_true].
Qed.

(** ** Intersection *)

Lemma filter_head (P : Z → Prop) `{∀ x, Decision (P x)} l :
  increasing l → head l ≠ Some 0 → Forall (λ v, 0 ≤ v) l → head (filter P l) ≠ Some 0.
Proof.
  intros Hl Hh Hpos H0. destruct (filter P l) as [|v k] eqn:Hf; [done|]. injection H0 as ->.
  assert (0 ∈ l) as Hin by (eapply list_elem_of_filter; rewrite Hf; set_solver).
  destruct l as [|x l]; [set_solver|]. inversion_clear Hl as [|? ? _ Hx].
  inversion_clear Hpos as [|? ? Hx0 _]. apply elem_of_cons in Hin as [<-|Hin]; [done|].
  rewrite Forall_forall in Hx. specialize (Hx 0 Hin). unfold cmp in Hx. simpl in Hx.
  rewrite Z.compare_lt_iff in Hx. lia.
Qed.

(** The version numbers are [u16] values. *)
Definition versions_u16 (c : AttachmentCapabilities) : Prop :=
  ∀ name versions, (name, versions) ∈ ac_extensions c → Forall (λ v, 0 ≤ v) versions.

Lemma elem_of_common_extensions self other name versions :
  (name, versions) ∈ ac_extensions (common_with self other) ↔
  ∃ mine theirs, (name, mine) ∈ ac_extensions self ∧
    btree_get name (ac_extensions other) = Some theirs ∧
    versions = filter (λ v, binary_search v theirs = true) mine ∧ versions ≠ [].
Proof.
  unfold common_with. simpl. rewrite list_elem_of_omap. split.
  - intros ([n mine] & Hin & H). simpl in H.
    destruct (btree_get n (ac_extensions other)) as [theirs|] eqn:Hg; [|done].
    case_bool_decide; [done|]. injection H as <- <-. by exists mine, theirs.
  - intros (mine & theirs & Hin & Hg & -> & Hne). exists (name, mine). split; [done|]. simpl.
    rewrite Hg. by rewrite bool_decide_eq_false_2.
Qed.

Lemma common_with_canonical self other :
  canonical self → canonical other → versions_u16 self → canonical (common_with self other).
Proof.
  intros [Hs Hv Hk] [Hs' Hv' Hk'] Hu. split.
  - by apply increasing_filter.
  - intros name versions (mine & theirs & Hin & Hg & -> & Hne)%elem_of_common_extensions.
    destruct (Hv _ _ Hin) as (_ & Hh & Hi). split_and!; [done| |by apply increasing_filter].
    apply filter_head; [done|done|by eapply Hu].
  - unfold map_increasing, increasing in *. simpl. clear Hv Hu.
    induction (ac_extensions self) as [|[name mine] l IH]; [constructor|].
    csimpl in Hk. inversion_clear Hk as [|? ? Hl Hn]. specialize (IH Hl). csimpl.
    destruct (btree_get name (ac_extensions other)); [|done]. case_bool_decide; [done|]. csimpl.
    constructor; [done|]. apply Forall_forall.
    intros n ([n' v] & -> & ([n'' v''] & Hin & Hc)%list_elem_of_omap)%list_elem_of_fmap.
    simpl in Hc. destruct (btree_get n'' (ac_extensions other)); [|done]. case_bool_decide; [done|].
    injection Hc as <- <-. rewrite Forall_forall in Hn. apply Hn.
    by apply (list_elem_of_fmap_2 fst _ (n'', v'')).
Qed.

(** The intersection of two canonical inventories is canonical and supports
    exactly the schemas and the extension versions that both support. *)
Theorem common_with_spec self other :
  canonical self → canonical other → versions_u16 self →
  canonical (common_with self other) ∧
  (∀ schema, supports_schema (common_with self other) schema = true ↔
     supports_schema self schema = true ∧ supports_schema other schema = true) ∧
  (∀ name version, supports_extension (common_with self other) name version = true ↔
     supports_extension self name version = true ∧ supports_extension other name version = true).
Proof.
  intros Hself Hother Hu. pose proof (common_with_canonical _ _ Hself Hother Hu) as Hc.
  split_and!; [done| |].
  - intros schema. rewrite !supports_schema_spec. simpl. rewrite list_elem_of_filter.
    rewrite binary_search_spec by apply Hother. tauto.
  - intros name version. rewrite !supports_extension_spec by done. split.
    + intros (versions & (mine & theirs & Hin & Hg & -> & _)%elem_of_common_extensions & Hv).
      apply elem_of_btree_get in Hg; [|apply Hother].
      apply list_elem_of_filter in Hv as [Hb Hm].
      rewrite binary_search_spec in Hb by (by eapply (can_versions _ Hother)). by eauto 10.
    + intros [(mine & Hin & Hm) (theirs & Ht & Hv)].
      pose proof (can_versions _ Hother _ _ Ht) as (_ & _ & Hi).
      apply elem_of_btree_get in Ht; [|apply Hother].
      exists (filter (λ v, binary_search v theirs = true) mine).
      assert (version ∈ filter (λ v, binary_search v theirs = true) mine) as Hf
        by (apply list_elem_of_filter; by rewrite binary_search_spec).
      split; [|done]. apply elem_of_common_extensions. exists mine, theirs.
      split_and!; [done..|]. intros E. rewrite E in Hf. set_solver.
Qed.

(** ** The catalog *)

(** The driver capabilities that a catalog's [validate] accepts. *)
Lemma validate_operations_ok operations :
  validate_operations operations = Ok () →
  ∀ c, c ∈ operations → canonical_versions (roc_versions c).
Proof.
  induction operations as [|o operations IH]; simpl; [set_solver|]. intros H. inv_ok.
  match goal with H : operation_capability_validate _ = Ok _ |- _ =>
    apply reject_if_ok, orb_false_iff in H as [_ H%negb_false_iff] end.
  intros c [->|Hc]%elem_of_cons; [by apply versions_canonical_spec|by apply IH].
Qed.

(** The membership reading of an advertised operation. *)
Definition advertises (d : RuntimeDriverCapabilities) (operation : RuntimeOperation) (version : Z)
    : Prop :=
  ∃ c, c ∈ rdc_operations d ∧ roc_operation c = operation ∧ version ∈ roc_versions c.

Lemma driver_supports_operation_spec d operation version :
  driver_capabilities_validate d = Ok () →
  driver_supports_operation d operation version = true ↔ advertises d operation version.
Proof.
  unfold driver_capabilities_validate. intros H. inv_ok.
  repeat match goal with H : _ || _ = false |- _ => apply orb_false_iff in H as [? ?] end.
  match goal with H : negb (strictly_increasing_by roc_operation _) = false |- _ =>
    apply negb_false_iff, strictly_increasing_by_spec in H; rename H into Hinc end.
  match goal with H : validate_operations _ = Ok ?u |- _ => destruct u; rename H into Hops end.
  unfold driver_supports_operation, advertises, capability_supports.
  destruct (binary_search_by_key roc_operation operation (rdc_operations d)) as [i|] eqn:Hb.
  - apply binary_search_by_key_spec in Hb as (c & Hc & Ho); [|done]. rewrite Hc. simpl.
    pose proof (list_elem_of_lookup_2 _ _ _ Hc) as Hin.
    rewrite binary_search_spec by (by eapply validate_operations_ok).
    split; [by eauto|]. intros (c' & [j Hj]%list_elem_of_lookup & Ho' & Hv).
    assert (i = j) as ->; [|by simplify_eq].
    assert (binary_search_by_key roc_operation operation (rdc_operations d) = Some i) as Hsi
      by (apply binary_search_by_key_spec; [done|]; by exists c).
    assert (binary_search_by_key roc_operation operation (rdc_operations d) = Some j) as Hsj
      by (apply binary_search_by_key_spec; [done|]; by exists c').
    congruence.
  - split; [done|]. intros (c & [j Hj]%list_elem_of_lookup & Ho & _).
    assert (binary_search_by_key roc_operation operation (rdc_operations d) = Some j) as Hsj
      by (apply binary_search_by_key_spec; [done|]; by exists c).
    congruence.
Qed.

(** The isolation classes claimed by a list of drivers. *)
Lemma claim_isolation_ok owners classes owners' :
  rfold claim_isolation owners classes = Ok owners' →
  (∀ i, i ∈ owners' ↔ i ∈ owners ∨ i ∈ classes) ∧ (∀ i, i ∈ classes → i ∉ owners).
Proof.
  revert owners. induction classes as [|i classes IH]; intros owners; simpl.
  { intros [= ->]. set_solver. }
  unfold claim_isolation at 1. intros H. inv_ok.
  match goal with H : bool_decide _ = false |- _ => apply bool_decide_eq_false in H end.
  match goal with H : rfold _ _ _ = Ok _ |- _ => apply IH in H as [He Hd] end.
  split; [intros i'; rewrite He; set_solver|set_solver].
Qed.

Lemma validate_drivers_ok seen owners drivers :
  validate_drivers seen owners drivers = Ok () →
  (∀ d, d ∈ drivers → driver_capabilities_validate d = Ok () ∧
     ∀ i, i ∈ rdc_isolation_classes d → i ∉ owners) ∧
  (∀ d d' i, d ∈ drivers → d' ∈ drivers → i ∈ rdc_isolation_classes d →
     i ∈ rdc_isolation_classes d' → d = d').
Proof.
  revert seen owners. induction drivers as [|d drivers IH]; intros seen owners; simpl; [set_solver|].
  intros H. inv_ok.
  match goal with H : rfold claim_isolation _ _ = Ok _ |- _ => apply claim_isolation_ok in H as [He Hd] end.
  match goal with H : driver_capabilities_validate _ = Ok ?u |- _ => destruct u end.
  match goal with H : validate_drivers _ _ _ = Ok _ |- _ => apply IH in H as [Hall Huniq] end.
  assert (∀ d' i, d' ∈ drivers → i ∈ rdc_isolation_classes d → i ∉ rdc_isolation_classes d') as Hsep.
  { intros d' i Hd' Hi Hi'. destruct (Hall d' Hd') as [_ Ho]. apply (Ho i Hi'), He. by right. }
  split.
  - intros d' [->|Hd']%elem_of_cons; [done|]. destruct (Hall d' Hd') as [? Ho].
    split; [done|]. intros i Hi Hin. apply (Ho i Hi), He. by left.
  - intros d1 d2 i [->|Hd1]%elem_of_cons [->|Hd2]%elem_of_cons Hi1 Hi2; [done| | |by eapply Huniq].
    + by destruct (Hsep d2 i Hd2 Hi1).
    + by destruct (Hsep d1 i Hd1 Hi2).
Qed.

Lemma driver_canonical d :
  map_increasing (ac_extensions (rdc_attachments d)) → driver_capabilities_validate d = Ok () →
  canonical (rdc_attachments d).
Proof.
  intros Hwf Hv. apply capabilities_validate_canonical; [done|].
  unfold driver_capabilities_validate in Hv. inv_ok.
  by match goal with H : capabilities_validate _ = Ok ?u |- _ => destruct u end.
Qed.

Section negotiation.
Context `{CE : ContractEnv}.

(** Each inventory's map of extensions is a map. *)
Definition well_formed (x : RuntimeExtensions) : Prop :=
  ∀ d, d ∈ rx_drivers x → map_increasing (ac_extensions (rdc_attachments d)).

(** What a catalog that is not the empty legacy one guarantees. *)
Lemma extensions_validate_ok x :
  extensions_validate x = Ok () → rx_artifact x ≠ None →
  (∀ d, d ∈ rx_drivers x → driver_capabilities_validate d = Ok ()) ∧
  (∀ d d' i, d ∈ rx_drivers x → d' ∈ rx_drivers x → i ∈ rdc_isolation_classes d →
     i ∈ rdc_isolation_classes d' → d = d').
Proof.
  unfold extensions_validate. intros H Ha. rewrite (bool_decide_eq_false_2 (rx_artifact x = None)) in H
    by done. rewrite andb_false_r in H. simpl in H. inv_ok.
  match goal with H : validate_drivers _ _ _ = Ok _ |- _ => apply validate_drivers_ok in H as [Hv Hu] end.
  split; [|done]. intros d Hd. by apply Hv.
Qed.

Lemma find_spec {A} (f : A → bool) l a :
  find f l = Some a → a ∈ l ∧ f a = true.
Proof. intros [? ?]%find_some. split; [by apply list_elem_of_In|done]. Qed.

Lemma existsb_negb_false {A} (f : A → bool) l :
  existsb (λ e, negb (f e)) l = false ↔ ∀ e, e ∈ l → f e = true.
Proof.
  induction l as [|x l IH]; simpl; [set_solver|].
  rewrite orb_false_iff, negb_false_iff, IH. set_solver.
Qed.

(** Negotiation finds the driver.  On a valid catalog and a valid request,
    negotiation returns a driver exactly when it is the advertised one that owns
    the requested isolation, advertises every required operation version, the
    required attachment schema and every required extension version; in
    particular the choice is unique. *)
Theorem negotiate_spec x r d :
  well_formed x →
  negotiate x r = Ok d ↔
  extensions_validate x = Ok () ∧ negotiation_validate r = Ok () ∧
  rx_schema_version x = RUNTIME_EXTENSIONS_SCHEMA_V1 ∧ rx_artifact x ≠ None ∧
  d ∈ rx_drivers x ∧ nr_isolation r ∈ rdc_isolation_classes d ∧
  (∀ o v, (o, v) ∈ nr_operations r → advertises d o v) ∧
  (∀ s, nr_attachment_schema r = Some s → s ∈ ac_schemas (rdc_attachments d)) ∧
  (∀ n v, (n, v) ∈ nr_attachment_extensions r →
     ∃ vs, (n, vs) ∈ ac_extensions (rdc_attachments d) ∧ v ∈ vs).
Proof.
  intros Hwf. unfold negotiate. split.
  - intros H. inv_ok.
    repeat match goal with
    | u : unit |- _ => destruct u
    | H : _ || _ = false |- _ => apply orb_false_iff in H as [? ?]
    | H : bool_decide _ = false |- _ => apply bool_decide_eq_false in H
    | H : existsb (λ e, negb _) _ = false |- _ => rewrite existsb_negb_false in H
    end.
    match goal with H : find _ _ = Some _ |- _ => apply find_spec in H as [Hd Hi%bool_decide_eq_true] end.
    destruct (extensions_validate_ok x) as [Hv _]; [done..|].
    pose proof (driver_canonical d (Hwf d Hd) (Hv d Hd)) as Hcan.
    split_and!; try done.
    + by apply dec_stable.
    + intros o v Hov. rewrite <- driver_supports_operation_spec by (by apply Hv).
      match goal with H : ∀ e, e ∈ nr_operations r → _ |- _ => by apply (H (o, v)) end.
    + intros s Hs. rewrite Hs in *. apply supports_schema_spec.
      match goal with H : reject_if _ _ = Ok _ |- _ => by apply reject_if_ok, negb_false_iff in H end.
    + intros n v Hnv. rewrite <- supports_extension_spec by done.
      match goal with H : ∀ e, e ∈ nr_attachment_extensions r → _ |- _ => by apply (H (n, v)) end.
  - intros (Hx & Hr & Hs & Ha & Hd & Hi & Hops & Hschema & Hext).
    destruct (extensions_validate_ok x Hx Ha) as [Hv Hu].
    pose proof (driver_canonical d (Hwf d Hd) (Hv d Hd)) as Hcan.
    rewrite Hx, Hr. simpl. rewrite bool_decide_eq_false_2 by naive_solver.
    rewrite bool_decide_eq_false_2 by done. simpl.
    destruct (find _ (rx_drivers x)) as [d'|] eqn:Hf; cycle 1.
    { eapply find_none in Hf; [|by apply list_elem_of_In]. simpl in Hf.
      by rewrite bool_decide_eq_true_2 in Hf. }
    apply find_spec in Hf as [Hd' Hi'%bool_decide_eq_true].
    assert (d' = d) as -> by (by eapply Hu). simpl.
    rewrite (proj2 (existsb_negb_false _ _)); cycle 1.
    { intros [o v] Hov. apply driver_supports_operation_spec; [by apply Hv|by apply Hops]. }
    simpl. destruct (nr_attachment_schema r) as [s|]; simpl.
    + rewrite (proj2 (supports_schema_spec _ _)) by (by apply Hschema). simpl.
      rewrite (proj2 (existsb_negb_false _ _)); [done|].
      intros [n v] Hnv. apply supports_extension_spec; [done|]. by apply Hext.
    + rewrite (proj2 (existsb_negb_false _ _)); [done|].
      intros [n v] Hnv. apply supports_extension_spec; [done|]. by apply Hext.
Qed.
End negotiation.
