(* ===== verification/HostArtifact.v ===== *)
(** * Checkpoint artifacts at the host boundary (crates/runtime/src/service/artifact.rs)

    The host verifies a checkpoint file itself, through one handle opened
    without following links: kind, identity, size and SHA-256.  The operating
    system's file calls are parameters; the Unix branch is modelled. *)

From stdpp Require Import base strings list.
From S2P Require Import Prelude Sdk Identifiers Lifecycle OciState Contracts.
Local Open Scope string_scope.
Local Open Scope Z_scope.

(** [std::io::ErrorKind], the kinds that the host distinguishes *)
Inductive IoErrorKind : Type :=
  | IoNotFound | IoPermissionDenied | IoAlreadyExists | IoInterrupted | IoWouldBlock | IoTimedOut
  | IoOther.

(** [std::fs::Metadata] *)
Record FileMetadata : Type := mkMetadata {
  md_is_file : bool;
  md_is_symlink : bool;
  md_len : Z;
  md_dev : Z;
  md_ino : Z
}.

(** The file calls of the operating system, on the state of the world outside
    the runtime. *)
Class HostFiles : Type := {
  host_outside : Type;
  file_handle : Type;
  symlink_metadata : string → prog host_outside IoErrorKind FileMetadata;
  open_readonly_nofollow : string → prog host_outside IoErrorKind file_handle;
  handle_metadata : file_handle → prog host_outside IoErrorKind FileMetadata;
  (** [file.read(&mut buffer)]: the bytes read, none at the end of the file *)
  handle_read : file_handle → prog host_outside IoErrorKind string
}.

Definition checkpoint_artifact_contract_error (operation msg : string) : Error :=
  state_error FailedPrecondition operation msg.

Definition checkpoint_artifact_io_error (operation : string) (kind : IoErrorKind) : Error :=
  let code := match kind with
              | IoNotFound => NotFound
              | IoPermissionDenied => PermissionDenied
              | IoAlreadyExists => AlreadyExists
              | _ => Unavailable
              end in
  set_retryable (state_error code operation "failed to {action} {}: {error}")
    match kind with IoInterrupted | IoWouldBlock | IoTimedOut => true | _ => false end.

(** [is_plain_file] and [same_file_identity] of the Unix build *)
Definition is_plain_file (m : FileMetadata) : bool := md_is_file m && negb (md_is_symlink m).
Definition same_file_identity (a b : FileMetadata) : bool :=
  bool_decide (md_dev a = md_dev b) && bool_decide (md_ino a = md_ino b).

Section artifact.
Context `{CE : ContractEnv} `{HF : HostFiles}.

(** A file call with its error mapped. *)
Definition io {A} (operation : string) (m : prog host_outside IoErrorKind A)
    : prog host_outside Error A :=
  λ o, match m o with
       | (Ok a, o') => (Ok a, o')
       | (Err kind, o') => (Err (checkpoint_artifact_io_error operation kind), o')
       end.

(** The hashing loop: the bytes read so far are what the hasher has been fed.
    Each round reads at least one byte and stops once more than the expected
    size was read, so [expected + 1] rounds and one for the end suffice. *)
Definition artifact_grew (operation : string) : Error :=
  checkpoint_artifact_contract_error operation
    "checkpoint artifact grew beyond expected size {expected_size}".
Fixpoint hash_loop (fuel : nat) (operation : string) (file : file_handle) (expected : Z)
    (hashed : string) : prog host_outside Error string :=
  match fuel with
  | O => fail (artifact_grew operation)
  | S fuel =>
      let! chunk := io operation (handle_read file) in
      if bool_decide (chunk = "") then ret hashed
      else if expected <? byte_len hashed + byte_len chunk then fail (artifact_grew operation)
      else hash_loop fuel operation file expected (hashed +:+ chunk)
  end.

Definition verify_checkpoint_artifact (path : string) (expected_digest : string)
    (expected_size : Z) (operation : string) : prog host_outside Error () :=
  do! lift (reject_if (bool_decide (expected_size = 0))
    (checkpoint_artifact_contract_error operation
       "checkpoint artifact size must be greater than zero"));
  let! path_metadata := io operation (symlink_metadata path) in
  do! lift (reject_if (negb (is_plain_file path_metadata))
    (checkpoint_artifact_contract_error operation
       "checkpoint artifact is not a regular nonsymlink file: {}"));
  let! file := io operation (open_readonly_nofollow path) in
  let! opened := io operation (handle_metadata file) in
  do! lift (reject_if (negb (is_plain_file opened))
    (checkpoint_artifact_contract_error operation
       "opened checkpoint artifact is not a regular nonsymlink file: {}"));
  do! lift (reject_if (negb (same_file_identity path_metadata opened))
    (checkpoint_artifact_contract_error operation
       "checkpoint artifact was replaced while it was being opened: {}"));
  do! lift (reject_if (bool_decide (md_len opened ≠ expected_size))
    (checkpoint_artifact_contract_error operation
       "checkpoint artifact size {} differs from expected size {}"));
  let! hashed := hash_loop (S (S (Z.to_nat expected_size))) operation file expected_size "" in
  let! final_metadata := io operation (handle_metadata file) in
  do! lift (reject_if (negb (is_plain_file final_metadata)
                       || bool_decide (md_len final_metadata ≠ expected_size))
    (checkpoint_artifact_contract_error operation
       "checkpoint artifact changed size or file type while it was hashed"));
  do! lift (reject_if (bool_decide (byte_len hashed ≠ expected_size))
    (checkpoint_artifact_contract_error operation
       "checkpoint artifact contained {total} bytes, expected {expected_size}"));
  let! actual_digest := lift (map_err
    (λ _, state_error Internal operation "failed to construct checkpoint artifact digest: {}")
    (checkpoint_digest_new ("sha256:" +:+ sha256_hex hashed))) in
  lift (reject_if (bool_decide (actual_digest ≠ expected_digest))
    (checkpoint_artifact_contract_error operation
       "checkpoint artifact digest {actual_digest} differs from expected {expected_digest}")).
End artifact.

(** ** What a verified artifact is *)

Section verified.
Context `{CE : ContractEnv} `{HF : HostFiles}.
Implicit Types o : host_outside.

(** The handle reads [bytes] from [o] and is then at its end, in [o']. *)
Inductive reads_to_end (file : file_handle) : host_outside → string → host_outside → Prop :=
  | reads_end o o' : handle_read file o = (Ok "", o') → reads_to_end file o "" o'
  | reads_chunk o o1 o2 chunk rest :
      handle_read file o = (Ok chunk, o1) → chunk ≠ "" → reads_to_end file o1 rest o2 →
      reads_to_end file o (chunk +:+ rest) o2.

Lemma io_inv {A} operation (m : prog host_outside IoErrorKind A) o a o' :
  io operation m o = (Ok a, o') → m o = (Ok a, o').
Proof. unfold io. destruct (m o) as [[b|k] o1]; [by intros [= -> ->]|done]. Qed.

Lemma obind_inv {A B} (m : prog host_outside Error A) (k : A → prog host_outside Error B) o b o' :
  bind m k o = (Ok b, o') → ∃ a o1, m o = (Ok a, o1) ∧ k a o1 = (Ok b, o').
Proof. unfold bind. destruct (m o) as [[a|e] o1]; [eauto|done]. Qed.

Lemma olift_inv {A} (r : Result A) o a o' :
  (lift r : prog host_outside Error A) o = (Ok a, o') → r = Ok a ∧ o' = o.
Proof. by intros [= -> ->]. Qed.

Lemma append_assoc (a b c : string) : (a +:+ b) +:+ c = a +:+ (b +:+ c).
Proof. induction a as [|x a IH]; [done|]. by apply (f_equal (String x)). Qed.

Lemma append_nil (a : string) : a +:+ "" = a.
Proof. induction a as [|x a IH]; [done|]. by apply (f_equal (String x)). Qed.

Lemma byte_len_app a b : byte_len (a +:+ b) = byte_len a + byte_len b.
Proof.
  unfold byte_len. rewrite <- Nat2Z.inj_add. f_equal. induction a as [|x a IH]; [done|].
  by apply (f_equal S).
Qed.

Lemma hash_loop_ok fuel operation file expected hashed o all o' :
  hash_loop fuel operation file expected hashed o = (Ok all, o') →
  ∃ rest, all = hashed +:+ rest ∧ reads_to_end file o rest o'.
Proof.
  revert hashed o. induction fuel as [|fuel IH]; intros hashed o; [done|]. simpl. intros H.
  apply obind_inv in H as (chunk & o1 & Hr%io_inv & H).
  case_bool_decide as Hc.
  - subst. injection H as <- <-. exists "". rewrite append_nil. split; [done|]. by constructor.
  - destruct (_ <? _); [done|]. apply IH in H as (rest & -> & Hend).
    exists (chunk +:+ rest). rewrite append_assoc. split; [done|]. by econstructor.
Qed.

(** The loop never ends for lack of rounds: with the rounds it is given, it
    returns everything a file of at most the expected size holds. *)
Lemma hash_loop_complete fuel operation file expected hashed o rest o' :
  reads_to_end file o rest o' → byte_len (hashed +:+ rest) ≤ expected →
  (Z.to_nat (byte_len rest) < fuel)%nat →
  hash_loop fuel operation file expected hashed o = (Ok (hashed +:+ rest), o').
Proof.
  intros H. revert fuel hashed.
  induction H as [o o' Hr|o o1 o2 chunk rest Hr Hne Hend IH]; intros fuel hashed Hlen Hf.
  - destruct fuel as [|fuel]; [lia|]. simpl. unfold bind, io. rewrite Hr.
    rewrite bool_decide_eq_true_2 by done. by rewrite append_nil.
  - destruct fuel as [|fuel]; [lia|]. simpl. unfold bind, io. rewrite Hr.
    rewrite bool_decide_eq_false_2 by done.
    assert (0 < byte_len chunk) as Hpos by (destruct chunk; [done|unfold byte_len; simpl; lia]).
    rewrite !byte_len_app in *. assert (0 ≤ byte_len rest) by (unfold byte_len; lia).
    replace (expected <? byte_len hashed + byte_len chunk) with false by (symmetry; apply Z.ltb_ge; lia).
    rewrite IH; [by rewrite append_assoc|rewrite !byte_len_app; lia|].
    rewrite Z2Nat.inj_add in Hf by lia. lia.
Qed.

(** C29: a verified artifact.  When the host accepts a checkpoint artifact, the path
    named a plain file of the expected size, the handle was opened on that same
    file, and the bytes read through the handle up to its end are exactly as
    many as expected and have the expected SHA-256. *)
Theorem verified_artifact_content path digest size operation o o' :
  verify_checkpoint_artifact path digest size operation o = (Ok (), o') →
  ∃ o1 o2 o3 o4 m1 file m2 content,
    symlink_metadata path o = (Ok m1, o1) ∧ open_readonly_nofollow path o1 = (Ok file, o2) ∧
    handle_metadata file o2 = (Ok m2, o3) ∧ is_plain_file m2 = true ∧
    same_file_identity m1 m2 = true ∧ md_len m2 = size ∧
    reads_to_end file o3 content o4 ∧ byte_len content = size ∧ 0 < size ∧
    digest = "sha256:" +:+ sha256_hex content.
Proof.
  unfold verify_checkpoint_artifact. intros H.
  repeat (apply obind_inv in H as (? & ? & ? & H)).
  repeat match goal with
  | H : io _ _ _ = (Ok _, _) |- _ => apply io_inv in H
  | H : lift _ _ = (Ok _, _) |- _ => apply olift_inv in H as [? ->]
  | H : hash_loop _ _ _ _ _ _ = (Ok _, _) |- _ => apply hash_loop_ok in H as (content & -> & ?)
  | H : reject_if _ _ = Ok _ |- _ => apply reject_if_ok in H
  | H : negb _ = false |- _ => apply negb_false_iff in H
  | H : bool_decide _ = false |- _ => apply bool_decide_eq_false in H
  | H : map_err _ _ = Ok _ |- _ => apply map_err_ok in H
  end.
  match goal with H : checkpoint_digest_new _ = Ok _ |- _ =>
    unfold checkpoint_digest_new in H; inv_ok end.
  repeat match goal with H : ¬ (_ ≠ _) |- _ => apply dec_stable in H end.
  do 8 eexists. split_and!; try done.
  unfold byte_len in *. simpl in *. lia.
Qed.
End verified.
