(* ===== verification/StoreModel.v ===== *)
(** * Durable record model (crates/runtime/src/state/model.rs)

    The JSON documents that the store keeps below its state root. *)

From stdpp Require Import base gmap strings list.
From S2P Require Import Prelude Sdk Contracts.
Local Open Scope string_scope.

Definition ROOT_SCHEMA_VERSION : string := "a3s.oci.runtime-root.v1".
Definition CONTAINER_SCHEMA_VERSION : string := "a3s.oci.container-record.v1".
Definition GENERATION_SCHEMA_VERSION : string := "a3s.oci.generation.v1".
Definition OPERATION_SCHEMA_VERSION_V1 : string := "a3s.oci.operation.v1".
Definition OPERATION_SCHEMA_VERSION_V2 : string := "a3s.oci.operation.v2".
Definition OPERATION_SCHEMA_VERSION_V3 : string := "a3s.oci.operation.v3".
Definition OPERATION_SCHEMA_VERSION_V4 : string := "a3s.oci.operation.v4".
Definition OPERATION_SCHEMA_VERSION_V5 : string := "a3s.oci.operation.v5".
Definition OPERATION_SCHEMA_VERSION : string := "a3s.oci.operation.v6".
Definition PROCESS_SCHEMA_VERSION : string := "a3s.oci.process-record.v1".
Definition EVENT_CURSOR_SCHEMA_VERSION : string := "a3s.oci.event-cursor.v1".
Definition EVENT_CLAIM_SCHEMA_VERSION : string := "a3s.oci.event-claim.v1".
Definition EVENT_RECORD_SCHEMA_VERSION : string := "a3s.oci.event-record.v1".

Record StoredGeneration : Type := mkStoredGeneration {
  sg_schema_version : string;
  sg_id : string;
  sg_last_generation : Z
}.

Record StoredContainer : Type := mkStoredContainer {
  sc_schema_version : string;
  sc_id : string;
  sc_record : ContainerRecord;
  sc_attachments : option CreateAttachments;
  sc_active_operation : option string;
  sc_init_io_operations : gset string;
  sc_init_exit_status : option ExitStatus
}.

(** Field updates of [StoredContainer]. *)
Definition set_sc_record (r : ContainerRecord) (s : StoredContainer) : StoredContainer :=
  mkStoredContainer (sc_schema_version s) (sc_id s) r (sc_attachments s)
    (sc_active_operation s) (sc_init_io_operations s) (sc_init_exit_status s).
Definition set_sc_state (st : OciState) (s : StoredContainer) : StoredContainer :=
  set_sc_record (with_state st (sc_record s)) s.
Definition set_sc_active (a : option string) (s : StoredContainer) : StoredContainer :=
  mkStoredContainer (sc_schema_version s) (sc_id s) (sc_record s) (sc_attachments s)
    a (sc_init_io_operations s) (sc_init_exit_status s).
Definition set_sc_init_io (io : gset string) (s : StoredContainer) : StoredContainer :=
  mkStoredContainer (sc_schema_version s) (sc_id s) (sc_record s) (sc_attachments s)
    (sc_active_operation s) io (sc_init_exit_status s).
Definition set_sc_exit (x : option ExitStatus) (s : StoredContainer) : StoredContainer :=
  mkStoredContainer (sc_schema_version s) (sc_id s) (sc_record s) (sc_attachments s)
    (sc_active_operation s) (sc_init_io_operations s) x.

Record StoredProcess : Type := mkStoredProcess {
  sp_schema_version : string;
  sp_record : ProcessRecord;
  sp_active_operation : option string;
  sp_active_io_operations : gset string;
  sp_exit_status : option ExitStatus
}.

(** Field updates of [StoredProcess]. *)
Definition set_sp_pid (pid : option Z) (p : StoredProcess) : StoredProcess :=
  mkStoredProcess (sp_schema_version p)
    (mkProcessRecord (pr_target (sp_record p)) pid (pr_terminal (sp_record p)))
    (sp_active_operation p) (sp_active_io_operations p) (sp_exit_status p).
Definition set_sp_active (a : option string) (p : StoredProcess) : StoredProcess :=
  mkStoredProcess (sp_schema_version p) (sp_record p) a (sp_active_io_operations p)
    (sp_exit_status p).
Definition set_sp_io (io : gset string) (p : StoredProcess) : StoredProcess :=
  mkStoredProcess (sp_schema_version p) (sp_record p) (sp_active_operation p) io
    (sp_exit_status p).
Definition set_sp_exit (x : option ExitStatus) (p : StoredProcess) : StoredProcess :=
  mkStoredProcess (sp_schema_version p) (sp_record p) (sp_active_operation p)
    (sp_active_io_operations p) x.

Record StoredEventCursor : Type := mkStoredEventCursor {
  sec_schema_version : string;
  sec_last_sequence : Z
}.

Record StoredEventClaim : Type := mkStoredEventClaim {
  sk_schema_version : string;
  sk_identity : string;
  sk_event : RuntimeEvent
}.

Record StoredEventRecord : Type := mkStoredEventRecord {
  sr_schema_version : string;
  sr_event : RuntimeEvent
}.
#[global] Instance StoredEventRecord_eq_dec : EqDecision StoredEventRecord.
Proof. solve_decision. Defined.

Inductive StoredOperationKind : Type :=
  | KCreate | KStart | KKill | KDelete | KExec | KSignalProcess | KWriteStdin | KCloseStdin
  | KResize | KPause | KResume | KUpdate | KFile | KFilesystem | KCheckpoint | KRestore
  | KAttest.
#[global] Instance StoredOperationKind_eq_dec : EqDecision StoredOperationKind.
Proof. solve_decision. Defined.

Inductive StoredOperationRequest : Type :=
  | RequestFile (r : FileRequest)
  | RequestFilesystem (r : FilesystemRequest)
  | RequestCheckpoint (r : CheckpointRequest)
  | RequestRestore (r : RestoreRequest)
  | RequestAttest (r : TeeAttestationRequest).
#[global] Instance StoredOperationRequest_eq_dec : EqDecision StoredOperationRequest.
Proof. solve_decision. Defined.

Inductive StoredFilesystemMutationResponse : Type :=
  | ResponseFile (r : FileResponse)
  | ResponseFilesystem (r : FilesystemResponse).

Inductive StoredOperationStatus : Type :=
  | Prepared
  | Succeeded (response : ContainerRecord)
  | SucceededProcess (response : ProcessRecord)
  | SucceededFilesystem (response : StoredFilesystemMutationResponse)
  | SucceededCheckpoint (response : CheckpointResponse)
  | SucceededRestore (response : RestoreResponse)
  | SucceededAttestation (response : TeeAttestationResponse)
  | SucceededEmpty
  | Failed (error : Error).

Record StoredOperation : Type := mkStoredOperation {
  so_schema_version : string;
  so_operation_id : string;
  so_kind : StoredOperationKind;
  so_container_id : string;
  so_generation : Z;
  so_process_id : option string;
  so_request : option StoredOperationRequest;
  so_request_digest : string;
  so_outcome : StoredOperationStatus
}.

(** [operation.outcome = ...] *)
Definition set_outcome (o : StoredOperationStatus) (op : StoredOperation) : StoredOperation :=
  mkStoredOperation (so_schema_version op) (so_operation_id op) (so_kind op)
    (so_container_id op) (so_generation op) (so_process_id op) (so_request op)
    (so_request_digest op) o.

(** [matches!(operation.outcome, StoredOperationStatus::Prepared)] *)
Definition is_prepared (s : StoredOperationStatus) : bool :=
  match s with Prepared => true | _ => false end.
Definition is_failed (s : StoredOperationStatus) : bool :=
  match s with Failed _ => true | _ => false end.

(** A fresh journal entry: every [prepare_*] builds exactly this shape. *)
Definition new_operation (operation_id : string) (kind : StoredOperationKind)
    (container_id : string) (generation : Z) (process_id : option string)
    (request : option StoredOperationRequest) (digest : string) : StoredOperation :=
  mkStoredOperation OPERATION_SCHEMA_VERSION operation_id kind container_id generation
    process_id request digest Prepared.
