(* ===== verification/Disk.v ===== *)
(** * State root, atomic commits and reads (crates/runtime/src/state/filesystem.rs,
      filesystem/transaction.rs, and the primitive reads of state/mod.rs)

    The state root is a record of finite maps, one per directory, from the
    identifier that names a file to the document it holds ([store_file_names_disjoint]
    shows that the names are injective).  A document that the store wrote
    decodes to the value that was written; the JSON text itself is not kept.

    A write goes through the seven commit stages of [atomic_write]: a temporary
    file [.name.next] is created, filled and synced, then renamed over the
    destination.  Each stage is a fault point.  A fault before the rename leaves
    the old document, a fault after it leaves the new one, and in both cases the
    operation returns the error: a crash of the host is the same event without
    the return.

    Pending [.name.next] files are kept in the model only in a container's
    [processes] directory, the one directory whose readers do not skip them. *)

From stdpp Require Import base gmap strings list.
From S2P Require Import Prelude Sdk Identifiers Fault Contracts StoreModel.
Local Open Scope string_scope.
Local Open Scope Z_scope.

(** ** The state root *)

Record ProcessDir : Type := mkProcessDir {
  pd_records : gmap string StoredProcess;
  pd_next : gset string
}.

Record ContainerDir : Type := mkContainerDir {
  cd_config : option string;
  cd_record : option StoredContainer;
  cd_processes : option ProcessDir
}.

Record Disk : Type := mkDisk {
  d_generations : gmap string StoredGeneration;
  d_operations : gmap string StoredOperation;
  d_containers : gmap string ContainerDir;
  d_quarantine : gmap (TombstoneKind * string) ContainerDir;
  d_cursor : option StoredEventCursor;
  d_claims : gmap string StoredEventClaim;
  d_events : gmap Z StoredEventRecord
}.

Definition empty_disk : Disk := mkDisk ∅ ∅ ∅ ∅ None ∅ ∅.
Definition empty_dir : ContainerDir := mkContainerDir None None None.

(** A destination file together with the document written to it. *)
Inductive StateFile : Type :=
  | FileGeneration (id : string) (g : StoredGeneration)
  | FileOperation (operation_id : string) (op : StoredOperation)
  | FileConfig (id : string) (bytes : string)
  | FileRecord (id : string) (c : StoredContainer)
  | FileProcess (id process_id : string) (p : StoredProcess)
  | FileCursor (c : StoredEventCursor)
  | FileClaim (hash : string) (c : StoredEventClaim)
  | FileEvent (sequence : Z) (r : StoredEventRecord).

Definition set_containers (cs : gmap string ContainerDir) (d : Disk) : Disk :=
  mkDisk (d_generations d) (d_operations d) cs (d_quarantine d) (d_cursor d) (d_claims d)
    (d_events d).

(** [path_exists] of the destination's parent directory. *)
Definition parent_exists (f : StateFile) (d : Disk) : bool :=
  match f with
  | FileConfig id _ | FileRecord id _ => bool_decide (is_Some (d_containers d !! id))
  | FileProcess id _ _ =>
      match d_containers d !! id with
      | Some dir => bool_decide (is_Some (cd_processes dir))
      | None => false
      end
  | _ => true
  end.

(** The temporary file of the write appears next to its destination. *)
Definition open_transaction (f : StateFile) (d : Disk) : Disk :=
  match f with
  | FileProcess id pid _ =>
      set_containers
        (alter (λ dir, mkContainerDir (cd_config dir) (cd_record dir)
                  ((λ pd, mkProcessDir (pd_records pd) ({[pid]} ∪ pd_next pd)) <$> cd_processes dir))
           id (d_containers d)) d
  | _ => d
  end.

(** The temporary file replaces the destination. *)
Definition commit_file (f : StateFile) (d : Disk) : Disk :=
  match f with
  | FileGeneration id g =>
      mkDisk (<[id := g]> (d_generations d)) (d_operations d) (d_containers d) (d_quarantine d)
        (d_cursor d) (d_claims d) (d_events d)
  | FileOperation o op =>
      mkDisk (d_generations d) (<[o := op]> (d_operations d)) (d_containers d) (d_quarantine d)
        (d_cursor d) (d_claims d) (d_events d)
  | FileConfig id bytes =>
      set_containers
        (alter (λ dir, mkContainerDir (Some bytes) (cd_record dir) (cd_processes dir)) id
           (d_containers d)) d
  | FileRecord id c =>
      set_containers
        (alter (λ dir, mkContainerDir (cd_config dir) (Some c) (cd_processes dir)) id
           (d_containers d)) d
  | FileProcess id pid p =>
      set_containers
        (alter (λ dir, mkContainerDir (cd_config dir) (cd_record dir)
                  ((λ pd, mkProcessDir (<[pid := p]> (pd_records pd)) (pd_next pd ∖ {[pid]}))
                     <$> cd_processes dir))
           id (d_containers d)) d
  | FileCursor c =>
      mkDisk (d_generations d) (d_operations d) (d_containers d) (d_quarantine d)
        (Some c) (d_claims d) (d_events d)
  | FileClaim h c =>
      mkDisk (d_generations d) (d_operations d) (d_containers d) (d_quarantine d)
        (d_cursor d) (<[h := c]> (d_claims d)) (d_events d)
  | FileEvent s r =>
      mkDisk (d_generations d) (d_operations d) (d_containers d) (d_quarantine d)
        (d_cursor d) (d_claims d) (<[s := r]> (d_events d))
  end.

(** [create_private_directory] of [containers/<id>] and of its [processes]
    subdirectory. *)
Definition make_container_dir (id : string) (d : Disk) : Disk :=
  set_containers (<[id := empty_dir]> (d_containers d)) d.
Definition make_process_dir (id : string) (d : Disk) : Disk :=
  set_containers
    (alter (λ dir, mkContainerDir (cd_config dir) (cd_record dir) (Some (mkProcessDir ∅ ∅))) id
       (d_containers d)) d.

(** The rename of [containers/<id>] to a quarantine entry. *)
Definition move_to_quarantine (id : string) (t : TombstoneKind * string) (d : Disk) : Disk :=
  match d_containers d !! id with
  | Some dir =>
      mkDisk (d_generations d) (d_operations d) (delete id (d_containers d))
        (<[t := dir]> (d_quarantine d)) (d_cursor d) (d_claims d) (d_events d)
  | None => d
  end.

(** ** The environment of the store *)

(** The request contents that a journal entry is bound to; each constructor
    is one [*Fingerprint] struct of the sources. *)
Inductive Fingerprint : Type :=
  | CreateRequestFingerprint (id : string) (bundle : OciBundle) (isolation : IsolationRequest)
      (attachments : CreateAttachments) (inherited_descriptors : option string)
  | StartFingerprint (target : ContainerTarget)
  | KillFingerprint (target : ContainerTarget) (signal : Z) (all : bool)
  | DeleteFingerprint (target : ContainerTarget) (mode : DeleteMode)
  | ExecFingerprint (container : ContainerTarget) (process_id : string) (process : OciProcess)
      (io : ProcessIo)
  | SignalProcessFingerprint (process : ProcessTarget) (signal : Z)
  | WriteStdinFingerprint (process : ProcessTarget) (data : string)
  | ProcessTargetFingerprint (process : ProcessTarget)
  | ResizeFingerprint (process : ProcessTarget) (size : TerminalSize)
  | FreezerFingerprint (target : ContainerTarget)
  | UpdateFingerprint (target : ContainerTarget) (resources : string)
  | FileFingerprint (target : ContainerTarget) (op : FileOp) (path : string)
      (data user : option string)
  | FilesystemFingerprint (target : ContainerTarget) (op : FilesystemOp) (path : string)
      (destination : option string) (depth : Z) (user : option string)
  | CheckpointFingerprint (target : ContainerTarget) (artifact_path : string)
      (quiesce : CheckpointQuiesce)
  | RestoreFingerprint (id : string) (bundle : OciBundle) (artifact_path : string)
      (isolation : IsolationRequest) (attachments : CreateAttachments)
      (reference : CheckpointReference)
  | AttestationFingerprint (target : ContainerTarget) (report_data : string).

(** What the store takes from outside the modelled code: the fault injector,
    serde_json's encodings, base64, SHA-256, the OCI schema and semantic validators, the
    OCI configuration parser and the attachment contract of the SDK. *)
Class StoreEnv : Type := {
  env_faults :: FaultInjector;
  (** Base64, SHA-256 and semver. *)
  env_contracts :: ContractEnv;
  (** Length of [serde_json::to_vec_pretty] of a document plus its newline. *)
  encoded_len : StateFile → Z;
  (** [serde_json::to_vec] and [canonical_json_bytes] of a fingerprint. *)
  json_to_vec : Fingerprint → option string;
  canonical_json_bytes : Fingerprint → option string;
  (** [OciSchemaValidator::new()?.validate_state] *)
  schema_validate_state : OciState → Result unit;
  (** [OciBundle::from_json] *)
  bundle_from_json : string → string → Result OciBundle;
  attachments_validate : CreateAttachments → OciBundle → Result unit;
  attachments_validate_isolation : CreateAttachments → IsolationRequest → Result unit;
  attachments_guest_session : CreateAttachments → option GuestSessionAttachment;
  attachments_network_enforcement :
    CreateAttachments → OciBundle → Result (option NetworkEnforcementAttachment);
  attachments_digest : CreateAttachments → Result string;
  (** [OciBundle::validate_for_phase(OciSemanticPhase::Create)] *)
  bundle_validate_create : OciBundle → Result unit;
  attachments_process_io : CreateAttachments → ProcessIo;
  (** [OciSemanticValidator::validate_process] and [validate_linux_resources] *)
  semantic_validate_process : OciProcess → Result unit;
  semantic_validate_resources : string → Result unit;
  (** [CreateAttachments::tee_launch] *)
  attachments_tee_launch : CreateAttachments → OciBundle → Result (option TeeLaunchRequest)
}.

(** The length of decoded base64 text. *)
Definition base64_decoded_len `{ContractEnv} (s : string) : option Z :=
  byte_len <$> base64_decode s.

(** The world an operation runs in: the state root, the injector's state and
    the system clock, in nanoseconds since the Unix epoch at each read. *)
Record World `{StoreEnv} : Type := mkWorld {
  w_disk : Disk;
  w_faults : fault_state;
  w_clock : nat → Z;
  w_reads : nat
}.

Section store.
Context `{SE : StoreEnv}.

Definition M (A : Type) : Type := prog World Error A.

Definition set_disk (d : Disk) (w : World) : World :=
  mkWorld _ d (w_faults w) (w_clock w) (w_reads w).

(** A read of the state root. *)
Definition read {A} (f : Disk → Result A) : M A := λ w, (f (w_disk w), w).

(** A change of the state root that cannot fail. *)
Definition modify (f : Disk → Disk) : M () := λ w, (Ok (), set_disk (f (w_disk w)) w).

(** [self.faults.check(point)?] *)
Definition check (p : FaultPoint) : M () := λ w,
  let '(r, s) := fault_check p (w_faults w) in
  (r, mkWorld _ (w_disk w) s (w_clock w) (w_reads w)).

(** [SystemTime::now()], as nanoseconds since the epoch. *)
Definition system_time_now : M Z := λ w,
  (Ok (w_clock w (w_reads w)), mkWorld _ (w_disk w) (w_faults w) (w_clock w) (S (w_reads w))).

Definition MAX_STATE_FILE_BYTES : Z := 64 * 1024 * 1024.

(** [StateFilesystem::atomic_write] *)
Definition atomic_write (m : DurableMutation) (f : StateFile) : M () :=
  do! lift (reject_if (is_directory_move m)
    (state_error Internal "write-state-file"
       "directory mutation {mutation:?} cannot replace a state file"));
  do! lift (reject_if (bool_decide (MAX_STATE_FILE_BYTES < encoded_len f))
    (state_error ResourceExhausted "write-state-file"
       "durable state exceeds {MAX_STATE_FILE_BYTES} bytes: {}"));
  do! read (λ d, reject_if (negb (parent_exists f d))
    (state_error FailedPrecondition "inspect-state-directory"
       "{label} is not a plain directory: {}: {error}"));
  do! modify (open_transaction f);
  do! check (DurableFile m TemporaryFileCreated);
  do! check (DurableFile m TemporaryFileProtected);
  do! check (DurableFile m DataWritten);
  do! check (DurableFile m DataFlushed);
  do! check (DurableFile m FileSynced);
  do! modify (commit_file f);
  do! check (DurableFile m FileReplaced);
  check (DurableFile m ParentDirectorySynced).

(** [DurableStateStore::write_json] and [write_bytes]. *)
Definition write_json (m : DurableMutation) (f : StateFile) : M () := atomic_write m f.

(** [StateFilesystem::atomic_move_directory] from a live container directory
    to a quarantine entry. *)
Definition move_directory (m : DurableMutation) (id : string) (t : TombstoneKind * string)
    : M () :=
  do! lift (reject_if (negb (is_directory_move m))
    (state_error Internal "commit-state-directory"
       "file mutation {mutation:?} cannot move a state directory"));
  do! read (λ d, reject_if (bool_decide (d_containers d !! id = None))
    (state_error FailedPrecondition "commit-state-directory"
       "state transaction source is not a plain directory: {}: {error}"));
  do! read (λ d, reject_if (bool_decide (is_Some (d_quarantine d !! t)))
    (state_error Conflict "commit-state-directory"
       "state transaction destination already exists: {}"));
  do! modify (move_to_quarantine id t);
  do! check (DurableDirectory m DirectoryMoved);
  do! check (DurableDirectory m SourceParentSynced);
  check (DurableDirectory m DestinationParentSynced).

(** [create_private_directory]; the new directory must not exist. *)
Definition create_container_directory (id : string) : M () :=
  do! read (λ d, reject_if (bool_decide (is_Some (d_containers d !! id)))
    (state_error Internal "create-state-directory" "{}: {error}"));
  modify (make_container_dir id).

(** [path_exists(container_directory(id))] and [path_exists(tombstone)]. *)
Definition container_exists (id : string) (d : Disk) : bool :=
  bool_decide (is_Some (d_containers d !! id)).
Definition tombstone_exists (t : TombstoneKind * string) (d : Disk) : bool :=
  bool_decide (is_Some (d_quarantine d !! t)).

(** [delete_tombstone], [failed_create_tombstone], [failed_restore_tombstone] *)
Definition delete_tombstone (operation_id : string) : TombstoneKind * string :=
  (Deleted, operation_id).
Definition failed_create_tombstone (operation_id : string) : TombstoneKind * string :=
  (FailedCreate, operation_id).
Definition failed_restore_tombstone (operation_id : string) : TombstoneKind * string :=
  (FailedRestore, operation_id).
End store.
Arguments World : clear implicits.
Arguments World {_}.

(** ** Rules for the primitive effects *)

Section disk_rules.
Context `{SE : StoreEnv}.
Implicit Types (w : World) (d : Disk).

Lemma wp_read {A} (f : Disk → Result A) Q w : Q (f (w_disk w)) w → wp (read f) Q w.
Proof. done. Qed.

(** A checkpoint passes or fails; the state root stays as it is. *)
Lemma wp_check p Q w :
  (∀ r w', w_disk w' = w_disk w → Q r w') → wp (check p) Q w.
Proof. intros H. unfold wp, check. destruct (fault_check p (w_faults w)) as [r s]. by apply H. Qed.

Lemma wp_now Q w :
  (∀ t w', w_disk w' = w_disk w → Q (Ok t) w') → wp system_time_now Q w.
Proof. intros H. by apply H. Qed.

Lemma wp_check_bind {B} p (k : () → M B) Q w :
  (∀ e w', w_disk w' = w_disk w → Q (Err e) w') →
  (∀ w', w_disk w' = w_disk w → wp (k ()) Q w') →
  wp (bind (check p) k) Q w.
Proof.
  intros He Hk. apply wp_bind, wp_check. intros [[]|e] w' Hw; [by apply Hk|by apply He].
Qed.

(** Every outcome of a write under an arbitrary injector: rejected before
    anything changed, stopped with only its temporary file left, stopped after
    the commit, or completed. *)
Lemma wp_write_json m f Q w :
  (∀ e w', w_disk w' = w_disk w → Q (Err e) w') →
  (∀ e w', parent_exists f (w_disk w) = true →
     w_disk w' = open_transaction f (w_disk w) → Q (Err e) w') →
  (∀ r w', parent_exists f (w_disk w) = true →
     w_disk w' = commit_file f (open_transaction f (w_disk w)) → Q r w') →
  wp (write_json m f) Q w.
Proof.
  intros Hrej Htmp Hdone. unfold write_json, atomic_write.
  apply wp_bind, wp_lift. destruct (is_directory_move m); [by apply Hrej|]. simpl.
  apply wp_bind, wp_lift. destruct (bool_decide (MAX_STATE_FILE_BYTES < encoded_len f));
    [by apply Hrej|]. simpl.
  apply wp_bind, wp_read. destruct (parent_exists f (w_disk w)) eqn:Hp; [|by apply Hrej]. simpl.
  apply wp_bind. unfold wp at 1; simpl.
  do 5 (apply wp_check_bind;
    [ let He := fresh "He" in intros e w' He; simpl in He; apply Htmp; congruence |];
    let w1 := fresh "w1" in let Hw1 := fresh "Hw1" in intros w1 Hw1; simpl in Hw1).
  apply wp_bind. unfold wp at 1; simpl.
  apply wp_check_bind.
  { intros e w' Hw'. simpl in Hw'. apply Hdone; [done|]. rewrite Hw'. repeat f_equal. congruence. }
  intros wa Ha. apply wp_check. intros r wb Hb. simpl in *. apply Hdone; [done|].
  rewrite Hb, Ha. f_equal. congruence.
Qed.

Lemma wp_move_directory m id t Q w :
  (∀ e w', w_disk w' = w_disk w → Q (Err e) w') →
  (∀ r w', is_Some (d_containers (w_disk w) !! id) → d_quarantine (w_disk w) !! t = None →
     w_disk w' = move_to_quarantine id t (w_disk w) → Q r w') →
  wp (move_directory m id t) Q w.
Proof.
  intros Hrej Hdone. unfold move_directory.
  apply wp_bind, wp_lift. destruct (negb (is_directory_move m)); [by apply Hrej|]. simpl.
  apply wp_bind, wp_read. case_bool_decide as Hs; [by apply Hrej|]. simpl.
  apply wp_bind, wp_read. case_bool_decide as Ht; [by apply Hrej|]. simpl.
  apply not_eq_None_Some in Hs. apply eq_None_not_Some in Ht.
  apply wp_bind. unfold wp at 1; simpl.
  apply wp_check_bind; [intros e w' Hw; simpl in Hw; by apply Hdone|]. intros w1 Hw1.
  apply wp_check_bind; [intros e w' Hw; simpl in *; apply Hdone; by congruence|]. intros w2 Hw2.
  apply wp_check. intros r w3 Hw3. simpl in *. apply Hdone; congruence.
Qed.

Lemma wp_create_container_directory id Q w :
  (∀ e w', w_disk w' = w_disk w → Q (Err e) w') →
  (∀ w', d_containers (w_disk w) !! id = None →
     w_disk w' = make_container_dir id (w_disk w) → Q (Ok ()) w') →
  wp (create_container_directory id) Q w.
Proof.
  intros Hrej Hdone. unfold create_container_directory.
  apply wp_bind, wp_read. case_bool_decide as Hs; [by apply Hrej|]. simpl.
  unfold wp; simpl. apply Hdone; [by apply eq_None_not_Some|done].
Qed.

(** ** Fault-free execution *)

(** The injector never fires and documents fit the size bound. *)
Definition quiet : Prop :=
  (∀ p s, (fault_check p s).1 = Ok ()) ∧ (∀ f, encoded_len f ≤ MAX_STATE_FILE_BYTES).

Lemma check_quiet p w : quiet → ∃ s,
  check p w = (Ok (), mkWorld _ (w_disk w) s (w_clock w) (w_reads w)).
Proof.
  intros [Hq _]. unfold check. specialize (Hq p (w_faults w)).
  destruct (fault_check p (w_faults w)) as [r s]. simpl in Hq. subst. eauto.
Qed.

(** Two worlds that differ only in the injector's state. *)
Definition same_but_faults (d : Disk) w w' : Prop :=
  w_disk w' = d ∧ w_clock w' = w_clock w ∧ w_reads w' = w_reads w.

Lemma write_json_quiet m f w :
  quiet → is_directory_move m = false → parent_exists f (w_disk w) = true →
  ∃ w', write_json m f w = (Ok (), w') ∧
    same_but_faults (commit_file f (open_transaction f (w_disk w))) w w'.
Proof.
  intros Hq Hm Hp. unfold write_json, atomic_write, bind, lift, read, modify.
  rewrite Hm, Hp. simpl. rewrite bool_decide_eq_false_2 by (destruct Hq as [_ Hq]; specialize (Hq f); lia).
  simpl. unfold set_disk.
  do 5 (match goal with |- context [check ?p ?w0] =>
          destruct (check_quiet p w0 Hq) as [? ->]; simpl end).
  do 2 (match goal with |- context [check ?p ?w0] =>
          destruct (check_quiet p w0 Hq) as [? ->]; simpl end).
  eexists; split; [done|]. by split_and!.
Qed.

Lemma move_directory_quiet m id t w :
  quiet → is_directory_move m = true → is_Some (d_containers (w_disk w) !! id) →
  d_quarantine (w_disk w) !! t = None →
  ∃ w', move_directory m id t w = (Ok (), w') ∧
    same_but_faults (move_to_quarantine id t (w_disk w)) w w'.
Proof.
  intros Hq Hm Hs Ht. unfold move_directory, bind, lift, read, modify. rewrite Hm. simpl.
  rewrite bool_decide_eq_false_2 by (destruct Hs as [? ->]; done). simpl.
  rewrite bool_decide_eq_false_2 by (rewrite Ht; apply is_Some_None). simpl.
  unfold set_disk.
  do 3 (match goal with |- context [check ?p ?w0] =>
          destruct (check_quiet p w0 Hq) as [? ->]; simpl end).
  eexists; split; [done|]. by split_and!.
Qed.
End disk_rules.

(** ** Properties *)


(** a directory move is all or nothing, never replaces a quarantine entry,
    and leaves the directory in exactly one of its two places. *)
Theorem move_directory_atomic `{StoreEnv} m id t (w : World) :
  wp (move_directory m id t) (λ r w',
    w_disk w' = w_disk w ∧ is_ok r = false ∨
    ∃ dir, d_containers (w_disk w) !! id = Some dir ∧ d_quarantine (w_disk w) !! t = None ∧
      d_containers (w_disk w') !! id = None ∧ d_quarantine (w_disk w') !! t = Some dir) w.
Proof.
  apply wp_move_directory; [intros e w' Hw; by left|].
  intros r w' [dir Hdir] Ht Hw. right. exists dir. rewrite Hw. unfold move_to_quarantine.
  rewrite Hdir. simpl. by rewrite lookup_delete_eq, lookup_insert_eq.
Qed.
