(* ===== verification/RestoreContract.v ===== *)
(** * Restore requests against bundles and attachments (crates/sdk/src/checkpoint/request.rs,
      checkpoint/response.rs)

    The part of the checkpoint contracts that reads the OCI bundle and the
    attachment contract, which are parameters of the store. *)

From stdpp Require Import base gmap strings list.
From S2P Require Import Prelude Sdk Identifiers Lifecycle OciState Contracts StoreModel Disk.
Local Open Scope string_scope.
Local Open Scope Z_scope.

Section restore_contract.
Context `{SE : StoreEnv}.

(** The I/O of the configured process resolves; [validate_without_process] is
    [resolve] without a terminal. *)
Definition validate_process_io (attachments : CreateAttachments) (bundle : OciBundle)
    : Result () :=
  let io := attachments_process_io attachments in
  try! _io :=
    match bundle_process bundle with
    | Some process => resolve_for_process io process
    | None => resolve_io io false None
    end in
  Ok ().

(** [RestoreRequest::validate_contract], also its [validate], and [new] *)
Definition restore_request_validate (r : RestoreRequest) : Result () :=
  check! bundle_validate_create (rr_bundle r);
  check! attachments_validate (rr_attachments r) (rr_bundle r);
  check! attachments_validate_isolation (rr_attachments r) (rr_isolation r);
  check! validate_process_io (rr_attachments r) (rr_bundle r);
  try! reference := restore_reference r in
  check! reference_validate reference;
  check! reject_if
    (bool_decide (bundle_config_digest (rr_bundle r) ≠ cref_source_config_digest reference))
    (checkpoint_error "restore bundle digest does not match the immutable checkpoint source");
  reject_if
    (bool_decide (isolation_class (rr_isolation r) ≠ cc_isolation (cref_compatibility reference)))
    (checkpoint_error "restore isolation does not match the immutable checkpoint reference").
Definition restore_request_new (context : OperationContext) (id : string) (bundle : OciBundle)
    (artifact_path : string) (isolation : IsolationRequest) (attachments : CreateAttachments)
    (reference : CheckpointReference) : Result RestoreRequest :=
  let r := mkRestoreRequest context id bundle artifact_path isolation attachments
             (Some reference) in
  check! restore_request_validate r; Ok r.

(** [RestoreResponse::validate_for_request] *)
Definition restore_response_validate_for_request (r : RestoreResponse) (request : RestoreRequest)
    : Result () :=
  check! restore_request_validate request;
  try! expected_attachments := attachments_digest (rr_attachments request) in
  try! reference := restore_reference request in
  reject_if
    (bool_decide (rresp_reference r ≠ reference)
     || bool_decide (st_id (cr_state (rresp_restored r)) ≠ rr_id request)
     || bool_decide (st_bundle (cr_state (rresp_restored r)) ≠ bundle_directory (rr_bundle request))
     || bool_decide (cr_attachments_digest (rresp_restored r) ≠ Some expected_attachments))
    (checkpoint_error "restore response does not match the requested reference, ID, bundle, and attachments").
End restore_contract.
