(* ===== verification/Journal.v ===== *)
(** * Operation journal and record loading (crates/runtime/src/state/operation.rs,
      state/mod.rs)

    Request digests, retry validation and deadlines; the loads of operation
    entries, container records and bundles with every check they make; the
    generation counter.  A load is a pure function of the state root. *)

From stdpp Require Import base gmap strings list.
From S2P Require Import Prelude Sdk Identifiers Lifecycle Fault OciState Contracts StoreModel Disk RestoreContract.
Local Open Scope string_scope.
Local Open Scope Z_scope.

(** Results of the two-phase operations (state/mod.rs). *)
Inductive RecordOperationPreparation : Type :=
  | RecordPrepared (r : ContainerRecord)
  | RecordResume (r : ContainerRecord)
  | RecordReplayed (r : ContainerRecord).
Inductive DeletePreparation : Type :=
  | DeletePrepared (r : ContainerRecord)
  | DeleteResume (r : ContainerRecord)
  | DeleteReplayed.
Inductive ProcessOperationPreparation : Type :=
  | ProcessPrepared (r : ProcessRecord)
  | ProcessResume (r : ProcessRecord)
  | ProcessReplayed (r : ProcessRecord).
Inductive SignalProcessPreparation : Type :=
  | SignalPrepared (t : ProcessTarget)
  | SignalResume (t : ProcessTarget)
  | SignalReplayed.
Inductive ProcessWaitPreparation : Type :=
  | WaitReplayed (s : ExitStatus)
  | WaitPrepared (t : ProcessTarget).
Inductive ProcessIoPreparation : Type :=
  | IoPrepared (t : ProcessTarget)
  | IoResume (t : ProcessTarget)
  | IoReplayed.

(** ** operation.rs *)

Record RequestDigests : Type := mkRequestDigests {
  legacy : string;
  canonical : string
}.

(** [RequestDigests::current] *)
Definition current (d : RequestDigests) : string := canonical d.

(** [RequestDigests::for_schema] *)
Definition for_schema (d : RequestDigests) (schema_version : string) : option string :=
  if bool_decide (schema_version = OPERATION_SCHEMA_VERSION_V1) then Some (legacy d)
  else if bool_decide (schema_version ∈
      [OPERATION_SCHEMA_VERSION_V2; OPERATION_SCHEMA_VERSION_V3; OPERATION_SCHEMA_VERSION_V4;
       OPERATION_SCHEMA_VERSION_V5; OPERATION_SCHEMA_VERSION])
  then Some (canonical d)
  else None.

Definition known_operation_schema (v : string) : bool :=
  bool_decide (v ∈
    [OPERATION_SCHEMA_VERSION_V1; OPERATION_SCHEMA_VERSION_V2; OPERATION_SCHEMA_VERSION_V3;
     OPERATION_SCHEMA_VERSION_V4; OPERATION_SCHEMA_VERSION_V5; OPERATION_SCHEMA_VERSION]).

(** [generation_conflict] *)
Definition generation_conflict (operation : string) : Error :=
  state_error Conflict operation
    "container {id} generation mismatch: expected {}, current {}".

(** The generation fence of the read APIs:
    [if let Some(expected) = target.generation { if actual != expected { return Err(..) } }] *)
Definition generation_fence (target : ContainerTarget) (actual : Z) (operation : string)
    : Result unit :=
  match ct_generation target with
  | Some expected =>
      reject_if (bool_decide (actual ≠ expected)) (generation_conflict operation)
  | None => Ok ()
  end.

(** [ensure_active_operation] *)
Definition ensure_active_operation (stored : StoredContainer) (operation_id : string)
    (operation : string) : Result unit :=
  match sc_active_operation stored with
  | Some active =>
      if bool_decide (active = operation_id) then Ok ()
      else Err (state_error Conflict operation
                  "container {} is owned by active operation {active}, not {operation_id}")
  | None => Ok ()
  end.

Section journal.
Context `{SE : StoreEnv}.

Definition sha256_digest (bytes : string) : string := "sha256:" +:+ sha256_hex bytes.

Definition request_digest (value : Fingerprint) (operation : string) : Result RequestDigests :=
  try! legacy := ok_or
    (state_error Internal operation
       "failed to encode legacy operation request fingerprint: {error}")
    (json_to_vec value) in
  try! canonical := ok_or
    (state_error Internal operation
       "failed to encode canonical operation request fingerprint: {error}")
    (canonical_json_bytes value) in
  Ok (mkRequestDigests (sha256_digest legacy) (sha256_digest canonical)).

(** [validate_deadline]: [SystemTime::now()] before the epoch is an error,
    [as_millis] truncates. *)
Definition validate_deadline (context : OperationContext) (operation : string) : M () :=
  match oc_deadline_unix_ms context with
  | None => ret ()
  | Some deadline =>
      let! now := system_time_now in
      do! lift (reject_if (bool_decide (now < 0))
        (state_error Internal operation "system clock is before the Unix epoch: {error}"));
      lift (reject_if (bool_decide (deadline ≤ now / 1000000))
        (state_error DeadlineExceeded operation "operation deadline {deadline} has expired"))
  end.

Definition validate_retry (stored : StoredOperation) (operation_id : string)
    (kind : StoredOperationKind) (container_id : string) (request_digests : RequestDigests)
    (operation : string) : Result unit :=
  try! expected_digest := ok_or
    (state_error FailedPrecondition operation
       "operation ID {operation_id} uses unsupported durable schema {}")
    (for_schema request_digests (so_schema_version stored)) in
  reject_if (bool_decide (so_kind stored ≠ kind)
             || bool_decide (so_container_id stored ≠ container_id)
             || bool_decide (so_request_digest stored ≠ expected_digest))
    (state_error FailedPrecondition operation
       "operation ID {operation_id} was already used for a different request").

(** ** Operation entries *)

Definition checkpoint_request_digest (r : CheckpointRequest) : Result RequestDigests :=
  request_digest (CheckpointFingerprint (ckr_target r) (ckr_artifact_path r) (ckr_quiesce r))
    "checkpoint".
Definition restore_request_digest (r : RestoreRequest) : Result RequestDigests :=
  try! reference := restore_reference r in
  request_digest (RestoreFingerprint (rr_id r) (rr_bundle r) (rr_artifact_path r)
    (rr_isolation r) (rr_attachments r) reference) "restore".
Definition attestation_request_digest (r : TeeAttestationRequest) : Result RequestDigests :=
  request_digest (AttestationFingerprint (atr_target r) (atr_report_data r)) "attest".

(** [digest.is_ok_and(|digest| digest.current() == operation.request_digest)] *)
Definition digest_matches (r : Result RequestDigests) (op : StoredOperation) : bool :=
  match r with
  | Ok d => bool_decide (current d = so_request_digest op)
  | Err _ => false
  end.

Definition request_target_matches (op : StoredOperation) (t : ContainerTarget) : bool :=
  bool_decide (ct_id t = so_container_id op)
  && match ct_generation t with
     | None => true
     | Some g => bool_decide (g = so_generation op)
     end.

Definition response_target_matches (op : StoredOperation) (t : ContainerTarget) : bool :=
  bool_decide (ct_id t = so_container_id op)
  && bool_decide (ct_generation t = Some (so_generation op)).

(** [context.is_none_or(|context| context.operation_id != operation.operation_id)] *)
Definition context_mismatch (op : StoredOperation) (c : option OperationContext) : bool :=
  match c with
  | None => true
  | Some c => bool_decide (oc_operation_id c ≠ so_operation_id op)
  end.

Definition validate_stored_operation_shape (op : StoredOperation) : Result unit :=
  let invalid := state_error FailedPrecondition "load-operation"
    "invalid durable operation record for {}: {message}" in
  let schema_in l := bool_decide (so_schema_version op ∈ (l : list string)) in
  match so_kind op with
  | KFile =>
      check! reject_if (negb (schema_in [OPERATION_SCHEMA_VERSION_V3; OPERATION_SCHEMA_VERSION_V4;
                                OPERATION_SCHEMA_VERSION_V5; OPERATION_SCHEMA_VERSION])) invalid;
      match so_request op with
      | Some (RequestFile request) =>
          check! reject_if
            (bool_decide (file_op request ≠ Upload)
             || negb (request_target_matches op (file_target request))
             || context_mismatch op (file_context request)
             || negb (is_ok (validate_file_request base64_decoded_len request))) invalid;
          match so_outcome op with
          | Prepared | Failed _ => Ok ()
          | SucceededFilesystem (ResponseFile response) =>
              reject_if (negb (response_target_matches op (fileresp_target response))) invalid
          | _ => Err invalid
          end
      | _ => Err invalid
      end
  | KFilesystem =>
      check! reject_if (negb (schema_in [OPERATION_SCHEMA_VERSION_V3; OPERATION_SCHEMA_VERSION_V4;
                                OPERATION_SCHEMA_VERSION_V5; OPERATION_SCHEMA_VERSION])) invalid;
      match so_request op with
      | Some (RequestFilesystem request) =>
          check! reject_if
            (negb (fs_is_mutating (fs_op request))
             || negb (request_target_matches op (fs_target request))
             || context_mismatch op (fs_context request)
             || negb (is_ok (validate_filesystem_request request))) invalid;
          match so_outcome op with
          | Prepared | Failed _ => Ok ()
          | SucceededFilesystem (ResponseFilesystem response) =>
              reject_if (negb (response_target_matches op (fsresp_target response))) invalid
          | _ => Err invalid
          end
      | _ => Err invalid
      end
  | KCheckpoint =>
      check! reject_if (negb (schema_in [OPERATION_SCHEMA_VERSION_V4;
                                OPERATION_SCHEMA_VERSION_V5; OPERATION_SCHEMA_VERSION])) invalid;
      match so_request op with
      | Some (RequestCheckpoint request) =>
          check! reject_if
            (negb (request_target_matches op (ckr_target request))
             || bool_decide (oc_operation_id (ckr_context request) ≠ so_operation_id op)
             || negb (is_ok (checkpoint_request_validate request))
             || negb (digest_matches (checkpoint_request_digest request) op)) invalid;
          match so_outcome op with
          | Prepared | Failed _ => Ok ()
          | SucceededCheckpoint response =>
              reject_if (negb (is_ok (checkpoint_response_validate_for_request response request))) invalid
          | _ => Err invalid
          end
      | _ => Err invalid
      end
  | KRestore =>
      check! reject_if (negb (schema_in [OPERATION_SCHEMA_VERSION_V5; OPERATION_SCHEMA_VERSION]))
        invalid;
      match so_request op with
      | Some (RequestRestore request) =>
          check! reject_if
            (bool_decide (rr_id request ≠ so_container_id op)
             || bool_decide (oc_operation_id (rr_context request) ≠ so_operation_id op)
             || negb (is_ok (restore_request_validate request))
             || negb (digest_matches (restore_request_digest request) op)) invalid;
          match so_outcome op with
          | Prepared | Failed _ => Ok ()
          | SucceededRestore response =>
              reject_if
                (bool_decide (cr_generation (rresp_restored response) ≠ so_generation op)
                 || negb (is_ok (restore_response_validate_for_request response request))) invalid
          | _ => Err invalid
          end
      | _ => Err invalid
      end
  | KAttest =>
      check! reject_if (bool_decide (so_schema_version op ≠ OPERATION_SCHEMA_VERSION)) invalid;
      match so_request op with
      | Some (RequestAttest request) =>
          check! reject_if
            (negb (response_target_matches op (atr_target request))
             || bool_decide (oc_operation_id (atr_context request) ≠ so_operation_id op)
             || negb (is_ok (attest_request_validate request))
             || negb (digest_matches (attestation_request_digest request) op)) invalid;
          match so_outcome op with
          | Prepared | Failed _ => Ok ()
          | SucceededAttestation response =>
              reject_if (negb (is_ok (attest_response_validate_for_request response request))) invalid
          | _ => Err invalid
          end
      | _ => Err invalid
      end
  | _ =>
      check! reject_if (bool_decide (is_Some (so_request op))) invalid;
      match so_outcome op with
      | SucceededFilesystem _ | SucceededCheckpoint _ | SucceededRestore _
      | SucceededAttestation _ => Err invalid
      | _ => Ok ()
      end
  end.

Definition load_operation (operation_id : string) (d : Disk) : Result StoredOperation :=
  try! operation := ok_or
    (state_error NotFound "load-operation" "operation {operation_id} does not exist")
    (d_operations d !! operation_id) in
  check! reject_if (negb (known_operation_schema (so_schema_version operation))
                    || bool_decide (so_operation_id operation ≠ operation_id))
    (state_error FailedPrecondition "load-operation"
       "invalid durable operation record for {operation_id}");
  check! validate_stored_operation_shape operation;
  Ok operation.

Definition load_operation_if_present (operation_id : string) (d : Disk)
    : Result (option StoredOperation) :=
  match d_operations d !! operation_id with
  | None => Ok None
  | Some _ => try! op := load_operation operation_id d in Ok (Some op)
  end.

(** [operation_exists] *)
Definition operation_exists (operation_id : string) : M bool :=
  read (λ d, try! op := load_operation_if_present operation_id d in
             Ok (bool_decide (is_Some op))).

(** ** Container records *)

Definition load_bundle_from_directory (stored : StoredContainer) (dir : ContainerDir)
    : Result OciBundle :=
  try! config_json := ok_or
    (set_retryable (state_error Unavailable "load-durable-bundle"
       "container {} has no configuration snapshot") true)
    (cd_config dir) in
  bundle_from_json (st_bundle (cr_state (sc_record stored))) config_json.

(** The isolation request that the durable class stands for. *)
Definition durable_isolation (stored : StoredContainer) (attachments : CreateAttachments)
    : Result IsolationRequest :=
  match cr_isolation (sc_record stored) with
  | DedicatedVm => Ok RequestDedicatedVm
  | SharedHostKernel => Ok RequestSharedHostKernel
  | SharedGuestKernel =>
      try! session := ok_or
        (state_error FailedPrecondition "load-container-state"
           "container {id} shared-guest isolation has no durable guest-session attachment")
        (attachments_guest_session attachments) in
      Ok (RequestSharedGuestKernel (gs_trust_domain session))
  end.

Definition validate_attachment_evidence (stored : StoredContainer) (bundle : OciBundle)
    : Result unit :=
  let record := sc_record stored in
  let failed msg := state_error FailedPrecondition "load-container-state" msg in
  match sc_attachments stored, cr_attachments_digest record with
  | Some attachments, Some expected_digest =>
      check! attachments_validate attachments bundle;
      try! isolation := durable_isolation stored attachments in
      check! map_err (λ _, failed
        "container {id} guest-session evidence or TEE launch evidence does not match its durable isolation: {}")
        (attachments_validate_isolation attachments isolation);
      try! expected_network_enforcement := attachments_network_enforcement attachments bundle in
      check! reject_if
        (bool_decide (is_Some (cr_guest_session record))
           && bool_decide (cr_isolation record ≠ SharedGuestKernel)
         || bool_decide (cr_guest_session record ≠ attachments_guest_session attachments)
         || bool_decide (cr_network_enforcement record ≠ expected_network_enforcement))
        (failed "container {id} guest-session evidence or network-enforcement evidence does not match its durable attachment contract");
      try! digest := attachments_digest attachments in
      reject_if (bool_decide (digest ≠ expected_digest))
        (failed "container {id} attachment digest does not match its durable contract")
  | None, None =>
      reject_if (bool_decide (is_Some (cr_guest_session record))
                 || bool_decide (is_Some (cr_network_enforcement record)))
        (failed "container {id} has incomplete durable attachment evidence")
  | _, _ => Err (failed "container {id} has incomplete durable attachment evidence")
  end.

Definition load_stored_container_from_directory (id : string) (dir : ContainerDir)
    : Result StoredContainer :=
  try! stored := ok_or
    (set_retryable (state_error Unavailable "reconcile-container-state"
       "container {id} has no durable record") true)
    (cd_record dir) in
  check! reject_if
    (bool_decide (sc_schema_version stored ≠ CONTAINER_SCHEMA_VERSION)
     || bool_decide (sc_id stored ≠ id)
     || bool_decide (cr_generation (sc_record stored) = 0)
     || bool_decide (st_id (cr_state (sc_record stored)) ≠ id))
    (state_error FailedPrecondition "load-container-state"
       "invalid durable container record for {id}");
  check! schema_validate_state (cr_state (sc_record stored));
  try! bundle := load_bundle_from_directory stored dir in
  check! reject_if (bool_decide (bundle_config_digest bundle ≠ cr_config_digest (sc_record stored)))
    (state_error FailedPrecondition "load-container-state"
       "container {id} configuration digest does not match its snapshot");
  check! validate_attachment_evidence stored bundle;
  Ok stored.

Definition load_stored_container (id : string) (d : Disk) : Result StoredContainer :=
  try! dir := ok_or
    (state_error NotFound "load-container-state" "container {id} does not exist")
    (d_containers d !! id) in
  load_stored_container_from_directory id dir.

Definition load_stored_exact (id : string) (generation : Z) (d : Disk)
    : Result StoredContainer :=
  try! stored := map_err (λ error,
      if bool_decide (code error = NotFound) then
        set_retryable (state_error Unavailable "reconcile-operation"
          "operation journal references missing container {id} generation {}") true
      else error)
    (load_stored_container id d) in
  check! reject_if (bool_decide (cr_generation (sc_record stored) ≠ generation))
    (generation_conflict "reconcile-operation");
  Ok stored.

Definition load_bundle (stored : StoredContainer) (d : Disk) : Result OciBundle :=
  load_bundle_from_directory stored (default empty_dir (d_containers d !! sc_id stored)).

(** [DurableStateStore::state], [bundle], [attachment_contract] *)
Definition state (target : ContainerTarget) : M ContainerRecord :=
  read (λ d,
    try! stored := load_stored_container (ct_id target) d in
    check! generation_fence target (cr_generation (sc_record stored)) "state";
    Ok (sc_record stored)).

Definition bundle (target : ContainerTarget) : M OciBundle :=
  read (λ d,
    try! stored := load_stored_container (ct_id target) d in
    check! generation_fence target (cr_generation (sc_record stored)) "load-durable-bundle";
    load_bundle stored d).

Definition attachment_contract (target : ContainerTarget) : M (option CreateAttachments) :=
  read (λ d,
    try! stored := load_stored_container (ct_id target) d in
    check! generation_fence target (cr_generation (sc_record stored))
      "load-durable-attachments";
    Ok (sc_attachments stored)).

(** ** The generation counter *)

Definition last_generation (id : string) (d : Disk) : Result Z :=
  match d_generations d !! id with
  | Some stored =>
      check! reject_if (bool_decide (sg_schema_version stored ≠ GENERATION_SCHEMA_VERSION)
                        || bool_decide (sg_id stored ≠ id))
        (state_error FailedPrecondition "allocate-generation"
           "invalid generation record for {id}");
      Ok (sg_last_generation stored)
  | None => Ok 0
  end.

Definition next_generation (id : string) : M Z :=
  let! last := read (last_generation id) in
  let! next := lift (ok_or
    (state_error ResourceExhausted "allocate-generation"
       "container {id} exhausted its generation counter")
    (checked_add_u64 last 1)) in
  do! write_json AllocateGeneration
    (FileGeneration id (mkStoredGeneration GENERATION_SCHEMA_VERSION id next));
  ret next.
End journal.
