(* ===== verification/Events.v ===== *)
(** * Durable event journal (crates/runtime/src/state/event.rs, event/audit.rs)

    An event is appended in three commits: the sequence cursor advances, a
    claim binds the event's stable identity to that sequence, and the record
    of the sequence is written.  A retry finds the claim and completes the
    record; a poll repairs pending records before it reads. *)

From stdpp Require Import base gmap strings list pretty sorting.
From Stdlib Require Import Ascii.
From S2P Require Import Prelude Sdk Identifiers Fault OciState Contracts StoreModel Disk RestoreContract Journal.
Local Open Scope string_scope.
Local Open Scope Z_scope.

(** ** String helpers of the standard library *)

(** [str::strip_suffix] *)
Fixpoint strip_suffix (suffix s : string) : option string :=
  if bool_decide (s = suffix) then Some ""
  else match s with
       | EmptyString => None
       | String c s' => String c <$> strip_suffix suffix s'
       end.

(** [str::rsplit_once(':')] *)
Fixpoint rsplit_once (sep : ascii) (s : string) : option (string * string) :=
  match s with
  | EmptyString => None
  | String c s' =>
      match rsplit_once sep s' with
      | Some (a, b) => Some (String c a, b)
      | None => if bool_decide (c = sep) then Some ("", s') else None
      end
  end.

Definition digit_value (c : ascii) : Z := Z.of_N (N_of_ascii c) - 48.

(** The value of a digit string. *)
Fixpoint decimal_value (acc : Z) (s : string) : Z :=
  match s with
  | EmptyString => acc
  | String c s' => decimal_value (10 * acc + digit_value c) s'
  end.

(** [format!("{sequence:020}")], digit by digit from the most significant. *)
Definition decimal_digit (n : Z) : ascii := ascii_of_N (Z.to_N (48 + n mod 10)).
Fixpoint decimal_digits (width : nat) (n : Z) : string :=
  match width with
  | O => EmptyString
  | S w => String (decimal_digit (n / 10 ^ Z.of_nat w)) (decimal_digits w n)
  end.
Definition event_record_name (sequence : Z) : string := decimal_digits 20 sequence +:+ ".json".

(** ** Entry names *)

Definition invalid_event_entry : Error :=
  state_error FailedPrecondition "poll-runtime-events"
    "{label} directory contains invalid entry {name:?}".

Definition parse_event_record_name (name : string) : Result Z :=
  try! value := ok_or invalid_event_entry (strip_suffix ".json" name) in
  check! reject_if (negb (bool_decide (String.length value = 20%nat))
                    || negb (all_bytes is_ascii_digit value)) invalid_event_entry;
  let v := decimal_value 0 value in
  check! reject_if (bool_decide (u64_max < v)) invalid_event_entry;
  Ok v.

Definition parse_event_claim_name (name : string) : Result string :=
  try! value := ok_or invalid_event_entry (strip_suffix ".json" name) in
  check! reject_if (negb (bool_decide (String.length value = 64%nat))
                    || negb (all_bytes is_lower_hex value)) invalid_event_entry;
  Ok value.

(** ** Pure validation *)

Definition exact_target_key (target : ContainerTarget) : Result string :=
  try! generation := ok_or
    (state_error InvalidArgument "append-runtime-event"
       "runtime events require an exact container generation")
    (ct_generation target) in
  check! reject_if (bool_decide (generation = 0))
    (state_error InvalidArgument "append-runtime-event"
       "runtime events require a nonzero container generation");
  Ok (ct_id target +:+ ":" +:+ pretty generation).

Definition OPERATION_ID_ATTRIBUTE : string := "operation-id".

Definition validate_claimed_event (event : RuntimeEvent) (target : ContainerTarget)
    (operation_id process_id : option string) (kind : RuntimeEventKind)
    (attributes : gmap string string) : Result unit :=
  let operation_matches :=
    bool_decide (ev_operation_id event = operation_id)
    || bool_decide (ev_operation_id event = None)
       && match operation_id with
          | Some o => bool_decide (ev_attributes event !! OPERATION_ID_ATTRIBUTE = Some o)
          | None => false
          end in
  reject_if (negb (bool_decide (ev_container event = target)
                   && operation_matches
                   && bool_decide (ev_process_id event = process_id)
                   && bool_decide (ev_kind event = kind)
                   && bool_decide (ev_attributes event = attributes)))
    (state_error Conflict "append-runtime-event"
       "runtime event identity was reused with different contents").

Definition validate_exact_event_target (event : RuntimeEvent) : Result unit :=
  let failed msg := state_error FailedPrecondition "validate-runtime-event" msg in
  check! exact_target_key (ev_container event);
  check! reject_if (bool_decide (ev_sequence event = 0)
                    || bool_decide (ev_timestamp_unix_ns event = 0))
    (failed "runtime event sequence and timestamp must be nonzero");
  check! match ev_operation_id event with
         | Some o =>
             reject_if (bool_decide (ev_attributes event !! OPERATION_ID_ATTRIBUTE ≠ Some o))
               (failed "typed runtime event operation identity does not match its compatibility attribute")
         | None => Ok ()
         end;
  match ev_kind event with
  | ProcessCreated | ProcessStarted | ProcessExited =>
      reject_if (bool_decide (ev_process_id event = None))
        (failed "process runtime event has no process identity")
  | ContainerCreating | ContainerCreated | ContainerStarted | ContainerStopped
  | ContainerDeleted | ContainerPaused | ContainerResumed | ContainerAttested
  | ResourcesUpdated =>
      reject_if (bool_decide (is_Some (ev_process_id event)))
        (failed "container runtime event unexpectedly has a process identity")
  | OutputDropped | RuntimeWarning => Ok ()
  end.

Definition validate_event_record (stored : StoredEventRecord) (sequence last_sequence : Z)
    : Result unit :=
  check! reject_if (bool_decide (sr_schema_version stored ≠ EVENT_RECORD_SCHEMA_VERSION)
                    || bool_decide (sequence = 0)
                    || bool_decide (ev_sequence (sr_event stored) ≠ sequence)
                    || bool_decide (last_sequence < sequence))
    (state_error FailedPrecondition "poll-runtime-events"
       "invalid durable runtime event record at sequence {sequence}");
  validate_exact_event_target (sr_event stored).

Definition validate_event_identity (identity : string) (event : RuntimeEvent) : Result unit :=
  let failed msg := state_error FailedPrecondition "validate-runtime-event" msg in
  match strip_prefix "operation:" identity with
  | None =>
      reject_if (bool_decide (is_Some (ev_operation_id event))
                 || bool_decide (is_Some (ev_attributes event !! OPERATION_ID_ATTRIBUTE)))
        (failed "non-operation runtime event carries an operation identity projection")
  | Some operation_identity =>
      try! p := ok_or (failed "operation runtime event has an invalid durable identity")
        (rsplit_once ":" operation_identity) in
      let '(operation_id, suffix) := p in
      check! reject_if (bool_decide (suffix = ""))
        (failed "operation runtime event has an empty identity suffix");
      check! map_err
        (λ _, failed "operation runtime event has an invalid operation identity: {error}")
        (validate_identifier operation_id);
      let observed :=
        match ev_operation_id event with
        | Some o => Some o
        | None => ev_attributes event !! OPERATION_ID_ATTRIBUTE
        end in
      reject_if (bool_decide (observed ≠ Some operation_id))
        (failed "operation runtime event does not match its durable identity")
  end.

Definition event_matches_filter (event : RuntimeEvent) (filter : option ContainerTarget) : bool :=
  match filter with
  | None => true
  | Some filter =>
      bool_decide (ct_id filter = ct_id (ev_container event))
      && match ct_generation filter with
         | None => true
         | Some generation => bool_decide (ct_generation (ev_container event) = Some generation)
         end
  end.

(** [records.sort_by_key(|event| event.sequence)] *)
Definition sequence_le (a b : RuntimeEvent) : Prop := ev_sequence a ≤ ev_sequence b.
#[global] Instance sequence_le_dec : RelDecision sequence_le.
Proof. intros a b. unfold sequence_le. apply _. Defined.
Definition sort_events (l : list RuntimeEvent) : list RuntimeEvent := merge_sort sequence_le l.

(** [windows(2).any(|w| w[0].sequence == w[1].sequence)] *)
Fixpoint adjacent_duplicate (l : list RuntimeEvent) : bool :=
  match l with
  | a :: ((b :: _) as l') => bool_decide (ev_sequence a = ev_sequence b) || adjacent_duplicate l'
  | _ => false
  end.

(** The selection loop of [poll_events] from the events selected so far: whether
    the limit was reached, the selection and the sequence reached. *)
Fixpoint select_events (filter : option ContainerTarget) (limit : Z)
    (records : list RuntimeEvent) (events : list RuntimeEvent) (next_sequence : Z)
    : bool * list RuntimeEvent * Z :=
  match records with
  | [] => (false, events, next_sequence)
  | event :: records' =>
      let next_sequence := ev_sequence event in
      if event_matches_filter event filter then
        let events := (events ++ [event])%list in
        if bool_decide (Z.of_nat (length events) = limit) then (true, events, next_sequence)
        else select_events filter limit records' events next_sequence
      else select_events filter limit records' events next_sequence
  end.

Section events.
Context `{SE : StoreEnv}.

Definition event_identity_hash (identity : string) : string := sha256_hex identity.

Definition load_event_cursor (d : Disk) : Result StoredEventCursor :=
  match d_cursor d with
  | None => Ok (mkStoredEventCursor EVENT_CURSOR_SCHEMA_VERSION 0)
  | Some cursor =>
      check! reject_if (bool_decide (sec_schema_version cursor ≠ EVENT_CURSOR_SCHEMA_VERSION))
        (state_error FailedPrecondition "load-runtime-event-cursor"
           "invalid durable runtime event cursor {}");
      Ok cursor
  end.

Definition load_event_claim (claim : StoredEventClaim) (identity : string) (d : Disk)
    : Result StoredEventClaim :=
  check! reject_if (bool_decide (sk_schema_version claim ≠ EVENT_CLAIM_SCHEMA_VERSION)
                    || bool_decide (sk_identity claim ≠ identity))
    (state_error FailedPrecondition "load-runtime-event-claim"
       "invalid durable runtime event claim {}");
  check! validate_exact_event_target (sk_event claim);
  check! validate_event_identity (sk_identity claim) (sk_event claim);
  try! cursor := load_event_cursor d in
  check! reject_if (bool_decide (ev_sequence (sk_event claim) = 0)
                    || bool_decide (sec_last_sequence cursor < ev_sequence (sk_event claim)))
    (state_error FailedPrecondition "load-runtime-event-claim"
       "runtime event claim sequence {} exceeds durable cursor {}");
  Ok claim.

Definition ensure_event_record (event : RuntimeEvent) : M () :=
  let expected := mkStoredEventRecord EVENT_RECORD_SCHEMA_VERSION event in
  let! actual := read (λ d, Ok (d_events d !! ev_sequence event)) in
  match actual with
  | Some actual =>
      lift (reject_if (bool_decide (actual ≠ expected))
        (state_error Conflict "store-runtime-event"
           "runtime event sequence {} is already bound to different contents"))
  | None => write_json StoreRuntimeEvent (FileEvent (ev_sequence event) expected)
  end.

(** [u64::try_from(SystemTime::now().duration_since(UNIX_EPOCH)?.as_nanos())?] *)
Definition event_timestamp : M Z :=
  let! now := system_time_now in
  do! lift (reject_if (bool_decide (now < 0))
    (state_error Internal "append-runtime-event"
       "system clock precedes the Unix epoch: {error}"));
  do! lift (reject_if (bool_decide (u64_max < now))
    (state_error ResourceExhausted "append-runtime-event"
       "runtime event timestamp does not fit u64: {error}"));
  ret now.

Definition append_event (identity : string) (target : ContainerTarget)
    (operation_id process_id : option string) (kind : RuntimeEventKind)
    (attributes : gmap string string) : M RuntimeEvent :=
  do! lift (exact_target_key target);
  let hash := event_identity_hash identity in
  let! existing := read (λ d, Ok (d_claims d !! hash)) in
  match existing with
  | Some stored =>
      let! claim := read (load_event_claim stored identity) in
      do! lift (validate_claimed_event (sk_event claim) target operation_id process_id kind
                  attributes);
      do! ensure_event_record (sk_event claim);
      ret (sk_event claim)
  | None =>
      let! cursor := read load_event_cursor in
      let! sequence := lift (ok_or
        (state_error ResourceExhausted "append-runtime-event"
           "runtime event sequence is exhausted")
        (checked_add_u64 (sec_last_sequence cursor) 1)) in
      do! write_json AdvanceEventSequence
        (FileCursor (mkStoredEventCursor (sec_schema_version cursor) sequence));
      let! timestamp_unix_ns := event_timestamp in
      let event := mkRuntimeEvent sequence timestamp_unix_ns target operation_id process_id
        kind attributes in
      do! lift (validate_exact_event_target event);
      do! write_json ClaimRuntimeEvent
        (FileClaim hash (mkStoredEventClaim EVENT_CLAIM_SCHEMA_VERSION identity event));
      do! ensure_event_record event;
      ret event
  end.

Definition append_container_event (identity_suffix : string) (target : ContainerTarget)
    (kind : RuntimeEventKind) (attributes : gmap string string) : M RuntimeEvent :=
  let! key := lift (exact_target_key target) in
  append_event ("container:" +:+ key +:+ ":" +:+ identity_suffix) target None None kind
    attributes.

Definition append_process_event (identity_suffix : string) (target : ContainerTarget)
    (process_id : string) (kind : RuntimeEventKind) (attributes : gmap string string)
    : M RuntimeEvent :=
  let! key := lift (exact_target_key target) in
  append_event ("process:" +:+ key +:+ ":" +:+ process_id +:+ ":" +:+ identity_suffix)
    target None (Some process_id) kind attributes.

Definition append_operation_event (operation_id identity_suffix : string)
    (target : ContainerTarget) (process_id : option string) (kind : RuntimeEventKind)
    (attributes : gmap string string) : M RuntimeEvent :=
  append_event ("operation:" +:+ operation_id +:+ ":" +:+ identity_suffix)
    target (Some operation_id) process_id kind attributes.

(** ** Polling *)

(** The checks both [repair_pending_event_records] and [audit_event_journal]
    make on one claim file. *)
Definition validate_claim_entry (operation hash : string) (claim : StoredEventClaim)
    (last_sequence : Z) : Result unit :=
  try! expected_hash := parse_event_claim_name (record_file_name hash) in
  check! reject_if
    (bool_decide (sk_schema_version claim ≠ EVENT_CLAIM_SCHEMA_VERSION)
     || bool_decide (event_identity_hash (sk_identity claim) ≠ expected_hash)
     || bool_decide (ev_sequence (sk_event claim) = 0)
     || bool_decide (last_sequence < ev_sequence (sk_event claim)))
    (state_error FailedPrecondition operation "invalid durable runtime event claim {name:?}");
  check! validate_exact_event_target (sk_event claim);
  validate_event_identity (sk_identity claim) (sk_event claim).

Fixpoint repair_claims (last_sequence : Z) (claims : list (string * StoredEventClaim))
    (claimed_sequences : gset Z) : M (gset Z) :=
  match claims with
  | [] => ret claimed_sequences
  | (hash, claim) :: claims' =>
      do! lift (validate_claim_entry "repair-runtime-events" hash claim last_sequence);
      do! lift (reject_if (bool_decide (ev_sequence (sk_event claim) ∈ claimed_sequences))
        (state_error FailedPrecondition "repair-runtime-events"
           "runtime event sequence {} has more than one durable identity claim"));
      do! ensure_event_record (sk_event claim);
      repair_claims last_sequence claims' ({[ev_sequence (sk_event claim)]} ∪ claimed_sequences)
  end.

Definition repair_pending_event_records : M (gset Z) :=
  let! cursor := read load_event_cursor in
  let! claims := read (λ d, Ok (map_to_list (d_claims d))) in
  repair_claims (sec_last_sequence cursor) claims ∅.

(** One record file of the read loop of [poll_events]. *)
Definition poll_record (claimed : gset Z) (last_sequence after_sequence : Z)
    (records : list RuntimeEvent) (entry : Z * StoredEventRecord)
    : Result (list RuntimeEvent) :=
  try! sequence := parse_event_record_name (event_record_name entry.1) in
  check! validate_event_record entry.2 sequence last_sequence;
  check! reject_if (bool_decide (sequence ∉ claimed))
    (state_error FailedPrecondition "poll-runtime-events"
       "runtime event sequence {sequence} has no durable identity claim");
  Ok (if bool_decide (after_sequence < sequence)
      then (records ++ [sr_event entry.2])%list else records).

Definition read_events (claimed : gset Z) (filter : option ContainerTarget)
    (after_sequence limit : Z) (d : Disk) : Result EventBatch :=
  try! cursor := load_event_cursor d in
  try! records := rfold (poll_record claimed (sec_last_sequence cursor) after_sequence) []
    (map_to_list (d_events d)) in
  let records := sort_events records in
  check! reject_if (adjacent_duplicate records)
    (state_error FailedPrecondition "poll-runtime-events"
       "runtime event journal contains duplicate sequences");
  let '(full, events, next_sequence) :=
    select_events filter limit records [] after_sequence in
  Ok (mkEventBatch events
        (if full : bool then next_sequence
         else Z.max next_sequence (sec_last_sequence cursor))).

Definition poll_events (filter : option ContainerTarget) (after_sequence limit : Z)
    : M EventBatch :=
  let! claimed_sequences := repair_pending_event_records in
  read (read_events claimed_sequences filter after_sequence limit).

(** [events]: the answer without a wait timeout, and with one when no
    notification arrives before it: one poll. *)
Definition events (request : EventsRequest) : M EventBatch :=
  do! lift (validate_events_request request);
  poll_events (events_container request) (events_after_sequence request) (events_limit request).

(** ** Startup audit of the journal (event/audit.rs) *)

Definition audit_claim (last_sequence : Z) (claims : gmap Z RuntimeEvent)
    (entry : string * StoredEventClaim) : Result (gmap Z RuntimeEvent) :=
  check! validate_claim_entry "audit-runtime-events" entry.1 entry.2 last_sequence;
  let event := sk_event entry.2 in
  check! reject_if (bool_decide (is_Some (claims !! ev_sequence event)))
    (state_error FailedPrecondition "audit-runtime-events"
       "runtime event sequence has more than one durable identity claim");
  Ok (<[ev_sequence event := event]> claims).

Definition audit_record (last_sequence : Z) (claims : gmap Z RuntimeEvent)
    (u : ()) (entry : Z * StoredEventRecord) : Result () :=
  try! sequence := parse_event_record_name (event_record_name entry.1) in
  check! validate_event_record entry.2 sequence last_sequence;
  match claims !! sequence with
  | Some claimed =>
      reject_if (bool_decide (claimed ≠ sr_event entry.2))
        (state_error FailedPrecondition "audit-runtime-events"
           "runtime event sequence {sequence} disagrees with its durable identity claim")
  | None =>
      Err (state_error FailedPrecondition "audit-runtime-events"
             "runtime event sequence {sequence} has no durable identity claim")
  end.

Definition audit_event_journal (d : Disk) : Result unit :=
  try! cursor := load_event_cursor d in
  try! claims := rfold (audit_claim (sec_last_sequence cursor)) ∅ (map_to_list (d_claims d)) in
  rfold (audit_record (sec_last_sequence cursor) claims) () (map_to_list (d_events d)).
End events.
