(* ===== verification/Claims.v ===== *)
(** * Exclusive operation claims (crates/runtime/src/state/mod.rs, state/process_io.rs,
      state/process.rs)

    A container record, and each process record, names at most one active
    lifecycle operation and any number of active I/O operations.  The functions
    here take, check and migrate those claims. *)

From stdpp Require Import base gmap strings list.
From S2P Require Import Prelude Sdk Identifiers Lifecycle Fault OciState Contracts StoreModel Disk.
From S2P Require Import RestoreContract Journal.
Local Open Scope string_scope.
Local Open Scope Z_scope.

(** [is_process_io_kind] *)
Definition is_process_io_kind (kind : StoredOperationKind) : bool :=
  match kind with KWriteStdin | KCloseStdin | KResize => true | _ => false end.

(** [is_creation] of failure.rs *)
Definition is_creation (kind : StoredOperationKind) : bool :=
  match kind with KCreate | KRestore => true | _ => false end.

(** [exact_process_target] *)
Definition exact_process_target (container : StoredContainer) (process_id : string)
    : ProcessTarget :=
  mkProcessTarget (target_exact (sc_id container) (cr_generation (sc_record container)))
    process_id.

(** [validate_legacy_io_operation] *)
Definition validate_legacy_io_operation (operation : StoredOperation) (container_id : string)
    (generation : Z) (init : bool) : Result unit :=
  let process_matches :=
    match so_process_id operation with
    | Some process_id => Bool.eqb (is_init process_id) init
    | None => false
    end in
  reject_if (bool_decide (so_container_id operation ≠ container_id)
             || bool_decide (so_generation operation ≠ generation)
             || negb process_matches
             || negb (is_prepared (so_outcome operation)))
    (state_error FailedPrecondition "migrate-process-io-claim"
       "legacy process I/O operation {} does not match its active durable claim").

Definition ensure_container_unclaimed (container : StoredContainer) (operation : string)
    : Result unit :=
  reject_if (bool_decide (is_Some (sc_active_operation container)))
    (set_retryable (state_error Conflict operation
       "container {} is owned by active operation {active}") true).

Definition validate_requested_generation (container : StoredContainer) (target : ContainerTarget)
    (operation : string) : Result unit :=
  generation_fence target (cr_generation (sc_record container)) operation.

Definition required_operation_process_id (operation : StoredOperation) (operation_name : string)
    : Result string :=
  ok_or (state_error FailedPrecondition operation_name
           "process operation {} has no durable process ID")
    (so_process_id operation).

Definition ensure_active_process_operation (process : StoredProcess) (operation_id : string)
    (operation : string) : Result unit :=
  match sp_active_operation process with
  | Some active =>
      if bool_decide (active = operation_id) then Ok ()
      else Err (state_error Conflict operation
                  "process {} is owned by active operation {active}, not {operation_id}")
  | None => Ok ()
  end.

Definition ensure_active_init_io_operation (container : StoredContainer) (operation_id : string)
    (operation : string) : Result unit :=
  if bool_decide (operation_id ∈ sc_init_io_operations container) then Ok ()
  else if bool_decide (sc_active_operation container = Some operation_id) then Ok ()
  else Err (state_error Conflict operation
              "container {} init I/O is not owned by operation {operation_id}").

Definition ensure_active_process_io_operation (process : StoredProcess) (operation_id : string)
    (operation : string) : Result unit :=
  if bool_decide (operation_id ∈ sp_active_io_operations process)
     || bool_decide (sp_active_operation process = Some operation_id)
  then Ok ()
  else Err (state_error Conflict operation
              "process {} I/O is not owned by operation {operation_id}").

Section claims.
Context `{SE : StoreEnv}.

(** [write_json(mutation, container_directory(id).join("record.json"), stored)] *)
Definition write_record (m : DurableMutation) (id : string) (stored : StoredContainer) : M () :=
  write_json m (FileRecord id stored).

(** [write_json(mutation, operation_path(id), operation)] *)
Definition write_operation (m : DurableMutation) (id : string) (operation : StoredOperation)
    : M () :=
  write_json m (FileOperation id operation).

(** [write_json(mutation, process_path(target), process)] *)
Definition write_process (m : DurableMutation) (target : ProcessTarget) (process : StoredProcess)
    : M () :=
  write_json m (FileProcess (ct_id (pt_container target)) (pt_process_id target) process).

(** [migrate_legacy_init_io_claim]: the updated record when the active
    operation is a migrated process-I/O claim, [None] otherwise. *)
Definition migrate_legacy_init_io_claim (container : StoredContainer) (d : Disk)
    : Result (option StoredContainer) :=
  match sc_active_operation container with
  | None => Ok None
  | Some operation_id =>
      try! operation := load_operation operation_id d in
      if negb (is_process_io_kind (so_kind operation)) then Ok None
      else
        check! validate_legacy_io_operation operation (sc_id container)
          (cr_generation (sc_record container)) true;
        Ok (Some (set_sc_init_io ({[operation_id]} ∪ sc_init_io_operations container)
                    (set_sc_active None container)))
  end.

(** [migrate_legacy_process_io_claim] *)
Definition migrate_legacy_process_io_claim (process : StoredProcess) (d : Disk)
    : Result (option StoredProcess) :=
  match sp_active_operation process with
  | None => Ok None
  | Some operation_id =>
      try! operation := load_operation operation_id d in
      if negb (is_process_io_kind (so_kind operation)) then Ok None
      else
        let target := pr_target (sp_record process) in
        try! generation := ok_or
          (state_error FailedPrecondition "migrate-process-io-claim"
             "legacy process I/O claim does not have an exact container generation")
          (ct_generation (pt_container target)) in
        check! validate_legacy_io_operation operation (ct_id (pt_container target))
          generation (is_init (pt_process_id target));
        check! reject_if (bool_decide (so_process_id operation ≠ Some (pt_process_id target)))
          (state_error FailedPrecondition "migrate-process-io-claim"
             "legacy process I/O operation {operation_id} targets a different process");
        Ok (Some (set_sp_io ({[operation_id]} ∪ sp_active_io_operations process)
                    (set_sp_active None process)))
  end.

(** [claim_active_operation]: returns the claimed record, which the source
    updates in place.  The caller's record is written back whole. *)
Definition claim_active_operation (stored : StoredContainer) (operation_id : string)
    (mutation : DurableMutation) (operation : string) : M StoredContainer :=
  if bool_decide (sc_active_operation stored = Some operation_id) then ret stored
  else
    let! stored :=
      match sc_active_operation stored with
      | None => ret stored
      | Some _ =>
          let! migrated := read (migrate_legacy_init_io_claim stored) in
          match migrated with
          | None =>
              fail (state_error Conflict operation
                "container {} already has active operation {active}")
          | Some stored' =>
              match mutation with
              | ClaimDeleteOperation | ClaimCheckpointOperation =>
                  fail (set_retryable (state_error Conflict operation
                    "container {} init process is owned by active I/O operation {active}") true)
              | _ => ret stored'
              end
          end
      end in
    let stored := set_sc_active (Some operation_id) stored in
    do! write_record mutation (sc_id stored) stored;
    ret stored.

(** [claim_active_process_operation] *)
Definition claim_active_process_operation (process : StoredProcess) (operation_id : string)
    (mutation : DurableMutation) (operation : string) : M StoredProcess :=
  if bool_decide (sp_active_operation process = Some operation_id) then ret process
  else
    let! process :=
      match sp_active_operation process with
      | None => ret process
      | Some _ =>
          let! migrated := read (migrate_legacy_process_io_claim process) in
          match migrated with
          | None =>
              fail (state_error Conflict operation
                "process {} already has active operation {active}")
          | Some process' => ret process'
          end
      end in
    let process := set_sp_active (Some operation_id) process in
    do! write_process mutation (pr_target (sp_record process)) process;
    ret process.
End claims.
