(* ===== verification/Create.v ===== *)
(** * OCI create (crates/runtime/src/state/create.rs, creation.rs, mod.rs, failure.rs)

    Two-phase creation of a container: [prepare_create] reserves a generation
    and the operation, and lays down the container directory; [complete_create]
    commits the driver's result.  A failed creation is quarantined. *)

From stdpp Require Import base gmap strings list pretty.
From S2P Require Import Prelude Sdk Identifiers Lifecycle Fault OciState Contracts StoreModel Disk.
From S2P Require Import RestoreContract Journal.
From S2P Require Import Events Claims.
Local Open Scope string_scope.
Local Open Scope Z_scope.

Record CreationProfile : Type := mkCreationProfile {
  cp_operation : string;
  cp_store_config : DurableMutation;
  cp_store_container : DurableMutation
}.

Definition create_profile : CreationProfile :=
  mkCreationProfile "reconcile-create" StoreCreateConfig StoreCreatingContainer.

(** The kinds of an active operation under which the PID of a completed
    create may have been rebound ([reconcile_succeeded_create]). *)
Definition create_rebind_kind (status : ContainerState) (kind : StoredOperationKind) : bool :=
  match status, kind with
  | Created, (KStart | KAttest) => true
  | Running, (KKill | KPause | KResume | KUpdate | KFile | KFilesystem | KCheckpoint | KAttest) =>
      true
  | _, _ => false
  end.

(** [TransitionError::to_string] *)
Definition transition_text : string :=
  "cannot apply lifecycle event {event:?} while container is {state:?}".

(** [state.transition(event).map_err(..)?] *)
Definition transition_or (operation : string) (s : LifecycleState) (e : LifecycleEvent)
    : Result LifecycleState :=
  match transition s e with
  | Ok s' => Ok s'
  | Err _ => Err (state_error FailedPrecondition operation transition_text)
  end.

Section create.
Context `{SE : StoreEnv}.

(** [CreateRequest::validate] (crates/sdk/src/validation.rs) *)
Definition create_request_validate (request : CreateRequest) : Result unit :=
  check! bundle_validate_create (create_bundle request);
  check! attachments_validate (create_attachments request) (create_bundle request);
  check! attachments_validate_isolation (create_attachments request) (create_isolation request);
  validate_process_io (create_attachments request) (create_bundle request).

Definition create_request_digest (request : CreateRequest)
    (inherited_descriptors : option string) : Result RequestDigests :=
  request_digest
    (CreateRequestFingerprint (create_id request) (create_bundle request)
       (create_isolation request) (create_attachments request) inherited_descriptors)
    "digest-create-request".

Definition validate_create_retry (operation : StoredOperation) (request : CreateRequest)
    (digest : RequestDigests) : Result unit :=
  validate_retry operation (oc_operation_id (create_context request)) KCreate
    (create_id request) digest "prepare-create".

(** ** creation.rs *)

(** The comparison of an existing record with the creation request. *)
Definition creation_record_differs (stored : StoredContainer) (bundle : OciBundle)
    (isolation : IsolationClass) (attachments : CreateAttachments) (driver : DriverKind)
    (network_enforcement : option NetworkEnforcementAttachment) (attachments_digest : string)
    : bool :=
  let record := sc_record stored in
  bool_decide (cr_driver record ≠ driver)
  || bool_decide (cr_isolation record ≠ isolation)
  || bool_decide (cr_guest_session record ≠ attachments_guest_session attachments)
  || bool_decide (cr_network_enforcement record ≠ network_enforcement)
  || bool_decide (cr_config_digest record ≠ bundle_config_digest bundle)
  || bool_decide (cr_attachments_digest record ≠ Some attachments_digest)
  || bool_decide (sc_attachments stored ≠ Some attachments).

Definition reconcile_prepared_container (id : string) (bundle : OciBundle)
    (isolation : IsolationClass) (attachments : CreateAttachments) (driver : DriverKind)
    (generation : Z) (operation_id : string) (profile : CreationProfile) : M StoredContainer :=
  let! attachments_digest := lift (attachments_digest attachments) in
  let! network_enforcement := lift (attachments_network_enforcement attachments bundle) in
  let! exists_ := read (λ d, Ok (container_exists id d)) in
  do! (if exists_ : bool then ret () else create_container_directory id);
  let! config := read (λ d, Ok (d_containers d !! id ≫= cd_config)) in
  do! match config with
      | Some durable_config =>
          lift (reject_if (bool_decide (durable_config ≠ bundle_config bundle))
            (state_error Conflict (cp_operation profile)
               "container {id} configuration snapshot differs from its creation request"))
      | None => write_json (cp_store_config profile) (FileConfig id (bundle_config bundle))
      end;
  let! record := read (λ d, Ok (d_containers d !! id ≫= cd_record)) in
  match record with
  | Some _ =>
      let! stored := read (load_stored_exact id generation) in
      do! lift (reject_if
        (creation_record_differs stored bundle isolation attachments driver
           network_enforcement attachments_digest)
        (state_error Conflict (cp_operation profile)
           "container {id} durable record differs from its creation request"));
      ret stored
  | None =>
      let! state := lift (build_state id bundle Creating None) in
      let record := mkContainerRecord state generation driver isolation
        (attachments_guest_session attachments) network_enforcement
        (bundle_config_digest bundle) (Some attachments_digest) in
      let stored := mkStoredContainer CONTAINER_SCHEMA_VERSION id record (Some attachments)
        (Some operation_id) ∅ None in
      do! write_record (cp_store_container profile) id stored;
      ret stored
  end.

Definition reconcile_prepared_create (request : CreateRequest) (driver : DriverKind)
    (generation : Z) : M StoredContainer :=
  reconcile_prepared_container (create_id request) (create_bundle request)
    (isolation_class (create_isolation request)) (create_attachments request) driver generation
    (oc_operation_id (create_context request)) create_profile.

(** ** failure.rs: quarantine of a failed creation *)

Definition reconcile_failed_creation (operation : StoredOperation) : M () :=
  do! lift (reject_if (negb (is_creation (so_kind operation)))
    (state_error FailedPrecondition "reconcile-failed-creation"
       "operation {} is not an OCI creation operation"));
  do! lift (reject_if (negb (is_failed (so_outcome operation)))
    (state_error FailedPrecondition "reconcile-failed-creation"
       "creation operation {} has not failed"));
  let! '(tombstone, mutation) :=
    match so_kind operation with
    | KCreate =>
        ret (failed_create_tombstone (so_operation_id operation), MoveFailedCreateTombstone)
    | KRestore =>
        ret (failed_restore_tombstone (so_operation_id operation), MoveFailedRestoreTombstone)
    | _ => fail (state_error Internal "reconcile-failed-creation"
             "operation {} reported creation kind {kind:?} without a failure tombstone")
    end in
  let! '(source_exists, tombstone_exists) :=
    read (λ d, Ok (container_exists (so_container_id operation) d,
                   tombstone_exists tombstone d)) in
  match source_exists : bool, tombstone_exists : bool with
  | true, false =>
      let! stored := read (load_stored_exact (so_container_id operation)
                             (so_generation operation)) in
      do! lift (ensure_active_operation stored (so_operation_id operation)
                  "reconcile-failed-creation");
      move_directory mutation (so_container_id operation) tombstone
  | true, true =>
      let! live := read (load_stored_container (so_container_id operation)) in
      lift (reject_if
        (bool_decide (cr_generation (sc_record live) = so_generation operation))
        (state_error Conflict "reconcile-failed-creation"
           "failed creation operation {} has both live state and a tombstone"))
  | false, _ => ret ()
  end.

Definition reconcile_failed_create (operation : StoredOperation) : M () :=
  do! lift (reject_if (bool_decide (so_kind operation ≠ KCreate))
    (state_error FailedPrecondition "reconcile-failed-create"
       "operation {} is not an OCI create"));
  reconcile_failed_creation operation.

Definition reconcile_failed_restore (operation : StoredOperation) : M () :=
  do! lift (reject_if (bool_decide (so_kind operation ≠ KRestore))
    (state_error FailedPrecondition "reconcile-failed-restore"
       "operation {} is not an OCI restore"));
  reconcile_failed_creation operation.

(** ** mod.rs: replay of a completed create *)

(** [match active_operation { Some(id) => .., None => true }]: whether the
    active operation allows the rebinding of the durable PID. *)
Definition active_allows_rebind (allowed : StoredOperationKind → bool)
    (stored : StoredContainer) (d : Disk) : Result bool :=
  match sc_active_operation stored with
  | None => Ok true
  | Some operation_id =>
      try! active := load_operation operation_id d in
      Ok (allowed (so_kind active)
          && bool_decide (so_container_id active = sc_id stored)
          && bool_decide (so_generation active = cr_generation (sc_record stored))
          && is_prepared (so_outcome active))
  end.

(** The record a completed create stands for after its PID was recovered. *)
Definition create_expected_durable (response : ContainerRecord) (stored : StoredContainer)
    : Result ContainerRecord :=
  let durable := cr_state (sc_record stored) in
  try! expected_state := rebuild_state (cr_state response) (st_status durable) (st_pid durable) in
  try! expected_state :=
    (if is_paused durable then rebuild_paused_state expected_state true
     else Ok expected_state) in
  Ok (with_state expected_state response).

Definition reconcile_succeeded_create (operation : StoredOperation)
    (response : ContainerRecord) : M RecordOperationPreparation :=
  catch (read (load_stored_container (so_container_id operation))) (λ loaded,
  match loaded with
  | Err error =>
      if bool_decide (code error = NotFound) then ret (RecordReplayed response) else fail error
  | Ok stored =>
      let record := sc_record stored in
      let durable_status := st_status (cr_state record) in
      if bool_decide (cr_generation record ≠ so_generation operation)
         || bool_decide (record = response)
      then ret (RecordReplayed response)
      else if negb (bool_decide (durable_status = Created) || bool_decide (durable_status = Running))
      then ret (RecordReplayed response)
      else if bool_decide (st_pid (cr_state record) = st_pid (cr_state response))
      then ret (RecordReplayed response)
      else
        let! allows := read (active_allows_rebind (create_rebind_kind durable_status) stored) in
        do! lift (reject_if
          (negb allows || bool_decide (st_status (cr_state response) ≠ Created))
          (state_error Conflict "reconcile-succeeded-create"
             "completed create operation {} differs from its durable container record"));
        let! expected_durable := lift (create_expected_durable response stored) in
        do! lift (reject_if (bool_decide (expected_durable ≠ record))
          (state_error Conflict "reconcile-succeeded-create"
             "completed create operation {} changed beyond its recovered process identity: durable {:?}, reconstructed {:?}"));
        let! rebound_state := lift (rebuild_state (cr_state response) Created
                                      (st_pid (cr_state record))) in
        let rebound_response := with_state rebound_state response in
        do! write_operation CompleteCreateOperation (so_operation_id operation)
          (set_outcome (Succeeded rebound_response) operation);
        ret (RecordReplayed rebound_response)
  end).

(** ** mod.rs: prepare and complete *)

Definition creating_event (request : CreateRequest) (generation : Z) : M RuntimeEvent :=
  append_container_event "creating" (target_exact (create_id request) generation)
    ContainerCreating ∅.

(** [prepare_create_with_inherited_descriptors] *)
Definition prepare_create (request : CreateRequest) (driver : DriverKind)
    (inherited_descriptors : option string) : M RecordOperationPreparation :=
  let operation_id := oc_operation_id (create_context request) in
  do! lift (create_request_validate request);
  let! digest := lift (create_request_digest request inherited_descriptors) in
  let! existing := read (load_operation_if_present operation_id) in
  match existing with
  | Some operation =>
      do! lift (validate_create_retry operation request digest);
      match so_outcome operation with
      | Prepared =>
          let! stored := reconcile_prepared_create request driver (so_generation operation) in
          let! stored := claim_active_operation stored operation_id ClaimCreateOperation
                           "prepare-create" in
          do! creating_event request (cr_generation (sc_record stored));
          ret (RecordResume (sc_record stored))
      | Succeeded response => reconcile_succeeded_create operation response
      | Failed error => do! reconcile_failed_create operation; fail error
      | _ => fail (state_error FailedPrecondition "prepare-create"
               "create operation {} has an invalid empty outcome")
      end
  | None =>
      do! validate_deadline (create_context request) "prepare-create";
      do! read (λ d, reject_if (container_exists (create_id request) d)
        (state_error AlreadyExists "prepare-create" "container {} already exists"));
      let! generation := next_generation (create_id request) in
      do! write_operation PrepareCreateOperation operation_id
        (new_operation operation_id KCreate (create_id request) generation None None
           (current digest));
      let! stored := reconcile_prepared_create request driver generation in
      do! creating_event request (cr_generation (sc_record stored));
      ret (RecordPrepared (sc_record stored))
  end.

(** The lifecycle step of [complete_create] on the loaded record. *)
Definition complete_create_state (stored : StoredContainer) (pid : Z)
    : Result StoredContainer :=
  let state := cr_state (sc_record stored) in
  match st_status state with
  | Creating =>
      try! lifecycle := transition_or "complete-create" LCreating CreateCompleted in
      try! state := rebuild_state state (container_state lifecycle) (Some pid) in
      check! schema_validate_state state;
      Ok (set_sc_state state stored)
  | Created =>
      if bool_decide (st_pid state = Some pid) then Ok stored
      else Err (state_error Conflict "complete-create"
             "container {} was already committed with PID {:?}, not {pid}")
  | _ => Err (state_error FailedPrecondition "complete-create"
           "container {} cannot complete create while {status}")
  end.

Definition complete_create (operation_id : string) (pid : Z) : M ContainerRecord :=
  do! lift (reject_if (bool_decide (pid ≤ 0))
    (state_error InvalidArgument "complete-create"
       "created container PID must be positive; received {pid}"));
  let! operation := read (load_operation operation_id) in
  do! lift (reject_if (bool_decide (so_kind operation ≠ KCreate))
    (state_error FailedPrecondition "complete-create"
       "operation {operation_id} is not an OCI create"));
  match so_outcome operation with
  | Succeeded response => ret response
  | Failed error => fail error
  | Prepared =>
      let! stored := read (load_stored_container (so_container_id operation)) in
      do! lift (reject_if
        (bool_decide (cr_generation (sc_record stored) ≠ so_generation operation))
        (generation_conflict "complete-create"));
      let! stored := lift (complete_create_state stored pid) in
      do! lift (ensure_active_operation stored operation_id "complete-create");
      let stored := set_sc_active None stored in
      do! write_record CompleteCreateContainer (so_container_id operation) stored;
      let response := sc_record stored in
      do! append_container_event "created"
        (target_exact (so_container_id operation) (so_generation operation))
        ContainerCreated {["pid" := pretty pid]};
      do! write_operation CompleteCreateOperation operation_id
        (set_outcome (Succeeded response) operation);
      ret response
  | _ => fail (state_error FailedPrecondition "complete-create"
           "create operation {operation_id} has an invalid empty outcome")
  end.
End create.
