(* ===== verification/Start.v ===== *)
(** * OCI start (crates/runtime/src/state/start.rs) *)

From stdpp Require Import base gmap strings list.
From S2P Require Import Prelude Sdk Identifiers Lifecycle Fault OciState Contracts StoreModel Disk.
From S2P Require Import RestoreContract Journal.
From S2P Require Import Events Claims Create.
Local Open Scope string_scope.
Local Open Scope Z_scope.

Module Start.
Section start.
Context `{SE : StoreEnv}.

Definition invalid_state (operation : string) : Error :=
  state_error FailedPrecondition operation
    "container {} generation {:?} cannot start while {status}".

Definition pid_conflict : Error :=
  state_error Conflict "complete-start"
    "container {container_id} PID mismatch: durable {durable:?}, driver {observed:?}".

(** The kinds that allow a rebound PID in [reconcile_succeeded_start]. *)
Definition start_rebind_kind (kind : StoredOperationKind) : bool :=
  match kind with
  | KKill | KPause | KResume | KUpdate | KFile | KFilesystem => true
  | _ => false
  end.

Definition started_events (operation : StoredOperation) (status : ContainerState) : M () :=
  let target := target_exact (so_container_id operation) (so_generation operation) in
  do! append_container_event "started" target ContainerStarted ∅;
  if bool_decide (status = Stopped) then
    do! append_container_event "stopped" target ContainerStopped ∅; ret ()
  else ret ().

Definition reconcile_succeeded_start (operation : StoredOperation)
    (response : ContainerRecord) : M RecordOperationPreparation :=
  catch (read (load_stored_container (so_container_id operation))) (λ loaded,
  match loaded with
  | Err error =>
      if bool_decide (code error = NotFound) then ret (RecordReplayed response) else fail error
  | Ok stored =>
      let record := sc_record stored in
      if bool_decide (cr_generation record ≠ so_generation operation)
         || bool_decide (record = response)
      then ret (RecordReplayed response)
      else if bool_decide (st_status (cr_state record) ≠ Running)
              || bool_decide (st_status (cr_state response) ≠ Running)
      then ret (RecordReplayed response)
      else if bool_decide (st_pid (cr_state record) = st_pid (cr_state response))
      then ret (RecordReplayed response)
      else
        let! allows := read (active_allows_rebind start_rebind_kind stored) in
        do! lift (reject_if (negb allows || is_paused (cr_state response))
          (state_error Conflict "reconcile-succeeded-start"
             "completed start operation {} differs from its durable container record"));
        let! rebound_state := lift (rebuild_state (cr_state response) Running
                                      (st_pid (cr_state record))) in
        let rebound_response := with_state rebound_state response in
        let! rebound_state := lift
          (if is_paused (cr_state record) then rebuild_paused_state rebound_state true
           else Ok rebound_state) in
        let expected := with_state rebound_state rebound_response in
        do! lift (reject_if (bool_decide (expected ≠ record))
          (state_error Conflict "reconcile-succeeded-start"
             "completed start operation {} changed beyond its recovered process identity: durable {:?}, reconstructed {:?}"));
        do! write_operation CompleteStartOperation (so_operation_id operation)
          (set_outcome (Succeeded rebound_response) operation);
        ret (RecordReplayed rebound_response)
  end).

Definition prepare_start (request : StartRequest) : M RecordOperationPreparation :=
  let operation_id := oc_operation_id (start_context request) in
  let target := start_target request in
  let! digest := lift (request_digest (StartFingerprint target) "digest-start-request") in
  let! existing := read (load_operation_if_present operation_id) in
  match existing with
  | Some operation =>
      do! lift (validate_retry operation operation_id KStart (ct_id target) digest
                  "prepare-start");
      match so_outcome operation with
      | Prepared =>
          let! stored := read (load_stored_exact (so_container_id operation)
                                 (so_generation operation)) in
          match st_status (cr_state (sc_record stored)) with
          | Created =>
              let! stored := claim_active_operation stored operation_id ClaimStartOperation
                               "prepare-start" in
              ret (RecordResume (sc_record stored))
          | Running | Stopped =>
              do! lift (ensure_active_operation stored operation_id "prepare-start");
              do! (if bool_decide (is_Some (sc_active_operation stored)) then
                     write_record ReconcileStartContainer (so_container_id operation)
                       (set_sc_active None stored)
                   else ret ());
              do! started_events operation (st_status (cr_state (sc_record stored)));
              do! write_operation ReconcileStartOperation operation_id
                (set_outcome (Succeeded (sc_record stored)) operation);
              ret (RecordReplayed (sc_record stored))
          | Creating => fail (invalid_state "resume-start")
          end
      | Succeeded response => reconcile_succeeded_start operation response
      | Failed error => fail error
      | _ => fail (state_error FailedPrecondition "prepare-start"
               "start operation {} has an invalid empty outcome")
      end
  | None =>
      do! validate_deadline (start_context request) "prepare-start";
      let! stored := read (load_stored_container (ct_id target)) in
      do! lift (generation_fence target (cr_generation (sc_record stored)) "prepare-start");
      do! lift (reject_if (bool_decide (st_status (cr_state (sc_record stored)) ≠ Created))
                  (invalid_state "prepare-start"));
      do! write_operation PrepareStartOperation operation_id
        (new_operation operation_id KStart (ct_id target) (cr_generation (sc_record stored))
           None None (current digest));
      let! stored := claim_active_operation stored operation_id ClaimStartOperation
                       "prepare-start" in
      ret (RecordPrepared (sc_record stored))
  end.

(** The lifecycle step of [complete_start] on the loaded record. *)
Definition complete_start_state (stored : StoredContainer) (status : ContainerState)
    (pid : option Z) : Result StoredContainer :=
  let state := cr_state (sc_record stored) in
  match st_status state with
  | Created =>
      let prepared_pid := st_pid state in
      check! reject_if (bool_decide (status = Running) && bool_decide (prepared_pid ≠ pid))
        pid_conflict;
      try! running := transition_or "complete-start" LCreated StartCompleted in
      try! lifecycle :=
        (if bool_decide (status = Stopped)
         then transition_or "complete-start" running LProcessExited else Ok running) in
      try! state := rebuild_state state (container_state lifecycle)
        (if bool_decide (status = Running) then prepared_pid else None) in
      check! schema_validate_state state;
      Ok (set_sc_state state stored)
  | Running =>
      if bool_decide (status = Running) then
        check! reject_if (bool_decide (st_pid state ≠ pid)) pid_conflict;
        Ok stored
      else if bool_decide (status = Stopped) then
        try! stopped := transition_or "complete-start" LRunning LProcessExited in
        try! state := rebuild_state state (container_state stopped) None in
        check! schema_validate_state state;
        Ok (set_sc_state state stored)
      else Err (invalid_state "complete-start")
  | Stopped =>
      if bool_decide (status = Stopped) then Ok stored else Err (invalid_state "complete-start")
  | Creating => Err (invalid_state "complete-start")
  end.

(** The driver's answer: running with a positive PID, or stopped with none. *)
Definition valid_start_result (status : ContainerState) (pid : option Z) : bool :=
  match status, pid with
  | Running, Some pid => bool_decide (0 < pid)
  | Stopped, None => true
  | _, _ => false
  end.

Definition complete_start (operation_id : string) (status : ContainerState) (pid : option Z)
    : M ContainerRecord :=
  do! lift (reject_if (negb (valid_start_result status pid))
    (state_error InvalidArgument "complete-start"
       "driver returned invalid start state {status} with PID {pid:?}"));
  let! operation := read (load_operation operation_id) in
  do! lift (reject_if (bool_decide (so_kind operation ≠ KStart))
    (state_error FailedPrecondition "complete-start"
       "operation {operation_id} is not an OCI start"));
  match so_outcome operation with
  | Succeeded response => ret response
  | Failed error => fail error
  | Prepared =>
      let! stored := read (load_stored_container (so_container_id operation)) in
      do! lift (reject_if
        (bool_decide (cr_generation (sc_record stored) ≠ so_generation operation))
        (generation_conflict "complete-start"));
      let! stored := lift (complete_start_state stored status pid) in
      do! lift (ensure_active_operation stored operation_id "complete-start");
      let stored := set_sc_active None stored in
      do! write_record CompleteStartContainer (so_container_id operation) stored;
      let response := sc_record stored in
      do! started_events operation (st_status (cr_state response));
      do! write_operation CompleteStartOperation operation_id
        (set_outcome (Succeeded response) operation);
      ret response
  | _ => fail (state_error FailedPrecondition "complete-start"
           "start operation {operation_id} has an invalid empty outcome")
  end.
End start.
End Start.
