(* ===== verification/Kill.v ===== *)
(** * OCI kill (crates/runtime/src/state/kill.rs) *)

From stdpp Require Import base gmap strings list.
From S2P Require Import Prelude Sdk Identifiers Lifecycle Fault OciState Contracts StoreModel Disk.
From S2P Require Import RestoreContract Journal.
From S2P Require Import Events Claims Create.
Local Open Scope string_scope.
Local Open Scope Z_scope.

Module Kill.
Section kill.
Context `{SE : StoreEnv}.

(** [validate_observed_state] *)
Definition validate_observed_state (status : ContainerState) (pid : option Z)
    (operation : string) : Result unit :=
  let invalid := state_error InvalidArgument operation
    "driver returned invalid OCI state {status} with PID {pid:?}" in
  match status, pid with
  | (Created | Running), Some pid => reject_if (bool_decide (pid ≤ 0)) invalid
  | Stopped, None => Ok ()
  | _, _ => Err invalid
  end.

Definition invalid_state (operation : string) : Error :=
  state_error FailedPrecondition operation
    "container {} generation {:?} cannot be signaled while {status}".

Definition pid_conflict (operation : string) : Error :=
  state_error Conflict operation "container {} PID mismatch: durable {:?}, driver {observed:?}".

Definition stopped_event (operation : StoredOperation) : M () :=
  do! append_container_event "stopped"
    (target_exact (so_container_id operation) (so_generation operation)) ContainerStopped ∅;
  ret ().

Definition prepare_kill (request : KillRequest) : M RecordOperationPreparation :=
  let operation_id := oc_operation_id (kill_context request) in
  let target := kill_target request in
  let! digest := lift (request_digest
    (KillFingerprint target (kill_signal request) (kill_all request)) "digest-kill-request") in
  let! existing := read (load_operation_if_present operation_id) in
  match existing with
  | Some operation =>
      do! lift (validate_retry operation operation_id KKill (ct_id target) digest
                  "prepare-kill");
      match so_outcome operation with
      | Prepared =>
          let! stored := read (load_stored_exact (so_container_id operation)
                                 (so_generation operation)) in
          if bool_decide (st_status (cr_state (sc_record stored)) = Stopped) then
            do! lift (ensure_active_operation stored operation_id "prepare-kill");
            do! (if bool_decide (is_Some (sc_active_operation stored)) then
                   write_record ReconcileKillContainer (so_container_id operation)
                     (set_sc_active None stored)
                 else ret ());
            do! stopped_event operation;
            do! write_operation ReconcileKillOperation operation_id
              (set_outcome (Succeeded (sc_record stored)) operation);
            ret (RecordReplayed (sc_record stored))
          else
            let! stored := claim_active_operation stored operation_id ClaimKillOperation
                             "prepare-kill" in
            ret (RecordResume (sc_record stored))
      | Succeeded response => ret (RecordReplayed response)
      | Failed error => fail error
      | _ => fail (state_error FailedPrecondition "prepare-kill"
               "kill operation {} has an invalid empty outcome")
      end
  | None =>
      do! validate_deadline (kill_context request) "prepare-kill";
      let! stored := read (load_stored_container (ct_id target)) in
      do! lift (generation_fence target (cr_generation (sc_record stored)) "prepare-kill");
      let status := st_status (cr_state (sc_record stored)) in
      do! lift (reject_if (negb (bool_decide (status = Created) || bool_decide (status = Running)))
                  (invalid_state "prepare-kill"));
      do! write_operation PrepareKillOperation operation_id
        (new_operation operation_id KKill (ct_id target) (cr_generation (sc_record stored))
           None None (current digest));
      let! stored := claim_active_operation stored operation_id ClaimKillOperation
                       "prepare-kill" in
      ret (RecordPrepared (sc_record stored))
  end.

(** The lifecycle step of [complete_kill] on the loaded record. *)
Definition complete_kill_state (stored : StoredContainer) (status : ContainerState)
    (pid : option Z) : Result StoredContainer :=
  let state := cr_state (sc_record stored) in
  match st_status state, status with
  | Created, Created | Running, Running =>
      check! reject_if (bool_decide (st_pid state ≠ pid)) (pid_conflict "complete-kill");
      Ok stored
  | (Created | Running), Stopped =>
      try! lifecycle := transition_or "complete-kill" (lifecycle_state (st_status state))
        LProcessExited in
      try! state := rebuild_state state (container_state lifecycle) None in
      check! schema_validate_state state;
      Ok (set_sc_state state stored)
  | Stopped, Stopped => Ok stored
  | _, _ => Err (state_error FailedPrecondition "complete-kill"
              "container {} cannot reconcile {current} to {observed}")
  end.

Definition complete_kill (operation_id : string) (status : ContainerState) (pid : option Z)
    : M ContainerRecord :=
  do! lift (validate_observed_state status pid "complete-kill");
  let! operation := read (load_operation operation_id) in
  do! lift (reject_if (bool_decide (so_kind operation ≠ KKill))
    (state_error FailedPrecondition "complete-kill"
       "operation {operation_id} is not an OCI kill"));
  match so_outcome operation with
  | Succeeded response => ret response
  | Failed error => fail error
  | Prepared =>
      let! stored := read (load_stored_container (so_container_id operation)) in
      do! lift (reject_if
        (bool_decide (cr_generation (sc_record stored) ≠ so_generation operation))
        (generation_conflict "complete-kill"));
      let! stored := lift (complete_kill_state stored status pid) in
      do! lift (ensure_active_operation stored operation_id "complete-kill");
      let stored := set_sc_active None stored in
      do! write_record CompleteKillContainer (so_container_id operation) stored;
      let response := sc_record stored in
      do! (if bool_decide (st_status (cr_state response) = Stopped) then stopped_event operation
           else ret ());
      do! write_operation CompleteKillOperation operation_id
        (set_outcome (Succeeded response) operation);
      ret response
  | _ => fail (state_error FailedPrecondition "complete-kill"
           "kill operation {operation_id} has an invalid empty outcome")
  end.
End kill.
End Kill.
