(* ===== verification/Freezer.v ===== *)
(** * Pause and resume (crates/runtime/src/state/freezer.rs) *)

From stdpp Require Import base gmap strings list.
From S2P Require Import Prelude Sdk Identifiers Lifecycle Fault OciState Contracts StoreModel Disk.
From S2P Require Import RestoreContract Journal.
From S2P Require Import Events Claims Create.
Local Open Scope string_scope.
Local Open Scope Z_scope.

Inductive FreezerAction : Type := Pause | Resume.

(** [FreezerAction::kind], [desired], [name] and the mutation names. *)
Definition action_kind (a : FreezerAction) : StoredOperationKind :=
  match a with Pause => KPause | Resume => KResume end.
Definition action_desired (a : FreezerAction) : bool :=
  match a with Pause => true | Resume => false end.
Definition action_name (a : FreezerAction) : string :=
  match a with Pause => "pause" | Resume => "resume" end.
Definition prepare_mutation (a : FreezerAction) : DurableMutation :=
  match a with Pause => PreparePauseOperation | Resume => PrepareResumeOperation end.
Definition claim_mutation (a : FreezerAction) : DurableMutation :=
  match a with Pause => ClaimPauseOperation | Resume => ClaimResumeOperation end.
Definition reconcile_container_mutation (a : FreezerAction) : DurableMutation :=
  match a with Pause => ReconcilePauseContainer | Resume => ReconcileResumeContainer end.
Definition reconcile_operation_mutation (a : FreezerAction) : DurableMutation :=
  match a with Pause => ReconcilePauseOperation | Resume => ReconcileResumeOperation end.
Definition complete_container_mutation (a : FreezerAction) : DurableMutation :=
  match a with Pause => CompletePauseContainer | Resume => CompleteResumeContainer end.
Definition complete_operation_mutation (a : FreezerAction) : DurableMutation :=
  match a with Pause => CompletePauseOperation | Resume => CompleteResumeOperation end.
Definition action_event (a : FreezerAction) : RuntimeEventKind :=
  match a with Pause => ContainerPaused | Resume => ContainerResumed end.

Section freezer.
Context `{SE : StoreEnv}.

Definition freezer_event (operation : StoredOperation) (operation_id : string)
    (action : FreezerAction) : M () :=
  do! append_operation_event operation_id (action_name action)
    (target_exact (so_container_id operation) (so_generation operation)) None
    (action_event action) {[OPERATION_ID_ATTRIBUTE := operation_id]};
  ret ().

Definition reconcile_succeeded_freezer (operation : StoredOperation)
    (response : ContainerRecord) (action : FreezerAction) : M RecordOperationPreparation :=
  catch (read (load_stored_container (so_container_id operation))) (λ loaded,
  match loaded with
  | Err error =>
      if bool_decide (code error = NotFound) then ret (RecordReplayed response) else fail error
  | Ok stored =>
      let record := sc_record stored in
      if bool_decide (cr_generation record ≠ so_generation operation)
         || bool_decide (record = response)
      then ret (RecordReplayed response)
      else if bool_decide (st_status (cr_state record) ≠ Running)
              || bool_decide (st_status (cr_state response) ≠ Running)
              || negb (Bool.eqb (is_paused (cr_state response)) (action_desired action))
              || bool_decide (st_pid (cr_state record) = st_pid (cr_state response))
      then ret (RecordReplayed response)
      else
        let! rebound_state := lift (rebuild_state (cr_state response) Running
                                      (st_pid (cr_state record))) in
        let! rebound_state := lift (rebuild_paused_state rebound_state
                                      (action_desired action)) in
        let rebound_response := with_state rebound_state response in
        let! expected_state := lift (rebuild_paused_state (cr_state rebound_response)
                                       (is_paused (cr_state record))) in
        let expected_durable := with_state expected_state rebound_response in
        do! lift (reject_if (bool_decide (expected_durable ≠ record))
          (state_error Conflict (action_name action)
             "completed {} operation {} changed beyond its recovered process identity"));
        do! write_operation (reconcile_operation_mutation action) (so_operation_id operation)
          (set_outcome (Succeeded rebound_response) operation);
        ret (RecordReplayed rebound_response)
  end).

Definition prepare_freezer (request : ContainerOperationRequest) (action : FreezerAction)
    : M RecordOperationPreparation :=
  let operation_id := oc_operation_id (cop_context request) in
  let target := cop_target request in
  let operation_name := action_name action in
  let! digest := lift (request_digest (FreezerFingerprint target) operation_name) in
  let! existing := read (load_operation_if_present operation_id) in
  match existing with
  | Some operation =>
      do! lift (validate_retry operation operation_id (action_kind action) (ct_id target)
                  digest operation_name);
      match so_outcome operation with
      | Prepared =>
          let! stored := read (load_stored_exact (so_container_id operation)
                                 (so_generation operation)) in
          if Bool.eqb (is_paused (cr_state (sc_record stored))) (action_desired action) then
            do! lift (ensure_active_operation stored operation_id operation_name);
            do! (if bool_decide (is_Some (sc_active_operation stored)) then
                   write_record (reconcile_container_mutation action)
                     (so_container_id operation) (set_sc_active None stored)
                 else ret ());
            do! freezer_event operation (so_operation_id operation) action;
            do! write_operation (reconcile_operation_mutation action) operation_id
              (set_outcome (Succeeded (sc_record stored)) operation);
            ret (RecordReplayed (sc_record stored))
          else
            let! stored := claim_active_operation stored operation_id (claim_mutation action)
                             operation_name in
            ret (RecordResume (sc_record stored))
      | Succeeded response => reconcile_succeeded_freezer operation response action
      | Failed error => fail error
      | _ => fail (state_error FailedPrecondition operation_name
               "{operation_name} operation {} has an invalid outcome")
      end
  | None =>
      do! validate_deadline (cop_context request) operation_name;
      let! stored := read (load_stored_container (ct_id target)) in
      do! lift (generation_fence target (cr_generation (sc_record stored)) operation_name);
      do! lift (reject_if (bool_decide (st_status (cr_state (sc_record stored)) ≠ Running))
        (state_error FailedPrecondition operation_name
           "container {} generation {} cannot {operation_name} while {}"));
      do! write_operation (prepare_mutation action) operation_id
        (new_operation operation_id (action_kind action) (ct_id target)
           (cr_generation (sc_record stored)) None None (current digest));
      let! stored := claim_active_operation stored operation_id (claim_mutation action)
                       operation_name in
      ret (RecordPrepared (sc_record stored))
  end.

Definition prepare_pause (request : ContainerOperationRequest) := prepare_freezer request Pause.
Definition prepare_resume (request : ContainerOperationRequest) := prepare_freezer request Resume.

Definition complete_freezer (operation_id : string) (status : ContainerState) (pid : option Z)
    (paused : bool) (action : FreezerAction) : M ContainerRecord :=
  let operation_name := action_name action in
  do! lift (reject_if
    (bool_decide (status ≠ Running)
     || match pid with Some pid => bool_decide (pid ≤ 0) | None => true end)
    (state_error InvalidArgument operation_name
       "driver returned invalid freezer state {status} with PID {pid:?}"));
  do! lift (reject_if (negb (Bool.eqb paused (action_desired action)))
    (state_error FailedPrecondition operation_name
       "driver {operation_name} returned paused={paused}, expected {}"));
  let! operation := read (load_operation operation_id) in
  do! lift (reject_if (bool_decide (so_kind operation ≠ action_kind action))
    (state_error FailedPrecondition operation_name
       "operation {operation_id} is not an OCI {operation_name}"));
  match so_outcome operation with
  | Succeeded response => ret response
  | Failed error => fail error
  | Prepared =>
      let! stored := read (load_stored_container (so_container_id operation)) in
      do! lift (reject_if
        (bool_decide (cr_generation (sc_record stored) ≠ so_generation operation))
        (generation_conflict operation_name));
      let state := cr_state (sc_record stored) in
      do! lift (reject_if
        (bool_decide (st_status state ≠ Running) || bool_decide (st_pid state ≠ pid))
        (state_error Conflict operation_name
           "container {} durable state does not match driver freezer response"));
      let! state := lift (rebuild_paused_state state paused) in
      let stored := set_sc_state state stored in
      do! lift (schema_validate_state state);
      do! lift (ensure_active_operation stored operation_id operation_name);
      let stored := set_sc_active None stored in
      do! write_record (complete_container_mutation action) (so_container_id operation) stored;
      let response := sc_record stored in
      do! freezer_event operation operation_id action;
      do! write_operation (complete_operation_mutation action) operation_id
        (set_outcome (Succeeded response) operation);
      ret response
  | _ => fail (state_error FailedPrecondition operation_name
           "{operation_name} operation {operation_id} has an invalid outcome")
  end.

Definition complete_pause (operation_id : string) (status : ContainerState) (pid : option Z)
    (paused : bool) := complete_freezer operation_id status pid paused Pause.
Definition complete_resume (operation_id : string) (status : ContainerState) (pid : option Z)
    (paused : bool) := complete_freezer operation_id status pid paused Resume.
End freezer.
