(* ===== verification/Update.v ===== *)
(** * Resource update (crates/runtime/src/state/update.rs) *)

From stdpp Require Import base gmap strings list.
From S2P Require Import Prelude Sdk Identifiers Lifecycle Fault OciState Contracts StoreModel Disk.
From S2P Require Import RestoreContract Journal.
From S2P Require Import Events Claims Create.
Local Open Scope string_scope.
Local Open Scope Z_scope.

Section update.
Context `{SE : StoreEnv}.

(** [matches!(status, ContainerState::Created | ContainerState::Running)] *)
Definition created_or_running (status : ContainerState) : bool :=
  match status with Created | Running => true | _ => false end.

Definition reconcile_succeeded_update (operation : StoredOperation)
    (response : ContainerRecord) : M RecordOperationPreparation :=
  catch (read (load_stored_container (so_container_id operation))) (λ loaded,
  match loaded with
  | Err error =>
      if bool_decide (code error = NotFound) then ret (RecordReplayed response) else fail error
  | Ok stored =>
      let record := sc_record stored in
      let durable_status := st_status (cr_state record) in
      let response_status := st_status (cr_state response) in
      if bool_decide (cr_generation record ≠ so_generation operation)
         || bool_decide (record = response)
      then ret (RecordReplayed response)
      else if negb (created_or_running durable_status)
              || negb (created_or_running response_status)
              || bool_decide (st_pid (cr_state record) = st_pid (cr_state response))
      then ret (RecordReplayed response)
      else
        let! rebound_state := lift (rebuild_state (cr_state response) response_status
                                      (st_pid (cr_state record))) in
        let! rebound_state := lift
          (if is_paused (cr_state response) then rebuild_paused_state rebound_state true
           else Ok rebound_state) in
        let rebound_response := with_state rebound_state response in
        let! expected_state := lift (rebuild_state (cr_state rebound_response) durable_status
                                       (st_pid (cr_state record))) in
        let! expected_state := lift
          (if is_paused (cr_state record) then rebuild_paused_state expected_state true
           else Ok expected_state) in
        let expected_durable := with_state expected_state rebound_response in
        do! lift (reject_if (bool_decide (expected_durable ≠ record))
          (state_error Conflict "update"
             "completed update operation {} changed beyond its recovered process identity"));
        do! write_operation CompleteUpdateOperation (so_operation_id operation)
          (set_outcome (Succeeded rebound_response) operation);
        ret (RecordReplayed rebound_response)
  end).

(** [UpdateRequest::validate] is the semantic validation of the resources. *)
Definition prepare_update (request : UpdateRequest) : M RecordOperationPreparation :=
  let operation_id := oc_operation_id (update_context request) in
  let target := update_target request in
  do! lift (semantic_validate_resources (update_resources request));
  let! digest := lift (request_digest
    (UpdateFingerprint target (update_resources request)) "update") in
  let! existing := read (load_operation_if_present operation_id) in
  match existing with
  | Some operation =>
      do! lift (validate_retry operation operation_id KUpdate (ct_id target) digest "update");
      match so_outcome operation with
      | Prepared =>
          let! stored := read (load_stored_exact (so_container_id operation)
                                 (so_generation operation)) in
          let! stored := claim_active_operation stored operation_id ClaimUpdateOperation
                           "update" in
          ret (RecordResume (sc_record stored))
      | Succeeded response => reconcile_succeeded_update operation response
      | Failed error => fail error
      | _ => fail (state_error FailedPrecondition "update"
               "update operation {} has an invalid outcome")
      end
  | None =>
      do! validate_deadline (update_context request) "update";
      let! stored := read (load_stored_container (ct_id target)) in
      do! lift (generation_fence target (cr_generation (sc_record stored)) "update");
      do! lift (reject_if (negb (created_or_running (st_status (cr_state (sc_record stored)))))
        (state_error FailedPrecondition "update"
           "container {} generation {} cannot update resources while {}"));
      do! write_operation PrepareUpdateOperation operation_id
        (new_operation operation_id KUpdate (ct_id target) (cr_generation (sc_record stored))
           None None (current digest));
      let! stored := claim_active_operation stored operation_id ClaimUpdateOperation
                       "update" in
      ret (RecordPrepared (sc_record stored))
  end.

Definition complete_update (operation_id : string) (status : ContainerState) (pid : option Z)
    (paused : bool) : M ContainerRecord :=
  do! lift (reject_if
    (negb (created_or_running status)
     || match pid with Some pid => bool_decide (pid ≤ 0) | None => true end
     || bool_decide (status = Created) && paused)
    (state_error InvalidArgument "update"
       "driver returned invalid update state {status} with PID {pid:?} and paused={paused}"));
  let! operation := read (load_operation operation_id) in
  do! lift (reject_if (bool_decide (so_kind operation ≠ KUpdate))
    (state_error FailedPrecondition "update" "operation {operation_id} is not an OCI update"));
  match so_outcome operation with
  | Succeeded response => ret response
  | Failed error => fail error
  | Prepared =>
      let! stored := read (load_stored_container (so_container_id operation)) in
      do! lift (reject_if
        (bool_decide (cr_generation (sc_record stored) ≠ so_generation operation))
        (generation_conflict "update"));
      let state := cr_state (sc_record stored) in
      do! lift (reject_if
        (bool_decide (st_status state ≠ status) || bool_decide (st_pid state ≠ pid)
         || negb (Bool.eqb (is_paused state) paused))
        (state_error Conflict "update"
           "container {} durable state does not match the driver update response"));
      do! lift (ensure_active_operation stored operation_id "update");
      let stored := set_sc_active None stored in
      do! write_record CompleteUpdateContainer (so_container_id operation) stored;
      let response := sc_record stored in
      do! append_operation_event operation_id "resources-updated"
        (target_exact (so_container_id operation) (so_generation operation)) None
        ResourcesUpdated {[OPERATION_ID_ATTRIBUTE := operation_id]};
      do! write_operation CompleteUpdateOperation operation_id
        (set_outcome (Succeeded response) operation);
      ret response
  | _ => fail (state_error FailedPrecondition "update"
           "update operation {operation_id} has an invalid outcome")
  end.
End update.
