(* ===== verification/ProcessStore.v ===== *)
(** * Exec processes (crates/runtime/src/state/process.rs, process_recovery.rs)

    Durable records of processes started by exec, their signals and waits, and
    the recovery of process identities after a driver was replaced. *)

From stdpp Require Import base gmap strings list pretty.
From S2P Require Import Prelude Sdk Identifiers Lifecycle Fault OciState Contracts StoreModel Disk.
From S2P Require Import RestoreContract Journal.
From S2P Require Import Events Claims Create.
Local Open Scope string_scope.
Local Open Scope Z_scope.

(** [bool::to_string] *)
Definition bool_text (b : bool) : string := if b then "true" else "false".

Definition exit_status_attributes (status : ExitStatus) : gmap string string :=
  let attributes : gmap string string := ∅ in
  let attributes :=
    match exit_code status with
    | Some c => <["exit-code" := pretty c]> attributes
    | None => attributes
    end in
  let attributes :=
    match exit_signal status with
    | Some s => <["signal" := pretty s]> attributes
    | None => attributes
    end in
  <["oom-killed" := bool_text (oom_killed status)]> attributes.

Definition exit_status_conflict : Error :=
  state_error Conflict "complete-process-wait"
    "process {} terminal result mismatch: durable {durable:?}, driver {observed:?}".

(** The file names of a process directory: records and pending transactions.
    The operating system lists them in no particular order. *)
Definition process_entries (pd : ProcessDir) : list string :=
  ((λ p, record_file_name p.1) <$> map_to_list (pd_records pd)) ++
  ((λ p, transaction_file_name (record_file_name p)) <$> elements (pd_next pd)).

Section process.
Context `{SE : StoreEnv}.

(** [ExecRequest::validate] *)
Definition validate_exec_request (r : ExecRequest) : Result unit :=
  check! reject_if (is_init (exec_process_id r))
    (invalid_request "exec.process_id `init` is reserved for the container's configured process");
  check! semantic_validate_process (exec_process r);
  try! _io := resolve_for_process (exec_io r) (exec_process r) in
  Ok ().

Definition validate_process_retry (stored : StoredOperation) (operation_id : string)
    (kind : StoredOperationKind) (container_id process_id : string) (digest : RequestDigests)
    (operation : string) : Result unit :=
  check! validate_retry stored operation_id kind container_id digest operation;
  reject_if (bool_decide (so_process_id stored ≠ Some process_id))
    (state_error FailedPrecondition operation
       "operation ID {operation_id} was already used for a different process").

Definition validate_process_response (response : ProcessRecord) (operation : StoredOperation)
    (operation_name : string) : Result unit :=
  try! process_id := required_operation_process_id operation operation_name in
  reject_if
    (bool_decide (pt_container (pr_target response) ≠
                  target_exact (so_container_id operation) (so_generation operation))
     || bool_decide (pt_process_id (pr_target response) ≠ process_id)
     || bool_decide (pr_pid response = None)
     || bool_decide (pr_pid response = Some 0))
    (state_error FailedPrecondition operation_name
       "operation {} contains an invalid process response").

(** ** Loading process records *)

Definition load_stored_process_from_path (target : ProcessTarget) (process : StoredProcess)
    : Result StoredProcess :=
  try! generation := ok_or
    (state_error InvalidArgument "load-process-state"
       "durable process lookup requires an exact container generation")
    (ct_generation (pt_container target)) in
  check! reject_if
    (bool_decide (sp_schema_version process ≠ PROCESS_SCHEMA_VERSION)
     || bool_decide (pr_target (sp_record process) ≠ target)
     || bool_decide (ct_generation (pt_container (pr_target (sp_record process)))
                     ≠ Some generation)
     || bool_decide (pr_pid (sp_record process) = Some 0))
    (state_error FailedPrecondition "load-process-state"
       "invalid durable process record for {} in container {} generation {}");
  check! match sp_exit_status process with
         | Some exit => exit_status_validate exit
         | None => Ok ()
         end;
  Ok process.

Definition process_directory (id : string) (d : Disk) : option ProcessDir :=
  d_containers d !! id ≫= cd_processes.

Definition load_stored_process (target : ProcessTarget) (d : Disk) : Result StoredProcess :=
  let missing := state_error NotFound "load-process-state"
    "process {} does not exist in container {} generation {}" in
  try! _generation := ok_or
    (state_error InvalidArgument "load-process-state"
       "durable process lookup requires an exact container generation")
    (ct_generation (pt_container target)) in
  try! directory := ok_or missing (process_directory (ct_id (pt_container target)) d) in
  try! process := ok_or missing (pd_records directory !! pt_process_id target) in
  load_stored_process_from_path target process.

Definition ensure_process_directory (id : string) : M () :=
  let! directory := read (λ d, Ok (process_directory id d)) in
  match directory with
  | Some _ => ret ()
  | None => modify (make_process_dir id)
  end.

(** [resolve_process_target] *)
Definition resolve_process_target (requested : ProcessTarget) (operation : string)
    : M ProcessTarget :=
  read (λ d,
    try! container := load_stored_container (ct_id (pt_container requested)) d in
    check! validate_requested_generation container (pt_container requested) operation;
    let target := exact_process_target container (pt_process_id requested) in
    if is_init (pt_process_id target) then
      check! reject_if (bool_decide (st_status (cr_state (sc_record container)) = Creating))
        (state_error FailedPrecondition operation
           "container {} generation {} has no prepared init process");
      Ok target
    else
      try! process := load_stored_process target d in
      check! reject_if (bool_decide (pr_pid (sp_record process) = None))
        (state_error FailedPrecondition operation "process {} has not completed exec");
      Ok target).

(** ** Exec *)

Definition append_exec_events (process : ProcessRecord) : M () :=
  let! pid := lift (ok_or
    (state_error FailedPrecondition "append-exec-events" "process {} has no durable PID")
    (pr_pid process)) in
  do! lift (reject_if (bool_decide (pid = 0))
    (state_error FailedPrecondition "append-exec-events" "process {} has durable PID zero"));
  let attributes : gmap string string :=
    <["terminal" := bool_text (pr_terminal process)]> {["pid" := pretty pid]} in
  let target := pr_target process in
  do! append_process_event "created" (pt_container target) (pt_process_id target)
    ProcessCreated attributes;
  do! append_process_event "started" (pt_container target) (pt_process_id target)
    ProcessStarted attributes;
  ret ().

Definition reconcile_prepared_exec (request : ExecRequest) (operation : StoredOperation)
    : M StoredProcess :=
  let! container := read (load_stored_exact (so_container_id operation)
                            (so_generation operation)) in
  do! lift (ensure_container_unclaimed container "reconcile-exec");
  let! process_id := lift (required_operation_process_id operation "reconcile-exec") in
  let target := exact_process_target container process_id in
  do! ensure_process_directory (sc_id container);
  let terminal := default false (proc_terminal (exec_process request)) in
  let! existing := read (λ d, Ok (process_directory (ct_id (pt_container target)) d
                                    ≫= λ pd, pd_records pd !! process_id)) in
  match existing with
  | Some _ =>
      let! process := read (load_stored_process target) in
      do! lift (reject_if (negb (Bool.eqb (pr_terminal (sp_record process)) terminal))
        (state_error Conflict "reconcile-exec"
           "process {} terminal mode differs from its durable exec request"));
      ret process
  | None =>
      let process := mkStoredProcess PROCESS_SCHEMA_VERSION (mkProcessRecord target None terminal)
        (Some (so_operation_id operation)) ∅ None in
      do! write_process StoreExecutingProcess target process;
      ret process
  end.

(** [reconcile_succeeded_exec] of process_recovery.rs *)
Definition reconcile_succeeded_exec (operation : StoredOperation) (response : ProcessRecord)
    : M ProcessOperationPreparation :=
  do! lift (validate_process_response response operation "reconcile-succeeded-exec");
  catch (read (load_stored_container (so_container_id operation))) (λ loaded,
  match loaded with
  | Err error =>
      if bool_decide (code error = NotFound) then ret (ProcessReplayed response) else fail error
  | Ok container =>
      if bool_decide (cr_generation (sc_record container) ≠ so_generation operation)
      then ret (ProcessReplayed response)
      else
        let! process_id := lift (required_operation_process_id operation
                                   "reconcile-succeeded-exec") in
        let target := exact_process_target container process_id in
        let! process := read (load_stored_process target) in
        if bool_decide (sp_record process = response) then ret (ProcessReplayed response)
        else
          do! lift (reject_if
            (bool_decide (st_status (cr_state (sc_record container)) ≠ Running)
             || bool_decide (is_Some (sp_exit_status process))
             || bool_decide (pr_target (sp_record process) ≠ pr_target response)
             || negb (Bool.eqb (pr_terminal (sp_record process)) (pr_terminal response))
             || bool_decide (pr_pid (sp_record process) = None))
            (state_error Conflict "reconcile-succeeded-exec"
               "completed exec operation {} changed beyond its recovered process identity"));
          do! write_operation ReconcileExecOperation (so_operation_id operation)
            (set_outcome (SucceededProcess (sp_record process)) operation);
          ret (ProcessReplayed (sp_record process))
  end).

Definition prepare_exec (request : ExecRequest) : M ProcessOperationPreparation :=
  let operation_id := oc_operation_id (exec_context request) in
  do! lift (validate_exec_request request);
  let! digest := lift (request_digest
    (ExecFingerprint (exec_container request) (exec_process_id request) (exec_process request)
       (exec_io request)) "digest-exec-request") in
  let! existing := read (load_operation_if_present operation_id) in
  match existing with
  | Some operation =>
      do! lift (validate_process_retry operation operation_id KExec
                  (ct_id (exec_container request)) (exec_process_id request) digest
                  "prepare-exec");
      match so_outcome operation with
      | Prepared =>
          let! process := reconcile_prepared_exec request operation in
          if bool_decide (is_Some (pr_pid (sp_record process))) then
            do! lift (ensure_active_process_operation process operation_id "prepare-exec");
            do! (if bool_decide (is_Some (sp_active_operation process)) then
                   write_process ReconcileExecProcess (pr_target (sp_record process))
                     (set_sp_active None process)
                 else ret ());
            do! append_exec_events (sp_record process);
            do! write_operation ReconcileExecOperation operation_id
              (set_outcome (SucceededProcess (sp_record process)) operation);
            ret (ProcessReplayed (sp_record process))
          else
            let! process := claim_active_process_operation process operation_id
                              ClaimExecOperation "prepare-exec" in
            ret (ProcessResume (sp_record process))
      | SucceededProcess response => reconcile_succeeded_exec operation response
      | Failed error => fail error
      | _ => fail (state_error FailedPrecondition "prepare-exec"
               "exec operation {} has an invalid outcome")
      end
  | None =>
      do! validate_deadline (exec_context request) "prepare-exec";
      let! container := read (load_stored_container (ct_id (exec_container request))) in
      do! lift (validate_requested_generation container (exec_container request)
                  "prepare-exec");
      do! lift (ensure_container_unclaimed container "prepare-exec");
      let record := sc_record container in
      do! lift (reject_if (bool_decide (st_status (cr_state record) ≠ Running))
        (state_error FailedPrecondition "prepare-exec"
           "container {} generation {} cannot exec while {}"));
      do! lift (reject_if (record_is_paused record)
        (state_error FailedPrecondition "prepare-exec"
           "container {} generation {} cannot exec while paused"));
      let target := exact_process_target container (exec_process_id request) in
      do! ensure_process_directory (sc_id container);
      do! read (λ d, reject_if
        (bool_decide (is_Some (process_directory (ct_id (pt_container target)) d
                                 ≫= λ pd, pd_records pd !! pt_process_id target)))
        (state_error AlreadyExists "prepare-exec"
           "process {} already exists in container {} generation {}"));
      let operation := new_operation operation_id KExec (sc_id container)
        (cr_generation record) (Some (exec_process_id request)) None (current digest) in
      do! write_operation PrepareExecOperation operation_id operation;
      let! process := reconcile_prepared_exec request operation in
      ret (ProcessPrepared (sp_record process))
  end.

(** [complete_exec]: the driver's [i32] PID as [u32]. *)
Definition complete_exec (operation_id : string) (pid : Z) (terminal : bool)
    : M ProcessRecord :=
  do! lift (reject_if (bool_decide (pid < 0))
    (state_error InvalidArgument "complete-exec"
       "driver exec PID must be positive and fit u32: {error}"));
  do! lift (reject_if (bool_decide (pid = 0))
    (state_error InvalidArgument "complete-exec" "driver exec PID must be positive"));
  let! operation := read (load_operation operation_id) in
  do! lift (reject_if (bool_decide (so_kind operation ≠ KExec))
    (state_error FailedPrecondition "complete-exec"
       "operation {operation_id} is not an OCI exec"));
  match so_outcome operation with
  | SucceededProcess response => ret response
  | Failed error => fail error
  | Prepared =>
      let! container := read (load_stored_exact (so_container_id operation)
                                (so_generation operation)) in
      let! process_id := lift (required_operation_process_id operation "complete-exec") in
      let target := exact_process_target container process_id in
      let! process := read (load_stored_process target) in
      do! lift (ensure_active_process_operation process operation_id "complete-exec");
      do! lift (reject_if (negb (Bool.eqb (pr_terminal (sp_record process)) terminal))
        (state_error Conflict "complete-exec"
           "driver terminal mode {terminal} differs from durable mode {} for process {}"));
      let! process :=
        match pr_pid (sp_record process) with
        | None => ret (set_sp_pid (Some pid) process)
        | Some existing =>
            if bool_decide (existing = pid) then ret process
            else fail (state_error Conflict "complete-exec"
                   "process {} PID mismatch: durable {existing}, driver {pid}")
        end in
      let process := set_sp_active None process in
      do! write_process CompleteExecProcess target process;
      let response := sp_record process in
      do! append_exec_events response;
      do! write_operation CompleteExecOperation operation_id
        (set_outcome (SucceededProcess response) operation);
      ret response
  | _ => fail (state_error FailedPrecondition "complete-exec"
           "exec operation {operation_id} has an invalid outcome")
  end.

(** ** Signals *)

Definition validate_signal_target (container : StoredContainer) (target : ProcessTarget)
    (d : Disk) : Result unit :=
  let failed msg := state_error FailedPrecondition "prepare-signal-process" msg in
  let status := st_status (cr_state (sc_record container)) in
  check! reject_if (negb (bool_decide (status = Created) || bool_decide (status = Running)))
    (failed "container {} generation {} cannot signal process {} while {}");
  if is_init (pt_process_id target) then Ok ()
  else
    try! process := load_stored_process target d in
    check! reject_if (bool_decide (pr_pid (sp_record process) = None))
      (failed "process {} has not completed exec");
    reject_if (bool_decide (is_Some (sp_exit_status process)))
      (failed "process {} has already exited").

Definition claim_signal_process (operation : StoredOperation) (operation_id : string)
    : M ProcessTarget :=
  let! container := read (load_stored_exact (so_container_id operation)
                            (so_generation operation)) in
  let! process_id := lift (required_operation_process_id operation "claim-signal-process") in
  let target := exact_process_target container process_id in
  if is_init (pt_process_id target) then
    do! claim_active_operation container operation_id ClaimSignalProcessOperation
          "claim-signal-process";
    ret target
  else
    do! lift (ensure_container_unclaimed container "claim-signal-process");
    let! process := read (load_stored_process target) in
    do! claim_active_process_operation process operation_id ClaimSignalProcessOperation
          "claim-signal-process";
    ret target.

Definition prepare_signal_process (request : SignalProcessRequest)
    : M SignalProcessPreparation :=
  let operation_id := oc_operation_id (sig_context request) in
  let requested := sig_process request in
  let! digest := lift (request_digest
    (SignalProcessFingerprint requested (sig_signal request))
    "digest-signal-process-request") in
  let! existing := read (load_operation_if_present operation_id) in
  match existing with
  | Some operation =>
      do! lift (validate_process_retry operation operation_id KSignalProcess
                  (ct_id (pt_container requested)) (pt_process_id requested) digest
                  "prepare-signal-process");
      match so_outcome operation with
      | Prepared =>
          let! target := claim_signal_process operation operation_id in
          ret (SignalResume target)
      | SucceededEmpty => ret SignalReplayed
      | Failed error => fail error
      | _ => fail (state_error FailedPrecondition "prepare-signal-process"
               "signal operation {} has an invalid outcome")
      end
  | None =>
      do! validate_deadline (sig_context request) "prepare-signal-process";
      let! container := read (load_stored_container (ct_id (pt_container requested))) in
      do! lift (validate_requested_generation container (pt_container requested)
                  "prepare-signal-process");
      do! lift (ensure_container_unclaimed container "prepare-signal-process");
      let target := exact_process_target container (pt_process_id requested) in
      do! read (validate_signal_target container target);
      let operation := new_operation operation_id KSignalProcess (sc_id container)
        (cr_generation (sc_record container)) (Some (pt_process_id target)) None
        (current digest) in
      do! write_operation PrepareSignalProcessOperation operation_id operation;
      let! target := claim_signal_process operation operation_id in
      ret (SignalPrepared target)
  end.

(** [release_process_operation_claim] *)
Definition release_process_operation_claim (operation : StoredOperation)
    (operation_id : string) (mutation : DurableMutation) (operation_name : string) : M () :=
  let! container := read (load_stored_exact (so_container_id operation)
                            (so_generation operation)) in
  let! process_id := lift (required_operation_process_id operation operation_name) in
  let target := exact_process_target container process_id in
  if is_init (pt_process_id target) then
    do! lift (ensure_active_init_io_operation container operation_id operation_name);
    let removed := bool_decide (operation_id ∈ sc_init_io_operations container) in
    let container' := set_sc_init_io (sc_init_io_operations container ∖ {[operation_id]})
      container in
    let active := bool_decide (sc_active_operation container = Some operation_id) in
    if removed || active then
      write_record mutation (sc_id container)
        (if active then set_sc_active None container' else container')
    else ret ()
  else
    let! process := read (load_stored_process target) in
    do! lift (ensure_active_process_io_operation process operation_id operation_name);
    let removed := bool_decide (operation_id ∈ sp_active_io_operations process) in
    let process' := set_sp_io (sp_active_io_operations process ∖ {[operation_id]}) process in
    let active := bool_decide (sp_active_operation process = Some operation_id) in
    if removed || active then
      write_process mutation target
        (if active then set_sp_active None process' else process')
    else ret ().

Definition release_failed_process_operation (operation : StoredOperation)
    (mutation : DurableMutation) : M () :=
  release_process_operation_claim operation (so_operation_id operation) mutation
    "fail-process-operation".

Definition complete_signal_process (operation_id : string) : M () :=
  let! operation := read (load_operation operation_id) in
  do! lift (reject_if (bool_decide (so_kind operation ≠ KSignalProcess))
    (state_error FailedPrecondition "complete-signal-process"
       "operation {operation_id} is not a process signal"));
  match so_outcome operation with
  | SucceededEmpty => ret ()
  | Failed error => fail error
  | Prepared =>
      do! release_process_operation_claim operation operation_id CompleteSignalProcessRecord
            "complete-signal-process";
      write_operation CompleteSignalProcessOperation operation_id
        (set_outcome SucceededEmpty operation)
  | _ => fail (state_error FailedPrecondition "complete-signal-process"
           "signal operation {operation_id} has an invalid outcome")
  end.

(** ** Waits *)

Definition prepare_wait_process (request : WaitProcessRequest) : M ProcessWaitPreparation :=
  let requested := wait_process request in
  read (λ d,
    try! container := load_stored_container (ct_id (pt_container requested)) d in
    check! validate_requested_generation container (pt_container requested)
      "prepare-wait-process";
    let target := exact_process_target container (pt_process_id requested) in
    if is_init (pt_process_id target) then
      match sc_init_exit_status container with
      | Some status => Ok (WaitReplayed status)
      | None =>
          check! reject_if (bool_decide (st_status (cr_state (sc_record container)) = Creating))
            (state_error FailedPrecondition "prepare-wait-process"
               "container {} generation {} has no prepared init process");
          Ok (WaitPrepared target)
      end
    else
      try! process := load_stored_process target d in
      match sp_exit_status process with
      | Some status => Ok (WaitReplayed status)
      | None =>
          check! reject_if (bool_decide (pr_pid (sp_record process) = None))
            (state_error FailedPrecondition "prepare-wait-process"
               "process {} has not completed exec");
          Ok (WaitPrepared target)
      end).

(** [if existing == status { Ok(existing) } else { Err(..) }] *)
Definition same_exit (existing status : ExitStatus) : Result ExitStatus :=
  if bool_decide (existing = status) then Ok existing else Err exit_status_conflict.

Definition append_exited_event (target : ProcessTarget) (status : ExitStatus) : M () :=
  do! append_process_event "exited" (pt_container target) (pt_process_id target) ProcessExited
    (exit_status_attributes status);
  ret ().

Definition complete_process_wait (target : ProcessTarget) (status : ExitStatus)
    : M ExitStatus :=
  do! lift (exit_status_validate status);
  let! generation := lift (ok_or
    (state_error InvalidArgument "complete-process-wait"
       "process wait completion requires an exact container generation")
    (ct_generation (pt_container target))) in
  let! container := read (load_stored_exact (ct_id (pt_container target)) generation) in
  if is_init (pt_process_id target) then
    match sc_init_exit_status container with
    | Some existing => lift (same_exit existing status)
    | None =>
        let state := cr_state (sc_record container) in
        let! '(container, stopped_now) :=
          match st_status state with
          | Created | Running =>
              let! state := lift (rebuild_state state Stopped None) in
              do! lift (schema_validate_state state);
              ret (set_sc_state state container, true)
          | Stopped => ret (container, false)
          | Creating =>
              fail (state_error FailedPrecondition "complete-process-wait"
                "container {} generation {} has no prepared init process")
          end in
        do! append_exited_event target status;
        do! (if stopped_now : bool then
               do! append_container_event "stopped" (pt_container target) ContainerStopped ∅;
               ret ()
             else ret ());
        do! write_record CacheInitWait (sc_id container) (set_sc_exit (Some status) container);
        ret status
    end
  else
    let! process := read (load_stored_process target) in
    match sp_exit_status process with
    | Some existing => lift (same_exit existing status)
    | None =>
        do! append_exited_event target status;
        do! write_process CacheProcessWait target (set_sp_exit (Some status) process);
        ret status
    end.

(** ** Fencing against active process operations *)

(** One entry of the process directory in [ensure_no_active_process_operations]. *)
Definition ensure_entry_inactive (container : StoredContainer) (operation : string) (d : Disk)
    (u : ()) (file_name : string) : Result () :=
  try! stem := ok_or
    (state_error FailedPrecondition operation
       "unexpected file in process state directory: {file_name}")
    (strip_suffix ".json" file_name) in
  try! process_id := map_err
    (λ _, state_error FailedPrecondition operation
            "invalid process record filename {file_name}: {error}")
    (validate_identifier stem) in
  let target := exact_process_target container process_id in
  try! process := load_stored_process target d in
  reject_if (bool_decide (is_Some (sp_active_operation process))
             || negb (bool_decide (sp_active_io_operations process = ∅)))
    (set_retryable (state_error Conflict operation
       "container {} process {} is owned by an active mutation or {} active I/O operation(s)")
       true).

Definition ensure_no_active_process_operations (container : StoredContainer)
    (operation : string) (d : Disk) : Result unit :=
  check! reject_if (negb (bool_decide (sc_init_io_operations container = ∅)))
    (set_retryable (state_error Conflict operation
       "container {} init process is owned by {} active I/O operation(s)") true);
  check! match sc_active_operation container with
         | Some operation_id =>
             try! operation_record := load_operation operation_id d in
             reject_if (is_process_io_kind (so_kind operation_record))
               (set_retryable (state_error Conflict operation
                  "container {} init process is owned by active I/O operation {operation_id}")
                  true)
         | None => Ok ()
         end;
  match process_directory (sc_id container) d with
  | None => Ok ()
  | Some pd => rfold (ensure_entry_inactive container operation d) () (process_entries pd)
  end.

(** ** Recovery after a driver replacement (process_recovery.rs) *)

Definition recovery_conflict (msg : string) : Error :=
  state_error Conflict "observe-recreated-exec-processes" msg.

(** One observed process: identity checks and duplicate evidence. *)
Definition observe_process (container_target : ContainerTarget) (init_pid : Z)
    (acc : gmap string ProcessRecord * gset Z) (process : ProcessRecord)
    : Result (gmap string ProcessRecord * gset Z) :=
  let '(observed_by_id, observed_pids) := acc in
  let process_id := pt_process_id (pr_target process) in
  check! reject_if
    (bool_decide (pt_container (pr_target process) ≠ container_target)
     || is_init process_id
     || bool_decide (pr_pid process = None)
     || bool_decide (pr_pid process = Some 0)
     || bool_decide (pr_pid process = Some init_pid))
    (recovery_conflict
       "replacement driver returned an invalid, init-aliasing, or cross-generation exec process");
  try! pid := ok_or
    (recovery_conflict "replacement driver returned an exec process without a PID")
    (pr_pid process) in
  check! reject_if (bool_decide (pid ∈ observed_pids)
                    || bool_decide (is_Some (observed_by_id !! process_id)))
    (recovery_conflict "replacement driver returned duplicate exec process evidence");
  Ok (<[process_id := process]> observed_by_id, {[pid]} ∪ observed_pids).

(** One entry of the process directory: pending transactions are skipped,
    live processes are collected. *)
Definition collect_durable (container : StoredContainer) (d : Disk)
    (durable_by_id : gmap string StoredProcess) (file_name : string)
    : Result (gmap string StoredProcess) :=
  let failed msg := state_error FailedPrecondition "observe-recreated-exec-processes" msg in
  match strip_prefix "." file_name ≫= strip_suffix ".json.next" with
  | Some process_id =>
      check! map_err (λ _, failed "invalid process transaction filename {file_name}: {error}")
        (validate_identifier process_id);
      Ok durable_by_id
  | None =>
      try! stem := ok_or (failed "unexpected file in process state directory: {file_name}")
        (strip_suffix ".json" file_name) in
      try! process_id := map_err
        (λ _, failed "invalid process record filename {file_name}: {error}")
        (validate_identifier stem) in
      try! process := load_stored_process (exact_process_target container process_id) d in
      Ok (if bool_decide (is_Some (pr_pid (sp_record process)))
             && bool_decide (sp_exit_status process = None)
          then <[process_id := process]> durable_by_id else durable_by_id)
  end.

(** The write-back loop over the observed processes. *)
Fixpoint rebind_processes (durable_by_id : gmap string StoredProcess)
    (observed : list (string * ProcessRecord)) : M () :=
  match observed with
  | [] => ret ()
  | (process_id, observed_record) :: observed' =>
      let! durable := lift (ok_or
        (state_error Internal "observe-recreated-exec-processes"
           "durable process {process_id} disappeared during recovery")
        (durable_by_id !! process_id)) in
      do! lift (reject_if
        (negb (Bool.eqb (pr_terminal (sp_record durable)) (pr_terminal observed_record)))
        (recovery_conflict
           "replacement process {process_id} terminal mode differs from durable state"));
      do! (if bool_decide (pr_pid (sp_record durable) = pr_pid observed_record) then ret ()
           else
             let durable := set_sp_pid (pr_pid observed_record) durable in
             write_process ReconcileExecProcess (pr_target (sp_record durable)) durable);
      rebind_processes (delete process_id durable_by_id) observed'
  end.

(** [i32] PID of the init process as a [u32]. *)
Definition init_pid_u32 (state : OciState) : option Z :=
  match st_pid state with
  | Some pid => if decide (0 ≤ pid) then Some pid else None
  | None => None
  end.

Definition observe_recreated_exec_processes (container_target : ContainerTarget)
    (observed : list ProcessRecord) : M () :=
  let! generation := lift (ok_or
    (state_error InvalidArgument "observe-recreated-exec-processes"
       "replacement exec recovery requires an exact container generation")
    (ct_generation container_target)) in
  let! container := read (load_stored_exact (ct_id container_target) generation) in
  let record := sc_record container in
  do! lift (reject_if
    (bool_decide (st_status (cr_state record) ≠ Running) || record_is_paused record)
    (recovery_conflict
       "container {} generation {} must be running and unpaused for exec recovery"));
  let! init_pid := lift (ok_or
    (recovery_conflict "running replacement container has no positive init PID")
    (init_pid_u32 (cr_state record))) in
  let! '(observed_by_id, _) :=
    lift (rfold (observe_process container_target init_pid) (∅, ∅) observed) in
  let! durable_by_id := read (λ d,
    match process_directory (sc_id container) d with
    | None => Ok ∅
    | Some pd => rfold (collect_durable container d) ∅ (process_entries pd)
    end) in
  do! lift (reject_if
    (negb (bool_decide (dom durable_by_id ⊆ dom observed_by_id))
     || negb (bool_decide (dom observed_by_id ⊆ dom durable_by_id)))
    (recovery_conflict
       "replacement exec inventory differs from durable live processes: missing [{}], unexpected [{}]"));
  rebind_processes durable_by_id (map_to_list observed_by_id).
End process.
