(* ===== verification/ProcessIoStore.v ===== *)
(** * Durable process I/O mutations (crates/runtime/src/state/process_io.rs)

    Stdin writes, stdin closes and terminal resizes share one journal profile:
    an I/O operation takes a claim beside, not in place of, the lifecycle claim. *)

From stdpp Require Import base gmap strings list.
From S2P Require Import Prelude Sdk Identifiers Lifecycle Fault OciState Contracts StoreModel Disk.
From S2P Require Import RestoreContract Journal.
From S2P Require Import Events Claims Create ProcessStore.
Local Open Scope string_scope.
Local Open Scope Z_scope.

Record ProcessIoOperation : Type := mkProcessIoOperation {
  pio_kind : StoredOperationKind;
  pio_name : string;
  pio_prepare : DurableMutation;
  pio_claim : DurableMutation;
  pio_complete_record : DurableMutation;
  pio_complete_operation : DurableMutation
}.

Definition WRITE_STDIN : ProcessIoOperation :=
  mkProcessIoOperation KWriteStdin "write-stdin" PrepareWriteStdinOperation
    ClaimWriteStdinOperation CompleteWriteStdinRecord CompleteWriteStdinOperation.
Definition CLOSE_STDIN : ProcessIoOperation :=
  mkProcessIoOperation KCloseStdin "close-stdin" PrepareCloseStdinOperation
    ClaimCloseStdinOperation CompleteCloseStdinRecord CompleteCloseStdinOperation.
Definition RESIZE : ProcessIoOperation :=
  mkProcessIoOperation KResize "resize" PrepareResizeOperation
    ClaimResizeOperation CompleteResizeRecord CompleteResizeOperation.

Section process_io.
Context `{SE : StoreEnv}.

(** A delete or a checkpoint fences process I/O. *)
Definition ensure_init_io_lifecycle_compatible (container : StoredContainer)
    (operation_name : string) (d : Disk) : Result unit :=
  match sc_active_operation container with
  | None => Ok ()
  | Some active_id =>
      try! active := load_operation active_id d in
      reject_if (bool_decide (so_kind active = KDelete)
                 || bool_decide (so_kind active = KCheckpoint))
        (set_retryable (state_error Conflict operation_name
           "container {} is fenced by active {:?} operation {active_id}") true)
  end.

Definition ensure_process_io_lifecycle_compatible := ensure_init_io_lifecycle_compatible.

Definition validate_process_io_target (container : StoredContainer) (target : ProcessTarget)
    (operation : string) (d : Disk) : Result unit :=
  if is_init (pt_process_id target) then
    reject_if (bool_decide (st_status (cr_state (sc_record container)) = Creating))
      (state_error FailedPrecondition operation
         "container {} generation {} has no prepared init process")
  else
    try! process := load_stored_process target d in
    reject_if (bool_decide (pr_pid (sp_record process) = None))
      (state_error FailedPrecondition operation "process {} has not completed exec").

(** [claim_init_io_operation] *)
Definition claim_init_io_operation (container : StoredContainer) (operation : StoredOperation)
    (profile : ProcessIoOperation) : M () :=
  let operation_id := so_operation_id operation in
  if bool_decide (operation_id ∈ sc_init_io_operations container) then ret ()
  else
    let container' :=
      if bool_decide (sc_active_operation container = Some operation_id)
      then set_sc_active None container else container in
    write_record (pio_claim profile) (sc_id container)
      (set_sc_init_io ({[operation_id]} ∪ sc_init_io_operations container') container').

(** The free function [claim_process_io_operation]. *)
Definition claim_exec_io_operation (process : StoredProcess) (operation : StoredOperation)
    (profile : ProcessIoOperation) : M () :=
  let operation_id := so_operation_id operation in
  if bool_decide (operation_id ∈ sp_active_io_operations process) then ret ()
  else
    let process' :=
      if bool_decide (sp_active_operation process = Some operation_id)
      then set_sp_active None process else process in
    write_process (pio_claim profile) (pr_target (sp_record process))
      (set_sp_io ({[operation_id]} ∪ sp_active_io_operations process') process').

(** The method [claim_process_io_operation]. *)
Definition claim_process_io_operation (operation : StoredOperation)
    (profile : ProcessIoOperation) : M ProcessTarget :=
  let! container := read (load_stored_exact (so_container_id operation)
                            (so_generation operation)) in
  let! process_id := lift (required_operation_process_id operation (pio_name profile)) in
  let target := exact_process_target container process_id in
  if is_init (pt_process_id target) then
    do! read (ensure_init_io_lifecycle_compatible container (pio_name profile));
    do! claim_init_io_operation container operation profile;
    ret target
  else
    do! read (ensure_process_io_lifecycle_compatible container (pio_name profile));
    let! process := read (load_stored_process target) in
    do! claim_exec_io_operation process operation profile;
    ret target.

Definition prepare_process_io_operation (context : OperationContext)
    (requested : ProcessTarget) (digest : RequestDigests) (profile : ProcessIoOperation)
    : M ProcessIoPreparation :=
  let operation_name := pio_name profile in
  let operation_id := oc_operation_id context in
  let! existing := read (load_operation_if_present operation_id) in
  match existing with
  | Some operation =>
      do! lift (validate_process_retry operation operation_id (pio_kind profile)
                  (ct_id (pt_container requested)) (pt_process_id requested) digest
                  operation_name);
      match so_outcome operation with
      | Prepared =>
          let! target := claim_process_io_operation operation profile in
          ret (IoResume target)
      | SucceededEmpty => ret IoReplayed
      | Failed error => fail error
      | _ => fail (state_error FailedPrecondition operation_name
               "{} operation {} has an invalid outcome")
      end
  | None =>
      do! validate_deadline context operation_name;
      let! container := read (load_stored_container (ct_id (pt_container requested))) in
      do! lift (validate_requested_generation container (pt_container requested)
                  operation_name);
      let target := exact_process_target container (pt_process_id requested) in
      do! (if is_init (pt_process_id target)
           then read (ensure_init_io_lifecycle_compatible container operation_name)
           else read (ensure_process_io_lifecycle_compatible container operation_name));
      do! read (validate_process_io_target container target operation_name);
      let operation := new_operation operation_id (pio_kind profile) (sc_id container)
        (cr_generation (sc_record container)) (Some (pt_process_id target)) None
        (current digest) in
      do! write_operation (pio_prepare profile) operation_id operation;
      let! target := claim_process_io_operation operation profile in
      ret (IoPrepared target)
  end.

Definition complete_process_io_operation (operation_id : string)
    (profile : ProcessIoOperation) : M () :=
  let! operation := read (load_operation operation_id) in
  do! lift (reject_if (bool_decide (so_kind operation ≠ pio_kind profile))
    (state_error FailedPrecondition (pio_name profile)
       "operation {operation_id} is not a {} operation"));
  match so_outcome operation with
  | SucceededEmpty => ret ()
  | Failed error => fail error
  | Prepared =>
      do! release_process_operation_claim operation operation_id
            (pio_complete_record profile) (pio_name profile);
      write_operation (pio_complete_operation profile) operation_id
        (set_outcome SucceededEmpty operation)
  | _ => fail (state_error FailedPrecondition (pio_name profile)
           "{} operation {operation_id} has an invalid outcome")
  end.

Definition prepare_write_stdin (request : WriteStdinRequest) : M ProcessIoPreparation :=
  do! lift (validate_write_stdin_request request);
  let! digest := lift (request_digest
    (WriteStdinFingerprint (ws_process request) (ws_data request))
    "digest-write-stdin-request") in
  prepare_process_io_operation (ws_context request) (ws_process request) digest WRITE_STDIN.

Definition prepare_close_stdin (request : CloseStdinRequest) : M ProcessIoPreparation :=
  let! digest := lift (request_digest (ProcessTargetFingerprint (cs_process request))
    "digest-close-stdin-request") in
  prepare_process_io_operation (cs_context request) (cs_process request) digest CLOSE_STDIN.

Definition prepare_resize (request : ResizeRequest) : M ProcessIoPreparation :=
  do! lift (validate_resize_request request);
  let! digest := lift (request_digest
    (ResizeFingerprint (rz_process request) (rz_size request)) "digest-resize-request") in
  prepare_process_io_operation (rz_context request) (rz_process request) digest RESIZE.

Definition complete_write_stdin (operation_id : string) :=
  complete_process_io_operation operation_id WRITE_STDIN.
Definition complete_close_stdin (operation_id : string) :=
  complete_process_io_operation operation_id CLOSE_STDIN.
Definition complete_resize (operation_id : string) :=
  complete_process_io_operation operation_id RESIZE.
End process_io.
