(* ===== verification/FileStore.v ===== *)
(** * Filesystem mutations (crates/runtime/src/state/filesystem_mutation.rs)

    File uploads and mutating filesystem operations of a container, as
    two-phase operations that retain their request and response. *)

From stdpp Require Import base gmap strings list pretty.
From S2P Require Import Prelude Sdk Identifiers Lifecycle Fault OciState Contracts StoreModel Disk.
From S2P Require Import RestoreContract Journal Events Claims Create.
Local Open Scope string_scope.
Local Open Scope Z_scope.

Record FilesystemMutationProfile : Type := mkMutationProfile {
  fm_kind : StoredOperationKind;
  fm_name : string;
  fm_prepare : DurableMutation;
  fm_claim : DurableMutation;
  fm_complete_container : DurableMutation;
  fm_complete_operation : DurableMutation
}.

Definition FILE : FilesystemMutationProfile :=
  mkMutationProfile KFile "file" PrepareFileOperation ClaimFileOperation CompleteFileContainer
    CompleteFileOperation.
Definition FILESYSTEM : FilesystemMutationProfile :=
  mkMutationProfile KFilesystem "filesystem" PrepareFilesystemOperation ClaimFilesystemOperation
    CompleteFilesystemContainer CompleteFilesystemOperation.

Inductive StoredPreparation : Type :=
  | StoredPrepared (t : ContainerTarget)
  | StoredResume (t : ContainerTarget)
  | StoredReplayed (r : StoredFilesystemMutationResponse).

(** [FilesystemMutationPreparation<Response>] of state/mod.rs *)
Inductive FilesystemMutationPreparation (R : Type) : Type :=
  | MutationPrepared (t : ContainerTarget)
  | MutationResume (t : ContainerTarget)
  | MutationReplayed (r : R).
Arguments MutationPrepared {_}. Arguments MutationResume {_}. Arguments MutationReplayed {_}.

(** [invalid_outcome] and [invalid_operation_outcome] *)
Definition invalid_mutation_outcome (profile : FilesystemMutationProfile) : Error :=
  state_error FailedPrecondition (fm_name profile)
    "{} operation {operation_id} has an invalid durable outcome".

Definition ensure_live_filesystem (stored : StoredContainer) (operation : string) : Result () :=
  match st_status (cr_state (sc_record stored)) with
  | Created | Running => Ok ()
  | _ => Err (state_error FailedPrecondition operation
           "container {} generation {} cannot mutate its filesystem while {}")
  end.

Section file_store.
Context `{SE : StoreEnv}.

Definition prepare_filesystem_mutation_operation (context : OperationContext)
    (requested : ContainerTarget) (digest : RequestDigests)
    (retained_request : StoredOperationRequest) (profile : FilesystemMutationProfile)
    : M StoredPreparation :=
  let operation_id := oc_operation_id context in
  let! existing := read (load_operation_if_present operation_id) in
  match existing with
  | Some operation =>
      do! lift (validate_retry operation operation_id (fm_kind profile) (ct_id requested) digest
                  (fm_name profile));
      match so_outcome operation with
      | Prepared =>
          let! stored := read (load_stored_exact (so_container_id operation)
                                 (so_generation operation)) in
          do! lift (ensure_live_filesystem stored (fm_name profile));
          let! stored := claim_active_operation stored operation_id (fm_claim profile)
                           (fm_name profile) in
          ret (StoredResume (target_exact (sc_id stored) (cr_generation (sc_record stored))))
      | SucceededFilesystem response => ret (StoredReplayed response)
      | Failed error => fail error
      | _ => fail (invalid_mutation_outcome profile)
      end
  | None =>
      do! validate_deadline context (fm_name profile);
      let! stored := read (load_stored_container (ct_id requested)) in
      do! lift (generation_fence requested (cr_generation (sc_record stored)) (fm_name profile));
      do! lift (ensure_live_filesystem stored (fm_name profile));
      let target := target_exact (sc_id stored) (cr_generation (sc_record stored)) in
      do! write_operation (fm_prepare profile) operation_id
        (new_operation operation_id (fm_kind profile) (sc_id stored)
           (cr_generation (sc_record stored)) None (Some retained_request) (current digest));
      do! claim_active_operation stored operation_id (fm_claim profile) (fm_name profile);
      ret (StoredPrepared target)
  end.

Definition prepare_file_mutation (request : FileRequest)
    : M (FilesystemMutationPreparation FileResponse) :=
  do! lift (validate_file_request base64_decoded_len request);
  do! lift (reject_if (bool_decide (file_op request ≠ Upload))
    (state_error InvalidArgument "file" "only File uploads are durable mutations"));
  let! context := lift (ok_or
    (state_error InvalidArgument "file" "File upload has no operation context")
    (file_context request)) in
  let! digest := lift (request_digest (FileFingerprint (file_target request) (file_op request)
    (file_path request) (file_data request) (file_user request)) "file") in
  let! prepared := prepare_filesystem_mutation_operation context (file_target request) digest
    (RequestFile request) FILE in
  match prepared with
  | StoredPrepared target => ret (MutationPrepared target)
  | StoredResume target => ret (MutationResume target)
  | StoredReplayed (ResponseFile response) => ret (MutationReplayed response)
  | StoredReplayed (ResponseFilesystem _) => fail (invalid_mutation_outcome FILE)
  end.

Definition prepare_filesystem_mutation (request : FilesystemRequest)
    : M (FilesystemMutationPreparation FilesystemResponse) :=
  do! lift (validate_filesystem_request request);
  do! lift (reject_if (negb (fs_is_mutating (fs_op request)))
    (state_error InvalidArgument "filesystem"
       "only mutating Filesystem operations use the durable journal"));
  let! context := lift (ok_or
    (state_error InvalidArgument "filesystem" "Filesystem mutation has no operation context")
    (fs_context request)) in
  let! digest := lift (request_digest (FilesystemFingerprint (fs_target request) (fs_op request)
    (fs_path request) (fs_destination request) (fs_depth request) (fs_user request))
    "filesystem") in
  let! prepared := prepare_filesystem_mutation_operation context (fs_target request) digest
    (RequestFilesystem request) FILESYSTEM in
  match prepared with
  | StoredPrepared target => ret (MutationPrepared target)
  | StoredResume target => ret (MutationResume target)
  | StoredReplayed (ResponseFilesystem response) => ret (MutationReplayed response)
  | StoredReplayed (ResponseFile _) => fail (invalid_mutation_outcome FILESYSTEM)
  end.

Definition mutation_response_target (r : StoredFilesystemMutationResponse) : ContainerTarget :=
  match r with
  | ResponseFile response => fileresp_target response
  | ResponseFilesystem response => fsresp_target response
  end.

Definition complete_filesystem_mutation_operation (operation_id : string)
    (response : StoredFilesystemMutationResponse) (profile : FilesystemMutationProfile)
    : M StoredFilesystemMutationResponse :=
  let! operation := read (load_operation operation_id) in
  do! lift (reject_if (bool_decide (so_kind operation ≠ fm_kind profile))
    (invalid_mutation_outcome profile));
  match so_outcome operation with
  | Prepared =>
      let target := mutation_response_target response in
      do! lift (reject_if
        (bool_decide (ct_id target ≠ so_container_id operation)
         || bool_decide (ct_generation target ≠ Some (so_generation operation)))
        (state_error Conflict (fm_name profile)
           "driver response for operation {operation_id} targets a different container generation"));
      let! stored := read (load_stored_exact (so_container_id operation)
                             (so_generation operation)) in
      do! lift (ensure_live_filesystem stored (fm_name profile));
      do! lift (ensure_active_operation stored operation_id (fm_name profile));
      let stored := set_sc_active None stored in
      do! write_record (fm_complete_container profile) (so_container_id operation) stored;
      do! write_operation (fm_complete_operation profile) operation_id
        (set_outcome (SucceededFilesystem response) operation);
      ret response
  | SucceededFilesystem response => ret response
  | Failed error => fail error
  | _ => fail (invalid_mutation_outcome profile)
  end.

Definition complete_file_mutation (operation_id : string) (response : FileResponse)
    : M FileResponse :=
  let! completed := complete_filesystem_mutation_operation operation_id (ResponseFile response)
                      FILE in
  match completed with
  | ResponseFile response => ret response
  | ResponseFilesystem _ => fail (invalid_mutation_outcome FILE)
  end.

Definition complete_filesystem_mutation (operation_id : string) (response : FilesystemResponse)
    : M FilesystemResponse :=
  let! completed := complete_filesystem_mutation_operation operation_id
                      (ResponseFilesystem response) FILESYSTEM in
  match completed with
  | ResponseFilesystem response => ret response
  | ResponseFile _ => fail (invalid_mutation_outcome FILESYSTEM)
  end.
End file_store.
