(* ===== verification/CheckpointStore.v ===== *)
(** * Checkpoints (crates/runtime/src/state/checkpoint.rs)

    A checkpoint of an exact, paused, running generation: the source record is
    left unchanged and the driver's evidence is bound to it. *)

From stdpp Require Import base gmap strings list pretty.
From S2P Require Import Prelude Sdk Identifiers Lifecycle Fault OciState Contracts StoreModel Disk.
From S2P Require Import RestoreContract Journal Events Claims Create ProcessStore.
Local Open Scope string_scope.
Local Open Scope Z_scope.

(** [CheckpointOperationPreparation] of state/mod.rs *)
Inductive CheckpointOperationPreparation : Type :=
  | CheckpointPrepared (r : ContainerRecord)
  | CheckpointResume (r : ContainerRecord)
  | CheckpointReplayed (r : CheckpointResponse).

(** [invalid_outcome] of checkpoint.rs *)
Definition invalid_checkpoint_outcome : Error :=
  state_error FailedPrecondition "checkpoint"
    "checkpoint operation {operation_id} has an invalid durable outcome".

Definition ensure_checkpoint_source (record : ContainerRecord) : Result () :=
  check! reject_if (bool_decide (st_status (cr_state record) ≠ Running)
                    || negb (record_is_paused record))
    (state_error FailedPrecondition "checkpoint"
       "container {} generation {} must be running and paused before checkpoint");
  try! _config := map_err
    (λ _, state_error FailedPrecondition "checkpoint"
            "checkpoint source has an invalid configuration digest: {}")
    (checkpoint_digest_new (cr_config_digest record)) in
  try! attachments := ok_or
    (state_error FailedPrecondition "checkpoint"
       "checkpoint source has no attachment-manifest digest")
    (cr_attachments_digest record) in
  try! _attachments := map_err
    (λ _, state_error FailedPrecondition "checkpoint"
            "checkpoint source has an invalid attachment digest: {}")
    (checkpoint_digest_new attachments) in
  Ok ().

Section checkpoint_store.
Context `{SE : StoreEnv}.

Definition prepare_checkpoint (request : CheckpointRequest) : M CheckpointOperationPreparation :=
  do! lift (checkpoint_request_validate request);
  let! digest := lift (checkpoint_request_digest request) in
  let operation_id := oc_operation_id (ckr_context request) in
  let target := ckr_target request in
  let! existing := read (load_operation_if_present operation_id) in
  match existing with
  | Some operation =>
      do! lift (validate_retry operation operation_id KCheckpoint (ct_id target) digest
                  "checkpoint");
      do! lift (reject_if (bool_decide (so_request operation ≠ Some (RequestCheckpoint request)))
        (state_error FailedPrecondition "checkpoint"
           "operation ID {operation_id} was already used for a different checkpoint request"));
      match so_outcome operation with
      | Prepared =>
          let! stored := read (load_stored_exact (so_container_id operation)
                                 (so_generation operation)) in
          do! lift (ensure_checkpoint_source (sc_record stored));
          do! read (ensure_no_active_process_operations stored "checkpoint");
          let! stored := claim_active_operation stored operation_id ClaimCheckpointOperation
                           "checkpoint" in
          ret (CheckpointResume (sc_record stored))
      | SucceededCheckpoint response => ret (CheckpointReplayed response)
      | Failed error => fail error
      | _ => fail invalid_checkpoint_outcome
      end
  | None =>
      do! validate_deadline (ckr_context request) "checkpoint";
      let! stored := read (load_stored_container (ct_id target)) in
      let! expected_generation := lift (ok_or
        (state_error InvalidArgument "checkpoint"
           "checkpoint request does not contain an exact generation")
        (ct_generation target)) in
      do! lift (reject_if
        (bool_decide (cr_generation (sc_record stored) ≠ expected_generation))
        (generation_conflict "checkpoint"));
      do! lift (ensure_checkpoint_source (sc_record stored));
      do! read (ensure_no_active_process_operations stored "checkpoint");
      do! write_operation PrepareCheckpointOperation operation_id
        (new_operation operation_id KCheckpoint (sc_id stored) (cr_generation (sc_record stored))
           None (Some (RequestCheckpoint request)) (current digest));
      let! stored := claim_active_operation stored operation_id ClaimCheckpointOperation
                       "checkpoint" in
      ret (CheckpointPrepared (sc_record stored))
  end.

Definition complete_checkpoint (operation_id : string) (response : CheckpointResponse)
    : M CheckpointResponse :=
  let! operation := read (load_operation operation_id) in
  do! lift (reject_if (bool_decide (so_kind operation ≠ KCheckpoint)) invalid_checkpoint_outcome);
  match so_outcome operation with
  | Prepared =>
      let! request := lift
        match so_request operation with
        | Some (RequestCheckpoint request) => Ok request
        | _ => Err (state_error FailedPrecondition "checkpoint"
                 "checkpoint operation {operation_id} has no retained request")
        end in
      do! lift (checkpoint_response_validate_for_request response request);
      let! stored := read (load_stored_exact (so_container_id operation)
                             (so_generation operation)) in
      do! lift (ensure_checkpoint_source (sc_record stored));
      do! lift (reject_if (bool_decide (ckresp_source response ≠ sc_record stored))
        (state_error Conflict "checkpoint"
           "checkpoint operation {operation_id} returned a source record that differs from durable state"));
      do! lift (ensure_active_operation stored operation_id "checkpoint");
      let stored := set_sc_active None stored in
      do! write_record CompleteCheckpointContainer (so_container_id operation) stored;
      do! write_operation CompleteCheckpointOperation operation_id
        (set_outcome (SucceededCheckpoint response) operation);
      ret response
  | SucceededCheckpoint response => ret response
  | Failed error => fail error
  | _ => fail invalid_checkpoint_outcome
  end.
End checkpoint_store.
