(* ===== verification/RestoreStore.v ===== *)
(** * Restores (crates/runtime/src/state/restore.rs)

    Restoring a checkpoint creates a new generation, which becomes running and
    paused in one completion; a restore that succeeded before its PID was
    recovered is rebound. *)

From stdpp Require Import base gmap strings list pretty.
From S2P Require Import Prelude Sdk Identifiers Lifecycle Fault OciState Contracts StoreModel Disk.
From S2P Require Import RestoreContract Journal Events Claims Create.
Local Open Scope string_scope.
Local Open Scope Z_scope.

(** [RestoreOperationLookup] and [RestoreOperationPreparation] of state/mod.rs *)
Inductive RestoreOperationLookup : Type :=
  | RestorePending
  | RestoreFound (r : RestoreResponse).
Inductive RestoreOperationPreparation : Type :=
  | RestorePrepared (r : ContainerRecord)
  | RestoreResume (r : ContainerRecord)
  | RestoreReplayed (r : RestoreResponse).

Definition invalid_restore_outcome : Error :=
  state_error FailedPrecondition "restore"
    "restore operation {operation_id} has an invalid durable outcome".

Definition restore_profile : CreationProfile :=
  mkCreationProfile "reconcile-restore" StoreRestoreConfig StoreRestoringContainer.

(** The kinds of an active operation under which the PID of a completed
    restore may have been rebound. *)
Definition restore_rebind_kind (kind : StoredOperationKind) : bool :=
  match kind with
  | KKill | KPause | KResume | KUpdate | KFile | KFilesystem | KCheckpoint => true
  | _ => false
  end.

Definition retained_restore_request (operation : StoredOperation) : Result RestoreRequest :=
  match so_request operation with
  | Some (RequestRestore request) => Ok request
  | _ => Err (state_error FailedPrecondition "restore"
           "restore operation {} has no retained request")
  end.

Section restore_store.
Context `{SE : StoreEnv}.

Definition validate_restore_retry (operation : StoredOperation) (request : RestoreRequest)
    (digest : RequestDigests) : Result () :=
  check! validate_retry operation (oc_operation_id (rr_context request)) KRestore (rr_id request)
    digest "restore";
  reject_if (bool_decide (so_request operation ≠ Some (RequestRestore request)))
    (state_error FailedPrecondition "restore"
       "operation ID {} was already used for a different restore request").

Definition append_restore_creating_event (operation_id : string) (record : ContainerRecord) : M () :=
  let! id := lift (validate_identifier (st_id (cr_state record))) in
  do! append_operation_event operation_id "restoring" (target_exact id (cr_generation record)) None
    ContainerCreating {[OPERATION_ID_ATTRIBUTE := operation_id]};
  ret ().

Definition reconcile_prepared_restore (request : RestoreRequest) (driver : DriverKind)
    (generation : Z) : M StoredContainer :=
  let! reference := lift (restore_reference request) in
  do! lift (reject_if (bool_decide (cc_driver (cref_compatibility reference) ≠ driver))
    (state_error FailedPrecondition "reconcile-restore"
       "selected restore driver does not match the immutable checkpoint reference"));
  reconcile_prepared_container (rr_id request) (rr_bundle request)
    (isolation_class (rr_isolation request)) (rr_attachments request) driver generation
    (oc_operation_id (rr_context request)) restore_profile.

Definition reconcile_succeeded_restore (operation : StoredOperation) (response : RestoreResponse)
    : M RestoreResponse :=
  catch (read (load_stored_container (so_container_id operation))) (λ loaded,
  match loaded with
  | Err error => if bool_decide (code error = NotFound) then ret response else fail error
  | Ok stored =>
      let record := sc_record stored in
      if bool_decide (cr_generation record ≠ so_generation operation)
         || bool_decide (rresp_restored response = record)
      then ret response
      else if bool_decide (st_status (cr_state record) ≠ Running)
              || negb (is_paused (cr_state record))
              || bool_decide (st_status (cr_state (rresp_restored response)) ≠ Running)
              || negb (record_is_paused (rresp_restored response))
      then ret response
      else
        let! allows := read (active_allows_rebind restore_rebind_kind stored) in
        let! expected_state := lift (rebuild_state (cr_state (rresp_restored response)) Running
                                       (st_pid (cr_state record))) in
        let! expected_state := lift (rebuild_paused_state expected_state true) in
        let expected_durable := with_state expected_state (rresp_restored response) in
        do! lift (reject_if (negb allows || bool_decide (expected_durable ≠ record))
          (state_error Conflict "reconcile-succeeded-restore"
             "completed restore operation {} changed beyond its recovered process identity"));
        let! rebound := lift (restore_response_new record (rresp_reference response)) in
        let! request := lift (retained_restore_request operation) in
        do! lift (restore_response_validate_for_request rebound request);
        do! write_operation CompleteRestoreOperation (so_operation_id operation)
          (set_outcome (SucceededRestore rebound) operation);
        ret rebound
  end).

Definition lookup_restore (request : RestoreRequest) : M RestoreOperationLookup :=
  do! lift (restore_request_validate request);
  let! digest := lift (restore_request_digest request) in
  let! existing := read (load_operation_if_present (oc_operation_id (rr_context request))) in
  match existing with
  | None => ret RestorePending
  | Some operation =>
      do! lift (validate_restore_retry operation request digest);
      match so_outcome operation with
      | Prepared => ret RestorePending
      | SucceededRestore response =>
          let! response := reconcile_succeeded_restore operation response in
          ret (RestoreFound response)
      | Failed error => do! reconcile_failed_restore operation; fail error
      | _ => fail invalid_restore_outcome
      end
  end.

Definition prepare_restore (request : RestoreRequest) (driver : DriverKind)
    : M RestoreOperationPreparation :=
  do! lift (restore_request_validate request);
  let! digest := lift (restore_request_digest request) in
  let operation_id := oc_operation_id (rr_context request) in
  let! existing := read (load_operation_if_present operation_id) in
  match existing with
  | Some operation =>
      do! lift (validate_restore_retry operation request digest);
      match so_outcome operation with
      | Prepared =>
          let! stored := reconcile_prepared_restore request driver (so_generation operation) in
          let! stored := claim_active_operation stored operation_id ClaimRestoreOperation
                           "restore" in
          do! append_restore_creating_event operation_id (sc_record stored);
          ret (RestoreResume (sc_record stored))
      | SucceededRestore response =>
          let! response := reconcile_succeeded_restore operation response in
          ret (RestoreReplayed response)
      | Failed error => do! reconcile_failed_restore operation; fail error
      | _ => fail invalid_restore_outcome
      end
  | None =>
      do! validate_deadline (rr_context request) "restore";
      do! read (λ d, reject_if (container_exists (rr_id request) d)
        (state_error AlreadyExists "restore" "container {} already exists"));
      let! generation := next_generation (rr_id request) in
      do! write_operation PrepareRestoreOperation operation_id
        (new_operation operation_id KRestore (rr_id request) generation None
           (Some (RequestRestore request)) (current digest));
      let! stored := reconcile_prepared_restore request driver generation in
      do! append_restore_creating_event operation_id (sc_record stored);
      ret (RestorePrepared (sc_record stored))
  end.

(** The record update of [complete_restore]. *)
Definition complete_restore_state (stored : StoredContainer) (operation_id : string) (pid : Z)
    : Result StoredContainer :=
  let state := cr_state (sc_record stored) in
  match st_status state with
  | Creating =>
      check! reject_if (bool_decide (sc_active_operation stored ≠ Some operation_id))
        (state_error Conflict "complete-restore"
           "restoring container {} is not owned by operation {operation_id}");
      try! state := rebuild_state state Running (Some pid) in
      try! state := rebuild_paused_state state true in
      check! schema_validate_state state;
      Ok (set_sc_state state stored)
  | _ =>
      if bool_decide (st_status state = Running) && bool_decide (st_pid state = Some pid)
         && is_paused state
      then Ok stored
      else Err (state_error Conflict "complete-restore"
             "container {} cannot complete restore as PID {pid} while {status} with PID {:?} and paused={}")
  end.

(** The events of a completed restore. *)
Definition restored_events (operation_id : string) (target : ContainerTarget) : M () :=
  let attributes := {[OPERATION_ID_ATTRIBUTE := operation_id]} in
  do! append_operation_event operation_id "restore-created" target None ContainerCreated attributes;
  do! append_operation_event operation_id "restore-started" target None ContainerStarted attributes;
  do! append_operation_event operation_id "restore-paused" target None ContainerPaused attributes;
  ret ().

Definition complete_restore (operation_id : string) (pid : Z) : M RestoreResponse :=
  do! lift (reject_if (bool_decide (pid ≤ 0))
    (state_error InvalidArgument "complete-restore"
       "restored container PID must be positive; received {pid}"));
  let! operation := read (load_operation operation_id) in
  do! lift (reject_if (bool_decide (so_kind operation ≠ KRestore)) invalid_restore_outcome);
  match so_outcome operation with
  | Prepared =>
      let! request := lift (retained_restore_request operation) in
      let! stored := read (load_stored_exact (so_container_id operation)
                             (so_generation operation)) in
      let! stored := lift (complete_restore_state stored operation_id pid) in
      do! lift (reject_if
        match sc_active_operation stored with
        | Some active => bool_decide (active ≠ operation_id)
        | None => false
        end
        (state_error Conflict "complete-restore"
           "container {} is owned by another active operation"));
      let stored := set_sc_active None stored in
      do! write_record CompleteRestoreContainer (so_container_id operation) stored;
      do! restored_events operation_id
        (target_exact (so_container_id operation) (so_generation operation));
      let! reference := lift (restore_reference request) in
      let! response := lift (restore_response_new (sc_record stored) reference) in
      do! lift (restore_response_validate_for_request response request);
      do! write_operation CompleteRestoreOperation operation_id
        (set_outcome (SucceededRestore response) operation);
      ret response
  | SucceededRestore response => ret response
  | Failed error => fail error
  | _ => fail invalid_restore_outcome
  end.
End restore_store.
