(* ===== verification/AttestationStore.v ===== *)
(** * Attestation (crates/runtime/src/state/attestation.rs)

    An attestation of an exact, TEE-backed generation: the driver's evidence is
    bound to the request, the launch contract and the durable record. *)

From stdpp Require Import base gmap strings list pretty.
From S2P Require Import Prelude Sdk Identifiers Lifecycle Fault OciState Contracts StoreModel Disk.
From S2P Require Import RestoreContract Journal Events Claims Create.
Local Open Scope string_scope.
Local Open Scope Z_scope.

(** [AttestationSource], [AttestationOperationLookup] and
    [AttestationOperationPreparation] of state/mod.rs *)
Record AttestationSource : Type := mkAttestationSource {
  asrc_record : ContainerRecord;
  asrc_launch : TeeLaunchRequest
}.
Inductive AttestationOperationLookup : Type :=
  | AttestationPending
  | AttestationFound (r : TeeAttestationResponse).
Inductive AttestationOperationPreparation : Type :=
  | AttestationPrepared (s : AttestationSource)
  | AttestationResume (s : AttestationSource)
  | AttestationReplayed (r : TeeAttestationResponse).

(** [invalid_outcome] of attestation.rs *)
Definition invalid_attestation_outcome : Error :=
  state_error FailedPrecondition "attest"
    "TEE attestation operation {operation_id} has an invalid durable outcome".

Definition attest_exact_generation_error : Error :=
  state_error InvalidArgument "attest" "TEE attestation requires an exact generation".

Section attestation_store.
Context `{SE : StoreEnv}.

Definition validate_attestation_bindings (stored : StoredContainer) (d : Disk)
    : Result AttestationSource :=
  let failed msg := state_error FailedPrecondition "attest" msg in
  check! reject_if (bool_decide (cr_isolation (sc_record stored) ≠ DedicatedVm))
    (failed "TEE attestation source does not use dedicated-vm isolation");
  try! attachments := ok_or
    (failed "TEE attestation source has no durable attachment contract")
    (sc_attachments stored) in
  try! bundle := load_bundle stored d in
  try! launch := attachments_tee_launch attachments bundle in
  try! launch := ok_or
    (failed "container generation was not created with a TEE launch extension") launch in
  Ok (mkAttestationSource (sc_record stored) launch).

Definition validate_attestation_source (stored : StoredContainer) (d : Disk)
    : Result AttestationSource :=
  check! match st_status (cr_state (sc_record stored)) with
         | Created | Running => Ok ()
         | _ => Err (state_error FailedPrecondition "attest"
                  "container {} generation {} must be created or running before TEE attestation")
         end;
  validate_attestation_bindings stored d.

Definition validate_attestation_response_bindings (source : AttestationSource)
    (request : TeeAttestationRequest) (response : TeeAttestationResponse) : Result () :=
  check! attest_response_validate_for_request response request;
  try! attachments_digest := ok_or
    (state_error FailedPrecondition "attest" "TEE source has no attachment-manifest digest")
    (cr_attachments_digest (asrc_record source)) in
  reject_if
    (bool_decide (ar_target response ≠ atr_target request)
     || bool_decide (ar_launch response ≠ asrc_launch source)
     || bool_decide (ar_driver response ≠ cr_driver (asrc_record source))
     || bool_decide (ar_config_digest response ≠ cr_config_digest (asrc_record source))
     || bool_decide (ar_attachments_digest response ≠ attachments_digest))
    (state_error Conflict "attest"
       "TEE attestation operation {operation_id} returned evidence that differs from durable source bindings").

Definition validate_attestation_retry (operation : StoredOperation)
    (request : TeeAttestationRequest) (digest : RequestDigests) : Result () :=
  check! validate_retry operation (oc_operation_id (atr_context request)) KAttest
    (ct_id (atr_target request)) digest "attest";
  reject_if (bool_decide (so_request operation ≠ Some (RequestAttest request)))
    (state_error FailedPrecondition "attest"
       "operation ID {operation_id} was already used for a different TEE attestation request").

Definition lookup_attestation (request : TeeAttestationRequest) : M AttestationOperationLookup :=
  do! lift (attest_request_validate request);
  let! digest := lift (attestation_request_digest request) in
  let! existing := read (load_operation_if_present (oc_operation_id (atr_context request))) in
  match existing with
  | None => ret AttestationPending
  | Some operation =>
      do! lift (validate_attestation_retry operation request digest);
      match so_outcome operation with
      | Prepared => ret AttestationPending
      | SucceededAttestation response => ret (AttestationFound response)
      | Failed error => fail error
      | _ => fail invalid_attestation_outcome
      end
  end.

Definition attestation_source (target : ContainerTarget) : M AttestationSource :=
  let! generation := lift (ok_or attest_exact_generation_error (ct_generation target)) in
  read (λ d,
    try! stored := load_stored_exact (ct_id target) generation d in
    validate_attestation_source stored d).

Definition prepare_attestation (request : TeeAttestationRequest)
    : M AttestationOperationPreparation :=
  do! lift (attest_request_validate request);
  let! digest := lift (attestation_request_digest request) in
  let operation_id := oc_operation_id (atr_context request) in
  let target := atr_target request in
  let! existing := read (load_operation_if_present operation_id) in
  match existing with
  | Some operation =>
      do! lift (validate_attestation_retry operation request digest);
      match so_outcome operation with
      | Prepared =>
          let! stored := read (load_stored_exact (so_container_id operation)
                                 (so_generation operation)) in
          let! source := read (validate_attestation_source stored) in
          do! claim_active_operation stored operation_id ClaimAttestationOperation "attest";
          ret (AttestationResume source)
      | SucceededAttestation response => ret (AttestationReplayed response)
      | Failed error => fail error
      | _ => fail invalid_attestation_outcome
      end
  | None =>
      do! validate_deadline (atr_context request) "attest";
      let! expected_generation := lift (ok_or attest_exact_generation_error
                                          (ct_generation target)) in
      let! stored := read (load_stored_container (ct_id target)) in
      do! lift (reject_if
        (bool_decide (cr_generation (sc_record stored) ≠ expected_generation))
        (generation_conflict "attest"));
      let! source := read (validate_attestation_source stored) in
      do! write_operation PrepareAttestationOperation operation_id
        (new_operation operation_id KAttest (sc_id stored) (cr_generation (sc_record stored))
           None (Some (RequestAttest request)) (current digest));
      do! claim_active_operation stored operation_id ClaimAttestationOperation "attest";
      ret (AttestationPrepared source)
  end.

(** The attributes of the attestation event. *)
Definition attested_attributes (operation_id : string) (response : TeeAttestationResponse)
    : gmap string string :=
  <[OPERATION_ID_ATTRIBUTE := operation_id]>
  (<["tee-extension" := extension_name (tl_technology (ar_launch response))]>
  (<["measurement" := ar_measurement response]>
  (<["evidence-digest" := te_digest (ar_evidence response)]> ∅))).

Definition complete_attestation (operation_id : string) (response : TeeAttestationResponse)
    : M TeeAttestationResponse :=
  let! operation := read (load_operation operation_id) in
  do! lift (reject_if (bool_decide (so_kind operation ≠ KAttest)) invalid_attestation_outcome);
  match so_outcome operation with
  | Prepared =>
      let! request := lift
        match so_request operation with
        | Some (RequestAttest request) => Ok request
        | _ => Err (state_error FailedPrecondition "attest"
                 "TEE attestation operation {operation_id} has no retained request")
        end in
      let! stored := read (load_stored_exact (so_container_id operation)
                             (so_generation operation)) in
      let! source := read (validate_attestation_source stored) in
      do! lift (validate_attestation_response_bindings source request response);
      do! lift (ensure_active_operation stored operation_id "attest");
      let stored := set_sc_active None stored in
      do! write_record CompleteAttestationContainer (so_container_id operation) stored;
      do! append_operation_event operation_id "attested" (ar_target response) None
        ContainerAttested (attested_attributes operation_id response);
      do! write_operation CompleteAttestationOperation operation_id
        (set_outcome (SucceededAttestation response) operation);
      ret response
  | SucceededAttestation response => ret response
  | Failed error => fail error
  | _ => fail invalid_attestation_outcome
  end.
End attestation_store.
