(* ===== verification/Delete.v ===== *)
(** * OCI delete and operation failure (crates/runtime/src/state/delete.rs, failure.rs) *)

From stdpp Require Import base gmap strings list.
From S2P Require Import Prelude Sdk Identifiers Lifecycle Fault OciState Contracts StoreModel Disk.
From S2P Require Import RestoreContract Journal.
From S2P Require Import Events Claims Create ProcessStore.
Local Open Scope string_scope.
Local Open Scope Z_scope.

Section delete.
Context `{SE : StoreEnv}.

Definition append_delete_event (operation : StoredOperation) : M () :=
  let target := target_exact (so_container_id operation) (so_generation operation) in
  do! append_container_event "stopped" target ContainerStopped ∅;
  do! append_container_event "deleted" target ContainerDeleted ∅;
  ret ().

(** The reconciliation of a prepared delete whose directory was moved. *)
Definition finish_moved_delete (operation : StoredOperation) (operation_id : string)
    (mutation : DurableMutation) : M () :=
  do! append_delete_event operation;
  write_operation mutation operation_id (set_outcome SucceededEmpty operation).

Definition delete_live_and_tombstone (operation : string) : Error :=
  state_error Conflict operation "delete operation {} has both a live record and tombstone".
Definition delete_lost (operation : string) : Error :=
  set_retryable (state_error Unavailable operation
    "delete operation {} has neither a live record nor tombstone") true.

Definition prepare_delete (request : DeleteRequest) : M DeletePreparation :=
  let operation_id := oc_operation_id (delete_context request) in
  let target := delete_target request in
  let! digest := lift (request_digest (DeleteFingerprint target (delete_mode request))
    "digest-delete-request") in
  let! existing := read (load_operation_if_present operation_id) in
  match existing with
  | Some operation =>
      do! lift (validate_retry operation operation_id KDelete (ct_id target) digest
                  "prepare-delete");
      match so_outcome operation with
      | Prepared =>
          let! '(source_exists, tombstone_exists) :=
            read (λ d, Ok (container_exists (so_container_id operation) d,
                           tombstone_exists (delete_tombstone (so_operation_id operation)) d)) in
          match source_exists : bool, tombstone_exists : bool with
          | true, false =>
              let! stored := read (load_stored_exact (so_container_id operation)
                                     (so_generation operation)) in
              do! read (ensure_no_active_process_operations stored "prepare-delete");
              let! stored := claim_active_operation stored operation_id ClaimDeleteOperation
                               "prepare-delete" in
              ret (DeleteResume (sc_record stored))
          | false, true =>
              do! finish_moved_delete operation operation_id ReconcileDeleteOperation;
              ret DeleteReplayed
          | true, true =>
              let! live := read (load_stored_container (so_container_id operation)) in
              if bool_decide (cr_generation (sc_record live) = so_generation operation) then
                fail (delete_live_and_tombstone "prepare-delete")
              else
                do! finish_moved_delete operation operation_id ReconcileDeleteOperation;
                ret DeleteReplayed
          | false, false => fail (delete_lost "prepare-delete")
          end
      | SucceededEmpty => ret DeleteReplayed
      | Failed error => fail error
      | _ => fail (state_error FailedPrecondition "prepare-delete"
               "delete operation {} has an invalid state response")
      end
  | None =>
      do! validate_deadline (delete_context request) "prepare-delete";
      let! stored := read (load_stored_container (ct_id target)) in
      do! lift (generation_fence target (cr_generation (sc_record stored)) "prepare-delete");
      let status := st_status (cr_state (sc_record stored)) in
      do! lift match delete_mode request with
               | StoppedOnly => reject_if (bool_decide (status ≠ Stopped))
                   (state_error FailedPrecondition "prepare-delete"
                      "container {} generation {:?} cannot be deleted without force while {status}")
               | Force => reject_if (bool_decide (status = Creating))
                   (state_error Conflict "prepare-delete"
                      "container {} create operation is still in progress")
               end;
      do! read (ensure_no_active_process_operations stored "prepare-delete");
      do! write_operation PrepareDeleteOperation operation_id
        (new_operation operation_id KDelete (ct_id target) (cr_generation (sc_record stored))
           None None (current digest));
      let! stored := claim_active_operation stored operation_id ClaimDeleteOperation
                       "prepare-delete" in
      ret (DeletePrepared (sc_record stored))
  end.

Definition complete_delete (operation_id : string) : M () :=
  let! operation := read (load_operation operation_id) in
  do! lift (reject_if (bool_decide (so_kind operation ≠ KDelete))
    (state_error FailedPrecondition "complete-delete"
       "operation {operation_id} is not an OCI delete"));
  match so_outcome operation with
  | SucceededEmpty => ret ()
  | Failed error => fail error
  | Prepared =>
      let tombstone := delete_tombstone operation_id in
      let! '(source_exists, tombstone_exists) :=
        read (λ d, Ok (container_exists (so_container_id operation) d,
                       tombstone_exists tombstone d)) in
      do! match source_exists : bool, tombstone_exists : bool with
          | true, false =>
              let! stored := read (load_stored_exact (so_container_id operation)
                                     (so_generation operation)) in
              do! lift (ensure_active_operation stored operation_id "complete-delete");
              move_directory MoveDeleteTombstone (so_container_id operation) tombstone
          | false, true => ret ()
          | true, true =>
              let! live := read (load_stored_container (so_container_id operation)) in
              lift (reject_if
                (bool_decide (cr_generation (sc_record live) = so_generation operation))
                (delete_live_and_tombstone "complete-delete"))
          | false, false => fail (delete_lost "complete-delete")
          end;
      finish_moved_delete operation operation_id CompleteDeleteOperation
  | _ => fail (state_error FailedPrecondition "complete-delete"
           "delete operation {operation_id} has an invalid state response")
  end.

(** ** failure.rs *)

Definition process_failure_mutations (kind : StoredOperationKind)
    : option (DurableMutation * DurableMutation) :=
  match kind with
  | KExec => Some (ReleaseFailedExecClaim, RecordExecFailure)
  | KSignalProcess => Some (ReleaseFailedSignalProcessClaim, RecordSignalProcessFailure)
  | KWriteStdin => Some (ReleaseFailedWriteStdinClaim, RecordWriteStdinFailure)
  | KCloseStdin => Some (ReleaseFailedCloseStdinClaim, RecordCloseStdinFailure)
  | KResize => Some (ReleaseFailedResizeClaim, RecordResizeFailure)
  | _ => None
  end.

Definition failure_mutations (kind : StoredOperationKind)
    : option (DurableMutation * DurableMutation) :=
  match kind with
  | KStart => Some (ReleaseFailedStartClaim, RecordStartFailure)
  | KKill => Some (ReleaseFailedKillClaim, RecordKillFailure)
  | KPause => Some (ReleaseFailedPauseClaim, RecordPauseFailure)
  | KResume => Some (ReleaseFailedResumeClaim, RecordResumeFailure)
  | KUpdate => Some (ReleaseFailedUpdateClaim, RecordUpdateFailure)
  | KDelete => Some (ReleaseFailedDeleteClaim, RecordDeleteFailure)
  | KFile => Some (ReleaseFailedFileClaim, RecordFileFailure)
  | KFilesystem => Some (ReleaseFailedFilesystemClaim, RecordFilesystemFailure)
  | KCheckpoint => Some (ReleaseFailedCheckpointClaim, RecordCheckpointFailure)
  | KAttest => Some (ReleaseFailedAttestationClaim, RecordAttestationFailure)
  | _ => None
  end.

(** [matches!(kind, Exec | SignalProcess | WriteStdin | CloseStdin | Resize)] *)
Definition is_process_kind (kind : StoredOperationKind) : bool :=
  match kind with
  | KExec | KSignalProcess | KWriteStdin | KCloseStdin | KResize => true
  | _ => false
  end.

Definition fail_operation (operation_id : string) (error : Error) : M () :=
  if retryable error then ret ()
  else
    let! operation := read (load_operation operation_id) in
    match so_outcome operation with
    | Failed durable =>
        if bool_decide (durable = error) then
          if is_creation (so_kind operation) then reconcile_failed_creation operation
          else ret ()
        else fail (state_error Conflict "fail-operation"
               "operation {operation_id} already has a different failure")
    | Prepared =>
        let failed := set_outcome (Failed error) operation in
        if is_creation (so_kind operation) then
          let! failure_mutation :=
            match so_kind operation with
            | KCreate => ret RecordCreateFailure
            | KRestore => ret RecordRestoreFailure
            | _ => fail (state_error Internal "fail-operation"
                     "operation {operation_id} reported creation kind {kind:?} without a creation failure mutation")
            end in
          do! write_operation failure_mutation operation_id failed;
          reconcile_failed_creation failed
        else if is_process_kind (so_kind operation) then
          let! '(release_mutation, failure_mutation) := lift (ok_or
            (state_error Internal "fail-operation"
               "operation {operation_id} reached invalid process failure handling")
            (process_failure_mutations (so_kind operation))) in
          do! release_failed_process_operation operation release_mutation;
          write_operation failure_mutation operation_id failed
        else
          let! '(release_mutation, failure_mutation) := lift (ok_or
            (state_error Internal "fail-operation"
               "operation {operation_id} reached invalid failure handling")
            (failure_mutations (so_kind operation))) in
          let! stored := read (load_stored_exact (so_container_id operation)
                                 (so_generation operation)) in
          do! lift (ensure_active_operation stored operation_id "fail-operation");
          do! write_record release_mutation (so_container_id operation)
            (set_sc_active None stored);
          write_operation failure_mutation operation_id failed
    | _ => fail (state_error Conflict "fail-operation"
             "operation {operation_id} already succeeded")
    end.
End delete.
