(* ===== verification/Observe.v ===== *)
(** * Driver observations and listing (crates/runtime/src/state/observe.rs, list.rs)

    Reconciliation of a durable record with the state that the driver reports,
    and the snapshot of all live containers. *)

From stdpp Require Import base gmap strings list sorting.
From S2P Require Import Prelude Sdk Identifiers Lifecycle Fault OciState Contracts StoreModel Disk.
From S2P Require Import RestoreContract Journal.
From S2P Require Import Events Claims Create.
Local Open Scope string_scope.
Local Open Scope Z_scope.

(** [RecreatedProcess] of driver.rs. *)
Inductive RecreatedProcess : Type :=
  | RecreatedNone | RecreatedCreated | RecreatedRunning | RecreatedRunningPaused.
#[global] Instance RecreatedProcess_eq_dec : EqDecision RecreatedProcess.
Proof. solve_decision. Defined.

(** [DriverState] of driver.rs. *)
Record DriverState : Type := mkDriverState {
  ds_status : ContainerState;
  ds_pid : option Z;
  ds_paused : bool
}.

Definition observe_conflict : Error :=
  state_error Conflict "observe-state"
    "container {} cannot reconcile durable {current} with driver {observed}".

Definition validate_observation (status : ContainerState) (pid : option Z) (paused : bool)
    : Result unit :=
  let invalid := state_error InvalidArgument "observe-state"
    "driver returned invalid OCI state {status} with PID {pid:?} and paused={paused}" in
  match status, pid, paused with
  | Created, Some pid, false => reject_if (bool_decide (pid ≤ 0)) invalid
  | Running, Some pid, _ => reject_if (bool_decide (pid ≤ 0)) invalid
  | Stopped, None, false => Ok ()
  | _, _, _ => Err invalid
  end.

Definition validate_active_operation (stored : StoredContainer) (operation : StoredOperation)
    : Result unit :=
  reject_if
    (bool_decide (so_container_id operation ≠ sc_id stored)
     || bool_decide (so_generation operation ≠ cr_generation (sc_record stored))
     || negb (is_prepared (so_outcome operation)))
    (state_error Conflict "observe-state"
       "container {} active operation {} does not match its durable record").

Definition observation_completes (kind : StoredOperationKind) (status : ContainerState)
    (paused : bool) : bool :=
  match kind with
  | KStart => bool_decide (status = Running) || bool_decide (status = Stopped)
  | KKill | KSignalProcess => bool_decide (status = Stopped)
  | KPause => bool_decide (status = Running) && paused
  | KResume => bool_decide (status = Running) && negb paused
  | _ => false
  end.

(** [matches!((recreated_process, current, active kind), ..)] *)
Definition replacement_allowed (recreated : RecreatedProcess) (current : ContainerState)
    (kind : StoredOperationKind) : bool :=
  match recreated, current, kind with
  | RecreatedCreated, Created, KStart => true
  | RecreatedRunning, Running,
      (KKill | KPause | KResume | KUpdate | KFile | KFilesystem) => true
  | RecreatedRunningPaused, Running, (KPause | KResume) => true
  | _, _, _ => false
  end.

Definition replacement_matches (recreated : RecreatedProcess) (current : ContainerState) : bool :=
  match recreated, current with
  | RecreatedCreated, Created | RecreatedRunning, Running | RecreatedRunningPaused, Running => true
  | _, _ => false
  end.

Definition freezer_matches (recreated : RecreatedProcess) (paused : bool) : bool :=
  match recreated with
  | RecreatedRunningPaused => paused
  | RecreatedCreated | RecreatedRunning => negb paused
  | RecreatedNone => false
  end.

(** The outcome an observation gives to the operation it completes. *)
Definition observed_outcome (kind : StoredOperationKind) (response : ContainerRecord)
    : Result StoredOperationStatus :=
  match kind with
  | KSignalProcess => Ok SucceededEmpty
  | KStart | KKill | KPause | KResume => Ok (Succeeded response)
  | _ => Err (state_error Internal "observe-state"
           "operation {} cannot complete from a container observation")
  end.

(** Order of container IDs in a listing: [left.state.id().cmp(right.state.id())]. *)
Definition record_le (a b : ContainerRecord) : Prop :=
  String.leb (st_id (cr_state a)) (st_id (cr_state b)) = true.
#[global] Instance record_le_dec : RelDecision record_le.
Proof. intros a b. unfold record_le. apply _. Defined.

Section observe.
Context `{SE : StoreEnv}.

(** The match on the durable and the observed state: the updated record and
    whether it changed. *)
Definition observe_transition (stored : StoredContainer) (active : option StoredOperation)
    (status : ContainerState) (pid : option Z) (paused : bool) (recreated : RecreatedProcess)
    : Result (StoredContainer * bool) :=
  let state := cr_state (sc_record stored) in
  let current := st_status state in
  match current, status with
  | Created, Created | Running, Running =>
      try! p :=
        (if bool_decide (st_pid state = pid) then Ok (stored, false)
         else
           let active_allows_replacement :=
             match active with
             | None => true
             | Some operation => replacement_allowed recreated current (so_kind operation)
             end in
           if replacement_matches recreated current && active_allows_replacement
              && freezer_matches recreated (is_paused state)
           then
             try! state := rebuild_state state current pid in
             check! schema_validate_state state;
             Ok (set_sc_state state stored, true)
           else Err (state_error Conflict "observe-state"
                  "container {} PID mismatch: durable {:?}, driver {pid:?}")) in
      let '(stored, changed) := p in
      let state := cr_state (sc_record stored) in
      if Bool.eqb (is_paused state) paused then Ok (stored, changed)
      else
        try! state := rebuild_paused_state state paused in
        check! schema_validate_state state;
        Ok (set_sc_state state stored, true)
  | (Created | Running), Stopped =>
      try! lifecycle := transition_or "observe-state" (lifecycle_state current) LProcessExited in
      try! state := rebuild_state state (container_state lifecycle) None in
      check! schema_validate_state state;
      Ok (set_sc_state state stored, true)
  | Created, Running =>
      match active with
      | Some operation =>
          if bool_decide (so_kind operation = KStart) then
            try! running := transition_or "observe-state" LCreated StartCompleted in
            try! state := rebuild_state state (container_state running) pid in
            try! state := (if paused then rebuild_paused_state state true else Ok state) in
            check! schema_validate_state state;
            Ok (set_sc_state state stored, true)
          else Err observe_conflict
      | None => Err observe_conflict
      end
  | Stopped, Stopped => Ok (stored, false)
  | _, _ => Err observe_conflict
  end.

(** The load of the active operation that the record names. *)
Definition load_active (stored : StoredContainer) (d : Disk) : Result (option StoredOperation) :=
  match sc_active_operation stored with
  | None => Ok None
  | Some operation_id =>
      try! operation := load_operation operation_id d in
      check! validate_active_operation stored operation;
      Ok (Some operation)
  end.

(** The event of the operation that the observation completes. *)
Definition observed_event (operation : StoredOperation) (target : ContainerTarget) : M () :=
  let operation_id := so_operation_id operation in
  match so_kind operation with
  | KStart => do! append_container_event "started" target ContainerStarted ∅; ret ()
  | KPause =>
      do! append_operation_event operation_id "pause" target None ContainerPaused
        {[OPERATION_ID_ATTRIBUTE := operation_id]}; ret ()
  | KResume =>
      do! append_operation_event operation_id "resume" target None ContainerResumed
        {[OPERATION_ID_ATTRIBUTE := operation_id]}; ret ()
  | _ => ret ()
  end.

Definition observe_state_inner (target : ContainerTarget) (status : ContainerState)
    (pid : option Z) (paused : bool) (recreated : RecreatedProcess) : M ContainerRecord :=
  do! lift (validate_observation status pid paused);
  let! stored := read (load_stored_container (ct_id target)) in
  do! lift (generation_fence target (cr_generation (sc_record stored)) "observe-state");
  let current := st_status (cr_state (sc_record stored)) in
  let! active := read (load_active stored) in
  do! lift (reject_if
    (bool_decide (recreated = RecreatedRunning) && bool_decide (current = Running)
     && is_paused (cr_state (sc_record stored)))
    (state_error Conflict "observe-recreated-running-process"
       "container {} is paused and cannot use unpaused running-process recovery"));
  do! lift (reject_if
    (bool_decide (recreated = RecreatedRunningPaused)
     && (bool_decide (current ≠ Running) || negb (is_paused (cr_state (sc_record stored)))))
    (state_error Conflict "observe-recreated-paused-running-process"
       "container {} is not durably paused and cannot use paused running-process recovery"));
  let completed :=
    match active with
    | Some operation =>
        if observation_completes (so_kind operation) status paused then Some operation else None
    | None => None
    end in
  let! '(stored, state_changed) :=
    lift (observe_transition stored active status pid paused recreated) in
  let! '(stored, state_changed) :=
    match completed with
    | Some _ => ret (set_sc_active None stored, true)
    | None => ret (stored, state_changed)
    end in
  do! (if state_changed : bool then write_record ObserveContainer (ct_id target) stored
       else ret ());
  let exact_target := target_exact (sc_id stored) (cr_generation (sc_record stored)) in
  do! match completed with
      | Some operation => observed_event operation exact_target
      | None => ret ()
      end;
  do! (if bool_decide (status = Stopped) && bool_decide (current ≠ Stopped) then
         do! append_container_event "stopped" exact_target ContainerStopped ∅; ret ()
       else ret ());
  do! match completed with
      | Some operation =>
          let! outcome := lift (observed_outcome (so_kind operation) (sc_record stored)) in
          write_operation CompleteObservedOperation (so_operation_id operation)
            (set_outcome outcome operation)
      | None => ret ()
      end;
  ret (sc_record stored).

Definition observe_state_with_pause (target : ContainerTarget) (status : ContainerState)
    (pid : option Z) (paused : bool) : M ContainerRecord :=
  observe_state_inner target status pid paused RecreatedNone.

Definition observe_state (target : ContainerTarget) (status : ContainerState) (pid : option Z)
    : M ContainerRecord :=
  observe_state_with_pause target status pid false.

Definition observe_recreated_created_process (target : ContainerTarget)
    (observation : DriverState) : M ContainerRecord :=
  do! lift (reject_if
    (bool_decide (ds_status observation ≠ Created) || ds_paused observation)
    (state_error InvalidArgument "observe-recreated-created-process"
       "replacement-owner recovery requires an unpaused created state"));
  observe_state_inner target (ds_status observation) (ds_pid observation)
    (ds_paused observation) RecreatedCreated.

Definition observe_recreated_running_process (target : ContainerTarget)
    (observation : DriverState) : M ContainerRecord :=
  do! lift (reject_if
    (bool_decide (ds_status observation ≠ Running) || ds_paused observation)
    (state_error InvalidArgument "observe-recreated-running-process"
       "replacement-owner recovery requires an unpaused running state"));
  observe_state_inner target (ds_status observation) (ds_pid observation)
    (ds_paused observation) RecreatedRunning.

Definition observe_recreated_paused_running_process (target : ContainerTarget)
    (observation : DriverState) : M ContainerRecord :=
  do! lift (reject_if
    (bool_decide (ds_status observation ≠ Running) || negb (ds_paused observation))
    (state_error InvalidArgument "observe-recreated-paused-running-process"
       "replacement-owner paused recovery requires a paused running state"));
  observe_state_inner target (ds_status observation) (ds_pid observation)
    (ds_paused observation) RecreatedRunningPaused.

(** ** list.rs *)

Definition list_entry (isolation : option IsolationClass) (d : Disk)
    (records : list ContainerRecord) (name : string) : Result (list ContainerRecord) :=
  try! id := map_err
    (λ _, state_error FailedPrecondition "list-container-state"
            "container state directory contains invalid entry {name:?}: {error}")
    (validate_identifier name) in
  try! stored := load_stored_container id d in
  Ok (if match isolation with
         | None => true
         | Some isolation => bool_decide (cr_isolation (sc_record stored) = isolation)
         end
      then (records ++ [sc_record stored])%list else records).

Definition list_records (request : ListRequest) (d : Disk) : Result (list ContainerRecord) :=
  try! records := rfold (list_entry (list_isolation request) d) []
    (map_to_list (d_containers d)).*1 in
  Ok (merge_sort record_le records).

Definition list_containers (request : ListRequest) : M (list ContainerRecord) :=
  read (list_records request).
End observe.
