(* ===== verification/Driver.v ===== *)
(** * The driver interface (crates/runtime/src/driver.rs)

    What a driver reports, the requests it is given, and the trait
    [RuntimeDriver] as a record of operations on the state of the world
    outside the runtime.  The host service is proved against this interface;
    the utility-VM driver ([UtilityVm]) implements it in [DriverHost]. *)

From stdpp Require Import base gmap strings list.
From S2P Require Import Prelude Collections Sdk Identifiers OutputBuffer Lifecycle Fault.
From S2P Require Import OciState Contracts Capabilities StoreModel Disk RestoreContract Journal.
From S2P Require Import Observe.
Local Open Scope string_scope.
Local Open Scope Z_scope.

(** [Error::unsupported] *)
Definition error_unsupported (operation : string) : Error :=
  state_error Unsupported operation
    "runtime operation `{operation}` is not supported by the selected driver".

(** ** [DriverState] *)

Definition driver_state_with_process (status : ContainerState) (pid : Z) : Result DriverState :=
  check! reject_if (bool_decide (pid ≤ 0))
    (state_error InvalidArgument "construct-driver-state"
       "driver init PID must be positive; received {pid}");
  Ok (mkDriverState status (Some pid) false).
Definition driver_state_created (pid : Z) : Result DriverState :=
  driver_state_with_process Created pid.
Definition driver_state_running (pid : Z) : Result DriverState :=
  driver_state_with_process Running pid.
Definition driver_state_stopped : DriverState := mkDriverState Stopped None false.
Definition driver_state_with_paused (s : DriverState) (paused : bool) : Result DriverState :=
  check! reject_if (paused && bool_decide (ds_status s ≠ Running))
    (state_error InvalidArgument "construct-driver-state" "a {} driver state cannot be paused");
  Ok (mkDriverState (ds_status s) (ds_pid s) paused).

(** ** [DriverRecovery] *)

Record DriverRecovery : Type := mkDriverRecovery {
  rec_observation : option DriverState;
  rec_init_exit_status : option ExitStatus;
  rec_recreated_process : RecreatedProcess;
  rec_recreated_exec_processes : list ProcessRecord
}.

Definition recovery_error (msg : string) : Error :=
  state_error InvalidArgument "construct-driver-recovery" msg.

Definition recovery_none : DriverRecovery := mkDriverRecovery None None RecreatedNone [].
Definition recovery_observed (observation : DriverState) : DriverRecovery :=
  mkDriverRecovery (Some observation) None RecreatedNone [].
Definition recreated_created (observation : DriverState) : Result DriverRecovery :=
  check! reject_if (bool_decide (ds_status observation ≠ Created) || ds_paused observation)
    (recovery_error "recreated process recovery requires an unpaused created driver state");
  Ok (mkDriverRecovery (Some observation) None RecreatedCreated []).
Definition recreated_paused_running (observation : DriverState) : Result DriverRecovery :=
  check! reject_if (bool_decide (ds_status observation ≠ Running) || negb (ds_paused observation))
    (recovery_error "recreated paused recovery requires a paused running driver state");
  check! reject_if (from_option (λ pid, bool_decide (pid ≤ 0)) true (ds_pid observation))
    (recovery_error "recreated paused recovery requires a positive init PID");
  Ok (mkDriverRecovery (Some observation) None RecreatedRunningPaused []).

(** The order of process targets: container ID, generation, process ID. *)
Definition process_target_key (p : ProcessRecord) : string * (option Z * string) :=
  (ct_id (pt_container (pr_target p)), (ct_generation (pt_container (pr_target p)),
    pt_process_id (pr_target p))).
Definition invalid_recreated_process (init_pid : Z) (p : ProcessRecord) : bool :=
  is_init (pt_process_id (pr_target p))
  || bool_decide (ct_generation (pt_container (pr_target p)) = None)
  || bool_decide (pr_pid p = None) || bool_decide (pr_pid p = Some 0)
  || bool_decide (pr_pid p = Some init_pid).

(** [processes.windows(2).any(|pair| key(pair[0]) == key(pair[1]))] *)
Fixpoint has_equal_neighbours {A} `{EqDecision B} (key : A → B) (l : list A) : bool :=
  match l with
  | a :: ((b :: _) as l') => bool_decide (key a = key b) || has_equal_neighbours key l'
  | _ => false
  end.

Definition recreated_running_with_processes (observation : DriverState)
    (processes : list ProcessRecord) : Result DriverRecovery :=
  check! reject_if (bool_decide (ds_status observation ≠ Running) || ds_paused observation)
    (recovery_error "recreated process recovery requires an unpaused running driver state");
  (* [u32::try_from(pid).ok()] keeps the non-negative PIDs *)
  try! init_pid := ok_or
    (recovery_error "recreated running recovery requires a positive init PID")
    (ds_pid observation ≫= λ pid, if bool_decide (0 ≤ pid) then Some pid else None) in
  check! reject_if (existsb (invalid_recreated_process init_pid) processes)
    (recovery_error "recreated exec recovery requires an exact non-init target and a positive PID distinct from init");
  let processes := sort_by_key process_target_key processes in
  check! reject_if (has_equal_neighbours pr_target processes)
    (recovery_error "recreated exec recovery contains a duplicate process target");
  check! reject_if
    match processes with
    | first :: _ =>
        existsb (λ p, bool_decide (pt_container (pr_target p) ≠ pt_container (pr_target first)))
          processes
    | [] => false
    end
    (recovery_error "recreated exec recovery spans more than one container generation");
  let pids := sort_by_key id (omap pr_pid processes) in
  check! reject_if (has_equal_neighbours id pids)
    (recovery_error "recreated exec recovery contains a duplicate PID");
  Ok (mkDriverRecovery (Some observation) None RecreatedRunning processes).
Definition recreated_running (observation : DriverState) : Result DriverRecovery :=
  recreated_running_with_processes observation [].
Definition stopped_with_exit (init_exit_status : ExitStatus) : Result DriverRecovery :=
  check! exit_status_validate init_exit_status;
  Ok (mkDriverRecovery (Some driver_state_stopped) (Some init_exit_status) RecreatedNone []).

(** ** Requests and results *)

(** [DriverCreateAttachments]; the descriptors are opaque handles. *)
Inductive DriverCreateAttachments : Type :=
  | AttachNone
  | AttachNativeControl (descriptors : string).
Definition A3S_BOX_CONTROL_V1 : string := "a3s-box-control-v1".
Definition create_attachments_schema (a : DriverCreateAttachments) : option string :=
  match a with AttachNone => None | AttachNativeControl _ => Some A3S_BOX_CONTROL_V1 end.
Definition create_attachments_is_empty (a : DriverCreateAttachments) : bool :=
  match a with AttachNone => true | AttachNativeControl _ => false end.

(** [OciHookPhase], in lifecycle order, and [as_str] *)
Inductive OciHookPhase : Type :=
  | Prestart | CreateRuntime | CreateContainer | StartContainer | Poststart | Poststop.
#[global] Instance OciHookPhase_eq_dec : EqDecision OciHookPhase.
Proof. solve_decision. Defined.
Definition ALL_HOOK_PHASES : list OciHookPhase :=
  [Prestart; CreateRuntime; CreateContainer; StartContainer; Poststart; Poststop].
Definition hook_phase_as_str (p : OciHookPhase) : string :=
  match p with
  | Prestart => "prestart" | CreateRuntime => "createRuntime"
  | CreateContainer => "createContainer" | StartContainer => "startContainer"
  | Poststart => "poststart" | Poststop => "poststop"
  end.

Record DriverCreateRequest : Type := mkDriverCreateRequest {
  dcr_context : OperationContext;
  dcr_target : ContainerTarget;
  dcr_bundle : OciBundle;
  dcr_isolation : IsolationRequest;
  dcr_io : ProcessIo;
  dcr_attachment_contract : CreateAttachments;
  dcr_tee_launch : option TeeLaunchRequest;
  dcr_attachments : DriverCreateAttachments
}.
Record DriverStartRequest : Type := mkDriverStartRequest {
  dsr_context : OperationContext; dsr_target : ContainerTarget; dsr_bundle : OciBundle }.
Record DriverKillRequest : Type := mkDriverKillRequest {
  dkr_context : OperationContext; dkr_target : ContainerTarget; dkr_signal : Z; dkr_all : bool }.
Record DriverDeleteRequest : Type := mkDriverDeleteRequest {
  ddr_context : OperationContext; ddr_target : ContainerTarget; ddr_mode : DeleteMode }.
Record DriverWaitRequest : Type := mkDriverWaitRequest {
  dwr_target : ContainerTarget; dwr_timeout_ms : option Z }.
Record DriverExecRequest : Type := mkDriverExecRequest {
  der_context : OperationContext; der_target : ProcessTarget; der_process : OciProcess;
  der_io : ProcessIo }.
Record DriverSignalProcessRequest : Type := mkDriverSignalProcessRequest {
  dspr_context : OperationContext; dspr_target : ProcessTarget; dspr_signal : Z }.
Record DriverWaitProcessRequest : Type := mkDriverWaitProcessRequest {
  dwpr_target : ProcessTarget; dwpr_timeout_ms : option Z }.
Record DriverReadOutputRequest : Type := mkDriverReadOutputRequest {
  dror_target : ProcessTarget; dror_after_sequence : Z; dror_max_bytes : Z;
  dror_wait_timeout_ms : option Z }.
Record DriverWriteStdinRequest : Type := mkDriverWriteStdinRequest {
  dwsr_context : OperationContext; dwsr_target : ProcessTarget; dwsr_data : string }.
Record DriverCloseStdinRequest : Type := mkDriverCloseStdinRequest {
  dcsr_context : OperationContext; dcsr_target : ProcessTarget }.
Record DriverResizeRequest : Type := mkDriverResizeRequest {
  drr_context : OperationContext; drr_target : ProcessTarget; drr_size : TerminalSize }.
Record DriverContainerOperationRequest : Type := mkDriverContainerOperationRequest {
  dcor_context : OperationContext; dcor_target : ContainerTarget }.
Record DriverUpdateRequest : Type := mkDriverUpdateRequest {
  dur_context : OperationContext; dur_target : ContainerTarget; dur_resources : string }.
Record DriverCheckpointRequest : Type := mkDriverCheckpointRequest {
  dckr_context : OperationContext; dckr_source : ContainerRecord; dckr_artifact_path : string;
  dckr_runtime_artifact : RuntimeArtifact }.
Record DriverCheckpointResult : Type := mkDriverCheckpointResult {
  dcres_compatibility : CheckpointCompatibility; dcres_artifact_digest : string;
  dcres_artifact_size_bytes : Z }.
Definition checkpoint_result_new (compatibility : CheckpointCompatibility) (digest : string)
    (size : Z) : Result DriverCheckpointResult :=
  check! reject_if (bool_decide (size = 0))
    (state_error InvalidArgument "construct-driver-checkpoint-result"
       "driver checkpoint artifact size must be greater than zero");
  Ok (mkDriverCheckpointResult compatibility digest size).
Record DriverRestoreValidationRequest : Type := mkDriverRestoreValidationRequest {
  drvr_context : OperationContext; drvr_artifact_path : string;
  drvr_reference : CheckpointReference; drvr_runtime_artifact : RuntimeArtifact }.
Record DriverRestoreRequest : Type := mkDriverRestoreRequest {
  drest_context : OperationContext;
  drest_target : ContainerTarget;
  drest_bundle : OciBundle;
  drest_artifact_path : string;
  drest_isolation : IsolationRequest;
  drest_io : ProcessIo;
  drest_attachment_contract : CreateAttachments;
  drest_tee_launch : option TeeLaunchRequest;
  drest_reference : CheckpointReference;
  drest_runtime_artifact : RuntimeArtifact
}.
Record DriverAttestationRequest : Type := mkDriverAttestationRequest {
  dar_context : OperationContext; dar_source : ContainerRecord; dar_launch : TeeLaunchRequest;
  dar_report_data : string; dar_runtime_artifact : RuntimeArtifact }.
Record DriverAttestationResult : Type := mkDriverAttestationResult {
  dares_runtime_artifact : RuntimeArtifact; dares_driver_build_digest : string;
  dares_measurement : string; dares_evidence : TeeEvidence }.
Record DriverProcess : Type := mkDriverProcess { dp_pid : Z; dp_terminal : bool }.
Definition driver_process_new (pid : Z) (terminal : bool) : Result DriverProcess :=
  check! reject_if (bool_decide (pid ≤ 0))
    (state_error InvalidArgument "construct-driver-process"
       "driver process PID must be positive; received {pid}");
  Ok (mkDriverProcess pid terminal).

(** ** [RuntimeDriver] *)

(** The trait: what a driver advertises, and its calls as programs over the
    state [O] of everything outside the runtime's own store (processes, VMs,
    files).  [L] is the Linux support profile. *)
Record RuntimeDriver (O L : Type) : Type := mkRuntimeDriver {
  drv_capability : DriverCapability;
  drv_linux_support : Result L;
  drv_operations : list RuntimeOperation;
  drv_hooks : list OciHookPhase;
  drv_attachment_capabilities : AttachmentCapabilities;
  drv_validate_create_bundle : OciBundle → Result ();
  drv_acknowledge_operation : string → prog O Error ();
  drv_recover : ContainerRecord → prog O Error DriverRecovery;
  drv_prepare_create_bundle : DriverCreateRequest → prog O Error OciBundle;
  drv_create : DriverCreateRequest → prog O Error DriverState;
  drv_state : ContainerTarget → prog O Error DriverState;
  drv_start : DriverStartRequest → prog O Error DriverState;
  drv_kill : DriverKillRequest → prog O Error DriverState;
  drv_delete : DriverDeleteRequest → prog O Error ();
  drv_wait : DriverWaitRequest → prog O Error ExitStatus;
  drv_exec : DriverExecRequest → prog O Error DriverProcess;
  drv_signal_process : DriverSignalProcessRequest → prog O Error ();
  drv_wait_process : DriverWaitProcessRequest → prog O Error ExitStatus;
  drv_pause : DriverContainerOperationRequest → prog O Error DriverState;
  drv_resume : DriverContainerOperationRequest → prog O Error DriverState;
  drv_processes : ContainerTarget → prog O Error (list ProcessRecord);
  drv_update : DriverUpdateRequest → prog O Error DriverState;
  drv_stats : ContainerTarget → prog O Error ContainerStats;
  drv_read_output : DriverReadOutputRequest → prog O Error (list OutputChunk);
  drv_write_stdin : DriverWriteStdinRequest → prog O Error ();
  drv_close_stdin : DriverCloseStdinRequest → prog O Error ();
  drv_resize : DriverResizeRequest → prog O Error ();
  drv_file : FileRequest → prog O Error FileResponse;
  drv_filesystem : FilesystemRequest → prog O Error FilesystemResponse;
  drv_checkpoint : DriverCheckpointRequest → prog O Error DriverCheckpointResult;
  drv_validate_restore_artifact : DriverRestoreValidationRequest → prog O Error ();
  drv_prepare_restore_bundle : DriverRestoreRequest → prog O Error OciBundle;
  drv_restore : DriverRestoreRequest → prog O Error DriverState;
  drv_attest : DriverAttestationRequest → prog O Error DriverAttestationResult
}.
Arguments mkRuntimeDriver {_ _}.
Arguments drv_capability {_ _}. Arguments drv_linux_support {_ _}. Arguments drv_operations {_ _}.
Arguments drv_hooks {_ _}. Arguments drv_attachment_capabilities {_ _}.
Arguments drv_validate_create_bundle {_ _}. Arguments drv_acknowledge_operation {_ _}.
Arguments drv_recover {_ _}. Arguments drv_prepare_create_bundle {_ _}.
Arguments drv_create {_ _}. Arguments drv_state {_ _}. Arguments drv_start {_ _}.
Arguments drv_kill {_ _}. Arguments drv_delete {_ _}. Arguments drv_wait {_ _}.
Arguments drv_exec {_ _}. Arguments drv_signal_process {_ _}. Arguments drv_wait_process {_ _}.
Arguments drv_pause {_ _}. Arguments drv_resume {_ _}. Arguments drv_processes {_ _}.
Arguments drv_update {_ _}. Arguments drv_stats {_ _}. Arguments drv_read_output {_ _}.
Arguments drv_write_stdin {_ _}. Arguments drv_close_stdin {_ _}. Arguments drv_resize {_ _}.
Arguments drv_file {_ _}. Arguments drv_filesystem {_ _}. Arguments drv_checkpoint {_ _}.
Arguments drv_validate_restore_artifact {_ _}. Arguments drv_prepare_restore_bundle {_ _}.
Arguments drv_restore {_ _}. Arguments drv_attest {_ _}.

(** The default methods of the trait: an operation that a driver does not
    implement. *)
Definition unsupported_operation {O A} (operation : string) : prog O Error A :=
  λ o, (Err (error_unsupported operation), o).

(** [CORE_DRIVER_OPERATIONS] *)
Definition CORE_DRIVER_OPERATIONS : list RuntimeOperation :=
  [OpCreate; OpState; OpStart; OpKill; OpDelete].
