(* ===== verification/DriverRegistry.v ===== *)
(** * The driver registry (crates/runtime/src/service/driver_registry.rs)

    The registry is built once, when the host service opens.  It rejects an
    inconsistent set of drivers, fixes what each driver may be asked to do and
    routes requests by isolation class and by recorded driver. *)

From stdpp Require Import base sets gmap strings list.
From S2P Require Import Prelude Collections Sdk Identifiers OutputBuffer Lifecycle Fault.
From S2P Require Import OciState Contracts Capabilities StoreModel Disk RestoreContract Journal.
From S2P Require Import HostArtifact Observe Driver.

Local Open Scope string_scope.
Local Open Scope Z_scope.

(** What the host service takes from outside the modelled code: the state of
    the outside world, the platform, the Linux support profile of the SDK, the
    manifest's schema and extensions, and the host's own executable and files. *)
Class HostEnv : Type := {
  env_files :: HostFiles;
  host_linux : Type;
  host_linux_eq_dec :: EqDecision host_linux;
  (** [HostPlatform::current()] and [std::env::consts::ARCH] *)
  host_platform : HostPlatform;
  host_architecture : string;
  (** [OciLinuxSupport::validate_spec], [validate_process], [validate_resources] *)
  linux_validate_spec : host_linux → OciBundle → string → Result ();
  linux_validate_process : host_linux → OciProcess → string → Result ();
  linux_validate_resources : host_linux → string → string → Result ();
  (** [CreateAttachments::schema_version] and [extensions] *)
  attachments_schema_version : CreateAttachments → string;
  attachments_extensions : CreateAttachments → list RuntimeExtensionAttachment;
  (** [NativeControlDescriptors::descriptor_plan] *)
  descriptor_plan : string → Result ();
  (** [artifact::current] *)
  artifact_current : prog host_outside Error RuntimeArtifact;
  (** The length of [serde_json::to_vec] of a filesystem response *)
  filesystem_response_len : FilesystemResponse → option Z;
  (** [char::is_control() || char::is_whitespace()] somewhere in a name *)
  name_has_control_or_space : string → bool
}.

Definition open_error (msg : string) : Error :=
  state_error FailedPrecondition "open-host-runtime" msg.

(** [driver_platform] *)
Definition driver_platform (d : DriverKind) : HostPlatform :=
  match d with
  | NativeLinux | LibkrunKvm => Linux
  | LibkrunHvf => Macos
  | LibkrunWhpx => Windows
  end.

(** [isolation_classes.iter().enumerate().any(|(i, c)| classes[..i].contains(c))] *)
Fixpoint has_duplicate `{EqDecision A} (seen l : list A) : bool :=
  match l with
  | [] => false
  | x :: l => bool_decide (x ∈ seen) || has_duplicate (seen ++ [x])%list l
  end.

Definition validate_capability (c : DriverCapability) : Result () :=
  check! reject_if (negb (can_launch c))
    (state_error match dc_status c with HostUnavailable => Unavailable | _ => Unsupported end
       "open-host-runtime"
       "driver {:?} is not launch-ready: status {:?}, readiness {:?}");
  check! reject_if (bool_decide (dc_isolation_classes c = []))
    (open_error "launch-ready driver {:?} advertises no isolation class");
  reject_if (has_duplicate [] (dc_isolation_classes c))
    (open_error "runtime driver {:?} advertises a duplicate isolation class").

Definition REQUIRED_OPERATIONS : list RuntimeOperation :=
  [OpCreate; OpState; OpStart; OpKill; OpDelete].
Definition HOST_SUPPORTED : list RuntimeOperation :=
  [OpCreate; OpState; OpStart; OpKill; OpDelete; OpWait; OpExec; OpSignalProcess; OpWaitProcess;
   OpPause; OpResume; OpProcesses; OpUpdate; OpStats; OpReadOutput; OpWriteStdin; OpCloseStdin;
   OpResize; OpFile; OpFilesystem; OpCheckpoint; OpRestore; OpAttest].

Definition validate_driver_operations (operations : list RuntimeOperation)
    : Result (list RuntimeOperation) :=
  let reported := btree_collect operations in
  check! reject_if (negb (Nat.eqb (length reported) (length operations)))
    (open_error "runtime driver advertises duplicate operations");
  check! reject_if (existsb (λ o, negb (bool_decide (o ∈ HOST_SUPPORTED))) operations)
    (open_error "runtime driver advertises unsupported host operation {operation:?}");
  check! reject_if (existsb (λ o, negb (bool_decide (o ∈ reported))) REQUIRED_OPERATIONS)
    (open_error "runtime driver does not advertise required operation {operation:?}");
  check! reject_if (bool_decide (OpRestore ∈ reported) && negb (bool_decide (OpCheckpoint ∈ reported)))
    (open_error "runtime driver cannot advertise restore without checkpoint");
  Ok reported.

Definition validate_driver_hooks (hooks : list OciHookPhase) : Result (list OciHookPhase) :=
  check! reject_if (has_duplicate [] hooks)
    (open_error "runtime driver advertises duplicate OCI hook phases");
  Ok (filter (λ p, p ∈ hooks) ALL_HOOK_PHASES).

Definition TEE_LAUNCH_EXTENSION_VERSION : Z := 1.

(** The TEE extensions loop of [DriverRegistry::new]: whether the driver
    supports one, each in exactly the version of the host. *)
Fixpoint tee_support (attachments : AttachmentCapabilities) (names : list string) : Result bool :=
  match names with
  | [] => Ok false
  | name :: names =>
      match extension_versions attachments name with
      | None => tee_support attachments names
      | Some versions =>
          check! reject_if (bool_decide (versions ≠ [TEE_LAUNCH_EXTENSION_VERSION]))
            (open_error "runtime driver {:?} advertises unsupported TEE launch extension versions {versions:?} for {name}");
          try! _rest := tee_support attachments names in
          Ok true
      end
  end.

Section registry.
Context `{HE : HostEnv}.

Abbreviation Driver := (RuntimeDriver host_outside host_linux).

Record DriverRegistration : Type := mkRegistration {
  dreg_driver : Driver;
  dreg_capability : DriverCapability
}.

Record RegisteredDriver : Type := mkRegistered {
  rd_driver : Driver;
  rd_capability : DriverCapability;
  rd_operations : list RuntimeOperation;
  rd_attachments : AttachmentCapabilities
}.

(** [RegisteredDriver::kind], [supports_operation] and [ensure_operation] *)
Definition rd_kind (d : RegisteredDriver) : DriverKind := dc_driver (rd_capability d).
Definition supports_operation (d : RegisteredDriver) (operation : RuntimeOperation) : bool :=
  bool_decide (operation ∈ rd_operations d).
Definition ensure_operation (d : RegisteredDriver) (operation : RuntimeOperation) (name : string)
    : Result () :=
  if supports_operation d operation then Ok () else Err (error_unsupported name).

Record DriverRegistry : Type := mkRegistry {
  reg_entries : list RegisteredDriver;
  reg_operations : list RuntimeOperation;
  reg_hooks : list OciHookPhase;
  reg_attachments : AttachmentCapabilities;
  reg_all_attachments : AttachmentCapabilities;
  reg_linux_support : host_linux
}.

(** The accumulator of the loop of [DriverRegistry::new]. *)
Record RegistryBuild : Type := mkBuild {
  rb_entries : list RegisteredDriver;
  rb_operations : option (list RuntimeOperation);
  rb_hooks : option (list OciHookPhase);
  rb_linux_support : option host_linux;
  rb_all_attachments : AttachmentCapabilities;
  rb_attachments : option AttachmentCapabilities
}.
Definition empty_build : RegistryBuild := mkBuild [] None None None base_v1 None.

(** A value that every driver must share: the first one is kept. *)
Definition agree {A} `{EqDecision A} (expected : option A) (value : A) (e : Error)
    : Result (option A) :=
  match expected with
  | Some v => check! reject_if (bool_decide (v ≠ value)) e; Ok expected
  | None => Ok (Some value)
  end.

(** One driver of the loop of [DriverRegistry::new]. *)
Definition register (b : RegistryBuild) (r : DriverRegistration) : Result RegistryBuild :=
  let driver := dreg_driver r in
  let capability := dreg_capability r in
  check! validate_capability capability;
  check! reject_if (existsb (λ e, bool_decide (rd_kind e = dc_driver capability)) (rb_entries b))
    (open_error "runtime driver {:?} is registered more than once");
  check! reject_if
    (existsb (λ isolation,
       existsb (λ e, bool_decide (isolation ∈ dc_isolation_classes (rd_capability e)))
         (rb_entries b)) (dc_isolation_classes capability))
    (open_error "isolation class {isolation:?} is claimed by both {owner:?} and {:?}");
  try! operations := validate_driver_operations (drv_operations driver) in
  check! reject_if
    (existsb (λ o, bool_decide (o ∈ [OpCheckpoint; OpRestore; OpAttest])) operations
     && bool_decide (driver_platform (dc_driver capability) ≠ host_platform))
    (open_error "runtime driver {:?} cannot advertise checkpoint, restore, or attestation on {:?}");
  let common_operations :=
    match rb_operations b with
    | Some retained => filter (λ o, o ∈ operations) retained
    | None => operations
    end in
  try! hooks := validate_driver_hooks (drv_hooks driver) in
  try! common_hooks := agree (rb_hooks b) hooks
    (open_error "runtime driver {:?} advertises a different OCI hook set") in
  try! linux_support := map_err
    (λ _, open_error "runtime driver {:?} returned an invalid Linux support profile: {error}")
    (drv_linux_support driver) in
  try! common_linux_support := agree (rb_linux_support b) linux_support
    (open_error "runtime driver {:?} advertises a different Linux support profile") in
  let attachments := drv_attachment_capabilities driver in
  check! map_err
    (λ _, open_error "runtime driver {:?} returned invalid attachment capabilities: {}")
    (capabilities_validate attachments);
  check! reject_if (negb (supports_schema attachments ATTACHMENT_SCHEMA_V1))
    (open_error "runtime driver {:?} does not support required attachment schema {ATTACHMENT_SCHEMA_V1}");
  try! supports_tee := tee_support attachments
    [AMD_SEV_SNP_LAUNCH_EXTENSION; INTEL_TDX_LAUNCH_EXTENSION] in
  check! reject_if (negb (Bool.eqb (bool_decide (OpAttest ∈ operations)) supports_tee))
    (open_error "runtime driver {:?} must advertise attestation together with at least one exact TEE launch extension");
  check! reject_if
    (supports_tee && negb (bool_decide (DedicatedVm ∈ dc_isolation_classes capability)))
    (open_error "runtime driver {:?} cannot advertise a TEE launch extension without dedicated-vm isolation");
  Ok (mkBuild
    (rb_entries b ++ [mkRegistered driver capability operations attachments])%list
    (Some common_operations) common_hooks common_linux_support
    (merged (rb_all_attachments b) attachments)
    (Some match rb_attachments b with
          | Some retained => common_with retained attachments
          | None => attachments
          end)).

Definition registry_new (registrations : list DriverRegistration) : Result DriverRegistry :=
  check! reject_if match registrations with [] => true | _ => false end
    (open_error "at least one launch-ready runtime driver is required");
  try! b := rfold register empty_build registrations in
  try! operations := ok_or (open_error "driver registry did not retain an operation set")
    (rb_operations b) in
  try! attachments := ok_or (open_error "driver registry did not retain attachment capabilities")
    (rb_attachments b) in
  try! hooks := ok_or (open_error "driver registry did not retain an OCI hook set") (rb_hooks b) in
  try! linux_support := ok_or (open_error "driver registry did not retain Linux support")
    (rb_linux_support b) in
  Ok (mkRegistry (sort_by_key rd_kind (rb_entries b)) operations hooks attachments
        (rb_all_attachments b) linux_support).

(** [DriverRegistry::select] and [get] *)
Definition select (g : DriverRegistry) (isolation : IsolationClass) (operation : string)
    : Result RegisteredDriver :=
  ok_or (state_error Unsupported operation
           "no launch-ready driver provides requested isolation {isolation:?}")
    (find (λ e, bool_decide (isolation ∈ dc_isolation_classes (rd_capability e))) (reg_entries g)).
Definition get (g : DriverRegistry) (kind : DriverKind) (operation : string)
    : Result RegisteredDriver :=
  ok_or (state_error Unavailable operation "recorded runtime driver {kind:?} is not registered")
    (find (λ e, bool_decide (rd_kind e = kind)) (reg_entries g)).

(** [AttachmentCapabilities::require] of a manifest *)
Definition require_attachments (c : AttachmentCapabilities) (a : CreateAttachments) : Result () :=
  capabilities_require c (attachments_schema_version a) (attachments_extensions a).

Definition validate_durable_record (g : DriverRegistry) (record : ContainerRecord)
    (attachments : option CreateAttachments) : Result RegisteredDriver :=
  try! registered := ok_or
    (state_error Unavailable "open-host-runtime"
       "durable container {} generation {} requires recorded runtime driver {:?}, but that driver is not registered")
    (find (λ e, bool_decide (rd_kind e = cr_driver record)) (reg_entries g)) in
  check! reject_if
    (negb (bool_decide (cr_isolation record ∈ dc_isolation_classes (rd_capability registered))))
    (open_error "durable container {} generation {} records runtime driver {:?} for isolation {:?}, but the registered driver no longer provides that isolation");
  check! match attachments with
         | Some attachments =>
             map_err (λ _, open_error "durable container {} generation {} requires an attachment contract that runtime driver {:?} no longer provides: {}")
               (require_attachments (rd_attachments registered) attachments)
         | None => Ok ()
         end;
  Ok registered.

(** [DriverRegistry::acknowledge_operation] *)
Definition registry_acknowledge (g : DriverRegistry) (operation_id : string)
    : prog host_outside Error () :=
  for_each (λ e, drv_acknowledge_operation (rd_driver e) operation_id) (reg_entries g).

Definition any_driver_supports (g : DriverRegistry) (operation : RuntimeOperation) : bool :=
  existsb (λ e, bool_decide (operation ∈ rd_operations e)) (reg_entries g).

(** [DriverRegistry::extensions] *)
Definition HOST_OPERATIONS : list RuntimeOperation := [OpFeatures; OpList; OpEvents].
Definition entry_capabilities (e : RegisteredDriver) : Result RuntimeDriverCapabilities :=
  driver_capabilities_new (rd_kind e) (dc_isolation_classes (rd_capability e))
    (operation_capability_v1 <$> btree_collect (HOST_OPERATIONS ++ rd_operations e)%list)
    (rd_attachments e).
Definition registry_extensions `{CE : ContractEnv} (g : DriverRegistry) (artifact : RuntimeArtifact)
    : Result RuntimeExtensions :=
  try! drivers := rmap entry_capabilities (reg_entries g) in
  extensions_new artifact drivers.
End registry.

(** * Correctness of the driver registry

    A registry that was accepted routes deterministically, and the catalog it
    publishes is valid and agrees with the routing: what a client negotiated
    from the catalog, the host service will dispatch. *)

Section registry_props.
Context `{HE : HostEnv}.

(** What one accepted entry satisfies. *)
Record entry_ok (e : RegisteredDriver) : Prop := {
  eo_classes : dc_isolation_classes (rd_capability e) ≠ [];
  eo_distinct : NoDup (dc_isolation_classes (rd_capability e));
  eo_operations : increasing (rd_operations e);
  eo_host : ∀ o, o ∈ rd_operations e → o ∈ HOST_SUPPORTED;
  eo_required : ∀ o, o ∈ REQUIRED_OPERATIONS → o ∈ rd_operations e;
  eo_attachments : capabilities_validate (rd_attachments e) = Ok ();
  eo_driver : rd_attachments e = drv_attachment_capabilities (rd_driver e)
}.

(** What the entries of a registry satisfy: each is accepted, no driver is
    registered twice and no isolation class has two owners. *)
Record entries_ok (es : list RegisteredDriver) : Prop := {
  es_each : ∀ e, e ∈ es → entry_ok e;
  es_kinds : NoDup (rd_kind <$> es);
  es_owner : ∀ e e' i, e ∈ es → e' ∈ es → i ∈ dc_isolation_classes (rd_capability e) →
    i ∈ dc_isolation_classes (rd_capability e') → e = e'
}.

Lemma has_duplicate_false `{EqDecision A} (seen l : list A) :
  has_duplicate seen l = false → NoDup l ∧ ∀ x, x ∈ l → x ∉ seen.
Proof.
  revert seen. induction l as [|x l IH]; intros seen; simpl; [split; [constructor|set_solver]|].
  intros [Hx%bool_decide_eq_false Hl]%orb_false_iff. apply IH in Hl as [Hnd Hsep].
  split; [|set_solver]. constructor; [|done]. intros Hin. apply (Hsep x Hin). set_solver.
Qed.

Lemma validate_driver_operations_ok operations reported :
  validate_driver_operations operations = Ok reported →
  reported = btree_collect operations ∧ increasing reported ∧
  (∀ o, o ∈ reported → o ∈ HOST_SUPPORTED) ∧ (∀ o, o ∈ REQUIRED_OPERATIONS → o ∈ reported).
Proof.
  unfold validate_driver_operations. intros H. inv_ok.
  repeat match goal with H : existsb (λ o, negb _) _ = false |- _ =>
    rewrite existsb_negb_false in H end.
  split; [done|]. split; [apply btree_collect_increasing|]. split.
  - intros o Ho. rewrite elem_of_btree_collect in Ho.
    match goal with H : ∀ e : RuntimeOperation, e ∈ operations → _ |- _ => apply H in Ho end.
    by rewrite bool_decide_eq_true in Ho.
  - intros o Ho.
    match goal with H : ∀ e : RuntimeOperation, e ∈ REQUIRED_OPERATIONS → _ |- _ => apply H in Ho end.
    by rewrite bool_decide_eq_true in Ho.
Qed.

Lemma register_ok b r b' :
  entries_ok (rb_entries b) → register b r = Ok b' → entries_ok (rb_entries b').
Proof.
  intros [Heach Hkinds Howner] H. unfold register in H. inv_ok. simpl.
  match goal with H : validate_capability _ = Ok _ |- _ => unfold validate_capability in H; inv_ok end.
  match goal with H : validate_driver_operations _ = Ok _ |- _ =>
    apply validate_driver_operations_ok in H as (_ & Hinc & Hhost & Hreq) end.
  match goal with H : has_duplicate _ _ = false |- _ => apply has_duplicate_false in H as [Hnd _] end.
  match goal with H : capabilities_validate _ = Ok ?u |- _ => destruct u end.
  match goal with H : bool_decide (dc_isolation_classes _ = []) = false |- _ =>
    apply bool_decide_eq_false in H end.
  match goal with H : existsb (λ e, bool_decide (rd_kind e = _)) _ = false |- _ => rename H into Hk end.
  match goal with H : existsb (λ i, existsb _ _) _ = false |- _ => rename H into Hi end.
  assert (∀ e i, e ∈ rb_entries b → i ∈ dc_isolation_classes (dreg_capability r) →
    i ∉ dc_isolation_classes (rd_capability e)) as Hsep.
  { intros e i He Hin Hin'. apply not_true_iff_false in Hi. apply Hi.
    apply existsb_exists. exists i. split; [by apply list_elem_of_In|].
    apply existsb_exists. exists e. split; [by apply list_elem_of_In|by apply bool_decide_eq_true]. }
  split.
  - intros e [He| ->%list_elem_of_singleton]%elem_of_app; [by apply Heach|by split].
  - rewrite fmap_app. apply NoDup_app. split_and!; [done| |apply NoDup_singleton].
    intros k (e & -> & He)%list_elem_of_fmap Hk'%list_elem_of_singleton.
    apply not_true_iff_false in Hk. apply Hk, existsb_exists. exists e.
    split; [by apply list_elem_of_In|by apply bool_decide_eq_true].
  - intros e e' i [He| ->%list_elem_of_singleton]%elem_of_app
      [He'| ->%list_elem_of_singleton]%elem_of_app Hi1 Hi2; simpl in *.
    + by eapply Howner.
    + by destruct (Hsep e i He Hi2).
    + by destruct (Hsep e' i He' Hi1).
    + done.
Qed.

Lemma rfold_register_ok registrations b b' :
  entries_ok (rb_entries b) → rfold register b registrations = Ok b' → entries_ok (rb_entries b').
Proof.
  revert b. induction registrations as [|r rs IH]; intros b Hb; simpl; [by intros [= <-]|].
  intros H. inv_ok. eapply IH; [|done]. by eapply register_ok.
Qed.

Lemma entries_ok_perm es es' : es ≡ₚ es' → entries_ok es → entries_ok es'.
Proof.
  intros Hp [Heach Hkinds Howner]. split.
  - intros e He. apply Heach. by rewrite Hp.
  - by rewrite <- Hp.
  - intros e e' i He He'. apply Howner; by rewrite Hp.
Qed.

(** An accepted registry. *)
Lemma registry_new_ok registrations g :
  registry_new registrations = Ok g →
  entries_ok (reg_entries g) ∧ key_increasing rd_kind (reg_entries g).
Proof.
  unfold registry_new. intros H. inv_ok. simpl.
  match goal with H : rfold register _ _ = Ok ?b |- _ =>
    assert (entries_ok (rb_entries b)) as Hb
      by (eapply rfold_register_ok; [|exact H]; split; [set_solver|constructor|set_solver]) end.
  split; [eapply entries_ok_perm; [symmetry; apply sort_by_key_Permutation|done]|].
  apply sort_by_key_increasing, Hb.
Qed.

(** The drivers of a registry are the registered ones. *)
Lemma register_drivers b r b' :
  register b r = Ok b' →
  rd_driver <$> rb_entries b' = ((rd_driver <$> rb_entries b) ++ [dreg_driver r])%list.
Proof. unfold register. intros H. inv_ok. simpl. by rewrite fmap_app. Qed.
Lemma rfold_register_drivers registrations b b' :
  rfold register b registrations = Ok b' →
  rd_driver <$> rb_entries b' = ((rd_driver <$> rb_entries b) ++ (dreg_driver <$> registrations))%list.
Proof.
  revert b. induction registrations as [|r rs IH]; intros b; simpl;
    [intros [= <-]; by rewrite app_nil_r|]. intros H. inv_ok.
  erewrite IH by done. erewrite register_drivers by done. by rewrite <- app_assoc.
Qed.
Lemma registry_new_drivers registrations g :
  registry_new registrations = Ok g →
  rd_driver <$> reg_entries g ≡ₚ dreg_driver <$> registrations.
Proof.
  unfold registry_new. intros H. inv_ok. simpl.
  match goal with H : rfold register _ _ = Ok _ |- _ => apply rfold_register_drivers in H; simpl in H; rewrite <- H end.
  apply fmap_Permutation, sort_by_key_Permutation.
Qed.

(** ** The published catalog *)

(** Validation of an entry's capabilities from what the registry checked. *)
Lemma isolation_nodup l : NoDup l → NoDup (isolation_key <$> l).
Proof. intros H. apply NoDup_fmap_2_strong; [|done]. intros a b _ _. apply isolation_key_inj. Qed.

Lemma v1_operations (l : list RuntimeOperation) :
  validate_operations (operation_capability_v1 <$> l) = Ok ().
Proof. induction l as [|o l IH]; [done|]. csimpl. by rewrite IH. Qed.

Lemma roc_v1 (l : list RuntimeOperation) : roc_operation <$> (operation_capability_v1 <$> l) = l.
Proof. induction l; csimpl; congruence. Qed.

Lemma sort_by_key_nil `{Ord K} {A} (key : A → K) l : sort_by_key key l = [] → l = [].
Proof.
  intros Hs. pose proof (sort_by_key_Permutation key l) as Hp. rewrite Hs in Hp.
  by apply Permutation_nil_l in Hp.
Qed.

Lemma validate_operations_perm l l' :
  l ≡ₚ l' → validate_operations l = Ok () → validate_operations l' = Ok ().
Proof.
  assert (∀ l, validate_operations l = Ok () ↔ ∀ c, c ∈ l → operation_capability_validate c = Ok ())
    as Hall.
  { clear. induction l as [|c l IH]; simpl; [set_solver|].
    destruct (operation_capability_validate c) as [[]|e] eqn:E; simpl.
    - rewrite IH. set_solver.
    - split; [done|]. intros H. rewrite H in E by set_solver. done. }
  rewrite !Hall. intros Hp H c Hc. apply H. by rewrite Hp.
Qed.

(** The operations that the catalog lists for an entry. *)
Definition listed_operations (e : RegisteredDriver) : list RuntimeOperation :=
  btree_collect (HOST_OPERATIONS ++ rd_operations e)%list.

Lemma entry_capabilities_total e :
  entry_ok e →
  ∃ d, entry_capabilities e = Ok d ∧ rdc_driver d = rd_kind e ∧
    (∀ i, i ∈ rdc_isolation_classes d ↔ i ∈ dc_isolation_classes (rd_capability e)) ∧
    rdc_attachments d = rd_attachments e ∧ NoDup (rdc_isolation_classes d) ∧
    driver_capabilities_validate d = Ok () ∧
    (∀ o v, advertises d o v ↔ v = 1 ∧ (o ∈ HOST_OPERATIONS ∨ o ∈ rd_operations e)).
Proof.
  intros [Hne Hnd Hinc Hhost Hreq Hatt _].
  assert (NoDup (roc_operation <$> (operation_capability_v1 <$> listed_operations e))) as Hops.
  { rewrite roc_v1. apply increasing_NoDup, btree_collect_increasing. }
  unfold entry_capabilities, driver_capabilities_new. cbv zeta. fold (listed_operations e).
  match goal with |- context [driver_capabilities_validate ?c] => set (d := c) end.
  assert (driver_capabilities_validate d = Ok ()) as Hv.
  { unfold driver_capabilities_validate, d. cbn [rdc_isolation_classes rdc_operations rdc_attachments].
    rewrite bool_decide_eq_false_2 by (by intros ?%sort_by_key_nil).
    rewrite (proj2 (strictly_increasing_by_spec _ _))
      by (by apply sort_by_key_increasing, isolation_nodup). simpl.
    destruct (sort_by_key roc_operation _) as [|c cs] eqn:Hs.
    { exfalso. apply sort_by_key_nil, fmap_nil_inv in Hs.
      assert (OpFeatures ∈ listed_operations e) as Hin; [|rewrite Hs in Hin; set_solver].
      apply elem_of_btree_collect. set_solver. }
    rewrite <- Hs, (proj2 (strictly_increasing_by_spec _ _)) by (by apply sort_by_key_increasing).
    simpl. rewrite (validate_operations_perm _ _ (symmetry (sort_by_key_Permutation roc_operation _)))
      by apply v1_operations. simpl. by rewrite Hatt. }
  rewrite Hv. simpl. exists d. split_and!; try done.
  - intros i. unfold d. cbn [rdc_isolation_classes]. by rewrite sort_by_key_Permutation.
  - unfold d. cbn [rdc_isolation_classes]. by rewrite sort_by_key_Permutation.
  - intros o v. unfold advertises, d. cbn [rdc_operations]. split.
    + intros (c & Hc & <- & Hv'). rewrite sort_by_key_Permutation in Hc.
      apply list_elem_of_fmap in Hc as (o' & -> & Ho'). simpl in *.
      apply list_elem_of_singleton in Hv'. split; [done|].
      unfold listed_operations in Ho'. rewrite elem_of_btree_collect, elem_of_app in Ho'. done.
    + intros [-> Ho]. exists (operation_capability_v1 o). rewrite sort_by_key_Permutation.
      split_and!; [|done|simpl; set_solver]. apply list_elem_of_fmap. exists o. split; [done|].
      unfold listed_operations. by rewrite elem_of_btree_collect, elem_of_app.
Qed.

Lemma claim_isolation_total owners classes :
  NoDup classes → (∀ i, i ∈ classes → i ∉ owners) →
  ∃ owners', rfold claim_isolation owners classes = Ok owners' ∧
    ∀ i, i ∈ owners' ↔ i ∈ owners ∨ i ∈ classes.
Proof.
  revert owners. induction classes as [|i classes IH]; intros owners Hnd Hsep; simpl.
  { exists owners. split; [done|set_solver]. }
  apply NoDup_cons in Hnd as [Hi Hnd]. unfold claim_isolation at 1.
  rewrite bool_decide_eq_false_2 by set_solver. simpl.
  destruct (IH (i :: owners)) as (owners' & -> & He); [done|set_solver|].
  exists owners'. split; [done|]. intros j. rewrite He. set_solver.
Qed.

Lemma validate_drivers_total seen owners drivers :
  (∀ d, d ∈ drivers → driver_capabilities_validate d = Ok () ∧ NoDup (rdc_isolation_classes d) ∧
     (rdc_driver d ∉ seen) ∧ (∀ i, i ∈ rdc_isolation_classes d → i ∉ owners)) →
  NoDup (rdc_driver <$> drivers) →
  (∀ d d' i, d ∈ drivers → d' ∈ drivers → i ∈ rdc_isolation_classes d →
     i ∈ rdc_isolation_classes d' → rdc_driver d = rdc_driver d') →
  validate_drivers seen owners drivers = Ok ().
Proof.
  revert seen owners. induction drivers as [|d drivers IH]; intros seen owners Hall Hnd Hu; [done|].
  simpl. destruct (Hall d) as (-> & Hcl & Hs & Ho); [set_solver|]. simpl.
  rewrite bool_decide_eq_false_2 by done. simpl.
  destruct (claim_isolation_total owners (rdc_isolation_classes d)) as (owners' & -> & He); [done..|].
  simpl. csimpl in Hnd. apply NoDup_cons in Hnd as [Hd Hnd]. apply IH; [|done|].
  - intros d' Hd'. destruct (Hall d') as (? & ? & ? & Ho'); [set_solver|].
    assert (rdc_driver d' ≠ rdc_driver d) as Hne.
    { intros E. apply Hd. rewrite <- E. by apply list_elem_of_fmap_2. }
    split_and!; [done|done|set_solver|]. intros i Hi. rewrite He.
    intros [Hin|Hin]; [by eapply Ho'|]. apply Hne. symmetry. eapply (Hu d d' i); set_solver.
  - intros d1 d2 i H1 H2. apply Hu; set_solver.
Qed.

(** At most four drivers exist. *)
Lemma kinds_bound (l : list DriverKind) : NoDup l → (length l ≤ 4)%nat.
Proof.
  intros H. apply (submseteq_length l [NativeLinux; LibkrunKvm; LibkrunHvf; LibkrunWhpx]).
  apply NoDup_submseteq; [done|]. intros k _. destruct k; set_solver.
Qed.

(** The catalog entries of the registered drivers, in registry order. *)
Lemma entries_capabilities_total es :
  entries_ok es →
  ∃ ds, rmap entry_capabilities es = Ok ds ∧ (rdc_driver <$> ds) = (rd_kind <$> es) ∧
    ∀ d, d ∈ ds → ∃ e, e ∈ es ∧ entry_capabilities e = Ok d.
Proof.
  intros [Heach _ _]. induction es as [|e es IH]; [by exists []; set_solver|].
  destruct (entry_capabilities_total e) as (d & Hd & Hk & _); [apply Heach; set_solver|].
  destruct IH as (ds & Hds & Hks & Hall); [intros e' He'; apply Heach; set_solver|].
  exists (d :: ds). split; [simpl; rewrite Hd; simpl; by rewrite Hds|].
  split; [by rewrite !fmap_cons, Hk, Hks|]. intros d' [->|Hd']%elem_of_cons; [set_solver|].
  destruct (Hall d' Hd') as (e' & ? & ?). exists e'. set_solver.
Qed.

(** Facts about a catalog entry, from the driver it describes. *)
Lemma entry_capabilities_facts e d :
  entry_ok e → entry_capabilities e = Ok d →
  rdc_driver d = rd_kind e ∧
  (∀ i, i ∈ rdc_isolation_classes d ↔ i ∈ dc_isolation_classes (rd_capability e)) ∧
  rdc_attachments d = rd_attachments e ∧ NoDup (rdc_isolation_classes d) ∧
  driver_capabilities_validate d = Ok () ∧
  (∀ o v, advertises d o v ↔ v = 1 ∧ (o ∈ HOST_OPERATIONS ∨ o ∈ rd_operations e)).
Proof.
  intros He Hd. destruct (entry_capabilities_total e He) as (d' & Hd' & ?).
  rewrite Hd in Hd'. by injection Hd' as <-.
Qed.

Lemma select_spec g isolation name e :
  entries_ok (reg_entries g) →
  select g isolation name = Ok e ↔
  e ∈ reg_entries g ∧ isolation ∈ dc_isolation_classes (rd_capability e).
Proof.
  intros Hes. unfold select. rewrite ok_or_ok. split.
  - by intros [? ?%bool_decide_eq_true]%find_spec.
  - intros [He Hi]. destruct (find _ (reg_entries g)) as [e'|] eqn:Hf.
    + apply find_spec in Hf as [He' Hi'%bool_decide_eq_true]. f_equal. by eapply (es_owner _ Hes).
    + eapply find_none in Hf; [|by apply list_elem_of_In]. simpl in Hf.
      by rewrite bool_decide_eq_true_2 in Hf.
Qed.

Context `{CE : ContractEnv}.

(** The catalog of an accepted registry. *)
Lemma registry_extensions_total g artifact :
  entries_ok (reg_entries g) → runtime_artifact_validate artifact = Ok () →
  ∃ x, registry_extensions g artifact = Ok x ∧ extensions_validate x = Ok () ∧
    rx_schema_version x = RUNTIME_EXTENSIONS_SCHEMA_V1 ∧ rx_artifact x = Some artifact ∧
    (∀ d, d ∈ rx_drivers x ↔ ∃ e, e ∈ reg_entries g ∧ entry_capabilities e = Ok d).
Proof.
  intros Hes Ha. destruct (entries_capabilities_total _ Hes) as (ds & Hds & Hks & Hall).
  unfold registry_extensions. rewrite Hds. simpl. unfold extensions_new. rewrite Ha. simpl.
  assert (NoDup (rdc_driver <$> ds)) as Hnd by (rewrite Hks; apply Hes).
  match goal with |- context [extensions_validate ?c] => set (x := c) end.
  assert (∀ d, d ∈ rx_drivers x ↔ d ∈ ds) as Hin
    by (intros d; unfold x; cbn [rx_drivers]; by rewrite sort_by_key_Permutation).
  assert (extensions_validate x = Ok ()) as Hv; [|rewrite Hv; simpl; exists x; split_and!; try done].
  - unfold extensions_validate, x. cbn [rx_schema_version rx_artifact rx_drivers]. simpl.
    rewrite Ha. simpl. pose proof (kinds_bound _ Hnd) as Hlen. rewrite length_fmap in Hlen.
    rewrite (proj2 (Nat.ltb_ge _ _)); cycle 1.
    { rewrite sort_by_key_Permutation. unfold MAX_DRIVER_CAPABILITIES. lia. }
    rewrite (proj2 (strictly_increasing_by_spec _ _)) by (by apply sort_by_key_increasing). simpl.
    apply validate_drivers_total.
    + intros d (e & He & Hd)%Hin%Hall. apply entry_capabilities_facts in Hd as (_ & _ & _ & ? & ? & _);
        [|by apply Hes]. split_and!; [done|done|set_solver|set_solver].
    + by rewrite sort_by_key_Permutation.
    + intros d d' i (e & He & Hd)%Hin%Hall (e' & He' & Hd')%Hin%Hall Hi Hi'.
      apply entry_capabilities_facts in Hd as (-> & Hc & _); [|by apply Hes].
      apply entry_capabilities_facts in Hd' as (-> & Hc' & _); [|by apply Hes].
      rewrite Hc in Hi. rewrite Hc' in Hi'. by rewrite (es_owner _ Hes e e' i).
  - intros d. rewrite Hin. split; [apply Hall|]. intros (e & He & Hd).
    apply rmap_ok in Hds. apply list_elem_of_lookup in He as [i Hi].
    destruct (Forall2_lookup_l _ _ _ _ _ Hds Hi) as (d' & Hd' & Hc).
    rewrite Hd in Hc. injection Hc as <-. by eapply list_elem_of_lookup_2.
Qed.

(** C30: the published catalog.  A registry that was accepted publishes a catalog,
    for any valid artifact, and the catalog agrees with the routing: a driver
    negotiated for an isolation class is the one that the host selects for the
    class, and every negotiated operation is one that the host serves itself or
    dispatches to that driver; conversely the host's choice can be negotiated
    for each operation it dispatches. *)
Theorem registry_catalog_agrees registrations g artifact :
  registry_new registrations = Ok g → runtime_artifact_validate artifact = Ok () →
  (∀ e, e ∈ reg_entries g → map_increasing (ac_extensions (rd_attachments e))) →
  ∃ x, registry_extensions g artifact = Ok x ∧
    (∀ r d name, negotiate x r = Ok d →
       ∃ e, select g (nr_isolation r) name = Ok e ∧ rd_kind e = rdc_driver d ∧
         ∀ o v, (o, v) ∈ nr_operations r →
           v = RUNTIME_OPERATION_CONTRACT_V1 ∧ (o ∈ HOST_OPERATIONS ∨ supports_operation e o = true)) ∧
    (∀ isolation e name o, select g isolation name = Ok e → supports_operation e o = true →
       ∃ d, negotiate x (mkNegotiation isolation [(o, RUNTIME_OPERATION_CONTRACT_V1)] None []) = Ok d ∧
         rdc_driver d = rd_kind e).
Proof.
  intros Hnew Ha Hmaps. apply registry_new_ok in Hnew as [Hes _].
  destruct (registry_extensions_total g artifact Hes Ha) as (x & Hx & Hv & Hs & Hart & Hin).
  assert (well_formed x) as Hwf.
  { intros d (e & He & Hd)%Hin. apply entry_capabilities_facts in Hd as (_ & _ & -> & _);
      [by apply Hmaps|by apply Hes]. }
  exists x. split; [done|]. split.
  - intros r d name Hn. apply negotiate_spec in Hn as (_ & _ & _ & _ & Hd & Hi & Hops & _); [|done].
    apply Hin in Hd as (e & He & Hd). apply entry_capabilities_facts in Hd
      as (Hk & Hc & _ & _ & _ & Hadv); [|by apply Hes].
    exists e. split_and!; [apply select_spec; [done|]; split; [done|by apply Hc]|done|].
    intros o v Hov. apply Hops, Hadv in Hov as [-> Ho]. split; [done|].
    unfold supports_operation. rewrite bool_decide_eq_true. done.
  - intros isolation e name o He Ho. apply select_spec in He as [He Hi]; [|done].
    destruct (entry_capabilities_total e) as (d & Hd & Hk & Hc & _ & _ & _ & Hadv); [by apply Hes|].
    exists d. split; [|done]. apply negotiate_spec; [done|]. cbn [nr_isolation nr_operations
      nr_attachment_schema nr_attachment_extensions].
    split_and!; [done|done|done|congruence|apply Hin; by exists e|by apply Hc| |done|set_solver].
    intros o' v [= -> ->]%list_elem_of_singleton. apply Hadv. split; [done|].
    right. unfold supports_operation in Ho. by rewrite bool_decide_eq_true in Ho.
Qed.
End registry_props.
