(* ===== verification/AgentDriver.v ===== *)
(** * The agent driver (crates/runtime/src/agent_driver.rs)

    [AgentDriverClient] stands between the host's driver interface and a guest
    service: it translates requests, checks and translates answers, cuts
    standard input into chunks that each have an operation ID of their own,
    and remembers those IDs until the host acknowledges the operation.

    A call holds the acknowledgement gate of its operation where the code
    acquires it; the gates are those of [OperationGates], so calls on behalf of
    one operation run one after the other, as they do here.  The messages name
    the source of the service, [self.source], as a placeholder. *)

From stdpp Require Import base gmap strings list.
From S2P Require Import Prelude Collections Sdk Identifiers OutputBuffer Wire AgentModel AgentRecovery.
From S2P Require Import AgentSession GuestJournal GuestExecutor GuestService GuestServiceProps.
From S2P Require Import Lifecycle OciState Contracts Capabilities StoreModel Observe Driver.
From Stdlib Require Import Ascii ZArith Lia.
Local Open Scope string_scope.
Local Open Scope list_scope.
Local Open Scope Z_scope.

Definition AGENT_DRIVER_OPERATIONS : list RuntimeOperation :=
  [OpCreate; OpState; OpStart; OpKill; OpDelete; OpWait; OpExec; OpSignalProcess; OpWaitProcess;
   OpPause; OpResume; OpProcesses; OpUpdate; OpStats; OpReadOutput; OpWriteStdin; OpCloseStdin;
   OpResize; OpFile; OpFilesystem].
Definition AGENT_DRIVER_HOOKS : list OciHookPhase := ALL_HOOK_PHASES.

(** ** Bytes *)

(** [u64::to_be_bytes] *)
Definition u64_to_be_bytes (n : Z) : bytes :=
  to_be_bytes (n / 2 ^ 32) ++ to_be_bytes n.

(** [usize::div_ceil] and [slice::chunks] *)
Definition div_ceil (n d : nat) : nat :=
  if (0 <? n mod d)%nat then S (n / d) else (n / d)%nat.
Fixpoint chunks_from {A} (fuel n : nat) (l : list A) : list (list A) :=
  match fuel, l with
  | S fuel, _ :: _ => take n l :: chunks_from fuel n (drop n l)
  | _, _ => []
  end.
Definition chunks {A} (n : nat) (l : list A) : list (list A) := chunks_from (length l) n l.

(** [iter.collect::<Result<Vec<_>>>()] *)
Fixpoint collect_results {E A} (l : list (result E A)) : result E (list A) :=
  match l with
  | [] => Ok []
  | r :: l => try! a := r in try! l := collect_results l in Ok (a :: l)
  end.

(** ** The client *)

(** [AgentDriverClient]: the derived IDs it retains, and the state of the
    service it calls. *)
Record AgentDriverClient (S : Type) : Type := mkAgentClient {
  ac_guest_operation_ids : gmap string (list string);
  ac_service : S
}.
Arguments mkAgentClient {_}.
Arguments ac_guest_operation_ids {_}.
Arguments ac_service {_}.

(** [AgentDriverClient::new] *)
Definition agent_client_new {S} (service : S) : AgentDriverClient S := mkAgentClient ∅ service.

Section client.
Context {S : Type} `{!GuestAgentService S} `{!Sha256, !AgentEnv}.
Variable mapping_scope : string.
Abbreviation C := (prog (AgentDriverClient S) Error).

Definition service_call {A} (m : prog S Error A) : C A := λ c,
  let '(r, s) := m (ac_service c) in (r, mkAgentClient (ac_guest_operation_ids c) s).

Definition mapping_error (code : ErrorCode) (subject message : string) : Error :=
  for_operation (error_new code message) ("map-" +:+ mapping_scope +:+ "-" +:+ subject).

(** *** Answers *)

Definition required_pid (state : AgentState) : Result Z :=
  ok_or (mapping_error Internal "state" "{} returned {} without an init PID") (as_pid state).

Definition map_state (expected_target : ContainerTarget) (expected_digest : option string)
    (state : AgentState) : Result DriverState :=
  check! reject_if (bool_decide (as_target state ≠ expected_target))
    (mapping_error Conflict "state" "{} returned a different container generation");
  check! reject_if (from_option (λ digest, bool_decide (as_config_digest state ≠ digest)) false
                      expected_digest)
    (mapping_error Conflict "state" "{} returned a different configuration digest");
  try! mapped :=
    match as_status state with
    | Created => try! pid := required_pid state in driver_state_created pid
    | Running => try! pid := required_pid state in driver_state_running pid
    | Stopped => Ok driver_state_stopped
    | _ => Err (mapping_error Internal "state" "{} returned invalid lifecycle state {status}")
    end in
  driver_state_with_paused mapped (as_paused state).

(** *** Acknowledgement *)

Definition guest_ids (c : AgentDriverClient S) (operation_id : string) : list string :=
  default [operation_id] (ac_guest_operation_ids c !! operation_id).

Definition agent_acknowledge_operation (operation_id : string) : C () := λ c,
  let guest_operation_ids := guest_ids c operation_id in
  match service_call (svc_acknowledge_operations guest_operation_ids) c with
  | (Err e, c) => (Err e, c)
  | (Ok _, c) =>
      (Ok (), if bool_decide (ac_guest_operation_ids c !! operation_id = Some guest_operation_ids)
              then mkAgentClient (delete operation_id (ac_guest_operation_ids c)) (ac_service c)
              else c)
  end.

Definition retain_guest_operation_ids (operation_id : string) (ids : list string) : C () := λ c,
  match ac_guest_operation_ids c !! operation_id with
  | Some existing =>
      if bool_decide (existing = ids) then (Ok (), c)
      else (Err (mapping_error Conflict "operation-acknowledgement"
              "Host operation {operation_id} changed its derived guest operation identities"), c)
  | None => (Ok (), mkAgentClient (<[operation_id := ids]> (ac_guest_operation_ids c)) (ac_service c))
  end.

(** *** Containers *)

(** [AgentBundle::new] *)
Definition agent_bundle_new (bundle : OciBundle) (guest_directory : GuestPath) : AgentBundle :=
  mkAgentBundle guest_directory (bundle_config_digest bundle) (bundle_config bundle).

Definition agent_create (r : DriverCreateRequest) (guest_directory : GuestPath) : C DriverState :=
  do! lift (reject_if (negb (create_attachments_is_empty (dcr_attachments r)))
    (state_error Unsupported "agent-driver-create"
       "{} cannot receive native inherited descriptors"));
  let! state := service_call (svc_create
    (mkAgentCreate (dcr_context r) (dcr_target r) (agent_bundle_new (dcr_bundle r) guest_directory)
       (dcr_io r))) in
  lift (map_state (dcr_target r) (Some (bundle_config_digest (dcr_bundle r))) state).
Definition state_with_digest (target : ContainerTarget) (expected_digest : option string)
    : C DriverState :=
  let! state := service_call (svc_state (mkAgentStateReq target)) in
  lift (map_state target expected_digest state).
Definition agent_state (target : ContainerTarget) : C DriverState := state_with_digest target None.
Definition agent_start (r : DriverStartRequest) : C DriverState :=
  let expected_digest := bundle_config_digest (dsr_bundle r) in
  let! state := service_call (svc_start
    (mkAgentStart (dsr_context r) (dsr_target r) expected_digest)) in
  lift (map_state (dsr_target r) (Some expected_digest) state).
Definition agent_kill (r : DriverKillRequest) : C DriverState :=
  let! state := service_call (svc_kill
    (mkAgentKill (dkr_context r) (dkr_target r) (dkr_signal r) (dkr_all r))) in
  lift (map_state (dkr_target r) None state).
Definition agent_delete (r : DriverDeleteRequest) : C () :=
  service_call (svc_delete (mkAgentDelete (ddr_context r) (ddr_target r) (ddr_mode r))).
Definition agent_wait (r : DriverWaitRequest) : C ExitStatus :=
  service_call (svc_wait (mkAgentWait (dwr_target r) (dwr_timeout_ms r))).
Definition agent_pause (r : DriverContainerOperationRequest) : C DriverState :=
  let! state := service_call (svc_pause (mkAgentContainerOp (dcor_context r) (dcor_target r))) in
  lift (map_state (dcor_target r) None state).
Definition agent_resume (r : DriverContainerOperationRequest) : C DriverState :=
  let! state := service_call (svc_resume (mkAgentContainerOp (dcor_context r) (dcor_target r))) in
  lift (map_state (dcor_target r) None state).
Definition agent_processes (target : ContainerTarget) : C (list ProcessRecord) :=
  service_call (svc_processes (mkAgentProcesses target)).
Definition agent_update (r : DriverUpdateRequest) : C DriverState :=
  let! state := service_call (svc_update
    (mkAgentUpdate (dur_context r) (dur_target r) (dur_resources r))) in
  lift (map_state (dur_target r) None state).
Definition agent_stats (target : ContainerTarget) : C ContainerStats :=
  let! stats := service_call (svc_stats (mkAgentStats target)) in
  do! lift (reject_if (bool_decide (stats_target stats ≠ target))
    (mapping_error Conflict "stats" "{} returned stats for a different container generation"));
  do! lift (container_stats_validate has_control_or_space stats);
  ret stats.

(** *** Processes *)

Definition agent_exec (r : DriverExecRequest) : C DriverProcess :=
  let expected_terminal := default false (proc_terminal (der_process r)) in
  let! process := service_call (svc_exec
    (mkAgentExec (der_context r) (der_target r) (der_process r) (der_io r))) in
  do! lift (reject_if (bool_decide (ap_target process ≠ der_target r))
    (mapping_error Conflict "process" "{} returned a different process target"));
  do! lift (reject_if (negb (Bool.eqb (ap_terminal process) expected_terminal))
    (mapping_error Conflict "process" "{} returned a different process terminal mode"));
  lift (driver_process_new (ap_pid process) (ap_terminal process)).
Definition agent_signal_process (r : DriverSignalProcessRequest) : C () :=
  service_call (svc_signal_process (mkAgentSignal (dspr_context r) (dspr_target r) (dspr_signal r))).
Definition agent_wait_process (r : DriverWaitProcessRequest) : C ExitStatus :=
  service_call (svc_wait_process (mkAgentWaitProcess (dwpr_target r) (dwpr_timeout_ms r))).
Definition agent_read_output (r : DriverReadOutputRequest) : C (list OutputChunk) :=
  service_call (svc_read_output
    (mkAgentReadOutput (dror_target r) (dror_after_sequence r)
       (Z.min (dror_max_bytes r) AGENT_MAX_IO_PAYLOAD_BYTES) (dror_wait_timeout_ms r))).

(** What is hashed for the ID of a chunk, and [process_io_chunk_context]. *)
Definition chunk_id_input (operation_id : string) (index : nat) : bytes :=
  string_bytes "a3s-oci-stdin-chunk-v1" ++ [0] ++ string_bytes operation_id ++ [0] ++
  u64_to_be_bytes (Z.of_nat index).
Definition chunk_operation_id (operation_id : string) (index : nat) : string :=
  "io." +:+ hex_text (sha256 (chunk_id_input operation_id index)).
Definition process_io_chunk_context (parent : OperationContext) (index : nat)
    : Result OperationContext :=
  check! reject_if (u64_max <? Z.of_nat index)
    (state_error ResourceExhausted "derive-stdin-chunk-operation"
       "stdin chunk index does not fit the guest journal: {error}");
  try! operation_id := validate_identifier (chunk_operation_id (oc_operation_id parent) index) in
  Ok (mkOperationContext operation_id (oc_deadline_unix_ms parent)).

(** The size of a chunk is [AGENT_MAX_IO_PAYLOAD_BYTES]. *)
Definition chunk_bytes : nat := Z.to_nat AGENT_MAX_IO_PAYLOAD_BYTES.
Definition chunk_contexts (context : OperationContext) (chunk_count : nat)
    : Result (list OperationContext) :=
  collect_results ((λ index, if bool_decide (chunk_count = 1%nat) then Ok context
                             else process_io_chunk_context context index) <$> seq 0 chunk_count).

Definition chunk_request (target : ProcessTarget) (chunk : OperationContext * bytes)
    : AgentWriteStdinRequest := mkAgentWriteStdin (Some chunk.1) target chunk.2.

Definition agent_write_stdin (r : DriverWriteStdinRequest) : C () :=
  let data := string_bytes (dwsr_data r) in
  if bool_decide (data = []) then
    service_call (svc_write_stdin (chunk_request (dwsr_target r) (dwsr_context r, [])))
  else
    let chunk_count := div_ceil (length data) chunk_bytes in
    let! contexts := lift (chunk_contexts (dwsr_context r) chunk_count) in
    do! (if bool_decide (1 < chunk_count)%nat
         then retain_guest_operation_ids (oc_operation_id (dwsr_context r)) (oc_operation_id <$> contexts)
         else ret ());
    for_each (λ chunk, service_call (svc_write_stdin (chunk_request (dwsr_target r) chunk)))
      (zip contexts (chunks chunk_bytes data)).

Definition agent_close_stdin (r : DriverCloseStdinRequest) : C () :=
  service_call (svc_close_stdin (mkAgentCloseStdin (Some (dcsr_context r)) (dcsr_target r))).
Definition agent_resize (r : DriverResizeRequest) : C () :=
  service_call (svc_resize (mkAgentResize (Some (drr_context r)) (drr_target r) (drr_size r))).
Definition agent_file (r : FileRequest) : C FileResponse := service_call (svc_file r).
Definition agent_filesystem (r : FilesystemRequest) : C FilesystemResponse :=
  service_call (svc_filesystem r).
End client.

(** ** Chunks *)

Lemma chunks_from_spec {A} fuel n (l : list A) :
  (0 < n)%nat → (length l ≤ fuel)%nat →
  concat (chunks_from fuel n l) = l ∧ Forall (λ c, 0 < length c ≤ n)%nat (chunks_from fuel n l) ∧
  length (chunks_from fuel n l) = div_ceil (length l) n.
Proof.
  intros Hn. revert l. induction fuel as [|fuel IH]; intros [|x l'] Hl; try (simpl in Hl; lia).
  1,2: unfold div_ceil; simpl; rewrite Nat.Div0.mod_0_l, Nat.Div0.div_0_l; by split_and!.
  cbn [chunks_from]. set (l := x :: l') in *.
  assert (0 < length l)%nat as Hpos by (simpl; lia). clearbody l.
  destruct (IH (drop n l)) as (IH1 & IH2 & IH3); [rewrite length_drop; lia|]. split_and!.
  - simpl. by rewrite IH1, take_drop.
  - constructor; [rewrite length_take; lia|done].
  - simpl. rewrite IH3, length_drop. unfold div_ceil.
    destruct (decide (n ≤ length l)%nat) as [Hle|Hlt].
    + assert (length l mod n = (length l - n) mod n ∧ length l / n = (length l - n) / n + 1)%nat
        as [-> ->].
      { replace (length l) with ((length l - n) + 1 * n)%nat at 1 3 by lia.
        by rewrite Nat.Div0.mod_add, Nat.div_add by lia. }
      destruct (_ <? _)%nat; lia.
    + replace (length l - n)%nat with 0%nat by lia.
      rewrite Nat.Div0.mod_0_l, Nat.Div0.div_0_l, Nat.mod_small, Nat.div_small by lia. simpl.
      by rewrite (proj2 (Nat.ltb_lt _ _) Hpos).
Qed.
Lemma chunks_spec {A} n (l : list A) :
  (0 < n)%nat → concat (chunks n l) = l ∧ Forall (λ c, 0 < length c ≤ n)%nat (chunks n l) ∧
    length (chunks n l) = div_ceil (length l) n.
Proof. intros Hn. by apply chunks_from_spec. Qed.

Lemma chunk_bytes_Z : Z.of_nat chunk_bytes = AGENT_MAX_IO_PAYLOAD_BYTES.
Proof. by apply Z2Nat.id. Qed.
Lemma chunk_bytes_pos : (0 < chunk_bytes)%nat.
Proof. pose proof chunk_bytes_Z. unfold AGENT_MAX_IO_PAYLOAD_BYTES in *. lia. Qed.
#[global] Opaque chunk_bytes.

Lemma collect_results_ok {E A} (l : list (result E A)) (l' : list A) :
  collect_results l = Ok l' ↔ l = Ok <$> l'.
Proof.
  revert l'. induction l as [|[a|e] l IH]; intros l'; simpl.
  - split; [by intros [= <-]|by destruct l'].
  - split.
    + intros H. apply rbind_ok in H as (l2 & H2%IH & [= <-]). simpl. by rewrite H2.
    + destruct l' as [|a' l']; intros; simplify_eq/=. by rewrite (proj2 (IH l') eq_refl).
  - split; [done|]. by destruct l'.
Qed.

(** ** Operation IDs of chunks *)

Lemma mod_256_inj_step q a b :
  0 ≤ a → 0 ≤ b → a / 2 ^ (8 * (q + 1)) = b / 2 ^ (8 * (q + 1)) → 0 ≤ q →
  a / 2 ^ (8 * q) mod 256 = b / 2 ^ (8 * q) mod 256 → a / 2 ^ (8 * q) = b / 2 ^ (8 * q).
Proof.
  intros Ha Hb Hhigh Hq Hlow.
  replace (8 * (q + 1)) with (8 * q + 8) in Hhigh by lia.
  rewrite Z.pow_add_r, <-!Z.div_div in Hhigh by lia. change (2 ^ 8) with 256 in Hhigh.
  rewrite (Z.div_mod (a / 2 ^ (8 * q)) 256), (Z.div_mod (b / 2 ^ (8 * q)) 256) by lia. congruence.
Qed.
Lemma to_be_bytes_inj_range a b :
  0 ≤ a → 0 ≤ b → a / 2 ^ 32 = b / 2 ^ 32 → to_be_bytes a = to_be_bytes b → a = b.
Proof.
  intros Ha Hb H32 [= H24 H16 H8 H0].
  pose proof (mod_256_inj_step 3 a b Ha Hb H32 ltac:(lia) H24) as E3.
  pose proof (mod_256_inj_step 2 a b Ha Hb E3 ltac:(lia) H16) as E2.
  pose proof (mod_256_inj_step 1 a b Ha Hb E2 ltac:(lia) H8) as E1.
  pose proof (mod_256_inj_step 0 a b Ha Hb E1 ltac:(lia)) as E0.
  rewrite !Z.div_1_r in E0. by apply E0.
Qed.
Lemma u64_to_be_bytes_inj a b :
  0 ≤ a ≤ u64_max → 0 ≤ b ≤ u64_max → u64_to_be_bytes a = u64_to_be_bytes b → a = b.
Proof.
  unfold u64_max. intros Ha Hb H. apply app_inj_1 in H as [Hh Hl]; [|done].
  apply to_be_bytes_inj_range; [lia|lia| |done].
  apply to_be_bytes_inj_range; try (apply Z.div_pos; lia); [|done].
  rewrite !Z.div_div by lia. rewrite !Z.div_small; lia.
Qed.

Lemma chunk_id_input_inj operation_id i j :
  Z.of_nat i ≤ u64_max → Z.of_nat j ≤ u64_max →
  chunk_id_input operation_id i = chunk_id_input operation_id j → i = j.
Proof.
  intros Hi Hj H. unfold chunk_id_input in H. repeat apply app_inv_head in H.
  apply Nat2Z.inj, u64_to_be_bytes_inj; [lia|lia|done].
Qed.

Lemma hex_text_inj a b : Forall is_byte a → Forall is_byte b → hex_text a = hex_text b → a = b.
Proof.
  intros (Ha & _)%hex_pairs_chars (Hb & _)%hex_pairs_chars H. unfold hex_text in H.
  apply (f_equal String.list_ascii_of_string) in H.
  rewrite !String.list_ascii_of_string_of_list_ascii in H. congruence.
Qed.

Section chunk_ids.
Context `{!Sha256, !Sha256Laws}.

Lemma chunk_operation_id_inj operation_id i j :
  chunk_operation_id operation_id i = chunk_operation_id operation_id j →
  sha256 (chunk_id_input operation_id i) = sha256 (chunk_id_input operation_id j).
Proof.
  intros Hid. unfold chunk_operation_id in Hid. simplify_eq/=.
  apply hex_text_inj; [apply sha256_bytes..|done].
Qed.

Lemma string_of_list_ascii_length chars :
  String.length (String.string_of_list_ascii chars) = length chars.
Proof. induction chars; simpl; congruence. Qed.
Lemma all_bytes_hex chars : forallb is_digit_or_lower_hex chars = true →
  all_bytes identifier_byte (String.string_of_list_ascii chars) = true.
Proof.
  induction chars as [|c chars IH]; simpl; [done|]. intros [Hc Hs]%andb_true_iff.
  rewrite IH by done. rewrite andb_true_r. apply alphanumeric_identifier_byte.
  revert Hc. by destruct c as [[] [] [] [] [] [] [] []]; vm_compute.
Qed.

Lemma last_byte_hex chars : chars ≠ [] → forallb is_digit_or_lower_hex chars = true →
  last_byte (String.string_of_list_ascii chars) ≠ Some "."%char.
Proof.
  induction chars as [|c [|c' chars] IH]; simpl; [done| |].
  - intros _ [Hc _]%andb_true_iff [= ->]. by vm_compute in Hc.
  - intros _ [_ Hs]%andb_true_iff. by apply IH.
Qed.

(** A derived ID is always a valid operation ID. *)
Lemma process_io_chunk_context_ok parent index :
  Z.of_nat index ≤ u64_max →
  process_io_chunk_context parent index =
    Ok (mkOperationContext (chunk_operation_id (oc_operation_id parent) index)
          (oc_deadline_unix_ms parent)).
Proof.
  intros Hi. unfold process_io_chunk_context.
  destruct (Z.ltb_spec u64_max (Z.of_nat index)); [lia|]. simpl.
  destruct (hex_pairs_chars _ (sha256_bytes (chunk_id_input (oc_operation_id parent) index)))
    as (_ & Hf & Hlen). rewrite sha256_length in Hlen.
  unfold chunk_operation_id, hex_text. set (chars := hex_chars _) in *. clearbody chars.
  change ("io." +:+ ?s) with (String "i" (String "o" (String "." s))).
  rewrite validate_identifier_complete; [done|..|done].
  - unfold byte_len, MAX_IDENTIFIER_BYTES. simpl. rewrite string_of_list_ascii_length. lia.
  - done.
  - simpl. by apply all_bytes_hex.
  - destruct chars as [|c chars]; [done|]. apply (last_byte_hex (c :: chars)); done.
Qed.
End chunk_ids.

(** ** A link that loses messages *)

(** What becomes of a call on its way to the guest and back. *)
Inductive Fate : Type := Through | RequestLost (e : Error) | ResponseLost (e : Error).

(** The service behind the link, with the fates of the calls to come; when
    none is left calls go through. *)
Definition over_link {S A} (m : prog S Error A) : prog (S * list Fate) Error A := λ '(s, fates),
  match fates with
  | [] => let '(r, s) := m s in (r, (s, []))
  | Through :: fates => let '(r, s) := m s in (r, (s, fates))
  | RequestLost e :: fates => (Err e, (s, fates))
  | ResponseLost e :: fates => (Err e, ((m s).2, fates))
  end.
Definition lossy {S} (service : GuestAgentService S) : GuestAgentService (S * list Fate) := {|
  svc_capabilities := svc_capabilities;
  svc_acknowledge_operations ids := over_link (svc_acknowledge_operations ids);
  svc_create r := over_link (svc_create r);
  svc_state r := over_link (svc_state r);
  svc_start r := over_link (svc_start r);
  svc_kill r := over_link (svc_kill r);
  svc_delete r := over_link (svc_delete r);
  svc_wait r := over_link (svc_wait r);
  svc_exec r := over_link (svc_exec r);
  svc_signal_process r := over_link (svc_signal_process r);
  svc_wait_process r := over_link (svc_wait_process r);
  svc_pause r := over_link (svc_pause r);
  svc_resume r := over_link (svc_resume r);
  svc_processes r := over_link (svc_processes r);
  svc_update r := over_link (svc_update r);
  svc_stats r := over_link (svc_stats r);
  svc_read_output r := over_link (svc_read_output r);
  svc_write_stdin r := over_link (svc_write_stdin r);
  svc_close_stdin r := over_link (svc_close_stdin r);
  svc_resize r := over_link (svc_resize r);
  svc_file r := over_link (svc_file r);
  svc_filesystem r := over_link (svc_filesystem r)
|}.

(** ** Standard input reaches the process exactly once *)

Section stdin.
Context `{GK : !GuestKernel, SH : !Sha256, GC : !GuestCanonical, AE : !AgentEnv}.
Context (capabilities : AgentCapabilities) (polls : nat) (readings : list Z) (abandoned : Error).
Variable scope : string.
Abbreviation guest := (linux_executor capabilities polls readings abandoned).
Abbreviation link := (lossy guest).
Abbreviation Client := (AgentDriverClient (LinuxExecutor * list Fate)).

(** The requests that carry a write, as the client makes them. *)
Definition stdin_requests (r : DriverWriteStdinRequest) : list AgentWriteStdinRequest :=
  let data := string_bytes (dwsr_data r) in
  if bool_decide (data = []) then [chunk_request (dwsr_target r) (dwsr_context r, [])]
  else match chunk_contexts (dwsr_context r) (div_ceil (length data) chunk_bytes) with
       | Ok contexts => chunk_request (dwsr_target r) <$> zip contexts (chunks chunk_bytes data)
       | Err _ => []
       end.

(** What a request does when nothing is recorded. *)
Definition stdin_effect (r : AgentWriteStdinRequest) : prog (ExecutorState * K) Error () :=
  do! (match aws_context r with Some context => validate_deadline context | None => ret () end);
  write_stdin_new r.
Definition write_in_order (rs : list AgentWriteStdinRequest) : prog (ExecutorState * K) Error () :=
  for_each stdin_effect rs.

(** Attempts at one write: before each, the host may have been restarted, and
    each meets its own losses. *)
Fixpoint write_attempts (r : DriverWriteStdinRequest) (attempts : list (bool * list Fate)) (c : Client)
    : list (Result ()) * Client :=
  match attempts with
  | [] => ([], c)
  | (restarted, fates) :: attempts =>
      let retained := if restarted then ∅ else ac_guest_operation_ids c in
      let '(answer, c) := agent_write_stdin (GuestAgentService0 := link) scope r
        (mkAgentClient retained ((ac_service c).1, fates)) in
      let '(answers, c) := write_attempts r attempts c in (answer :: answers, c)
  end.

(** *** One recorded write *)

Definition request_id (r : AgentWriteStdinRequest) : string :=
  from_option oc_operation_id "" (aws_context r).
Definition executor_at (l : LinuxExecutor) : ExecutorState * K := (le_state l, le_kernel l).
Definition unseen (l : LinuxExecutor) (id : string) : Prop :=
  jn_operations (le_journal l) !! id = None ∧ jn_pending_operations (le_journal l) !! id = None.
Definition room (l : LinuxExecutor) (n : nat) : Prop :=
  (size (jn_operations (le_journal l)) + size (jn_pending_operations (le_journal l)) + n
   ≤ MAX_OPERATION_RECORDS)%nat.
Definition has_record (l : LinuxExecutor) (r : AgentWriteStdinRequest) (result : Result ()) : Prop :=
  ∃ op, recorded_new MutWriteStdin r = Ok op ∧
    jn_operations (le_journal l) !! request_id r = Some (mkOperationRecord op (inject result)).

Abbreviation write r := (svc_write_stdin (GuestAgentService := guest) r).

Lemma write_replays l r result :
  is_Some (aws_context r) → has_record l r result → write r l = (result, l).
Proof.
  intros [context Hc] (op & Hop & Hr). destruct l as [s j k].
  unfold request_id in Hr. simpl in *. unfold write_stdin_recorded. rewrite Hc in *. simpl in Hr.
  unfold recorded. rewrite Hop. unfold prepare_operation. simpl.
  by rewrite (@replay_record _ unit_outcome unit_outcome_laws _ _ result _ Hr).
Qed.

Lemma reserve_unseen id j :
  jn_pending_operations j !! id = None →
  let used := (size (jn_operations j) + size (jn_pending_operations j))%nat in
  (∃ e, reserve_operation id j = Err e ∧ (MAX_OPERATION_RECORDS ≤ used)%nat) ∨
  reserve_operation id j = Ok ().
Proof.
  intros Hp used. unfold reserve_operation. rewrite Hp, bool_decide_eq_false_2 by (by intros []).
  destruct (Nat.leb_spec MAX_OPERATION_RECORDS (size (jn_operations j) + size (jn_pending_operations j)));
    eauto.
Qed.

Lemma write_unseen l r :
  is_Some (aws_context r) → unseen l (request_id r) →
  (∃ e, write r l = (Err e, l) ∧ (is_ok (recorded_new MutWriteStdin r) = true → ¬ room l 1)) ∨
  ∃ l', write r l = ((stdin_effect r (executor_at l)).1, l') ∧
    executor_at l' = (stdin_effect r (executor_at l)).2 ∧
    has_record l' r (stdin_effect r (executor_at l)).1 ∧
    (∀ id, id ≠ request_id r → jn_operations (le_journal l') !! id = jn_operations (le_journal l) !! id) ∧
    jn_pending_operations (le_journal l') = jn_pending_operations (le_journal l) ∧
    (∀ n, room l (S n) → room l' n).
Proof.
  intros [context Hc] [Hn Hp]. destruct l as [s j k]. unfold request_id, executor_at, room in *.
  simpl in *. unfold write_stdin_recorded, stdin_effect. rewrite Hc in *. simpl in Hn, Hp.
  unfold recorded, has_record, request_id. rewrite Hc. simpl.
  destruct (recorded_new MutWriteStdin r) as [op|e]; [|left; by exists e].
  unfold prepare_operation, replay. rewrite Hn. unfold prepare_pending_operation. rewrite Hp.
  destruct (reserve_unseen _ _ Hp) as [(e & -> & Hfull)| ->];
    [left; exists e; split; [done|intros _; lia]|right].
  destruct ((do! validate_deadline context; write_stdin_new r) (s, k)) as [res [s' k']]. simpl.
  unfold complete_operation. erewrite complete_pending_ok; simpl; [|by rewrite lookup_insert_eq].
  unfold wait_for_operation. simpl. rewrite lookup_insert_eq. simpl. eexists. split_and!; [done|done|..].
  - exists op. split; [done|]. simpl. by rewrite lookup_insert_eq.
  - intros id Hid. simpl. by rewrite lookup_insert_ne.
  - simpl. by rewrite delete_insert_eq, delete_id.
  - intros n Hroom. simpl. rewrite delete_insert_eq, delete_id by done.
    rewrite map_size_insert_None by done. lia.
Qed.
(** *** Progress of a write *)

(** How far a sequence of writes has got from executor state [st]: a prefix
    of it is recorded, each request with what it did, and nothing after the
    first error or the first request that did not run. *)
Fixpoint delivered (rs : list AgentWriteStdinRequest) (st : ExecutorState * K) (l : LinuxExecutor)
    : Prop :=
  match rs with
  | [] => executor_at l = st
  | r :: rest =>
      (Forall (unseen l) (request_id <$> r :: rest) ∧ executor_at l = st) ∨
      (has_record l r (stdin_effect r st).1 ∧
       match (stdin_effect r st).1 with
       | Ok _ => delivered rest (stdin_effect r st).2 l
       | Err _ => Forall (unseen l) (request_id <$> rest) ∧ executor_at l = (stdin_effect r st).2
       end)
  end.

Lemma delivered_start rs l :
  Forall (unseen l) (request_id <$> rs) → delivered rs (executor_at l) l.
Proof. destruct rs as [|r rs]; [done|]. intros H. by left. Qed.

(** Whatever is delivered is a prefix, written once and in order. *)
Lemma delivered_prefix rs st l :
  delivered rs st l → ∃ n, (n ≤ length rs)%nat ∧ executor_at l = (write_in_order (take n rs) st).2.
Proof.
  revert st. induction rs as [|r rs IH]; intros st; [by exists 0%nat|].
  intros [[_ Hat]|[_ H]]; [exists 0%nat; split; [lia|done]|].
  unfold write_in_order, bind in *. destruct (stdin_effect r st) as [[[]|e] st'] eqn:E; simpl in H.
  - destruct (IH _ H) as (n & Hn & Hat). exists (S n). simpl. split; [lia|]. unfold bind. by rewrite E.
  - destruct H as [_ Hat]. exists 1%nat. simpl. split; [lia|]. unfold bind. by rewrite E.
Qed.

(** All of it is recorded as written. *)
Fixpoint completed (rs : list AgentWriteStdinRequest) (st : ExecutorState * K) (l : LinuxExecutor)
    : Prop :=
  match rs with
  | [] => executor_at l = st
  | r :: rest =>
      has_record l r (Ok ()) ∧ (stdin_effect r st).1 = Ok () ∧ completed rest (stdin_effect r st).2 l
  end.
Lemma completed_state rs st l : completed rs st l → write_in_order rs st = (Ok (), executor_at l).
Proof.
  unfold write_in_order. revert st. induction rs as [|r rs IH]; intros st; simpl; [by intros ->|].
  intros (_ & Heff & Hc%IH). unfold bind. destruct (stdin_effect r st). simpl in *. by subst.
Qed.
Lemma unseen_other l l' ids id :
  (∀ i, i ≠ id → jn_operations (le_journal l') !! i = jn_operations (le_journal l) !! i) →
  jn_pending_operations (le_journal l') = jn_pending_operations (le_journal l) →
  id ∉ ids → Forall (unseen l) ids → Forall (unseen l') ids.
Proof.
  intros Heq Hp Hid. rewrite !Forall_forall. intros Hun i Hi. destruct (Hun i Hi) as [Hn Hpn].
  split; [|by rewrite Hp]. rewrite Heq; [done|]. by intros ->.
Qed.

(** A write keeps the records of the journal. *)
Lemma write_keeps l r i rec :
  jn_operations (le_journal l) !! i = Some rec →
  jn_operations (le_journal (write r l).2) !! i = Some rec.
Proof.
  simpl. unfold write_stdin_recorded.
  destruct (aws_context r); [apply keeps_recorded, _|apply keeps_locked].
Qed.

(** A link either passes the service's answer on, or answers with an error
    after the call or without it. *)
Lemma over_link_cases {S A} (m : prog S Error A) s fates :
  ∃ fates', over_link m (s, fates) = ((m s).1, ((m s).2, fates')) ∨
    ∃ e, over_link m (s, fates) = (Err e, (s, fates')) ∨ over_link m (s, fates) = (Err e, ((m s).2, fates')).
Proof.
  unfold over_link. destruct fates as [|[|e|e] fates]; destruct (m s) as [r s']; eauto 6.
Qed.

Definition send_all (rs : list AgentWriteStdinRequest) : prog (LinuxExecutor * list Fate) Error () :=
  for_each (svc_write_stdin (GuestAgentService := link)) rs.

Lemma send_one rs r st l fates :
  NoDup (request_id <$> r :: rs) → is_Some (aws_context r) → delivered (r :: rs) st l →
  let '(answer, (l', _)) := svc_write_stdin (GuestAgentService := link) r (l, fates) in
  delivered (r :: rs) st l' ∧
  (answer = Ok () → has_record l' r (Ok ()) ∧ (stdin_effect r st).1 = Ok () ∧
     delivered rs (stdin_effect r st).2 l').
Proof.
  intros [Hid _]%NoDup_cons Hc Hd.
  change (svc_write_stdin r (l, fates)) with (over_link (write r) (l, fates)).
  assert (let '(answer, l') := write r l in
          delivered (r :: rs) st l' ∧
          (answer = Ok () → has_record l' r (Ok ()) ∧ (stdin_effect r st).1 = Ok () ∧
            delivered rs (stdin_effect r st).2 l')) as Hw.
  { destruct Hd as [[Hun Hat]|[Hrec Hd]].
    - inversion Hun as [|? ? Hr Hrs]; subst. change (fmap request_id rs) with (request_id <$> rs) in *.
      destruct (write_unseen l r Hc Hr) as [(e & -> & _)|(l' & -> & Hat & Hrec & Hops & Hp & _)].
      { split; [by left|done]. }
      pose proof (unseen_other _ _ _ _ Hops Hp Hid Hrs) as Hrs'. split.
      + right. split; [done|]. destruct (stdin_effect r _).1; [|done].
        rewrite <- Hat. by apply delivered_start.
      + intros Hok. rewrite Hok in Hrec. split_and!; [done|done|]. rewrite <- Hat. by apply delivered_start.
    - rewrite (write_replays l r _ Hc Hrec). split; [by right|]. intros Hok. rewrite Hok in *. done. }
  destruct (over_link_cases (write r) l fates) as [fates' [-> | (e & [-> | ->])]];
    destruct (write r l) as [answer l'] eqn:Hwr; cbn [fst snd]; [done| |]; naive_solver.
Qed.

Lemma over_link_keeps (m : prog LinuxExecutor Error ()) i rec l fates :
  (∀ l, jn_operations (le_journal l) !! i = Some rec →
        jn_operations (le_journal (m l).2) !! i = Some rec) →
  jn_operations (le_journal l) !! i = Some rec →
  jn_operations (le_journal (over_link m (l, fates)).2.1) !! i = Some rec.
Proof.
  intros Hm Hl. destruct (over_link_cases m l fates) as [fates' [-> | (e & [-> | ->])]]; simpl; auto.
Qed.
Lemma send_all_keeps rs i rec l fates :
  jn_operations (le_journal l) !! i = Some rec →
  jn_operations (le_journal (send_all rs (l, fates)).2.1) !! i = Some rec.
Proof.
  unfold send_all. revert l fates. induction rs as [|r rs IH]; intros l fates Hl; [done|].
  cbn [for_each]. unfold bind.
  pose proof (over_link_keeps (write r) i rec l fates (λ l, write_keeps l r i rec) Hl) as Hw.
  change (svc_write_stdin r (l, fates)) with (over_link (write r) (l, fates)).
  destruct (over_link (write r) (l, fates)) as [[[]|e] [l' fates']]; [|done]. by apply IH.
Qed.

Lemma send_all_delivers rs st l fates :
  NoDup (request_id <$> rs) → Forall (λ r, is_Some (aws_context r)) rs → delivered rs st l →
  let '(answer, (l', _)) := send_all rs (l, fates) in
  delivered rs st l' ∧ (answer = Ok () → completed rs st l').
Proof.
  revert st l fates.
  induction rs as [|r rs IH]; intros st l fates Hnd Hcs Hd; [simpl in *; by subst|].
  inversion Hcs as [|? ? Hc Hcs']; subst.
  pose proof (send_one rs r st l fates Hnd Hc Hd) as Hone.
  unfold send_all. cbn [for_each]. unfold bind.
  destruct (svc_write_stdin r (l, fates)) as [[[]|e] [l1 fates1]]; [|naive_solver].
  destruct Hone as [_ (Hrec & Heff & Hd')]; [done|].
  specialize (IH _ l1 fates1 (NoDup_cons_1_2 _ _ Hnd) Hcs' Hd').
  destruct Hrec as (op & Hop & Hrec). apply (send_all_keeps rs _ _ _ fates1) in Hrec.
  unfold send_all in *. destruct (for_each _ rs (l1, fates1)) as [answer [l' fates']]. simpl in Hrec.
  destruct IH as [Hd2 Hok]. split.
  - right. rewrite Heff. split; [by exists op|done].
  - intros Ha. split_and!; [by exists op|done|by apply Hok].
Qed.

Lemma send_all_completed rs st l fates :
  Forall (λ r, is_Some (aws_context r)) rs → completed rs st l → (send_all rs (l, fates)).2.1 = l.
Proof.
  unfold send_all. intros Hcs. revert st fates.
  induction Hcs as [|r rs Hc Hcs IH]; intros st fates Hd; [done|]. cbn [for_each]. unfold bind.
  destruct Hd as (Hrec & _ & Hd). pose proof (write_replays l r _ Hc Hrec) as Hw.
  change (svc_write_stdin r (l, fates)) with (over_link (write r) (l, fates)).
  destruct (over_link_cases (write r) l fates) as [fates' Hl]. rewrite Hw in Hl. cbn [fst snd] in Hl.
  destruct Hl as [-> | (e & [-> | ->])]; [by apply (IH _ fates' Hd)|done|done].
Qed.

(** Without losses an attempt finishes what the earlier ones left. *)
Lemma send_all_through rs st l :
  NoDup (request_id <$> rs) →
  Forall (λ r, is_Some (aws_context r) ∧ is_ok (recorded_new MutWriteStdin r) = true) rs →
  room l (length rs) → delivered rs st l →
  let '(answer, (l', _)) := send_all rs (l, []) in (answer, executor_at l') = write_in_order rs st.
Proof.
  unfold send_all, write_in_order. intros Hnd Hcs. revert st l Hnd.
  induction Hcs as [|r rs [Hc He] Hcs IH]; intros st l Hnd Hroom Hd; [simpl in *; by subst|].
  inversion Hnd as [|? ? Hid Hnd']; subst. cbn [for_each]. unfold bind.
  change (svc_write_stdin r (l, [])) with (let '(a, l') := write r l in (a, (l', []:list Fate))).
  destruct Hd as [[Hun Hat]|[Hrec Hd]].
  - inversion Hun as [|? ? Hr Hrs]; subst.
    destruct (write_unseen l r Hc Hr) as [(e & _ & Hfull)|(l' & -> & Hat & Hrec & Hops & Hp & Hroom')].
    { destruct (Hfull He). unfold room in *. simpl in Hroom. lia. }
    destruct (stdin_effect r (executor_at l)) as [[[]|e] st1]; simpl in *; [|by rewrite Hat].
    apply IH; [done|by apply Hroom'|]. rewrite <- Hat. apply delivered_start.
    by eapply unseen_other.
  - rewrite (write_replays l r _ Hc Hrec).
    destruct (stdin_effect r st) as [[[]|e] st1]; simpl in *; [|by destruct Hd as [_ ->]].
    apply IH; [done| |done]. unfold room in *. lia.
Qed.

(** *** The client's requests *)

Lemma for_each_service_call {X} (f : X → prog (LinuxExecutor * list Fate) Error ()) xs c :
  for_each (λ x, service_call (f x)) xs c =
  let '(a, s) := for_each f xs (ac_service c) in (a, mkAgentClient (ac_guest_operation_ids c) s).
Proof.
  revert c. induction xs as [|x xs IH]; intros [ids s]; [done|]. cbn [for_each]. unfold bind at 1.
  unfold service_call at 1. unfold bind. simpl. destruct (f x s) as [[[]|e] s']; [|done].
  rewrite IH. done.
Qed.
Lemma for_each_fmap {W E X Y} (g : X → Y) (f : Y → prog W E ()) xs w :
  for_each f (g <$> xs) w = for_each (λ x, f (g x)) xs w.
Proof.
  revert w. induction xs as [|x xs IH]; intros w; [done|]. cbn. unfold bind.
  destruct (f (g x) w) as [[[]|e] w']; [apply IH|done].
Qed.

(** A write is refused by the client before anything is sent, or it is the
    requests one after the other. *)
Lemma agent_write_cases r retained l fates :
  let c := mkAgentClient retained (l, fates) in
  (∃ e, agent_write_stdin (GuestAgentService0 := link) scope r c = (Err e, c) ∧
     (is_ok (chunk_contexts (dwsr_context r)
        (div_ceil (length (string_bytes (dwsr_data r))) chunk_bytes)) = true →
      is_Some (retained !! oc_operation_id (dwsr_context r)))) ∨
  ∃ retained', agent_write_stdin (GuestAgentService0 := link) scope r c =
    ((send_all (stdin_requests r) (l, fates)).1,
     mkAgentClient retained' (send_all (stdin_requests r) (l, fates)).2).
Proof.
  intros c. subst c. unfold agent_write_stdin, stdin_requests, send_all. case_bool_decide as Hdata.
  { right. exists retained. cbn [for_each]. unfold bind, service_call, ret. cbn [ac_service].
    by destruct (svc_write_stdin _ _) as [[[]|e] s]. }
  unfold bind, lift. destruct (chunk_contexts _ _) as [contexts|e]; [|left; by exists e].
  rewrite for_each_fmap.
  assert (∀ ids, ∃ retained', for_each (λ chunk, service_call
      (svc_write_stdin (GuestAgentService := link) (chunk_request (dwsr_target r) chunk)))
      (zip contexts (chunks chunk_bytes (string_bytes (dwsr_data r)))) (mkAgentClient ids (l, fates)) =
    (let '(a, s) := for_each (λ chunk, svc_write_stdin (GuestAgentService := link)
       (chunk_request (dwsr_target r) chunk))
       (zip contexts (chunks chunk_bytes (string_bytes (dwsr_data r)))) (l, fates) in
     (a, mkAgentClient retained' s))) as Htail.
  { intros ids. exists ids. apply for_each_service_call. }
  destruct (for_each (λ chunk, svc_write_stdin _) _ (l, fates)) as [a s]. cbn [fst snd].
  case_bool_decide; [|right; apply Htail]. unfold retain_guest_operation_ids. cbn [ac_guest_operation_ids].
  destruct (retained !! _) as [existing|]; [case_bool_decide|];
    [right; apply Htail|left; eexists; split; [done|]; eauto|].
  right. apply Htail.
Qed.

Context `{SL : !Sha256Laws}.

(** The contexts of the chunks. *)
Definition derived_contexts (context : OperationContext) (n : nat) : list OperationContext :=
  if bool_decide (n = 1%nat) then [context]
  else (λ i, mkOperationContext (chunk_operation_id (oc_operation_id context) i)
               (oc_deadline_unix_ms context)) <$> seq 0 n.
Lemma chunk_contexts_ok context n :
  Z.of_nat n ≤ u64_max → chunk_contexts context n = Ok (derived_contexts context n).
Proof.
  intros Hn. apply collect_results_ok. unfold derived_contexts. case_bool_decide as Hone; [by subst|].
  rewrite <- list_fmap_compose. apply list_fmap_ext. intros i j Hj%lookup_seq.
  simpl. apply process_io_chunk_context_ok. lia.
Qed.
Lemma derived_contexts_length context n : length (derived_contexts context n) = n.
Proof. unfold derived_contexts. case_bool_decide; [done|]. by rewrite length_fmap, length_seq. Qed.

(** SHA-256 gives the chunks of a write different digests. *)
Definition collision_free (operation_id : string) (n : nat) : Prop := ∀ i j,
  (i < n)%nat → (j < n)%nat →
  sha256 (chunk_id_input operation_id i) = sha256 (chunk_id_input operation_id j) →
  chunk_id_input operation_id i = chunk_id_input operation_id j.

Lemma derived_contexts_nodup context n :
  Z.of_nat n ≤ u64_max → collision_free (oc_operation_id context) n →
  NoDup (oc_operation_id <$> derived_contexts context n).
Proof.
  intros Hn Hcf. unfold derived_contexts. case_bool_decide; [apply NoDup_singleton|].
  rewrite <- list_fmap_compose. apply NoDup_fmap_2_strong; [|apply NoDup_seq].
  intros i j Hi%elem_of_seq Hj%elem_of_seq Hid. simpl in Hid.
  eapply chunk_id_input_inj; [lia|lia|]. apply Hcf; [lia|lia|]. by apply chunk_operation_id_inj.
Qed.

Lemma string_bytes_length t : length (string_bytes t) = String.length t.
Proof. unfold string_bytes. rewrite length_fmap. induction t; simpl; congruence. Qed.
Lemma div_ceil_le n d : (0 < d)%nat → (div_ceil n d ≤ n)%nat.
Proof.
  intros Hd. unfold div_ceil. destruct n as [|n]; [by rewrite Nat.Div0.mod_0_l, Nat.Div0.div_0_l|].
  destruct (decide (d = 1%nat)) as [->|]; [rewrite Nat.mod_1_r, Nat.div_1_r; done|].
  pose proof (Nat.div_lt (S n) d ltac:(lia) ltac:(lia)). destruct (_ <? _)%nat; lia.
Qed.

(** The requests carry the data in order, in pieces that fit a message, and
    have operation IDs of their own. *)
Lemma stdin_requests_spec r :
  let rs := stdin_requests r in
  Z.of_nat (String.length (dwsr_data r)) ≤ u64_max →
  concat (aws_data <$> rs) = string_bytes (dwsr_data r) ∧
  Forall (λ q, aws_process q = dwsr_target r ∧ is_Some (aws_context q) ∧
               data_len (aws_data q) ≤ AGENT_MAX_IO_PAYLOAD_BYTES) rs ∧
  (collision_free (oc_operation_id (dwsr_context r)) (length rs) → NoDup (request_id <$> rs)).
Proof.
  intros rs Hlen. subst rs. unfold stdin_requests. rewrite <- string_bytes_length in Hlen.
  set (data := string_bytes (dwsr_data r)) in *. case_bool_decide as Hd.
  { split_and!; [by rewrite Hd|by repeat constructor; eauto|intros _; apply NoDup_singleton]. }
  destruct (chunks_spec chunk_bytes data chunk_bytes_pos) as (Hc & Hf & Hl).
  set (n := div_ceil (length data) chunk_bytes) in *.
  assert (Z.of_nat n ≤ u64_max) as Hn.
  { pose proof (div_ceil_le (length data) chunk_bytes chunk_bytes_pos). lia. }
  rewrite chunk_contexts_ok by done. pose proof (derived_contexts_length (dwsr_context r) n) as Hdl.
  split_and!.
  - rewrite <- list_fmap_compose. change (aws_data ∘ chunk_request (dwsr_target r)) with
      (snd : OperationContext * bytes → bytes).
    fold (zip (derived_contexts (dwsr_context r) n) (chunks chunk_bytes data)).*2.
    by rewrite snd_zip by lia.
  - apply Forall_fmap, Forall_forall. intros [context chunk] Hin%elem_of_zip_r.
    rewrite Forall_forall in Hf. specialize (Hf _ Hin). simpl. split_and!; [done|by eexists|].
    unfold data_len. rewrite <- chunk_bytes_Z. lia.
  - rewrite length_fmap, length_zip, Hl, Hdl, Nat.min_id. intros Hcf.
    rewrite <- list_fmap_compose.
    change (request_id ∘ chunk_request (dwsr_target r)) with
      (oc_operation_id ∘ (fst : OperationContext * bytes → OperationContext)).
    rewrite list_fmap_compose, fst_zip by lia. by apply derived_contexts_nodup.
Qed.

(** *** Attempts *)

Lemma write_attempts_delivered r attempts st c :
  let rs := stdin_requests r in
  NoDup (request_id <$> rs) → Forall (λ q, is_Some (aws_context q)) rs →
  delivered rs st (ac_service c).1 →
  let '(answers, c') := write_attempts r attempts c in
  delivered rs st (ac_service c').1 ∧
  (Ok () ∈ answers ∨ completed rs st (ac_service c).1 → completed rs st (ac_service c').1).
Proof.
  intros rs Hnd Hcs. revert c.
  induction attempts as [|[restarted fates] attempts IH]; intros c Hd; cbn [write_attempts].
  { split; [done|]. intros [Hin%elem_of_nil|]; done. }
  set (retained := if restarted then _ else _).
  pose proof (send_all_delivers rs st _ fates Hnd Hcs Hd) as Hs.
  assert (completed rs st (ac_service c).1 →
          completed rs st (send_all rs ((ac_service c).1, fates)).2.1) as Hkeep.
  { intros Hc. by rewrite (send_all_completed rs st). }
  destruct (agent_write_cases r retained (ac_service c).1 fates) as [(e & -> & _)|[retained' ->]].
  - specialize (IH (mkAgentClient retained ((ac_service c).1, fates)) Hd).
    destruct (write_attempts r attempts _) as [answers c']. split; [apply IH|].
    intros [[Hne|Hin]%elem_of_cons|Hc]; [done| |]; apply IH; [by left|by right].
  - fold rs. destruct (send_all rs _) as [answer [l' fates']]. cbn [fst snd ac_service] in *.
    destruct Hs as [Hd' Ha].
    specialize (IH (mkAgentClient retained' (l', fates')) Hd').
    destruct (write_attempts r attempts _) as [answers c']. split; [apply IH|].
    intros [[Hok|Hin]%elem_of_cons|Hc]; apply IH; [by right; apply Ha|by left|right; by apply Hkeep].
Qed.

(** What an undisturbed attempt by a client without memory answers, and the
    executor state it leaves. *)
Definition undisturbed_write (r : DriverWriteStdinRequest) (l : LinuxExecutor)
    : Result () * (ExecutorState * K) :=
  let '(answer, c) := agent_write_stdin (GuestAgentService0 := link) scope r
    (agent_client_new (l, [])) in
  (answer, executor_at (ac_service c).1).

Lemma undisturbed_sends r l :
  Z.of_nat (String.length (dwsr_data r)) ≤ u64_max →
  undisturbed_write r l =
  let '(answer, (l', _)) := send_all (stdin_requests r) (l, []) in (answer, executor_at l').
Proof.
  intros Hlen. unfold undisturbed_write, agent_client_new.
  destruct (agent_write_cases r ∅ l []) as [(e & _ & Hretained)|[retained' ->]];
    [|by destruct (send_all _ _) as [answer [l' fates]]].
  exfalso. rewrite <- string_bytes_length in Hlen. rewrite chunk_contexts_ok in Hretained.
  - destruct (Hretained eq_refl) as [ids Hids]. by rewrite lookup_empty in Hids.
  - pose proof (div_ceil_le (length (string_bytes (dwsr_data r))) chunk_bytes chunk_bytes_pos). lia.
Qed.

(** Each chunk of a write has a JSON text. *)
Definition encodable (r : DriverWriteStdinRequest) : Prop :=
  Forall (λ q, is_ok (recorded_new MutWriteStdin q) = true) (stdin_requests r).

(** C10: Standard input is written exactly once.  However often a write is
    attempted, with requests and answers lost and the host restarted in
    between, the guest has written a prefix of the data, each chunk once and in
    order; once an attempt is answered with success the guest has written all
    of it; and after any attempts an undisturbed one answers and leaves the
    guest exactly as writing the chunks once in order would. *)
Theorem stdin_exactly_once r attempts retained l :
  Z.of_nat (String.length (dwsr_data r)) ≤ u64_max →
  collision_free (oc_operation_id (dwsr_context r)) (length (stdin_requests r)) →
  Forall (unseen l) (request_id <$> stdin_requests r) →
  let rs := stdin_requests r in
  let '(answers, c) := write_attempts r attempts (mkAgentClient retained (l, [])) in
  let l' := (ac_service c).1 in
  concat (aws_data <$> rs) = string_bytes (dwsr_data r) ∧
  Forall (λ q, aws_process q = dwsr_target r ∧ data_len (aws_data q) ≤ AGENT_MAX_IO_PAYLOAD_BYTES) rs ∧
  (∃ n, (n ≤ length rs)%nat ∧ executor_at l' = (write_in_order (take n rs) (executor_at l)).2) ∧
  (Ok () ∈ answers → write_in_order rs (executor_at l) = (Ok (), executor_at l')) ∧
  (encodable r → room l' (length rs) →
   undisturbed_write r l' = write_in_order rs (executor_at l)).
Proof.
  intros Hlen Hcf Hun rs. destruct (stdin_requests_spec r Hlen) as (Hdata & Hall & Hnd).
  specialize (Hnd Hcf).
  assert (Forall (λ q, is_Some (aws_context q)) (stdin_requests r)) as Hcs
    by (eapply Forall_impl; [exact Hall|naive_solver]).
  pose proof (write_attempts_delivered r attempts (executor_at l) (mkAgentClient retained (l, []))
    Hnd Hcs (delivered_start _ _ Hun)) as Hw.
  destruct (write_attempts r attempts _) as [answers c]. destruct Hw as [Hd Ha].
  split_and!; [done|by eapply Forall_impl; [exact Hall|naive_solver]|by apply delivered_prefix|intros Hin; apply completed_state, Ha; by left|].
  intros Henc Hroom. rewrite undisturbed_sends by done.
  assert (Forall (λ q, is_Some (aws_context q) ∧ is_ok (recorded_new MutWriteStdin q) = true)
    (stdin_requests r)) as Hboth by (apply Forall_and; split; [done|exact Henc]).
  pose proof (send_all_through _ _ _ Hnd Hboth Hroom Hd) as Hs.
  by destruct (send_all _ _) as [answer [l' fates]].
Qed.

(** *** Acknowledgement *)

(** An acknowledgement releases the records of every chunk that the client
    sent and forgets their IDs, or changes nothing; other records stay. *)
Theorem stdin_acknowledged operation_id retained l :
  let ids := default [operation_id] (retained !! operation_id) in
  let '(answer, c') := agent_acknowledge_operation (GuestAgentService0 := guest) operation_id
    (mkAgentClient retained l) in
  match answer with
  | Ok _ => ac_guest_operation_ids c' = delete operation_id retained ∧
      ∀ id, jn_operations (le_journal (ac_service c')) !! id =
            if bool_decide (id ∈ ids) then None else jn_operations (le_journal l) !! id
  | Err _ => c' = mkAgentClient retained l
  end.
Proof.
  intros ids. unfold agent_acknowledge_operation, service_call, guest_ids.
  cbn [ac_guest_operation_ids ac_service svc_acknowledge_operations linux_executor]. fold ids.
  destruct (acknowledge_spec ids (le_journal l)) as [[e ->]|[Hp ->]]; [by destruct l|].
  cbn [ac_guest_operation_ids ac_service]. split.
  - subst ids. destruct (retained !! operation_id) as [existing|] eqn:E; cbn [default].
    + by rewrite bool_decide_eq_true_2.
    + by rewrite bool_decide_eq_false_2, delete_id.
  - intros id. case_bool_decide; simpl; rewrite lookup_foldl_delete; case_bool_decide; by case_decide.
Qed.

(** A client that was made after a restart of the host does not know the chunk
    IDs of a write that came before: the acknowledgement of that write releases
    the parent ID alone, and the guest keeps the records of its chunks. *)
Corollary restart_keeps_chunk_records operation_id chunk_id l :
  chunk_id ≠ operation_id →
  let c' := (agent_acknowledge_operation (GuestAgentService0 := guest) operation_id
    (agent_client_new l)).2 in
  jn_operations (le_journal (ac_service c')) !! chunk_id = jn_operations (le_journal l) !! chunk_id.
Proof.
  intros Hne. pose proof (stdin_acknowledged operation_id ∅ l) as H.
  unfold agent_client_new. destruct (agent_acknowledge_operation _ _) as [[[]|e] c']; simpl.
  - destruct H as [_ ->]. rewrite lookup_empty. simpl.
    by rewrite bool_decide_eq_false_2 by (by rewrite list_elem_of_singleton).
  - by rewrite H.
Qed.
End stdin.
