(* ===== verification/UtilityVm.v ===== *)
(** * The utility-VM driver (crates/runtime/src/utility_vm_driver.rs,
    utility_vm_driver/sessions.rs and session_lifecycle.rs,
    utility_vm_driver/kvm_live_reattach.rs)

    Containers run in virtual machines: a dedicated one each, or several in a
    reusable guest session that the caller names.  The driver keeps a registry
    of attached containers, of reusable sessions with their members, and of
    admissions under way; it launches, rotates and reaps the machines.

    The launcher of machines, the bundle handoff, the recovery reports and the
    session directories are the environment.  An [Arc] is a number: guests and
    containers are compared by it where the code compares pointers.  A call
    runs from its first to its last step, as its gates enforce for calls on the
    same container or session; callers that are dropped in the middle of a call
    are not modelled. *)

From stdpp Require Import base gmap sets strings list.
From S2P Require Import Prelude Collections Sdk Identifiers OutputBuffer Wire AgentModel.
From S2P Require Import AgentSession GuestExecutor Lifecycle Fault OciState Contracts Capabilities StoreModel.
From S2P Require Import Disk RestoreContract Journal HostArtifact Observe Driver DriverRegistry AgentDriver.
From Stdlib Require Import ZArith Lia.
Local Open Scope string_scope.
Local Open Scope Z_scope.

(** ** Guest sessions (crates/sdk/src/attachment/guest_session.rs) *)

Definition MAX_GUEST_SESSION_CAPACITY : Z := 64.
Definition guest_session_generation_new (value : Z) : Result Z :=
  check! reject_if (bool_decide (value = 0))
    (invalid_attachment "guest-session generation must be greater than zero");
  Ok value.
Definition guest_session_capacity_new (value : Z) : Result Z :=
  check! reject_if (negb ((1 <=? value) && (value <=? MAX_GUEST_SESSION_CAPACITY)))
    (invalid_attachment "guest-session capacity must be between 1 and {MAX_GUEST_SESSION_CAPACITY}");
  Ok value.
Definition guest_session_new (id : string) (generation : Z) (trust_domain : string) (capacity : Z)
    (reset : GuestSessionReset) : GuestSessionAttachment :=
  mkGuestSession id generation trust_domain SharedGuestKernel capacity reset OwnedByRuntime.
Definition guest_session_validate (s : GuestSessionAttachment) : Result () :=
  reject_if (bool_decide (gs_isolation s ≠ SharedGuestKernel))
    (invalid_attachment "a reusable guest session requires shared-guest-kernel isolation").
Definition guest_session_validate_isolation (s : GuestSessionAttachment) (isolation : IsolationRequest)
    : Result () :=
  match isolation with
  | RequestSharedGuestKernel trust_domain =>
      reject_if (bool_decide (trust_domain ≠ gs_trust_domain s))
        (invalid_attachment "reusable guest-session trust domain {} differs from create trust domain {}")
  | _ => Err (invalid_attachment "a reusable guest session requires shared-guest-kernel isolation")
  end.

(** [CreateAttachments::uses_runtime_bundle_handoff] *)
Definition RUNTIME_BUNDLE_HANDOFF_EXTENSION : string := "dev.a3s.bundle-handoff".
Definition RUNTIME_BUNDLE_HANDOFF_EXTENSION_VERSION : Z := 1.

(** ** The environment *)

Class UtilityVmEnv : Type := {
  (** The state of everything outside the driver. *)
  uve : Type;
  (** The guest service of a machine. *)
  uve_service : Type;
  uve_guest :: GuestAgentService uve_service;
  (** [BundleHandoffStore] *)
  handoff_prepare : DriverCreateRequest → prog uve Error OciBundle;
  handoff_guest_bundle_path :
    ContainerTarget → string → option GuestSessionAttachment → prog uve Error GuestPath;
  handoff_mount_root : ContainerTarget → option GuestSessionAttachment → prog uve Error string;
  handoff_cleanup : ContainerTarget → option GuestSessionAttachment → bool → prog uve Error ();
  handoff_cleanup_empty_session : GuestSessionAttachment → prog uve Error ();
  (** [RecoveryStore] *)
  recovery_recover :
    ContainerTarget → ContainerRecord → option GuestSessionAttachment → prog uve Error DriverRecovery;
  recovery_remove : ContainerTarget → option GuestSessionAttachment → prog uve Error ();
  recovery_remove_session : GuestSessionAttachment → prog uve Error ();
  (** [existing_reusable_guest_session_identity_root] *)
  session_identity_root : GuestSessionAttachment → prog uve Error (option string);
  (** [UtilityVmFactory::launch]: the service and the owner of a machine *)
  factory_launch :
    ContainerTarget → string → OciBundle → GuestPath → CreateAttachments →
    prog uve Error (uve_service * nat);
  (** [UtilityVmOwner::shutdown] *)
  owner_shutdown : nat → prog uve Error ();
  (** [try_reattach_live] up to the new connection and its owner *)
  try_reattach_live :
    ContainerTarget → ContainerRecord → option GuestSessionAttachment →
    prog uve Error (option (uve_service * nat))
}.

(** ** The registry *)

Section registry.
Context `{SE : StoreEnv} `{HE : HostEnv} `{UE : UtilityVmEnv} `{SH : !Sha256, AE : !AgentEnv}.

Record UtilityVmGuest : Type := mkGuest {
  gu_client : AgentDriverClient uve_service; gu_owner : nat
}.
Record UtilityVmContainer : Type := mkContainer {
  ctn_arc : nat; ctn_target : ContainerTarget;
  ctn_guest_session : option GuestSessionAttachment; ctn_guest : nat
}.
Inductive UtilityVmAttachment : Type :=
  | Live (container : UtilityVmContainer)
  | RecoveredStopped (target : ContainerTarget) (guest_session : option GuestSessionAttachment)
      (init_exit_status : option ExitStatus).
Record ReusableGuestSession : Type := mkReusable {
  rs_attachment : GuestSessionAttachment; rs_guest : nat; rs_members : gmap string Z
}.
Record PendingGuestSessionAdmission : Type := mkPendingAdmission {
  pa_target : ContainerTarget; pa_attachment : GuestSessionAttachment
}.

(** [UtilityVmRegistry] with the lifecycle flag, the guests it refers to and
    the environment. *)
Record UtilityVm : Type := mkUtilityVm {
  uv_closed : bool;
  uv_attachments : gmap string UtilityVmAttachment;
  uv_reusable : gmap string ReusableGuestSession;
  uv_pending : gmap string PendingGuestSessionAdmission;
  uv_guests : gmap nat UtilityVmGuest;
  uv_next : nat;
  uv_env : uve
}.
Abbreviation V := (prog UtilityVm Error).

Definition set_attachments (f : gmap string UtilityVmAttachment → gmap string UtilityVmAttachment)
    (v : UtilityVm) : UtilityVm :=
  mkUtilityVm (uv_closed v) (f (uv_attachments v)) (uv_reusable v) (uv_pending v) (uv_guests v)
    (uv_next v) (uv_env v).
Definition set_reusable (f : gmap string ReusableGuestSession → gmap string ReusableGuestSession)
    (v : UtilityVm) : UtilityVm :=
  mkUtilityVm (uv_closed v) (uv_attachments v) (f (uv_reusable v)) (uv_pending v) (uv_guests v)
    (uv_next v) (uv_env v).
Definition set_pending
    (f : gmap string PendingGuestSessionAdmission → gmap string PendingGuestSessionAdmission)
    (v : UtilityVm) : UtilityVm :=
  mkUtilityVm (uv_closed v) (uv_attachments v) (uv_reusable v) (f (uv_pending v)) (uv_guests v)
    (uv_next v) (uv_env v).
Definition set_closed (v : UtilityVm) : UtilityVm :=
  mkUtilityVm true (uv_attachments v) (uv_reusable v) (uv_pending v) (uv_guests v) (uv_next v) (uv_env v).

Definition read_vm {A} (f : UtilityVm → A) : V A := λ v, (Ok (f v), v).
Definition change_vm (f : UtilityVm → UtilityVm) : V () := λ v, (Ok (), f v).
(** A call to the environment. *)
Definition env {A} (m : prog uve Error A) : V A := λ v,
  let '(r, e) := m (uv_env v) in
  (r, mkUtilityVm (uv_closed v) (uv_attachments v) (uv_reusable v) (uv_pending v) (uv_guests v)
        (uv_next v) e).
(** A call through the client of a guest; a guest that is referred to exists. *)
Definition dangling_guest : Error := state_error Internal "utility-vm" "dangling guest".
Definition on_guest {A} (g : nat) (m : prog (AgentDriverClient uve_service) Error A) : V A := λ v,
  match uv_guests v !! g with
  | None => (Err dangling_guest, v)
  | Some guest =>
      let '(r, c) := m (gu_client guest) in
      (r, mkUtilityVm (uv_closed v) (uv_attachments v) (uv_reusable v) (uv_pending v)
            (<[g := mkGuest c (gu_owner guest)]> (uv_guests v)) (uv_next v) (uv_env v))
  end.
(** [Arc::new(UtilityVmGuest { .. })] *)
Definition new_guest (launched : uve_service * nat) : V nat := λ v,
  (Ok (uv_next v),
   mkUtilityVm (uv_closed v) (uv_attachments v) (uv_reusable v) (uv_pending v)
     (<[uv_next v := mkGuest (agent_client_new launched.1) launched.2]> (uv_guests v))
     (S (uv_next v)) (uv_env v)).
(** [Arc::new(UtilityVmContainer { .. })] *)
Definition new_container (target : ContainerTarget) (session : option GuestSessionAttachment)
    (guest : nat) : V UtilityVmContainer := λ v,
  (Ok (mkContainer (uv_next v) target session guest),
   mkUtilityVm (uv_closed v) (uv_attachments v) (uv_reusable v) (uv_pending v) (uv_guests v)
     (S (uv_next v)) (uv_env v)).

(** [BTreeMap::values] *)
Definition btree_values {A} (m : gmap string A) : list A := (sort_by_key fst (map_to_list m)).*2.

Definition att_target (a : UtilityVmAttachment) : ContainerTarget :=
  match a with Live c => ctn_target c | RecoveredStopped target _ _ => target end.
Definition att_guest_session (a : UtilityVmAttachment) : option GuestSessionAttachment :=
  match a with Live c => ctn_guest_session c | RecoveredStopped _ session _ => session end.

Definition push_unique (guests : list nat) (candidate : nat) : list nat :=
  if existsb (Nat.eqb candidate) guests then guests else (guests ++ [candidate])%list.
Definition live_guests (v : UtilityVm) : list nat :=
  let guests := foldl (λ guests a, match a with Live c => push_unique guests (ctn_guest c)
                                   | RecoveredStopped _ _ _ => guests end)
                  [] (btree_values (uv_attachments v)) in
  foldl (λ guests s, push_unique guests (rs_guest s)) guests (btree_values (uv_reusable v)).
Definition active_guest_count (v : UtilityVm) : nat := length (live_guests v).
Definition attachment_count_for_session (v : UtilityVm) (expected : GuestSessionAttachment) : nat :=
  length (filter (λ a, att_guest_session a = Some expected) (btree_values (uv_attachments v))).

(** [ReusableGuestSession::new] *)
Definition reusable_new (attachment : GuestSessionAttachment) (guest : nat) (target : ContainerTarget)
    (generation : Z) : ReusableGuestSession :=
  mkReusable attachment guest {[ ct_id target := generation ]}.

(** [require_exact_generation] *)
Definition require_exact_generation (target : ContainerTarget) (operation : string) : Result Z :=
  ok_or (state_error InvalidArgument operation
    "utility-VM driver operation requires an exact generation for container {}") (ct_generation target).

Definition session_conflict (reason : string) : Error :=
  state_error Conflict "utility-vm-create"
    ("reusable guest session {} requested generation {}, but retained generation {} cannot be replaced because "
     +:+ reason).
Definition orphaned_session_error : Error :=
  state_error Conflict "utility-vm-create"
    "reusable guest session {} has an unowned persisted root {}; refusing to launch another guest until the previous incarnation is recovered or deleted".
Definition recovered_stopped_error (operation : string) : Error :=
  state_error FailedPrecondition operation
    "container {} generation {:?} was recovered as stopped after its utility-VM owner exited; delete this generation before another live operation".
Definition recovered_exit_error (operation : string) : Error :=
  state_error FailedPrecondition operation
    "container {} generation {:?} was stopped by utility-VM owner-death cleanup, but its exact init exit status was not retained".
End registry.

(** ** Operations *)

Section operations.
Context `{SE : StoreEnv} `{HE : HostEnv} `{UE : UtilityVmEnv} `{SH : !Sha256, AE : !AgentEnv}.
Variables (capability : DriverCapability) (attachment_capabilities : AttachmentCapabilities).
Variable scope : string.
Abbreviation V := (prog UtilityVm Error).

Definition enter_operation (operation : string) (reject_closed : bool) : V () := λ v,
  (reject_if (reject_closed && uv_closed v)
     (state_error FailedPrecondition operation "{} utility-VM driver has been shut down"), v).

Definition shutdown_guest (g : nat) : V () := λ v,
  match uv_guests v !! g with
  | None => (Err dangling_guest, v)
  | Some guest => env (owner_shutdown (gu_owner guest)) v
  end.

(** *** Admissions *)

Definition preflight_session_admission (target : ContainerTarget) (binding : GuestSessionAttachment)
    : V () :=
  do! lift (rbind (require_exact_generation target "preflight-utility-vm-guest-session") (λ _, Ok ()));
  let! retained := read_vm (λ v, uv_reusable v !! gs_id binding) in
  let! pending := read_vm (λ v, filter (λ p, gs_id (pa_attachment p) = gs_id binding)
                                  (btree_values (uv_pending v))) in
  if bool_decide (is_Some (rs_attachment <$> retained)) then ret ()
  else if existsb (λ p, bool_decide (pa_attachment p ≠ binding)) pending
  then fail (session_conflict
    "another create request is transferring a different ownership contract")
  else match pending with
       | _ :: _ => ret ()
       | [] =>
           let! root := env (session_identity_root binding) in
           match root with Some _ => fail orphaned_session_error | None => ret () end
       end.

Definition remember_pending_session (target : ContainerTarget) (binding : GuestSessionAttachment)
    : V () :=
  let! pending := read_vm uv_pending in
  do! lift (reject_if
    (existsb (λ p, bool_decide (gs_id (pa_attachment p) = gs_id binding)
                   && bool_decide (pa_attachment p ≠ binding)) (btree_values pending))
    (session_conflict "another create request is transferring a different ownership contract"));
  do! lift (reject_if
    (from_option (λ p, bool_decide (pa_target p ≠ target) || bool_decide (pa_attachment p ≠ binding))
       false (pending !! ct_id target))
    (state_error Conflict "utility-vm-create"
       "container {} already has a different pending reusable guest-session admission"));
  change_vm (set_pending (insert (ct_id target) (mkPendingAdmission target binding))).

Definition clear_pending_session (target : ContainerTarget) (binding : GuestSessionAttachment) : V () :=
  change_vm (set_pending (λ pending,
    match pending !! ct_id target with
    | Some existing =>
        if bool_decide (pa_target existing = target) && bool_decide (pa_attachment existing = binding)
        then delete (ct_id target) pending else pending
    | None => pending
    end)).
Definition clear_pending (target : ContainerTarget) (session : option GuestSessionAttachment) : V () :=
  match session with Some binding => clear_pending_session target binding | None => ret () end.

Definition uses_runtime_bundle_handoff (contract : CreateAttachments) : bool :=
  existsb (λ e, bool_decide (ext_name e = RUNTIME_BUNDLE_HANDOFF_EXTENSION)
                && bool_decide (ext_version e = RUNTIME_BUNDLE_HANDOFF_EXTENSION_VERSION)
                && ext_required e) (attachments_extensions contract).

Definition validate_create_contract (r : DriverCreateRequest) : Result () :=
  let isolation := isolation_class (dcr_isolation r) in
  let contract := dcr_attachment_contract r in
  check! reject_if (bool_decide (isolation = SharedHostKernel)
                    || negb (bool_decide (isolation ∈ dc_isolation_classes capability)))
    (state_error Unsupported "utility-vm-create" "the {} driver does not advertise {:?} isolation");
  check! attachments_validate_isolation contract (dcr_isolation r);
  check! capabilities_require attachment_capabilities (attachments_schema_version contract)
           (attachments_extensions contract);
  try! _generation := require_exact_generation (dcr_target r) "utility-vm-create" in
  reject_if (negb (uses_runtime_bundle_handoff contract))
    (state_error Unsupported "utility-vm-create"
       "{} create requires runtime ownership handoff for its OCI bundle").

(** *** Attachments *)

Definition attachment_for (target : ContainerTarget) (operation : string) : V UtilityVmAttachment := λ v,
  (try! _generation := require_exact_generation target operation in
   try! attachment := ok_or (state_error Unavailable operation
     "container {} has neither an attached utility VM nor a recovered stop record")
     (uv_attachments v !! ct_id target) in
   check! reject_if (bool_decide (att_target attachment ≠ target))
     (state_error Conflict operation "container {} is attached at generation {:?}, not {:?}");
   Ok attachment, v).

Definition live_session_for (target : ContainerTarget) (operation : string) : V UtilityVmContainer :=
  let! attachment := attachment_for target operation in
  match attachment with
  | Live container => ret container
  | RecoveredStopped _ _ _ => fail (recovered_stopped_error operation)
  end.

Definition existing_create_session (target : ContainerTarget) (session : option GuestSessionAttachment)
    : V (option UtilityVmContainer) := λ v,
  (match uv_attachments v !! ct_id target with
   | None => Ok None
   | Some attachment =>
       check! reject_if (bool_decide (att_target attachment ≠ target))
         (state_error Conflict "utility-vm-create"
            "container {} already owns a utility-VM attachment at generation {:?}");
       check! reject_if (bool_decide (att_guest_session attachment ≠ session))
         (state_error Conflict "utility-vm-create"
            "container {} already owns a different utility-VM guest-session binding");
       match attachment with
       | Live container => Ok (Some container)
       | RecoveredStopped _ _ _ => Err (recovered_stopped_error "utility-vm-create")
       end
   end, v).

(** *** Launching *)

Definition AGENT_RUNTIME_SHARE_GUEST_ROOT : string := "/run/a3s-oci-runtime".
(** [Path::join]: an absolute path replaces the base *)
Definition path_join (base relative : string) : string :=
  if starts_with "/" relative then relative
  else if ends_with_slash base then base +:+ relative else base +:+ "/" +:+ relative.

(** [UtilityVmLaunchRequest::validate]; absolute paths are equal when their
    components are *)
Definition launch_request_validate (runtime_share : string) (bundle : OciBundle)
    (guest_bundle : GuestPath) (contract : CreateAttachments) : Result () :=
  check! attachments_validate contract bundle;
  try! relative := ok_or (state_error FailedPrecondition "validate-utility-vm-launch"
    "utility-VM Guest bundle must remain below {AGENT_RUNTIME_SHARE_GUEST_ROOT}: {}")
    (strip_prefix (AGENT_RUNTIME_SHARE_GUEST_ROOT +:+ "/") (gp_value guest_bundle)) in
  reject_if (bool_decide (path_components (path_join runtime_share relative)
                          ≠ path_components (bundle_directory bundle)))
    (state_error FailedPrecondition "validate-utility-vm-launch"
       "utility-VM Guest bundle {} maps to {}, not exact Host bundle {}").

Definition launch_guest (target : ContainerTarget) (bundle : OciBundle) (guest_bundle : GuestPath)
    (contract : CreateAttachments) : V nat :=
  let! runtime_share := env (handoff_mount_root target (attachments_guest_session contract)) in
  do! lift (launch_request_validate runtime_share bundle guest_bundle contract);
  let! launched := env (factory_launch target runtime_share bundle guest_bundle contract) in
  new_guest launched.

Definition attach_reusable_member (target : ContainerTarget) (binding : GuestSessionAttachment)
    (guest : nat) : V UtilityVmContainer :=
  let! generation := lift (require_exact_generation target "utility-vm-create") in
  let! retained := read_vm (λ v, uv_reusable v !! gs_id binding) in
  let! retained := lift (ok_or (state_error Conflict "utility-vm-create"
    "reusable guest session {} disappeared during admission") retained) in
  do! lift (reject_if (bool_decide (rs_attachment retained ≠ binding))
    (session_conflict "the retained ownership contract changed during admission"));
  do! lift (reject_if (bool_decide (rs_guest retained ≠ guest))
    (state_error Conflict "utility-vm-create"
       "reusable guest session {} changed owners during admission"));
  do! lift (reject_if (gs_capacity binding <=? Z.of_nat (size (rs_members retained)))
    (state_error ResourceExhausted "utility-vm-create"
       "reusable guest session {} generation {} reached its capacity of {} members"));
  do! lift (reject_if (bool_decide (is_Some (rs_members retained !! ct_id target)))
    (state_error Conflict "utility-vm-create"
       "reusable guest session {} already tracks container {} without an attachment"));
  do! change_vm (set_reusable (insert (gs_id binding)
    (mkReusable (rs_attachment retained) (rs_guest retained)
       (<[ct_id target := generation]> (rs_members retained)))));
  let! container := new_container target (Some binding) guest in
  do! change_vm (set_attachments (insert (ct_id target) (Live container)));
  ret container.

(** The last part of [admit_new_container]: a machine of its own for a
    session. *)
Definition launch_session (target : ContainerTarget) (binding : GuestSessionAttachment) (generation : Z)
    (bundle : OciBundle) (guest_bundle : GuestPath) (contract : CreateAttachments)
    : V UtilityVmContainer :=
  let! guest := launch_guest target bundle guest_bundle contract in
  let! container := new_container target (Some binding) guest in
  do! change_vm (set_reusable (insert (gs_id binding) (reusable_new binding guest target generation)));
  do! change_vm (set_attachments (insert (ct_id target) (Live container)));
  ret container.

(** The rotation of an empty session to a newer incarnation. *)
Definition rotate_session (binding : GuestSessionAttachment) (retained : ReusableGuestSession) : V () :=
  do! shutdown_guest (rs_guest retained);
  do! env (recovery_remove_session (rs_attachment retained));
  do! env (handoff_cleanup_empty_session (rs_attachment retained));
  let! current := read_vm (λ v, uv_reusable v !! gs_id binding) in
  if from_option (λ current, bool_decide (rs_attachment current = rs_attachment retained)
                             && bool_decide (rs_members current = ∅)
                             && bool_decide (rs_guest current = rs_guest retained)) false current
  then change_vm (set_reusable (delete (gs_id binding)))
  else fail (state_error Conflict "utility-vm-create"
    "reusable guest session {} changed while rotating its empty incarnation").

Definition admit_new_container (target : ContainerTarget) (bundle : OciBundle)
    (guest_bundle : GuestPath) (contract : CreateAttachments) : V UtilityVmContainer :=
  match attachments_guest_session contract with
  | None =>
      let! guest := launch_guest target bundle guest_bundle contract in
      let! container := new_container target None guest in
      do! change_vm (set_attachments (insert (ct_id target) (Live container)));
      ret container
  | Some binding =>
      let! generation := lift (require_exact_generation target "utility-vm-create") in
      do! preflight_session_admission target binding;
      let! retained := read_vm (λ v, uv_reusable v !! gs_id binding) in
      match retained with
      | None => launch_session target binding generation bundle guest_bundle contract
      | Some retained =>
          let member_count := Z.of_nat (size (rs_members retained)) in
          if bool_decide (rs_attachment retained = binding) then
            if gs_capacity binding <=? member_count
            then fail (state_error ResourceExhausted "utility-vm-create"
              "reusable guest session {} generation {} reached its capacity of {} members")
            else attach_reusable_member target binding (rs_guest retained)
          else if gs_generation binding <=? gs_generation (rs_attachment retained)
          then fail (session_conflict
            "the requested incarnation is stale or changes an existing generation")
          else if negb (member_count =? 0)
          then fail (session_conflict "the retained incarnation still has live members")
          else
            do! rotate_session binding retained;
            launch_session target binding generation bundle guest_bundle contract
      end
  end.

(** *** Removal *)

Definition session_root_is_unowned (binding : GuestSessionAttachment) : V bool :=
  read_vm (λ v,
    negb (from_option (λ s, bool_decide (rs_attachment s = binding)) false (uv_reusable v !! gs_id binding))
    && negb (existsb (λ p, bool_decide (pa_attachment p = binding)) (btree_values (uv_pending v)))).

Definition remove_stopped (target : ContainerTarget) : V () :=
  do! change_vm (set_pending (delete (ct_id target)));
  change_vm (set_attachments (λ attachments,
    match attachments !! ct_id target with
    | Some (RecoveredStopped current _ _) =>
        if bool_decide (current = target) then delete (ct_id target) attachments else attachments
    | _ => attachments
    end)).

(** The attachment of a container, if it is this one. *)
Definition still_attached (container : UtilityVmContainer)
    (attachments : gmap string UtilityVmAttachment) : bool :=
  match attachments !! ct_id (ctn_target container) with
  | Some (Live current) => bool_decide (ctn_arc current = ctn_arc container)
  | _ => false
  end.
Definition drop_member (id : string) (s : ReusableGuestSession) : ReusableGuestSession :=
  mkReusable (rs_attachment s) (rs_guest s) (delete id (rs_members s)).

(** The remainder of [cleanup_terminal_create], after the machine is reaped
    or retained. *)
Definition forget_container (container : UtilityVmContainer) (remove_session : bool) (v : UtilityVm)
    : UtilityVm :=
  let id := ct_id (ctn_target container) in
  let v := set_attachments (λ attachments,
             if still_attached container attachments then delete id attachments else attachments) v in
  match ctn_guest_session container with
  | None => v
  | Some binding =>
      let v := set_reusable (λ reusable,
        match reusable !! gs_id binding with
        | Some session =>
            if bool_decide (rs_attachment session = binding)
               && bool_decide (rs_guest session = ctn_guest container)
            then <[gs_id binding := drop_member id session]> reusable else reusable
        | None => reusable
        end) v in
      if remove_session then set_reusable (delete (gs_id binding)) v else v
  end.

(** What is left on disk of a container. *)
Definition remove_recovery (target : ContainerTarget) (session : option GuestSessionAttachment)
    (remove_session : bool) : V () :=
  match session with
  | Some binding => if remove_session then env (recovery_remove_session binding) else ret ()
  | None => env (recovery_remove target None)
  end.

Definition note_failure {A} (m : V A) (suffix : string) (e : Error) : V Error :=
  catch m (λ r, ret (match r with Ok _ => e | Err _ => append_message e suffix end)).

(** Whether the machine of a failed create goes too: a dedicated one, or that
    of a session which this was the last member of. *)
Definition last_destroy_member (container : UtilityVmContainer) (v : UtilityVm) : bool :=
  match ctn_guest_session container with
  | None => true
  | Some binding =>
      from_option (λ s, bool_decide (rs_attachment s = binding)
                        && bool_decide (size (rs_members s) = 1%nat)
                        && bool_decide (is_Some (rs_members s !! ct_id (ctn_target container)))
                        && bool_decide (gs_reset binding = DestroyOnEmpty))
        false (uv_reusable v !! gs_id binding)
  end.
Definition cleanup_terminal_create (container : UtilityVmContainer) (e : Error) : V Error :=
  let target := ctn_target container in
  let session := ctn_guest_session container in
  do! clear_pending target session;
  let! remove_session := read_vm (last_destroy_member container) in
  catch (if remove_session then shutdown_guest (ctn_guest container) else ret ()) (λ reaped,
    match reaped with
    | Err _ => ret (append_message e "; failed to reap the utility VM: {}")
    | Ok _ =>
        do! change_vm (forget_container container remove_session);
        let! e := note_failure (remove_recovery target session remove_session)
                    "; cleanup failed: {}" e in
        note_failure (env (handoff_cleanup target session remove_session)) "; cleanup failed: {}" e
    end).

(** The cleanup of a create that is refused before its container exists. *)
Definition cleanup_refused_create (target : ContainerTarget) (session : option GuestSessionAttachment)
    (suffix : string) (e : Error) : V Error :=
  do! clear_pending target session;
  let! remove_session := match session with
                         | Some binding => session_root_is_unowned binding
                         | None => ret true
                         end in
  note_failure (env (handoff_cleanup target session remove_session)) suffix e.

(** A result whose final error is cleaned up after; a retryable one is not. *)
Definition unless_retryable {A} (m : V A) (cleanup : Error → V Error) : V A :=
  catch m (λ r, match r with
                | Ok a => ret a
                | Err e => if retryable e then fail e else let! e := cleanup e in fail e
                end).

(** *** The driver's calls *)

Definition uv_acknowledge_operation (operation_id : string) : V () :=
  do! enter_operation "utility-vm-acknowledge-operation" false;
  let! guests := read_vm live_guests in
  for_each (λ g, on_guest g (agent_acknowledge_operation operation_id)) guests.

Definition uv_prepare_create_bundle (r : DriverCreateRequest) : V OciBundle :=
  let session := attachments_guest_session (dcr_attachment_contract r) in
  do! enter_operation "utility-vm-create" true;
  do! lift (validate_create_contract r);
  do! match session with
      | Some binding =>
          do! preflight_session_admission (dcr_target r) binding;
          remember_pending_session (dcr_target r) binding
      | None => ret ()
      end;
  unless_retryable (env (handoff_prepare r)) (λ e, do! clear_pending (dcr_target r) session; ret e).

Definition uv_create (r : DriverCreateRequest) : V DriverState :=
  let target := dcr_target r in
  let contract := dcr_attachment_contract r in
  let session := attachments_guest_session contract in
  do! enter_operation "utility-vm-create" true;
  do! lift (validate_create_contract r);
  let! guest_directory := env (handoff_guest_bundle_path target (bundle_directory (dcr_bundle r)) session) in
  let! existing := unless_retryable (existing_create_session target session)
    (cleanup_refused_create target session
       "; failed to remove rejected exact-generation handoff: {}") in
  let! container :=
    match existing with
    | Some container => do! clear_pending target session; ret container
    | None =>
        unless_retryable (admit_new_container target (dcr_bundle r) guest_directory contract)
          (cleanup_refused_create target session
             "; failed to remove runtime-owned utility-VM bundle: {}")
    end in
  do! clear_pending target session;
  unless_retryable (on_guest (ctn_guest container) (agent_create scope r guest_directory))
    (cleanup_terminal_create container).

Definition with_attachment {A} (target : ContainerTarget) (operation : string)
    (live : UtilityVmContainer → V A) (stopped : option ExitStatus → V A) : V A :=
  do! enter_operation operation false;
  let! attachment := attachment_for target operation in
  match attachment with
  | Live container => live container
  | RecoveredStopped _ _ init_exit_status => stopped init_exit_status
  end.
Definition on_live {A} (target : ContainerTarget) (operation : string)
    (m : prog (AgentDriverClient uve_service) Error A) : V A :=
  do! enter_operation operation false;
  let! container := live_session_for target operation in
  on_guest (ctn_guest container) m.

Definition uv_state (target : ContainerTarget) : V DriverState :=
  with_attachment target "utility-vm-state"
    (λ c, on_guest (ctn_guest c) (agent_state scope target)) (λ _, ret driver_state_stopped).
Definition uv_start (r : DriverStartRequest) : V DriverState :=
  on_live (dsr_target r) "utility-vm-start" (agent_start scope r).
Definition uv_kill (r : DriverKillRequest) : V DriverState :=
  with_attachment (dkr_target r) "utility-vm-kill"
    (λ c, on_guest (ctn_guest c) (agent_kill scope r)) (λ _, ret driver_state_stopped).
Definition uv_wait (r : DriverWaitRequest) : V ExitStatus :=
  with_attachment (dwr_target r) "utility-vm-wait"
    (λ c, on_guest (ctn_guest c) (agent_wait r))
    (λ status, lift (ok_or (recovered_exit_error "utility-vm-wait") status)).
Definition uv_exec (r : DriverExecRequest) : V DriverProcess :=
  on_live (pt_container (der_target r)) "utility-vm-exec" (agent_exec scope r).
Definition uv_signal_process (r : DriverSignalProcessRequest) : V () :=
  on_live (pt_container (dspr_target r)) "utility-vm-signal-process" (agent_signal_process r).
Definition uv_wait_process (r : DriverWaitProcessRequest) : V ExitStatus :=
  on_live (pt_container (dwpr_target r)) "utility-vm-wait-process" (agent_wait_process r).
Definition uv_pause (r : DriverContainerOperationRequest) : V DriverState :=
  on_live (dcor_target r) "utility-vm-pause" (agent_pause scope r).
Definition uv_resume (r : DriverContainerOperationRequest) : V DriverState :=
  on_live (dcor_target r) "utility-vm-resume" (agent_resume scope r).
Definition uv_processes (target : ContainerTarget) : V (list ProcessRecord) :=
  with_attachment target "utility-vm-processes"
    (λ c, on_guest (ctn_guest c) (agent_processes target)) (λ _, ret []).
Definition uv_update (r : DriverUpdateRequest) : V DriverState :=
  on_live (dur_target r) "utility-vm-update" (agent_update scope r).
Definition uv_stats (target : ContainerTarget) : V ContainerStats :=
  on_live target "utility-vm-stats" (agent_stats scope target).
Definition uv_read_output (r : DriverReadOutputRequest) : V (list OutputChunk) :=
  on_live (pt_container (dror_target r)) "utility-vm-read-output" (agent_read_output r).
Definition uv_write_stdin (r : DriverWriteStdinRequest) : V () :=
  on_live (pt_container (dwsr_target r)) "utility-vm-write-stdin" (agent_write_stdin scope r).
Definition uv_close_stdin (r : DriverCloseStdinRequest) : V () :=
  on_live (pt_container (dcsr_target r)) "utility-vm-close-stdin" (agent_close_stdin r).
Definition uv_resize (r : DriverResizeRequest) : V () :=
  on_live (pt_container (drr_target r)) "utility-vm-resize" (agent_resize r).
Definition uv_file (r : FileRequest) : V FileResponse :=
  on_live (file_target r) "utility-vm-file" (agent_file r).
Definition uv_filesystem (r : FilesystemRequest) : V FilesystemResponse :=
  on_live (fs_target r) "utility-vm-filesystem" (agent_filesystem r).

(** [delete] of an attached container: whether its machine goes with it. *)
Definition removes_guest (target : ContainerTarget) (container : UtilityVmContainer) : V bool :=
  match ctn_guest_session container with
  | None => ret true
  | Some binding =>
      let! session := read_vm (λ v, uv_reusable v !! gs_id binding) in
      let! session := lift (ok_or (state_error FailedPrecondition "utility-vm-delete"
        "container {} has no reusable guest-session owner") session) in
      do! lift (reject_if
        (bool_decide (rs_attachment session ≠ binding)
         || negb (bool_decide (is_Some (rs_members session !! ct_id target)))
         || negb (bool_decide (rs_guest session = ctn_guest container)))
        (state_error Conflict "utility-vm-delete"
           "container {} reusable guest-session membership drifted"));
      ret (bool_decide (size (rs_members session) = 1%nat)
           && bool_decide (gs_reset binding = DestroyOnEmpty))
  end.
(** The registry after the guest deleted a container. *)
Definition stop_container (target : ContainerTarget) (container : UtilityVmContainer) (remove_guest : bool)
    (v : UtilityVm) : UtilityVm :=
  let v := set_attachments (λ attachments,
    match attachments !! ct_id target with
    | Some (Live current) =>
        if bool_decide (ctn_arc current = ctn_arc container)
        then <[ct_id target := RecoveredStopped target (ctn_guest_session container) None]> attachments
        else attachments
    | _ => attachments
    end) v in
  match ctn_guest_session container with
  | None => v
  | Some binding =>
      let v := set_reusable (λ reusable, match reusable !! gs_id binding with
        | Some session => <[gs_id binding := drop_member (ct_id target) session]> reusable
        | None => reusable end) v in
      if remove_guest then set_reusable (delete (gs_id binding)) v else v
  end.

Definition delete_live (r : DriverDeleteRequest) (container : UtilityVmContainer) : V () :=
  let target := ddr_target r in
  let! remove_guest := removes_guest target container in
  do! on_guest (ctn_guest container) (agent_delete r);
  do! (if remove_guest : bool then shutdown_guest (ctn_guest container) else ret ());
  do! change_vm (stop_container target container remove_guest);
  do! remove_recovery target (ctn_guest_session container) remove_guest;
  do! env (handoff_cleanup target (ctn_guest_session container) remove_guest);
  remove_stopped target.
Definition delete_stopped (target : ContainerTarget) (session : option GuestSessionAttachment) : V () :=
  let! remove_session := read_vm (λ v,
    match session with
    | Some binding => negb (bool_decide (is_Some (uv_reusable v !! gs_id binding)))
                      && Nat.eqb (attachment_count_for_session v binding) 1
    | None => true
    end) in
  do! remove_recovery target session remove_session;
  do! env (handoff_cleanup target session remove_session);
  remove_stopped target.
(** The attachment is read again under the gates; nothing runs in between. *)
Definition uv_delete (r : DriverDeleteRequest) : V () :=
  do! enter_operation "utility-vm-delete" false;
  let! attachment := attachment_for (ddr_target r) "utility-vm-delete" in
  match attachment with
  | Live container => delete_live r container
  | RecoveredStopped target session _ => delete_stopped target session
  end.

(** *** Recovery *)

(** [register_reattached], with the container and guest that
    [try_reattach_live] makes *)
Definition register_reattached (container : UtilityVmContainer) : V () :=
  let target := ctn_target container in
  do! match ctn_guest_session container with
      | Some binding =>
          let! generation := lift (ok_or (state_error InvalidArgument "utility-vm-kvm-live-reattach"
            "KVM Live reattach for reusable session {} requires an exact generation")
            (ct_generation target)) in
          change_vm (set_reusable (insert (gs_id binding)
            (reusable_new binding (ctn_guest container) target generation)))
      | None => ret ()
      end;
  change_vm (set_attachments (insert (ct_id target) (Live container))).

Definition observed (g : nat) (target : ContainerTarget) (record : ContainerRecord) : V DriverRecovery :=
  let! state := on_guest g (state_with_digest scope target (Some (cr_config_digest record))) in
  ret (recovery_observed state).

(** The checks of an attachment against the durable record. *)
Definition check_generation (attachment : UtilityVmAttachment) (target : ContainerTarget) : Result () :=
  reject_if (bool_decide (att_target attachment ≠ target))
    (state_error Conflict "utility-vm-recover"
       "container {} is attached at generation {:?}, not durable generation {:?}").
Definition check_binding (attachment : UtilityVmAttachment) (session : option GuestSessionAttachment)
    : Result () :=
  reject_if (bool_decide (att_guest_session attachment ≠ session))
    (state_error Conflict "utility-vm-recover"
       "container {} has a different utility-VM guest-session binding than durable state").

(** [recover] of a container whose create was interrupted *)
Definition recover_creating (target : ContainerTarget) (record : ContainerRecord) : V DriverRecovery :=
  do! env (recovery_recover target record (cr_guest_session record));
  let! attachment := read_vm (λ v, uv_attachments v !! ct_id target) in
  match attachment with
  | None => ret recovery_none
  | Some attachment =>
      do! lift (check_generation attachment target);
      do! lift (check_binding attachment (cr_guest_session record));
      do! match attachment with
          | RecoveredStopped _ _ _ => change_vm (set_attachments (delete (ct_id target)))
          | Live _ => ret ()
          end;
      ret recovery_none
  end.
(** [recover] through a surviving machine *)
Definition recover_reattached (target : ContainerTarget) (record : ContainerRecord)
    (reattached : uve_service * nat) : V DriverRecovery :=
  let! guest := new_guest reattached in
  let! container := new_container target (cr_guest_session record) guest in
  let! attachment := read_vm (λ v, uv_attachments v !! ct_id target) in
  do! lift (from_option (λ a, check_generation a target) (Ok ()) attachment);
  match attachment with
  | Some (Live current) => observed (ctn_guest current) target record
  | _ => do! register_reattached container; observed guest target record
  end.
(** [recover] of anything else *)
Definition recover_attached (target : ContainerTarget) (record : ContainerRecord) : V DriverRecovery :=
  let session := cr_guest_session record in
  do! change_vm (set_attachments (λ attachments,
    match attachments !! ct_id target with
    | Some _ => attachments
    | None => <[ct_id target := RecoveredStopped target session None]> attachments
    end));
  let! attachment := read_vm (λ v, default (RecoveredStopped target session None)
                                     (uv_attachments v !! ct_id target)) in
  do! lift (check_generation attachment target);
  do! lift (check_binding attachment session);
  match attachment with
  | Live container => observed (ctn_guest container) target record
  | RecoveredStopped _ _ _ =>
      let! recovery := env (recovery_recover target record session) in
      do! change_vm (set_attachments (insert (ct_id target)
        (RecoveredStopped target session (rec_init_exit_status recovery))));
      ret recovery
  end.
Definition uv_recover (record : ContainerRecord) : V DriverRecovery :=
  do! enter_operation "utility-vm-recover" true;
  let! id := lift (validate_identifier (st_id (cr_state record))) in
  let target := mkContainerTarget id (Some (cr_generation record)) in
  do! lift (reject_if (negb (Bool.eqb (bool_decide (cr_isolation record = SharedGuestKernel))
                                      (bool_decide (is_Some (cr_guest_session record)))))
    (state_error FailedPrecondition "utility-vm-recover"
       "durable container {} has inconsistent shared-guest isolation evidence"));
  if bool_decide (st_status (cr_state record) = Creating) then recover_creating target record
  else
    let! reattached := env (try_reattach_live target record (cr_guest_session record)) in
    match reattached with
    | Some launched => recover_reattached target record launched
    | None => recover_attached target record
    end.

(** *** Shutdown *)

Definition stop_attachment (expected : nat) (a : UtilityVmAttachment) : UtilityVmAttachment :=
  match a with
  | Live c => if bool_decide (ctn_guest c = expected)
              then RecoveredStopped (ctn_target c) (ctn_guest_session c) None else a
  | RecoveredStopped _ _ _ => a
  end.
Definition member_of (expected : nat) (a : UtilityVmAttachment) : bool :=
  match a with Live c => bool_decide (ctn_guest c = expected) | RecoveredStopped _ _ _ => false end.
Definition replace_guest_with_stopped (expected : nat) : V (option (GuestSessionAttachment * bool)) := λ v,
  let had_members := existsb (member_of expected) (btree_values (uv_attachments v)) in
  let v := set_attachments (fmap (stop_attachment expected)) v in
  match find (λ e, bool_decide (rs_guest e.2 = expected)) (sort_by_key fst (map_to_list (uv_reusable v))) with
  | Some (id, session) => (Ok (Some (rs_attachment session, had_members)), set_reusable (delete id) v)
  | None => (Ok None, v)
  end.

(** What [shutdown] does when the task of one guest completes; the number of
    failures. *)
Definition complete_shutdown (g : nat) : V nat :=
  catch (shutdown_guest g) (λ r,
    match r with
    | Err _ => ret 1%nat
    | Ok _ =>
        let! reusable := replace_guest_with_stopped g in
        match reusable with
        | Some (attachment, false) =>
            catch (env (recovery_remove_session attachment)) (λ removed,
              catch (env (handoff_cleanup_empty_session attachment)) (λ cleaned,
                ret ((if is_ok removed then 0 else 1) + (if is_ok cleaned then 0 else 1))%nat))
        | _ => ret 0%nat
        end
    end).
Fixpoint complete_shutdowns (guests : list nat) : V nat :=
  match guests with
  | [] => ret 0%nat
  | g :: guests =>
      let! n := complete_shutdown g in
      let! m := complete_shutdowns guests in
      ret (n + m)%nat
  end.
(** [completions] is the order in which the tasks complete. *)
Definition uv_shutdown (completions : list nat → list nat) : V () :=
  do! change_vm set_closed;
  do! change_vm (set_pending (λ _, ∅));
  let! guests := read_vm live_guests in
  let! failures := complete_shutdowns (completions guests) in
  lift (reject_if (negb (Nat.eqb failures 0))
    (state_error Internal "shutdown-utility-vm-runtime-driver"
       "failed to shut down or clean {} utility VM session(s): {}")).

(** *** The calls of a driver *)

Inductive UvCall : Type :=
  | UvAcknowledge (operation_id : string)
  | UvPrepare (r : DriverCreateRequest)
  | UvCreate (r : DriverCreateRequest)
  | UvState (target : ContainerTarget)
  | UvStart (r : DriverStartRequest)
  | UvKill (r : DriverKillRequest)
  | UvDelete (r : DriverDeleteRequest)
  | UvWait (r : DriverWaitRequest)
  | UvExec (r : DriverExecRequest)
  | UvSignalProcess (r : DriverSignalProcessRequest)
  | UvWaitProcess (r : DriverWaitProcessRequest)
  | UvPause (r : DriverContainerOperationRequest)
  | UvResume (r : DriverContainerOperationRequest)
  | UvProcesses (target : ContainerTarget)
  | UvUpdate (r : DriverUpdateRequest)
  | UvStats (target : ContainerTarget)
  | UvReadOutput (r : DriverReadOutputRequest)
  | UvWriteStdin (r : DriverWriteStdinRequest)
  | UvCloseStdin (r : DriverCloseStdinRequest)
  | UvResize (r : DriverResizeRequest)
  | UvFile (r : FileRequest)
  | UvFilesystem (r : FilesystemRequest)
  | UvRecover (record : ContainerRecord)
  | UvShutdown (completions : list nat → list nat).

Definition forget {A} (m : V A) : V () := bind m (λ _, ret ()).
Definition uv_call (c : UvCall) : V () :=
  match c with
  | UvAcknowledge operation_id => uv_acknowledge_operation operation_id
  | UvPrepare r => forget (uv_prepare_create_bundle r)
  | UvCreate r => forget (uv_create r)
  | UvState target => forget (uv_state target)
  | UvStart r => forget (uv_start r)
  | UvKill r => forget (uv_kill r)
  | UvDelete r => uv_delete r
  | UvWait r => forget (uv_wait r)
  | UvExec r => forget (uv_exec r)
  | UvSignalProcess r => uv_signal_process r
  | UvWaitProcess r => forget (uv_wait_process r)
  | UvPause r => forget (uv_pause r)
  | UvResume r => forget (uv_resume r)
  | UvProcesses target => forget (uv_processes target)
  | UvUpdate r => forget (uv_update r)
  | UvStats target => forget (uv_stats target)
  | UvReadOutput r => forget (uv_read_output r)
  | UvWriteStdin r => uv_write_stdin r
  | UvCloseStdin r => uv_close_stdin r
  | UvResize r => uv_resize r
  | UvFile r => forget (uv_file r)
  | UvFilesystem r => forget (uv_filesystem r)
  | UvRecover record => forget (uv_recover record)
  | UvShutdown completions => uv_shutdown completions
  end.
(** A driver that was just made, and what a sequence of calls leaves of it,
    whether they succeed or fail. *)
Definition uv_fresh (e : uve) : UtilityVm := mkUtilityVm false ∅ ∅ ∅ ∅ 0 e.
Definition uv_history (calls : list UvCall) (v : UtilityVm) : UtilityVm :=
  foldl (λ v c, (uv_call c v).2) v calls.
End operations.

(** ** The registry owns every machine *)

Section invariant.
Context `{SE : StoreEnv} `{HE : HostEnv} `{UE : UtilityVmEnv} `{SH : !Sha256, AE : !AgentEnv}.
Variables (capability : DriverCapability) (attachment_capabilities : AttachmentCapabilities).
Variable scope : string.
Abbreviation V := (prog UtilityVm Error).

(** Which machines have been launched, and which of them run. *)
Context (launched running : uve → gset nat).
Definition calm {A} (m : prog uve Error A) : Prop := ∀ e,
  launched (m e).2 = launched e ∧ running (m e).2 ⊆ running e.

(** What the driver relies on: a launch that succeeds starts one new machine,
    a shutdown that succeeds stops its machine, nothing else starts one; no
    machine of an earlier driver is attached again; a session has room for a
    member. *)
Record environment_ok : Prop := {
  eo_launch : ∀ target share bundle path contract e,
    match factory_launch target share bundle path contract e with
    | (Ok (_, o), e') => (o ∉ launched e) ∧ launched e' = {[o]} ∪ launched e ∧
                         running e' ⊆ {[o]} ∪ running e
    | (Err _, e') => launched e' = launched e ∧ running e' ⊆ running e
    end;
  eo_shutdown : ∀ o, calm (owner_shutdown o);
  eo_stopped : ∀ o e e', owner_shutdown o e = (Ok (), e') → o ∉ running e';
  eo_prepare : ∀ r, calm (handoff_prepare r);
  eo_path : ∀ t d s, calm (handoff_guest_bundle_path t d s);
  eo_mount : ∀ t s, calm (handoff_mount_root t s);
  eo_cleanup : ∀ t s b, calm (handoff_cleanup t s b);
  eo_cleanup_empty : ∀ s, calm (handoff_cleanup_empty_session s);
  eo_recover : ∀ t r s, calm (recovery_recover t r s);
  eo_remove : ∀ t s, calm (recovery_remove t s);
  eo_remove_session : ∀ s, calm (recovery_remove_session s);
  eo_identity : ∀ s, calm (session_identity_root s);
  eo_reattach : ∀ t r s, calm (try_reattach_live t r s);
  eo_no_reattach : ∀ t r s e x e', try_reattach_live t r s e ≠ (Ok (Some x), e');
  eo_capacity : ∀ contract binding,
    attachments_guest_session contract = Some binding → 1 ≤ gs_capacity binding
}.
Context (EO : environment_ok).

(** A guest that the registry refers to. *)
Definition tracked (v : UtilityVm) (g : nat) : Prop :=
  (∃ id c, uv_attachments v !! id = Some (Live c) ∧ ctn_guest c = g) ∨
  (∃ sid s, uv_reusable v !! sid = Some s ∧ rs_guest s = g).
Definition owner_of (v : UtilityVm) (g : nat) : option nat := gu_owner <$> uv_guests v !! g.

(** The registry is coherent, and refers to every machine that runs except
    one that was launched this instant ([extra]). *)
Record registry_ok (extra : option nat) (v : UtilityVm) : Prop := {
  (** attachments are filed under their container, with an exact generation *)
  ro_key : ∀ id a, uv_attachments v !! id = Some a →
    ct_id (att_target a) = id ∧ is_Some (ct_generation (att_target a));
  (** a dedicated machine serves one container and no session *)
  ro_dedicated : ∀ id c, uv_attachments v !! id = Some (Live c) → ctn_guest_session c = None →
    (∀ id' c', uv_attachments v !! id' = Some (Live c') → ctn_guest c' = ctn_guest c → id' = id) ∧
    (∀ sid s, uv_reusable v !! sid = Some s → rs_guest s ≠ ctn_guest c);
  (** a container of a session is a member of it, in its incarnation and machine *)
  ro_member : ∀ id c b, uv_attachments v !! id = Some (Live c) → ctn_guest_session c = Some b →
    ∃ s, uv_reusable v !! gs_id b = Some s ∧ rs_attachment s = b ∧ rs_guest s = ctn_guest c ∧
         rs_members s !! id = ct_generation (ctn_target c);
  (** a session has no more members than its capacity, all of them attached *)
  ro_session : ∀ sid s, uv_reusable v !! sid = Some s →
    gs_id (rs_attachment s) = sid ∧ Z.of_nat (size (rs_members s)) ≤ gs_capacity (rs_attachment s) ∧
    ∀ id, is_Some (rs_members s !! id) →
      ∃ c, uv_attachments v !! id = Some (Live c) ∧ ctn_guest_session c = Some (rs_attachment s);
  (** sessions do not share a machine *)
  ro_sessions : ∀ sid s sid' s', uv_reusable v !! sid = Some s → uv_reusable v !! sid' = Some s' →
    rs_guest s = rs_guest s' → sid = sid';
  (** guests exist, and each has a machine of its own *)
  ro_guest : ∀ g, tracked v g ∨ extra = Some g → is_Some (owner_of v g);
  ro_fresh : ∀ g, is_Some (owner_of v g) → (g < uv_next v)%nat;
  ro_owner : ∀ g g' o, owner_of v g = Some o → owner_of v g' = Some o → g = g';
  ro_launched : ∀ g o, owner_of v g = Some o → o ∈ launched (uv_env v);
  (** the machine launched this instant is not referred to yet *)
  ro_extra : ∀ g, extra = Some g → ¬ tracked v g;
  (** no machine runs unnoticed *)
  ro_running : ∀ o, o ∈ running (uv_env v) →
    ∃ g, owner_of v g = Some o ∧ (tracked v g ∨ extra = Some g)
}.

(** *** Calls that leave the registry alone *)

Record quiet (v v' : UtilityVm) : Prop := {
  qu_attachments : uv_attachments v' = uv_attachments v;
  qu_reusable : uv_reusable v' = uv_reusable v;
  qu_owner : ∀ g, owner_of v' g = owner_of v g;
  qu_next : (uv_next v ≤ uv_next v')%nat;
  qu_launched : launched (uv_env v') = launched (uv_env v);
  qu_running : running (uv_env v') ⊆ running (uv_env v)
}.
#[global] Instance quiet_preorder : PreOrder quiet.
Proof.
  split.
  - by intros v.
  - intros v1 v2 v3 [? ? ? ? ? ?] [? ? ? ? ? ?]. split; try (etrans; eassumption); try lia.
    intros g. etrans; eauto.
Qed.
Lemma quiet_tracked v v' g : quiet v v' → tracked v' g ↔ tracked v g.
Proof. intros [Ha Hr _ _ _ _]. unfold tracked. by rewrite Ha, Hr. Qed.
Lemma quiet_ok extra v v' : quiet v v' → registry_ok extra v → registry_ok extra v'.
Proof.
  intros Hq [Hkey Hded Hmem Hses Hsess Hg Hf Ho Hl Hx Hrun].
  pose proof (λ g, quiet_tracked v v' g Hq) as Ht. destruct Hq as [Ha Hr Hown Hn Hla Hru].
  split; rewrite ?Ha, ?Hr; try done.
  - intros g. rewrite Ht, Hown. apply Hg.
  - intros g. rewrite Hown. intros ?%Hf. lia.
  - intros g g' o. rewrite !Hown. apply Ho.
  - intros g o. rewrite Hown, Hla. apply Hl.
  - intros g. rewrite Ht. apply Hx.
  - intros o Hin. destruct (Hrun o) as (g & Hgo & Htr); [set_solver|]. exists g. by rewrite Hown, Ht.
Qed.

Definition is_quiet {A} (m : V A) : Prop := ∀ v, quiet v (m v).2.
Create HintDb quiet.
Lemma quiet_bind {A B} (m : V A) (k : A → V B) : is_quiet m → (∀ a, is_quiet (k a)) → is_quiet (bind m k).
Proof.
  intros Hm Hk v. specialize (Hm v). unfold bind. destruct (m v) as [[a|e] v']; [|done].
  etrans; [exact Hm|apply Hk].
Qed.
Lemma quiet_catch {A B} (m : V A) (k : _ → V B) : is_quiet m → (∀ r, is_quiet (k r)) → is_quiet (catch m k).
Proof.
  intros Hm Hk v. specialize (Hm v). unfold catch. destruct (m v) as [r v']. etrans; [exact Hm|apply Hk].
Qed.
Lemma quiet_still {A} (m : V A) : (∀ v, (m v).2 = v) → is_quiet m.
Proof. intros Hm v. by rewrite Hm. Qed.
Lemma quiet_env {A} (m : prog uve Error A) : calm m → is_quiet (env m).
Proof.
  intros Hm v. unfold env. destruct (Hm (uv_env v)) as [Hl Hr]. destruct (m (uv_env v)) as [r e].
  by split.
Qed.
Lemma quiet_on_guest {A} g (m : prog (AgentDriverClient uve_service) Error A) : is_quiet (on_guest g m).
Proof.
  intros v. unfold on_guest. destruct (uv_guests v !! g) as [guest|] eqn:E; [|done].
  destruct (m (gu_client guest)) as [r c]. split; try done. intros g'. unfold owner_of. simpl.
  destruct (decide (g' = g)) as [->|]; [by rewrite lookup_insert_eq, E|by rewrite lookup_insert_ne].
Qed.
Lemma quiet_pending f : is_quiet (change_vm (set_pending f)).
Proof. by intros v. Qed.
Lemma quiet_new_container target session guest : is_quiet (new_container target session guest).
Proof. intros v. split; simpl; try done. lia. Qed.
Lemma quiet_shutdown g : is_quiet (shutdown_guest g).
Proof.
  intros v. unfold shutdown_guest. destruct (uv_guests v !! g); [|done].
  apply quiet_env, (eo_shutdown EO).
Qed.
Lemma quiet_for_each {X} (f : X → V ()) l : (∀ x, is_quiet (f x)) → is_quiet (for_each f l).
Proof. intros Hf. induction l; simpl; [by apply quiet_still|by apply quiet_bind]. Qed.

Ltac quiet_tac := repeat first
  [ assumption
  | progress intros
  | apply quiet_env; first [ apply (eo_prepare EO) | apply (eo_path EO) | apply (eo_mount EO)
      | apply (eo_cleanup EO) | apply (eo_cleanup_empty EO) | apply (eo_recover EO)
      | apply (eo_remove EO) | apply (eo_remove_session EO) | apply (eo_identity EO)
      | apply (eo_reattach EO) | apply (eo_shutdown EO) ]
  | apply quiet_on_guest | apply quiet_pending | apply quiet_shutdown | apply quiet_new_container
  | apply quiet_for_each
  | apply quiet_still; done
  | apply quiet_bind | apply quiet_catch
  | case_match ].

(** *** Registering a machine *)

Lemma launch_guest_ok target bundle path contract v :
  registry_ok None v →
  let '(r, v') := launch_guest target bundle path contract v in
  uv_attachments v' = uv_attachments v ∧ uv_reusable v' = uv_reusable v ∧
  registry_ok (match r with Ok g => Some g | Err _ => None end) v'.
Proof.
  intros Hv. unfold launch_guest, bind.
  pose proof (quiet_env _ (eo_mount EO target (attachments_guest_session contract)) v) as Hq.
  destruct (env _ v) as [[share|e] v1]; simpl in Hq.
  2:{ split_and!; [apply Hq|apply Hq|by eapply quiet_ok]. }
  assert (registry_ok None v1) as Hv1 by (by eapply quiet_ok). destruct Hq as [Ha Hr _ _ _ _].
  unfold lift. destruct (launch_request_validate share bundle path contract) as [[]|e]; [|done].
  unfold env. pose proof (eo_launch EO target share bundle path contract (uv_env v1)) as Hlaunch.
  destruct (factory_launch _ _ _ _ _ (uv_env v1)) as [[[service o]|e] e'].
  2:{ destruct Hlaunch as [Hle Hre]. split_and!; [done|done|]. eapply quiet_ok; [|exact Hv1]. by split. }
  destruct Hlaunch as (Hfresh & Hle & Hre). destruct Hv1 as [Hkey Hded Hmem Hses Hsess Hg Hf Hown Hla Hx Hrun].
  unfold new_guest. simpl. split_and!; [done|done|].
  set (g := uv_next v1). set (v' := mkUtilityVm _ _ _ _ _ _ _).
  assert (owner_of v1 g = None) as Hnone.
  { destruct (owner_of v1 g) eqn:E; [|done]. pose proof (Hf g) as Hlt. rewrite E in Hlt.
    specialize (Hlt ltac:(eauto)). subst g. lia. }
  assert (∀ g', owner_of v' g' = if decide (g' = g) then Some o else owner_of v1 g') as Hown'.
  { intros g'. unfold owner_of. simpl. fold g. case_decide; subst;
      [by rewrite lookup_insert_eq|by rewrite lookup_insert_ne]. }
  assert (∀ g', tracked v' g' ↔ tracked v1 g') as Htr by done.
  split; try done.
  - intros g'. rewrite Htr, Hown'. case_decide; [by eauto|]. intros [Ht|[= <-]]; [apply Hg; by left|done].
  - intros g'. rewrite Hown'. simpl. fold g. case_decide; [lia|]. intros ?%Hf. lia.
  - intros g1 g2 o'. rewrite !Hown'. repeat case_decide; subst; try done; [| |apply Hown].
    + intros [= <-] ?%Hla. done.
    + intros ?%Hla [= <-]. done.
  - intros g' o'. rewrite Hown'. simpl. rewrite Hle. case_decide; [intros [= <-]; set_solver|].
    intros ?%Hla. set_solver.
  - intros g' [= <-]. rewrite Htr. intros Ht. destruct (Hg g) as [x Hx']; [by left|]. congruence.
  - intros o' Hin. simpl in Hin. destruct (decide (o' = o)) as [->|].
    + exists g. rewrite Hown', decide_True by done. auto.
    + destruct (Hrun o') as (g' & Hgo & Ht); [set_solver|]. exists g'. rewrite Hown', Htr.
      rewrite decide_False by (intros ->; congruence). split; [done|]. left. naive_solver.
Qed.

Lemma tracked_live v id c : uv_attachments v !! id = Some (Live c) → tracked v (ctn_guest c).
Proof. intros Hc. left. eauto. Qed.
Lemma tracked_session v sid s : uv_reusable v !! sid = Some s → tracked v (rs_guest s).
Proof. intros Hs. right. eauto. Qed.

(** Filing a new container under an ID that is free. *)
Lemma tracked_insert v id c g :
  uv_attachments v !! id = None →
  tracked (set_attachments (insert id (Live c)) v) g ↔ tracked v g ∨ g = ctn_guest c.
Proof.
  intros Hid. unfold tracked. simpl. split.
  - intros [(id' & c' & [[<- [= <-]]|[Hne Hc']]%lookup_insert_Some & <-)|Hs]; eauto 6.
  - intros [[(id' & c' & Hc' & <-)|Hs]| ->]; [|by right|].
    + left. exists id', c'. split; [|done]. rewrite lookup_insert_ne; [done|congruence].
    + left. exists id, c. by rewrite lookup_insert_eq.
Qed.

(** A container with a machine of its own. *)
Lemma register_dedicated_ok v c :
  let id := ct_id (ctn_target c) in
  registry_ok (Some (ctn_guest c)) v → ctn_guest_session c = None →
  is_Some (ct_generation (ctn_target c)) → uv_attachments v !! id = None →
  registry_ok None (set_attachments (insert id (Live c)) v).
Proof.
  intros id [Hkey Hded Hmem Hses Hsess Hg Hf Hown Hla Hx Hrun] Hnone Hgen Hid.
  pose proof (λ g, tracked_insert v id c g Hid) as Ht. specialize (Hx _ eq_refl).
  split; simpl; try done.
  - intros id' a [[<- <-]|[_ Ha]]%lookup_insert_Some; [done|by apply Hkey].
  - intros id' c' [[<- [= <-]]|[Hne Hc']]%lookup_insert_Some Hs; split.
    + intros id2 c2 [[<- _]|[_ Hc2]]%lookup_insert_Some Heq; [done|].
      destruct Hx. rewrite <- Heq. by eapply tracked_live.
    + intros sid s Hs' Heq. destruct Hx. rewrite <- Heq. by eapply tracked_session.
    + intros id2 c2 [[<- [= <-]]|[_ Hc2]]%lookup_insert_Some Heq.
      * destruct Hx. rewrite Heq. by eapply tracked_live.
      * by eapply (proj1 (Hded _ _ Hc' Hs)).
    + by apply (Hded _ _ Hc' Hs).
  - intros id' c' b [[<- [= <-]]|[_ Hc']]%lookup_insert_Some Hb; [congruence|by eapply Hmem].
  - intros sid s Hs. destruct (Hses _ _ Hs) as (Hsid & Hcap & Hm). split_and!; [done|done|].
    intros id' (c' & Hc' & Hb)%Hm. exists c'. rewrite lookup_insert_ne; [done|congruence].
  - intros g [[Hg'| ->]%Ht|?]; [apply Hg; by left|apply Hg; by right|done].
  - intros o (g & Ho & [Htr|[= <-]])%Hrun; exists g || eexists; (split; [exact Ho|]); left; apply Ht; auto.
Qed.

(** The first member of a session. *)
Lemma register_session_ok v c b generation :
  let id := ct_id (ctn_target c) in
  registry_ok (Some (ctn_guest c)) v → ctn_guest_session c = Some b →
  ct_generation (ctn_target c) = Some generation → uv_attachments v !! id = None →
  1 ≤ gs_capacity b → uv_reusable v !! gs_id b = None →
  registry_ok None (set_attachments (insert id (Live c))
    (set_reusable (insert (gs_id b) (reusable_new b (ctn_guest c) (ctn_target c) generation)) v)).
Proof.
  intros id [Hkey Hded Hmem Hses Hsess Hg Hf Hown Hla Hx Hrun] Hb Hgen Hid Hcap Hfree.
  set (s0 := reusable_new b (ctn_guest c) (ctn_target c) generation). specialize (Hx _ eq_refl).
  set (v1 := set_reusable (insert (gs_id b) s0) v).
  assert (∀ g, tracked (set_attachments (insert id (Live c)) v1) g ↔ tracked v g ∨ g = ctn_guest c) as Ht.
  { intros g. rewrite tracked_insert by done. unfold tracked. simpl. split.
    - intros [[?|(sid & s & [[<- <-]|[_ Hs]]%lookup_insert_Some & <-)]| ->]; eauto 7.
    - intros [[?|(sid & s & Hs & <-)]| ->]; [by left; left| |by right].
      left. right. exists sid, s. split; [|done]. rewrite lookup_insert_ne; [done|congruence]. }
  assert (∀ sid s, uv_reusable v !! sid = Some s → uv_reusable v1 !! sid = Some s) as Hold.
  { intros sid s Hs. simpl. rewrite lookup_insert_ne; [done|congruence]. }
  split; simpl; try done.
  - intros id' a [[<- <-]|[_ Ha]]%lookup_insert_Some; [split; [done|]; simpl; eauto|by apply Hkey].
  - intros id' c' [[<- [= <-]]|[Hne Hc']]%lookup_insert_Some Hs; [congruence|]. split.
    + intros id2 c2 [[<- [= <-]]|[_ Hc2]]%lookup_insert_Some Heq.
      * destruct Hx. rewrite Heq. by apply (tracked_live v id').
      * by eapply (proj1 (Hded _ _ Hc' Hs)).
    + intros sid s [[<- <-]|[_ Hs']]%lookup_insert_Some; [|by eapply (proj2 (Hded _ _ Hc' Hs))].
      simpl. intros Heq. destruct Hx. rewrite Heq. by apply (tracked_live v id').
  - intros id' c' b' [[<- [= <-]]|[_ Hc']]%lookup_insert_Some Hb'.
    + assert (b' = b) as -> by congruence. exists s0. rewrite lookup_insert_eq.
      split_and!; [done|done|done|]. unfold s0, reusable_new. simpl. by rewrite lookup_singleton_eq.
    + destruct (Hmem _ _ _ Hc' Hb') as (s & Hs & Hrest). exists s. split; [by apply Hold|done].
  - intros sid s [[<- <-]|[_ Hs]]%lookup_insert_Some.
    + simpl. rewrite map_size_singleton. split_and!; [done|lia|].
      intros id' [x [<- _]%lookup_singleton_Some]. exists c. by rewrite lookup_insert_eq.
    + destruct (Hses _ _ Hs) as (Hsid & Hcap' & Hm). split_and!; [done|done|].
      intros id' (c' & Hc' & Hb')%Hm. exists c'. rewrite lookup_insert_ne; [done|congruence].
  - intros sid s sid' s' [[<- <-]|[_ Hs]]%lookup_insert_Some [[<- <-]|[_ Hs']]%lookup_insert_Some; simpl.
    + done.
    + intros Heq. destruct Hx. rewrite Heq. by eapply tracked_session.
    + intros Heq. destruct Hx. rewrite <- Heq. by eapply tracked_session.
    + by eapply Hsess.
  - intros g [[Hg'| ->]%Ht|?]; [apply Hg; by left|apply Hg; by right|done].
  - intros o (g & Ho & [Htr|[= <-]])%Hrun; exists g || eexists; (split; [exact Ho|]); left; apply Ht; auto.
Qed.

(** A further member of a session. *)
Lemma register_member_ok v c b s generation :
  let id := ct_id (ctn_target c) in
  registry_ok None v → ctn_guest_session c = Some b →
  ct_generation (ctn_target c) = Some generation → uv_attachments v !! id = None →
  uv_reusable v !! gs_id b = Some s → rs_attachment s = b → rs_guest s = ctn_guest c →
  Z.of_nat (size (rs_members s)) < gs_capacity b →
  registry_ok None (set_attachments (insert id (Live c))
    (set_reusable (insert (gs_id b)
       (mkReusable (rs_attachment s) (rs_guest s) (<[id := generation]> (rs_members s)))) v)).
Proof.
  intros id [Hkey Hded Hmem Hses Hsess Hg Hf Hown Hla Hx Hrun] Hb Hgen Hid Hs Hsb Hsg Hcap.
  set (s1 := mkReusable _ _ _). set (v1 := set_reusable (insert (gs_id b) s1) v).
  assert (∀ g, tracked (set_attachments (insert id (Live c)) v1) g ↔ tracked v g) as Ht.
  { intros g. rewrite tracked_insert by done. unfold tracked. simpl. split.
    - intros [[?|(sid & s' & [[<- <-]|[_ Hs']]%lookup_insert_Some & <-)]| ->]; eauto 7.
    - intros [?|(sid & s' & Hs' & <-)]; [by left; left|]. left. right.
      destruct (decide (sid = gs_id b)) as [->|]; [exists (gs_id b), s1|exists sid, s'];
        rewrite ?lookup_insert_eq, ?lookup_insert_ne by done; [|done]. split; [done|]. simpl. congruence. }
  destruct (Hses _ _ Hs) as (_ & _ & Hms).
  assert (rs_members s !! id = None) as Hnm.
  { destruct (rs_members s !! id) as [x|] eqn:E; [|done]. destruct (Hms id) as (c' & Hc' & _); [eauto|]. congruence. }
  split; simpl; try done.
  - intros id' a [[<- <-]|[_ Ha]]%lookup_insert_Some; [split; [done|]; simpl; eauto|by apply Hkey].
  - intros id' c' [[<- [= <-]]|[Hne Hc']]%lookup_insert_Some Hn; [congruence|]. split.
    + intros id2 c2 [[<- [= <-]]|[_ Hc2]]%lookup_insert_Some Heq; [|by eapply (proj1 (Hded _ _ Hc' Hn))].
      destruct (proj2 (Hded _ _ Hc' Hn) _ _ Hs). congruence.
    + intros sid s' [[<- <-]|[_ Hs']]%lookup_insert_Some; [|by eapply (proj2 (Hded _ _ Hc' Hn))].
      simpl. by eapply (proj2 (Hded _ _ Hc' Hn)).
  - intros id' c' b' [[<- [= <-]]|[Hne Hc']]%lookup_insert_Some Hb'.
    + assert (b' = b) as -> by congruence. exists s1. rewrite lookup_insert_eq.
      split_and!; [done|done|done|]. unfold s1. simpl. by rewrite lookup_insert_eq.
    + destruct (Hmem _ _ _ Hc' Hb') as (s' & Hs' & Hsb' & Hsg' & Hm).
      destruct (decide (gs_id b' = gs_id b)) as [Heq|].
      * rewrite Heq in *. assert (s' = s) as -> by congruence. exists s1. rewrite lookup_insert_eq.
        split_and!; [done|by unfold s1; simpl; congruence|done|]. unfold s1. simpl.
        by rewrite lookup_insert_ne.
      * exists s'. by rewrite lookup_insert_ne.
  - intros sid s' [[<- <-]|[Hne Hs']]%lookup_insert_Some; simpl.
    + rewrite map_size_insert_None by done. split_and!; [congruence|rewrite Hsb; lia|].
      intros id' [x [[<- _]|[Hid' Hx']]%lookup_insert_Some].
      * exists c. rewrite lookup_insert_eq. split; [done|congruence].
      * destruct (Hms id') as (c' & Hc' & Hb'); [eauto|]. exists c'. by rewrite lookup_insert_ne.
    + destruct (Hses _ _ Hs') as (Hsid & Hcap' & Hm). split_and!; [done|done|].
      intros id' (c' & Hc' & Hb')%Hm. exists c'. rewrite lookup_insert_ne; [done|congruence].
  - intros sid s2 sid' s3 [[<- <-]|[_ H2]]%lookup_insert_Some [[<- <-]|[_ H3]]%lookup_insert_Some; simpl;
      [done|by eapply (Hsess _ s)|by intros; eapply (Hsess _ s2 _ s)|by eapply Hsess].
  - intros g [Hg'%Ht|?]; [apply Hg; by left|done].
  - intros o (g & Ho & [Htr|?])%Hrun; [|done]. exists g. rewrite Ht. auto.
Qed.

(** *** Taking a container out *)

Definition machine_stopped (v : UtilityVm) (g : nat) : Prop :=
  ∀ o, owner_of v g = Some o → o ∉ running (uv_env v).

Definition detached (id : string) (c : UtilityVmContainer) (new : option UtilityVmAttachment)
    (remove : bool) (v : UtilityVm) : UtilityVm :=
  set_reusable (λ reusable,
    match ctn_guest_session c with
    | None => reusable
    | Some b => if remove then delete (gs_id b) reusable else alter (drop_member id) (gs_id b) reusable
    end) (set_attachments (partial_alter (λ _, new) id) v).

Lemma detached_session id c new remove v sid s' :
  uv_reusable (detached id c new remove v) !! sid = Some s' →
  ∃ s, uv_reusable v !! sid = Some s ∧ rs_guest s' = rs_guest s ∧ rs_attachment s' = rs_attachment s ∧
    (s' = s ∧ (∀ b, ctn_guest_session c = Some b → sid ≠ gs_id b) ∨
     s' = drop_member id s ∧ remove = false ∧ ∃ b, ctn_guest_session c = Some b ∧ sid = gs_id b).
Proof.
  simpl. destruct (ctn_guest_session c) as [b|]; [|intros Hs; exists s'; naive_solver].
  destruct remove.
  - intros [Hne Hs]%lookup_delete_Some. exists s'. naive_solver.
  - destruct (decide (sid = gs_id b)) as [->|Hne].
    + rewrite lookup_alter_eq. intros (s & Hs & ->)%fmap_Some. exists s. naive_solver.
    + rewrite lookup_alter_ne by done. exists s'. naive_solver.
Qed.

Lemma map_size_one {A} (m : gmap string A) i j :
  size m = 1%nat → is_Some (m !! i) → is_Some (m !! j) → i = j.
Proof.
  intros Hm Hi [x Hj]. destruct (decide (i = j)) as [|Hne]; [done|]. exfalso.
  eapply (map_size_ne_0_lookup_2 (delete i m) j); [rewrite lookup_delete_ne; eauto|].
  rewrite map_size_delete_Some by done. by rewrite Hm.
Qed.
Lemma map_size_delete_le {A} (m : gmap string A) i : (size (delete i m) ≤ size m)%nat.
Proof. rewrite map_size_delete. destruct (m !! i); simpl; lia. Qed.

Lemma detach_ok v id c new remove :
  registry_ok None v → uv_attachments v !! id = Some (Live c) →
  new = None ∨ (∃ status, new = Some (RecoveredStopped (ctn_target c) (ctn_guest_session c) status)) →
  (ctn_guest_session c = None → remove = true) →
  (∀ b s, remove = true → ctn_guest_session c = Some b → uv_reusable v !! gs_id b = Some s →
     size (rs_members s) = 1%nat) →
  (remove = true → machine_stopped v (ctn_guest c)) →
  registry_ok None (detached id c new remove v).
Proof.
  intros [Hkey Hded Hmem Hses Hsess Hg Hf Hown Hla Hx Hrun] Hc Hnew Hnone Hone Hstop.
  pose proof (detached_session id c new remove v) as Hsub.
  assert (∀ id' c', uv_attachments (detached id c new remove v) !! id' = Some (Live c') →
            id' ≠ id ∧ uv_attachments v !! id' = Some (Live c')) as Hlive.
  { intros id' c'. simpl. destruct (decide (id' = id)) as [->|];
      [rewrite lookup_partial_alter_eq; naive_solver|by rewrite lookup_partial_alter_ne]. }
  assert (∀ id' c', id' ≠ id → uv_attachments v !! id' = Some (Live c') →
            uv_attachments (detached id c new remove v) !! id' = Some (Live c')) as Hlive'.
  { intros id' c' Hne Hc'. simpl. by rewrite lookup_partial_alter_ne. }
  assert (∀ g, tracked (detached id c new remove v) g → tracked v g) as Ht.
  { intros g [(id' & c' & [_ Hc']%Hlive & <-)|(sid & s' & (s & Hs & Heq & _)%Hsub & <-)];
      [by eapply tracked_live|rewrite Heq; by eapply tracked_session]. }
  split; try done.
  - intros id' a. simpl. destruct (decide (id' = id)) as [->|];
      [rewrite lookup_partial_alter_eq|rewrite lookup_partial_alter_ne by done; apply Hkey].
    destruct Hnew as [->|[status ->]]; [done|]. intros [= <-]. apply (Hkey _ _ Hc).
  - intros id' c' [Hne Hc']%Hlive Hs. destruct (Hded _ _ Hc' Hs) as [H1 H2]. split.
    + intros id2 c2 [_ Hc2]%Hlive. by apply H1.
    + intros sid s' (s2 & Hs2 & -> & _)%Hsub. by eapply H2.
  - intros id' c' b' [Hne Hc']%Hlive Hb'. destruct (Hmem _ _ _ Hc' Hb') as (s & Hs & Hsb & Hsg & Hm).
    simpl. destruct (ctn_guest_session c) as [b|] eqn:Hb; [|by eauto].
    destruct (Hmem _ _ _ Hc Hb) as (s2 & Hs2 & Hsb2 & Hsg2 & Hm2).
    destruct (decide (gs_id b' = gs_id b)) as [Heq|Hneq].
    2:{ exists s. destruct remove; [rewrite lookup_delete_ne|rewrite lookup_alter_ne]; by auto. }
    rewrite Heq in *. assert (s2 = s) as -> by congruence. destruct remove.
    + exfalso. specialize (Hone b s eq_refl eq_refl Hs). apply Hne. eapply map_size_one; [exact Hone| |];
        [rewrite Hm; apply (Hkey _ _ Hc')|rewrite Hm2; apply (Hkey _ _ Hc)].
    + exists (drop_member id s). rewrite lookup_alter_eq, Hs. split_and!; [done|done|done|].
      simpl. by rewrite lookup_delete_ne.
  - intros sid s' (s & Hs & _ & Hatt & Hcase)%Hsub. destruct (Hses _ _ Hs) as (Hsid & Hcap & Hms).
    rewrite Hatt. split_and!; [done| |].
    + destruct Hcase as [[-> _]|(-> & _ & _)]; [done|]. simpl.
      pose proof (map_size_delete_le (rs_members s) id). lia.
    + intros id' Hid'. assert (is_Some (rs_members s !! id') ∧ id' ≠ id) as [Hin Hne].
      { destruct Hcase as [[-> Hno]|(-> & _ & _)].
        - split; [done|]. intros ->. destruct (Hms _ Hid') as (c' & Hc' & Hb'). simplify_eq.
          by destruct (Hno _ Hb').
        - destruct Hid' as [x Hx']. simpl in Hx'. apply lookup_delete_Some in Hx' as [Hne Hx'].
          split; [by eexists|done]. }
      destruct (Hms _ Hin) as (c' & Hc' & Hb'). exists c'. auto.
  - intros sid s1 sid' s2 (t1 & Ht1 & -> & _)%Hsub (t2 & Ht2 & -> & _)%Hsub. by eapply Hsess.
  - intros g [Hg'%Ht|?]; [apply Hg; by left|done].
  - intros o Hin. destruct (Hrun o Hin) as (g & Ho & [Htr|?]); [|done]. exists g. split; [done|]. left.
    assert (remove = true → g ≠ ctn_guest c) as Hnot.
    { intros Hrem ->. by apply (Hstop Hrem o). }
    assert (∀ b s, ctn_guest_session c = Some b → uv_reusable v !! gs_id b = Some s →
              rs_guest s = g → remove = true → False) as Hses'.
    { intros b s Hb Hs <- Hrem. destruct (Hmem _ _ _ Hc Hb) as (s2 & Hs2 & _ & Hsg & _).
      apply (Hnot Hrem). congruence. }
    assert (∀ sid s, uv_reusable v !! sid = Some s → rs_guest s = g →
              tracked (detached id c new remove v) g) as Hkeep.
    { intros sid s Hs Hsg. right. simpl. destruct (ctn_guest_session c) as [b|] eqn:Hb; [|by eauto].
      destruct (decide (sid = gs_id b)) as [->|Hne].
      - destruct remove; [by destruct (Hses' b s)|]. exists (gs_id b), (drop_member id s).
        by rewrite lookup_alter_eq, Hs.
      - exists sid, s. destruct remove; [rewrite lookup_delete_ne|rewrite lookup_alter_ne]; auto. }
    destruct Htr as [(id' & c' & Hc' & Heq)|(sid & s & Hs & Heq)]; [|by eapply Hkeep].
    destruct (decide (id' = id)) as [->|Hne]; [|left; eauto]. assert (c' = c) as -> by congruence.
    destruct (ctn_guest_session c) as [b|] eqn:Hb; [|by destruct (Hnot (Hnone eq_refl))].
    destruct (Hmem _ _ _ Hc Hb) as (s & Hs & _ & Hsg & _). eapply Hkeep; [exact Hs|congruence].
Qed.

(** *** The calls *)

Definition safe {A} (m : V A) : Prop := ∀ v, registry_ok None v → registry_ok None (m v).2.
Lemma safe_quiet {A} (m : V A) : is_quiet m → safe m.
Proof. intros Hm v. by apply quiet_ok. Qed.
Lemma safe_bind {A B} (m : V A) (k : A → V B) : safe m → (∀ a, safe (k a)) → safe (bind m k).
Proof.
  intros Hm Hk v Hv. specialize (Hm v Hv). unfold bind. destruct (m v) as [[a|e] v']; [by apply Hk|done].
Qed.
Lemma safe_catch {A B} (m : V A) (k : _ → V B) : safe m → (∀ r, safe (k r)) → safe (catch m k).
Proof. intros Hm Hk v Hv. specialize (Hm v Hv). unfold catch. destruct (m v). by apply Hk. Qed.

Lemma shutdown_stops g v v' : shutdown_guest g v = (Ok (), v') → quiet v v' ∧ machine_stopped v' g.
Proof.
  intros Hs. pose proof (quiet_shutdown g v) as Hq. rewrite Hs in Hq. simpl in Hq. split; [done|].
  unfold shutdown_guest in Hs. destruct (uv_guests v !! g) as [u|] eqn:Hu; [|done].
  unfold env in Hs. destruct (owner_shutdown (gu_owner u) (uv_env v)) as [r e] eqn:He.
  simplify_eq. intros o Ho. rewrite (qu_owner _ _ Hq) in Ho. unfold owner_of in Ho.
  rewrite Hu in Ho. simplify_eq/=. by eapply (eo_stopped EO).
Qed.
Lemma machine_stopped_quiet v v' g : quiet v v' → machine_stopped v g → machine_stopped v' g.
Proof.
  intros [_ _ Ho _ _ Hr] Hs o. rewrite Ho. intros Ho'%Hs Hin. apply Ho'. set_solver.
Qed.

Lemma drop_session_ok v sid s :
  registry_ok None v → uv_reusable v !! sid = Some s → rs_members s = ∅ →
  machine_stopped v (rs_guest s) → registry_ok None (set_reusable (delete sid) v).
Proof.
  intros [Hkey Hded Hmem Hses Hsess Hg Hf Hown Hla Hx Hrun] Hs Hempty Hstop.
  assert (∀ g, tracked (set_reusable (delete sid) v) g → tracked v g) as Ht.
  { intros g. unfold tracked. simpl.
    intros [?|(sid' & s' & [_ Hs']%lookup_delete_Some & <-)]; [by left|right; eauto]. }
  split; simpl; try done.
  - intros id c Hc Hn. destruct (Hded _ _ Hc Hn) as [H1 H2]. split; [done|].
    intros sid' s' [_ Hs']%lookup_delete_Some. by eapply H2.
  - intros id c b Hc Hb. destruct (Hmem _ _ _ Hc Hb) as (s' & Hs' & Hsb & Hsg & Hm). exists s'.
    rewrite lookup_delete_ne; [done|]. intros Heq. assert (s' = s) as -> by congruence.
    rewrite Hempty, lookup_empty in Hm. destruct (Hkey _ _ Hc) as [_ [x Hx']]. simpl in Hx'. congruence.
  - intros sid' s' [_ Hs']%lookup_delete_Some. by apply Hses.
  - intros sid1 s1 sid2 s2 [_ H1]%lookup_delete_Some [_ H2]%lookup_delete_Some. by eapply Hsess.
  - intros g [Hg'%Ht|?]; [apply Hg; by left|done].
  - intros o Hin. destruct (Hrun o Hin) as (g & Ho & [Htr|?]); [|done]. exists g. split; [done|]. left.
    destruct Htr as [?|(sid' & s' & Hs' & Heq)]; [by left|]. right. exists sid', s'. split; [|done].
    simpl. rewrite lookup_delete_ne; [done|]. intros <-. assert (s' = s) as -> by congruence.
    subst g. by apply (Hstop o).
Qed.

Lemma rotate_session_ok binding retained v :
  registry_ok None v → uv_reusable v !! gs_id binding = Some retained → rs_members retained = ∅ →
  let '(r, v') := rotate_session binding retained v in
  registry_ok None v' ∧
  (r = Ok () → uv_attachments v' = uv_attachments v ∧ uv_reusable v' !! gs_id binding = None).
Proof.
  intros Hv Hret Hempty. unfold rotate_session. unfold bind at 1.
  destruct (shutdown_guest (rs_guest retained) v) as [[[]|e] v1] eqn:E1.
  2:{ split; [|done]. pose proof (quiet_shutdown (rs_guest retained) v) as Hq. rewrite E1 in Hq.
      by eapply quiet_ok. }
  apply shutdown_stops in E1 as [Hq1 Hstop].
  set (rest := bind _ _). assert (is_quiet (bind (env (recovery_remove_session (rs_attachment retained)))
    (λ _, env (handoff_cleanup_empty_session (rs_attachment retained))))) as Hq2 by quiet_tac.
  specialize (Hq2 v1). subst rest. unfold bind in *.
  destruct (env (recovery_remove_session _) v1) as [[[]|e] v2].
  2:{ split; [|done]. eapply quiet_ok; [|exact Hv]. by etrans. }
  destruct (env (handoff_cleanup_empty_session _) v2) as [[[]|e] v3].
  2:{ split; [|done]. eapply quiet_ok; [|exact Hv]. by etrans. }
  simpl in Hq2. assert (quiet v v3) as Hq by (by etrans).
  unfold read_vm. rewrite (qu_reusable _ _ Hq), Hret. simpl.
  rewrite !bool_decide_true by done. simpl. split.
  - eapply drop_session_ok; [by eapply quiet_ok|by rewrite (qu_reusable _ _ Hq)|done|].
    exact (machine_stopped_quiet _ _ _ Hq2 Hstop).
  - intros _. simpl. rewrite (qu_attachments _ _ Hq), (qu_reusable _ _ Hq), lookup_delete_eq. done.
Qed.

(** A container that was attached by a call. *)
Definition attached (c : UtilityVmContainer) (target : ContainerTarget) (v : UtilityVm) : Prop :=
  ctn_target c = target ∧ uv_attachments v !! ct_id target = Some (Live c).
Definition admits (target : ContainerTarget) (m : V UtilityVmContainer) (v : UtilityVm) : Prop :=
  let '(r, v') := m v in
  registry_ok None v' ∧ match r with Ok c => attached c target v' | Err _ => True end.

Lemma admits_dedicated target bundle path contract v generation :
  attachments_guest_session contract = None → ct_generation target = Some generation →
  registry_ok None v → uv_attachments v !! ct_id target = None →
  admits target (admit_new_container target bundle path contract) v.
Proof.
  intros Hs Hgen Hv Hfree. unfold admits, admit_new_container. rewrite Hs. unfold bind at 1.
  pose proof (launch_guest_ok target bundle path contract v Hv) as Hl.
  destruct (launch_guest target bundle path contract v) as [[g|e] v1]; [|naive_solver].
  destruct Hl as (Ha & Hr & Hv1). unfold bind, new_container, change_vm, ret.
  set (c := mkContainer _ _ _ _). set (v2 := mkUtilityVm _ _ _ _ _ _ _). split.
  - apply (register_dedicated_ok v2 c); [|done|by eexists|simpl; congruence].
    eapply quiet_ok; [|exact Hv1]. apply (quiet_new_container target None g v1).
  - split; [done|]. simpl. by rewrite lookup_insert_eq.
Qed.
Lemma admits_session target binding generation bundle path contract v :
  registry_ok None v → ct_generation target = Some generation →
  uv_attachments v !! ct_id target = None → uv_reusable v !! gs_id binding = None →
  1 ≤ gs_capacity binding →
  admits target (launch_session target binding generation bundle path contract) v.
Proof.
  intros Hv Hgen Hfree Hnew Hcap. unfold admits, launch_session. unfold bind at 1.
  pose proof (launch_guest_ok target bundle path contract v Hv) as Hl.
  destruct (launch_guest target bundle path contract v) as [[g|e] v1]; [|naive_solver].
  destruct Hl as (Ha & Hr & Hv1). unfold bind, new_container, change_vm, ret.
  set (c := mkContainer _ _ _ _). set (v2 := mkUtilityVm _ _ _ _ _ _ _). split.
  - apply (register_session_ok v2 c binding generation); [|done|done|simpl; congruence|done|simpl; congruence].
    eapply quiet_ok; [|exact Hv1]. apply (quiet_new_container target (Some binding) g v1).
  - split; [done|]. simpl. by rewrite lookup_insert_eq.
Qed.
Lemma admits_member target binding g v generation :
  registry_ok None v → ct_generation target = Some generation →
  uv_attachments v !! ct_id target = None →
  admits target (attach_reusable_member target binding g) v.
Proof.
  intros Hv Hgen Hfree. unfold admits, attach_reusable_member, require_exact_generation.
  rewrite Hgen. unfold lift, bind, read_vm. simpl ok_or.
  destruct (uv_reusable v !! gs_id binding) as [s|] eqn:Hs; [|done]. cbn [ok_or].
  destruct (reject_if _ _) as [[]|?] eqn:E1; [apply reject_if_ok, bool_decide_eq_false, dec_stable in E1|done].
  destruct (reject_if _ _) as [[]|?] eqn:E2; [apply reject_if_ok, bool_decide_eq_false, dec_stable in E2|done].
  destruct (reject_if _ _) as [[]|?] eqn:E3; [apply reject_if_ok, Z.leb_gt in E3|done].
  destruct (reject_if _ _) as [[]|?] eqn:E4; [|done].
  unfold change_vm, new_container, ret.
  set (c := mkContainer _ _ _ _). pose (v1 := (new_container target None g v).2). split.
  - apply (register_member_ok v1 c binding s generation); try done.
    eapply quiet_ok; [|exact Hv]. apply (quiet_new_container target None g v).
  - split; [done|]. simpl. by rewrite lookup_insert_eq.
Qed.

Lemma preflight_quiet target binding : is_quiet (preflight_session_admission target binding).
Proof. unfold preflight_session_admission. quiet_tac. Qed.

Lemma admit_ok target bundle path contract v generation :
  ct_generation target = Some generation → registry_ok None v →
  uv_attachments v !! ct_id target = None →
  admits target (admit_new_container target bundle path contract) v.
Proof.
  intros Hgen Hv Hfree. destruct (attachments_guest_session contract) as [binding|] eqn:Hb;
    [|by eapply admits_dedicated].
  pose proof (eo_capacity EO _ _ Hb) as Hcap.
  unfold admits, admit_new_container, require_exact_generation. rewrite Hb, Hgen.
  unfold lift, ok_or. unfold bind at 1. unfold bind at 1.
  pose proof (preflight_quiet target binding v) as Hq.
  destruct (preflight_session_admission target binding v) as [[[]|e] v1]; simpl in Hq;
    [|split; [by eapply quiet_ok|done]].
  assert (registry_ok None v1) as Hv1 by (by eapply quiet_ok).
  assert (uv_attachments v1 !! ct_id target = None) as Hfree1 by (by rewrite (qu_attachments _ _ Hq)).
  unfold bind at 1, read_vm. destruct (uv_reusable v1 !! gs_id binding) as [s|] eqn:Hs;
    [|by apply admits_session].
  case_bool_decide; [destruct (_ <=? _); [done|by eapply admits_member]|].
  destruct (_ <=? _); [done|].
  destruct (Z.eqb_spec (Z.of_nat (size (rs_members s))) 0) as [Hz|]; [|done]. cbn [negb].
  assert (rs_members s = ∅) as Hempty by (apply map_size_empty_inv; lia).
  pose proof (rotate_session_ok binding s v1 Hv1 Hs Hempty) as Hrot. unfold bind at 1.
  destruct (rotate_session binding s v1) as [[[]|e] v2]; [|by destruct Hrot].
  destruct Hrot as [Hv2 Hok]. destruct (Hok eq_refl) as [Ha2 Hr2].
  apply admits_session; [done|done|by rewrite Ha2|done|done].
Qed.

Lemma insert_is_alter {A} (m : gmap string A) i x f :
  m !! i = Some x → <[i := f x]> m = alter f i m.
Proof.
  intros Hx. apply map_eq. intros j. destruct (decide (j = i)) as [->|].
  - by rewrite lookup_insert_eq, lookup_alter_eq, Hx.
  - by rewrite lookup_insert_ne, lookup_alter_ne.
Qed.

Lemma forget_container_detaches v c remove :
  registry_ok None v → attached c (ctn_target c) v →
  forget_container c remove v = detached (ct_id (ctn_target c)) c None remove v.
Proof.
  intros Hv [_ Hc]. unfold forget_container, detached, set_attachments, set_reusable, still_attached.
  simpl. rewrite Hc, bool_decide_true by done.
  destruct (ctn_guest_session c) as [b|] eqn:Hb; [|by destruct v].
  destruct (ro_member _ _ Hv _ _ _ Hc Hb) as (s & Hs & Hsb & Hsg & _).
  rewrite Hs, !bool_decide_true by done. simpl. destruct remove; f_equal.
  - by rewrite delete_insert_eq.
  - by apply insert_is_alter.
Qed.
Lemma stop_container_detaches v c remove :
  registry_ok None v → attached c (ctn_target c) v →
  stop_container (ctn_target c) c remove v =
  detached (ct_id (ctn_target c)) c
    (Some (RecoveredStopped (ctn_target c) (ctn_guest_session c) None)) remove v.
Proof.
  intros Hv [_ Hc]. unfold stop_container, detached, set_attachments, set_reusable.
  simpl. rewrite Hc, bool_decide_true by done.
  destruct (ctn_guest_session c) as [b|] eqn:Hb; [|by destruct v].
  destruct (ro_member _ _ Hv _ _ _ Hc Hb) as (s & Hs & Hsb & Hsg & _).
  rewrite Hs. simpl. destruct remove; f_equal.
  - by rewrite delete_insert_eq.
  - by apply insert_is_alter.
Qed.

(** When a container may be taken out with its machine. *)
Definition removable (c : UtilityVmContainer) (remove : bool) (v : UtilityVm) : Prop :=
  (ctn_guest_session c = None → remove = true) ∧
  (∀ b s, remove = true → ctn_guest_session c = Some b → uv_reusable v !! gs_id b = Some s →
     size (rs_members s) = 1%nat).
Lemma removable_quiet c remove v v' : quiet v v' → removable c remove v → removable c remove v'.
Proof. intros [_ Hr _ _ _ _] [H1 H2]. split; [done|]. by rewrite Hr. Qed.
Lemma attached_quiet c target v v' : quiet v v' → attached c target v → attached c target v'.
Proof. intros [Ha _ _ _ _ _] [H1 H2]. split; [done|]. by rewrite Ha. Qed.

(** Reaping the machine if it goes too, and then taking the container out. *)
Lemma reap_and_detach_ok {A} c (remove : bool) (change : UtilityVm → UtilityVm) (k : V A) v :
  registry_ok None v → attached c (ctn_target c) v → removable c remove v →
  (∀ v, registry_ok None v → attached c (ctn_target c) v → ∃ new,
     change v = detached (ct_id (ctn_target c)) c new remove v ∧
     (new = None ∨ ∃ status, new = Some (RecoveredStopped (ctn_target c) (ctn_guest_session c) status))) →
  safe k → ∀ v1, (if remove then shutdown_guest (ctn_guest c) else ret ()) v = (Ok (), v1) →
  registry_ok None (k (change v1)).2.
Proof.
  intros Hv Hat Hrem Hchange Hk v1 H1.
  assert (quiet v v1 ∧ (remove = true → machine_stopped v1 (ctn_guest c))) as [Hq Hstop].
  { destruct remove; [apply shutdown_stops in H1 as [? ?]; done|]. unfold ret in H1. by simplify_eq. }
  assert (registry_ok None v1) as Hv1 by (by eapply quiet_ok).
  apply (attached_quiet _ _ _ _ Hq) in Hat. apply (removable_quiet _ _ _ _ Hq) in Hrem.
  destruct (Hchange v1 Hv1 Hat) as (new & -> & Hnew). destruct Hrem as [Hr1 Hr2]. apply Hk.
  apply detach_ok; [done|apply Hat|done|done|done|done].
Qed.

Lemma note_failure_quiet {A} (m : V A) suffix e : is_quiet m → is_quiet (note_failure m suffix e).
Proof. intros Hm. unfold note_failure. quiet_tac. Qed.
Lemma remove_recovery_quiet target session remove : is_quiet (remove_recovery target session remove).
Proof. unfold remove_recovery. quiet_tac. Qed.
Lemma clear_pending_quiet target session : is_quiet (clear_pending target session).
Proof. unfold clear_pending, clear_pending_session. quiet_tac. Qed.
Lemma cleanup_refused_quiet target session suffix e :
  is_quiet (cleanup_refused_create target session suffix e).
Proof.
  unfold cleanup_refused_create, session_root_is_unowned, note_failure.
  apply quiet_bind; [apply clear_pending_quiet|]. quiet_tac.
Qed.

Lemma cleanup_terminal_ok c e v :
  registry_ok None v → attached c (ctn_target c) v →
  registry_ok None (cleanup_terminal_create c e v).2.
Proof.
  intros Hv Hat. unfold cleanup_terminal_create. unfold bind at 1.
  pose proof (clear_pending_quiet (ctn_target c) (ctn_guest_session c) v) as Hq.
  destruct (clear_pending _ _ v) as [[[]|e1] v1]; simpl in Hq; [|by eapply quiet_ok].
  assert (registry_ok None v1) as Hv1 by (by eapply quiet_ok).
  apply (attached_quiet _ _ _ _ Hq) in Hat. unfold bind at 1, read_vm. set (remove := last_destroy_member c v1).
  assert (removable c remove v1) as Hrem.
  { subst remove. unfold last_destroy_member. split; [by intros ->|].
    intros b s Hr Hb Hs. rewrite Hb, Hs in Hr. simpl in Hr.
    apply andb_true_iff in Hr as [Hr _]. apply andb_true_iff in Hr as [Hr _].
    apply andb_true_iff in Hr as [_ Hr]. by apply bool_decide_eq_true in Hr. }
  clearbody remove. unfold catch.
  destruct ((if remove then shutdown_guest (ctn_guest c) else ret ()) v1) as [r v2] eqn:E.
  destruct r as [[]|err].
  - unfold bind at 1, change_vm. eapply (reap_and_detach_ok c remove); try done.
    + intros v' Hv' Hat'. exists None. split; [by apply forget_container_detaches|by left].
    + apply safe_quiet, quiet_bind; [apply note_failure_quiet, remove_recovery_quiet|].
      intros ?. apply note_failure_quiet. quiet_tac.
  - eapply quiet_ok; [|exact Hv1]. assert (is_quiet (if remove then shutdown_guest (ctn_guest c) else ret ()))
      as Hq' by quiet_tac. specialize (Hq' v1). by rewrite E in Hq'.
Qed.

Lemma unless_retryable_ok {A} (m : V A) cleanup (P : A → UtilityVm → Prop) v :
  (let '(r, v') := m v in registry_ok None v' ∧ match r with Ok a => P a v' | Err _ => True end) →
  (∀ e, is_quiet (cleanup e)) →
  let '(r, v') := unless_retryable m cleanup v in
  registry_ok None v' ∧ match r with Ok a => P a v' | Err _ => True end.
Proof.
  intros Hm Hc. unfold unless_retryable, catch. destruct (m v) as [[a|e] v1]; [done|].
  destruct Hm as [Hv1 _]. destruct (retryable e); [done|]. unfold bind.
  specialize (Hc e v1). destruct (cleanup e v1) as [[e'|e'] v2]; (split; [by eapply quiet_ok|done]).
Qed.

Lemma existing_spec target session v :
  (existing_create_session target session v).2 = v ∧
  match (existing_create_session target session v).1 with
  | Ok None => uv_attachments v !! ct_id target = None
  | Ok (Some c) => attached c target v
  | Err _ => True
  end.
Proof.
  unfold existing_create_session, attached. simpl. split; [done|].
  destruct (uv_attachments v !! ct_id target) as [a|]; [|done]. simpl.
  case_bool_decide; [done|]. simpl. case_bool_decide; [done|]. by destruct a.
Qed.

Abbreviation create := (uv_create capability attachment_capabilities scope).

Lemma create_safe r : safe (create r).
Proof.
  intros v Hv. unfold uv_create. unfold bind at 1, enter_operation.
  destruct (reject_if _ _) as [[]|e]; [|done]. unfold bind at 1, lift.
  destruct (validate_create_contract _ _ r) as [[]|e] eqn:Hval; [|done].
  assert (∃ generation, ct_generation (dcr_target r) = Some generation) as [generation Hgen].
  { unfold validate_create_contract in Hval. do 3 apply rbind_ok in Hval as (? & _ & Hval).
    apply rbind_ok in Hval as (g & Hg & _). apply ok_or_ok in Hg. eauto. }
  unfold bind at 1. pose proof (quiet_env _ (eo_path EO (dcr_target r) (bundle_directory (dcr_bundle r))
    (attachments_guest_session (dcr_attachment_contract r))) v) as Hq.
  destruct (env _ v) as [[path|e] v1]; simpl in Hq; [|by eapply quiet_ok].
  assert (registry_ok None v1) as Hv1 by (by eapply quiet_ok). clear Hq Hv v.
  unfold bind at 1. set (session := attachments_guest_session (dcr_attachment_contract r)).
  pose proof (unless_retryable_ok (existing_create_session (dcr_target r) session)
    (cleanup_refused_create (dcr_target r) session
       "; failed to remove rejected exact-generation handoff: {}")
    (λ x v, match x with Some c => attached c (dcr_target r) v
            | None => uv_attachments v !! ct_id (dcr_target r) = None end) v1) as Hex.
  destruct (existing_spec (dcr_target r) session v1) as [Hsame Hspec].
  destruct (unless_retryable (existing_create_session _ _) _ v1) as [[existing|e] v2].
  2:{ apply Hex; [|intros; apply cleanup_refused_quiet].
      destruct (existing_create_session _ _ v1) as [[[c|]|e'] v']; simpl in *; by subst. }
  destruct Hex as [Hv2 Hx]; [|intros; apply cleanup_refused_quiet|].
  { destruct (existing_create_session _ _ v1) as [[[c|]|e'] v']; simpl in *; by subst. }
  unfold bind at 1. clear Hspec Hsame.
  set (admission := match existing with Some _ => _ | None => _ end).
  assert (let '(r0, v') := admission v2 in
    registry_ok None v' ∧ match r0 with Ok c => attached c (dcr_target r) v' | Err _ => True end) as Hadm.
  { subst admission. destruct existing as [c|].
    - unfold bind. pose proof (clear_pending_quiet (dcr_target r) session v2) as Hq.
      destruct (clear_pending _ _ v2) as [[[]|e] v3]; simpl in Hq; (split; [by eapply quiet_ok|]); [|done].
      by eapply attached_quiet.
    - apply (unless_retryable_ok _ _ (λ c v, attached c (dcr_target r) v));
        [by eapply admit_ok|intros; apply cleanup_refused_quiet]. }
  destruct (admission v2) as [[c|e] v3]; [|by destruct Hadm]. destruct Hadm as [Hv3 Hat].
  unfold bind at 1. pose proof (clear_pending_quiet (dcr_target r) session v3) as Hq.
  destruct (clear_pending _ _ v3) as [[[]|e] v4]; simpl in Hq; [|by eapply quiet_ok].
  assert (registry_ok None v4) as Hv4 by (by eapply quiet_ok).
  apply (attached_quiet _ _ _ _ Hq) in Hat.
  unfold unless_retryable, catch. pose proof (quiet_on_guest (ctn_guest c) (agent_create scope r path) v4) as Hg.
  destruct (on_guest _ _ v4) as [[state|e] v5]; simpl in Hg; [by eapply quiet_ok|].
  destruct (retryable e); [by eapply quiet_ok|]. unfold bind.
  destruct Hat as [Htarget Hat]. rewrite <- Htarget in Hat.
  pose proof (cleanup_terminal_ok c e v5) as Hcl.
  destruct (cleanup_terminal_create c e v5) as [[e'|e'] v6]; apply Hcl; try (by eapply quiet_ok);
    apply (attached_quiet _ _ _ _ Hg); done.
Qed.

Lemma attachment_for_spec target operation v :
  (attachment_for target operation v).2 = v ∧
  ∀ a, (attachment_for target operation v).1 = Ok a →
       uv_attachments v !! ct_id target = Some a ∧ att_target a = target.
Proof.
  unfold attachment_for. simpl. split; [done|]. intros a Ha.
  apply rbind_ok in Ha as (? & _ & Ha). apply rbind_ok in Ha as (a' & Ha'%ok_or_ok & Ha).
  apply rbind_ok in Ha as (? & Hr%reject_if_ok & [= <-]). by apply bool_decide_eq_false, dec_stable in Hr.
Qed.

Lemma removes_guest_spec c v :
  registry_ok None v → attached c (ctn_target c) v →
  (removes_guest (ctn_target c) c v).2 = v ∧
  ∀ b, (removes_guest (ctn_target c) c v).1 = Ok b → removable c b v.
Proof.
  intros Hv Hat. unfold removes_guest, removable. destruct (ctn_guest_session c) as [b|] eqn:Hb.
  2:{ unfold ret. simpl. split; [done|]. intros b [= <-]. split; [done|]. naive_solver. }
  destruct (ro_member _ _ Hv _ _ _ (proj2 Hat) Hb) as (s & Hs & _). unfold bind, lift, read_vm, ret.
  rewrite Hs. cbn [ok_or]. destruct (reject_if _ _) as [[]|e]; simpl; [|naive_solver]. split; [done|].
  intros remove [= <-]. split; [done|]. intros b' s' Hr [= <-] Hs'. rewrite Hs in Hs'. simplify_eq.
  apply andb_true_iff in Hr as [Hr _]. by apply bool_decide_eq_true in Hr.
Qed.

(** Changes of stopped attachments. *)
Lemma stopped_change_ok v f :
  (∀ id, f !! id = uv_attachments v !! id ∨
     (∀ c, uv_attachments v !! id ≠ Some (Live c)) ∧
     (f !! id = None ∨ ∃ target session status, f !! id = Some (RecoveredStopped target session status) ∧
        ct_id target = id ∧ is_Some (ct_generation target))) →
  registry_ok None v → registry_ok None (set_attachments (λ _, f) v).
Proof.
  intros Hf [Hkey Hded Hmem Hses Hsess Hg Hfr Hown Hla Hx Hrun].
  assert (∀ id c, f !! id = Some (Live c) ↔ uv_attachments v !! id = Some (Live c)) as Hlive.
  { intros id c. destruct (Hf id) as [->|[Hno [Hn|(t & s & st & Hs & _)]]]; [done|..];
      (split; [rewrite ?Hn, ?Hs; naive_solver|by intros ?%Hno]). }
  assert (∀ g, tracked (set_attachments (λ _, f) v) g ↔ tracked v g) as Ht.
  { intros g. unfold tracked. simpl. by setoid_rewrite Hlive. }
  split; simpl; try setoid_rewrite Hlive; try done.
  - intros id a Ha. destruct (Hf id) as [Heq|[_ [Hn|(t & s & st & Hs & Hid & Hgen)]]]; [|congruence|].
    + apply Hkey. congruence.
    + rewrite Hs in Ha. by simplify_eq/=.
  - intros g [Hg'%Ht|?]; [apply Hg; by left|done].
  - intros o (g & Ho & [Htr|?])%Hrun; [|done]. exists g. rewrite Ht. auto.
Qed.
Lemma remove_stopped_safe target : safe (remove_stopped target).
Proof.
  apply safe_bind; [apply safe_quiet, quiet_pending|]. intros _ v Hv.
  apply (stopped_change_ok v); [|done]. intros id.
  destruct (uv_attachments v !! ct_id target) as [[c|t s st]|] eqn:E; [by left| |by left].
  case_bool_decide; [|by left]. destruct (decide (id = ct_id target)) as [->|].
  - right. rewrite E. split; [done|]. left. by rewrite lookup_delete_eq.
  - left. by rewrite lookup_delete_ne.
Qed.

Lemma delete_live_ok r c v :
  registry_ok None v → attached c (ddr_target r) v → registry_ok None (delete_live r c v).2.
Proof.
  intros Hv [Htarget Hat]. unfold delete_live. rewrite <- Htarget in *.
  assert (attached c (ctn_target c) v) as Hat' by done.
  destruct (removes_guest_spec c v Hv Hat') as [Hsame Hrem]. unfold bind at 1.
  destruct (removes_guest (ctn_target c) c v) as [[remove|e] v0]; simpl in *; subst v0; [|done].
  specialize (Hrem _ eq_refl). unfold bind at 1.
  pose proof (quiet_on_guest (ctn_guest c) (agent_delete r) v) as Hq.
  destruct (on_guest _ _ v) as [[[]|e] v1]; simpl in Hq; [|by eapply quiet_ok].
  assert (registry_ok None v1) as Hv1 by (by eapply quiet_ok).
  apply (attached_quiet _ _ _ _ Hq) in Hat'. apply (removable_quiet _ _ _ _ Hq) in Hrem.
  unfold bind at 1.
  destruct ((if remove then shutdown_guest (ctn_guest c) else ret ()) v1) as [[[]|e] v2] eqn:E.
  - unfold bind at 1, change_vm. eapply (reap_and_detach_ok c remove); try done.
    + intros v' Hv' Hat2. eexists. split; [by apply stop_container_detaches|right; eauto].
    + apply safe_bind; [apply safe_quiet, remove_recovery_quiet|]. intros _.
      apply safe_bind; [apply safe_quiet; quiet_tac|]. intros _. apply remove_stopped_safe.
  - assert (is_quiet (if remove then shutdown_guest (ctn_guest c) else ret ())) as Hq' by quiet_tac.
    specialize (Hq' v1). rewrite E in Hq'. by eapply quiet_ok.
Qed.

Lemma delete_safe r : safe (uv_delete r).
Proof.
  intros v Hv. unfold uv_delete. unfold bind at 1, enter_operation. simpl reject_if.
  unfold bind. destruct (attachment_for_spec (ddr_target r) "utility-vm-delete" v) as [Hsame Hspec].
  destruct (attachment_for _ _ v) as [[a|e] v']; simpl in *; subst v'; [|done].
  destruct (Hspec _ eq_refl) as [Ha Ht]. destruct a as [c|t s st]; [by apply delete_live_ok|].
  apply safe_bind; [by apply safe_quiet, quiet_still| |done]. intros remove.
  apply safe_bind; [apply safe_quiet, remove_recovery_quiet|]. intros _.
  apply safe_bind; [apply safe_quiet; quiet_tac|]. intros _. apply remove_stopped_safe.
Qed.

(** *** Recovery *)

Lemma refresh_stopped_ok target record v :
  (∀ c, uv_attachments v !! ct_id target ≠ Some (Live c)) → is_Some (ct_generation target) →
  registry_ok None v →
  registry_ok None ((let! recovery := env (recovery_recover target record (cr_guest_session record)) in
    do! change_vm (set_attachments (insert (ct_id target)
      (RecoveredStopped target (cr_guest_session record) (rec_init_exit_status recovery))));
    ret recovery) v).2.
Proof.
  intros Hno Hgen Hv. unfold bind.
  pose proof (quiet_env _ (eo_recover EO target record (cr_guest_session record)) v) as Hq.
  destruct (env _ v) as [[recovery|e] v3]; simpl in Hq; [|by eapply quiet_ok].
  unfold change_vm, ret. simpl. apply (stopped_change_ok v3); [|by eapply quiet_ok].
  rewrite (qu_attachments _ _ Hq). intros id'. destruct (decide (id' = ct_id target)) as [->|];
    [right|left; by rewrite lookup_insert_ne].
  rewrite lookup_insert_eq. split; [done|]. right. eauto 10.
Qed.
Lemma recover_safe record : safe (uv_recover scope record).
Proof.
  apply safe_bind; [by apply safe_quiet, quiet_still|]. intros _.
  apply safe_bind; [by apply safe_quiet, quiet_still|]. intros id.
  apply safe_bind; [by apply safe_quiet, quiet_still|]. intros _.
  set (target := mkContainerTarget id (Some (cr_generation record))).
  case_bool_decide.
  { apply safe_bind; [apply safe_quiet; quiet_tac|]. intros _ v Hv. unfold bind, read_vm, lift.
    destruct (uv_attachments v !! ct_id target) as [a|] eqn:Ha; [|done].
    destruct (check_generation a target) as [[]|]; [|done].
    destruct (check_binding a _) as [[]|]; [|done]. destruct a as [c|t s st]; [done|].
    unfold change_vm, ret. simpl. apply (stopped_change_ok v); [|done]. intros id'.
    destruct (decide (id' = id)) as [->|]; [right|left; by rewrite lookup_delete_ne].
    simpl in Ha. rewrite Ha, lookup_delete_eq. naive_solver. }
  intros v Hv. unfold bind at 1.
  pose proof (quiet_env _ (eo_reattach EO target record (cr_guest_session record)) v) as Hq.
  destruct (env _ v) as [[[x|]|e] v1] eqn:E; simpl in Hq; [|apply (quiet_ok _ _ _ Hq) in Hv|by eapply quiet_ok].
  { exfalso. unfold env in E. destruct (try_reattach_live _ _ _ _) as [r e] eqn:Et. simplify_eq.
    by eapply (eo_no_reattach EO). }
  clear E Hq v. unfold recover_attached. unfold bind at 1, change_vm.
  set (v2 := set_attachments _ v1).
  assert (registry_ok None v2) as Hv2.
  { destruct (uv_attachments v1 !! ct_id target) as [a|] eqn:Ha.
    - subst v2. unfold set_attachments. rewrite Ha. by destruct v1.
    - assert (v2 = set_attachments (λ _, <[ct_id target := RecoveredStopped target
        (cr_guest_session record) None]> (uv_attachments v1)) v1) as ->
        by (subst v2; unfold set_attachments; by rewrite Ha).
      apply stopped_change_ok; [|done]. intros id'. destruct (decide (id' = ct_id target)) as [->|].
      + right. rewrite Ha, lookup_insert_eq. split; [done|]. right. simpl. naive_solver.
      + left. by rewrite lookup_insert_ne. }
  clearbody v2. unfold bind, read_vm, lift.
  destruct (check_generation _ target) as [[]|]; [|done]. destruct (check_binding _ _) as [[]|]; [|done].
  destruct (uv_attachments v2 !! ct_id target) as [[c|t s st]|] eqn:Ha; simpl default; cbn iota.
  - assert (is_quiet (observed scope (ctn_guest c) target record)) as Hq by (unfold observed; quiet_tac).
    apply (quiet_ok _ _ _ (Hq v2) Hv2).
  - apply (refresh_stopped_ok target record); [|by eexists|done]. rewrite Ha. naive_solver.
  - apply (refresh_stopped_ok target record); [|by eexists|done]. rewrite Ha. naive_solver.
Qed.

(** *** Shutdown *)

Lemma elem_of_btree {A} (m : gmap string A) i x :
  (i, x) ∈ sort_by_key fst (map_to_list m) ↔ m !! i = Some x.
Proof. rewrite (sort_by_key_Permutation fst (map_to_list m)). apply elem_of_map_to_list. Qed.
Lemma elem_of_btree_values {A} (m : gmap string A) x : x ∈ btree_values m ↔ ∃ i, m !! i = Some x.
Proof.
  unfold btree_values. rewrite list_elem_of_fmap. split.
  - intros ([i y] & -> & Hi%elem_of_btree). eauto.
  - intros [i Hi]. exists (i, x). by rewrite elem_of_btree.
Qed.

(** The registry without a guest. *)
Lemma replace_guest_spec g v :
  let v' := (replace_guest_with_stopped g v).2 in
  uv_attachments v' = stop_attachment g <$> uv_attachments v ∧
  uv_env v' = uv_env v ∧ uv_guests v' = uv_guests v ∧ uv_next v' = uv_next v ∧
  (registry_ok None v → ∀ sid s, uv_reusable v' !! sid = Some s ↔
     uv_reusable v !! sid = Some s ∧ rs_guest s ≠ g).
Proof.
  unfold replace_guest_with_stopped. simpl.
  destruct (find _ _) as [[sid0 s0]|] eqn:Hfind; simpl; split_and!; try done; intros Hv sid s.
  - apply find_some in Hfind as [Hin Hg]. apply list_elem_of_In, elem_of_btree in Hin.
    simpl in Hg. apply bool_decide_eq_true in Hg. rewrite lookup_delete_Some. split.
    + intros [Hne Hs]. split; [done|]. intros Hsg. apply Hne.
      eapply (ro_sessions _ _ Hv); [exact Hin|exact Hs|congruence].
    + intros [Hs Hsg]. split; [|done]. intros <-. congruence.
  - split; [|naive_solver]. intros Hs. split; [done|]. intros Hsg.
    pose proof (find_none _ _ Hfind (sid, s)) as Hn.
    assert ((sid, s) ∈ sort_by_key fst (map_to_list (uv_reusable v))) as Hin by by apply elem_of_btree.
    apply list_elem_of_In, Hn, bool_decide_eq_false in Hin. by simpl in Hin.
Qed.

Lemma stop_attachment_live g a c :
  stop_attachment g a = Live c ↔ a = Live c ∧ ctn_guest c ≠ g.
Proof. destruct a as [c'|t s st]; simpl; [case_bool_decide|]; naive_solver. Qed.

Lemma replace_guest_ok g v :
  registry_ok None v → machine_stopped v g →
  registry_ok None (replace_guest_with_stopped g v).2 ∧
  ∀ g', tracked (replace_guest_with_stopped g v).2 g' ↔ tracked v g' ∧ g' ≠ g.
Proof.
  intros Hv Hstop. destruct (replace_guest_spec g v) as (Ha & He & Hgu & Hn & Hr).
  specialize (Hr Hv). set (v' := (replace_guest_with_stopped g v).2) in *. clearbody v'.
  destruct Hv as [Hkey Hded Hmem Hses Hsess Hg Hfr Hown Hla Hx Hrun].
  assert (∀ id c, uv_attachments v' !! id = Some (Live c) ↔
            uv_attachments v !! id = Some (Live c) ∧ ctn_guest c ≠ g) as Hlive.
  { intros id c. rewrite Ha, lookup_fmap, fmap_Some. setoid_rewrite <- (symmetry_iff (=)).
    setoid_rewrite stop_attachment_live. naive_solver. }
  assert (∀ g', owner_of v' g' = owner_of v g') as Ho by (intros g'; unfold owner_of; by rewrite Hgu).
  assert (∀ g', tracked v' g' ↔ tracked v g' ∧ g' ≠ g) as Ht.
  { intros g'. unfold tracked. setoid_rewrite Hlive. setoid_rewrite Hr. naive_solver. }
  split; [|done]. split; rewrite ?Hn, ?He.
  - intros id a. rewrite Ha, lookup_fmap, fmap_Some. intros (a' & Ha' & ->).
    destruct (Hkey _ _ Ha') as [H1 H2]. destruct a' as [c|]; simpl; [case_bool_decide|]; done.
  - intros id c [Hc Hcg]%Hlive Hs. destruct (Hded _ _ Hc Hs) as [H1 H2]. split.
    + intros id' c' [Hc' _]%Hlive. by apply H1.
    + intros sid s [Hss _]%Hr. by eapply H2.
  - intros id c b [Hc Hcg]%Hlive Hb. destruct (Hmem _ _ _ Hc Hb) as (s & Hs & Hsb & Hsg & Hm).
    exists s. rewrite Hr. split_and!; try done. congruence.
  - intros sid s [Hs Hsg]%Hr. destruct (Hses _ _ Hs) as (Hsid & Hcap & Hms). split_and!; [done|done|].
    intros id (c & Hc & Hb)%Hms. exists c. rewrite Hlive. split; [split; [done|]|done].
    destruct (Hmem _ _ _ Hc Hb) as (s' & Hs' & _ & Hsg' & _). congruence.
  - intros sid s sid' s' [Hs _]%Hr [Hs' _]%Hr. by eapply Hsess.
  - intros g' [[Hg' _]%Ht|?]; [rewrite Ho; apply Hg; by left|done].
  - intros g'. rewrite Ho. apply Hfr.
  - intros g1 g2 o. rewrite !Ho. apply Hown.
  - intros g' o. rewrite Ho. apply Hla.
  - done.
  - intros o Hin. destruct (Hrun o Hin) as (g' & Hgo & [Htr|?]); [|done]. exists g'. rewrite Ho, Ht.
    split; [done|]. left. split; [done|]. intros ->. by apply (Hstop o).
Qed.

(** One completed task: the machine is gone from the registry, or a failure is
    counted. *)
Lemma complete_shutdown_ok g v :
  registry_ok None v →
  let '(r, v') := complete_shutdown g v in
  registry_ok None v' ∧ (∀ g', tracked v' g' → tracked v g') ∧
  (r = Ok 0%nat → ¬ tracked v' g).
Proof.
  intros Hv. unfold complete_shutdown. unfold catch at 1.
  pose proof (quiet_shutdown g v) as Hq0.
  destruct (shutdown_guest g v) as [[[]|e] v1] eqn:E; simpl in Hq0.
  2:{ unfold ret. split_and!; [by eapply quiet_ok| |done]. intros g'. by rewrite quiet_tracked. }
  apply shutdown_stops in E as [Hq Hstop]. assert (registry_ok None v1) as Hv1 by (by eapply quiet_ok).
  destruct (replace_guest_ok g v1 Hv1 Hstop) as [Hv2 Ht]. unfold bind.
  destruct (replace_guest_with_stopped g v1) as [reusable v2] eqn:Er. simpl in Hv2, Ht.
  assert (∀ g', tracked v2 g' → tracked v g' ∧ g' ≠ g) as Ht'.
  { intros g' [H1 H2]%Ht. split; [|done]. by rewrite <- (quiet_tracked v v1 g' Hq). }
  assert (∀ (m : V nat), is_quiet m → let '(r, v') := m v2 in
    registry_ok None v' ∧ (∀ g', tracked v' g' → tracked v g') ∧ (r = Ok 0%nat → ¬ tracked v' g)) as Hrest.
  { intros m Hm. specialize (Hm v2). destruct (m v2) as [r v3]. simpl in Hm. split_and!.
    - by eapply quiet_ok.
    - intros g'. rewrite (quiet_tracked _ _ _ Hm). by intros [? _]%Ht'.
    - intros _. rewrite (quiet_tracked _ _ _ Hm). by intros [_ ?]%Ht'. }
  assert (∃ x, reusable = Ok x) as [x ->].
  { unfold replace_guest_with_stopped in Er. destruct (find _ _) as [[]|]; simplify_eq; eauto. }
  apply Hrest. destruct x as [[att []]|]; quiet_tac.
Qed.

Lemma complete_shutdowns_ok guests v :
  registry_ok None v →
  let '(r, v') := complete_shutdowns guests v in
  registry_ok None v' ∧ (∀ g, tracked v' g → tracked v g) ∧
  (r = Ok 0%nat → ∀ g, g ∈ guests → ¬ tracked v' g).
Proof.
  revert v. induction guests as [|g guests IH]; intros v Hv; simpl.
  { unfold ret. split_and!; [done|done|]. intros _ g Hg. by apply not_elem_of_nil in Hg. }
  unfold bind. pose proof (complete_shutdown_ok g v Hv) as H1.
  destruct (complete_shutdown g v) as [[n|e] v1]; [|naive_solver]. destruct H1 as (Hv1 & Ht1 & Hn).
  specialize (IH v1 Hv1). destruct (complete_shutdowns guests v1) as [[m|e] v2]; [|naive_solver].
  destruct IH as (Hv2 & Ht2 & Hm). unfold ret. split_and!; [done|by eauto|].
  intros [= Hz] g'. assert (n = 0%nat ∧ m = 0%nat) as [-> ->] by lia.
  intros [->|Hg']%elem_of_cons; [|by apply Hm]. intros Ht%Ht2. by apply Hn.
Qed.

Lemma elem_of_push_unique guests g g' : g' ∈ push_unique guests g ↔ g' ∈ guests ∨ g' = g.
Proof.
  unfold push_unique. destruct (existsb _ _) eqn:E; [|by rewrite elem_of_app, list_elem_of_singleton].
  apply existsb_exists in E as (x & Hx%list_elem_of_In & ->%Nat.eqb_eq). naive_solver.
Qed.
Lemma elem_of_live_guests v g : g ∈ live_guests v ↔ tracked v g.
Proof.
  assert (∀ l guests, g ∈ foldl (λ guests a, match a with Live c => push_unique guests (ctn_guest c)
            | RecoveredStopped _ _ _ => guests end) guests l ↔
          g ∈ guests ∨ ∃ c, Live c ∈ l ∧ ctn_guest c = g) as H1.
  { induction l as [|[c|] l IH]; intros guests; simpl.
    - split; [by left|]. intros [?|(c & Hc & _)]; [done|]. by apply not_elem_of_nil in Hc.
    - rewrite IH, elem_of_push_unique. setoid_rewrite elem_of_cons. naive_solver.
    - rewrite IH. setoid_rewrite elem_of_cons. naive_solver. }
  assert (∀ l guests, g ∈ foldl (λ guests s, push_unique guests (rs_guest s)) guests l ↔
          g ∈ guests ∨ ∃ s, s ∈ l ∧ rs_guest s = g) as H2.
  { induction l as [|s l IH]; intros guests; simpl.
    - split; [by left|]. intros [?|(c & Hc & _)]; [done|]. by apply not_elem_of_nil in Hc.
    - rewrite IH, elem_of_push_unique. setoid_rewrite elem_of_cons. naive_solver. }
  unfold live_guests, tracked. rewrite H2, H1. setoid_rewrite elem_of_btree_values.
  split; [intros [[?%not_elem_of_nil|?]|?]|]; naive_solver.
Qed.

(** A shutdown keeps the registry coherent; when it succeeds, and waits for
    the task of every guest, nothing runs any more. *)
Lemma shutdown_spec completions v :
  registry_ok None v →
  let '(r, v') := uv_shutdown completions v in
  registry_ok None v' ∧ (r = Ok () → (∀ guests, completions guests ≡ₚ guests) → running (uv_env v') = ∅).
Proof.
  intros Hv. unfold uv_shutdown. unfold bind at 1, change_vm. unfold bind at 1. unfold bind at 1, read_vm.
  set (v0 := set_pending _ (set_closed v)).
  assert (quiet v v0) as Hq0 by by split.
  pose proof (quiet_ok _ _ _ Hq0 Hv) as Hv0. unfold bind.
  pose proof (complete_shutdowns_ok (completions (live_guests v0)) v0 Hv0) as Hs.
  destruct (complete_shutdowns _ v0) as [[n|e] v1]; [|naive_solver].
  destruct Hs as (Hv1 & Ht & Hn). unfold lift, reject_if.
  destruct (Nat.eqb_spec n 0) as [->|]; simpl; [|naive_solver]. split; [done|].
  intros _ Hperm. apply set_eq. intros o. split; [|set_solver]. intros Ho.
  destruct (ro_running _ _ Hv1 o Ho) as (g & _ & [Htr|?]); [|done]. exfalso.
  apply (Hn eq_refl g); [|done]. rewrite Hperm. by apply elem_of_live_guests, Ht.
Qed.

(** *** Histories *)

Abbreviation call := (uv_call capability attachment_capabilities scope).
Abbreviation history := (uv_history capability attachment_capabilities scope).

Lemma prepare_quiet r : is_quiet (uv_prepare_create_bundle capability attachment_capabilities r).
Proof.
  unfold uv_prepare_create_bundle, unless_retryable, remember_pending_session, clear_pending,
    clear_pending_session, enter_operation.
  quiet_tac.
Qed.
Lemma on_live_quiet {A} target operation (m : prog (AgentDriverClient uve_service) Error A) :
  is_quiet (on_live target operation m).
Proof. unfold on_live, live_session_for. quiet_tac. Qed.
Lemma with_attachment_quiet {A} target operation (live : _ → V A) stopped :
  (∀ c, is_quiet (live c)) → (∀ s, is_quiet (stopped s)) →
  is_quiet (with_attachment target operation live stopped).
Proof. intros Hl Hs. unfold with_attachment. quiet_tac; [apply Hl|apply Hs]. Qed.
Lemma acknowledge_quiet operation_id : is_quiet (uv_acknowledge_operation operation_id).
Proof. unfold uv_acknowledge_operation. quiet_tac. Qed.
Lemma forget_quiet {A} (m : V A) : is_quiet m → is_quiet (forget m).
Proof. intros Hm. by apply quiet_bind; [|intros; apply quiet_still]. Qed.

(** The calls that only pass through to a guest. *)
Definition passes_through (c : UvCall) : bool :=
  match c with UvCreate _ | UvDelete _ | UvRecover _ | UvShutdown _ => false | _ => true end.
Lemma passes_through_quiet c : passes_through c = true → is_quiet (call c).
Proof.
  destruct c; try done; intros _; cbn [uv_call]; try apply forget_quiet;
    try apply on_live_quiet; try apply acknowledge_quiet; try apply prepare_quiet;
    apply with_attachment_quiet; intros; quiet_tac.
Qed.

Lemma call_safe c : safe (call c).
Proof.
  destruct (passes_through c) eqn:Hp; [by apply safe_quiet, passes_through_quiet|].
  assert (∀ A (m : V A), safe m → safe (forget m)) as Hforget
    by (intros A m Hm; apply safe_bind; [done|intros; by apply safe_quiet, quiet_still]).
  destruct c; try done; cbn [uv_call].
  - apply Hforget, create_safe.
  - apply delete_safe.
  - apply Hforget, recover_safe.
  - intros v Hv. pose proof (shutdown_spec completions v Hv) as Hs.
    destruct (uv_shutdown completions v) as [r v']. apply Hs.
Qed.
Lemma history_safe calls v : registry_ok None v → registry_ok None (history calls v).
Proof.
  revert v. induction calls as [|c calls IH]; intros v Hv; [done|]. by apply IH, call_safe.
Qed.
Lemma fresh_ok e : running e = ∅ → registry_ok None (uv_fresh e).
Proof.
  intros Hr. assert (∀ g, owner_of (uv_fresh e) g = None) as Hown
    by (intros g; unfold owner_of; simpl; by rewrite lookup_empty).
  assert (∀ g, ¬ tracked (uv_fresh e) g) as Ht.
  { intros g [(? & ? & Hc & _)|(? & ? & Hs & _)]; simpl in *; simplify_map_eq. }
  split; try (intros *; simpl; rewrite ?lookup_empty; by intros).
  all: try (intros g o; by rewrite Hown).
  - intros g [?%Ht|?]; done.
  - intros g [o Ho]. by rewrite Hown in Ho.
  - simpl. rewrite Hr. set_solver.
Qed.


(** *** After a shutdown *)

(** Nothing is started, and a driver that is shut down stays so. *)
Definition winding {A} (m : V A) : Prop := ∀ v,
  running (uv_env (m v).2) ⊆ running (uv_env v) ∧ (uv_closed v = true → uv_closed (m v).2 = true).
Lemma winding_bind {A B} (m : V A) (k : A → V B) : winding m → (∀ a, winding (k a)) → winding (bind m k).
Proof.
  intros Hm Hk v. destruct (Hm v) as [H1 H2]. unfold bind. destruct (m v) as [[a|e] v']; [|done].
  destruct (Hk a v') as [H3 H4]. simpl in *. split; [set_solver|auto].
Qed.
Lemma winding_catch {A B} (m : V A) (k : _ → V B) : winding m → (∀ r, winding (k r)) → winding (catch m k).
Proof.
  intros Hm Hk v. destruct (Hm v) as [H1 H2]. unfold catch. destruct (m v) as [r v'].
  destruct (Hk r v') as [H3 H4]. simpl in *. split; [set_solver|auto].
Qed.
Lemma winding_still {A} (m : V A) : (∀ v, (m v).2 = v) → winding m.
Proof. intros Hm v. by rewrite Hm. Qed.
Lemma winding_change f :
  (∀ v, uv_env (f v) = uv_env v) → (∀ v, uv_closed v = true → uv_closed (f v) = true) →
  winding (change_vm f).
Proof. intros He Hc v. simpl. rewrite He. auto. Qed.
Lemma winding_env {A} (m : prog uve Error A) : calm m → winding (env m).
Proof.
  intros Hm v. unfold env. destruct (Hm (uv_env v)) as [Hl Hr]. by destruct (m (uv_env v)).
Qed.
Lemma winding_on_guest {A} g (m : prog (AgentDriverClient uve_service) Error A) : winding (on_guest g m).
Proof.
  intros v. unfold on_guest. destruct (uv_guests v !! g); [|done]. by destruct (m _).
Qed.
Lemma winding_shutdown g : winding (shutdown_guest g).
Proof.
  intros v. unfold shutdown_guest. destruct (uv_guests v !! g); [|done].
  apply winding_env, (eo_shutdown EO).
Qed.
Lemma winding_for_each {X} (f : X → V ()) l : (∀ x, winding (f x)) → winding (for_each f l).
Proof. intros Hf. induction l; simpl; [by apply winding_still|by apply winding_bind]. Qed.

Ltac winding_tac := repeat first
  [ assumption
  | progress intros
  | apply winding_env; first [ apply (eo_prepare EO) | apply (eo_path EO) | apply (eo_mount EO)
      | apply (eo_cleanup EO) | apply (eo_cleanup_empty EO) | apply (eo_recover EO)
      | apply (eo_remove EO) | apply (eo_remove_session EO) | apply (eo_identity EO)
      | apply (eo_reattach EO) | apply (eo_shutdown EO) ]
  | apply winding_on_guest | apply winding_shutdown | apply winding_for_each
  | apply winding_still; done
  | apply winding_change; done
  | apply winding_bind | apply winding_catch
  | case_match ].

Lemma delete_winding r : winding (uv_delete r).
Proof.
  assert (∀ target container remove, winding (change_vm (stop_container target container remove))) as Hstop.
  { intros target c remove. apply winding_change; intros v; unfold stop_container; by repeat case_match. }
  unfold uv_delete, delete_live, delete_stopped, removes_guest, remove_recovery, remove_stopped.
  winding_tac; by apply Hstop.
Qed.
Lemma complete_shutdown_winding g : winding (complete_shutdown g).
Proof.
  assert (winding (replace_guest_with_stopped g)) as Hr.
  { intros v. unfold replace_guest_with_stopped. by destruct (find _ _) as [[]|]. }
  unfold complete_shutdown. winding_tac.
Qed.
Lemma complete_shutdowns_winding guests : winding (complete_shutdowns guests).
Proof.
  induction guests; simpl; [by apply winding_still|].
  apply winding_bind; [apply complete_shutdown_winding|]. winding_tac.
Qed.
Lemma shutdown_winding completions : winding (uv_shutdown completions).
Proof. unfold uv_shutdown. winding_tac. apply complete_shutdowns_winding. Qed.

(** A driver that is shut down refuses what could start a machine. *)
Lemma closed_refuses {A} operation (k : V A) v :
  uv_closed v = true → (bind (enter_operation operation true) (λ _, k) v).2 = v.
Proof. intros Hc. unfold bind, enter_operation. by rewrite Hc. Qed.
Lemma closed_call c v :
  uv_closed v = true →
  running (uv_env (call c v).2) ⊆ running (uv_env v) ∧ uv_closed (call c v).2 = true.
Proof.
  intros Hc. destruct (passes_through c) eqn:Hp.
  - pose proof (passes_through_quiet c Hp v) as Hq. split; [apply Hq|].
    assert (winding (call c)) as Hw; [|by apply Hw].
    destruct c; try done; cbn [uv_call]; unfold forget, uv_acknowledge_operation,
      uv_prepare_create_bundle, unless_retryable, remember_pending_session, clear_pending,
      clear_pending_session, preflight_session_admission, on_live, live_session_for,
      uv_state, uv_kill, uv_wait, uv_processes, with_attachment; winding_tac.
  - destruct c; try done; cbn [uv_call]; unfold forget.
    + unfold bind at 1 2. assert ((create r v).2 = v) as E by by apply closed_refuses.
      destruct (create r v) as [[?|?] v']; simpl in E |- *; subst v'; (split; [reflexivity|done]).
    + split; [apply delete_winding|by apply delete_winding].
    + unfold bind at 1 2. assert ((uv_recover scope record v).2 = v) as E by by apply closed_refuses.
      destruct (uv_recover scope record v) as [[?|?] v']; simpl in E |- *; subst v'; (split; [reflexivity|done]).
    + split; [apply shutdown_winding|by apply shutdown_winding].
Qed.
Lemma closed_history calls v :
  uv_closed v = true → running (uv_env (history calls v)) ⊆ running (uv_env v).
Proof.
  revert v. induction calls as [|c calls IH]; intros v Hc; [done|].
  destruct (closed_call c v Hc) as [H1 H2]. simpl. etrans; [by apply IH|done].
Qed.
Lemma shutdown_closes completions v : uv_closed (uv_shutdown completions v).2 = true.
Proof.
  unfold uv_shutdown. unfold bind at 1, change_vm.
  match goal with |- context [ ?m (set_closed v) ] => assert (winding m) as Hw end.
  { winding_tac. apply complete_shutdowns_winding. }
  by apply Hw.
Qed.

End invariant.

(** ** Two members of one surviving session *)

Section reattachment.
Context `{SE : StoreEnv} `{HE : HostEnv} `{UE : UtilityVmEnv} `{SH : !Sha256, AE : !AgentEnv}.

(** A container that is attached again to a surviving machine becomes the only
    member of its session: the deletion of one that was attached before is
    refused, for its membership has drifted. *)
Theorem second_reattachment_takes_over (a c : UtilityVmContainer) binding generation r v :
  ctn_guest_session a = Some binding → ctn_guest_session c = Some binding →
  ct_generation (ctn_target c) = Some generation →
  ct_id (ddr_target r) = ct_id (ctn_target a) → ct_id (ctn_target a) ≠ ct_id (ctn_target c) →
  ∃ v', register_reattached c v = (Ok (), v') ∧
    uv_reusable v' !! gs_id binding =
      Some (mkReusable binding (ctn_guest c) {[ct_id (ctn_target c) := generation]}) ∧
    ∃ e, delete_live r a v' = (Err e, v') ∧ code e = Conflict.
Proof.
  intros Ha Hc Hgen Hid Hne. eexists. split.
  { unfold register_reattached, bind. rewrite Hc, Hgen. reflexivity. }
  split; [simpl; by rewrite lookup_insert_eq|].
  unfold delete_live, removes_guest, bind, read_vm, lift. rewrite Ha. simpl.
  rewrite lookup_insert_eq. simpl.
  rewrite (bool_decide_eq_false_2 (is_Some ({[ct_id (ctn_target c) := generation]} !! _))).
  - rewrite orb_true_r. eexists. split; [reflexivity|reflexivity].
  - rewrite Hid, lookup_singleton_ne by done. by intros [].
Qed.
End reattachment.
