(* ===== verification/StartupAudit.v ===== *)
(** * Startup audit (crates/runtime/src/state/startup_audit.rs, startup_audit/quarantine.rs,
      startup_audit/event.rs)

    The checks that a runtime makes on every durable document before it opens a
    state root.  An audit is a pure function of the state root; opening fails
    when it fails.  The directory layouts that the model fixes by construction
    (the entries of the root and of [events], plain files and directories)
    pass their checks trivially. *)

From stdpp Require Import base gmap strings list.
From S2P Require Import Prelude Sdk Identifiers Lifecycle Fault OciState Contracts StoreModel Disk.
From S2P Require Import RestoreContract Journal.
From S2P Require Import Events Claims Create ProcessStore AttestationStore.
Local Open Scope string_scope.
Local Open Scope Z_scope.

Definition OperationInventory : Type := gmap string StoredOperation.
Definition GenerationInventory : Type := gmap string Z.

Definition audit_error (operation msg : string) : Error :=
  state_error FailedPrecondition operation msg.

(** [json_stem] *)
Definition json_stem (name operation : string) : Result string :=
  let invalid := audit_error operation "invalid {label} filename {name:?}" in
  try! stem := ok_or invalid (strip_suffix ".json" name) in
  check! reject_if (bool_decide (stem = "")) invalid;
  Ok stem.

(** [transaction_stem] *)
Definition transaction_stem (name : string) : option string :=
  strip_prefix "." name ≫= strip_suffix ".json.next".

(** [parse_container_id], [parse_operation_id], [parse_process_id] *)
Definition parse_id (value operation msg : string) : Result string :=
  map_err (λ _, audit_error operation msg) (validate_identifier value).
Definition parse_container_id (value operation : string) : Result string :=
  parse_id value operation "invalid container state entry {name:?}: {error}".
Definition parse_operation_id (value operation : string) : Result string :=
  parse_id value operation "invalid operation state entry {name:?}: {error}".
Definition parse_process_id (value operation : string) : Result string :=
  parse_id value operation "invalid process state entry {name:?}: {error}".

(** [operations.values().any(..)] *)
Definition any_operation (p : StoredOperation → bool) (operations : OperationInventory) : bool :=
  existsb p (map_to_list operations).*2.

(** [EventLeaf::valid_stem] *)
Definition valid_claim_stem (stem : string) : bool :=
  bool_decide (String.length stem = 64%nat) && all_bytes is_lower_hex stem.
Definition valid_record_stem (stem : string) : bool :=
  bool_decide (String.length stem = 20%nat) && all_bytes is_ascii_digit stem.

(** One name of [audit_event_leaf_entries]. *)
Definition audit_event_leaf (valid_stem : string → bool) (u : ()) (name : string) : Result () :=
  try! stem :=
    match transaction_stem name with
    | Some stem => Ok stem
    | None => json_stem name "audit-runtime-events"
    end in
  reject_if (negb (valid_stem stem))
    (audit_error "audit-runtime-events"
       "runtime event directory contains invalid entry {name:?}").

Section audit.
Context `{SE : StoreEnv}.

(** ** Operations and generations *)

Definition audit_generation_entry (inventory : GenerationInventory)
    (entry : string * StoredGeneration) : Result GenerationInventory :=
  let operation := "audit-generation-state" in
  try! stem := json_stem (record_file_name entry.1) operation in
  try! id := parse_container_id stem operation in
  let stored := entry.2 in
  check! reject_if
    (bool_decide (sg_schema_version stored ≠ GENERATION_SCHEMA_VERSION)
     || bool_decide (sg_id stored ≠ id)
     || bool_decide (sg_last_generation stored = 0))
    (audit_error operation "invalid durable generation record {name:?}");
  Ok (<[id := sg_last_generation stored]> inventory).

Definition audit_generation_entries (d : Disk) : Result GenerationInventory :=
  rfold audit_generation_entry ∅ (map_to_list (d_generations d)).

Definition audit_operation_entry (d : Disk) (inventory : OperationInventory)
    (entry : string * StoredOperation) : Result OperationInventory :=
  let operation := "audit-operation-state" in
  try! stem := json_stem (record_file_name entry.1) operation in
  try! id := parse_operation_id stem operation in
  try! loaded := load_operation id d in
  Ok (<[id := loaded]> inventory).

Definition audit_operation_entries (d : Disk) : Result OperationInventory :=
  rfold (audit_operation_entry d) ∅ (map_to_list (d_operations d)).

Definition audit_operation_generation (generations : GenerationInventory)
    (creation_owners : gset (string * Z)) (operation : StoredOperation)
    : Result (gset (string * Z)) :=
  let name := "audit-operation-state" in
  try! last_generation := ok_or
    (audit_error name "operation {} references container {} without a generation record")
    (generations !! so_container_id operation) in
  check! reject_if
    (bool_decide (so_generation operation = 0)
     || bool_decide (last_generation < so_generation operation))
    (audit_error name "operation {} generation {} exceeds container {} generation {}");
  if is_creation (so_kind operation) then
    let owner := (so_container_id operation, so_generation operation) in
    check! reject_if (bool_decide (owner ∈ creation_owners))
      (audit_error name "container {} generation {} has more than one creation operation");
    Ok ({[owner]} ∪ creation_owners)
  else Ok creation_owners.

Definition audit_operation_generations (operations : OperationInventory)
    (generations : GenerationInventory) : Result unit :=
  check! rfold (audit_operation_generation generations) ∅ (map_to_list operations).*2;
  Ok ().

(** ** Containers *)

(** [audit_container_layout]: whether the directory holds a record. *)
Definition audit_container_layout (dir : ContainerDir) : Result bool :=
  let has_record := bool_decide (is_Some (cd_record dir)) in
  check! reject_if (bool_decide (is_Some (cd_processes dir)) && negb has_record)
    (audit_error "audit-container-state"
       "container {id} has process state without a container record");
  Ok has_record.

Definition validate_claim (operations : OperationInventory) (operation_id container_id : string)
    (generation : Z) (process_id : option string) : Result unit :=
  let name := "audit-operation-claims" in
  try! operation := ok_or (audit_error name "{owner} references missing operation {operation_id}")
    (operations !! operation_id) in
  let recoverable_outcome :=
    is_prepared (so_outcome operation)
    || bool_decide (process_id = None) && is_creation (so_kind operation)
       && is_failed (so_outcome operation) in
  reject_if
    (bool_decide (so_container_id operation ≠ container_id)
     || bool_decide (so_generation operation ≠ generation)
     || match process_id with
        | Some p => bool_decide (so_process_id operation ≠ Some p)
        | None => false
        end
     || negb recoverable_outcome)
    (audit_error name "{owner} claim {operation_id} disagrees with its durable operation").

(** [for operation_id in &set { validate_claim(..)?; }] *)
Definition validate_claims (operations : OperationInventory) (ids : gset string)
    (container_id : string) (generation : Z) (process_id : string) : Result unit :=
  rfold (λ _ operation_id,
    validate_claim operations operation_id container_id generation (Some process_id))
    () (elements ids).

Definition audit_container_claims (stored : StoredContainer) (operations : OperationInventory)
    : Result unit :=
  check! match sc_active_operation stored with
         | Some operation_id =>
             validate_claim operations operation_id (sc_id stored)
               (cr_generation (sc_record stored)) None
         | None => Ok ()
         end;
  validate_claims operations (sc_init_io_operations stored) (sc_id stored)
    (cr_generation (sc_record stored)) INIT_PROCESS_ID.

(** One entry of [audit_process_entries]. *)
Definition audit_process_entry (container : StoredContainer) (pd : ProcessDir)
    (operations : OperationInventory) (allow_active_claims : bool) (u : ()) (name : string)
    : Result () :=
  let audit := "audit-process-state" in
  match transaction_stem name with
  | Some stem => check! parse_process_id stem audit; Ok ()
  | None =>
      try! stem := json_stem name audit in
      try! process_id := parse_process_id stem audit in
      check! reject_if (is_init process_id)
        (audit_error audit "init process state must remain in the container record");
      let generation := cr_generation (sc_record container) in
      let target := mkProcessTarget (target_exact (sc_id container) generation) process_id in
      try! stored := ok_or (state_error NotFound "open-state-file" "{}: {error}")
        (pd_records pd !! process_id) in
      try! process := load_stored_process_from_path target stored in
      check! reject_if
        (negb allow_active_claims
         && (bool_decide (is_Some (sp_active_operation process))
             || negb (bool_decide (sp_active_io_operations process = ∅))))
        (audit_error audit "quarantined process {process_id} retains an active operation claim");
      check! reject_if
        (negb (any_operation (λ operation,
           bool_decide (so_kind operation = KExec)
           && bool_decide (so_container_id operation = sc_id container)
           && bool_decide (so_generation operation = generation)
           && bool_decide (so_process_id operation = Some process_id)) operations))
        (audit_error audit "process {process_id} has no durable Exec operation");
      check! match sp_active_operation process with
             | Some operation_id =>
                 validate_claim operations operation_id (sc_id container) generation
                   (Some process_id)
             | None => Ok ()
             end;
      validate_claims operations (sp_active_io_operations process) (sc_id container) generation
        process_id
  end.

Definition audit_process_entries (container : StoredContainer) (dir : ContainerDir)
    (operations : OperationInventory) (allow_active_claims : bool) : Result unit :=
  match cd_processes dir with
  | None => Ok ()
  | Some pd =>
      rfold (audit_process_entry container pd operations allow_active_claims) ()
        (process_entries pd)
  end.

Definition audit_attestation_outcome (stored : StoredContainer) (d : Disk) (u : ())
    (operation : StoredOperation) : Result () :=
  if bool_decide (so_kind operation = KAttest)
     && bool_decide (so_container_id operation = sc_id stored)
     && bool_decide (so_generation operation = cr_generation (sc_record stored))
  then
    match so_outcome operation with
    | SucceededAttestation response =>
        match so_request operation with
        | Some (RequestAttest request) =>
            try! source := map_err
              (λ _, audit_error "audit-operation-state"
                      "TEE attestation operation {} has an invalid durable source: {}")
              (validate_attestation_bindings stored d) in
            map_err
              (λ _, audit_error "audit-operation-state"
                      "TEE attestation operation {} has invalid durable evidence: {}")
              (validate_attestation_response_bindings source request response)
        | _ => Err (audit_error "audit-operation-state"
                 "TEE attestation operation {} has no retained request")
        end
    | _ => Ok ()
    end
  else Ok ().

Definition audit_attestation_outcomes (stored : StoredContainer)
    (operations : OperationInventory) (d : Disk) : Result unit :=
  rfold (audit_attestation_outcome stored d) () (map_to_list operations).*2.

(** ** Container entries *)

(** A directory without a record must belong to the prepared creation of the
    current generation. *)
Definition has_prepared_creation (operations : OperationInventory)
    (generations : GenerationInventory) (id : string) : bool :=
  match generations !! id with
  | Some last_generation =>
      any_operation (λ operation,
        is_creation (so_kind operation)
        && bool_decide (so_container_id operation = id)
        && bool_decide (so_generation operation = last_generation)
        && is_prepared (so_outcome operation)) operations
  | None => false
  end.

Definition audit_container_entry (operations : OperationInventory)
    (generations : GenerationInventory) (d : Disk) (u : ()) (entry : string * ContainerDir)
    : Result () :=
  let audit := "audit-container-state" in
  let dir := entry.2 in
  try! id := parse_container_id entry.1 audit in
  try! has_record := audit_container_layout dir in
  if negb has_record then
    reject_if (negb (has_prepared_creation operations generations id))
      (audit_error audit
         "container state directory {name:?} has no record or prepared creation operation")
  else
    try! stored := load_stored_container id d in
    try! last_generation := ok_or
      (audit_error audit "container {id} has no durable generation record")
      (generations !! id) in
    check! reject_if (bool_decide (cr_generation (sc_record stored) ≠ last_generation))
      (audit_error audit "container {id} generation {} disagrees with durable generation {}");
    check! reject_if
      (negb (any_operation (λ operation,
         is_creation (so_kind operation)
         && bool_decide (so_container_id operation = id)
         && bool_decide (so_generation operation = cr_generation (sc_record stored)))
         operations))
      (audit_error audit "container {id} generation {} has no durable creation operation");
    check! audit_attestation_outcomes stored operations d;
    check! audit_container_claims stored operations;
    audit_process_entries stored dir operations true.

Definition audit_container_entries (operations : OperationInventory)
    (generations : GenerationInventory) (d : Disk) : Result unit :=
  rfold (audit_container_entry operations generations d) () (map_to_list (d_containers d)).

(** ** Quarantine entries (startup_audit/quarantine.rs) *)

(** The suffix of an entry name decides the expected operation kind. *)
Definition quarantine_stem (name : string)
    : Result (string * StoredOperationKind * bool) :=
  match strip_suffix ".deleted" name with
  | Some stem => Ok (stem, KDelete, false)
  | None =>
      match strip_suffix ".failed-create" name with
      | Some stem => Ok (stem, KCreate, true)
      | None =>
          match strip_suffix ".failed-restore" name with
          | Some stem => Ok (stem, KRestore, true)
          | None => Err (audit_error "audit-quarantine-state"
                      "quarantine contains unexpected entry {name:?}")
          end
      end
  end.

Definition audit_quarantine_entry (operations : OperationInventory) (d : Disk) (u : ())
    (entry : TombstoneKind * string * ContainerDir) : Result () :=
  let audit := "audit-quarantine-state" in
  let '(kind, tombstone_id, dir) := entry in
  try! p := quarantine_stem (tombstone_name kind tombstone_id) in
  let '(stem, expected_kind, failed_creation) := p in
  try! operation_id := parse_operation_id stem audit in
  try! operation := ok_or (audit_error audit "quarantine entry {name:?} has no durable operation")
    (operations !! operation_id) in
  let valid_outcome :=
    if failed_creation : bool then is_failed (so_outcome operation)
    else match so_outcome operation with Prepared | SucceededEmpty => true | _ => false end in
  check! reject_if (bool_decide (so_kind operation ≠ expected_kind) || negb valid_outcome)
    (audit_error audit "quarantine entry {name:?} disagrees with its durable operation");
  try! has_record := audit_container_layout dir in
  check! reject_if (negb has_record)
    (audit_error audit "quarantine entry {name:?} has no durable container record");
  try! stored := map_err (λ _, audit_error audit "invalid quarantine entry {name:?}: {error}")
    (load_stored_container_from_directory (so_container_id operation) dir) in
  check! reject_if
    (bool_decide (cr_generation (sc_record stored) ≠ so_generation operation)
     || bool_decide (sc_active_operation stored ≠ Some (so_operation_id operation))
     || negb (bool_decide (sc_init_io_operations stored = ∅)))
    (audit_error audit "quarantine entry {name:?} disagrees with its durable operation");
  check! (if container_exists (so_container_id operation) d then
            try! live := load_stored_container (so_container_id operation) d in
            reject_if (bool_decide (cr_generation (sc_record live) = so_generation operation))
              (audit_error audit "container {} generation {} is both live and quarantined")
          else Ok ());
  audit_process_entries stored dir operations false.

Definition audit_quarantine_entries (operations : OperationInventory) (d : Disk)
    : Result unit :=
  rfold (audit_quarantine_entry operations d) () (map_to_list (d_quarantine d)).

(** ** Event entries (startup_audit/event.rs) *)

Definition audit_event_entries (d : Disk) : Result unit :=
  check! rfold (audit_event_leaf valid_claim_stem) ()
    ((λ p, record_file_name p.1) <$> map_to_list (d_claims d));
  check! rfold (audit_event_leaf valid_record_stem) ()
    ((λ p, event_record_name p.1) <$> map_to_list (d_events d));
  audit_event_journal d.

(** ** The whole audit *)

Definition audit_startup_state (d : Disk) : Result unit :=
  try! operations := audit_operation_entries d in
  try! generations := audit_generation_entries d in
  check! audit_operation_generations operations generations;
  check! audit_container_entries operations generations d;
  check! audit_quarantine_entries operations d;
  audit_event_entries d.

(** [open_with_fault_injector] on an existing root: the root is usable when
    the audit passes. *)
Definition open_store : M () := read audit_startup_state.
End audit.
