(* ===== verification/HostService.v ===== *)
(** * The host service (crates/runtime/src/service.rs)

    [HostRuntimeService] composes the durable store, the driver registry and
    the drivers.  Every mutation has two phases: the store journals the intent,
    the driver acts, the store journals the answer, and the drivers are told
    that they may forget the operation.  A retryable driver error leaves the
    intent prepared, any other error is made durable first.

    The state is the store's world and the state of everything outside; a
    handler is a program over both.  The service's gates only order concurrent
    callers of the same operation and are modelled in OperationGates. *)

From stdpp Require Import base gmap strings list.
From S2P Require Import Prelude Collections Sdk Identifiers OutputBuffer Lifecycle Fault.
From S2P Require Import OciState Contracts Capabilities HostArtifact StoreModel Disk.
From S2P Require Import RestoreContract Journal Events Claims Create Start Kill Freezer Update.
From S2P Require Import ProcessStore ProcessIoStore FileStore CheckpointStore RestoreStore.
From S2P Require Import AttestationStore Delete Observe Driver DriverRegistry StartupAudit.
Local Open Scope string_scope.
Local Open Scope Z_scope.

(** ** Checks of driver answers *)

Definition driver_state_error (operation : string) : Error :=
  state_error FailedPrecondition operation
    "driver violated the OCI {operation} barrier: expected {expected}, observed {observed}".

Definition required_mutation_operation_id (context : option OperationContext) (operation : string)
    : Result string :=
  ok_or (state_error InvalidArgument operation
           "{subject} requires an idempotency operation context")
    (oc_operation_id <$> context).

(** [ensure_live_filesystem] of service.rs *)
Definition ensure_live_record (record : ContainerRecord) (operation : string) : Result () :=
  match st_status (cr_state record) with
  | Created | Running => Ok ()
  | _ => Err (state_error FailedPrecondition operation
                "container {} generation {:?} cannot serve {operation} while {}")
  end.

(** The per-process check of [processes]: each entry against the entries
    before it. *)
Definition invalid_inventory_entry (target : ContainerTarget) (before : list ProcessRecord)
    (p : ProcessRecord) : bool :=
  bool_decide (pt_container (pr_target p) ≠ target)
  || bool_decide (pr_pid p = None) || bool_decide (pr_pid p = Some 0)
  || existsb (λ candidate,
       bool_decide (pt_process_id (pr_target candidate) = pt_process_id (pr_target p))) before.
Fixpoint invalid_inventory (target : ContainerTarget) (before processes : list ProcessRecord)
    : bool :=
  match processes with
  | [] => false
  | p :: processes =>
      invalid_inventory_entry target before p
      || invalid_inventory target (before ++ [p])%list processes
  end.
Definition checked_inventory (record : ContainerRecord) (target : ContainerTarget)
    (processes : list ProcessRecord) : Result (list ProcessRecord) :=
  check! reject_if (invalid_inventory target [] processes)
    (state_error Conflict "processes" "runtime driver returned an invalid process inventory");
  check! reject_if
    (bool_decide (st_status (cr_state record) ≠ Stopped)
     && negb (existsb (λ p, is_init (pt_process_id (pr_target p))) processes))
    (state_error Conflict "processes"
       "runtime driver omitted the live init process from its inventory");
  Ok (sort_by_key (λ p, pt_process_id (pr_target p)) processes).

(** [validate_output_chunks]; the loop keeps the last sequence and the bytes. *)
Definition read_output_error (c : ErrorCode) (msg : string) : Error :=
  state_error c "read-output" msg.
Definition validate_output_chunk (s : Z * Z) (chunk : OutputChunk) : Result (Z * Z) :=
  let '(previous, total) := s in
  check! reject_if (negb (oc_eof chunk) && bool_decide (oc_data chunk = []))
    (read_output_error Conflict "runtime driver returned an empty process output data chunk");
  check! reject_if (oc_eof chunk && negb (bool_decide (oc_data chunk = [])))
    (read_output_error Internal "runtime driver returned output data in an EOF chunk");
  let width := if oc_eof chunk then 1 else data_len (oc_data chunk) in
  try! expected := ok_or
    (read_output_error ResourceExhausted "runtime driver output sequence space is exhausted")
    (checked_add_u64 previous width) in
  check! reject_if (bool_decide (oc_sequence chunk ≠ expected))
    (read_output_error Conflict
       "runtime driver returned a non-contiguous process output byte cursor");
  try! total := ok_or
    (read_output_error ResourceExhausted "runtime driver output byte count overflowed")
    (checked_add_u64 total (data_len (oc_data chunk))) in
  Ok (oc_sequence chunk, total).
Definition validate_output_chunks (chunks : list OutputChunk) (after_sequence max_bytes : Z)
    : Result () :=
  try! scanned := rfold validate_output_chunk (after_sequence, 0) chunks in
  reject_if (bool_decide (max_bytes < scanned.2))
    (read_output_error ResourceExhausted
       "runtime driver returned {total} bytes for a {max_bytes}-byte output poll").

Section host_service.
Context `{SE : StoreEnv} `{HE : HostEnv}.
Abbreviation Driver := (RuntimeDriver host_outside host_linux).

(** [validate_file_response] *)
Definition validate_file_response (response : FileResponse) (expected_target : ContainerTarget)
    (operation : FileOp) (expected_upload_size : option Z) : Result () :=
  check! reject_if (bool_decide (fileresp_target response ≠ expected_target))
    (state_error Conflict "file"
       "runtime driver returned a file response for a different container generation");
  check! reject_if (bool_decide (MAX_FILE_TRANSFER_BYTES < fileresp_size response))
    (state_error ResourceExhausted "file"
       "runtime driver returned a {}-byte file; maximum is {MAX_FILE_TRANSFER_BYTES}");
  match operation with
  | Upload =>
      reject_if (bool_decide (is_Some (fileresp_data response))
                 || bool_decide (Some (fileresp_size response) ≠ expected_upload_size))
        (state_error Conflict "file" "runtime driver returned an invalid upload acknowledgement")
  | Download =>
      try! data := ok_or
        (state_error Conflict "file" "runtime driver omitted the downloaded file payload")
        (fileresp_data response) in
      try! decoded := ok_or
        (state_error Conflict "file" "runtime driver returned invalid base64 file data: {error}")
        (base64_decode data) in
      reject_if (bool_decide (byte_len decoded ≠ fileresp_size response))
        (state_error Conflict "file" "runtime driver file size does not match its decoded payload")
  end.

(** [validate_filesystem_response] *)
Definition MAX_ENTRIES : Z := 4096.
Definition MAX_RESPONSE_BYTES : Z := 12 * 1024 * 1024.
Definition filesystem_shape_is_valid (response : FilesystemResponse) (operation : FilesystemOp)
    : bool :=
  match operation with
  | FsStat | FsMakeDir | FsMove =>
      bool_decide (is_Some (fsresp_entry response)) && bool_decide (fsresp_entries response = [])
  | FsListDir => bool_decide (fsresp_entry response = None)
  | FsRemove =>
      bool_decide (fsresp_entry response = None) && bool_decide (fsresp_entries response = [])
  end.
Definition validate_filesystem_response (response : FilesystemResponse)
    (expected_target : ContainerTarget) (operation : FilesystemOp) : Result () :=
  check! reject_if (bool_decide (fsresp_target response ≠ expected_target))
    (state_error Conflict "filesystem"
       "runtime driver returned filesystem data for a different container generation");
  check! reject_if (negb (filesystem_shape_is_valid response operation))
    (state_error Conflict "filesystem"
       "runtime driver returned an invalid filesystem response shape");
  check! reject_if (bool_decide (MAX_ENTRIES < Z.of_nat (length (fsresp_entries response))))
    (state_error ResourceExhausted "filesystem"
       "runtime driver returned more than {MAX_ENTRIES} filesystem entries");
  try! encoded := ok_or
    (state_error Internal "filesystem" "failed to size runtime filesystem response: {error}")
    (filesystem_response_len response) in
  reject_if (bool_decide (MAX_RESPONSE_BYTES < encoded))
    (state_error ResourceExhausted "filesystem"
       "runtime filesystem response exceeds {MAX_RESPONSE_BYTES} bytes").

(** ** The world of the service *)

Record HostWorld : Type := mkHostWorld {
  hw_store : World;
  hw_outside : host_outside
}.
Definition H (A : Type) : Type := prog HostWorld Error A.

(** A call of the store, and a call of a driver or of the operating system. *)
Definition store {A} (m : M A) : H A := λ hw,
  let '(r, w) := m (hw_store hw) in (r, mkHostWorld w (hw_outside hw)).
Definition outside {A} (m : prog host_outside Error A) : H A := λ hw,
  let '(r, o) := m (hw_outside hw) in (r, mkHostWorld (hw_store hw) o).
(** [let result = ...;] without [?] *)
Definition attempt {A} (m : H A) : H (Result A) := λ hw, let '(r, hw') := m hw in (Ok r, hw').
(** [.map_err(|error| error.for_operation(name))] *)
Definition relabel {A} (name : string) (m : H A) : H A := λ hw,
  let '(r, hw') := m hw in (map_err (λ e, for_operation e name) r, hw').

(** [HostRuntimeService]: the registry of an opened service, and the container
    and descriptors that a native control service is bound to. *)
Record HostRuntimeService : Type := mkService {
  svc_lifecycle : option DriverRegistry;
  svc_native_control : option (string * string)
}.
Definition service_new : HostRuntimeService := mkService None None.
Definition lifecycle (s : HostRuntimeService) (operation : string) : Result DriverRegistry :=
  ok_or (error_unsupported operation) (svc_lifecycle s).

(** ** [LifecycleHost] *)

Definition driver_boundary (operation : DriverOperation) (stage : DriverBoundaryStage) : H () :=
  store (check (DriverBoundary operation stage)).
(** A driver call between its two boundaries, its result kept as a value. *)
Definition driver_call {A} (operation : DriverOperation) (m : prog host_outside Error A)
    : H (Result A) :=
  do! driver_boundary operation BeforeCall;
  let! result := attempt (outside m) in
  do! driver_boundary operation AfterCall;
  ret result.

Definition ensure_attachments (registered : RegisteredDriver)
    (attachments : DriverCreateAttachments) : Result () :=
  if create_attachments_is_empty attachments || bool_decide (rd_kind registered = NativeLinux)
  then Ok ()
  else Err (state_error Unsupported "create"
              "driver {:?} does not accept native inherited descriptors").

Definition ensure_any_driver_operation (g : DriverRegistry) (operation : RuntimeOperation)
    (name : string) : Result () :=
  if any_driver_supports g operation then Ok () else Err (error_unsupported name).

Definition ensure_target_driver_operation (g : DriverRegistry) (operation_id : string)
    (target : ContainerTarget) (operation : RuntimeOperation) (name : string) : H () :=
  let! exists_ := relabel name (store (operation_exists operation_id)) in
  if exists_ : bool then ret ()
  else
    do! lift (ensure_any_driver_operation g operation name);
    let! record := relabel name (store (state target)) in
    let! registered := lift (get g (cr_driver record) name) in
    lift (ensure_operation registered operation name).

Definition acknowledge_operation (g : DriverRegistry) (operation_id : string) : H () :=
  outside (registry_acknowledge g operation_id).

Definition fail_driver_operation {A} (g : DriverRegistry) (operation_id : string) (error : Error)
    : H A :=
  if retryable error then fail error
  else
    do! store (fail_operation operation_id error);
    do! acknowledge_operation g operation_id;
    fail error.

Definition settle_existing_driver_operation {A} (g : DriverRegistry) (operation_id : string)
    (operation_exists : bool) (error : Error) : H A :=
  if operation_exists then fail_driver_operation g operation_id error else fail error.

(** [match result { Ok(value) => ..., Err(error) => return
    lifecycle.fail_driver_operation(operation_id, error).await }] *)
Definition or_fail {A B} (g : DriverRegistry) (operation_id : string) (result : Result A)
    (k : A → H B) : H B :=
  match result with Ok a => k a | Err error => fail_driver_operation g operation_id error end.
(** The same with [settle_existing_driver_operation]. *)
Definition or_settle {A B} (g : DriverRegistry) (operation_id : string) (operation_exists : bool)
    (result : Result A) (k : A → H B) : H B :=
  match result with
  | Ok a => k a
  | Err error => settle_existing_driver_operation g operation_id operation_exists error
  end.

Definition acknowledge_result {A} (g : DriverRegistry) (operation_id : string) (result : H A)
    : H A :=
  let! value := result in
  do! acknowledge_operation g operation_id;
  ret value.

(** [LifecycleHost::complete_process_wait] *)
Definition host_complete_process_wait (target : ProcessTarget) (status : ExitStatus)
    : H ExitStatus :=
  do! (if is_init (pt_process_id target) then
         do! store (observe_state (pt_container target) Stopped None); ret ()
       else ret ());
  store (complete_process_wait target status).

(** ** Opening the service *)

(** The capability probe of each driver, in order. *)
Fixpoint probe_drivers (drivers : list Driver) : H (list DriverRegistration) :=
  match drivers with
  | [] => ret []
  | driver :: drivers =>
      do! driver_boundary DriverCapabilityOp BeforeCall;
      let capability := drv_capability driver in
      do! driver_boundary DriverCapabilityOp AfterCall;
      let! registrations := probe_drivers drivers in
      ret (mkRegistration driver capability :: registrations)
  end.

(** What a driver observed of a recorded container is adopted by the store. *)
Definition adopt_observation (target : ContainerTarget) (recovery : DriverRecovery)
    (observation : DriverState) : H () :=
  match rec_recreated_process recovery with
  | RecreatedCreated =>
      do! store (observe_recreated_created_process target observation); ret ()
  | RecreatedRunning =>
      do! store (observe_recreated_running_process target observation);
      do! store (observe_recreated_exec_processes target (rec_recreated_exec_processes recovery));
      ret ()
  | RecreatedRunningPaused =>
      do! store (observe_recreated_paused_running_process target observation); ret ()
  | RecreatedNone =>
      do! store (observe_state_with_pause target (ds_status observation) (ds_pid observation)
                   (ds_paused observation));
      ret ()
  end.

Definition recover_record (g : DriverRegistry) (record : ContainerRecord) : H () :=
  let! id := lift (validate_identifier (st_id (cr_state record))) in
  let target := target_exact id (cr_generation record) in
  let! attachments := store (attachment_contract target) in
  let! registered := lift (validate_durable_record g record attachments) in
  do! driver_boundary DriverRecover BeforeCall;
  let! recovery := outside (drv_recover (rd_driver registered) record) in
  do! driver_boundary DriverRecover AfterCall;
  do! match rec_observation recovery with
      | Some observation => adopt_observation target recovery observation
      | None => ret ()
      end;
  match rec_init_exit_status recovery with
  | Some status =>
      do! store (complete_process_wait (mkProcessTarget target INIT_PROCESS_ID) status); ret ()
  | None => ret ()
  end.

(** [open_with_drivers_and_fault_injector]; the injector is the world's. *)
Definition open_with_drivers (drivers : list Driver) : H HostRuntimeService :=
  let! registrations := probe_drivers drivers in
  let! g := lift (registry_new registrations) in
  do! store open_store;
  let! records := store (list_containers (mkListRequest None)) in
  do! for_each (recover_record g) records;
  ret (mkService (Some g) None).

Definition open_with_native_control_descriptors (driver : Driver) (container_id : string)
    (descriptors : string) : H HostRuntimeService :=
  do! lift (descriptor_plan descriptors);
  let! service := open_with_drivers [driver] in
  ret (mkService (svc_lifecycle service) (Some (container_id, descriptors))).

(** ** Create, state, start, kill and delete *)

(** The staged bundle that a driver answers must carry the durable
    configuration and satisfy the attachment contract. *)
Definition check_staged_bundle (staged durable : OciBundle) (contract : CreateAttachments)
    (operation msg : string) : Result () :=
  check! reject_if (bool_decide (bundle_config staged ≠ bundle_config durable)
                    || bool_decide (bundle_config_digest staged ≠ bundle_config_digest durable))
    (state_error FailedPrecondition operation msg);
  attachments_validate contract staged.

Definition with_bundle (r : DriverCreateRequest) (b : OciBundle) : DriverCreateRequest :=
  mkDriverCreateRequest (dcr_context r) (dcr_target r) b (dcr_isolation r) (dcr_io r)
    (dcr_attachment_contract r) (dcr_tee_launch r) (dcr_attachments r).

Definition create_internal (s : HostRuntimeService) (request : CreateRequest)
    (attachments : DriverCreateAttachments) : H ContainerRecord :=
  let operation_id := oc_operation_id (create_context request) in
  do! lift (create_request_validate request);
  let! tee_launch := lift (attachments_tee_launch (create_attachments request)
                             (create_bundle request)) in
  let! g := lift (lifecycle s "create") in
  let! registered := lift (select g (isolation_class (create_isolation request)) "create") in
  do! lift (linux_validate_spec (reg_linux_support g) (create_bundle request) "create");
  do! lift (drv_validate_create_bundle (rd_driver registered) (create_bundle request));
  do! lift (require_attachments (rd_attachments registered) (create_attachments request));
  do! lift (ensure_attachments registered attachments);
  let! prepared := store (prepare_create request (rd_kind registered)
                            (create_attachments_schema attachments)) in
  match prepared with
  | RecordReplayed record => acknowledge_result g operation_id (ret record)
  | RecordPrepared record | RecordResume record =>
      let target := target_exact (create_id request) (cr_generation record) in
      let! durable_bundle := store (bundle target) in
      let driver_request := mkDriverCreateRequest (create_context request) target durable_bundle
        (create_isolation request) (attachments_process_io (create_attachments request))
        (create_attachments request) tee_launch attachments in
      do! driver_boundary DriverCreate BeforeCall;
      let! staged := attempt (outside (drv_prepare_create_bundle (rd_driver registered)
                                         driver_request)) in
      or_fail g operation_id staged (λ staged_bundle,
      or_fail g operation_id
        (check_staged_bundle staged_bundle durable_bundle (create_attachments request) "create"
           "driver create-bundle preparation changed immutable configuration bytes") (λ _,
      let! result := attempt (outside (drv_create (rd_driver registered)
                                         (with_bundle driver_request staged_bundle))) in
      do! driver_boundary DriverCreate AfterCall;
      or_fail g operation_id result (λ observed,
      if bool_decide (ds_status observed ≠ Created) then
        fail_driver_operation g operation_id (driver_state_error "create")
      else
        let! pid := lift (ok_or
          (state_error Internal "create" "created driver state did not contain an init PID")
          (ds_pid observed)) in
        acknowledge_result g operation_id (store (complete_create operation_id pid)))))
  end.

Definition create_with_native_control_descriptors (s : HostRuntimeService)
    (request : CreateRequest) (descriptors : string) : H ContainerRecord :=
  do! lift (descriptor_plan descriptors);
  create_internal s request (AttachNativeControl descriptors).

Definition host_create (s : HostRuntimeService) (request : CreateRequest) : H ContainerRecord :=
  match svc_native_control s with
  | Some (container_id, descriptors) =>
      if bool_decide (create_id request = container_id)
      then create_internal s request (AttachNativeControl descriptors)
      else fail (state_error PermissionDenied "create"
             "native control service is bound to container {}; refusing create for {}")
  | None => create_internal s request AttachNone
  end.

Definition host_state (s : HostRuntimeService) (request : StateRequest) : H ContainerRecord :=
  let! g := lift (lifecycle s "state") in
  let! durable := store (state (state_target request)) in
  if bool_decide (st_status (cr_state durable) = Creating) then ret durable
  else
    let! registered := lift (get g (cr_driver durable) "state") in
    let target := target_exact (ct_id (state_target request)) (cr_generation durable) in
    let! result := driver_call DriverStateOp (drv_state (rd_driver registered) target) in
    let! observed := lift result in
    let! reconciled := store (observe_state_with_pause target (ds_status observed)
                                (ds_pid observed) (ds_paused observed)) in
    if bool_decide (ds_status observed ≠ Stopped) || negb (supports_operation registered OpWait)
    then ret reconciled
    else
      let! prepared := store (prepare_wait_process
        (mkWaitProcessRequest (mkProcessTarget target INIT_PROCESS_ID) (Some 0))) in
      match prepared with
      | WaitReplayed _ => ret reconciled
      | WaitPrepared process =>
          let! result := driver_call DriverWait
            (drv_wait (rd_driver registered) (mkDriverWaitRequest (pt_container process) (Some 0))) in
          match result with
          | Err error =>
              match code error with
              | FailedPrecondition | DeadlineExceeded => ret reconciled
              | _ => fail error
              end
          | Ok status =>
              do! lift (exit_status_validate status);
              do! host_complete_process_wait process status;
              ret reconciled
          end
      end.

Definition host_start (s : HostRuntimeService) (request : StartRequest) : H ContainerRecord :=
  let operation_id := oc_operation_id (start_context request) in
  let! g := lift (lifecycle s "start") in
  let! prepared := store (Start.prepare_start request) in
  match prepared with
  | RecordReplayed record => acknowledge_result g operation_id (ret record)
  | RecordPrepared record | RecordResume record =>
      let! registered := lift (get g (cr_driver record) "start") in
      let target := target_exact (ct_id (start_target request)) (cr_generation record) in
      let! durable_bundle := store (bundle target) in
      let! result := driver_call DriverStart
        (drv_start (rd_driver registered)
           (mkDriverStartRequest (start_context request) target durable_bundle)) in
      or_fail g operation_id result (λ observed,
      match ds_status observed with
      | Running | Stopped =>
          acknowledge_result g operation_id
            (store (Start.complete_start operation_id (ds_status observed) (ds_pid observed)))
      | _ => fail_driver_operation g operation_id (driver_state_error "start")
      end)
  end.

Definition host_kill (s : HostRuntimeService) (request : KillRequest) : H ContainerRecord :=
  let operation_id := oc_operation_id (kill_context request) in
  let! g := lift (lifecycle s "kill") in
  let! prepared := store (Kill.prepare_kill request) in
  match prepared with
  | RecordReplayed record => acknowledge_result g operation_id (ret record)
  | RecordPrepared record | RecordResume record =>
      let! registered := lift (get g (cr_driver record) "kill") in
      let target := target_exact (ct_id (kill_target request)) (cr_generation record) in
      let! result := driver_call DriverKill
        (drv_kill (rd_driver registered)
           (mkDriverKillRequest (kill_context request) target (kill_signal request)
              (kill_all request))) in
      or_fail g operation_id result (λ observed,
      acknowledge_result g operation_id
        (store (Kill.complete_kill operation_id (ds_status observed) (ds_pid observed))))
  end.

Definition host_delete (s : HostRuntimeService) (request : DeleteRequest) : H () :=
  let operation_id := oc_operation_id (delete_context request) in
  let! g := lift (lifecycle s "delete") in
  let! prepared := store (prepare_delete request) in
  match prepared with
  | DeleteReplayed => acknowledge_result g operation_id (ret ())
  | DeletePrepared record | DeleteResume record =>
      let! registered := lift (get g (cr_driver record) "delete") in
      let target := target_exact (ct_id (delete_target request)) (cr_generation record) in
      let! result := driver_call DriverDelete
        (drv_delete (rd_driver registered)
           (mkDriverDeleteRequest (delete_context request) target (delete_mode request))) in
      or_fail g operation_id result (λ _,
      acknowledge_result g operation_id (store (complete_delete operation_id)))
  end.

(** ** Processes *)

(** [let container = store.state(&target).await?;
    let registered = lifecycle.driver(container.driver, name)?;] *)
Definition recorded_driver (g : DriverRegistry) (target : ContainerTarget) (name : string)
    : H RegisteredDriver :=
  let! container := store (state target) in
  lift (get g (cr_driver container) name).

Definition host_exec (s : HostRuntimeService) (request : ExecRequest) : H ProcessRecord :=
  let operation_id := oc_operation_id (exec_context request) in
  let! g := lift (lifecycle s "exec") in
  do! lift (validate_exec_request request);
  do! lift (linux_validate_process (reg_linux_support g) (exec_process request) "exec");
  do! ensure_target_driver_operation g operation_id (exec_container request) OpExec "exec";
  let! prepared := store (prepare_exec request) in
  match prepared with
  | ProcessReplayed record => acknowledge_result g operation_id (ret record)
  | ProcessPrepared durable | ProcessResume durable =>
      let target := pr_target durable in
      let! registered := recorded_driver g (pt_container target) "exec" in
      or_fail g operation_id (ensure_operation registered OpExec "exec") (λ _,
      let! result := driver_call DriverExec
        (drv_exec (rd_driver registered)
           (mkDriverExecRequest (exec_context request) target (exec_process request)
              (exec_io request))) in
      or_fail g operation_id result (λ process,
      acknowledge_result g operation_id
        (store (complete_exec operation_id (dp_pid process) (dp_terminal process)))))
  end.

Definition host_wait (s : HostRuntimeService) (request : WaitRequest) : H ExitStatus :=
  let! g := lift (lifecycle s "wait") in
  do! lift (ensure_any_driver_operation g OpWait "wait");
  let process_request := mkWaitProcessRequest
    (mkProcessTarget (waitreq_target request) INIT_PROCESS_ID) (waitreq_timeout_ms request) in
  let! prepared := store (prepare_wait_process process_request) in
  match prepared with
  | WaitReplayed status => ret status
  | WaitPrepared target =>
      let! registered := recorded_driver g (pt_container target) "wait" in
      do! lift (ensure_operation registered OpWait "wait");
      let! result := driver_call DriverWait
        (drv_wait (rd_driver registered)
           (mkDriverWaitRequest (pt_container target) (waitreq_timeout_ms request))) in
      let! status := lift result in
      do! lift (exit_status_validate status);
      host_complete_process_wait target status
  end.

Definition host_wait_process (s : HostRuntimeService) (request : WaitProcessRequest)
    : H ExitStatus :=
  let! g := lift (lifecycle s "wait-process") in
  do! lift (ensure_any_driver_operation g OpWaitProcess "wait-process");
  let! prepared := store (prepare_wait_process request) in
  match prepared with
  | WaitReplayed status => ret status
  | WaitPrepared target =>
      let! registered := recorded_driver g (pt_container target) "wait-process" in
      do! lift (ensure_operation registered OpWaitProcess "wait-process");
      let! result := driver_call DriverWaitProcess
        (drv_wait_process (rd_driver registered)
           (mkDriverWaitProcessRequest target (wait_timeout_ms request))) in
      let! status := lift result in
      do! lift (exit_status_validate status);
      host_complete_process_wait target status
  end.

Definition host_signal_process (s : HostRuntimeService) (request : SignalProcessRequest) : H () :=
  let operation_id := oc_operation_id (sig_context request) in
  let! g := lift (lifecycle s "signal-process") in
  do! ensure_target_driver_operation g operation_id (pt_container (sig_process request))
    OpSignalProcess "signal-process";
  let! prepared := store (prepare_signal_process request) in
  match prepared with
  | SignalReplayed => acknowledge_result g operation_id (ret ())
  | SignalPrepared target | SignalResume target =>
      let! registered := recorded_driver g (pt_container target) "signal-process" in
      or_fail g operation_id (ensure_operation registered OpSignalProcess "signal-process") (λ _,
      let! result := driver_call DriverSignalProcess
        (drv_signal_process (rd_driver registered)
           (mkDriverSignalProcessRequest (sig_context request) target (sig_signal request))) in
      or_fail g operation_id result (λ _,
      acknowledge_result g operation_id (store (complete_signal_process operation_id))))
  end.

(** The common body of [write_stdin], [close_stdin] and [resize]. *)
Definition host_process_io (g : DriverRegistry) (operation_id : string)
    (container : ContainerTarget) (operation : RuntimeOperation) (name : string)
    (boundary : DriverOperation) (prepare : M ProcessIoPreparation)
    (call : RegisteredDriver → ProcessTarget → prog host_outside Error ())
    (complete : M ()) : H () :=
  do! ensure_target_driver_operation g operation_id container operation name;
  let! prepared := store prepare in
  match prepared with
  | IoReplayed => acknowledge_result g operation_id (ret ())
  | IoPrepared target | IoResume target =>
      let! registered := recorded_driver g (pt_container target) name in
      or_fail g operation_id (ensure_operation registered operation name) (λ _,
      let! result := driver_call boundary (call registered target) in
      or_fail g operation_id result (λ _,
      acknowledge_result g operation_id (store complete)))
  end.

Definition host_write_stdin (s : HostRuntimeService) (request : WriteStdinRequest) : H () :=
  let operation_id := oc_operation_id (ws_context request) in
  let! g := lift (lifecycle s "write-stdin") in
  do! lift (validate_write_stdin_request request);
  host_process_io g operation_id (pt_container (ws_process request)) OpWriteStdin "write-stdin"
    DriverWriteStdin (prepare_write_stdin request)
    (λ registered target, drv_write_stdin (rd_driver registered)
       (mkDriverWriteStdinRequest (ws_context request) target (ws_data request)))
    (complete_write_stdin operation_id).

Definition host_close_stdin (s : HostRuntimeService) (request : CloseStdinRequest) : H () :=
  let operation_id := oc_operation_id (cs_context request) in
  let! g := lift (lifecycle s "close-stdin") in
  host_process_io g operation_id (pt_container (cs_process request)) OpCloseStdin "close-stdin"
    DriverCloseStdin (prepare_close_stdin request)
    (λ registered target, drv_close_stdin (rd_driver registered)
       (mkDriverCloseStdinRequest (cs_context request) target))
    (complete_close_stdin operation_id).

Definition host_resize (s : HostRuntimeService) (request : ResizeRequest) : H () :=
  let operation_id := oc_operation_id (rz_context request) in
  let! g := lift (lifecycle s "resize") in
  do! lift (validate_resize_request request);
  host_process_io g operation_id (pt_container (rz_process request)) OpResize "resize"
    DriverResize (prepare_resize request)
    (λ registered target, drv_resize (rd_driver registered)
       (mkDriverResizeRequest (rz_context request) target (rz_size request)))
    (complete_resize operation_id).

Definition host_processes (s : HostRuntimeService) (request : ProcessesRequest)
    : H (list ProcessRecord) :=
  let! g := lift (lifecycle s "processes") in
  do! lift (ensure_any_driver_operation g OpProcesses "processes");
  let! record := store (state (processes_target request)) in
  let! registered := lift (get g (cr_driver record) "processes") in
  do! lift (ensure_operation registered OpProcesses "processes");
  let target := target_exact (ct_id (processes_target request)) (cr_generation record) in
  let! result := driver_call DriverProcesses (drv_processes (rd_driver registered) target) in
  let! processes := lift result in
  lift (checked_inventory record target processes).

Definition host_read_output (s : HostRuntimeService) (request : ReadOutputRequest)
    : H (list OutputChunk) :=
  let! g := lift (lifecycle s "read-output") in
  do! lift (ensure_any_driver_operation g OpReadOutput "read-output");
  do! lift (validate_read_output_request request);
  let! target := store (resolve_process_target (ro_process request) "read-output") in
  let! registered := recorded_driver g (pt_container target) "read-output" in
  do! lift (ensure_operation registered OpReadOutput "read-output");
  let! result := driver_call DriverReadOutput
    (drv_read_output (rd_driver registered)
       (mkDriverReadOutputRequest target (ro_after_sequence request) (ro_max_bytes request)
          (ro_wait_timeout_ms request))) in
  let! chunks := lift result in
  do! lift (validate_output_chunks chunks (ro_after_sequence request) (ro_max_bytes request));
  ret chunks.

(** ** Containers *)

Definition host_list (s : HostRuntimeService) (request : ListRequest) : H (list ContainerRecord) :=
  do! lift (lifecycle s "list"); store (list_containers request).
Definition host_events (s : HostRuntimeService) (request : EventsRequest) : H EventBatch :=
  do! lift (lifecycle s "events"); store (events request).

(** The common body of [pause] and [resume]. *)
Definition host_freezer (s : HostRuntimeService) (request : ContainerOperationRequest)
    (operation : RuntimeOperation) (name : string) (boundary : DriverOperation)
    (action : FreezerAction)
    (call : RegisteredDriver → DriverContainerOperationRequest → prog host_outside Error DriverState)
    : H ContainerRecord :=
  let operation_id := oc_operation_id (cop_context request) in
  let! g := lift (lifecycle s name) in
  do! ensure_target_driver_operation g operation_id (cop_target request) operation name;
  let! prepared := store (prepare_freezer request action) in
  match prepared with
  | RecordReplayed record => acknowledge_result g operation_id (ret record)
  | RecordPrepared record | RecordResume record =>
      let! registered := lift (get g (cr_driver record) name) in
      or_fail g operation_id (ensure_operation registered operation name) (λ _,
      let target := target_exact (ct_id (cop_target request)) (cr_generation record) in
      let! result := driver_call boundary
        (call registered (mkDriverContainerOperationRequest (cop_context request) target)) in
      or_fail g operation_id result (λ observed,
      acknowledge_result g operation_id
        (store (complete_freezer operation_id (ds_status observed) (ds_pid observed)
                  (ds_paused observed) action))))
  end.
Definition host_pause (s : HostRuntimeService) (request : ContainerOperationRequest)
    : H ContainerRecord :=
  host_freezer s request OpPause "pause" DriverPause Pause (λ d, drv_pause (rd_driver d)).
Definition host_resume (s : HostRuntimeService) (request : ContainerOperationRequest)
    : H ContainerRecord :=
  host_freezer s request OpResume "resume" DriverResume Resume (λ d, drv_resume (rd_driver d)).

Definition host_update (s : HostRuntimeService) (request : UpdateRequest) : H ContainerRecord :=
  let operation_id := oc_operation_id (update_context request) in
  let! g := lift (lifecycle s "update") in
  do! lift (semantic_validate_resources (update_resources request));
  do! lift (linux_validate_resources (reg_linux_support g) (update_resources request) "update");
  do! ensure_target_driver_operation g operation_id (update_target request) OpUpdate "update";
  let! prepared := store (prepare_update request) in
  match prepared with
  | RecordReplayed record => acknowledge_result g operation_id (ret record)
  | RecordPrepared record | RecordResume record =>
      let! registered := lift (get g (cr_driver record) "update") in
      or_fail g operation_id (ensure_operation registered OpUpdate "update") (λ _,
      let target := target_exact (ct_id (update_target request)) (cr_generation record) in
      let! result := driver_call DriverUpdate
        (drv_update (rd_driver registered)
           (mkDriverUpdateRequest (update_context request) target (update_resources request))) in
      or_fail g operation_id result (λ observed,
      acknowledge_result g operation_id
        (store (complete_update operation_id (ds_status observed) (ds_pid observed)
                  (ds_paused observed)))))
  end.

Definition host_stats (s : HostRuntimeService) (request : StatsRequest) : H ContainerStats :=
  let! g := lift (lifecycle s "stats") in
  do! lift (ensure_any_driver_operation g OpStats "stats");
  let! record := store (state (statsreq_target request)) in
  let! registered := lift (get g (cr_driver record) "stats") in
  do! lift (ensure_operation registered OpStats "stats");
  let target := target_exact (ct_id (statsreq_target request)) (cr_generation record) in
  let! result := driver_call DriverStats (drv_stats (rd_driver registered) target) in
  let! stats := lift result in
  do! lift (reject_if (bool_decide (stats_target stats ≠ target))
    (state_error Conflict "stats"
       "runtime driver returned stats for a different container generation"));
  do! lift (container_stats_validate name_has_control_or_space stats);
  do! lift (reject_if (bool_decide (st_status (cr_state record) ≠ Stopped)
                       && bool_decide (stats_process_count stats = 0))
    (state_error Conflict "stats" "runtime driver returned zero processes for a live container"));
  ret stats.
End host_service.
