(* ===== verification/HostContracts.v ===== *)
(** * The host service: files, checkpoint, restore and attestation (crates/runtime/src/service.rs)

    The handlers that check what a driver returned before they make it
    durable: a response bound to the requested generation, an artifact verified
    on disk, evidence bound to the invoking host. *)

From stdpp Require Import base gmap strings list.
From S2P Require Import Prelude Collections Sdk Identifiers OutputBuffer Lifecycle Fault.
From S2P Require Import OciState Contracts Capabilities HostArtifact StoreModel Disk.
From S2P Require Import RestoreContract Journal Events Claims Create Start Kill Freezer Update.
From S2P Require Import ProcessStore ProcessIoStore FileStore CheckpointStore RestoreStore.
From S2P Require Import AttestationStore Delete Observe Driver DriverRegistry StartupAudit.
From S2P Require Import HostService.
Local Open Scope string_scope.
Local Open Scope Z_scope.

Section host_contracts.
Context `{SE : StoreEnv} `{HE : HostEnv}.

(** ** Files *)

Definition with_file_target (r : FileRequest) (t : ContainerTarget) : FileRequest :=
  mkFileRequest t (file_op r) (file_path r) (file_data r) (file_user r) (file_context r).
Definition with_filesystem_target (r : FilesystemRequest) (t : ContainerTarget)
    : FilesystemRequest :=
  mkFilesystemRequest t (fs_op r) (fs_path r) (fs_destination r) (fs_depth r) (fs_user r)
    (fs_context r).

(** [request.data.map(|data| STANDARD.decode(data)).transpose()...map(len)] *)
Definition expected_upload_size (request : FileRequest) : Result (option Z) :=
  match file_data request with
  | None => Ok None
  | Some data =>
      try! decoded := ok_or
        (state_error InvalidArgument "file" "file upload data is not valid base64: {error}")
        (base64_decode data) in
      Ok (Some (byte_len decoded))
  end.

Definition host_upload (g : DriverRegistry) (request : FileRequest) : H FileResponse :=
  let! operation_id := lift (required_mutation_operation_id (file_context request) "file") in
  let! expected := lift (expected_upload_size request) in
  do! ensure_target_driver_operation g operation_id (file_target request) OpFile "file";
  let! prepared := store (prepare_file_mutation request) in
  match prepared with
  | MutationReplayed response => acknowledge_result g operation_id (ret response)
  | MutationPrepared target | MutationResume target =>
      let! registered := recorded_driver g target "file" in
      or_fail g operation_id (ensure_operation registered OpFile "file") (λ _,
      let! result := driver_call DriverFile
        (drv_file (rd_driver registered) (with_file_target request target)) in
      or_fail g operation_id result (λ response,
      or_fail g operation_id (validate_file_response response target Upload expected) (λ _,
      acknowledge_result g operation_id (store (complete_file_mutation operation_id response)))))
  end.
Definition host_download (g : DriverRegistry) (request : FileRequest) : H FileResponse :=
  do! lift (ensure_any_driver_operation g OpFile "file");
  let! record := store (state (file_target request)) in
  do! lift (ensure_live_record record "file");
  let! registered := lift (get g (cr_driver record) "file") in
  do! lift (ensure_operation registered OpFile "file");
  let target := target_exact (ct_id (file_target request)) (cr_generation record) in
  let! result := driver_call DriverFile
    (drv_file (rd_driver registered) (with_file_target request target)) in
  let! response := lift result in
  do! lift (validate_file_response response target (file_op request) None);
  ret response.
Definition host_file (s : HostRuntimeService) (request : FileRequest) : H FileResponse :=
  let! g := lift (lifecycle s "file") in
  do! lift (validate_file_request base64_decoded_len request);
  if bool_decide (file_op request = Upload) then host_upload g request
  else host_download g request.

Definition host_filesystem_mutation (g : DriverRegistry) (request : FilesystemRequest)
    : H FilesystemResponse :=
  let! operation_id := lift (required_mutation_operation_id (fs_context request) "filesystem") in
  do! ensure_target_driver_operation g operation_id (fs_target request) OpFilesystem "filesystem";
  let! prepared := store (prepare_filesystem_mutation request) in
  match prepared with
  | MutationReplayed response => acknowledge_result g operation_id (ret response)
  | MutationPrepared target | MutationResume target =>
      let! registered := recorded_driver g target "filesystem" in
      or_fail g operation_id (ensure_operation registered OpFilesystem "filesystem") (λ _,
      let! result := driver_call DriverFilesystem
        (drv_filesystem (rd_driver registered) (with_filesystem_target request target)) in
      or_fail g operation_id result (λ response,
      or_fail g operation_id (validate_filesystem_response response target (fs_op request)) (λ _,
      acknowledge_result g operation_id
        (store (complete_filesystem_mutation operation_id response)))))
  end.
Definition host_filesystem_query (g : DriverRegistry) (request : FilesystemRequest)
    : H FilesystemResponse :=
  do! lift (ensure_any_driver_operation g OpFilesystem "filesystem");
  let! record := store (state (fs_target request)) in
  do! lift (ensure_live_record record "filesystem");
  let! registered := lift (get g (cr_driver record) "filesystem") in
  do! lift (ensure_operation registered OpFilesystem "filesystem");
  let target := target_exact (ct_id (fs_target request)) (cr_generation record) in
  let! result := driver_call DriverFilesystem
    (drv_filesystem (rd_driver registered) (with_filesystem_target request target)) in
  let! response := lift result in
  do! lift (validate_filesystem_response response target (fs_op request));
  ret response.
Definition host_filesystem (s : HostRuntimeService) (request : FilesystemRequest)
    : H FilesystemResponse :=
  let! g := lift (lifecycle s "filesystem") in
  do! lift (validate_filesystem_request request);
  if fs_is_mutating (fs_op request) then host_filesystem_mutation g request
  else host_filesystem_query g request.

(** ** Checkpoint *)

(** [artifact::current().await.map_err(|error| error.for_operation(name))] *)
Definition current_artifact (name : string) : H RuntimeArtifact :=
  relabel name (outside artifact_current).

(** The compatibility evidence of a checkpoint against the source and the host. *)
Definition foreign_checkpoint (source : ContainerRecord) (artifact : RuntimeArtifact)
    (c : CheckpointCompatibility) : bool :=
  bool_decide (cc_driver c ≠ cr_driver source) || bool_decide (cc_isolation c ≠ cr_isolation source)
  || bool_decide (cc_platform c ≠ host_platform)
  || bool_decide (cc_architecture c ≠ host_architecture)
  || bool_decide (cc_runtime_artifact c ≠ artifact).

Definition retryable_checkpoint (e : Error) : Error :=
  set_retryable (for_operation e "checkpoint") true.

(** The part of [checkpoint] after the driver answered. *)
Definition finish_checkpoint (g : DriverRegistry) (request : CheckpointRequest)
    (source : ContainerRecord) (runtime_artifact : RuntimeArtifact)
    (result : DriverCheckpointResult) : H CheckpointResponse :=
  let operation_id := oc_operation_id (ckr_context request) in
  let compatibility := dcres_compatibility result in
  if foreign_checkpoint source runtime_artifact compatibility then
    fail_driver_operation g operation_id
      (set_retryable (state_error FailedPrecondition "checkpoint"
         "runtime driver returned checkpoint compatibility evidence for a different execution stack")
         true)
  else
    let! verified := attempt (outside (verify_checkpoint_artifact (ckr_artifact_path request)
      (dcres_artifact_digest result) (dcres_artifact_size_bytes result) "checkpoint")) in
    or_fail g operation_id verified (λ _,
    or_fail g operation_id
      (map_err retryable_checkpoint
         (reference_new source compatibility (dcres_artifact_digest result)
            (dcres_artifact_size_bytes result))) (λ reference,
    or_fail g operation_id
      (map_err retryable_checkpoint
         (try! response := checkpoint_response_new source reference in
          check! checkpoint_response_validate_for_request response request;
          Ok response)) (λ response,
    acknowledge_result g operation_id (store (complete_checkpoint operation_id response))))).

Definition host_checkpoint (s : HostRuntimeService) (request : CheckpointRequest)
    : H CheckpointResponse :=
  let operation_id := oc_operation_id (ckr_context request) in
  do! lift (checkpoint_request_validate request);
  let! g := lift (lifecycle s "checkpoint") in
  let! exists_ := store (operation_exists operation_id) in
  let! preflight :=
    (if exists_ : bool then ret None
     else let! artifact := current_artifact "checkpoint" in ret (Some artifact)) in
  do! (if exists_ : bool then ret ()
       else ensure_target_driver_operation g operation_id (ckr_target request) OpCheckpoint
              "checkpoint");
  let! prepared := store (prepare_checkpoint request) in
  match prepared with
  | CheckpointReplayed response => acknowledge_result g operation_id (ret response)
  | CheckpointPrepared source | CheckpointResume source =>
      let! artifact :=
        match preflight with
        | Some artifact => ret (Ok artifact)
        | None => attempt (current_artifact "checkpoint")
        end in
      or_fail g operation_id artifact (λ runtime_artifact,
      or_fail g operation_id (get g (cr_driver source) "checkpoint") (λ registered,
      or_fail g operation_id (ensure_operation registered OpCheckpoint "checkpoint") (λ _,
      let! result := driver_call DriverCheckpoint
        (drv_checkpoint (rd_driver registered)
           (mkDriverCheckpointRequest (ckr_context request) source (ckr_artifact_path request)
              runtime_artifact)) in
      or_fail g operation_id result (finish_checkpoint g request source runtime_artifact))))
  end.

(** ** Restore *)

(** The checks of [restore] before the driver is asked, each settled when the
    operation is already journaled. *)
Definition restore_preflight (g : DriverRegistry) (request : RestoreRequest)
    (reference : CheckpointReference) (runtime_artifact : RuntimeArtifact)
    : Result RegisteredDriver :=
  let compatibility := cref_compatibility reference in
  check! reject_if
    (bool_decide (cc_platform compatibility ≠ host_platform)
     || bool_decide (cc_architecture compatibility ≠ host_architecture)
     || bool_decide (cc_runtime_artifact compatibility ≠ runtime_artifact))
    (state_error FailedPrecondition "restore"
       "checkpoint reference is incompatible with the current Host platform, architecture, or executable");
  try! registered := get g (cc_driver compatibility) "restore" in
  check! ensure_operation registered OpRestore "restore";
  check! reject_if
    (negb (bool_decide (isolation_class (rr_isolation request)
                        ∈ dc_isolation_classes (rd_capability registered))))
    (state_error Unsupported "restore"
       "checkpoint restore isolation is not provided by its recorded driver");
  check! linux_validate_spec (reg_linux_support g) (rr_bundle request) "restore";
  check! drv_validate_create_bundle (rd_driver registered) (rr_bundle request);
  check! require_attachments (rd_attachments registered) (rr_attachments request);
  Ok registered.

Definition with_restore_bundle (r : DriverRestoreRequest) (b : OciBundle) : DriverRestoreRequest :=
  mkDriverRestoreRequest (drest_context r) (drest_target r) b (drest_artifact_path r)
    (drest_isolation r) (drest_io r) (drest_attachment_contract r) (drest_tee_launch r)
    (drest_reference r) (drest_runtime_artifact r).

(** The part of [restore] after its intent is journaled. *)
Definition dispatch_restore (g : DriverRegistry) (registered : RegisteredDriver)
    (request : RestoreRequest) (tee_launch : option TeeLaunchRequest)
    (reference : CheckpointReference) (runtime_artifact : RuntimeArtifact)
    (restoring : ContainerRecord) : H RestoreResponse :=
  let operation_id := oc_operation_id (rr_context request) in
  let target := target_exact (rr_id request) (cr_generation restoring) in
  let! durable_bundle := store (bundle target) in
  let driver_request := mkDriverRestoreRequest (rr_context request) target durable_bundle
    (rr_artifact_path request) (rr_isolation request)
    (attachments_process_io (rr_attachments request)) (rr_attachments request) tee_launch
    reference runtime_artifact in
  do! driver_boundary DriverRestore BeforeCall;
  let! staged := attempt (outside (drv_prepare_restore_bundle (rd_driver registered)
                                     driver_request)) in
  or_fail g operation_id staged (λ staged_bundle,
  or_fail g operation_id
    (check_staged_bundle staged_bundle durable_bundle (rr_attachments request) "restore"
       "driver restore-bundle preparation changed immutable configuration bytes") (λ _,
  let! restored := attempt (outside (drv_restore (rd_driver registered)
                                       (with_restore_bundle driver_request staged_bundle))) in
  do! driver_boundary DriverRestore AfterCall;
  or_fail g operation_id restored (λ restored,
  let! pid := lift (ok_or
    (set_retryable (state_error FailedPrecondition "restore"
       "restore driver returned no positive init PID") true) (ds_pid restored)) in
  do! lift (reject_if
    (bool_decide (ds_status restored ≠ Running) || negb (ds_paused restored)
     || bool_decide (pid ≤ 0))
    (set_retryable (state_error FailedPrecondition "restore"
       "restore driver must return one paused running generation with a positive init PID") true));
  acknowledge_result g operation_id (store (complete_restore operation_id pid))))).

Definition host_restore (s : HostRuntimeService) (request : RestoreRequest) : H RestoreResponse :=
  let operation_id := oc_operation_id (rr_context request) in
  do! lift (restore_request_validate request);
  let! tee_launch := lift (attachments_tee_launch (rr_attachments request) (rr_bundle request)) in
  let! g := lift (lifecycle s "restore") in
  let! found := store (lookup_restore request) in
  match found with
  | RestoreFound response => acknowledge_result g operation_id (ret response)
  | RestorePending =>
      let! exists_ := store (operation_exists operation_id) in
      do! lift (reject_if (negb exists_ && negb (any_driver_supports g OpRestore))
        (error_unsupported "restore"));
      let! reference := lift (restore_reference request) in
      let! artifact := attempt (current_artifact "restore") in
      or_settle g operation_id exists_ artifact (λ runtime_artifact,
      or_settle g operation_id exists_ (restore_preflight g request reference runtime_artifact)
        (λ registered,
      let! verified := attempt (outside (verify_checkpoint_artifact (rr_artifact_path request)
        (cref_artifact_digest reference) (cref_artifact_size_bytes reference) "restore")) in
      or_settle g operation_id exists_ verified (λ _,
      let! validation := driver_call DriverRestoreValidation
        (drv_validate_restore_artifact (rd_driver registered)
           (mkDriverRestoreValidationRequest (rr_context request) (rr_artifact_path request)
              reference runtime_artifact)) in
      or_settle g operation_id exists_ validation (λ _,
      let! prepared := store (prepare_restore request (rd_kind registered)) in
      match prepared with
      | RestoreReplayed response => acknowledge_result g operation_id (ret response)
      | RestorePrepared restoring | RestoreResume restoring =>
          dispatch_restore g registered request tee_launch reference runtime_artifact restoring
      end))))
  end.

(** ** Attestation *)

Definition attestation_response (request : TeeAttestationRequest) (source : AttestationSource)
    (result : DriverAttestationResult) : Result TeeAttestationResponse :=
  try! digest := ok_or
    (state_error FailedPrecondition "attest"
       "TEE attestation source has no attachment-manifest digest")
    (cr_attachments_digest (asrc_record source)) in
  try! config_digest := tee_sha256_new (cr_config_digest (asrc_record source)) in
  try! attachments_digest := tee_sha256_new digest in
  attest_response_new (atr_target request) (asrc_launch source) (atr_report_data request)
    config_digest attachments_digest (cr_driver (asrc_record source))
    (dares_runtime_artifact result) (dares_driver_build_digest result) (dares_measurement result)
    (dares_evidence result).

(** The part of [attest] after its intent is journaled; [fresh] intents must be
    answered by the invoking host. *)
Definition dispatch_attestation (g : DriverRegistry) (registered : RegisteredDriver)
    (request : TeeAttestationRequest) (runtime_artifact : RuntimeArtifact)
    (source : AttestationSource) (fresh : bool) : H TeeAttestationResponse :=
  let operation_id := oc_operation_id (atr_context request) in
  let! result := driver_call DriverAttest
    (drv_attest (rd_driver registered)
       (mkDriverAttestationRequest (atr_context request) (asrc_record source) (asrc_launch source)
          (atr_report_data request) runtime_artifact)) in
  or_fail g operation_id result (λ result,
  if fresh && bool_decide (dares_runtime_artifact result ≠ runtime_artifact) then
    fail_driver_operation g operation_id (state_error FailedPrecondition "attest"
      "fresh TEE attestation evidence is not bound to the invoking Host artifact")
  else
    or_fail g operation_id (attestation_response request source result) (λ response,
    acknowledge_result g operation_id (store (complete_attestation operation_id response)))).

Definition host_attest (s : HostRuntimeService) (request : TeeAttestationRequest)
    : H TeeAttestationResponse :=
  let operation_id := oc_operation_id (atr_context request) in
  do! lift (attest_request_validate request);
  let! g := lift (lifecycle s "attest") in
  let! found := store (lookup_attestation request) in
  match found with
  | AttestationFound response => acknowledge_result g operation_id (ret response)
  | AttestationPending =>
      do! lift (ensure_any_driver_operation g OpAttest "attest");
      let! preview := store (attestation_source (atr_target request)) in
      let! registered := lift (get g (cr_driver (asrc_record preview)) "attest") in
      do! lift (ensure_operation registered OpAttest "attest");
      do! lift (reject_if
        (negb (supports_extension (rd_attachments registered)
                 (extension_name (tl_technology (asrc_launch preview)))
                 TEE_LAUNCH_EXTENSION_VERSION))
        (error_unsupported "attest"));
      let! runtime_artifact := current_artifact "attest" in
      let! prepared := store (prepare_attestation request) in
      match prepared with
      | AttestationReplayed response => acknowledge_result g operation_id (ret response)
      | AttestationPrepared source =>
          dispatch_attestation g registered request runtime_artifact source true
      | AttestationResume source =>
          dispatch_attestation g registered request runtime_artifact source false
      end
  end.
End host_contracts.
