(* ===== verification/Machine.v ===== *)
(** * Abstract store machine

    The durable lifecycle store seen from outside: one constructor of [astep]
    per kind of durable change, with the guard that makes the change
    legitimate.  The operations of the store refine this machine under every
    fault injector (files Refine*.v); the invariants and the monotonicity of
    the durable state are proved here, once, by induction on its runs. *)

From stdpp Require Import base gmap strings list relations.
From S2P Require Import Prelude Sdk Identifiers Lifecycle Fault OciState Contracts StoreModel Disk.
From S2P Require Import RestoreContract Journal.
From S2P Require Import Events Claims.
Local Open Scope string_scope.
Local Open Scope Z_scope.

(** A name accepted by [validate_identifier]. *)
Definition valid_id (s : string) : Prop := validate_identifier s = Ok s.

(** The live record of a container. *)
Definition live_record (id : string) (d : Disk) : option StoredContainer :=
  d_containers d !! id ≫= cd_record.

Definition last_gen (id : string) (d : Disk) : Z :=
  match d_generations d !! id with Some g => sg_last_generation g | None => 0 end.

Definition cursor_value (d : Disk) : Z :=
  match d_cursor d with Some c => sec_last_sequence c | None => 0 end.

(** A legitimate rewrite of a container record: identity, generation, driver,
    digests and attachments stay, the OCI state follows the lifecycle machine,
    and a recorded exit status is final. *)
Record record_step (c c' : StoredContainer) : Prop := {
  rs_schema : sc_schema_version c' = sc_schema_version c;
  rs_id : sc_id c' = sc_id c;
  rs_attachments : sc_attachments c' = sc_attachments c;
  rs_record : sc_record c' = with_state (cr_state (sc_record c')) (sc_record c);
  rs_state_id : st_id (cr_state (sc_record c')) = st_id (cr_state (sc_record c));
  rs_bundle : st_bundle (cr_state (sc_record c')) = st_bundle (cr_state (sc_record c));
  rs_lifecycle : lifecycle_reach (st_status (cr_state (sc_record c)))
                   (st_status (cr_state (sc_record c')));
  rs_exit : ∀ x, sc_init_exit_status c = Some x → sc_init_exit_status c' = Some x
}.

(** A legitimate rewrite of a process record. *)
Record process_step (p p' : StoredProcess) : Prop := {
  ps_target : pr_target (sp_record p') = pr_target (sp_record p);
  ps_terminal : pr_terminal (sp_record p') = pr_terminal (sp_record p);
  ps_exit : ∀ x, sp_exit_status p = Some x → sp_exit_status p' = Some x
}.

(** A success whose response may be rebound to a recovered process identity:
    everything but the OCI state, or the PID of a process, stays. *)
Definition rebinds (o o' : StoredOperationStatus) : Prop :=
  match o, o' with
  | Succeeded r, Succeeded r' => ∃ st, r' = with_state st r
  | SucceededProcess r, SucceededProcess r' =>
      pr_target r' = pr_target r ∧ pr_terminal r' = pr_terminal r
  | SucceededRestore r, SucceededRestore r' =>
      rresp_reference r' = rresp_reference r ∧
      ∃ st, rresp_restored r' = with_state st (rresp_restored r)
  | _, _ => False
  end.

(** The operation kind whose directory a tombstone holds. *)
Definition tombstone_kind (k : TombstoneKind) : StoredOperationKind :=
  match k with Deleted => KDelete | FailedCreate => KCreate | FailedRestore => KRestore end.

Section machine.
Context `{SE : StoreEnv}.

Definition put_operation (o : string) (op : StoredOperation) : Disk → Disk :=
  commit_file (FileOperation o op).

Inductive astep (d : Disk) : Disk → Prop :=
  (** A generation is allocated: the counter grows by one. *)
  | step_generation id :
      valid_id id → last_gen id d < u64_max →
      astep d (commit_file (FileGeneration id
        (mkStoredGeneration GENERATION_SCHEMA_VERSION id (last_gen id d + 1))) d)
  (** A creation takes the newest generation, which no other creation has. *)
  | step_prepare_creation op :
      valid_id (so_operation_id op) → valid_id (so_container_id op) →
      d_operations d !! so_operation_id op = None →
      so_schema_version op = OPERATION_SCHEMA_VERSION → so_outcome op = Prepared →
      validate_stored_operation_shape op = Ok () → is_creation (so_kind op) = true →
      so_generation op = last_gen (so_container_id op) d → 0 < so_generation op →
      (∀ o' op', d_operations d !! o' = Some op' → is_creation (so_kind op') = true →
         so_container_id op' = so_container_id op → so_generation op' ≠ so_generation op) →
      astep d (put_operation (so_operation_id op) op d)
  (** Any other operation is bound to the live generation. *)
  | step_prepare op c :
      valid_id (so_operation_id op) →
      d_operations d !! so_operation_id op = None →
      so_schema_version op = OPERATION_SCHEMA_VERSION → so_outcome op = Prepared →
      validate_stored_operation_shape op = Ok () → is_creation (so_kind op) = false →
      live_record (so_container_id op) d = Some c →
      so_generation op = cr_generation (sc_record c) →
      astep d (put_operation (so_operation_id op) op d)
  (** A prepared operation gets its terminal outcome. *)
  | step_finish o op outcome :
      d_operations d !! o = Some op → so_outcome op = Prepared → outcome ≠ Prepared →
      validate_stored_operation_shape (set_outcome outcome op) = Ok () →
      astep d (put_operation o (set_outcome outcome op) d)
  | step_rebind o op outcome :
      d_operations d !! o = Some op → rebinds (so_outcome op) outcome →
      validate_stored_operation_shape (set_outcome outcome op) = Ok () →
      astep d (put_operation o (set_outcome outcome op) d)
  (** The directory of a container is built up. *)
  | step_mkdir id :
      valid_id id → d_containers d !! id = None → astep d (make_container_dir id d)
  | step_config id dir bytes :
      d_containers d !! id = Some dir → cd_config dir = None →
      astep d (commit_file (FileConfig id bytes) d)
  | step_create id dir c op :
      d_containers d !! id = Some dir → cd_record dir = None →
      sc_id c = id → st_id (cr_state (sc_record c)) = id →
      st_status (cr_state (sc_record c)) = Creating →
      d_operations d !! so_operation_id op = Some op → so_outcome op = Prepared →
      is_creation (so_kind op) = true → so_container_id op = id →
      so_generation op = cr_generation (sc_record c) →
      sc_active_operation c = Some (so_operation_id op) →
      astep d (commit_file (FileRecord id c) d)
  | step_record id c c' :
      live_record id d = Some c → record_step c c' →
      astep d (commit_file (FileRecord id c') d)
  (** Process records. *)
  | step_process_directory id dir c :
      d_containers d !! id = Some dir → cd_record dir = Some c → cd_processes dir = None →
      astep d (make_process_dir id d)
  | step_process_transaction id process_id p :
      parent_exists (FileProcess id process_id p) d = true →
      astep d (open_transaction (FileProcess id process_id p) d)
  | step_process id process_id p :
      parent_exists (FileProcess id process_id p) d = true →
      (∀ dir pd p0, d_containers d !! id = Some dir → cd_processes dir = Some pd →
         pd_records pd !! process_id = Some p0 → process_step p0 p) →
      astep d (commit_file (FileProcess id process_id p)
                 (open_transaction (FileProcess id process_id p) d))
  (** A directory with its record is quarantined by the operation that owns
      its generation. *)
  | step_quarantine kind op c :
      live_record (so_container_id op) d = Some c →
      d_quarantine d !! (kind, so_operation_id op) = None →
      d_operations d !! so_operation_id op = Some op →
      so_kind op = tombstone_kind kind → cr_generation (sc_record c) = so_generation op →
      match kind with Deleted => so_outcome op = Prepared | _ => is_failed (so_outcome op) = true end →
      astep d (move_to_quarantine (so_container_id op) (kind, so_operation_id op) d)
  (** The event journal: cursor, claim, record. *)
  | step_cursor :
      cursor_value d < u64_max →
      astep d (commit_file (FileCursor
        (mkStoredEventCursor EVENT_CURSOR_SCHEMA_VERSION (cursor_value d + 1))) d)
  | step_claim k :
      sk_schema_version k = EVENT_CLAIM_SCHEMA_VERSION →
      d_claims d !! event_identity_hash (sk_identity k) = None →
      0 < ev_sequence (sk_event k) ≤ cursor_value d →
      (∀ h k', d_claims d !! h = Some k' → ev_sequence (sk_event k') ≠ ev_sequence (sk_event k)) →
      validate_exact_event_target (sk_event k) = Ok () →
      validate_event_identity (sk_identity k) (sk_event k) = Ok () →
      astep d (commit_file (FileClaim (event_identity_hash (sk_identity k)) k) d)
  | step_event h k :
      d_claims d !! h = Some k → d_events d !! ev_sequence (sk_event k) = None →
      astep d (commit_file (FileEvent (ev_sequence (sk_event k))
        (mkStoredEventRecord EVENT_RECORD_SCHEMA_VERSION (sk_event k))) d).

(** ** Invariants *)

Record generations_inv (d : Disk) : Prop := {
  gi_schema id g : d_generations d !! id = Some g →
    valid_id id ∧ sg_schema_version g = GENERATION_SCHEMA_VERSION ∧ sg_id g = id ∧
    0 < sg_last_generation g ≤ u64_max
}.

Record operations_inv (d : Disk) : Prop := {
  oi_entry o op : d_operations d !! o = Some op →
    valid_id o ∧ so_operation_id op = o ∧ so_schema_version op = OPERATION_SCHEMA_VERSION ∧
    validate_stored_operation_shape op = Ok () ∧
    0 < so_generation op ≤ last_gen (so_container_id op) d;
  oi_creation o o' op op' : d_operations d !! o = Some op → d_operations d !! o' = Some op' →
    is_creation (so_kind op) = true → is_creation (so_kind op') = true →
    so_container_id op = so_container_id op' → so_generation op = so_generation op' → o = o'
}.

Record containers_inv (d : Disk) : Prop := {
  ci_id id dir : d_containers d !! id = Some dir → valid_id id;
  ci_record id c : live_record id d = Some c →
    sc_id c = id ∧ st_id (cr_state (sc_record c)) = id ∧
    0 < cr_generation (sc_record c) ≤ last_gen id d
}.

Record quarantine_inv (d : Disk) : Prop := {
  qi_entry kind o dir : d_quarantine d !! (kind, o) = Some dir →
    ∃ op c, d_operations d !! o = Some op ∧ cd_record dir = Some c ∧
      so_kind op = tombstone_kind kind ∧ sc_id c = so_container_id op ∧
      cr_generation (sc_record c) = so_generation op
}.

Record events_inv (d : Disk) : Prop := {
  ei_cursor c : d_cursor d = Some c →
    sec_schema_version c = EVENT_CURSOR_SCHEMA_VERSION ∧ 0 ≤ sec_last_sequence c ≤ u64_max;
  ei_claim h k : d_claims d !! h = Some k →
    sk_schema_version k = EVENT_CLAIM_SCHEMA_VERSION ∧
    event_identity_hash (sk_identity k) = h ∧
    0 < ev_sequence (sk_event k) ≤ cursor_value d ∧
    validate_exact_event_target (sk_event k) = Ok () ∧
    validate_event_identity (sk_identity k) (sk_event k) = Ok ();
  ei_unique h h' k k' : d_claims d !! h = Some k → d_claims d !! h' = Some k' →
    ev_sequence (sk_event k) = ev_sequence (sk_event k') → h = h';
  ei_event s r : d_events d !! s = Some r →
    sr_schema_version r = EVENT_RECORD_SCHEMA_VERSION ∧ ev_sequence (sr_event r) = s ∧
    ∃ h k, d_claims d !! h = Some k ∧ sk_event k = sr_event r
}.

Record store_inv (d : Disk) : Prop := {
  si_generations : generations_inv d;
  si_operations : operations_inv d;
  si_containers : containers_inv d;
  si_quarantine : quarantine_inv d;
  si_events : events_inv d
}.
End machine.

(** ** Effects of the primitive changes on the projections *)

Section projections.
Implicit Types d : Disk.

Lemma live_record_some id d c :
  live_record id d = Some c ↔ ∃ dir, d_containers d !! id = Some dir ∧ cd_record dir = Some c.
Proof. unfold live_record. destruct (d_containers d !! id); naive_solver. Qed.

(** Which live record a container has after a change of its directory that
    keeps or replaces the record. *)
Lemma live_record_alter f id id' d :
  live_record id' (set_containers (alter f id (d_containers d)) d) =
    if decide (id = id') then d_containers d !! id ≫= (λ dir, cd_record (f dir))
    else live_record id' d.
Proof.
  unfold live_record. simpl. case_decide as Heq.
  - subst id'. rewrite lookup_alter_eq. by destruct (d_containers d !! id).
  - by rewrite lookup_alter_ne.
Qed.

Lemma live_record_put id id' c d :
  live_record id' (commit_file (FileRecord id c) d) =
    if decide (id = id') then d_containers d !! id ≫= (λ _, Some c) else live_record id' d.
Proof. simpl. by rewrite live_record_alter. Qed.

Lemma live_record_config id id' b d :
  live_record id' (commit_file (FileConfig id b) d) = live_record id' d.
Proof.
  simpl. rewrite live_record_alter. case_decide; [subst|done].
  unfold live_record. by destruct (d_containers d !! id').
Qed.

Lemma live_record_open f id d : live_record id (open_transaction f d) = live_record id d.
Proof.
  destruct f; try done. simpl. rewrite live_record_alter. case_decide; [subst|done].
  unfold live_record. by destruct (d_containers d !! id).
Qed.

Lemma live_record_process id id' pid p d :
  live_record id' (commit_file (FileProcess id pid p) d) = live_record id' d.
Proof.
  simpl. rewrite live_record_alter. case_decide; [subst|done].
  unfold live_record. by destruct (d_containers d !! id').
Qed.

Lemma live_record_process_dir id id' d :
  live_record id' (make_process_dir id d) = live_record id' d.
Proof.
  unfold make_process_dir. rewrite live_record_alter. case_decide; [subst|done].
  unfold live_record. by destruct (d_containers d !! id').
Qed.

Lemma live_record_mkdir id id' d :
  d_containers d !! id = None →
  live_record id' (make_container_dir id d) = live_record id' d.
Proof.
  intros H. unfold live_record, make_container_dir; simpl. destruct (decide (id = id')) as [->|].
  - by rewrite lookup_insert_eq, H.
  - by rewrite lookup_insert_ne.
Qed.

Lemma live_record_quarantine id id' t d :
  live_record id' (move_to_quarantine id t d) =
    if decide (id = id') then None else live_record id' d.
Proof.
  unfold live_record, move_to_quarantine. destruct (d_containers d !! id) as [dir|] eqn:H; simpl.
  - case_decide; [subst; by rewrite lookup_delete_eq|by rewrite lookup_delete_ne].
  - case_decide; [subst; by rewrite H|done].
Qed.

(** Directories only appear through [make_container_dir]. *)
Lemma containers_alter (f : ContainerDir → ContainerDir) (id id' : string)
    (m : gmap string ContainerDir) dir :
  alter f id m !! id' = Some dir → is_Some (m !! id').
Proof. intros H. eapply lookup_alter_is_Some. rewrite H. eauto. Qed.

Lemma move_to_quarantine_fields id t d :
  d_generations (move_to_quarantine id t d) = d_generations d ∧
  d_operations (move_to_quarantine id t d) = d_operations d ∧
  d_cursor (move_to_quarantine id t d) = d_cursor d ∧
  d_claims (move_to_quarantine id t d) = d_claims d ∧
  d_events (move_to_quarantine id t d) = d_events d.
Proof. unfold move_to_quarantine. by destruct (d_containers d !! id). Qed.

Lemma last_gen_quarantine id id' t d :
  last_gen id (move_to_quarantine id' t d) = last_gen id d.
Proof. unfold last_gen. by destruct (move_to_quarantine_fields id' t d) as (-> & _). Qed.

Lemma last_gen_put id id' g d :
  last_gen id' (commit_file (FileGeneration id g) d) =
    if decide (id = id') then sg_last_generation g else last_gen id' d.
Proof.
  unfold last_gen; simpl. case_decide; [subst; by rewrite lookup_insert_eq|by rewrite lookup_insert_ne].
Qed.
End projections.

(** ** Preservation *)

Section preservation.
Context `{SE : StoreEnv}.
Implicit Types d : Disk.

Lemma last_gen_nonneg id d : generations_inv d → 0 ≤ last_gen id d ≤ u64_max.
Proof.
  intros H. unfold last_gen. destruct (d_generations d !! id) as [g|] eqn:Hg; [|done].
  apply (gi_schema d H) in Hg as (_ & _ & _ & ?). lia.
Qed.

Lemma last_gen_step d d' id : generations_inv d → astep d d' → last_gen id d ≤ last_gen id d'.
Proof.
  intros Hg Hs. destruct Hs; try (unfold last_gen; simpl; lia).
  - rewrite last_gen_put. case_decide; [subst; simpl; lia|lia].
  - rewrite last_gen_quarantine. lia.
Qed.

Lemma generations_inv_step d d' : generations_inv d → astep d d' → generations_inv d'.
Proof.
  intros Hg Hs. pose proof (gi_schema d Hg) as Hsch. destruct Hs;
    try (constructor; simpl; exact Hsch).
  - constructor. intros id' g. simpl. destruct (decide (id = id')) as [->|].
    + rewrite lookup_insert_eq. intros [= <-]. simpl.
      pose proof (last_gen_nonneg id' d Hg). repeat split; [done|lia|lia].
    + rewrite lookup_insert_ne by done. apply Hsch.
  - constructor. intros id g. rewrite (proj1 (move_to_quarantine_fields _ _ d)). apply Hsch.
Qed.

(** The operations of [d'] are those of [d] with one entry put. *)
Lemma operations_inv_frame d d' :
  d_operations d' = d_operations d → (∀ id, last_gen id d ≤ last_gen id d') →
  operations_inv d → operations_inv d'.
Proof.
  intros Hops Hlast [He Hc]. constructor; rewrite Hops; [|exact Hc].
  intros o op Ho. destruct (He o op Ho) as (? & ? & ? & ? & ?).
  specialize (Hlast (so_container_id op)). repeat split; try done; lia.
Qed.

Lemma operations_inv_put d o op :
  operations_inv d → valid_id o → so_operation_id op = o →
  so_schema_version op = OPERATION_SCHEMA_VERSION →
  validate_stored_operation_shape op = Ok () →
  0 < so_generation op ≤ last_gen (so_container_id op) d →
  (∀ o' op', d_operations d !! o' = Some op' → is_creation (so_kind op') = true →
     is_creation (so_kind op) = true →
     so_container_id op' = so_container_id op → so_generation op' = so_generation op → o' = o) →
  operations_inv (put_operation o op d).
Proof.
  intros [He Hc] Hv Hid Hsch Hshape Hgen Huniq. constructor; simpl.
  - intros o' op'. destruct (decide (o = o')) as [->|].
    + rewrite lookup_insert_eq. by intros [= <-].
    + rewrite lookup_insert_ne by done. apply He.
  - intros o1 o2 op1 op2 H1 H2. rewrite lookup_insert_Some in H1, H2.
    destruct H1 as [[<- <-]|[? ?]], H2 as [[<- <-]|[? ?]]; intros; eauto; symmetry; eauto.
Qed.

Lemma operations_inv_outcome d o op outcome :
  operations_inv d → d_operations d !! o = Some op →
  validate_stored_operation_shape (set_outcome outcome op) = Ok () →
  operations_inv (put_operation o (set_outcome outcome op) d).
Proof.
  intros Hinv Ho Hshape. destruct (oi_entry d Hinv o op Ho) as (? & ? & ? & ? & ?).
  apply operations_inv_put; simpl; try done.
  intros o' op' Ho' ? ? ? ?. symmetry. by eapply (oi_creation d Hinv).
Qed.

Lemma operations_inv_step d d' :
  generations_inv d → containers_inv d → operations_inv d → astep d d' → operations_inv d'.
Proof.
  intros Hg Hc Hinv Hs. pose proof (λ id, last_gen_step d d' id Hg Hs) as Hlast.
  destruct Hs; try (apply (operations_inv_frame d); [done|exact Hlast|exact Hinv]).
  - apply operations_inv_put; try done; [lia|]. intros. exfalso. naive_solver.
  - match goal with H : live_record _ _ = Some _ |- _ =>
      apply (ci_record d Hc) in H as (? & ? & ?) end.
    apply operations_inv_put; try done; [lia|]. intros. congruence.
  - by apply operations_inv_outcome.
  - by apply operations_inv_outcome.
  - apply (operations_inv_frame d); [apply move_to_quarantine_fields|exact Hlast|exact Hinv].
Qed.

Lemma containers_inv_frame d d' :
  (∀ id dir, d_containers d' !! id = Some dir → is_Some (d_containers d !! id)) →
  (∀ id c, live_record id d' = Some c → ∃ c0, live_record id d = Some c0 ∧ sc_id c = sc_id c0 ∧
     st_id (cr_state (sc_record c)) = st_id (cr_state (sc_record c0)) ∧
     cr_generation (sc_record c) = cr_generation (sc_record c0)) →
  (∀ id, last_gen id d ≤ last_gen id d') →
  containers_inv d → containers_inv d'.
Proof.
  intros Hdirs Hrec Hlast [Hid Hr]. constructor.
  - intros id dir [dir0 H0]%Hdirs. by eapply Hid.
  - intros id c (c0 & Hc0 & -> & -> & ->)%Hrec. destruct (Hr id c0 Hc0) as (? & ? & ?).
    specialize (Hlast id). repeat split; try done; lia.
Qed.

Lemma containers_inv_step d d' :
  generations_inv d → operations_inv d → containers_inv d → astep d d' → containers_inv d'.
Proof.
  intros Hg Ho Hinv Hs. pose proof (λ id, last_gen_step d d' id Hg Hs) as Hlast.
  destruct Hs; try (apply (containers_inv_frame d); [eauto|eauto 6|exact Hlast|exact Hinv]; fail).
  - (* mkdir *) constructor.
    + intros id' dir. simpl. destruct (decide (id = id')) as [->|]; [done|].
      rewrite lookup_insert_ne by done. apply (ci_id d Hinv).
    + intros id' c. rewrite live_record_mkdir by done. apply (ci_record d Hinv).
  - (* config *) apply (containers_inv_frame d); [simpl; eauto using containers_alter| |done|done].
    intros id' c. rewrite live_record_config. eauto 6.
  - (* create *) constructor.
    + simpl. intros id' dir' [? H']%containers_alter. by eapply (ci_id d Hinv).
    + intros id' c'. rewrite live_record_put. case_decide; [|apply (ci_record d Hinv)].
      subst id'. match goal with H : d_containers d !! id = Some _ |- _ => rewrite H end.
      simpl. intros [= <-].
      match goal with H : d_operations d !! _ = Some op |- _ =>
        apply (oi_entry d Ho) in H as (_ & _ & _ & _ & ?) end.
      match goal with H : so_container_id op = id |- _ => rewrite H in * end.
      repeat split; try done; unfold last_gen in *; simpl; lia.
  - (* record *) apply (containers_inv_frame d); [simpl; eauto using containers_alter| |done|done].
    intros id' c0. rewrite live_record_put. case_decide; [|eauto 6]. subst id'.
    pose proof H as Hl. apply live_record_some in H as (dir & -> & _). simpl. intros [= <-].
    exists c. destruct H0 as [? ? ? Hrec ? ? ? ?]. repeat split; try done. by rewrite Hrec.
  - (* processes *) apply (containers_inv_frame d); [simpl; eauto using containers_alter| |done|done].
    intros id' c0. rewrite live_record_process_dir. eauto 6.
  - (* transaction *) apply (containers_inv_frame d); [simpl; eauto using containers_alter| |done|done].
    intros id' c0. rewrite live_record_open. eauto 6.
  - (* process *)
    apply (containers_inv_frame d); [| |done|done].
    + simpl. intros id' dir [? H']%containers_alter.
      by apply containers_alter in H'.
    + intros id' c0. rewrite live_record_process, live_record_open. eauto 6.
  - (* quarantine *) apply (containers_inv_frame d); [| |done|done].
    + intros id dir. unfold move_to_quarantine.
      destruct (d_containers d !! so_container_id op) eqn:E; simpl; [|eauto].
      intros [? ?]%lookup_delete_Some. eauto.
    + intros id c0. rewrite live_record_quarantine. case_decide; [done|eauto 6].
Qed.

Lemma quarantine_inv_frame d d' :
  d_quarantine d' = d_quarantine d →
  (∀ o op, d_operations d !! o = Some op → ∃ op', d_operations d' !! o = Some op' ∧
     so_kind op' = so_kind op ∧ so_container_id op' = so_container_id op ∧
     so_generation op' = so_generation op) →
  quarantine_inv d → quarantine_inv d'.
Proof.
  intros Hq Hops [He]. constructor. rewrite Hq. intros kind o dir Hdir.
  destruct (He kind o dir Hdir) as (op & c & Hop & ? & ? & ? & ?).
  destruct (Hops o op Hop) as (op' & ? & Hk & Hc & Hg). exists op', c.
  rewrite Hk, Hc, Hg. done.
Qed.

Lemma quarantine_inv_step d d' :
  containers_inv d → quarantine_inv d → astep d d' → quarantine_inv d'.
Proof.
  intros Hc Hinv Hs.
  destruct Hs; try (apply (quarantine_inv_frame d); [done|eauto|exact Hinv]; fail).
  1-4: apply (quarantine_inv_frame d); [done| |done]; intros o' op'; simpl;
    match goal with |- context [<[?k := _]> _] => destruct (decide (k = o')) as [<-|] end;
    rewrite ?lookup_insert_eq, ?lookup_insert_ne by done; intros; simplify_eq; eauto.
  constructor. intros kind' o dir.
  match goal with H : live_record _ d = Some c |- _ =>
    pose proof (ci_record d Hc _ _ H) as (Hid & _); apply live_record_some in H as (dir0 & Hdir0 & Hrec) end.
  destruct (move_to_quarantine_fields (so_container_id op) (kind, so_operation_id op) d)
    as (_ & -> & _). unfold move_to_quarantine. rewrite Hdir0. simpl.
  rewrite lookup_insert_Some. intros [[[= <- <-] <-]|[_ Hq]]; [eauto 10|by apply (qi_entry d Hinv)].
Qed.

Lemma events_inv_frame d d' :
  d_cursor d' = d_cursor d → d_claims d' = d_claims d → d_events d' = d_events d →
  events_inv d → events_inv d'.
Proof.
  intros Hcur Hcl Hev [H1 H2 H3 H4].
  constructor; unfold cursor_value in *; rewrite ?Hcur, ?Hcl, ?Hev; done.
Qed.

Lemma cursor_value_bounds d : events_inv d → 0 ≤ cursor_value d ≤ u64_max.
Proof.
  intros H. unfold cursor_value. destruct (d_cursor d) as [c|] eqn:E; [|done].
  by apply (ei_cursor d H) in E as [_ ?].
Qed.

Lemma events_inv_step d d' : events_inv d → astep d d' → events_inv d'.
Proof.
  intros Hinv Hs. pose proof (cursor_value_bounds d Hinv) as Hcv.
  destruct Hs; try (apply (events_inv_frame d); [done..|exact Hinv]; fail).
  - (* quarantine *)
    destruct (move_to_quarantine_fields (so_container_id op) (kind, so_operation_id op) d)
      as (_ & _ & ? & ? & ?). by apply (events_inv_frame d).
  - (* cursor *) destruct Hinv as [H1 H2 H3 H4]. constructor; simpl; [|..|exact H3|exact H4].
    + intros c [= <-]. simpl. split; [done|lia].
    + intros h k Hk. destruct (H2 h k Hk) as (? & ? & ? & ? & ?).
      unfold cursor_value in *; simpl. repeat split; try done; lia.
  - (* claim *) destruct Hinv as [H1' H2' H3' H4']. constructor; simpl; [exact H1'|..].
    + intros h k'. rewrite lookup_insert_Some. intros [[<- <-]|[_ Hk]]; [done|by apply H2'].
    + intros h1 h2 k1 k2. rewrite !lookup_insert_Some.
      intros [[<- <-]|[? Hk1]] [[<- <-]|[? Hk2]] Heq; try done;
        [exfalso; naive_solver|exfalso; naive_solver|by eapply H3'].
    + intros s r Hr. destruct (H4' s r Hr) as (? & ? & h & k' & Hk' & ?).
      repeat split; try done. exists h, k'. split; [|done].
      rewrite lookup_insert_ne; [done|congruence].
  - (* event *) destruct Hinv as [H1' H2' H3' H4']. constructor; simpl; [done..|].
    intros s r. rewrite lookup_insert_Some. intros [[<- <-]|[_ Hr]]; [|by apply H4'].
    simpl. eauto 6.
Qed.

Lemma store_inv_step d d' : store_inv d → astep d d' → store_inv d'.
Proof.
  intros [? ? ? ? ?] Hs.
  constructor; eauto using generations_inv_step, operations_inv_step, containers_inv_step,
    quarantine_inv_step, events_inv_step.
Qed.

Lemma store_inv_steps d d' : rtc astep d d' → store_inv d → store_inv d'.
Proof. induction 1; eauto using store_inv_step. Qed.

Lemma store_inv_empty : store_inv empty_disk.
Proof.
  repeat constructor; unfold live_record in *; simpl in *;
    try (intros; repeat match goal with H : ∅ !! _ = Some _ |- _ => by rewrite lookup_empty in H end);
    try done.
  all: intros; rewrite lookup_empty in *; simpl in *; done.
Qed.
End preservation.

(** ** Monotonicity of runs *)

(** The terminal outcome of an operation is final, up to the rebinding of a
    successful response to a recovered process identity. *)
Definition outcome_le (o o' : StoredOperationStatus) : Prop :=
  o = Prepared ∨ o' = o ∨ rebinds o o'.

Record operation_le (op op' : StoredOperation) : Prop := {
  ol_id : so_operation_id op' = so_operation_id op;
  ol_kind : so_kind op' = so_kind op;
  ol_container : so_container_id op' = so_container_id op;
  ol_generation : so_generation op' = so_generation op;
  ol_process : so_process_id op' = so_process_id op;
  ol_request : so_request op' = so_request op;
  ol_digest : so_request_digest op' = so_request_digest op;
  ol_outcome : outcome_le (so_outcome op) (so_outcome op')
}.

(** The record of a live container has progressed along its lifecycle, live
    or in a quarantine entry. *)
Definition record_kept (id : string) (c : StoredContainer) (d : Disk) : Prop :=
  (∃ c', live_record id d = Some c' ∧ record_step c c') ∨
  (∃ kind o dir c', d_quarantine d !! (kind, o) = Some dir ∧ cd_record dir = Some c' ∧
     record_step c c').

(** Everything that a run keeps. *)
Record disk_le (d d' : Disk) : Prop := {
  dl_generation id : last_gen id d ≤ last_gen id d';
  dl_operation o op : d_operations d !! o = Some op →
    ∃ op', d_operations d' !! o = Some op' ∧ operation_le op op';
  dl_record id c : live_record id d = Some c → record_kept id c d';
  dl_quarantine : d_quarantine d ⊆ d_quarantine d';
  dl_cursor : cursor_value d ≤ cursor_value d';
  dl_claims : d_claims d ⊆ d_claims d';
  dl_events : d_events d ⊆ d_events d'
}.

Section monotone.
Context `{SE : StoreEnv}.
Implicit Types d : Disk.

#[global] Instance record_step_preorder : PreOrder record_step.
Proof.
  split.
  - intros c. constructor; try done. by destruct (sc_record c).
  - intros c1 c2 c3 [? ? ? H1 ? ? ? ?] [? ? ? H2 ? ? ? ?].
    constructor; try congruence; [|by etrans|eauto].
    transitivity (with_state (cr_state (sc_record c3)) (sc_record c2)); [done|]. by rewrite H1.
Qed.

Lemma rebinds_trans o1 o2 o3 : rebinds o1 o2 → rebinds o2 o3 → rebinds o1 o3.
Proof.
  destruct o1, o2, o3; simpl; try done.
  - intros [s ->] [s' ->]. by exists s'.
  - intros [-> ->] [-> ->]. done.
  - intros [-> [s ->]] [-> [s' ->]]. split; [done|]. by exists s'.
Qed.

Lemma rebinds_not_prepared o o' : rebinds o o' → o' ≠ Prepared.
Proof. by destruct o, o'. Qed.

Lemma outcome_le_trans o1 o2 o3 : outcome_le o1 o2 → outcome_le o2 o3 → outcome_le o1 o3.
Proof.
  unfold outcome_le. intros [->|[->|H]]; [auto|done|].
  intros [->|[->|H']]; [by apply rebinds_not_prepared in H|auto|].
  right. right. by eapply rebinds_trans.
Qed.

#[global] Instance operation_le_preorder : PreOrder operation_le.
Proof.
  split.
  - intros op. constructor; try done. unfold outcome_le. auto.
  - intros op1 op2 op3 [] []. constructor; try congruence. by eapply outcome_le_trans.
Qed.

Lemma set_outcome_le outcome op :
  so_outcome op = Prepared ∨ rebinds (so_outcome op) outcome →
  operation_le op (set_outcome outcome op).
Proof. intros H. constructor; try done. unfold outcome_le. naive_solver. Qed.

Lemma record_kept_live id c d : live_record id d = Some c → record_kept id c d.
Proof. intros H. left. exists c. done. Qed.

#[global] Instance disk_le_preorder : PreOrder disk_le.
Proof.
  split.
  - intros d. constructor; try done; [|intros; by apply record_kept_live].
    intros o op Ho. exists op. done.
  - intros d1 d2 d3 [] []. constructor; try (etrans; eauto; fail).
    + intros o op (op' & Ho' & ?)%dl_operation0.
      apply dl_operation1 in Ho' as (op'' & ? & ?). exists op''. split; [done|by etrans].
    + intros id c [(c' & Hc' & Hs)|(kind & o & dir & c' & Hq & Hd & Hs)]%dl_record0.
      * apply dl_record1 in Hc' as [(c'' & ? & ?)|(kind & o & dir & c'' & ? & ? & ?)];
          [left; exists c''; split; [done|by etrans]|].
        right. exists kind, o, dir, c''. split_and!; try done. by etrans.
      * right. exists kind, o, dir, c'. split_and!; try done. by eapply lookup_weaken.
Qed.

(** A change that touches no live record keeps them all. *)
Lemma records_kept_frame d d' :
  (∀ id, live_record id d' = live_record id d) →
  ∀ id c, live_record id d = Some c → record_kept id c d'.
Proof. intros H id c Hc. left. exists c. by rewrite H. Qed.

Lemma put_operation_le d o op' :
  (∀ op, d_operations d !! o = Some op → operation_le op op') →
  disk_le d (put_operation o op' d).
Proof.
  intros Hle. constructor; try done; [|by apply records_kept_frame].
  intros o0 op0 H0. simpl. destruct (decide (o = o0)) as [<-|].
  - rewrite lookup_insert_eq. eauto.
  - rewrite lookup_insert_ne by done. by exists op0.
Qed.

(** Changes of the container directories alone. *)
Lemma containers_le d d' :
  d' = set_containers (d_containers d') d →
  (∀ id c, live_record id d = Some c → record_kept id c d') →
  disk_le d d'.
Proof.
  intros Heq H. constructor; [| |done|rewrite Heq; done..].
  - intros id. by rewrite Heq.
  - rewrite Heq. intros o op Ho. by exists op.
Qed.

Lemma disk_le_step d d' : astep d d' → disk_le d d'.
Proof.
  intros Hs. destruct Hs.
  - (* generation *) constructor; try done; [|by intros o op Ho; exists op|by apply records_kept_frame].
    intros id'. rewrite last_gen_put. case_decide; [subst; simpl; lia|done].
  - apply put_operation_le. intros. simplify_eq.
  - apply put_operation_le. intros. simplify_eq.
  - apply put_operation_le. intros op' ?. simplify_eq. apply set_outcome_le. auto.
  - apply put_operation_le. intros op' ?. simplify_eq. apply set_outcome_le. auto.
  - apply containers_le; [done|]. apply records_kept_frame. intros id'. by apply live_record_mkdir.
  - apply containers_le; [done|]. apply records_kept_frame. intros id'. apply live_record_config.
  - (* create *) apply containers_le; [done|]. intros id' c' Hc'. left. exists c'. split; [|done].
    rewrite live_record_put. case_decide; [subst id'|done]. exfalso.
    apply live_record_some in Hc' as (? & ? & ?). simplify_eq.
  - (* record *) apply containers_le; [done|]. intros id' c0 Hc0. left.
    rewrite live_record_put. case_decide; [subst id'|by exists c0]. exists c'.
    pose proof Hc0 as (? & -> & _)%live_record_some. split; [done|]. congruence.
  - apply containers_le; [done|]. apply records_kept_frame. intros id'. apply live_record_process_dir.
  - apply containers_le; [done|]. apply records_kept_frame. intros id'. apply live_record_open.
  - apply containers_le; [done|]. apply records_kept_frame. intros id'.
    by rewrite live_record_process, live_record_open.
  - (* quarantine *)
    match goal with H : live_record _ d = Some c |- _ =>
      pose proof H as Hlive; apply live_record_some in H as (dir0 & Hdir0 & Hrec) end.
    destruct (move_to_quarantine_fields (so_container_id op) (kind, so_operation_id op) d)
      as (? & Hops & Hcur & Hcl & Hev).
    assert (d_quarantine (move_to_quarantine (so_container_id op) (kind, so_operation_id op) d)
      = <[(kind, so_operation_id op) := dir0]> (d_quarantine d)) as Hq
      by (unfold move_to_quarantine; by rewrite Hdir0).
    constructor; rewrite ?Hcl, ?Hev; try done.
    + intros id. by rewrite last_gen_quarantine.
    + rewrite Hops. intros o op0 Ho. by exists op0.
    + intros id c0 Hc0. destruct (decide (so_container_id op = id)) as [<-|Hne].
      * right. exists kind, (so_operation_id op), dir0, c. rewrite Hq, lookup_insert_eq.
        simplify_eq. done.
      * left. exists c0. split; [|done]. rewrite live_record_quarantine. by case_decide.
    + rewrite Hq. by apply insert_subseteq.
    + unfold cursor_value. by rewrite Hcur.
  - constructor; try done; [by intros o op Ho; exists op|by apply records_kept_frame|].
    unfold cursor_value; simpl. destruct (d_cursor d); simpl; lia.
  - constructor; try done; [by intros o op Ho; exists op|by apply records_kept_frame|].
    simpl. by apply insert_subseteq.
  - constructor; try done; [by intros o op Ho; exists op|by apply records_kept_frame|].
    simpl. by apply insert_subseteq.
Qed.

Lemma disk_le_steps d d' : rtc astep d d' → disk_le d d'.
Proof. induction 1 as [|d1 d2 d3 Hs _ IH]; [done|]. etrans; [by apply disk_le_step|done]. Qed.
End monotone.
