(* ===== verification/Refine.v ===== *)
(** * Refinement rules

    [refines m w]: under the store invariant, every execution of [m] from [w],
    whatever the fault injector does and whatever [m] returns, is a run of the
    abstract machine.  The rules here take an operation apart statement by
    statement; [rf_step] applies them. *)

From stdpp Require Import base gmap strings list pretty relations.
From Stdlib Require Import Ascii.
From S2P Require Import Prelude Sdk Identifiers Lifecycle Fault OciState Contracts StoreModel Disk.
From S2P Require Import RestoreContract Journal.
From S2P Require Import Events Claims Machine.
Local Open Scope string_scope.
Local Open Scope Z_scope.

(** The part of the state root that events do not touch. *)
Record same_core (d d' : Disk) : Prop := {
  sco_generations : d_generations d' = d_generations d;
  sco_operations : d_operations d' = d_operations d;
  sco_containers : d_containers d' = d_containers d;
  sco_quarantine : d_quarantine d' = d_quarantine d
}.

#[global] Instance same_core_preorder : PreOrder same_core.
Proof. split; [done|]. intros ??? [] []. constructor; congruence. Qed.

Section refinement.
Context `{SE : StoreEnv}.
Implicit Types w : World.

Definition refines {A} (m : M A) w : Prop :=
  store_inv (w_disk w) → wp m (λ _ w', rtc astep (w_disk w) (w_disk w')) w.

Lemma refines_unchanged {A} (m : M A) w : (m w).2 = w → refines m w.
Proof. intros H _. unfold wp. by rewrite H. Qed.

Lemma refines_bind {A B} (m : M A) (k : A → M B) w :
  refines m w →
  (∀ a w', m w = (Ok a, w') → rtc astep (w_disk w) (w_disk w') → store_inv (w_disk w) →
     refines (k a) w') →
  refines (bind m k) w.
Proof.
  intros Hm Hk Hinv. specialize (Hm Hinv). unfold wp in Hm. apply wp_bind. unfold wp at 1.
  destruct (m w) as [[a|e] w'] eqn:Em; simpl in *; [|done].
  specialize (Hk a w' eq_refl Hm Hinv (store_inv_steps _ _ Hm Hinv)).
  eapply wp_mono; [|exact Hk]. intros r w'' Hr. by etrans.
Qed.

Lemma refines_catch_read {A B} (f : Disk → Result A) (k : Result A → M B) w :
  (∀ r, f (w_disk w) = r → refines (k r) w) → refines (catch (read f) k) w.
Proof. intros H Hinv. by apply H. Qed.

Lemma refines_bind_lift {A B} (r : Result A) (k : A → M B) w :
  (∀ a, r = Ok a → refines (k a) w) → refines (bind (lift r) k) w.
Proof.
  intros H Hinv. apply wp_bind, wp_lift. destruct r as [a|e]; [by apply H|done].
Qed.

Lemma refines_bind_read {A B} (f : Disk → Result A) (k : A → M B) w :
  (∀ a, f (w_disk w) = Ok a → store_inv (w_disk w) → refines (k a) w) →
  refines (bind (read f) k) w.
Proof.
  intros H Hinv. apply wp_bind, wp_read. destruct (f (w_disk w)) as [a|e] eqn:E; [by apply H|done].
Qed.

Lemma refines_assoc {A B C} (m : M A) (k : A → M B) (k' : B → M C) w :
  refines (bind m (λ a, bind (k a) k')) w → refines (bind (bind m k) k') w.
Proof.
  intros H Hinv. specialize (H Hinv). unfold wp, bind in *. destruct (m w) as [[a|e] w']; done.
Qed.

Lemma refines_bind_ret {A B} (a : A) (k : A → M B) w :
  refines (k a) w → refines (bind (ret a) k) w.
Proof. intros H Hinv. by apply H. Qed.

Lemma refines_bind_fail {A B} (e : Error) (k : A → M B) w : refines (bind (fail e) k) w.
Proof. by apply refines_unchanged. Qed.

(** Steps that leave the state root alone. *)
Lemma refines_bind_silent {A B} (m : M A) (k : A → M B) w :
  w_disk (m w).2 = w_disk w →
  (∀ a w', w_disk w' = w_disk w → refines (k a) w') → refines (bind m k) w.
Proof.
  intros Hm Hk. apply refines_bind.
  - intros _. unfold wp. by rewrite Hm.
  - intros a w' H _ _. apply Hk. by rewrite H in Hm.
Qed.

Lemma validate_deadline_disk context name w :
  w_disk (validate_deadline context name w).2 = w_disk w.
Proof.
  unfold validate_deadline. destruct (oc_deadline_unix_ms context); [|done].
  unfold bind, system_time_now, lift. by destruct (reject_if _ _).
Qed.

Lemma event_timestamp_disk w : w_disk (event_timestamp w).2 = w_disk w.
Proof.
  unfold event_timestamp, bind, system_time_now, lift, ret.
  destruct (reject_if _ _); [|done]. by destruct (reject_if _ _).
Qed.

(** ** Durable writes *)

Lemma write_json_ok m f w w' :
  write_json m f w = (Ok (), w') →
  parent_exists f (w_disk w) = true ∧ w_disk w' = commit_file f (open_transaction f (w_disk w)).
Proof.
  intros H.
  assert (wp (write_json m f) (λ r w', r = Ok () → parent_exists f (w_disk w) = true ∧
    w_disk w' = commit_file f (open_transaction f (w_disk w))) w) as Hwp
    by (apply wp_write_json; naive_solver).
  unfold wp in Hwp. rewrite H in Hwp. by apply Hwp.
Qed.

Lemma refines_write m f w :
  (store_inv (w_disk w) → parent_exists f (w_disk w) = true →
     rtc astep (w_disk w) (open_transaction f (w_disk w)) ∧
     rtc astep (w_disk w) (commit_file f (open_transaction f (w_disk w)))) →
  refines (write_json m f) w.
Proof.
  intros H Hinv. apply wp_write_json.
  - intros e w' ->. done.
  - intros e w' Hp ->. by apply H.
  - intros r w' Hp ->. by apply H.
Qed.

(** A write of anything but a process record is one machine step. *)
Lemma refines_write_plain m f w :
  open_transaction f (w_disk w) = w_disk w →
  (store_inv (w_disk w) → parent_exists f (w_disk w) = true →
     astep (w_disk w) (commit_file f (w_disk w))) →
  refines (write_json m f) w.
Proof.
  intros Ho H. apply refines_write. rewrite Ho. intros Hinv Hp. split; [done|].
  by apply rtc_once, H.
Qed.

Lemma refines_bind_write {B} m f (k : () → M B) w :
  refines (write_json m f) w →
  (∀ w', w_disk w' = commit_file f (open_transaction f (w_disk w)) → store_inv (w_disk w) →
     refines (k ()) w') →
  refines (bind (write_json m f) k) w.
Proof.
  intros Hw Hk. apply refines_bind; [done|]. intros [] w' H _ Hinv.
  apply write_json_ok in H as [_ H]. by apply Hk.
Qed.

(** The same, with the knowledge that the destination's directory exists. *)
Lemma refines_bind_write_in {B} m f (k : () → M B) w :
  refines (write_json m f) w →
  (∀ w', parent_exists f (w_disk w) = true →
     w_disk w' = commit_file f (open_transaction f (w_disk w)) → refines (k ()) w') →
  refines (bind (write_json m f) k) w.
Proof.
  intros Hw Hk. apply refines_bind; [done|]. intros [] w' H _ Hinv.
  apply write_json_ok in H as [? ?]. by apply Hk.
Qed.

Lemma refines_write_operation m o op w :
  (store_inv (w_disk w) → astep (w_disk w) (put_operation o op (w_disk w))) →
  refines (write_operation m o op) w.
Proof. intros H. apply refines_write_plain; [done|]. intros Hinv _. by apply H. Qed.

(** The terminal outcome of the operation that was loaded as prepared. *)
Lemma refines_finish m o op outcome w :
  d_operations (w_disk w) !! o = Some op → so_outcome op = Prepared → outcome ≠ Prepared →
  validate_stored_operation_shape (set_outcome outcome op) = Ok () →
  refines (write_operation m o (set_outcome outcome op)) w.
Proof. intros. apply refines_write_operation. intros _. by apply step_finish. Qed.

Lemma refines_write_record m id c c' w :
  live_record id (w_disk w) = Some c → record_step c c' →
  refines (write_record m id c') w.
Proof.
  intros Hc Hs. apply refines_write_plain; [done|]. intros _ _. by eapply step_record.
Qed.

(** A process record is written over an earlier version of itself, or new. *)
Lemma refines_write_process m target p w :
  (∀ dir pd p0, d_containers (w_disk w) !! ct_id (pt_container target) = Some dir →
     cd_processes dir = Some pd → pd_records pd !! pt_process_id target = Some p0 →
     process_step p0 p) →
  refines (write_process m target p) w.
Proof.
  intros H. apply refines_write. intros Hinv Hp. split; apply rtc_once.
  - by apply step_process_transaction.
  - by apply step_process.
Qed.

(** ** Loads *)

Lemma load_operation_ok o d op :
  load_operation o d = Ok op →
  d_operations d !! o = Some op ∧ so_operation_id op = o ∧
  validate_stored_operation_shape op = Ok ().
Proof.
  unfold load_operation. intros H. inv_ok.
  match goal with H : _ || _ = false |- _ => apply orb_false_iff in H as [_ H] end.
  match goal with H : bool_decide _ = false |- _ => apply bool_decide_eq_false, dec_stable in H end.
  match goal with u : () |- _ => destruct u | |- _ => idtac end.
  repeat match goal with u : () |- _ => destruct u end. done.
Qed.

Lemma load_operation_if_present_ok o d r :
  load_operation_if_present o d = Ok r →
  match r with
  | Some op => d_operations d !! o = Some op ∧ so_operation_id op = o ∧
      validate_stored_operation_shape op = Ok ()
  | None => d_operations d !! o = None
  end.
Proof.
  unfold load_operation_if_present. destruct (d_operations d !! o) eqn:E; intros H; inv_ok; [|done].
  match goal with H : load_operation _ _ = Ok _ |- _ => apply load_operation_ok in H as (? & ? & ?) end.
  rewrite <- E. done.
Qed.

Lemma load_stored_container_ok id d c :
  load_stored_container id d = Ok c →
  live_record id d = Some c ∧ sc_id c = id ∧ cr_generation (sc_record c) ≠ 0.
Proof.
  unfold load_stored_container, load_stored_container_from_directory. intros H. inv_ok.
  repeat match goal with H : _ || _ = false |- _ => apply orb_false_iff in H as [? ?] end.
  repeat match goal with H : bool_decide (_ ≠ _) = false |- _ =>
    apply bool_decide_eq_false, dec_stable in H end.
  match goal with H : bool_decide (_ = 0) = false |- _ => apply bool_decide_eq_false in H end.
  unfold live_record.
  match goal with H : d_containers d !! id = Some _ |- _ => rewrite H end. done.
Qed.

Lemma load_stored_exact_ok id g d c :
  load_stored_exact id g d = Ok c →
  live_record id d = Some c ∧ sc_id c = id ∧ cr_generation (sc_record c) = g ∧ g ≠ 0.
Proof.
  unfold load_stored_exact. intros H. inv_ok.
  match goal with H : load_stored_container _ _ = Ok _ |- _ =>
    apply load_stored_container_ok in H as (? & ? & ?) end.
  match goal with H : bool_decide (_ ≠ _) = false |- _ =>
    apply bool_decide_eq_false, dec_stable in H end. by subst.
Qed.

(** ** Events *)

Lemma ensure_event_record_refines h k w :
  d_claims (w_disk w) !! h = Some k → refines (ensure_event_record (sk_event k)) w.
Proof.
  intros Hk. unfold ensure_event_record. apply refines_bind_read. intros actual Ha _.
  destruct actual; [by apply refines_unchanged|]. injection Ha as Hnone.
  apply refines_write_plain; [done|]. intros _ _. by eapply step_event.
Qed.

(** What an appended event must look like for its identity. *)
Definition event_wf (identity : string) (target : ContainerTarget)
    (operation_id process_id : option string) (kind : RuntimeEventKind)
    (attributes : gmap string string) : Prop :=
  ∀ sequence timestamp,
    validate_event_identity identity
      (mkRuntimeEvent sequence timestamp target operation_id process_id kind attributes) = Ok ().

Lemma load_event_cursor_ok d c :
  load_event_cursor d = Ok c →
  sec_schema_version c = EVENT_CURSOR_SCHEMA_VERSION ∧ sec_last_sequence c = cursor_value d.
Proof.
  unfold load_event_cursor, cursor_value. destruct (d_cursor d); intros H; inv_ok; [|done].
  match goal with H : bool_decide _ = false |- _ => apply bool_decide_eq_false, dec_stable in H end.
  done.
Qed.

Lemma append_event_refines identity target operation_id process_id kind attributes w :
  event_wf identity target operation_id process_id kind attributes →
  refines (append_event identity target operation_id process_id kind attributes) w.
Proof.
  intros Hwf. unfold append_event. apply refines_bind_lift. intros _ _.
  apply refines_bind_read. intros existing Hex Hinv. injection Hex as Hclaim.
  destruct existing as [stored|].
  - apply refines_bind_read. intros claim Hload _.
    assert (claim = stored) as -> by (unfold load_event_claim in Hload; by inv_ok).
    apply refines_bind_lift. intros _ _.
    apply refines_bind; [by eapply ensure_event_record_refines|].
    intros. by apply refines_unchanged.
  - apply refines_bind_read. intros cursor Hcur _. apply load_event_cursor_ok in Hcur as [Hs Hl].
    apply refines_bind_lift. intros sequence Hseq. apply ok_or_ok in Hseq.
    unfold checked_add_u64 in Hseq. case_decide as Hle; [|done]. inversion Hseq; subst sequence.
    rewrite Hs, Hl in *. pose proof (cursor_value_bounds _ (si_events _ Hinv)) as Hbounds.
    apply refines_bind_write.
    { apply refines_write_plain; [done|]. intros _ _. apply step_cursor. lia. }
    intros w1 Hw1 _. apply refines_bind_silent; [apply event_timestamp_disk|]. intros t w2 Hw2.
    apply refines_bind_lift. intros [] Htarget.
    apply refines_bind_write.
    { apply refines_write_plain; [done|]. intros _ _. rewrite Hw2, Hw1.
      apply (step_claim _ (mkStoredEventClaim EVENT_CLAIM_SCHEMA_VERSION identity _));
        simpl; try done; [split; [lia|reflexivity]|].
      intros h k Hk. apply (ei_claim _ (si_events _ Hinv)) in Hk as (_ & _ & ? & _). lia. }
    intros w3 Hw3 _. apply refines_bind; [|intros; by apply refines_unchanged].
    apply (ensure_event_record_refines (event_identity_hash identity)
             (mkStoredEventClaim EVENT_CLAIM_SCHEMA_VERSION identity _)).
    rewrite Hw3. simpl. by rewrite lookup_insert_eq.
Qed.

(** An append changes the event journal only. *)
Lemma ensure_event_record_core e w r w' :
  ensure_event_record e w = (r, w') → same_core (w_disk w) (w_disk w').
Proof.
  intros H. assert (wp (ensure_event_record e) (λ _ w', same_core (w_disk w) (w_disk w')) w) as Hwp.
  { unfold ensure_event_record. apply wp_bind, wp_read. simpl.
    destruct (d_events (w_disk w) !! ev_sequence e); [done|].
    apply wp_write_json; intros; simplify_eq; simpl in *;
      match goal with H : w_disk _ = _ |- _ => rewrite H end; done. }
  unfold wp in Hwp. by rewrite H in Hwp.
Qed.

Lemma append_event_core identity target operation_id process_id kind attributes w r w' :
  append_event identity target operation_id process_id kind attributes w = (r, w') →
  same_core (w_disk w) (w_disk w').
Proof.
  intros H.
  assert (wp (append_event identity target operation_id process_id kind attributes)
            (λ _ w', same_core (w_disk w) (w_disk w')) w) as Hwp; [|unfold wp in Hwp; by rewrite H in Hwp].
  clear H. unfold append_event. apply wp_bind, wp_lift. destruct (exact_target_key target); [|done].
  apply wp_bind, wp_read. simpl.
  assert (∀ (e : RuntimeEvent) (w0 : World), same_core (w_disk w) (w_disk w0) →
    wp (bind (ensure_event_record e) (λ _, ret e)) (λ _ w', same_core (w_disk w) (w_disk w')) w0)
    as Hensure.
  { intros e w0 H0. apply wp_bind. unfold wp at 1. destruct (ensure_event_record e w0) as [r0 w0'] eqn:E.
    apply ensure_event_record_core in E. simpl. destruct r0; [apply wp_ret|]; by etrans. }
  destruct (d_claims (w_disk w) !! event_identity_hash identity) as [stored|].
  - apply wp_bind, wp_read. destruct (load_event_claim _ _ _); [|done].
    apply wp_bind, wp_lift. destruct (validate_claimed_event _ _ _ _ _ _); [|done].
    by apply Hensure.
  - apply wp_bind, wp_read. destruct (load_event_cursor (w_disk w)); [|done].
    apply wp_bind, wp_lift. destruct (ok_or _ _) as [sequence|]; [|done].
    assert (∀ w1, same_core (w_disk w) (w_disk w1) →
      wp (bind event_timestamp (λ timestamp_unix_ns,
        let event := mkRuntimeEvent sequence timestamp_unix_ns target operation_id process_id kind attributes in
        bind (lift (validate_exact_event_target event)) (λ _,
        bind (write_json ClaimRuntimeEvent (FileClaim (event_identity_hash identity)
          (mkStoredEventClaim EVENT_CLAIM_SCHEMA_VERSION identity event))) (λ _,
        bind (ensure_event_record event) (λ _, ret event)))))
        (λ _ w', same_core (w_disk w) (w_disk w')) w1) as Htail.
    { intros w1 H1. apply wp_bind. unfold event_timestamp. apply wp_bind, wp_now. intros t w2 Hw2.
      apply wp_bind, wp_lift. destruct (reject_if _ _); [|by rewrite Hw2].
      apply wp_bind, wp_lift. destruct (reject_if _ _); [|by rewrite Hw2].
      apply wp_ret. simpl. apply wp_bind, wp_lift. destruct (validate_exact_event_target _); [|by rewrite Hw2].
      apply wp_bind. apply wp_write_json.
      - intros e w3 ->. by rewrite Hw2.
      - intros e w3 _ ->. simpl. by rewrite Hw2.
      - intros [[]|e] w3 _ Hw3.
        + apply Hensure. rewrite Hw3, Hw2. etrans; [exact H1|]. done.
        + rewrite Hw3, Hw2. etrans; [exact H1|]. done. }
    apply wp_bind, wp_write_json.
    + intros e w1 ->. done.
    + intros e w1 _ ->. done.
    + intros [[]|e] w1 _ Hw1; [apply Htail|]; by rewrite Hw1.
Qed.

Lemma refines_bind_event {B} identity target operation_id process_id kind attributes
    (k : RuntimeEvent → M B) w :
  event_wf identity target operation_id process_id kind attributes →
  (∀ e w', same_core (w_disk w) (w_disk w') → refines (k e) w') →
  refines (bind (append_event identity target operation_id process_id kind attributes) k) w.
Proof.
  intros Hwf Hk. apply refines_bind; [by apply append_event_refines|].
  intros e w' H _ _. apply Hk. by eapply append_event_core.
Qed.
End refinement.

(** ** Event identities *)

Section identities.
Context `{SE : StoreEnv}.

Definition not_colon (c : ascii) : bool := negb (bool_decide (c = ":"%char)).

Lemma rsplit_once_none s : all_bytes not_colon s = true → rsplit_once ":" s = None.
Proof.
  induction s as [|c s IH]; simpl; [done|]. intros [Hc Hs]%andb_true_iff. rewrite IH by done.
  unfold not_colon in Hc. apply negb_true_iff in Hc. by rewrite Hc.
Qed.

Lemma rsplit_once_app a b :
  all_bytes not_colon b = true → rsplit_once ":" (a +:+ String ":" b) = Some (a, b).
Proof.
  intros Hb. induction a as [|c a IH]; simpl; [|by rewrite IH].
  by rewrite rsplit_once_none.
Qed.

Lemma container_event_wf key suffix target kind attributes :
  attributes !! OPERATION_ID_ATTRIBUTE = None →
  event_wf ("container:" +:+ key +:+ ":" +:+ suffix) target None None kind attributes.
Proof.
  intros Ha s t. unfold validate_event_identity. simpl. rewrite Ha.
  by rewrite bool_decide_eq_false_2 by (intros [? [=]]).
Qed.

Lemma process_event_wf key p suffix target kind attributes :
  attributes !! OPERATION_ID_ATTRIBUTE = None →
  event_wf ("process:" +:+ key +:+ ":" +:+ p +:+ ":" +:+ suffix) target None (Some p) kind
    attributes.
Proof.
  intros Ha s t. unfold validate_event_identity. simpl. rewrite Ha.
  by rewrite bool_decide_eq_false_2 by (intros [? [=]]).
Qed.

Lemma operation_event_wf o suffix target process_id kind attributes :
  valid_id o → suffix ≠ "" → all_bytes not_colon suffix = true →
  event_wf ("operation:" +:+ o +:+ ":" +:+ suffix) target (Some o) process_id kind attributes.
Proof.
  intros Hv Hne Hs sq t. unfold validate_event_identity.
  assert (strip_prefix "operation:" ("operation:" +:+ o +:+ ":" +:+ suffix)
    = Some (o +:+ String ":" suffix)) as -> by reflexivity.
  rewrite rsplit_once_app by done. simpl.
  rewrite bool_decide_eq_false_2 by done. simpl. rewrite Hv. simpl.
  by rewrite bool_decide_eq_false_2 by naive_solver.
Qed.

Lemma append_container_event_core suffix target kind attributes w r w' :
  append_container_event suffix target kind attributes w = (r, w') →
  same_core (w_disk w) (w_disk w').
Proof.
  unfold append_container_event, bind, lift.
  destruct (exact_target_key target); [apply append_event_core|by intros [= _ <-]].
Qed.

Lemma append_process_event_core suffix target p kind attributes w r w' :
  append_process_event suffix target p kind attributes w = (r, w') →
  same_core (w_disk w) (w_disk w').
Proof.
  unfold append_process_event, bind, lift.
  destruct (exact_target_key target); [apply append_event_core|by intros [= _ <-]].
Qed.

Lemma refines_container_event {B} suffix target kind attributes (k : RuntimeEvent → M B) w :
  attributes !! OPERATION_ID_ATTRIBUTE = None →
  (∀ e w', same_core (w_disk w) (w_disk w') → refines (k e) w') →
  refines (bind (append_container_event suffix target kind attributes) k) w.
Proof.
  intros Ha Hk. unfold append_container_event. apply refines_bind.
  - apply refines_bind_lift. intros key _. by apply append_event_refines, container_event_wf.
  - intros e w' H _ _. apply Hk. by eapply append_container_event_core.
Qed.

Lemma refines_process_event {B} suffix target p kind attributes (k : RuntimeEvent → M B) w :
  attributes !! OPERATION_ID_ATTRIBUTE = None →
  (∀ e w', same_core (w_disk w) (w_disk w') → refines (k e) w') →
  refines (bind (append_process_event suffix target p kind attributes) k) w.
Proof.
  intros Ha Hk. unfold append_process_event. apply refines_bind.
  - apply refines_bind_lift. intros key _. by apply append_event_refines, process_event_wf.
  - intros e w' H _ _. apply Hk. by eapply append_process_event_core.
Qed.

Lemma refines_operation_event {B} o suffix target process_id kind attributes
    (k : RuntimeEvent → M B) w :
  valid_id o → suffix ≠ "" → all_bytes not_colon suffix = true →
  (∀ e w', same_core (w_disk w) (w_disk w') → refines (k e) w') →
  refines (bind (append_operation_event o suffix target process_id kind attributes) k) w.
Proof. intros. apply refines_bind_event; [by apply operation_event_wf|done]. Qed.
End identities.

(** Programs that touch the event journal only. *)
Section event_only.
Context `{SE : StoreEnv}.

Definition event_only {A} (m : M A) : Prop :=
  ∀ B (k : A → M B) w,
    (∀ a w', same_core (w_disk w) (w_disk w') → refines (k a) w') → refines (bind m k) w.

Lemma event_only_ret {A} (a : A) : event_only (ret a).
Proof. intros B k w H. by apply refines_bind_ret, H. Qed.

Lemma event_only_bind {A B} (m : M A) (k : A → M B) :
  event_only m → (∀ a, event_only (k a)) → event_only (bind m k).
Proof.
  intros Hm Hk C k' w H. apply refines_assoc, Hm. intros a w1 H1. apply Hk. intros b w2 H2.
  apply H. by etrans.
Qed.

Lemma event_only_if {A} (b : bool) (m1 m2 : M A) :
  event_only m1 → event_only m2 → event_only (if b then m1 else m2).
Proof. by destruct b. Qed.

Lemma event_only_lift {A} (r : Result A) : event_only (lift r).
Proof. intros B k w H. apply refines_bind_lift. intros a _. by apply H. Qed.

Lemma event_only_container suffix target kind attributes :
  attributes !! OPERATION_ID_ATTRIBUTE = None →
  event_only (append_container_event suffix target kind attributes).
Proof. intros Ha B k w. by apply refines_container_event. Qed.

Lemma event_only_process suffix target p kind attributes :
  attributes !! OPERATION_ID_ATTRIBUTE = None →
  event_only (append_process_event suffix target p kind attributes).
Proof. intros Ha B k w. by apply refines_process_event. Qed.

Lemma event_only_operation o suffix target process_id kind attributes :
  valid_id o → suffix ≠ "" → all_bytes not_colon suffix = true →
  event_only (append_operation_event o suffix target process_id kind attributes).
Proof. intros ??? B k w. by apply refines_operation_event. Qed.
End event_only.

Create HintDb events.
#[export] Hint Resolve event_only_ret event_only_bind event_only_if event_only_lift : events.
#[export] Hint Extern 2 (event_only (append_container_event _ _ _ _)) =>
  apply event_only_container; done : events.
#[export] Hint Extern 2 (event_only (append_process_event _ _ _ _ _)) =>
  apply event_only_process : events.
#[export] Hint Extern 2 (event_only (append_operation_event _ _ _ _ _ _)) =>
  apply event_only_operation; done : events.

(** ** Shapes of journal entries *)

(** The kinds whose entries retain no request. *)
Definition plain_kind (k : StoredOperationKind) : bool :=
  match k with
  | KFile | KFilesystem | KCheckpoint | KRestore | KAttest => false
  | _ => true
  end.

(** The outcomes that such an entry may have. *)
Definition plain_outcome (o : StoredOperationStatus) : bool :=
  match o with
  | SucceededFilesystem _ | SucceededCheckpoint _ | SucceededRestore _ | SucceededAttestation _ =>
      false
  | _ => true
  end.

Section shapes.
Context `{SE : StoreEnv}.

Lemma shape_new o kind id g p digest :
  plain_kind kind = true →
  validate_stored_operation_shape (new_operation o kind id g p None digest) = Ok ().
Proof. by destruct kind. Qed.

Lemma shape_plain op outcome :
  plain_kind (so_kind op) = true → plain_outcome outcome = true →
  validate_stored_operation_shape op = Ok () →
  validate_stored_operation_shape (set_outcome outcome op) = Ok ().
Proof.
  unfold validate_stored_operation_shape. destruct op as [? ? [] ? ? ? ? ? ?]; simpl; try done;
    intros _ Ho H; inv_ok; destruct outcome; by rewrite H.
Qed.

Lemma shape_failed op e :
  so_outcome op = Prepared → validate_stored_operation_shape op = Ok () →
  validate_stored_operation_shape (set_outcome (Failed e) op) = Ok ().
Proof.
  unfold validate_stored_operation_shape. destruct op as [? ? kind ? ? ? req ? ?]; simpl.
  intros ->. destruct kind; simpl; try done; intros H; inv_ok; destruct req as [[]|]; try done.
Qed.
End shapes.

(** ** Automation *)

(** Take the next statement of the operation apart.  Reads, lifted results and
    deadlines are opened; branches are split; a result that changes nothing is
    closed.  Writes and events are left to the caller. *)
Ltac rf_step :=
  lazymatch goal with
  | |- refines (bind (lift _) _) _ => apply refines_bind_lift; intros ? ?
  | |- refines (bind (read _) _) _ => apply refines_bind_read; intros ? ? ?
  | |- refines (bind (ret _) _) _ => apply refines_bind_ret
  | |- refines (bind (fail _) _) _ => apply refines_bind_fail
  | |- refines (bind (bind _ _) _) _ => apply refines_assoc
  | |- refines (bind (match ?x with _ => _ end) _) _ =>
      first [is_var x; destruct x | destruct x eqn:?]
  | |- refines (bind (validate_deadline _ _) _) _ =>
      apply refines_bind_silent; [apply validate_deadline_disk|]; intros ? ? ?
  | |- refines (catch (read _) _) _ => apply refines_catch_read; intros ? ?
  | |- refines (ret _) _ => by apply refines_unchanged
  | |- refines (fail _) _ => by apply refines_unchanged
  | |- refines (lift _) _ => by apply refines_unchanged
  | |- refines (read _) _ => by apply refines_unchanged
  | |- refines (match ?x with _ => _ end) _ =>
      first [is_var x; destruct x | destruct x eqn:?]
  end.
Ltac rf_steps := repeat (rf_step; simpl).
Ltac rf_tail := intros; rf_steps.
Ltac rf_write tac := apply refines_bind_write; [tac|intros ? ? ?].
Ltac rf_events lem := apply lem; intros ? ? ?.

Lemma validate_retry_ok `{StoreEnv} op o kind id digests name u :
  validate_retry op o kind id digests name = Ok u →
  so_kind op = kind ∧ so_container_id op = id ∧
  for_schema digests (so_schema_version op) = Some (so_request_digest op).
Proof.
  unfold validate_retry. intros Hr. inv_ok.
  repeat match goal with H : _ || _ = false |- _ => apply orb_false_iff in H as [? ?] end.
  repeat match goal with H : bool_decide (_ ≠ _) = false |- _ =>
    apply bool_decide_eq_false, dec_stable in H end. by subst.
Qed.

(** Turn the loads and guards that succeeded into facts about the state root. *)
Ltac loads :=
  repeat match goal with
  | H : load_operation _ _ = Ok _ |- _ => apply load_operation_ok in H as (? & ? & ?)
  | H : load_operation_if_present _ _ = Ok _ |- _ => apply load_operation_if_present_ok in H; simpl in H
  | H : load_stored_container _ _ = Ok _ |- _ => apply load_stored_container_ok in H as (? & ? & ?)
  | H : load_stored_exact _ _ _ = Ok _ |- _ => apply load_stored_exact_ok in H as (? & ? & ? & ?)
  | H : validate_retry _ _ _ _ _ _ = Ok _ |- _ => apply validate_retry_ok in H as (? & ? & ?)
  | H : reject_if _ _ = Ok _ |- _ => apply reject_if_ok in H
  | H : bool_decide (_ ≠ _) = false |- _ => apply bool_decide_eq_false, dec_stable in H
  | H : _ ∧ _ |- _ => destruct H
  end.

(** Facts about a state root, read off the changes that led to it. *)
Ltac at_disk :=
  unfold live_record;
  repeat first
    [ match goal with H : w_disk ?w' = _ |- context [w_disk ?w'] => rewrite H end
    | match goal with H : same_core _ (w_disk ?w') |- context [d_operations (w_disk ?w')] =>
        rewrite (sco_operations _ _ H) end
    | match goal with H : same_core _ (w_disk ?w') |- context [d_containers (w_disk ?w')] =>
        rewrite (sco_containers _ _ H) end ];
  cbn [commit_file open_transaction set_containers make_container_dir make_process_dir
       d_operations d_containers d_quarantine d_generations];
  unfold live_record in *; congruence.

(** Facts about the operation at hand. *)
Create HintDb opkind.
Ltac op_fact :=
  first [ done | congruence | auto with opkind; fail
        | match goal with H : so_kind ?op = _ |- context [so_kind ?op] =>
            rewrite H; solve [done | auto with opkind] end ].
