(* ===== verification/RefineOps.v ===== *)
(** * Lifecycle operations refine the store machine

    Create, start, kill, pause, resume, update, delete, failure and driver
    observations, under every fault injector. *)

From stdpp Require Import base gmap strings list pretty relations.
From S2P Require Import Prelude Sdk Identifiers Lifecycle Fault OciState Contracts StoreModel Disk.
From S2P Require Import RestoreContract Journal.
From S2P Require Import Events Claims Create Start Kill Freezer Update ProcessStore Delete Observe.
From S2P Require Import Machine Refine.
Local Open Scope string_scope.
Local Open Scope Z_scope.

(** ** Record updates *)

Lemma record_step_active a c : record_step c (set_sc_active a c).
Proof. constructor; try done. simpl. by destruct (sc_record c). Qed.

Lemma record_step_init_io io c : record_step c (set_sc_init_io io c).
Proof. constructor; try done. simpl. by destruct (sc_record c). Qed.

Lemma record_step_exit x c :
  sc_init_exit_status c = None → record_step c (set_sc_exit (Some x) c).
Proof. intros H. constructor; try done; simpl; [by destruct (sc_record c)|]. intros y. congruence. Qed.

Lemma record_step_state st c :
  st_id st = st_id (cr_state (sc_record c)) → st_bundle st = st_bundle (cr_state (sc_record c)) →
  lifecycle_reach (st_status (cr_state (sc_record c))) (st_status st) →
  record_step c (set_sc_state st c).
Proof. intros. by constructor. Qed.

Lemma record_step_rebuild c status pid st :
  rebuild_state (cr_state (sc_record c)) status pid = Ok st →
  lifecycle_reach (st_status (cr_state (sc_record c))) status →
  record_step c (set_sc_state st c).
Proof.
  intros H ?. apply rebuild_state_inv in H as (Hs & _ & ? & _ & ?).
  apply record_step_state; try done. by rewrite Hs.
Qed.

Lemma record_step_paused c paused st :
  rebuild_paused_state (cr_state (sc_record c)) paused = Ok st →
  record_step c (set_sc_state st c).
Proof.
  intros H. apply rebuild_paused_state_inv in H as (Hr & Hs & _ & ? & _ & ?).
  apply record_step_state; try done. by rewrite Hs, Hr.
Qed.

Create HintDb records.
#[export] Hint Resolve record_step_active record_step_init_io record_step_exit : records.
#[export] Hint Extern 1 (record_step ?c ?c) => reflexivity : records.

Section ops.
Context `{SE : StoreEnv}.
Implicit Types w : World.

(** ** Shared pieces *)

Lemma refines_new_operation m o kind id g p digest c w :
  valid_id o → plain_kind kind = true → is_creation kind = false →
  d_operations (w_disk w) !! o = None → live_record id (w_disk w) = Some c →
  cr_generation (sc_record c) = g →
  refines (write_operation m o (new_operation o kind id g p None digest)) w.
Proof.
  intros Hv Hk Hc Ho Hl Hg. apply refines_write_operation. intros _.
  apply (step_prepare _ (new_operation o kind id g p None digest) c); simpl; try done.
  by apply shape_new.
Qed.

Lemma refines_rebind m o op outcome w :
  d_operations (w_disk w) !! o = Some op → rebinds (so_outcome op) outcome →
  plain_kind (so_kind op) = true → plain_outcome outcome = true →
  validate_stored_operation_shape op = Ok () →
  refines (write_operation m o (set_outcome outcome op)) w.
Proof.
  intros. apply refines_write_operation. intros _. apply step_rebind; try done.
  by apply shape_plain.
Qed.

Lemma refines_finish_plain m o op outcome w :
  d_operations (w_disk w) !! o = Some op → so_outcome op = Prepared → outcome ≠ Prepared →
  plain_kind (so_kind op) = true → plain_outcome outcome = true →
  validate_stored_operation_shape op = Ok () →
  refines (write_operation m o (set_outcome outcome op)) w.
Proof. intros. apply refines_finish; try done. by apply shape_plain. Qed.

Lemma migrate_legacy_init_io_claim_step c d c' :
  migrate_legacy_init_io_claim c d = Ok (Some c') → record_step c c' ∧ sc_id c' = sc_id c.
Proof.
  unfold migrate_legacy_init_io_claim. destruct (sc_active_operation c); [|done].
  intros H. inv_ok. destruct (negb _); inv_ok.
  split; [|done]. etrans; [apply record_step_active|apply record_step_init_io].
Qed.

(** Taking the lifecycle claim rewrites the loaded record in place. *)
Lemma claim_active_operation_refines stored o m name w :
  live_record (sc_id stored) (w_disk w) = Some stored →
  refines (claim_active_operation stored o m name) w.
Proof.
  intros Hl. unfold claim_active_operation. case_bool_decide; [rf_steps|].
  assert (∀ c' w', w_disk w' = w_disk w → record_step stored c' → sc_id c' = sc_id stored →
    refines (bind (write_record m (sc_id c') (set_sc_active (Some o) c'))
               (λ _, ret (set_sc_active (Some o) c'))) w') as Hwrite.
  { intros c' w' Hw Hs Hid. apply refines_bind_write; [|intros; rf_steps].
    eapply refines_write_record; [rewrite Hw, Hid; exact Hl|].
    etrans; [exact Hs|apply record_step_active]. }
  destruct (sc_active_operation stored) as [active|]; [|by apply refines_bind_ret, (Hwrite stored)].
  apply refines_bind.
  { rf_steps. }
  intros c' w' Hm _ _. revert Hm. unfold bind, read.
  destruct (migrate_legacy_init_io_claim _ _) as [[c1|]|] eqn:Em; [|done..].
  apply migrate_legacy_init_io_claim_step in Em as [Hs Hid].
  destruct m; try done; intros [= <- <-]; by apply (Hwrite c1).
Qed.

(** Claiming and returning the claimed record, the tail of most prepares. *)
Lemma claim_and_ret_refines {B} stored o m name (k : StoredContainer → M B) w :
  live_record (sc_id stored) (w_disk w) = Some stored →
  (∀ c w', refines (k c) w') →
  refines (bind (claim_active_operation stored o m name) k) w.
Proof. intros Hl Hk. apply refines_bind; [by apply claim_active_operation_refines|]. eauto. Qed.

(** Releasing the claim of a loaded record, when it is held. *)
Lemma release_refines {B} stored m id (k : () → M B) w :
  live_record id (w_disk w) = Some stored →
  (∀ w', d_operations (w_disk w') = d_operations (w_disk w) → refines (k ()) w') →
  refines (bind (if bool_decide (is_Some (sc_active_operation stored))
                 then write_record m id (set_sc_active None stored) else ret ()) k) w.
Proof.
  intros Hl Hk. case_bool_decide; [|by apply refines_bind_ret, Hk].
  apply refines_bind_write.
  - eapply refines_write_record; [exact Hl|apply record_step_active].
  - intros w' Hw _. apply Hk. by rewrite Hw.
Qed.

(** The completion that every record operation ends with: the updated record,
    its events and the outcome of the operation. *)
Lemma complete_refines {B} m1 m2 id c c' (events : M ()) o op response (b : B) w :
  live_record id (w_disk w) = Some c → record_step c c' →
  event_only events →
  d_operations (w_disk w) !! o = Some op → so_outcome op = Prepared →
  plain_kind (so_kind op) = true → validate_stored_operation_shape op = Ok () →
  refines (bind (write_record m1 id c') (λ _, bind events (λ _,
    bind (write_operation m2 o (set_outcome (Succeeded response) op)) (λ _, ret b)))) w.
Proof.
  intros Hl Hs Hev Ho Hp Hk Hsh. apply refines_bind_write; [by eapply refines_write_record|].
  intros w1 Hw1 _. apply Hev. intros [] w2 Hw2. apply refines_bind_write; [|intros; rf_steps].
  apply refines_finish_plain; try done.
  rewrite (sco_operations _ _ Hw2), Hw1. done.
Qed.

End ops.

(** The statements that prepares and completions are made of. *)
Ltac rf_finish := apply refines_finish_plain; [at_disk|op_fact|done|op_fact|done|done].
Ltac rf_new_operation :=
  idtac; lazymatch goal with
  | |- refines (write_json _ (FileOperation _
         (new_operation _ _ _ (cr_generation (sc_record ?c)) _ _ _))) _ =>
      apply (refines_new_operation _ _ _ _ _ _ _ c); [done|op_fact|op_fact|at_disk|at_disk|done]
  end.
Ltac rf_claim := apply claim_and_ret_refines; [at_disk|].
Ltac rf_release :=
  idtac; lazymatch goal with
  | |- refines (write_json _ (FileRecord _ (set_sc_active _ ?c))) _ =>
      apply (refines_write_record _ _ c); [at_disk|apply record_step_active]
  end.
Ltac rf_complete c ev :=
  apply (complete_refines _ _ _ c);
    [at_disk|etrans; [eassumption|apply record_step_active]|apply ev|at_disk|done|op_fact|done].

Section operations.
Context `{SE : StoreEnv}.
Implicit Types w : World.

(** ** Start *)

Lemma started_events_only op status : event_only (Start.started_events op status).
Proof. unfold Start.started_events. auto 6 with events. Qed.

Lemma complete_start_state_step c status pid c' :
  Start.complete_start_state c status pid = Ok c' → record_step c c'.
Proof.
  unfold Start.complete_start_state, transition_or.
  destruct (st_status (cr_state (sc_record c))) eqn:Hst; simpl; try done.
  - intros H. inv_ok.
    eapply record_step_rebuild; [done|rewrite Hst]. destruct status; simpl in *; inv_ok; simpl;
      auto with lifecycle.
  - destruct status; simpl; intros; inv_ok; [done|].
    apply record_step_state; simpl; rewrite ?Hst; auto with lifecycle.
  - destruct status; simpl; intros; inv_ok. done.
Qed.

Lemma reconcile_succeeded_start_refines op response w :
  d_operations (w_disk w) !! so_operation_id op = Some op → so_outcome op = Succeeded response →
  plain_kind (so_kind op) = true → validate_stored_operation_shape op = Ok () →
  refines (Start.reconcile_succeeded_start op response) w.
Proof.
  intros Ho Hs Hk Hsh. unfold Start.reconcile_succeeded_start. rf_steps.
  all: apply refines_bind_write; [|intros; rf_steps].
  all: apply refines_rebind; try done; rewrite Hs; simpl; eauto.
Qed.

Lemma prepare_start_refines request w :
  valid_id (oc_operation_id (start_context request)) → refines (Start.prepare_start request) w.
Proof.
  intros Hv. unfold Start.prepare_start. rf_steps; loads.
  - rf_claim. rf_tail.
  - rf_write rf_release. rf_events started_events_only. rf_write rf_finish. rf_tail.
  - rf_events started_events_only. rf_write rf_finish. rf_tail.
  - rf_write rf_release. rf_events started_events_only. rf_write rf_finish. rf_tail.
  - rf_events started_events_only. rf_write rf_finish. rf_tail.
  - apply reconcile_succeeded_start_refines; op_fact.
  - rf_write rf_new_operation. rf_claim. rf_tail.
Qed.

Lemma complete_start_refines o status pid w : refines (Start.complete_start o status pid) w.
Proof.
  unfold Start.complete_start. rf_steps; loads.
  match goal with H : Start.complete_start_state ?c _ _ = Ok _ |- _ =>
    apply complete_start_state_step in H; rf_complete c started_events_only end.
Qed.

(** ** Kill *)

Lemma stopped_event_only op : event_only (Kill.stopped_event op).
Proof. unfold Kill.stopped_event. auto 6 with events. Qed.

Lemma complete_kill_state_step c status pid c' :
  Kill.complete_kill_state c status pid = Ok c' → record_step c c'.
Proof.
  unfold Kill.complete_kill_state, transition_or.
  destruct (st_status (cr_state (sc_record c))) eqn:Hst, status; simpl; intros; inv_ok;
    try done; apply record_step_state; simpl; rewrite ?Hst; auto with lifecycle.
Qed.

Lemma prepare_kill_refines request w :
  valid_id (oc_operation_id (kill_context request)) → refines (Kill.prepare_kill request) w.
Proof.
  intros Hv. unfold Kill.prepare_kill. rf_steps; loads.
  - rf_write rf_release. rf_events stopped_event_only. rf_write rf_finish. rf_tail.
  - rf_events stopped_event_only. rf_write rf_finish. rf_tail.
  - rf_claim. rf_tail.
  - rf_write rf_new_operation. rf_claim. rf_tail.
Qed.

Lemma complete_kill_refines o status pid w : refines (Kill.complete_kill o status pid) w.
Proof.
  unfold Kill.complete_kill. rf_steps; loads.
  match goal with H : Kill.complete_kill_state ?c _ _ = Ok _ |- _ =>
    apply complete_kill_state_step in H;
    rf_complete c (event_only_if (A := ())) end; [apply stopped_event_only|apply event_only_ret].
Qed.

(** ** Pause and resume *)

Lemma plain_action a : plain_kind (action_kind a) = true.
Proof. by destruct a. Qed.
Lemma creation_action a : is_creation (action_kind a) = false.
Proof. by destruct a. Qed.
Hint Resolve plain_action creation_action : opkind.

Lemma freezer_event_only op o action : valid_id o → event_only (freezer_event op o action).
Proof. intros Hv. unfold freezer_event. destruct action; auto 6 with events. Qed.

Lemma reconcile_succeeded_freezer_refines op response action w :
  d_operations (w_disk w) !! so_operation_id op = Some op → so_outcome op = Succeeded response →
  plain_kind (so_kind op) = true → validate_stored_operation_shape op = Ok () →
  refines (reconcile_succeeded_freezer op response action) w.
Proof.
  intros Ho Hs Hk Hsh. unfold reconcile_succeeded_freezer. rf_steps.
  all: apply refines_bind_write; [|intros; rf_steps].
  all: apply refines_rebind; try done; rewrite Hs; simpl; eauto.
Qed.

Lemma prepare_freezer_refines request action w :
  valid_id (oc_operation_id (cop_context request)) → refines (prepare_freezer request action) w.
Proof.
  intros Hv. unfold prepare_freezer. rf_steps; loads.
  - rf_write rf_release. apply freezer_event_only; [congruence|]. intros ? ? ?.
    rf_write rf_finish. rf_tail.
  - apply freezer_event_only; [congruence|]. intros ? ? ?. rf_write rf_finish. rf_tail.
  - rf_claim. rf_tail.
  - apply reconcile_succeeded_freezer_refines; try op_fact.
  - rf_write rf_new_operation. rf_claim. rf_tail.
Qed.

Lemma complete_freezer_refines o status pid paused action w :
  valid_id o → refines (complete_freezer o status pid paused action) w.
Proof.
  intros Hv. unfold complete_freezer. rf_steps; loads.
  match goal with H : rebuild_paused_state (cr_state (sc_record ?c)) _ = Ok _ |- _ =>
    apply record_step_paused in H; rf_complete c freezer_event_only end. done.
Qed.

(** ** Update *)

Lemma reconcile_succeeded_update_refines op response w :
  d_operations (w_disk w) !! so_operation_id op = Some op → so_outcome op = Succeeded response →
  plain_kind (so_kind op) = true → validate_stored_operation_shape op = Ok () →
  refines (reconcile_succeeded_update op response) w.
Proof.
  intros Ho Hs Hk Hsh. unfold reconcile_succeeded_update. rf_steps.
  all: apply refines_bind_write; [|intros; rf_steps].
  all: apply refines_rebind; try done; rewrite Hs; simpl; eauto.
Qed.

Lemma prepare_update_refines request w :
  valid_id (oc_operation_id (update_context request)) → refines (prepare_update request) w.
Proof.
  intros Hv. unfold prepare_update. rf_steps; loads.
  - rf_claim. rf_tail.
  - apply reconcile_succeeded_update_refines; op_fact.
  - rf_write rf_new_operation. rf_claim. rf_tail.
Qed.

Lemma complete_update_refines o status pid paused w :
  valid_id o → refines (complete_update o status pid paused) w.
Proof.
  intros Hv. unfold complete_update. rf_steps; loads.
  rf_write rf_release. apply event_only_operation; [done..|]. intros ? ? ?.
  rf_write rf_finish. rf_tail.
Qed.

(** ** Delete *)

Lemma append_delete_event_only op : event_only (append_delete_event op).
Proof. unfold append_delete_event. auto 8 with events. Qed.

Lemma finish_moved_delete_refines o op m w :
  d_operations (w_disk w) !! o = Some op → so_outcome op = Prepared → so_kind op = KDelete →
  validate_stored_operation_shape op = Ok () →
  refines (finish_moved_delete op o m) w.
Proof.
  intros. unfold finish_moved_delete. apply append_delete_event_only. intros ? ? ?. rf_finish.
Qed.

Lemma prepare_delete_refines request w :
  valid_id (oc_operation_id (delete_context request)) → refines (prepare_delete request) w.
Proof.
  intros Hv. unfold prepare_delete. rf_steps; loads.
  - apply refines_bind; [by apply finish_moved_delete_refines|]. rf_tail.
  - rf_claim. rf_tail.
  - apply refines_bind; [by apply finish_moved_delete_refines|]. rf_tail.
  - rf_write rf_new_operation. rf_claim. rf_tail.
Qed.

(** Moving the directory of the generation that the operation owns. *)
Lemma refines_move m kind op c w :
  d_operations (w_disk w) !! so_operation_id op = Some op → so_kind op = tombstone_kind kind →
  live_record (so_container_id op) (w_disk w) = Some c →
  cr_generation (sc_record c) = so_generation op →
  match kind with Deleted => so_outcome op = Prepared | _ => is_failed (so_outcome op) = true end →
  refines (move_directory m (so_container_id op) (kind, so_operation_id op)) w.
Proof.
  intros. intros _. apply wp_move_directory; [by intros e w' ->|].
  intros r w' _ Hq ->. apply rtc_once. by eapply step_quarantine.
Qed.

Lemma move_directory_operations m id t w r w' :
  move_directory m id t w = (r, w') → d_operations (w_disk w') = d_operations (w_disk w).
Proof.
  intros H. assert (wp (move_directory m id t)
    (λ _ w', d_operations (w_disk w') = d_operations (w_disk w)) w) as Hwp.
  { apply wp_move_directory; [by intros e w1 ->|]. intros r' w1 _ _ ->.
    apply move_to_quarantine_fields. }
  unfold wp in Hwp. by rewrite H in Hwp.
Qed.

Lemma complete_delete_refines o w : refines (complete_delete o) w.
Proof.
  unfold complete_delete. rf_steps; loads.
  1,3: by apply finish_moved_delete_refines.
  subst o. apply refines_bind.
  - eapply (refines_move _ Deleted); done.
  - intros [] w' Hm _ _. apply move_directory_operations in Hm.
    apply finish_moved_delete_refines; try done. by rewrite Hm.
Qed.

(** ** Failed creations *)

Lemma reconcile_failed_creation_refines op w :
  d_operations (w_disk w) !! so_operation_id op = Some op →
  refines (reconcile_failed_creation op) w.
Proof.
  intros Ho. unfold reconcile_failed_creation. rf_steps; loads;
    repeat match goal with H : negb _ = false |- _ => apply negb_false_iff in H end.
  all: first [ eapply (refines_move _ FailedCreate); done
             | eapply (refines_move _ FailedRestore); done ].
Qed.

(** ** Create *)

Lemma next_generation_refines {B} id (k : Z → M B) w :
  valid_id id →
  (∀ g w', store_inv (w_disk w) → g = last_gen id (w_disk w) + 1 →
     w_disk w' = commit_file (FileGeneration id
       (mkStoredGeneration GENERATION_SCHEMA_VERSION id g)) (w_disk w) → refines (k g) w') →
  refines (bind (next_generation id) k) w.
Proof.
  intros Hv Hk. unfold next_generation. rf_steps.
  assert (last_gen id (w_disk w) = a) as Hlast.
  { unfold last_gen. unfold last_generation in *. destruct (d_generations (w_disk w) !! id);
      inv_ok; done. }
  inv_ok. unfold checked_add_u64 in *. case_decide; [|done]. simplify_eq.
  apply refines_bind_write.
  { apply refines_write_plain; [done|]. intros _ _. apply step_generation; [done|lia]. }
  intros w' Hw Hinv. rf_steps. by apply Hk.
Qed.

(** A creation that has just been given its generation is journaled. *)
Lemma fresh_creation_step op w w1 :
  store_inv (w_disk w) → valid_id (so_operation_id op) → valid_id (so_container_id op) →
  so_generation op = last_gen (so_container_id op) (w_disk w) + 1 →
  w_disk w1 = commit_file (FileGeneration (so_container_id op)
    (mkStoredGeneration GENERATION_SCHEMA_VERSION (so_container_id op) (so_generation op)))
    (w_disk w) →
  d_operations (w_disk w) !! so_operation_id op = None →
  so_schema_version op = OPERATION_SCHEMA_VERSION → so_outcome op = Prepared →
  is_creation (so_kind op) = true → validate_stored_operation_shape op = Ok () →
  astep (w_disk w1) (put_operation (so_operation_id op) op (w_disk w1)).
Proof.
  intros Hinv Hv Hid Hg Hw1 Ho Hsv Hp Hk Hsh.
  assert (d_operations (w_disk w1) = d_operations (w_disk w)) as Heqo by (by rewrite Hw1).
  apply step_prepare_creation; try done.
  - by rewrite Heqo.
  - by rewrite Hw1, last_gen_put, decide_True.
  - pose proof (last_gen_nonneg (so_container_id op) (w_disk w) (si_generations _ Hinv)). lia.
  - intros o' op' Ho' _ Hc' Heq. rewrite Heqo in Ho'.
    apply (oi_entry _ (si_operations _ Hinv)) in Ho' as (_ & _ & _ & _ & Hle).
    rewrite Hc' in Hle. lia.
Qed.

Lemma create_directory_refines id w :
  valid_id id → refines (create_container_directory id) w.
Proof.
  intros Hv _. apply wp_create_container_directory; [by intros e w' ->|].
  intros w' Hn ->. apply rtc_once. by apply step_mkdir.
Qed.

Lemma create_directory_operations id w r w' :
  create_container_directory id w = (r, w') →
  d_operations (w_disk w') = d_operations (w_disk w).
Proof.
  intros H. assert (wp (create_container_directory id)
    (λ _ w', d_operations (w_disk w') = d_operations (w_disk w)) w) as Hwp
    by (apply wp_create_container_directory; [by intros e w1 ->|by intros w1 _ ->]).
  unfold wp in Hwp. by rewrite H in Hwp.
Qed.

(** Laying down the directory of a prepared creation. *)
Lemma reconcile_prepared_container_refines {B} id bundle isolation attachments driver g op
    profile (k : StoredContainer → M B) w :
  valid_id id → d_operations (w_disk w) !! so_operation_id op = Some op →
  so_outcome op = Prepared → is_creation (so_kind op) = true → so_container_id op = id →
  so_generation op = g →
  (∀ stored w', live_record id (w_disk w') = Some stored → sc_id stored = id →
     refines (k stored) w') →
  refines (bind (reconcile_prepared_container id bundle isolation attachments driver g
                   (so_operation_id op) profile) k) w.
Proof.
  intros Hv Ho Hp Hc Hid Hg Hk. unfold reconcile_prepared_container.
  do 3 (rf_step; rf_step). rf_step. apply refines_bind.
  { destruct a1; [rf_steps|by apply create_directory_refines]. }
  intros [] w1 Hm _ _.
  assert (d_operations (w_disk w1) = d_operations (w_disk w)) as Ho1
    by (destruct a1; [by injection Hm as <-|by eapply create_directory_operations]).
  do 3 rf_step. apply refines_bind.
  { rf_steps. apply refines_write_plain; [done|]. intros _ [dir Hdir]%bool_decide_eq_true.
    eapply step_config; [done|]. injection H3 as H3. by rewrite Hdir in H3. }
  intros [] w2 Hm2 _ _.
  assert (d_operations (w_disk w2) = d_operations (w_disk w)) as Ho2.
  { destruct a2; [by injection Hm2 as _ <-|]. apply write_json_ok in Hm2 as [_ ->]. done. }
  rf_step. apply refines_bind_read. intros record Hrec _.
  destruct record as [r|]; [rf_steps; loads; by apply Hk|].
  rf_step. apply refines_bind_lift. intros state Hstate. rf_step.
  assert (st_id state = id ∧ st_status state = Creating) as [? ?].
  { unfold build_state in Hstate. inv_ok. done. }
  injection Hrec as Hrec. apply refines_bind_write_in.
  { apply refines_write_plain; [done|]. intros _ [dir Hdir]%bool_decide_eq_true.
    rewrite Hdir in Hrec. eapply (step_create _ id dir _ op); simpl; try done.
    by rewrite Ho2. }
  intros w3 [dir Hdir]%bool_decide_eq_true Hw3. rf_steps. apply Hk; [|done].
  rewrite Hw3. cbn [open_transaction]. rewrite live_record_put, decide_True, Hdir by done. done.
Qed.

Lemma reconcile_succeeded_create_refines op response w :
  d_operations (w_disk w) !! so_operation_id op = Some op → so_outcome op = Succeeded response →
  plain_kind (so_kind op) = true → validate_stored_operation_shape op = Ok () →
  refines (reconcile_succeeded_create op response) w.
Proof.
  intros Ho Hs Hk Hsh. unfold reconcile_succeeded_create. rf_steps.
  all: apply refines_bind_write; [|intros; rf_steps].
  all: apply refines_rebind; try done; rewrite Hs; simpl; eauto.
Qed.

Lemma creating_event_only request g : event_only (creating_event request g).
Proof. unfold creating_event. auto with events. Qed.

Lemma prepare_create_refines request driver inherited w :
  valid_id (oc_operation_id (create_context request)) → valid_id (create_id request) →
  refines (prepare_create request driver inherited) w.
Proof.
  intros Hv Hid. unfold prepare_create, reconcile_prepared_create, validate_create_retry.
  rf_steps; loads.
  - (* resume *)
    match goal with H : so_operation_id ?op = _ |- _ => rewrite <- H in * end.
    apply reconcile_prepared_container_refines; try op_fact. intros stored w1 Hl Hsid.
    apply claim_and_ret_refines; [by rewrite Hsid|]. intros c w2.
    apply creating_event_only. rf_tail.
  - apply reconcile_succeeded_create_refines; op_fact.
  - unfold reconcile_failed_create. rf_steps. apply refines_bind; [|rf_tail].
    apply reconcile_failed_creation_refines. congruence.
  - (* new *)
    apply next_generation_refines; [done|]. intros g w1 Hinv Hg Hw1.
    set (op := new_operation _ KCreate _ g _ _ _).
    apply refines_bind_write.
    { apply refines_write_operation. intros _. apply (fresh_creation_step op w'); simpl; try done.
      at_disk. }
    intros w2 Hw2 _. change (oc_operation_id (create_context request)) with (so_operation_id op).
    apply reconcile_prepared_container_refines; try done.
    { rewrite Hw2. simpl. by rewrite lookup_insert_eq. }
    intros stored w3 _ _. apply creating_event_only. rf_tail.
Qed.

Lemma complete_create_state_step c pid c' :
  complete_create_state c pid = Ok c' → record_step c c'.
Proof.
  unfold complete_create_state, transition_or.
  destruct (st_status (cr_state (sc_record c))) eqn:Hst; simpl; try done.
  - intros; inv_ok. apply record_step_state; simpl; rewrite ?Hst; auto with lifecycle.
  - case_bool_decide; intros; inv_ok. done.
Qed.

Lemma created_event_only o g (pid : Z) :
  event_only (append_container_event "created" (target_exact o g) ContainerCreated
    {["pid" := pretty pid]}).
Proof. by apply event_only_container. Qed.

Lemma complete_create_refines o pid w : refines (complete_create o pid) w.
Proof.
  unfold complete_create. rf_steps; loads.
  match goal with H : complete_create_state ?c _ = Ok _ |- _ =>
    apply complete_create_state_step in H end.
  rf_write ltac:(idtac; eapply refines_write_record; [eassumption|
    etrans; [eassumption|apply record_step_active]]).
  apply created_event_only. intros ? ? ?. rf_write rf_finish. rf_tail.
Qed.

(** ** Observation *)

Lemma is_prepared_true s : is_prepared s = true → s = Prepared.
Proof. by destruct s. Qed.

Lemma observe_transition_step c active status pid paused recreated c' changed :
  observe_transition c active status pid paused recreated = Ok (c', changed) →
  record_step c c' ∧ (changed = false → c' = c) ∧ sc_active_operation c' = sc_active_operation c.
Proof.
  unfold observe_transition, transition_or.
  destruct (st_status (cr_state (sc_record c))) eqn:Hst, status; cbn -[rebuild_state rebuild_paused_state]; try done; intros H.
  all: try (inv_ok; split_and!; [|done..]; eapply record_step_rebuild; [eassumption|];
            simpl; rewrite ?Hst; auto with lifecycle; fail).
  all: try (inv_ok; done).
  2: { destruct active as [op|]; [|done]. case_bool_decide; [|done]. inv_ok.
    split_and!; [|done..]. destruct paused; inv_ok.
    - match goal with H : rebuild_state _ _ _ = Ok _ |- _ =>
        apply rebuild_state_inv in H as (Hs & _ & ? & _ & ?) end.
      match goal with H : rebuild_paused_state _ _ = Ok _ |- _ =>
        apply rebuild_paused_state_inv in H as (? & ? & _ & ? & _ & ?) end.
      apply record_step_state; [congruence..|]. rewrite Hst.
      match goal with |- lifecycle_reach _ ?s => replace s with Running by congruence end.
      auto with lifecycle.
    - eapply record_step_rebuild; [eassumption|]. rewrite Hst. auto with lifecycle. }
  all: apply rbind_ok in H as ([c1 ch] & H1 & H2);
    assert (record_step c c1 ∧ (ch = false → c1 = c) ∧
            sc_active_operation c1 = sc_active_operation c) as (Hs & Hc & Ha)
    by (repeat case_bool_decide; inv_ok; [done|]; revert H1;
        match goal with |- context [if ?b then _ else _] => destruct b; [|done] end;
        intros; inv_ok; split_and!; [|done..]; eapply record_step_rebuild; [eassumption|];
        rewrite Hst; auto with lifecycle).
  all: simpl in H2; destruct (eqb _ _); inv_ok; [done|]; split_and!; [|done|done];
    etrans; [exact Hs|by eapply record_step_paused].
Qed.

Lemma observed_event_only op target :
  valid_id (so_operation_id op) → event_only (observed_event op target).
Proof. intros Hv. unfold observed_event. destruct (so_kind op); auto 6 with events. Qed.

Lemma load_active_ok c d r :
  load_active c d = Ok r →
  match r with
  | Some op => sc_active_operation c = Some (so_operation_id op) ∧
      d_operations d !! so_operation_id op = Some op ∧ so_outcome op = Prepared ∧
      validate_stored_operation_shape op = Ok ()
  | None => sc_active_operation c = None
  end.
Proof.
  unfold load_active. destruct (sc_active_operation c) as [o|] eqn:Ha; intros H; inv_ok; [|done].
  match goal with H : load_operation _ _ = Ok _ |- _ => apply load_operation_ok in H as (? & ? & ?) end.
  unfold validate_active_operation in *. inv_ok.
  repeat match goal with H : _ || _ = false |- _ => apply orb_false_iff in H as [? ?] end.
  match goal with H : negb _ = false |- _ => apply negb_false_iff in H end.
  apply is_prepared_true in H3. by subst o.
Qed.

Lemma observed_outcome_ok kind response outcome :
  observed_outcome kind response = Ok outcome →
  plain_kind kind = true ∧ plain_outcome outcome = true ∧ outcome ≠ Prepared.
Proof. by destruct kind; intros [= <-]. Qed.

Lemma stopped_event_if_only b target :
  event_only (if b : bool then
    do! append_container_event "stopped" target ContainerStopped ∅; ret () else ret ()).
Proof. destruct b; auto with events. Qed.

Lemma observe_state_inner_refines target status pid paused recreated w :
  refines (observe_state_inner target status pid paused recreated) w.
Proof.
  unfold observe_state_inner. cbv zeta. do 6 rf_step.
  apply refines_bind_lift. intros [c' changed] Ht. loads.
  apply observe_transition_step in Ht as (Hs & Hch & _).
  match goal with H : load_active ?c _ = Ok ?r |- _ => rename r into active, c into c0;
    apply load_active_ok in H end.
  match goal with |- context [match active with Some o => @?f o | None => None end] =>
    set (completed := match active with Some o => f o | None => None end) end.
  assert (∀ op, completed = Some op → active = Some op) as Hco.
  { intros op. subst completed. destruct active as [o|]; [|done].
    destruct (observation_completes _ _ _); congruence. }
  destruct completed as [op|]; rf_step.
  - specialize (Hco op eq_refl). subst active. destruct_and!.
    pose proof (oi_entry _ (si_operations _ H1) (so_operation_id op) op ltac:(done)) as (Hv & _).
    rf_write ltac:(idtac; apply (refines_write_record _ _ c0); [done|]).
    { etrans; [exact Hs|apply record_step_active]. }
    apply observed_event_only; [done|]. intros _ w2 Hw2.
    apply stopped_event_if_only. intros _ w3 Hw3. rf_step. rf_step.
    match goal with H : observed_outcome _ _ = Ok _ |- _ =>
      apply observed_outcome_ok in H as (? & ? & ?) end.
    apply refines_bind_write; [|rf_tail]. apply refines_finish_plain; try done. at_disk.
  - destruct changed; simpl; [|rewrite Hch by done];
      [rf_write ltac:(idtac; by apply (refines_write_record _ _ c0))|rf_step];
      rf_step; apply stopped_event_if_only; rf_tail.
Qed.
End operations.
