(* ===== verification/RefineProcess.v ===== *)
(** * Process operations refine the store machine

    Exec, signals, waits, process I/O, process recovery, failures and event
    polls, under every fault injector. *)

From stdpp Require Import base gmap strings list pretty relations.
From S2P Require Import Prelude Sdk Identifiers Lifecycle Fault OciState Contracts StoreModel Disk.
From S2P Require Import RestoreContract Journal.
From S2P Require Import Events Claims Create ProcessStore ProcessIoStore Delete Observe Machine.
From S2P Require Import Refine RefineOps.
Local Open Scope string_scope.
Local Open Scope Z_scope.

(** ** Process record updates *)

#[global] Instance process_step_preorder : PreOrder process_step.
Proof.
  split; [intros p; by constructor|].
  intros p1 p2 p3 [] []. constructor; [congruence..|eauto].
Qed.

Lemma process_step_active a p : process_step p (set_sp_active a p).
Proof. by constructor. Qed.
Lemma process_step_io io p : process_step p (set_sp_io io p).
Proof. by constructor. Qed.
Lemma process_step_pid pid p : process_step p (set_sp_pid pid p).
Proof. by constructor. Qed.
Lemma process_step_exit x p : sp_exit_status p = None → process_step p (set_sp_exit (Some x) p).
Proof. intros H. constructor; try done. intros y. congruence. Qed.

#[export] Hint Resolve process_step_active process_step_io process_step_pid process_step_exit
  : records.
#[export] Hint Extern 1 (process_step ?p ?p) => reflexivity : records.

Section process_ops.
Context `{SE : StoreEnv}.
Implicit Types w : World.

(** The durable record of a process. *)
Definition process_record (target : ProcessTarget) (d : Disk) : option StoredProcess :=
  process_directory (ct_id (pt_container target)) d ≫= λ pd, pd_records pd !! pt_process_id target.

Lemma load_stored_process_ok target d p :
  load_stored_process target d = Ok p →
  process_record target d = Some p ∧ pr_target (sp_record p) = target.
Proof.
  unfold load_stored_process, load_stored_process_from_path, process_record. intros H. inv_ok.
  repeat match goal with H : _ || _ = false |- _ => apply orb_false_iff in H as [? ?] end.
  repeat match goal with H : bool_decide (_ ≠ _) = false |- _ =>
    apply bool_decide_eq_false, dec_stable in H end.
  match goal with H : process_directory _ _ = Some _ |- _ => rewrite H end. done.
Qed.

Lemma refines_rewrite_process m target p p' w :
  process_record target (w_disk w) = Some p → process_step p p' →
  refines (write_process m target p') w.
Proof.
  unfold process_record, process_directory. intros Hp Hs. apply refines_write_process.
  intros dir pd p0 Hdir Hpd Hp0. rewrite Hdir in Hp. simpl in Hp. rewrite Hpd in Hp. simpl in Hp.
  by simplify_eq.
Qed.

Lemma refines_new_process m target p w :
  process_record target (w_disk w) = None → refines (write_process m target p) w.
Proof.
  unfold process_record, process_directory. intros Hp. apply refines_write_process.
  intros dir pd p0 Hdir Hpd Hp0. rewrite Hdir in Hp. simpl in Hp. rewrite Hpd in Hp. simpl in Hp.
  by simplify_eq.
Qed.

Lemma process_record_put target p d :
  let f := FileProcess (ct_id (pt_container target)) (pt_process_id target) p in
  parent_exists f d = true → process_record target (commit_file f (open_transaction f d)) = Some p.
Proof.
  simpl. unfold process_record, process_directory. simpl.
  destruct (d_containers d !! ct_id (pt_container target)) as [dir|] eqn:Hd; [|done].
  intros [pd Hpd]%bool_decide_eq_true. rewrite !lookup_alter_eq, Hd. simpl. rewrite Hpd. simpl.
  by rewrite lookup_insert_eq.
Qed.

Lemma process_record_put_ne target target' p d :
  pt_container target' = pt_container target → pt_process_id target ≠ pt_process_id target' →
  let f := FileProcess (ct_id (pt_container target)) (pt_process_id target) p in
  process_record target' (commit_file f (open_transaction f d)) = process_record target' d.
Proof.
  intros Hc Hne. unfold process_record, process_directory. simpl. rewrite Hc, !lookup_alter_eq.
  destruct (d_containers d !! ct_id (pt_container target)) as [dir|]; [|done]. simpl.
  destruct (cd_processes dir); [|done]. simpl. by rewrite lookup_insert_ne.
Qed.

(** ** Claims *)

Lemma migrate_legacy_process_io_claim_step p d p' :
  migrate_legacy_process_io_claim p d = Ok (Some p') →
  process_step p p' ∧ sp_record p' = sp_record p.
Proof.
  unfold migrate_legacy_process_io_claim. destruct (sp_active_operation p); [|done].
  intros H. inv_ok. destruct (negb _); inv_ok. by split.
Qed.

Lemma claim_active_process_operation_refines p o m name w :
  process_record (pr_target (sp_record p)) (w_disk w) = Some p →
  refines (claim_active_process_operation p o m name) w.
Proof.
  intros Hl. unfold claim_active_process_operation. case_bool_decide; [rf_steps|].
  assert (∀ p' w', w_disk w' = w_disk w → process_step p p' → sp_record p' = sp_record p →
    refines (bind (write_process m (pr_target (sp_record p')) (set_sp_active (Some o) p'))
               (λ _, ret (set_sp_active (Some o) p'))) w') as Hwrite.
  { intros p' w' Hw Hs Hr. apply refines_bind_write; [|intros; rf_steps].
    eapply refines_rewrite_process; [rewrite Hw, Hr; exact Hl|].
    etrans; [exact Hs|apply process_step_active]. }
  destruct (sp_active_operation p) as [active|]; [|by apply refines_bind_ret, (Hwrite p)].
  rf_steps.
  match goal with H : migrate_legacy_process_io_claim _ _ = Ok _ |- _ =>
    apply migrate_legacy_process_io_claim_step in H as [? ?] end. by apply Hwrite.
Qed.

Lemma release_process_operation_claim_refines op o m name w :
  refines (release_process_operation_claim op o m name) w.
Proof.
  unfold release_process_operation_claim. cbv zeta. do 3 rf_step; simpl; loads.
  - rf_step. destruct (_ || _); [|rf_steps].
    match goal with H : live_record _ _ = Some ?c, H' : sc_id ?c = _ |- _ => rewrite H' in *;
      apply (refines_write_record _ _ c); [done|] end.
    case_bool_decide; [etrans; [|apply record_step_active]|]; apply record_step_init_io.
  - do 2 rf_step. destruct (_ || _); [|rf_steps].
    match goal with H : load_stored_process _ _ = Ok ?p |- _ =>
      apply load_stored_process_ok in H as [? ?]; apply (refines_rewrite_process _ _ p); [done|] end.
    case_bool_decide; by constructor.
Qed.

(** *** Programs that leave the operation journal alone *)

Definition keeps_operations {A} (m : M A) : Prop :=
  ∀ w, d_operations (w_disk (m w).2) = d_operations (w_disk w).

Lemma keeps_operations_bind {A B} (m : M A) (k : A → M B) :
  keeps_operations m → (∀ a, keeps_operations (k a)) → keeps_operations (bind m k).
Proof.
  intros Hm Hk w. specialize (Hm w). unfold bind. destruct (m w) as [[a|e] w']; simpl in *; [|done].
  by rewrite (Hk a w').
Qed.

Lemma keeps_operations_pure {A} (m : M A) : (∀ w, (m w).2 = w) → keeps_operations m.
Proof. intros H w. by rewrite H. Qed.

Lemma keeps_operations_write m f :
  (∀ d, d_operations (commit_file f (open_transaction f d)) = d_operations d) →
  (∀ d, d_operations (open_transaction f d) = d_operations d) →
  keeps_operations (write_json m f).
Proof.
  intros Hc Ho w. change (wp (write_json m f) (λ _ w', d_operations (w_disk w') =
    d_operations (w_disk w)) w). apply wp_write_json.
  - by intros e w' ->.
  - intros e w' _ ->. apply Ho.
  - intros r w' _ ->. apply Hc.
Qed.

Lemma keeps_operations_record m id c : keeps_operations (write_record m id c).
Proof. by apply keeps_operations_write. Qed.

Lemma keeps_operations_process m t p : keeps_operations (write_process m t p).
Proof. by apply keeps_operations_write. Qed.

Lemma keeps_operations_ensure_directory id : keeps_operations (ensure_process_directory id).
Proof. intros w. unfold ensure_process_directory, bind, read, modify.
  by destruct (process_directory id (w_disk w)). Qed.

Ltac keeps :=
  repeat first [ progress intros
               | apply keeps_operations_record | apply keeps_operations_process
               | apply keeps_operations_pure; done
               | apply keeps_operations_bind
               | match goal with |- keeps_operations (match ?x with _ => _ end) => destruct x end ].

Lemma release_claim_keeps op o m name :
  keeps_operations (release_process_operation_claim op o m name).
Proof. unfold release_process_operation_claim. cbv zeta. keeps. Qed.

Lemma refines_bind_keeps {A B} (m : M A) (k : A → M B) w :
  refines m w → keeps_operations m →
  (∀ a w', m w = (Ok a, w') → d_operations (w_disk w') = d_operations (w_disk w) →
     refines (k a) w') →
  refines (bind m k) w.
Proof.
  intros Hm Hkeep Hk. apply refines_bind; [done|]. intros a w' H _ _. apply Hk; [done|].
  specialize (Hkeep w). by rewrite H in Hkeep.
Qed.

(** ** Exec *)

Lemma ensure_process_directory_refines id c w :
  live_record id (w_disk w) = Some c → refines (ensure_process_directory id) w.
Proof.
  intros Hl. unfold ensure_process_directory. rf_steps. intros _.
  apply live_record_some in Hl as (dir & Hd & Hr). apply rtc_once.
  eapply step_process_directory; [done..|].
  match goal with H : Ok (process_directory _ _) = Ok _ |- _ =>
    injection H as H; unfold process_directory in H; by rewrite Hd in H end.
Qed.

Lemma ensure_process_directory_live id id' w r w' :
  ensure_process_directory id w = (r, w') →
  live_record id' (w_disk w') = live_record id' (w_disk w).
Proof.
  unfold ensure_process_directory, bind, read, modify.
  destruct (process_directory id (w_disk w)); intros [= _ <-]; [done|].
  apply live_record_process_dir.
Qed.

Lemma reconcile_prepared_exec_refines {B} request op (k : StoredProcess → M B) w :
  (∀ p w', process_record (pr_target (sp_record p)) (w_disk w') = Some p →
     d_operations (w_disk w') = d_operations (w_disk w) → refines (k p) w') →
  refines (bind (reconcile_prepared_exec request op) k) w.
Proof.
  intros Hk. unfold reconcile_prepared_exec. do 6 (rf_step; simpl). loads.
  rf_step. apply refines_bind_keeps; [|apply keeps_operations_ensure_directory|].
  { match goal with H : live_record _ _ = Some ?c, H' : sc_id ?c = _ |- _ => rewrite <- H' in H;
      by eapply ensure_process_directory_refines end. }
  intros [] w1 Hdir Hops. do 3 (rf_step; simpl).
  - do 4 (rf_step; simpl).
    match goal with H : load_stored_process _ _ = Ok _ |- _ =>
      apply load_stored_process_ok in H as [? ?] end.
    apply Hk; [congruence|done].
  - match goal with H : Ok _ = Ok None |- _ => injection H as Hnone end.
    rf_step. apply refines_bind_write_in; [by apply refines_new_process|].
    intros w2 Hp Hw2. rf_step. apply Hk; [|by rewrite Hw2].
    rewrite Hw2. by apply (process_record_put (exact_process_target a a1)).
Qed.

Lemma append_exec_events_only p : event_only (append_exec_events p).
Proof. unfold append_exec_events. auto 10 with events. Qed.

Lemma validate_process_retry_ok op o kind id p digests name u :
  validate_process_retry op o kind id p digests name = Ok u →
  so_kind op = kind ∧ so_container_id op = id ∧ so_process_id op = Some p.
Proof.
  unfold validate_process_retry. intros H. inv_ok.
  match goal with H : validate_retry _ _ _ _ _ _ = Ok _ |- _ =>
    apply validate_retry_ok in H as (? & ? & ?) end.
  match goal with H : bool_decide (_ ≠ _) = false |- _ =>
    apply bool_decide_eq_false, dec_stable in H end. done.
Qed.

Ltac ploads :=
  repeat match goal with
  | H : validate_process_retry _ _ _ _ _ _ _ = Ok _ |- _ =>
      apply validate_process_retry_ok in H as (? & ? & ?)
  | H : load_stored_process _ _ = Ok _ |- _ => apply load_stored_process_ok in H as [? ?]
  | _ => progress loads
  end.

Lemma reconcile_succeeded_exec_refines op response w :
  d_operations (w_disk w) !! so_operation_id op = Some op →
  so_outcome op = SucceededProcess response →
  plain_kind (so_kind op) = true → validate_stored_operation_shape op = Ok () →
  refines (reconcile_succeeded_exec op response) w.
Proof.
  intros Ho Hs Hk Hsh. unfold reconcile_succeeded_exec. rf_steps.
  all: apply refines_bind_write; [|intros; rf_steps].
  all: apply refines_rebind; try done; rewrite Hs; simpl.
  all: repeat match goal with H : reject_if _ _ = Ok _ |- _ => apply reject_if_ok in H end.
  all: repeat match goal with H : _ || _ = false |- _ => apply orb_false_iff in H as [? ?] end.
  all: repeat match goal with H : bool_decide (_ ≠ _) = false |- _ =>
    apply bool_decide_eq_false, dec_stable in H end.
  all: match goal with H : negb _ = false |- _ => apply negb_false_iff, eqb_prop in H end.
  all: done.
Qed.

Lemma prepare_exec_refines request w :
  valid_id (oc_operation_id (exec_context request)) → refines (prepare_exec request) w.
Proof.
  intros Hv. unfold prepare_exec. do 3 (rf_step; simpl). rf_step; simpl.
  - do 2 (rf_step; simpl); try (rf_steps; fail); ploads.
    + apply reconcile_prepared_exec_refines. intros p w1 Hp Hops. simpl. rf_step; simpl.
      * rf_step. simpl. apply refines_bind_keeps; [|keeps|].
        { rf_steps. eapply refines_rewrite_process; [done|apply process_step_active]. }
        intros [] w2 _ Hops2. apply append_exec_events_only. intros [] w3 Hw3.
        rf_write rf_finish. rf_tail.
      * apply refines_bind; [by apply claim_active_process_operation_refines|]. rf_tail.
    + apply reconcile_succeeded_exec_refines; op_fact.
  - do 6 (rf_step; simpl). ploads.
    apply refines_bind_keeps; [|apply keeps_operations_ensure_directory|].
    { match goal with H : live_record _ _ = Some ?c, H' : sc_id ?c = _ |- _ =>
        rewrite <- H' in H; by eapply ensure_process_directory_refines end. }
    intros [] w2 Hdir Hops. rf_step. simpl.
    match goal with |- context [new_operation _ _ _ (cr_generation (sc_record ?c)) _ _ _] =>
      rf_write ltac:(idtac; apply (refines_new_operation _ _ _ _ _ _ _ c)); try done end;
      [by rewrite Hops, H3| |].
    { rewrite (ensure_process_directory_live _ _ _ _ _ Hdir). congruence. }
    apply reconcile_prepared_exec_refines. rf_tail.
Qed.

Lemma complete_exec_refines o pid terminal w : refines (complete_exec o pid terminal) w.
Proof.
  unfold complete_exec. rf_steps; ploads.
  all: rf_write ltac:(idtac; eapply refines_rewrite_process; [eassumption|by constructor]).
  all: apply append_exec_events_only; intros ? ? ?; rf_write rf_finish; rf_tail.
Qed.

(** ** Signals *)

Lemma claim_signal_process_refines op o w : refines (claim_signal_process op o) w.
Proof.
  unfold claim_signal_process. cbv zeta. do 3 (rf_step; simpl); ploads.
  - apply claim_and_ret_refines; [at_disk|]. rf_tail.
  - do 2 (rf_step; simpl). ploads.
    apply refines_bind; [apply claim_active_process_operation_refines; congruence|]. rf_tail.
Qed.

Lemma prepare_signal_process_refines request w :
  valid_id (oc_operation_id (sig_context request)) → refines (prepare_signal_process request) w.
Proof.
  intros Hv. unfold prepare_signal_process. rf_steps; ploads.
  - apply refines_bind; [apply claim_signal_process_refines|rf_tail].
  - rf_write rf_new_operation. apply refines_bind; [apply claim_signal_process_refines|rf_tail].
Qed.

(** A process operation that releases its claim and finishes. *)
Lemma release_and_finish_refines op o m1 m2 name outcome w :
  d_operations (w_disk w) !! o = Some op → so_outcome op = Prepared → outcome ≠ Prepared →
  validate_stored_operation_shape (set_outcome outcome op) = Ok () →
  refines (bind (release_process_operation_claim op o m1 name)
             (λ _, write_operation m2 o (set_outcome outcome op))) w.
Proof.
  intros Ho Hp Hne Hsh.
  apply refines_bind_keeps; [apply release_process_operation_claim_refines|apply release_claim_keeps|].
  intros [] w1 _ Hops. apply refines_finish; [by rewrite Hops|done..].
Qed.

Lemma complete_signal_process_refines o w : refines (complete_signal_process o) w.
Proof.
  unfold complete_signal_process. rf_steps; ploads.
  apply release_and_finish_refines; try done. apply shape_plain; op_fact.
Qed.

(** ** Waits *)

Lemma append_exited_event_only target status : event_only (append_exited_event target status).
Proof.
  unfold append_exited_event. apply event_only_bind; [|auto with events].
  apply event_only_process. unfold exit_status_attributes.
  rewrite lookup_insert_ne by done.
  by destruct (exit_signal status), (exit_code status); rewrite ?lookup_insert_ne by done.
Qed.

Lemma complete_process_wait_refines target status w :
  refines (complete_process_wait target status) w.
Proof.
  unfold complete_process_wait. do 4 (rf_step; simpl); ploads.
  - rf_step; simpl; [rf_steps|]. rewrite <- H3 in H1.
    rf_steps; apply append_exited_event_only; intros [] w1 Hw1; simpl.
    1,2: apply (stopped_event_if_only true); intros [] w2 Hw2.
    3: apply refines_bind_ret.
    all: rf_write ltac:(idtac; apply (refines_write_record _ _ a1); [at_disk|]); [|rf_tail].
    1,2: etrans; [eapply record_step_rebuild; [eassumption|]|by apply record_step_exit];
      match goal with H : st_status _ = _ |- _ => rewrite H end; auto with lifecycle.
    by apply record_step_exit.
  - do 2 (rf_step; simpl); [rf_steps|]. ploads.
    apply append_exited_event_only; intros [] w1 Hw1; simpl.
    rf_write ltac:(idtac; eapply refines_rewrite_process; [|by apply process_step_exit]); [|rf_tail].
    unfold process_record, process_directory in *. by rewrite (sco_containers _ _ Hw1).
Qed.

(** ** Process I/O *)

Lemma claim_process_io_operation_refines op profile w :
  refines (claim_process_io_operation op profile) w.
Proof.
  unfold claim_process_io_operation, claim_init_io_operation, claim_exec_io_operation.
  cbv zeta. do 3 (rf_step; simpl); ploads.
  - rf_step. simpl. rf_step; simpl; [rf_steps|].
    match goal with H : live_record _ _ = Some ?c |- _ =>
      rf_write ltac:(idtac; apply (refines_write_record _ _ c); [at_disk|]); [|rf_tail] end.
    etrans; [|apply record_step_init_io].
    destruct (bool_decide (_ = Some _)); [apply record_step_active|done].
  - do 2 (rf_step; simpl). ploads. rf_step; simpl; [rf_steps|].
    match goal with H : process_record _ _ = Some ?p |- _ =>
      rf_write ltac:(idtac; apply (refines_rewrite_process _ _ p); [congruence|]); [|rf_tail] end.
    by destruct (bool_decide (_ = Some _)); constructor.
Qed.

Definition io_profile (profile : ProcessIoOperation) : Prop :=
  is_process_io_kind (pio_kind profile) = true.

Lemma io_kind_plain k : is_process_io_kind k = true → plain_kind k = true.
Proof. by destruct k. Qed.
Lemma io_kind_creation k : is_process_io_kind k = true → is_creation k = false.
Proof. by destruct k. Qed.
Hint Resolve io_kind_plain io_kind_creation : opkind.

Lemma prepare_process_io_operation_refines context requested digest profile w :
  io_profile profile → valid_id (oc_operation_id context) →
  refines (prepare_process_io_operation context requested digest profile) w.
Proof.
  unfold io_profile. intros Hp Hv. unfold prepare_process_io_operation. rf_steps; ploads.
  1: apply refines_bind; [apply claim_process_io_operation_refines|rf_tail].
  all: rf_write rf_new_operation; apply refines_bind; [apply claim_process_io_operation_refines|rf_tail].
Qed.

Lemma complete_process_io_operation_refines o profile w :
  io_profile profile → refines (complete_process_io_operation o profile) w.
Proof.
  unfold io_profile. intros Hp. unfold complete_process_io_operation. rf_steps; ploads.
  apply release_and_finish_refines; try done. apply shape_plain; op_fact.
Qed.

(** ** Recovery *)

Lemma collect_durable_ok container d m name m' :
  (∀ i p, m !! i = Some p → process_record (exact_process_target container i) d = Some p ∧
     pr_target (sp_record p) = exact_process_target container i) →
  collect_durable container d m name = Ok m' →
  (∀ i p, m' !! i = Some p → process_record (exact_process_target container i) d = Some p ∧
     pr_target (sp_record p) = exact_process_target container i).
Proof.
  unfold collect_durable. intros Hm.
  destruct (strip_prefix "." name ≫= strip_suffix ".json.next"); intros H; inv_ok; [done|].
  destruct (_ && _); [|done]. intros i p. rewrite lookup_insert_Some.
  intros [[<- <-]|[_ Hi]]; [by apply load_stored_process_ok|by apply Hm].
Qed.

Lemma collect_durable_fold container d l m m' :
  rfold (collect_durable container d) m l = Ok m' →
  (∀ i p, m !! i = Some p → process_record (exact_process_target container i) d = Some p ∧
     pr_target (sp_record p) = exact_process_target container i) →
  (∀ i p, m' !! i = Some p → process_record (exact_process_target container i) d = Some p ∧
     pr_target (sp_record p) = exact_process_target container i).
Proof.
  revert m. induction l as [|x l IH]; intros m H Hm; simpl in H; inv_ok; [done|].
  eapply IH; [done|]. by eapply collect_durable_ok.
Qed.

Lemma rebind_processes_refines container observed m w :
  (∀ i p, m !! i = Some p → process_record (exact_process_target container i) (w_disk w) = Some p ∧
     pr_target (sp_record p) = exact_process_target container i) →
  refines (rebind_processes m observed) w.
Proof.
  revert m w. induction observed as [|[i r] observed IH]; intros m w Hm; simpl; [rf_steps|].
  do 2 (rf_step; simpl).
  match goal with H : ok_or _ _ = Ok _ |- _ => apply ok_or_ok in H;
    pose proof (Hm _ _ H) as [Hp Ht] end.
  rf_step; simpl.
  - rf_step. apply IH. intros j p [_ Hj]%lookup_delete_Some. by apply Hm.
  - apply refines_bind_write.
    + rewrite Ht. eapply refines_rewrite_process; [exact Hp|by apply process_step_pid].
    + intros w1 Hw1 _. apply IH. intros j p [Hne Hj]%lookup_delete_Some.
      apply Hm in Hj as [Hpj Htj]. split; [|done]. rewrite Hw1, Ht.
      by rewrite (process_record_put_ne (exact_process_target container i)).
Qed.

Lemma observe_recreated_exec_processes_refines target observed w :
  refines (observe_recreated_exec_processes target observed) w.
Proof.
  unfold observe_recreated_exec_processes. rf_steps.
  match goal with H : match process_directory ?i ?d with _ => _ end = Ok _ |- _ =>
    destruct (process_directory i d); inv_ok end.
  - eapply rebind_processes_refines. eapply collect_durable_fold; [eassumption|].
    intros ? ?. by rewrite lookup_empty.
  - match goal with c : StoredContainer |- _ => apply (rebind_processes_refines c) end.
    intros ? ?. by rewrite lookup_empty.
Qed.

(** ** Failures *)

Lemma fail_operation_refines o e w : refines (fail_operation o e) w.
Proof.
  unfold fail_operation. do 3 (rf_step; simpl); try (rf_steps; fail); ploads.
  - rf_step; simpl; [|rf_step; simpl].
    + apply refines_bind_silent; [by destruct (so_kind a)|]. intros m w1 Hw1.
      subst o. apply refines_bind_write.
      { apply refines_finish; try done; [by rewrite Hw1|by apply shape_failed]. }
      intros w2 Hw2 _. apply reconcile_failed_creation_refines. rewrite Hw2. simpl.
      by rewrite lookup_insert_eq.
    + do 2 (rf_step; simpl). subst o.
      apply release_and_finish_refines; try done. by apply shape_failed.
    + do 4 (rf_step; simpl). ploads.
      apply refines_bind_write.
      { eapply refines_write_record; [eassumption|apply record_step_active]. }
      intros w2 Hw2 _. apply refines_finish; try done; [by rewrite Hw2|by apply shape_failed].
  - rf_steps. apply reconcile_failed_creation_refines. congruence.
Qed.

(** ** Polls *)

Lemma repair_claims_refines last claims s w :
  (∀ h k, (h, k) ∈ claims → d_claims (w_disk w) !! h = Some k) →
  refines (repair_claims last claims s) w.
Proof.
  revert s w. induction claims as [|[h k] claims IH]; intros s w Hc; simpl; [rf_steps|].
  do 2 (rf_step; simpl). apply refines_bind.
  { eapply ensure_event_record_refines, Hc. by left. }
  intros [] w1 Hm Hsteps _. apply IH. intros h' k' Hin.
  eapply lookup_weaken; [apply Hc; by right|]. apply disk_le_steps in Hsteps. apply Hsteps.
Qed.

Lemma poll_events_refines filter after limit w : refines (poll_events filter after limit) w.
Proof.
  unfold poll_events, repair_pending_event_records. apply refines_bind; [|rf_tail].
  do 2 rf_step. inv_ok. apply repair_claims_refines. intros h k Hin.
  by apply elem_of_map_to_list in Hin.
Qed.
End process_ops.
