(* ===== verification/RefineContracts.v ===== *)
(** * Operations with retained requests refine the store machine

    Filesystem mutations, checkpoints, restores and attestations, under every
    fault injector.  Their journal entries keep the request, so that a
    completion is checked against it. *)

From stdpp Require Import base gmap strings list pretty relations.
From S2P Require Import Prelude Sdk Identifiers Lifecycle Fault OciState Contracts StoreModel Disk.
From S2P Require Import RestoreContract Journal Events Claims Create ProcessStore FileStore.
From S2P Require Import CheckpointStore RestoreStore AttestationStore Machine Refine RefineOps.
Local Open Scope string_scope.
Local Open Scope Z_scope.

Section shapes.
Context `{SE : StoreEnv}.
Implicit Types (w : World) (op : StoredOperation).

(** The successes that an entry with a retained request admits. *)
Definition outcome_fits op (outcome : StoredOperationStatus) : bool :=
  match so_kind op, so_request op, outcome with
  | KFile, Some (RequestFile _), SucceededFilesystem (ResponseFile r) =>
      response_target_matches op (fileresp_target r)
  | KFilesystem, Some (RequestFilesystem _), SucceededFilesystem (ResponseFilesystem r) =>
      response_target_matches op (fsresp_target r)
  | KCheckpoint, Some (RequestCheckpoint q), SucceededCheckpoint r =>
      is_ok (checkpoint_response_validate_for_request r q)
  | KRestore, Some (RequestRestore q), SucceededRestore r =>
      bool_decide (cr_generation (rresp_restored r) = so_generation op)
      && is_ok (restore_response_validate_for_request r q)
  | KAttest, Some (RequestAttest q), SucceededAttestation r =>
      is_ok (attest_response_validate_for_request r q)
  | _, _, _ => false
  end.

Lemma shape_fits op outcome :
  validate_stored_operation_shape op = Ok () → outcome_fits op outcome = true →
  validate_stored_operation_shape (set_outcome outcome op) = Ok ().
Proof.
  unfold validate_stored_operation_shape, outcome_fits. destruct op as [? ? kind ? ? ? req ? out0].
  simpl. intros H Hf. destruct kind; try done; apply rbind_ok in H as ([] & H1 & H); rewrite H1; simpl;
    destruct req as [[]|]; try done; apply rbind_ok in H as ([] & H2 & _);
    unfold context_mismatch, request_target_matches, response_target_matches, digest_matches in *;
    simpl in *; rewrite H2; simpl; destruct outcome as [| | |[]| | | | |]; try done.
  1-3,5: by rewrite Hf.
  apply andb_true_iff in Hf as [Hg Hf]. rewrite Hf.
  apply bool_decide_eq_true in Hg. by rewrite bool_decide_eq_false_2 by naive_solver.
Qed.

Lemma generation_fence_matches target g name op :
  ct_id target = so_container_id op → g = so_generation op →
  generation_fence target g name = Ok () → request_target_matches op target = true.
Proof.
  intros Hid -> H. unfold request_target_matches, generation_fence in *.
  rewrite bool_decide_eq_true_2 by done. destruct (ct_generation target); [|done]. inv_ok.
  match goal with H : bool_decide (_ ≠ _) = false |- _ =>
    apply bool_decide_eq_false, dec_stable in H end. simpl. by apply bool_decide_eq_true_2.
Qed.

(** A prepared entry for a request that validated. *)
Lemma shape_new_file request c g digest name :
  validate_file_request base64_decoded_len request = Ok () → file_op request = Upload →
  file_context request = Some c → generation_fence (file_target request) g name = Ok () →
  validate_stored_operation_shape (new_operation (oc_operation_id c) KFile
    (ct_id (file_target request)) g None (Some (RequestFile request)) digest) = Ok ().
Proof.
  intros Hv Hop Hc Hg. unfold validate_stored_operation_shape. simpl.
  rewrite (generation_fence_matches _ g name) by done. rewrite Hc, Hv, Hop. simpl.
  by rewrite bool_decide_eq_false_2 by naive_solver.
Qed.

Lemma shape_new_filesystem request c g digest name :
  validate_filesystem_request request = Ok () → fs_is_mutating (fs_op request) = true →
  fs_context request = Some c → generation_fence (fs_target request) g name = Ok () →
  validate_stored_operation_shape (new_operation (oc_operation_id c) KFilesystem
    (ct_id (fs_target request)) g None (Some (RequestFilesystem request)) digest) = Ok ().
Proof.
  intros Hv Hop Hc Hg. unfold validate_stored_operation_shape. simpl.
  rewrite (generation_fence_matches _ g name) by done. rewrite Hc, Hv, Hop. simpl.
  by rewrite bool_decide_eq_false_2 by naive_solver.
Qed.

Lemma shape_new_checkpoint request digest g :
  checkpoint_request_validate request = Ok () → checkpoint_request_digest request = Ok digest →
  ct_generation (ckr_target request) = Some g →
  validate_stored_operation_shape (new_operation (oc_operation_id (ckr_context request))
    KCheckpoint (ct_id (ckr_target request)) g None (Some (RequestCheckpoint request))
    (current digest)) = Ok ().
Proof.
  intros Hv Hd Hg. unfold validate_stored_operation_shape, request_target_matches, digest_matches.
  simpl. rewrite Hv, Hd, Hg. simpl. repeat case_bool_decide; done.
Qed.

Lemma shape_new_restore request digest g :
  restore_request_validate request = Ok () → restore_request_digest request = Ok digest →
  validate_stored_operation_shape (new_operation (oc_operation_id (rr_context request))
    KRestore (rr_id request) g None (Some (RequestRestore request)) (current digest)) = Ok ().
Proof.
  intros Hv Hd. unfold validate_stored_operation_shape, digest_matches.
  simpl. rewrite Hv, Hd. simpl. repeat case_bool_decide; done.
Qed.

Lemma shape_new_attestation request digest g :
  attest_request_validate request = Ok () → attestation_request_digest request = Ok digest →
  ct_generation (atr_target request) = Some g →
  validate_stored_operation_shape (new_operation (oc_operation_id (atr_context request))
    KAttest (ct_id (atr_target request)) g None (Some (RequestAttest request))
    (current digest)) = Ok ().
Proof.
  intros Hv Hd Hg. unfold validate_stored_operation_shape, response_target_matches, digest_matches.
  simpl. rewrite Hv, Hd, Hg. simpl. repeat case_bool_decide; done.
Qed.

(** The outcomes that fit their entries. *)
Lemma file_fits op response :
  so_kind op = KFile → validate_stored_operation_shape op = Ok () →
  response_target_matches op (fileresp_target response) = true →
  outcome_fits op (SucceededFilesystem (ResponseFile response)) = true.
Proof.
  intros Hk Hsh Ht. unfold outcome_fits. rewrite Hk. revert Hsh.
  unfold validate_stored_operation_shape. rewrite Hk. intros H. inv_ok.
  by destruct (so_request op) as [[]|].
Qed.

Lemma filesystem_fits op response :
  so_kind op = KFilesystem → validate_stored_operation_shape op = Ok () →
  response_target_matches op (fsresp_target response) = true →
  outcome_fits op (SucceededFilesystem (ResponseFilesystem response)) = true.
Proof.
  intros Hk Hsh Ht. unfold outcome_fits. rewrite Hk. revert Hsh.
  unfold validate_stored_operation_shape. rewrite Hk. intros H. inv_ok.
  by destruct (so_request op) as [[]|].
Qed.

Lemma checkpoint_fits op request response u :
  so_kind op = KCheckpoint → so_request op = Some (RequestCheckpoint request) →
  checkpoint_response_validate_for_request response request = Ok u →
  outcome_fits op (SucceededCheckpoint response) = true.
Proof. intros Hk Hr Hv. unfold outcome_fits. by rewrite Hk, Hr, Hv. Qed.

Lemma restore_fits op request response u :
  so_kind op = KRestore → so_request op = Some (RequestRestore request) →
  cr_generation (rresp_restored response) = so_generation op →
  restore_response_validate_for_request response request = Ok u →
  outcome_fits op (SucceededRestore response) = true.
Proof. intros Hk Hr Hg Hv. unfold outcome_fits. by rewrite Hk, Hr, Hv, bool_decide_eq_true_2. Qed.

Lemma attestation_fits op request source response u :
  so_kind op = KAttest → so_request op = Some (RequestAttest request) →
  validate_attestation_response_bindings source request response = Ok u →
  outcome_fits op (SucceededAttestation response) = true.
Proof.
  intros Hk Hr Hv. unfold validate_attestation_response_bindings in Hv. inv_ok. unfold outcome_fits.
  rewrite Hk, Hr. match goal with H : attest_response_validate_for_request _ _ = Ok _ |- _ => by rewrite H end.
Qed.

(** The retained requests of loaded entries. *)
Lemma retained_checkpoint_request op (e : Error) request :
  match so_request op with Some (RequestCheckpoint r) => Ok r | _ => Err e end = Ok request →
  so_request op = Some (RequestCheckpoint request).
Proof. destruct (so_request op) as [[]|]; naive_solver. Qed.

Lemma retained_attestation_request op (e : Error) request :
  match so_request op with Some (RequestAttest r) => Ok r | _ => Err e end = Ok request →
  so_request op = Some (RequestAttest request).
Proof. destruct (so_request op) as [[]|]; naive_solver. Qed.

Lemma retained_restore_request_ok op request :
  retained_restore_request op = Ok request → so_request op = Some (RequestRestore request).
Proof. unfold retained_restore_request. destruct (so_request op) as [[]|]; naive_solver. Qed.

(** The first write of an operation on a live container. *)
Lemma refines_prepare m o kind id g p request digest c w :
  valid_id o → is_creation kind = false → d_operations (w_disk w) !! o = None →
  live_record id (w_disk w) = Some c → cr_generation (sc_record c) = g →
  validate_stored_operation_shape (new_operation o kind id g p request digest) = Ok () →
  refines (write_operation m o (new_operation o kind id g p request digest)) w.
Proof.
  intros. apply refines_write_operation. intros _.
  by apply (step_prepare _ (new_operation o kind id g p request digest) c).
Qed.

(** The last write: the outcome fits the retained request. *)
Lemma refines_finish_fits m o op outcome w :
  d_operations (w_disk w) !! o = Some op → so_outcome op = Prepared → outcome ≠ Prepared →
  validate_stored_operation_shape op = Ok () → outcome_fits op outcome = true →
  refines (write_operation m o (set_outcome outcome op)) w.
Proof. intros. apply refines_finish; try done. by apply shape_fits. Qed.
End shapes.

Section operations.
Context `{SE : StoreEnv}.
Implicit Types w : World.

(** ** Filesystem mutations *)

Lemma prepare_filesystem_mutation_operation_refines context requested digest retained profile w :
  valid_id (oc_operation_id context) → is_creation (fm_kind profile) = false →
  (∀ g, generation_fence requested g (fm_name profile) = Ok () →
     validate_stored_operation_shape (new_operation (oc_operation_id context) (fm_kind profile)
       (ct_id requested) g None (Some retained) (current digest)) = Ok ()) →
  refines (prepare_filesystem_mutation_operation context requested digest retained profile) w.
Proof.
  intros Hv Hk Hsh. unfold prepare_filesystem_mutation_operation. rf_steps; loads.
  - rf_claim. rf_tail.
  - match goal with H : generation_fence _ _ _ = Ok ?u |- _ => destruct u; apply Hsh in H end.
    match goal with H : sc_id ?c = _ |- _ => rewrite H in * end.
    rf_write ltac:(idtac; eapply refines_prepare; [done|done|at_disk|eassumption|done|done]).
    rf_claim. rf_tail.
Qed.

Lemma prepare_file_mutation_refines request w :
  (∀ c, file_context request = Some c → valid_id (oc_operation_id c)) →
  refines (prepare_file_mutation request) w.
Proof.
  intros Hv. unfold prepare_file_mutation. do 4 rf_step. loads.
  repeat match goal with u : () |- _ => destruct u end.
  match goal with H : ok_or _ _ = Ok _ |- _ => apply ok_or_ok in H; rename H into Hc end.
  apply refines_bind; [|intros ? ? _ _ _; rf_steps].
  apply prepare_filesystem_mutation_operation_refines; [by apply Hv|done|].
  intros g Hg. by eapply shape_new_file.
Qed.

Lemma prepare_filesystem_mutation_refines request w :
  (∀ c, fs_context request = Some c → valid_id (oc_operation_id c)) →
  refines (prepare_filesystem_mutation request) w.
Proof.
  intros Hv. unfold prepare_filesystem_mutation. do 4 rf_step. loads.
  repeat match goal with u : () |- _ => destruct u end.
  match goal with H : ok_or _ _ = Ok _ |- _ => apply ok_or_ok in H; rename H into Hc end.
  match goal with H : negb _ = false |- _ => apply negb_false_iff in H end.
  apply refines_bind; [|intros ? ? _ _ _; rf_steps].
  apply prepare_filesystem_mutation_operation_refines; [by apply Hv|done|].
  intros g Hg. by eapply shape_new_filesystem.
Qed.

Lemma ensure_matches (op : StoredOperation) target (e : Error) u :
  reject_if (bool_decide (ct_id target ≠ so_container_id op)
             || bool_decide (ct_generation target ≠ Some (so_generation op))) e = Ok u →
  response_target_matches op target = true.
Proof.
  intros [H1 H2]%reject_if_ok%orb_false_iff. unfold response_target_matches.
  apply bool_decide_eq_false, dec_stable in H1, H2. by rewrite !bool_decide_eq_true_2.
Qed.

Lemma complete_filesystem_mutation_operation_refines o response profile w :
  (∀ op, so_kind op = fm_kind profile → validate_stored_operation_shape op = Ok () →
     response_target_matches op (mutation_response_target response) = true →
     outcome_fits op (SucceededFilesystem response) = true) →
  refines (complete_filesystem_mutation_operation o response profile) w.
Proof.
  intros Hfit. unfold complete_filesystem_mutation_operation. rf_steps.
  match goal with H : reject_if (_ || _) _ = Ok _ |- _ => apply ensure_matches in H end. loads.
  rf_write rf_release. rf_write ltac:(idtac; apply refines_finish_fits; [at_disk|done..|by apply Hfit]).
  rf_tail.
Qed.

Lemma complete_file_mutation_refines o response w : refines (complete_file_mutation o response) w.
Proof.
  unfold complete_file_mutation. apply refines_bind; [|intros ? ? _ _ _; rf_steps].
  apply complete_filesystem_mutation_operation_refines. simpl. intros op. apply file_fits.
Qed.

Lemma complete_filesystem_mutation_refines o response w :
  refines (complete_filesystem_mutation o response) w.
Proof.
  unfold complete_filesystem_mutation. apply refines_bind; [|intros ? ? _ _ _; rf_steps].
  apply complete_filesystem_mutation_operation_refines. simpl. intros op. apply filesystem_fits.
Qed.

(** ** Checkpoints *)

Lemma prepare_checkpoint_refines request w :
  valid_id (oc_operation_id (ckr_context request)) → refines (prepare_checkpoint request) w.
Proof.
  intros Hv. unfold prepare_checkpoint. rf_steps; loads.
  - rf_claim. rf_tail.
  - match goal with H : ok_or _ _ = Ok _ |- _ => apply ok_or_ok in H end.
    match goal with H : sc_id ?c = _ |- _ => rewrite H in * end.
    rf_write ltac:(idtac; eapply refines_prepare; [done|done|at_disk|eassumption|done|]).
    { repeat match goal with u : () |- _ => destruct u end. apply shape_new_checkpoint; congruence. }
    rf_claim. rf_tail.
Qed.

Lemma complete_checkpoint_refines o response w : refines (complete_checkpoint o response) w.
Proof.
  unfold complete_checkpoint. rf_steps; loads.
  rf_write rf_release. rf_write ltac:(idtac; apply refines_finish_fits; [at_disk|done..|]).
  { by eapply checkpoint_fits; [done|eapply retained_checkpoint_request|]. }
  rf_tail.
Qed.

(** ** Attestations *)

Lemma prepare_attestation_refines request w :
  valid_id (oc_operation_id (atr_context request)) → refines (prepare_attestation request) w.
Proof.
  intros Hv. unfold prepare_attestation, validate_attestation_retry. rf_steps; loads.
  - rf_claim. rf_tail.
  - match goal with H : ok_or _ _ = Ok _ |- _ => apply ok_or_ok in H end.
    match goal with H : sc_id ?c = _ |- _ => rewrite H in * end.
    rf_write ltac:(idtac; eapply refines_prepare; [done|done|at_disk|eassumption|done|]).
    { repeat match goal with u : () |- _ => destruct u end. apply shape_new_attestation; congruence. }
    rf_claim. rf_tail.
Qed.

Lemma complete_attestation_refines o response w :
  valid_id o → refines (complete_attestation o response) w.
Proof.
  intros Hv. unfold complete_attestation. rf_steps; loads.
  rf_write rf_release. apply event_only_operation; [done..|]. intros ? ? ?.
  rf_write ltac:(idtac; apply refines_finish_fits; [at_disk|done..|]).
  { by eapply attestation_fits; [done|eapply retained_attestation_request|]. }
  rf_tail.
Qed.

(** ** Restores *)

Lemma validate_restore_retry_ok op request digest u :
  validate_restore_retry op request digest = Ok u →
  so_kind op = KRestore ∧ so_container_id op = rr_id request ∧
  so_request op = Some (RequestRestore request).
Proof.
  unfold validate_restore_retry. intros H. inv_ok.
  match goal with H : validate_retry _ _ _ _ _ _ = Ok _ |- _ =>
    apply validate_retry_ok in H as (? & ? & _) end.
  match goal with H : bool_decide (_ ≠ _) = false |- _ =>
    apply bool_decide_eq_false, dec_stable in H end. done.
Qed.

Lemma append_restore_creating_event_only o record :
  valid_id o → event_only (append_restore_creating_event o record).
Proof.
  intros Hv. unfold append_restore_creating_event. apply event_only_bind; [apply event_only_lift|].
  intros id. apply event_only_bind; [by apply event_only_operation|]. intros _. apply event_only_ret.
Qed.

Lemma restored_events_only o target : valid_id o → event_only (restored_events o target).
Proof.
  intros Hv. unfold restored_events.
  do 3 (apply event_only_bind; [by apply event_only_operation|]; intros _). apply event_only_ret.
Qed.

Lemma restore_response_new_ok restored reference r :
  restore_response_new restored reference = Ok r → r = mkRestoreResponse restored reference.
Proof. unfold restore_response_new. intros H. by inv_ok. Qed.

Lemma reconcile_succeeded_restore_refines op response w :
  d_operations (w_disk w) !! so_operation_id op = Some op →
  so_outcome op = SucceededRestore response → so_kind op = KRestore →
  validate_stored_operation_shape op = Ok () →
  refines (reconcile_succeeded_restore op response) w.
Proof.
  intros Ho Hs Hk Hsh. unfold reconcile_succeeded_restore. rf_steps.
  all: apply refines_bind_write; [|intros; rf_steps].
  all: match goal with H : restore_response_new _ _ = Ok _ |- _ =>
    apply restore_response_new_ok in H as -> end; loads.
  all: repeat match goal with H : _ || _ = false |- _ => apply orb_false_iff in H as [? ?] end.
  all: repeat match goal with H : bool_decide (_ ≠ _) = false |- _ =>
    apply bool_decide_eq_false, dec_stable in H end.
  all: apply refines_write_operation; intros _; apply step_rebind; [done| |].
  - rewrite Hs. simpl. split; [done|]. by eexists.
  - apply shape_fits; [done|]. by eapply restore_fits; [done|eapply retained_restore_request_ok|..].
Qed.

Lemma lookup_restore_refines request w : refines (lookup_restore request) w.
Proof.
  unfold lookup_restore, reconcile_failed_restore. rf_steps.
  all: match goal with H : validate_restore_retry _ _ _ = Ok _ |- _ =>
    apply validate_restore_retry_ok in H as (? & ? & ?) end; loads.
  - apply refines_bind; [|rf_tail]. apply reconcile_succeeded_restore_refines; congruence.
  - apply refines_bind; [|rf_tail]. apply reconcile_failed_creation_refines. congruence.
Qed.

Lemma prepare_restore_refines request driver w :
  valid_id (oc_operation_id (rr_context request)) → valid_id (rr_id request) →
  refines (prepare_restore request driver) w.
Proof.
  intros Hv Hid. unfold prepare_restore, reconcile_prepared_restore, reconcile_failed_restore.
  rf_steps.
  1-3: match goal with H : validate_restore_retry _ _ _ = Ok _ |- _ =>
    apply validate_restore_retry_ok in H as (? & ? & ?) end; loads.
  - match goal with H : so_operation_id ?op = _ |- _ => rewrite <- H in * end.
    apply reconcile_prepared_container_refines; try op_fact. intros stored w1 Hl Hsid.
    apply claim_and_ret_refines; [by rewrite Hsid|]. intros c w2.
    apply append_restore_creating_event_only; [done|]. rf_tail.
  - apply refines_bind; [|rf_tail]. apply reconcile_succeeded_restore_refines; congruence.
  - apply refines_bind; [|rf_tail]. apply reconcile_failed_creation_refines. congruence.
  - loads. repeat match goal with u : () |- _ => destruct u end.
    apply next_generation_refines; [done|]. intros g w1 Hinv Hg Hw1.
    set (op := new_operation _ KRestore _ g _ _ _).
    apply refines_bind_write.
    { apply refines_write_operation. intros _. apply (fresh_creation_step op w'); simpl; try done.
      - at_disk.
      - by apply shape_new_restore. }
    intros w2 Hw2 _. rf_steps.
    change (oc_operation_id (rr_context request)) with (so_operation_id op).
    apply reconcile_prepared_container_refines; try done.
    { rewrite Hw2. simpl. by rewrite lookup_insert_eq. }
    intros stored w3 _ _. apply append_restore_creating_event_only; [done|]. rf_tail.
Qed.

Lemma complete_restore_state_step c o pid c' :
  complete_restore_state c o pid = Ok c' →
  record_step c c' ∧ cr_generation (sc_record c') = cr_generation (sc_record c).
Proof.
  unfold complete_restore_state. destruct (st_status (cr_state (sc_record c))) eqn:Hst; cbn -[rebuild_state rebuild_paused_state].
  2-4: repeat case_bool_decide; simpl; try done; destruct (is_paused _); intros; simplify_eq/=; done.
  intros H. inv_ok.
  match goal with H : rebuild_state _ _ _ = Ok _ |- _ =>
    apply rebuild_state_inv in H as (Hs & _ & ? & _ & ?) end.
  match goal with H : rebuild_paused_state _ _ = Ok _ |- _ =>
    apply rebuild_paused_state_inv in H as (? & ? & _ & ? & _ & ?) end.
  split; [|done]. apply record_step_state; [congruence..|].
  match goal with |- lifecycle_reach _ ?s => replace s with Running by congruence end.
  rewrite Hst. transitivity Created; auto with lifecycle.
Qed.

Lemma complete_restore_refines o pid w : valid_id o → refines (complete_restore o pid) w.
Proof.
  intros Hv. unfold complete_restore. rf_steps; loads.
  all: match goal with H : complete_restore_state ?c _ _ = Ok _ |- _ =>
    apply complete_restore_state_step in H as [? ?];
    rf_write ltac:(idtac; eapply (refines_write_record _ _ c); [at_disk|];
      etrans; [eassumption|apply record_step_active]) end.
  apply restored_events_only; [done|]. intros ? ? ?. rf_steps.
  match goal with H : restore_response_new _ _ = Ok _ |- _ =>
    apply restore_response_new_ok in H as -> end.
  rf_write ltac:(idtac; apply refines_finish_fits; [at_disk|done..|]).
  { eapply restore_fits; [done|by eapply retained_restore_request_ok|simpl; congruence|done]. }
  rf_tail.
Qed.
End operations.
