(* ===== verification/Store.v ===== *)
(** * The store as one component

    [StoreCall] is the interface of [DurableStateStore]: every call takes the
    store's lock, so any use of a store, through any number of runtimes opened
    one after the other, is a sequence of calls.  A call whose write fails or
    is cut short keeps the files it had committed. *)

From stdpp Require Import base gmap strings list relations.
From S2P Require Import Prelude Sdk Identifiers Lifecycle Fault OciState Contracts StoreModel Disk.
From S2P Require Import RestoreContract Journal.
From S2P Require Import Events Claims Create Start Kill Freezer Update ProcessStore ProcessIoStore.
From S2P Require Import FileStore CheckpointStore RestoreStore AttestationStore Delete Observe.
From S2P Require Import StartupAudit Machine Refine RefineOps RefineProcess RefineContracts.
Local Open Scope string_scope.
Local Open Scope Z_scope.

Inductive StoreCall : Type :=
  | CallOpen
  | CallPrepareCreate (request : CreateRequest) (driver : DriverKind) (inherited : option string)
  | CallCompleteCreate (operation_id : string) (pid : Z)
  | CallPrepareStart (request : StartRequest)
  | CallCompleteStart (operation_id : string) (status : ContainerState) (pid : option Z)
  | CallPrepareKill (request : KillRequest)
  | CallCompleteKill (operation_id : string) (status : ContainerState) (pid : option Z)
  | CallPrepareFreezer (request : ContainerOperationRequest) (action : FreezerAction)
  | CallCompleteFreezer (operation_id : string) (status : ContainerState) (pid : option Z)
      (paused : bool) (action : FreezerAction)
  | CallPrepareUpdate (request : UpdateRequest)
  | CallCompleteUpdate (operation_id : string) (status : ContainerState) (pid : option Z)
      (paused : bool)
  | CallPrepareDelete (request : DeleteRequest)
  | CallCompleteDelete (operation_id : string)
  | CallPrepareExec (request : ExecRequest)
  | CallCompleteExec (operation_id : string) (pid : Z) (terminal : bool)
  | CallPrepareSignal (request : SignalProcessRequest)
  | CallCompleteSignal (operation_id : string)
  | CallPrepareWait (request : WaitProcessRequest)
  | CallCompleteWait (target : ProcessTarget) (status : ExitStatus)
  | CallPrepareWriteStdin (request : WriteStdinRequest)
  | CallCompleteWriteStdin (operation_id : string)
  | CallPrepareCloseStdin (request : CloseStdinRequest)
  | CallCompleteCloseStdin (operation_id : string)
  | CallPrepareResize (request : ResizeRequest)
  | CallCompleteResize (operation_id : string)
  | CallPrepareFile (request : FileRequest)
  | CallCompleteFile (operation_id : string) (response : FileResponse)
  | CallPrepareFilesystem (request : FilesystemRequest)
  | CallCompleteFilesystem (operation_id : string) (response : FilesystemResponse)
  | CallPrepareCheckpoint (request : CheckpointRequest)
  | CallCompleteCheckpoint (operation_id : string) (response : CheckpointResponse)
  | CallLookupRestore (request : RestoreRequest)
  | CallPrepareRestore (request : RestoreRequest) (driver : DriverKind)
  | CallCompleteRestore (operation_id : string) (pid : Z)
  | CallLookupAttestation (request : TeeAttestationRequest)
  | CallAttestationSource (target : ContainerTarget)
  | CallPrepareAttestation (request : TeeAttestationRequest)
  | CallCompleteAttestation (operation_id : string) (response : TeeAttestationResponse)
  | CallFail (operation_id : string) (error : Error)
  | CallObserve (target : ContainerTarget) (status : ContainerState) (pid : option Z)
      (paused : bool)
  | CallObserveRecreatedCreated (target : ContainerTarget) (observation : DriverState)
  | CallObserveRecreatedRunning (target : ContainerTarget) (observation : DriverState)
  | CallObserveRecreatedPaused (target : ContainerTarget) (observation : DriverState)
  | CallObserveExecProcesses (target : ContainerTarget) (observed : list ProcessRecord)
  | CallEvents (request : EventsRequest)
  | CallState (target : ContainerTarget)
  | CallList (request : ListRequest).

(** What a call returns. *)
Inductive StoreReply : Type :=
  | ReplyUnit (u : ())
  | ReplyRecordPreparation (p : RecordOperationPreparation)
  | ReplyRecord (r : ContainerRecord)
  | ReplyDeletePreparation (p : DeletePreparation)
  | ReplyProcessPreparation (p : ProcessOperationPreparation)
  | ReplyProcess (r : ProcessRecord)
  | ReplySignalPreparation (p : SignalProcessPreparation)
  | ReplyWaitPreparation (p : ProcessWaitPreparation)
  | ReplyExit (s : ExitStatus)
  | ReplyIoPreparation (p : ProcessIoPreparation)
  | ReplyFilePreparation (p : FilesystemMutationPreparation FileResponse)
  | ReplyFile (r : FileResponse)
  | ReplyFilesystemPreparation (p : FilesystemMutationPreparation FilesystemResponse)
  | ReplyFilesystem (r : FilesystemResponse)
  | ReplyCheckpointPreparation (p : CheckpointOperationPreparation)
  | ReplyCheckpoint (r : CheckpointResponse)
  | ReplyRestoreLookup (l : RestoreOperationLookup)
  | ReplyRestorePreparation (p : RestoreOperationPreparation)
  | ReplyRestore (r : RestoreResponse)
  | ReplyAttestationLookup (l : AttestationOperationLookup)
  | ReplyAttestationSource (s : AttestationSource)
  | ReplyAttestationPreparation (p : AttestationOperationPreparation)
  | ReplyAttestation (r : TeeAttestationResponse)
  | ReplyEvents (b : EventBatch)
  | ReplyRecords (l : list ContainerRecord).

(** The identifiers that a call puts into the store were parsed: [OperationId]
    and [ContainerId] have no other constructor than [validate_identifier]. *)
Definition well_typed (c : StoreCall) : Prop :=
  match c with
  | CallPrepareCreate r _ _ => valid_id (oc_operation_id (create_context r)) ∧ valid_id (create_id r)
  | CallPrepareStart r => valid_id (oc_operation_id (start_context r))
  | CallPrepareKill r => valid_id (oc_operation_id (kill_context r))
  | CallPrepareFreezer r _ => valid_id (oc_operation_id (cop_context r))
  | CallPrepareUpdate r => valid_id (oc_operation_id (update_context r))
  | CallPrepareDelete r => valid_id (oc_operation_id (delete_context r))
  | CallPrepareExec r => valid_id (oc_operation_id (exec_context r))
  | CallPrepareSignal r => valid_id (oc_operation_id (sig_context r))
  | CallPrepareWriteStdin r => valid_id (oc_operation_id (ws_context r))
  | CallPrepareCloseStdin r => valid_id (oc_operation_id (cs_context r))
  | CallPrepareResize r => valid_id (oc_operation_id (rz_context r))
  | CallPrepareFile r => ∀ c, file_context r = Some c → valid_id (oc_operation_id c)
  | CallPrepareFilesystem r => ∀ c, fs_context r = Some c → valid_id (oc_operation_id c)
  | CallPrepareCheckpoint r => valid_id (oc_operation_id (ckr_context r))
  | CallPrepareRestore r _ => valid_id (oc_operation_id (rr_context r)) ∧ valid_id (rr_id r)
  | CallPrepareAttestation r => valid_id (oc_operation_id (atr_context r))
  | CallCompleteFreezer o _ _ _ _ | CallCompleteUpdate o _ _ _ | CallCompleteRestore o _
  | CallCompleteAttestation o _ => valid_id o
  | _ => True
  end.

Section store_calls.
Context `{SE : StoreEnv}.
Implicit Types (w : World) (d : Disk).

Definition reply {A} (f : A → StoreReply) (m : M A) : M StoreReply := let! a := m in ret (f a).

Definition run_call (c : StoreCall) : M StoreReply :=
  match c with
  | CallOpen => reply ReplyUnit open_store
  | CallPrepareCreate r driver inherited =>
      reply ReplyRecordPreparation (prepare_create r driver inherited)
  | CallCompleteCreate o pid => reply ReplyRecord (complete_create o pid)
  | CallPrepareStart r => reply ReplyRecordPreparation (Start.prepare_start r)
  | CallCompleteStart o status pid => reply ReplyRecord (Start.complete_start o status pid)
  | CallPrepareKill r => reply ReplyRecordPreparation (Kill.prepare_kill r)
  | CallCompleteKill o status pid => reply ReplyRecord (Kill.complete_kill o status pid)
  | CallPrepareFreezer r action => reply ReplyRecordPreparation (prepare_freezer r action)
  | CallCompleteFreezer o status pid paused action =>
      reply ReplyRecord (complete_freezer o status pid paused action)
  | CallPrepareUpdate r => reply ReplyRecordPreparation (prepare_update r)
  | CallCompleteUpdate o status pid paused =>
      reply ReplyRecord (complete_update o status pid paused)
  | CallPrepareDelete r => reply ReplyDeletePreparation (prepare_delete r)
  | CallCompleteDelete o => reply ReplyUnit (complete_delete o)
  | CallPrepareExec r => reply ReplyProcessPreparation (prepare_exec r)
  | CallCompleteExec o pid terminal => reply ReplyProcess (complete_exec o pid terminal)
  | CallPrepareSignal r => reply ReplySignalPreparation (prepare_signal_process r)
  | CallCompleteSignal o => reply ReplyUnit (complete_signal_process o)
  | CallPrepareWait r => reply ReplyWaitPreparation (prepare_wait_process r)
  | CallCompleteWait target status => reply ReplyExit (complete_process_wait target status)
  | CallPrepareWriteStdin r => reply ReplyIoPreparation (prepare_write_stdin r)
  | CallCompleteWriteStdin o => reply ReplyUnit (complete_write_stdin o)
  | CallPrepareCloseStdin r => reply ReplyIoPreparation (prepare_close_stdin r)
  | CallCompleteCloseStdin o => reply ReplyUnit (complete_close_stdin o)
  | CallPrepareResize r => reply ReplyIoPreparation (prepare_resize r)
  | CallCompleteResize o => reply ReplyUnit (complete_resize o)
  | CallPrepareFile r => reply ReplyFilePreparation (prepare_file_mutation r)
  | CallCompleteFile o response => reply ReplyFile (complete_file_mutation o response)
  | CallPrepareFilesystem r => reply ReplyFilesystemPreparation (prepare_filesystem_mutation r)
  | CallCompleteFilesystem o response =>
      reply ReplyFilesystem (complete_filesystem_mutation o response)
  | CallPrepareCheckpoint r => reply ReplyCheckpointPreparation (prepare_checkpoint r)
  | CallCompleteCheckpoint o response => reply ReplyCheckpoint (complete_checkpoint o response)
  | CallLookupRestore r => reply ReplyRestoreLookup (lookup_restore r)
  | CallPrepareRestore r driver => reply ReplyRestorePreparation (prepare_restore r driver)
  | CallCompleteRestore o pid => reply ReplyRestore (complete_restore o pid)
  | CallLookupAttestation r => reply ReplyAttestationLookup (lookup_attestation r)
  | CallAttestationSource target => reply ReplyAttestationSource (attestation_source target)
  | CallPrepareAttestation r => reply ReplyAttestationPreparation (prepare_attestation r)
  | CallCompleteAttestation o response =>
      reply ReplyAttestation (complete_attestation o response)
  | CallFail o e => reply ReplyUnit (fail_operation o e)
  | CallObserve target status pid paused =>
      reply ReplyRecord (observe_state_with_pause target status pid paused)
  | CallObserveRecreatedCreated target s =>
      reply ReplyRecord (observe_recreated_created_process target s)
  | CallObserveRecreatedRunning target s =>
      reply ReplyRecord (observe_recreated_running_process target s)
  | CallObserveRecreatedPaused target s =>
      reply ReplyRecord (observe_recreated_paused_running_process target s)
  | CallObserveExecProcesses target observed =>
      reply ReplyUnit (observe_recreated_exec_processes target observed)
  | CallEvents r => reply ReplyEvents (events r)
  | CallState target => reply ReplyRecord (state target)
  | CallList r => reply ReplyRecords (list_containers r)
  end.

(** A sequence of calls; the caller goes on whatever each returned. *)
Definition run_calls (cs : list StoreCall) (w : World) : World :=
  foldl (λ w c, (run_call c w).2) w cs.

(** A store whose root was created empty. *)
Definition reachable d : Prop :=
  ∃ cs w, Forall well_typed cs ∧ w_disk w = empty_disk ∧ d = w_disk (run_calls cs w).

Lemma reply_refines {A} f (m : M A) w : refines m w → refines (reply f m) w.
Proof. intros H. apply refines_bind; [done|]. intros. by apply refines_unchanged. Qed.

(** Every call refines the machine. *)
Lemma run_call_refines c w : well_typed c → refines (run_call c) w.
Proof.
  destruct c; simpl; intros Hv; try match type of Hv with _ ∧ _ => destruct Hv end;
    apply reply_refines;
    try (by apply refines_unchanged).
  - by apply prepare_create_refines.
  - apply complete_create_refines.
  - by apply prepare_start_refines.
  - apply complete_start_refines.
  - by apply prepare_kill_refines.
  - apply complete_kill_refines.
  - by apply prepare_freezer_refines.
  - by apply complete_freezer_refines.
  - by apply prepare_update_refines.
  - by apply complete_update_refines.
  - by apply prepare_delete_refines.
  - apply complete_delete_refines.
  - by apply prepare_exec_refines.
  - apply complete_exec_refines.
  - by apply prepare_signal_process_refines.
  - apply complete_signal_process_refines.
  - apply complete_process_wait_refines.
  - unfold prepare_write_stdin. rf_steps. by apply prepare_process_io_operation_refines.
  - by apply complete_process_io_operation_refines.
  - unfold prepare_close_stdin. rf_steps. by apply prepare_process_io_operation_refines.
  - by apply complete_process_io_operation_refines.
  - unfold prepare_resize. rf_steps. by apply prepare_process_io_operation_refines.
  - by apply complete_process_io_operation_refines.
  - by apply prepare_file_mutation_refines.
  - apply complete_file_mutation_refines.
  - by apply prepare_filesystem_mutation_refines.
  - apply complete_filesystem_mutation_refines.
  - by apply prepare_checkpoint_refines.
  - apply complete_checkpoint_refines.
  - apply lookup_restore_refines.
  - by apply prepare_restore_refines.
  - by apply complete_restore_refines.
  - unfold lookup_attestation. rf_steps.
  - unfold attestation_source. rf_steps.
  - by apply prepare_attestation_refines.
  - by apply complete_attestation_refines.
  - apply fail_operation_refines.
  - apply observe_state_inner_refines.
  - unfold observe_recreated_created_process. rf_step. apply observe_state_inner_refines.
  - unfold observe_recreated_running_process. rf_step. apply observe_state_inner_refines.
  - unfold observe_recreated_paused_running_process. rf_step. apply observe_state_inner_refines.
  - apply observe_recreated_exec_processes_refines.
  - unfold events. rf_step. apply poll_events_refines.
Qed.

Lemma run_calls_steps cs w :
  Forall well_typed cs → store_inv (w_disk w) → rtc astep (w_disk w) (w_disk (run_calls cs w)).
Proof.
  revert w. induction cs as [|c cs IH]; intros w Hcs Hinv; [done|]. inversion Hcs; subst.
  assert (rtc astep (w_disk w) (w_disk (run_call c w).2)) as Hs by (by apply run_call_refines).
  etrans; [exact Hs|]. apply IH; [done|]. by eapply store_inv_steps.
Qed.

Lemma reachable_inv d : reachable d → store_inv d.
Proof.
  intros (cs & w & Hcs & Hw & ->). assert (store_inv (w_disk w)) as H0
    by (rewrite Hw; apply store_inv_empty).
  eapply store_inv_steps; [by apply run_calls_steps|done].
Qed.
End store_calls.
