(* ===== verification/AuditCorrect.v ===== *)
(** * The startup audit accepts what the store writes

    Names of files parse back to what they were made from, and the audits of
    the operation journal, the generation counters and the event journal
    accept every state root that satisfies the store invariant. *)

From stdpp Require Import base gmap strings list.
From Stdlib Require Import Ascii.
From S2P Require Import Prelude Sdk Identifiers Lifecycle Fault OciState Contracts StoreModel Disk.
From S2P Require Import RestoreContract Journal.
From S2P Require Import Events Claims Create ProcessStore StartupAudit Machine.
Local Open Scope string_scope.
Local Open Scope Z_scope.

(** ** File names *)

Lemma strip_suffix_app suffix s : strip_suffix suffix (s +:+ suffix) = Some s.
Proof.
  induction s as [|c s IH]; simpl.
  - destruct suffix; simpl; [done|]. by rewrite bool_decide_eq_true_2.
  - rewrite bool_decide_eq_false_2; [by rewrite IH|].
    intros H. apply (f_equal String.length) in H. simpl in H. rewrite string_length_app in H. lia.
Qed.

Lemma valid_id_nonempty s : valid_id s → s ≠ "".
Proof. intros H ->. done. Qed.

Lemma json_stem_record s operation : s ≠ "" → json_stem (record_file_name s) operation = Ok s.
Proof.
  intros Hs. unfold json_stem, record_file_name. rewrite strip_suffix_app. simpl.
  by rewrite bool_decide_eq_false_2.
Qed.

(** ** Decimal names of event records *)

Lemma decimal_value_acc s a b : decimal_value (a + b) s = a * 10 ^ byte_len s + decimal_value b s.
Proof.
  revert a b. induction s as [|c s IH]; intros a b; unfold byte_len; simpl.
  - lia.
  - replace (10 * (a + b) + digit_value c) with (10 * a + (10 * b + digit_value c)) by lia.
    rewrite IH. unfold byte_len. rewrite Nat2Z.inj_succ, Z.pow_succ_r by lia. lia.
Qed.

Lemma decimal_digit_value n : digit_value (decimal_digit n) = n mod 10.
Proof.
  unfold digit_value, decimal_digit. pose proof (Z.mod_pos_bound n 10 ltac:(lia)).
  rewrite N_ascii_embedding; rewrite ?Z2N.id; lia.
Qed.

Lemma decimal_digit_is_digit n : is_ascii_digit (decimal_digit n) = true.
Proof.
  unfold is_ascii_digit, byte_in, decimal_digit. pose proof (Z.mod_pos_bound n 10 ltac:(lia)).
  rewrite N_ascii_embedding by lia. apply andb_true_iff; split; apply N.leb_le; lia.
Qed.

Lemma decimal_digits_length width n : String.length (decimal_digits width n) = width.
Proof. induction width; simpl; congruence. Qed.

Lemma decimal_digits_digits width n : all_bytes is_ascii_digit (decimal_digits width n) = true.
Proof. induction width; simpl; [done|]. by rewrite decimal_digit_is_digit. Qed.

Lemma decimal_digits_value width n : decimal_value 0 (decimal_digits width n) = n mod 10 ^ Z.of_nat width.
Proof.
  induction width as [|w IH]; [by rewrite Z.mod_1_r|].
  cbn [decimal_digits decimal_value]. rewrite decimal_digit_value.
  replace (10 * 0 + (n / 10 ^ Z.of_nat w) mod 10) with ((n / 10 ^ Z.of_nat w) mod 10 + 0) by lia.
  rewrite decimal_value_acc, IH. unfold byte_len. rewrite decimal_digits_length.
  rewrite Nat2Z.inj_succ, Z.pow_succ_r, (Z.mul_comm 10), Z.rem_mul_r by lia. lia.
Qed.

Lemma parse_event_record_name_ok s :
  0 ≤ s ≤ u64_max → parse_event_record_name (event_record_name s) = Ok s.
Proof.
  intros Hs. unfold parse_event_record_name, event_record_name. rewrite strip_suffix_app.
  cbn [ok_or rbind]. rewrite decimal_digits_digits, decimal_digits_length.
  rewrite decimal_digits_value, Z.mod_small.
  - rewrite bool_decide_eq_true_2 by done. cbn [negb orb reject_if rbind].
    by rewrite bool_decide_eq_false_2 by lia.
  - unfold u64_max in Hs. change (10 ^ Z.of_nat 20) with 100000000000000000000. lia.
Qed.

(** What the store relies on of its digest: SHA-256 in lower-case hexadecimal
    has 64 digits. *)
Class HexDigest `{StoreEnv} : Prop :=
  sha256_hex_format s :
    String.length (sha256_hex s) = 64%nat ∧ all_bytes is_lower_hex (sha256_hex s) = true.

Lemma transaction_stem_none c s : c ≠ "."%char → transaction_stem (String c s) = None.
Proof. intros Hc. unfold transaction_stem. simpl. by rewrite bool_decide_eq_false_2 by done. Qed.

Lemma lower_hex_not_dot c : is_lower_hex c = true → c ≠ "."%char.
Proof. by intros H ->. Qed.

Section audit_correct.
Context `{SE : StoreEnv}.
Implicit Types d : Disk.

(** ** Operations and generations *)

Lemma load_operation_reachable d o op :
  operations_inv d → d_operations d !! o = Some op → load_operation o d = Ok op.
Proof.
  intros Hinv Ho. pose proof (oi_entry d Hinv o op Ho) as (_ & Hid & Hs & Hshape & _).
  unfold load_operation. rewrite Ho. simpl. rewrite Hs, Hid, Hshape.
  by rewrite bool_decide_eq_false_2 by naive_solver.
Qed.

Lemma audit_operation_entries_ok d :
  operations_inv d → audit_operation_entries d = Ok (d_operations d).
Proof.
  intros Hinv. transitivity (Ok (E := Error) (id <$> d_operations d)); [|by rewrite map_fmap_id].
  apply rfold_inserts. intros acc o op Ho. unfold audit_operation_entry, parse_operation_id, parse_id.
  pose proof (oi_entry d Hinv o op Ho) as (Hv & _). simpl.
  rewrite json_stem_record by (by apply valid_id_nonempty). simpl.
  rewrite Hv. simpl. by rewrite (load_operation_reachable d o op).
Qed.

Lemma audit_generation_entries_ok d :
  generations_inv d →
  audit_generation_entries d = Ok (sg_last_generation <$> d_generations d).
Proof.
  intros Hinv. unfold audit_generation_entries. apply rfold_inserts.
  intros acc id g Hg. unfold audit_generation_entry, parse_container_id, parse_id.
  pose proof (gi_schema d Hinv id g Hg) as (Hv & Hs & Hid & Hpos). simpl.
  rewrite json_stem_record by (by apply valid_id_nonempty). simpl.
  rewrite Hv. simpl. rewrite Hs, Hid, !bool_decide_eq_false_2 by (naive_solver lia). done.
Qed.

Lemma last_generation_inventory d id :
  0 < last_gen id d → (sg_last_generation <$> d_generations d) !! id = Some (last_gen id d).
Proof.
  unfold last_gen. rewrite lookup_fmap. by destruct (d_generations d !! id).
Qed.

(** The creations that a prefix of the journal owns. *)
Definition owned (pre : list (string * StoredOperation)) (owners : gset (string * Z)) : Prop :=
  ∀ x, x ∈ owners → ∃ o op, (o, op) ∈ pre ∧ is_creation (so_kind op) = true ∧
    x = (so_container_id op, so_generation op).

Lemma audit_operation_generation_ok d pre post o op owners :
  operations_inv d → map_to_list (d_operations d) = (pre ++ (o, op) :: post)%list →
  owned pre owners →
  ∃ owners', audit_operation_generation (sg_last_generation <$> d_generations d) owners op
               = Ok owners' ∧ owned (pre ++ [(o, op)])%list owners'.
Proof.
  intros Hinv Hl Hown.
  assert (∀ o' op', (o', op') ∈ map_to_list (d_operations d) → d_operations d !! o' = Some op') as Hin
    by (intros ? ?; by rewrite elem_of_map_to_list).
  rewrite Hl in Hin.
  assert (d_operations d !! o = Some op) as Ho by (apply Hin, elem_of_app; right; by left).
  assert (∀ o' op', (o', op') ∈ pre → d_operations d !! o' = Some op') as Hpre
    by (intros ? ? ?; apply Hin, elem_of_app; by left).
  pose proof (oi_entry d Hinv o op Ho) as (_ & _ & _ & _ & Hgen).
  unfold audit_operation_generation. rewrite last_generation_inventory by lia. simpl.
  rewrite !bool_decide_eq_false_2 by lia. simpl.
  assert (owned (pre ++ [(o, op)])%list owners) as Hweak.
  { intros x (o' & op' & ? & ?)%Hown. exists o', op'. rewrite elem_of_app. auto. }
  destruct (is_creation (so_kind op)) eqn:Hc; [|by eexists].
  rewrite bool_decide_eq_false_2; simpl.
  - eexists; split; [done|]. intros x [->%elem_of_singleton|Hx]%elem_of_union; [|by apply Hweak].
    exists o, op. rewrite elem_of_app, list_elem_of_singleton. auto.
  - intros (o' & op' & Hin' & Hc' & [= Hid Hg])%Hown. pose proof (Hpre o' op' Hin') as Ho'.
    assert (o = o') as <- by (by eapply (oi_creation d Hinv)).
    rewrite Ho in Ho'. injection Ho' as <-.
    pose proof (NoDup_map_to_list (d_operations d)) as Hnd. rewrite Hl in Hnd.
    apply NoDup_app in Hnd as (_ & Hnd & _). apply (Hnd (o, op) Hin'). by left.
Qed.

Lemma rfold_fmap {A B S} (step : S → B → Result S) (f : A → B) s l :
  rfold step s (f <$> l) = rfold (λ s a, step s (f a)) s l.
Proof.
  revert s. induction l as [|a l IH]; intros s; simpl; [done|]. by destruct (step s (f a)); simpl.
Qed.

Lemma audit_operation_generations_ok d :
  operations_inv d →
  audit_operation_generations (d_operations d) (sg_last_generation <$> d_generations d) = Ok ().
Proof.
  intros Hinv. unfold audit_operation_generations. rewrite rfold_fmap.
  destruct (rfold_total (λ s (a : string * StoredOperation), audit_operation_generation
    (sg_last_generation <$> d_generations d) s a.2) owned ∅ (map_to_list (d_operations d)))
    as (owners & Hr & _); [set_solver| |exact (f_equal (λ r, rbind r (λ _, Ok ())) Hr)].
  intros pre [o op] post s Hl Hown. by eapply audit_operation_generation_ok.
Qed.

(** ** Events *)

Context {HD : HexDigest}.

Lemma claim_name_ok s :
  parse_event_claim_name (record_file_name (event_identity_hash s)) = Ok (event_identity_hash s).
Proof.
  unfold parse_event_claim_name, record_file_name, event_identity_hash.
  destruct (sha256_hex_format s) as [Hl Hh]. rewrite strip_suffix_app. cbn [ok_or rbind].
  by rewrite Hl, Hh.
Qed.

Lemma claim_leaf_ok s :
  audit_event_leaf valid_claim_stem () (record_file_name (event_identity_hash s)) = Ok ().
Proof.
  unfold audit_event_leaf, event_identity_hash. destruct (sha256_hex_format s) as [Hl Hh].
  assert (json_stem (record_file_name (sha256_hex s)) "audit-runtime-events" = Ok (sha256_hex s))
    as Hj by (apply json_stem_record; intros E; by rewrite E in Hl).
  destruct (sha256_hex s) as [|c h] eqn:Es; [done|].
  assert (transaction_stem (record_file_name (String c h)) = None) as ->.
  { apply transaction_stem_none, lower_hex_not_dot. by apply andb_true_iff in Hh as [? _]. }
  rewrite Hj. unfold valid_claim_stem. cbn [rbind]. by rewrite Hl, Hh.
Qed.

Lemma record_leaf_ok s : audit_event_leaf valid_record_stem () (event_record_name s) = Ok ().
Proof.
  unfold audit_event_leaf, event_record_name.
  assert (json_stem (record_file_name (decimal_digits 20 s)) "audit-runtime-events"
    = Ok (decimal_digits 20 s)) as Hj
    by (apply json_stem_record; intros E%(f_equal String.length);
        by rewrite decimal_digits_length in E).
  assert (transaction_stem (decimal_digits 20 s +:+ ".json") = None) as ->.
  { apply transaction_stem_none, lower_hex_not_dot. unfold is_lower_hex.
    by rewrite decimal_digit_is_digit. }
  unfold record_file_name in Hj. rewrite Hj. unfold valid_record_stem. cbn [rbind].
  by rewrite decimal_digits_length, decimal_digits_digits.
Qed.

Lemma validate_claim_entry_ok operation d h k :
  events_inv d → d_claims d !! h = Some k →
  validate_claim_entry operation h k (cursor_value d) = Ok ().
Proof.
  intros Hinv Hk. pose proof (ei_claim d Hinv h k Hk) as (Hs & <- & Hseq & Ht & Hi).
  unfold validate_claim_entry. rewrite claim_name_ok. cbn [rbind].
  rewrite Hs, !bool_decide_eq_false_2 by (naive_solver lia). simpl. by rewrite Ht, Hi.
Qed.

Lemma load_event_cursor_inv d :
  events_inv d →
  load_event_cursor d = Ok (mkStoredEventCursor EVENT_CURSOR_SCHEMA_VERSION (cursor_value d)).
Proof.
  intros Hinv. unfold load_event_cursor, cursor_value. destruct (d_cursor d) as [c|] eqn:Hc; [|done].
  apply (ei_cursor d Hinv) in Hc as [Hs _]. rewrite Hs. destruct c; simpl in *. by subst.
Qed.

Lemma validate_event_record_ok d s r :
  events_inv d → d_events d !! s = Some r →
  validate_event_record r s (cursor_value d) = Ok () ∧ 0 ≤ s ≤ u64_max.
Proof.
  intros Hinv Hr. pose proof (ei_event d Hinv s r Hr) as (Hs & Hseq & h & k & Hk & He).
  pose proof (ei_claim d Hinv h k Hk) as (_ & _ & Hb & Ht & _). rewrite He in *.
  pose proof (cursor_value_bounds d Hinv). split; [|lia].
  unfold validate_event_record. rewrite Hs, !bool_decide_eq_false_2 by (naive_solver lia). done.
Qed.

(** The claims of a processed prefix, by sequence. *)
Definition claims_of (pre : list (string * StoredEventClaim)) (claims : gmap Z RuntimeEvent) : Prop :=
  ∀ s e, claims !! s = Some e ↔ ∃ h k, (h, k) ∈ pre ∧ ev_sequence (sk_event k) = s ∧ sk_event k = e.

Lemma audit_claims_ok d :
  events_inv d →
  ∃ claims, rfold (audit_claim (cursor_value d)) ∅ (map_to_list (d_claims d)) = Ok claims ∧
    claims_of (map_to_list (d_claims d)) claims.
Proof.
  intros Hinv. apply rfold_total.
  { intros s e. rewrite lookup_empty. split; [done|]. by intros (? & ? & ?%elem_of_nil & _). }
  intros pre [h k] post claims Hl Hc.
  assert (∀ h' k', (h', k') ∈ (pre ++ (h, k) :: post)%list → d_claims d !! h' = Some k') as Hin
    by (intros ? ?; by rewrite <- Hl, elem_of_map_to_list).
  assert (d_claims d !! h = Some k) as Hk by (apply Hin, elem_of_app; right; by left).
  unfold audit_claim. simpl. rewrite (validate_claim_entry_ok _ d h k) by done. simpl.
  pose proof (NoDup_fst_map_to_list (d_claims d)) as Hnd. rewrite Hl, fmap_app in Hnd.
  apply NoDup_app in Hnd as (_ & Hnd & _).
  assert (claims !! ev_sequence (sk_event k) = None) as Hfresh.
  { apply eq_None_not_Some. intros [e (h' & k' & Hpre & Hs & _)%Hc].
    assert (h' = h) as -> by (eapply (ei_unique d Hinv); eauto; apply Hin, elem_of_app; by left).
    apply (Hnd h); [by apply (list_elem_of_fmap_2 fst _ (h, k'))|by left]. }
  rewrite Hfresh. simpl. eexists; split; [done|]. intros s e. rewrite lookup_insert_Some.
  setoid_rewrite elem_of_app. setoid_rewrite list_elem_of_singleton. rewrite (Hc s e).
  split.
  - intros [[<- <-]|(_ & h' & k' & ? & ? & ?)]; eauto 10.
  - intros (h' & k' & [Hpre|[= -> ->]] & Hs & He); [|by left].
    right. split; [|by eauto 10]. intros <-.
    assert (claims !! ev_sequence (sk_event k) = Some e) as Hsome by (apply Hc; eauto). congruence.
Qed.

Lemma audit_event_entries_ok d : events_inv d → audit_event_entries d = Ok ().
Proof.
  intros Hinv. unfold audit_event_entries. rewrite !rfold_unit; cbn [rbind].
  - unfold audit_event_journal. rewrite load_event_cursor_inv by done. cbn [rbind sec_last_sequence].
    destruct (audit_claims_ok d Hinv) as (claims & -> & Hclaims). cbn [rbind].
    apply rfold_unit. intros [s r] Hr%elem_of_map_to_list. unfold audit_record. cbn [fst snd].
    destruct (validate_event_record_ok d s r Hinv Hr) as [Hv Hb].
    rewrite parse_event_record_name_ok by done. cbn [rbind]. rewrite Hv. cbn [rbind].
    pose proof (ei_event d Hinv s r Hr) as (_ & Hseq & h & k & Hk & He).
    rewrite (proj2 (Hclaims s (sr_event r))); [by rewrite bool_decide_eq_false_2 by naive_solver|].
    exists h, k. rewrite elem_of_map_to_list, He. done.
  - intros name ([s r] & -> & _)%list_elem_of_fmap. apply record_leaf_ok.
  - intros name ([h k] & -> & Hk%elem_of_map_to_list)%list_elem_of_fmap. simpl.
    apply (ei_claim d Hinv) in Hk as (_ & <- & _). apply claim_leaf_ok.
Qed.
End audit_correct.
