(* ===== verification/CgroupPlan.v ===== *)
(** * Plans of cgroup resource updates (crates/agent/src/executor/cgroup/update.rs, plan.rs,
      hugetlb.rs, unified.rs, io.rs, rdma.rs, cgroup.rs)

    The resources of an OCI configuration become a plan: typed limits, hugepage
    limits, unified controls, block I/O weights and throttles and RDMA limits,
    each validated; a plan also tells which control files it owns.  The envelope
    of the control plane is the plan of the management directory. *)

From stdpp Require Import base gmap strings list.
From S2P Require Import Prelude Collections Sdk Identifiers Contracts Events HostArtifact AgentModel.
From S2P Require Import AuditCorrect.
From Stdlib Require Import Ascii ZArith Lia.
Local Open Scope string_scope.
Local Open Scope list_scope.
Local Open Scope Z_scope.

(** ** Text *)

Definition i64_max : Z := 2 ^ 63 - 1.
(** [u8::is_ascii_whitespace] *)
Definition is_ascii_whitespace (c : ascii) : bool :=
  bool_decide (c = " "%char) || bool_decide (c = "009"%char) || bool_decide (c = "010"%char)
  || bool_decide (c = "012"%char) || bool_decide (c = "013"%char).
(** [char::is_whitespace] of an ASCII character *)
Definition is_whitespace (c : ascii) : bool := is_ascii_whitespace c || bool_decide (c = "011"%char).
(** The parts of a string between the bytes of a class. *)
Fixpoint split_when (p : ascii → bool) (s : string) : list string :=
  match s with
  | EmptyString => [EmptyString]
  | String c s' =>
      if p c then EmptyString :: split_when p s'
      else match split_when p s' with
           | segment :: rest => String c segment :: rest
           | [] => [String c EmptyString]
           end
  end.
Definition split_ascii_whitespace (s : string) : list string :=
  filter (λ w, w ≠ "") (split_when is_ascii_whitespace s).
Fixpoint trim_start (s : string) : string :=
  match s with
  | String c s' => if is_whitespace c then trim_start s' else s
  | EmptyString => s
  end.
Fixpoint trim_end (s : string) : string :=
  match s with
  | EmptyString => EmptyString
  | String c s' => match trim_end s' with
                   | EmptyString => if is_whitespace c then EmptyString else String c EmptyString
                   | t => String c t
                   end
  end.
Definition trim (s : string) : string := trim_end (trim_start s).
(** [str::lines] *)
Definition strip_carriage_return (s : string) : string := default s (strip_suffix (String "013" "") s).
Definition lines (s : string) : list string :=
  let parts := split_when (λ c, bool_decide (c = "010"%char)) s in
  strip_carriage_return <$> (if bool_decide (last parts = Some "") then removelast parts else parts).
Definition nonblank_lines (s : string) : list string := filter (λ l, trim l ≠ "") (lines s).

(** [str::parse] of an unsigned integer with the given maximum *)
Definition parse_uint (max : Z) (s : string) : option Z :=
  let digits := default s (strip_prefix "+" s) in
  if bool_decide (digits = "") || negb (all_bytes is_ascii_digit digits) then None
  else let value := decimal_value 0 digits in
       if value <=? max then Some value else None.
(** [to_string] of an integer *)
Fixpoint digits_needed (fuel : nat) (width : nat) (n : Z) : nat :=
  match fuel with
  | O => width
  | S fuel => if n <? 10 ^ Z.of_nat width then width else digits_needed fuel (S width) n
  end.
Definition uint_to_string (n : Z) : string := decimal_digits (digits_needed 19 1 n) n.
Definition int_to_string (n : Z) : string :=
  if n <? 0 then "-" +:+ uint_to_string (- n) else uint_to_string n.

Definition normalize_cgroup_value (value : string) : string :=
  String.concat " " (split_ascii_whitespace value).

(** ** Errors *)

Definition UPDATE_OPERATION : string := "update-container-cgroup".
Definition update_error (c : ErrorCode) (msg : string) : Error := state_error c UPDATE_OPERATION msg.
Definition update_invalid (msg : string) : Error := update_error InvalidArgument msg.
Definition as_update_error (e : Error) : Error := update_error (code e) (message e).
Definition cgroup_error (c : ErrorCode) (msg : string) : Error :=
  state_error c "configure-container-cgroup" msg.
Definition cgroup_invalid (msg : string) : Error := cgroup_error InvalidArgument msg.
Definition cgroup_unsupported (field reason : string) : Error :=
  cgroup_error Unsupported (field +:+ ": " +:+ reason).
Definition stats_error (msg : string) : Error :=
  state_error FailedPrecondition "read-container-cgroup-stats" msg.

(** ** Values *)

Definition parse_u64_value (field value : string) : Result Z :=
  ok_or (stats_error "cgroup counter {field} is not a non-negative integer: {error}")
    (parse_uint u64_max (trim value)).
Definition parse_max_value (field value : string) : Result (option Z) :=
  let value := trim value in
  if bool_decide (value = "max") then Ok None
  else try! n := ok_or (stats_error
         "cgroup limit {field} is neither `max` nor a non-negative integer: {error}")
         (parse_uint u64_max value) in
       Ok (Some n).
Definition cgroup_v2_limit_value (value : Z) : string :=
  if bool_decide (value = -1) then "max" else int_to_string value.
Definition shares_to_weight (shares : Z) : Z := 1 + (shares - 2) * 9999 / 262142.
Definition cpuset_range_invalid (range : string) : bool :=
  match split_once "-" range with
  | Some (first, final) =>
      match parse_uint u32_max first, parse_uint u32_max final with
      | Some a, Some b => b <? a
      | _, _ => true
      end
  | None => bool_decide (parse_uint u32_max range = None)
  end.
Definition validate_cpuset (field value : string) : Result () :=
  reject_if (bool_decide (value = "") || (4096 <? byte_len value)
             || existsb cpuset_range_invalid (split_on "," value))
    (cgroup_invalid "{field} must be a comma-separated list of CPU or memory-node indices and ranges").
Definition validate_memory_value (field : string) (value : Z) : Result () :=
  reject_if (value <? -1) (cgroup_invalid "{field} must be -1 or non-negative").
Definition validate_pids_limit (value : Z) : Result () :=
  reject_if (value <? -1) (cgroup_invalid "linux.resources.pids.limit must be -1 or non-negative").

Definition parse_cpu_max (value : string) : Result (string * Z) :=
  match split_ascii_whitespace value with
  | [] => Err (update_invalid "cpu.max is missing its quota")
  | [_] => Err (update_invalid "cpu.max is missing its period")
  | quota :: period :: rest =>
      check! reject_if (negb (bool_decide (rest = []))
                        || (negb (bool_decide (quota = "max"))
                            && bool_decide (parse_uint u64_max quota = None))
                        || bool_decide (quota = "0"))
        (update_invalid "cpu.max contains an invalid quota");
      try! n := ok_or (update_invalid "cpu.max contains an invalid period: {error}")
                  (parse_uint u64_max period) in
      check! reject_if (bool_decide (n = 0)) (update_invalid "cpu.max period must be positive");
      Ok (quota, n)
  end.
Definition parse_cpu_quota (value : string) : Result (option Z) :=
  if bool_decide (value = "max") then Ok None
  else try! n := ok_or (update_invalid "cpu.max quota is invalid: {error}") (parse_uint u64_max value) in
       Ok (Some n).

(** ** Settings (setting.rs) *)

Inductive CgroupSettingReadback : Type := Exact | KernelDefined.
#[global] Instance CgroupSettingReadback_eq_dec : EqDecision CgroupSettingReadback.
Proof. solve_decision. Defined.
Record CgroupSetting : Type := mkCgroupSetting {
  cs_file : string; cs_value : string; cs_readback : CgroupSettingReadback
}.
Definition setting_new (file value : string) : CgroupSetting := mkCgroupSetting file value Exact.
Definition setting_kernel_defined (file value : string) : CgroupSetting :=
  mkCgroupSetting file value KernelDefined.

(** ** Resources *)

(** [LinuxResources] of the OCI configuration, by its typed fields *)
Record LinuxMemory : Type := mkLinuxMemory {
  lm_limit : option Z; lm_reservation : option Z; lm_swap : option Z;
  lm_kernel : option Z; lm_kernel_tcp : option Z; lm_swappiness : option Z;
  lm_disable_oom_killer : option bool; lm_use_hierarchy : option bool;
  lm_check_before_update : option bool
}.
Record LinuxCpu : Type := mkLinuxCpu {
  lc_shares : option Z; lc_quota : option Z; lc_burst : option Z; lc_period : option Z;
  lc_cpus : option string; lc_mems : option string; lc_idle : option Z;
  lc_realtime_runtime : option Z; lc_realtime_period : option Z
}.
Record LinuxHugepageLimit : Type := mkHugepageLimit { lh_page_size : string; lh_limit : Z }.
Record LinuxWeightDevice : Type := mkWeightDevice {
  wd_major : Z; wd_minor : Z; wd_weight : option Z; wd_leaf_weight : option Z
}.
Record LinuxThrottleDevice : Type := mkThrottleDevice { td_major : Z; td_minor : Z; td_rate : Z }.
Record LinuxBlockIo : Type := mkLinuxBlockIo {
  lb_weight : option Z; lb_leaf_weight : option Z;
  lb_weight_device : option (list LinuxWeightDevice);
  lb_throttle_read_bps_device : option (list LinuxThrottleDevice);
  lb_throttle_write_bps_device : option (list LinuxThrottleDevice);
  lb_throttle_read_iops_device : option (list LinuxThrottleDevice);
  lb_throttle_write_iops_device : option (list LinuxThrottleDevice)
}.
Record LinuxRdma : Type := mkLinuxRdma { lr_hca_handles : option Z; lr_hca_objects : option Z }.
(** Hash maps are lists of entries with different keys, in the order in which
    they are iterated. *)
Record LinuxResources : Type := mkLinuxResources {
  rs_memory : option LinuxMemory; rs_cpu : option LinuxCpu; rs_pids_limit : option Z;
  rs_block_io : option LinuxBlockIo; rs_hugepage_limits : option (list LinuxHugepageLimit);
  rs_rdma : option (list (string * LinuxRdma)); rs_unified : option (list (string * string));
  rs_has_network : bool; rs_has_devices : bool
}.

(** [validate_supported_resource_fields]: a field is a key of the JSON object
    when it is set *)
Definition memory_field_unsupported (m : LinuxMemory) : bool :=
  bool_decide (is_Some (lm_kernel m)) || bool_decide (is_Some (lm_kernel_tcp m))
  || bool_decide (is_Some (lm_swappiness m)) || bool_decide (is_Some (lm_disable_oom_killer m))
  || bool_decide (is_Some (lm_use_hierarchy m)) || bool_decide (is_Some (lm_check_before_update m)).
Definition cpu_field_unsupported (c : LinuxCpu) : bool :=
  bool_decide (is_Some (lc_realtime_runtime c)) || bool_decide (is_Some (lc_realtime_period c)).
Definition validate_supported_resource_fields (r : LinuxResources) : Result () :=
  check! reject_if (rs_has_network r)
    (cgroup_unsupported "linux.resources.network"
       "cgroup v1 net_cls and net_prio controls are not supported by the cgroup v2 executor");
  check! reject_if (from_option memory_field_unsupported false (rs_memory r))
    (cgroup_unsupported "linux.resources.{name}.{field}" "this cgroup v2 resource is not implemented");
  reject_if (from_option cpu_field_unsupported false (rs_cpu r))
    (cgroup_unsupported "linux.resources.{name}.{field}" "this cgroup v2 resource is not implemented").

(** ** Hugepage limits (hugetlb.rs) *)

Definition PAGE_SIZE_MAX_LENGTH : Z := 32.
Record HugeTlbLimit : Type := mkHugeTlbLimit { hl_page_size_bytes : Z; hl_limit : Z }.
Definition invalid_page_size : Error :=
  cgroup_invalid "{field}.pageSize must use the canonical <size><KB|MB|GB> form".
Definition page_size_range : Error :=
  cgroup_invalid "{field}.pageSize does not fit the OCI hugepage-size range".
(** The digits of a page size and the multiplier of its suffix *)
Definition page_size_parts (value : string) : option (string * Z) :=
  match strip_suffix "KB" value with
  | Some digits => Some (digits, 2 ^ 10)
  | None => match strip_suffix "MB" value with
            | Some digits => Some (digits, 2 ^ 20)
            | None => (λ digits, (digits, 2 ^ 30)) <$> strip_suffix "GB" value
            end
  end.
Definition validate_page_size (value : string) : Result (string * Z) :=
  try! parts := ok_or invalid_page_size (page_size_parts value) in
  let '(digits, multiplier) := parts in
  check! reject_if ((PAGE_SIZE_MAX_LENGTH <? byte_len value) || bool_decide (digits = "")
                    || starts_with "0" digits || negb (all_bytes is_ascii_digit digits))
    invalid_page_size;
  try! size := ok_or page_size_range (parse_uint u64_max digits) in
  check! reject_if (u64_max <? size * multiplier) page_size_range;
  Ok (value, size * multiplier).
Definition add_hugepage_limit (planned : gmap string HugeTlbLimit) (l : LinuxHugepageLimit)
    : Result (gmap string HugeTlbLimit) :=
  try! size := validate_page_size (lh_page_size l) in
  check! reject_if (bool_decide (is_Some (planned !! size.1)))
    (cgroup_invalid "linux.resources.hugepageLimits contains duplicate pageSize {page_size:?}");
  Ok (<[size.1 := mkHugeTlbLimit size.2 (lh_limit l)]> planned).
Definition huge_tlb_from_oci (limits : option (list LinuxHugepageLimit)) : Result (gmap string HugeTlbLimit) :=
  rfold add_hugepage_limit ∅ (default [] limits).

(** The entries of a [BTreeMap] in order *)
Definition btree_entries `{Countable K, Ord K} {A} (m : gmap K A) : list (K * A) :=
  sort_by_key fst (map_to_list m).
Definition max_file (page_size : string) : string := "hugetlb." +:+ page_size +:+ ".max".
Definition reservation_file (page_size : string) : string := "hugetlb." +:+ page_size +:+ ".rsvd.max".
Definition huge_tlb_owned_files (p : gmap string HugeTlbLimit) : list string :=
  (btree_entries p).*1 ≫= (λ size, [max_file size; reservation_file size]).
Definition huge_tlb_limit_value (l : HugeTlbLimit) : string :=
  let aligned := hl_limit l - hl_limit l mod hl_page_size_bytes l in
  let maximum := i64_max / hl_page_size_bytes l * hl_page_size_bytes l in
  if negb (maximum =? 0) && (maximum <=? aligned) then "max" else uint_to_string aligned.

(** ** Unified controls (unified.rs) *)

Definition MAX_ENTRIES : Z := 256.
Definition MAX_FILE_NAME_BYTES : Z := 255.
Definition MAX_VALUE_BYTES : Z := 64 * 1024.
Definition MAX_TOTAL_VALUE_BYTES : Z := 1024 * 1024.
Definition control_name_byte (c : ascii) : bool :=
  is_ascii_alphanumeric c || bool_decide (c = "."%char) || bool_decide (c = "_"%char)
  || bool_decide (c = "-"%char).
Definition validate_file_name (file : string) : Result string :=
  check! reject_if (bool_decide (file = "") || (MAX_FILE_NAME_BYTES <? byte_len file))
    (cgroup_invalid "linux.resources.unified key {file:?} must contain 1 to {MAX_FILE_NAME_BYTES} bytes");
  check! reject_if (negb (all_bytes control_name_byte file))
    (cgroup_invalid "linux.resources.unified key {file:?} is not one cgroup control-file name");
  try! parts := ok_or (cgroup_invalid "linux.resources.unified key {file:?} has no controller prefix")
                  (split_once "." file) in
  check! reject_if (bool_decide (parts.1 = "") || bool_decide (parts.2 = ""))
    (cgroup_invalid "linux.resources.unified key {file:?} has an empty controller or parameter");
  check! reject_if (bool_decide (parts.1 = "cgroup"))
    (cgroup_invalid "linux.resources.unified key {file:?} targets runtime-owned cgroup state");
  Ok parts.1.
Definition validate_value (value : string) : Result () :=
  check! reject_if (bool_decide (value = "") || (MAX_VALUE_BYTES <? byte_len value) || contains_nul value)
    (cgroup_invalid "linux.resources.unified value for {file:?} must contain 1 to {MAX_VALUE_BYTES} non-NUL bytes");
  reject_if (bool_decide (split_ascii_whitespace value = []))
    (cgroup_invalid "linux.resources.unified value for {file:?} must not be whitespace-only").
Record UnifiedPlan : Type := mkUnifiedPlan {
  up_settings : gmap string string; up_controllers : gset string
}.
Definition add_unified (s : UnifiedPlan * Z) (entry : string * string) : Result (UnifiedPlan * Z) :=
  let '(plan, total) := s in
  let '(file, value) := entry in
  try! controller := validate_file_name file in
  check! validate_value value;
  let total := total + byte_len value in
  check! reject_if (MAX_TOTAL_VALUE_BYTES <? total)
    (cgroup_invalid "linux.resources.unified values exceed {MAX_TOTAL_VALUE_BYTES} bytes");
  Ok (mkUnifiedPlan (<[file := value]> (up_settings plan)) ({[controller]} ∪ up_controllers plan), total).
Definition unified_from_oci (unified : option (list (string * string))) : Result UnifiedPlan :=
  match unified with
  | None => Ok (mkUnifiedPlan ∅ ∅)
  | Some entries =>
      check! reject_if (MAX_ENTRIES <? Z.of_nat (length entries))
        (cgroup_invalid "linux.resources.unified contains more than {MAX_ENTRIES} entries");
      try! s := rfold add_unified (mkUnifiedPlan ∅ ∅, 0) entries in Ok s.1
  end.
Definition unified_settings (p : UnifiedPlan) : list CgroupSetting :=
  (λ e, setting_kernel_defined e.1 e.2) <$> btree_entries (up_settings p).
Definition unified_validate_conflicts (p : UnifiedPlan) (owned : list string) : Result () :=
  reject_if (existsb (λ file, bool_decide (file ∈ owned)) (btree_entries (up_settings p)).*1)
    (cgroup_invalid "linux.resources.unified key {file:?} conflicts with a typed OCI resource").

(** ** Block I/O and RDMA plans (io.rs, rdma.rs) *)

Definition OCI_WEIGHT_MIN : Z := 10.
Definition OCI_WEIGHT_MAX : Z := 1000.
(** [BlockDevice]: major and minor number *)
Abbreviation BlockDevice := (Z * Z)%type.
Definition block_device_from_oci (major minor : Z) : Result BlockDevice :=
  check! reject_if (negb ((0 <=? major) && (major <=? u32_max)))
    (cgroup_invalid "{field}.major must be a non-negative u32");
  check! reject_if (negb ((0 <=? minor) && (minor <=? u32_max)))
    (cgroup_invalid "{field}.minor must be a non-negative u32");
  Ok (major, minor).
Inductive IoMaxField : Type := ReadBytes | WriteBytes | ReadOperations | WriteOperations.
#[global] Instance IoMaxField_eq_dec : EqDecision IoMaxField.
Proof. solve_decision. Defined.
Inductive IoLimit : Type := IoMax | IoValue (value : Z).
#[global] Instance IoLimit_eq_dec : EqDecision IoLimit.
Proof. solve_decision. Defined.
(** [IoMaxValues]: the fields in the order in which they are collected, which
    is that of the enumeration *)
Definition IoMaxValues : Type := list (IoMaxField * IoLimit).
Record BlockIoPlan : Type := mkBlockIoPlan {
  bp_default_weight : option Z;
  bp_device_weights : gmap BlockDevice Z;
  bp_max : gmap BlockDevice IoMaxValues
}.
Definition block_io_default : BlockIoPlan := mkBlockIoPlan None ∅ ∅.
Definition validate_weight (weight : Z) : Result Z :=
  if (OCI_WEIGHT_MIN <=? weight) && (weight <=? OCI_WEIGHT_MAX) then Ok weight
  else Err (cgroup_invalid "{field} must be between {OCI_WEIGHT_MIN} and {OCI_WEIGHT_MAX}").
Definition leaf_weight_error : Error :=
  cgroup_unsupported "linux.resources.blockIO.leafWeight" "cgroup v2 has no leaf-weight control".
Definition add_device_weight (weights : gmap BlockDevice Z) (d : LinuxWeightDevice)
    : Result (gmap BlockDevice Z) :=
  try! key := block_device_from_oci (wd_major d) (wd_minor d) in
  check! reject_if (bool_decide (is_Some (wd_leaf_weight d))) leaf_weight_error;
  try! weight := ok_or (cgroup_invalid
    "{field} must specify weight when leafWeight is unavailable on cgroup v2") (wd_weight d) in
  try! weight := validate_weight weight in
  check! reject_if (bool_decide (is_Some (weights !! key)))
    (cgroup_invalid "linux.resources.blockIO.weightDevice contains duplicate device {key}");
  Ok (<[key := weight]> weights).
Definition collect_throttle (field : IoMaxField) (max : gmap BlockDevice IoMaxValues)
    (d : LinuxThrottleDevice) : Result (gmap BlockDevice IoMaxValues) :=
  try! key := block_device_from_oci (td_major d) (td_minor d) in
  let value := if td_rate d =? 0 then IoMax else IoValue (td_rate d) in
  let values := default [] (max !! key) in
  check! reject_if (bool_decide (field ∈ values.*1))
    (cgroup_invalid "linux.resources.blockIO.{field} contains duplicate device {key}");
  Ok (<[key := values ++ [(field, value)]]> max).
Definition collect_throttles (devices : option (list LinuxThrottleDevice)) (field : IoMaxField)
    (max : gmap BlockDevice IoMaxValues) : Result (gmap BlockDevice IoMaxValues) :=
  rfold (collect_throttle field) max (default [] devices).
Definition block_io_from_oci (block_io : option LinuxBlockIo) : Result BlockIoPlan :=
  match block_io with
  | None => Ok block_io_default
  | Some b =>
      check! reject_if (bool_decide (is_Some (lb_leaf_weight b))) leaf_weight_error;
      try! default_weight := match lb_weight b with
                             | Some w => try! w := validate_weight w in Ok (Some w)
                             | None => Ok None
                             end in
      try! device_weights := rfold add_device_weight ∅ (default [] (lb_weight_device b)) in
      try! max := collect_throttles (lb_throttle_read_bps_device b) ReadBytes ∅ in
      try! max := collect_throttles (lb_throttle_write_bps_device b) WriteBytes max in
      try! max := collect_throttles (lb_throttle_read_iops_device b) ReadOperations max in
      try! max := collect_throttles (lb_throttle_write_iops_device b) WriteOperations max in
      Ok (mkBlockIoPlan default_weight device_weights max)
  end.
Definition block_io_is_empty (p : BlockIoPlan) : bool :=
  bool_decide (bp_default_weight p = None) && bool_decide (bp_device_weights p = ∅)
  && bool_decide (size (bp_max p) = 0%nat).
Definition block_io_owned_files (p : BlockIoPlan) : list string :=
  (if bool_decide (is_Some (bp_default_weight p)) || negb (bool_decide (bp_device_weights p = ∅))
   then ["io.bfq.weight"; "io.weight"] else [])
  ++ (if bool_decide (size (bp_max p) = 0%nat) then [] else ["io.max"]).

Definition RDMA_DEVICE_NAME_MAX_BYTES : Z := 63.
Definition KERNEL_FINITE_LIMIT_MAX : Z := 2 ^ 31 - 2.
Inductive RdmaLimit : Type := RdmaMax | RdmaValue (value : Z).
#[global] Instance RdmaLimit_eq_dec : EqDecision RdmaLimit.
Proof. solve_decision. Defined.
Record RdmaLimits : Type := mkRdmaLimits {
  rl_hca_handles : option RdmaLimit; rl_hca_objects : option RdmaLimit
}.
Definition rdma_limit_from_oci (value : Z) : RdmaLimit :=
  if KERNEL_FINITE_LIMIT_MAX <? value then RdmaMax else RdmaValue value.
Section rdma_plan.
Context `{AE : !AgentEnv}.
Definition rdma_device_parse (value : string) : result string string :=
  if bool_decide (value = "") then Err "the device name is empty"
  else if RDMA_DEVICE_NAME_MAX_BYTES <? byte_len value
  then Err "the device name exceeds {RDMA_DEVICE_NAME_MAX_BYTES} bytes"
  else if bool_decide (value = ".") || bool_decide (value = "..")
          || negb (all_bytes (λ c, negb (bool_decide (c = "/"%char))) value)
          || has_control_or_space value
  then Err "the device name must be one bounded cgroup token without whitespace, controls, or `/`"
  else Ok value.
Definition add_rdma_limits (limits : gmap string RdmaLimits) (entry : string * LinuxRdma)
    : Result (gmap string RdmaLimits) :=
  try! device := match rdma_device_parse entry.1 with
                 | Ok device => Ok device
                 | Err _ => Err (cgroup_invalid "linux.resources.rdma device {value:?} is invalid: {reason}")
                 end in
  let handles := rdma_limit_from_oci <$> lr_hca_handles entry.2 in
  let objects := rdma_limit_from_oci <$> lr_hca_objects entry.2 in
  check! reject_if (negb (bool_decide (is_Some handles)) && negb (bool_decide (is_Some objects)))
    (cgroup_invalid "linux.resources.rdma.{device} must specify hcaHandles, hcaObjects, or both");
  Ok (<[device := mkRdmaLimits handles objects]> limits).
Definition rdma_from_oci (rdma : option (list (string * LinuxRdma))) : Result (gmap string RdmaLimits) :=
  rfold add_rdma_limits ∅ (default [] rdma).
End rdma_plan.
Definition rdma_owned_files (limits : gmap string RdmaLimits) : list string :=
  if bool_decide (size limits = 0%nat) then [] else ["rdma.max"].

(** ** The plan of an update *)

Record CgroupUpdatePlan : Type := mkUpdatePlan {
  up_memory_limit : option Z; up_memory_reservation : option Z; up_memory_swap : option Z;
  up_cpu_shares : option Z; up_cpu_quota : option Z; up_cpu_burst : option Z;
  up_cpu_period : option Z; up_cpu_idle : option Z;
  up_cpuset_cpus : option string; up_cpuset_mems : option string; up_pids_limit : option Z;
  up_block_io : BlockIoPlan; up_huge_tlb : gmap string HugeTlbLimit;
  up_rdma : gmap string RdmaLimits; up_unified : UnifiedPlan
}.

Definition validate_option {A} (check : A → Result ()) (o : option A) : Result () :=
  match o with Some a => map_err as_update_error (check a) | None => Ok () end.
(** A file that is owned when a field is set *)
Definition owned_if {A} (file : string) (o : option A) : list string :=
  match o with Some _ => [file] | None => [] end.
Definition typed_owned_files (p : CgroupUpdatePlan) : list string :=
  owned_if "cpuset.mems" (up_cpuset_mems p) ++ owned_if "cpuset.cpus" (up_cpuset_cpus p)
  ++ owned_if "memory.max" (up_memory_limit p) ++ owned_if "memory.oom.group" (up_memory_limit p)
  ++ owned_if "memory.low" (up_memory_reservation p) ++ owned_if "memory.swap.max" (up_memory_swap p)
  ++ owned_if "cpu.max" (match up_cpu_quota p with Some q => Some q | None => up_cpu_period p end)
  ++ owned_if "cpu.max.burst" (up_cpu_burst p) ++ owned_if "cpu.weight" (up_cpu_shares p)
  ++ owned_if "cpu.idle" (up_cpu_idle p) ++ owned_if "pids.max" (up_pids_limit p)
  ++ block_io_owned_files (up_block_io p) ++ huge_tlb_owned_files (up_huge_tlb p)
  ++ rdma_owned_files (up_rdma p).
Definition plan_validate (p : CgroupUpdatePlan) : Result () :=
  check! validate_option (validate_memory_value "linux.resources.memory.limit") (up_memory_limit p);
  check! validate_option (validate_memory_value "linux.resources.memory.reservation")
           (up_memory_reservation p);
  check! validate_option (validate_memory_value "linux.resources.memory.swap") (up_memory_swap p);
  check! reject_if (from_option (λ v, negb ((2 <=? v) && (v <=? 262144))) false (up_cpu_shares p))
    (update_invalid "linux.resources.cpu.shares must be between 2 and 262144");
  check! reject_if (from_option (λ v, negb (v =? -1) && (v <=? 0)) false (up_cpu_quota p))
    (update_invalid "linux.resources.cpu.quota must be -1 or positive");
  check! reject_if (from_option (λ v, v =? 0) false (up_cpu_period p))
    (update_invalid "linux.resources.cpu.period must be positive");
  check! reject_if (from_option (λ burst, from_option (λ quota, (0 <? quota) && (quota <? burst)) false
                                            (up_cpu_quota p)) false (up_cpu_burst p))
    (update_invalid "linux.resources.cpu.burst must not exceed a positive CPU quota");
  check! reject_if (from_option (λ v, negb ((v =? 0) || (v =? 1))) false (up_cpu_idle p))
    (update_invalid "linux.resources.cpu.idle must be 0 or 1");
  check! validate_option (validate_cpuset "linux.resources.cpu.cpus") (up_cpuset_cpus p);
  check! validate_option (validate_cpuset "linux.resources.cpu.mems") (up_cpuset_mems p);
  check! validate_option validate_pids_limit (up_pids_limit p);
  map_err as_update_error (unified_validate_conflicts (up_unified p) (typed_owned_files p)).

Section planning.
Context `{AE : !AgentEnv}.
(** [OciLinuxSupport::validate_resources] *)
Variable linux_support_validate : LinuxResources → Result ().

Definition from_resources (r : LinuxResources) : Result CgroupUpdatePlan :=
  check! linux_support_validate r;
  check! validate_supported_resource_fields r;
  try! block_io := map_err as_update_error (block_io_from_oci (rs_block_io r)) in
  try! huge_tlb := map_err as_update_error (huge_tlb_from_oci (rs_hugepage_limits r)) in
  try! rdma := map_err as_update_error (rdma_from_oci (rs_rdma r)) in
  try! unified := map_err as_update_error (unified_from_oci (rs_unified r)) in
  let plan := mkUpdatePlan
    (rs_memory r ≫= lm_limit) (rs_memory r ≫= lm_reservation) (rs_memory r ≫= lm_swap)
    (rs_cpu r ≫= lc_shares) (rs_cpu r ≫= lc_quota) (rs_cpu r ≫= lc_burst) (rs_cpu r ≫= lc_period)
    (rs_cpu r ≫= lc_idle) (rs_cpu r ≫= lc_cpus) (rs_cpu r ≫= lc_mems) (rs_pids_limit r)
    block_io huge_tlb rdma unified in
  check! plan_validate plan;
  Ok plan.
End planning.

(** [ControlHeadroom], and the envelope of the control plane *)
Record ControlHeadroom : Type := mkHeadroom {
  ch_memory_bytes : Z; ch_cpu_quota_micros : Z; ch_pids : Z
}.
Definition checked_add_i64 (a b : Z) (msg : string) : Result Z :=
  if (a + b <=? i64_max) && (- i64_max - 1 <=? a + b) then Ok (a + b) else Err (update_invalid msg).
Definition transpose {A} (f : A → Result Z) (o : option A) : Result (option Z) :=
  match o with Some a => try! b := f a in Ok (Some b) | None => Ok None end.
Definition management_plan (p : CgroupUpdatePlan) (h : ControlHeadroom) : Result CgroupUpdatePlan :=
  try! memory_limit := transpose (λ v,
    check! reject_if (v =? -1)
      (update_invalid "control/workload cgroup layout requires a finite memory limit");
    checked_add_i64 v (ch_memory_bytes h) "control-plane memory envelope overflows i64")
    (up_memory_limit p) in
  try! memory_swap := transpose (λ v,
    if v =? -1 then Ok (-1)
    else checked_add_i64 v (ch_memory_bytes h) "control-plane swap envelope overflows i64")
    (up_memory_swap p) in
  try! cpu_quota := transpose (λ v,
    check! reject_if (v =? -1)
      (update_invalid "control/workload cgroup layout requires a finite CPU quota");
    checked_add_i64 v (ch_cpu_quota_micros h) "control-plane CPU envelope overflows i64")
    (up_cpu_quota p) in
  try! pids_limit := transpose (λ v,
    check! reject_if (v =? -1)
      (update_invalid "control/workload cgroup layout requires a finite PID limit");
    checked_add_i64 v (ch_pids h) "control-plane PID envelope overflows i64")
    (up_pids_limit p) in
  Ok (mkUpdatePlan memory_limit None memory_swap (up_cpu_shares p) cpu_quota None (up_cpu_period p) None
        (up_cpuset_cpus p) (up_cpuset_mems p) pids_limit block_io_default ∅ ∅ (mkUnifiedPlan ∅ ∅)).

(** ** Plans are well formed *)

Section btree_entries.
Context `{Countable K, !Ord K} {A : Type} (m : gmap K A).
Lemma btree_entries_elem k v : (k, v) ∈ btree_entries m ↔ m !! k = Some v.
Proof. unfold btree_entries. by rewrite sort_by_key_Permutation, elem_of_map_to_list. Qed.
Lemma btree_entries_nodup : NoDup (btree_entries m).*1.
Proof. unfold btree_entries. rewrite sort_by_key_Permutation. apply NoDup_fst_map_to_list. Qed.
Lemma btree_entries_keys k : k ∈ (btree_entries m).*1 ↔ is_Some (m !! k).
Proof.
  rewrite list_elem_of_fmap. split.
  - intros ([k' v] & -> & Hv%btree_entries_elem). by exists v.
  - intros [v Hv]. exists (k, v). by rewrite btree_entries_elem.
Qed.
End btree_entries.

Lemma strip_suffix_some suffix s d : strip_suffix suffix s = Some d → s = d +:+ suffix.
Proof.
  revert d. induction s as [|c s IH]; intros d; simpl; case_bool_decide; try (by intros; simplify_eq).
  destruct (strip_suffix suffix s) eqn:E; [|done]. intros [= <-]. simpl. by rewrite (IH s0).
Qed.
Lemma append_inj_r (a b x y : string) :
  String.length x = String.length y → a +:+ x = b +:+ y → x = y.
Proof.
  revert b. induction a as [|c a IH]; intros b Hl H; destruct b as [|c' b]; simpl in H; [done|..].
  - apply (f_equal String.length) in H. simpl in H. rewrite !string_length_app in H. simpl in H. lia.
  - apply (f_equal String.length) in H. simpl in H. rewrite !string_length_app in H. simpl in H. lia.
  - injection H as _ H. by eapply IH.
Qed.
Lemma append_inj_l (a x y : string) : a +:+ x = a +:+ y → x = y.
Proof. induction a as [|c a IH]; simpl; [done|]. intros [= H]. by apply IH. Qed.

(** Hugepage limits are keyed by canonical page sizes, which end in [B]. *)
Definition huge_tlb_wf (p : gmap string HugeTlbLimit) : Prop :=
  ∀ size, is_Some (p !! size) → is_Some (page_size_parts size).
Lemma validate_page_size_parts value size :
  validate_page_size value = Ok size → size.1 = value ∧ is_Some (page_size_parts value).
Proof.
  unfold validate_page_size. intros H. apply rbind_ok in H as ([digits mult] & Hp & H).
  apply ok_or_ok in Hp. inv_ok. split; [done|]. by eexists.
Qed.
Lemma huge_tlb_from_oci_wf limits p : huge_tlb_from_oci limits = Ok p → huge_tlb_wf p.
Proof.
  unfold huge_tlb_from_oci. apply (rfold_invariant _ (λ _, huge_tlb_wf)).
  - by intros size [? []%lookup_empty_Some].
  - intros pre l suf s s' _ Hs H size Hsize. unfold add_hugepage_limit in H. inv_ok.
    match goal with H : validate_page_size _ = Ok _ |- _ => apply validate_page_size_parts in H as [Hv ?] end.
    apply lookup_insert_is_Some in Hsize as [<-|[_ ?]]; [by rewrite Hv|by apply Hs].
Qed.
Lemma page_size_suffix size :
  is_Some (page_size_parts size) → ∃ digits suffix, size = digits +:+ suffix ∧ suffix ∈ ["KB"; "MB"; "GB"].
Proof.
  unfold page_size_parts. intros [? H].
  destruct (strip_suffix "KB" size) as [d|] eqn:E1; [exists d, "KB"; split; [by apply strip_suffix_some|set_solver]|].
  destruct (strip_suffix "MB" size) as [d|] eqn:E2; [exists d, "MB"; split; [by apply strip_suffix_some|set_solver]|].
  destruct (strip_suffix "GB" size) as [d|] eqn:E3; [exists d, "GB"; split; [by apply strip_suffix_some|set_solver]|done].
Qed.
Lemma max_file_inj a b : max_file a = max_file b → a = b.
Proof.
  unfold max_file. intros H%append_inj_l.
  apply (f_equal (strip_suffix ".max")) in H. rewrite !strip_suffix_app in H. by simplify_eq.
Qed.
Lemma reservation_file_inj a b : reservation_file a = reservation_file b → a = b.
Proof.
  unfold reservation_file. intros H%append_inj_l.
  apply (f_equal (strip_suffix ".rsvd.max")) in H. rewrite !strip_suffix_app in H. by simplify_eq.
Qed.
Lemma max_reservation_file a b : is_Some (page_size_parts a) → max_file a ≠ reservation_file b.
Proof.
  intros (d & suffix & -> & Hs)%page_size_suffix. unfold max_file, reservation_file. intros H%append_inj_l.
  rewrite append_assoc in H. replace ".rsvd.max" with (".rs" +:+ "vd.max") in H by done.
  rewrite <- (append_assoc b) in H.
  repeat (apply elem_of_cons in Hs as [-> |Hs]; [by apply append_inj_r in H|]). by apply elem_of_nil in Hs.
Qed.
(** The two files of each size of a list of entries *)
Definition huge_files (sizes : list string) : list string :=
  sizes ≫= λ size, [max_file size; reservation_file size].
Lemma elem_of_huge_files sizes f :
  f ∈ huge_files sizes ↔ ∃ size, size ∈ sizes ∧ (f = max_file size ∨ f = reservation_file size).
Proof. unfold huge_files. rewrite list_elem_of_bind. set_solver. Qed.
Lemma huge_files_nodup sizes :
  Forall (λ size, is_Some (page_size_parts size)) sizes → NoDup sizes → NoDup (huge_files sizes).
Proof.
  induction 1 as [|size sizes Hsize Hs IH]; csimpl; [constructor|]. intros [Hn Hd]%NoDup_cons.
  rewrite Forall_forall in Hs. unfold huge_files in *. csimpl. fold (huge_files sizes) in *.
  repeat apply NoDup_cons_2; [| |by apply IH].
  - rewrite elem_of_cons, elem_of_huge_files. intros [?|(b & Hb & [Heq%max_file_inj|?])];
      [by eapply max_reservation_file|by subst|by eapply max_reservation_file].
  - rewrite elem_of_huge_files. intros (b & Hb & [Heq|Heq%reservation_file_inj]); [|by subst].
    symmetry in Heq. eapply max_reservation_file; [|exact Heq]. by apply Hs.
Qed.
Lemma huge_tlb_owned_nodup p : huge_tlb_wf p → NoDup (huge_tlb_owned_files p).
Proof.
  intros Hp. apply huge_files_nodup; [|apply btree_entries_nodup]. apply Forall_forall.
  intros size Hs%btree_entries_keys. by apply Hp.
Qed.

(** A unified control of a plan is one of the configuration, and no typed
    resource owns it. *)
Lemma unified_from_oci_keys unified p file :
  unified_from_oci unified = Ok p → is_Some (up_settings p !! file) → ∃ v, (file, v) ∈ default [] unified.
Proof.
  unfold unified_from_oci. destruct unified as [entries|]; [|by intros [= <-] [? ?]].
  intros H. inv_ok. intros Hf. simpl.
  revert file Hf. eapply (rfold_invariant _ (λ pre s, ∀ file, is_Some (up_settings s.1 !! file) →
    ∃ v, (file, v) ∈ pre)); [| |exact H0].
  - by intros ? [? ?].
  - intros pre [f v] suf [s total] s' _ Hs H1 file' Hf'. simpl in H1. inv_ok. simpl in *.
    apply lookup_insert_is_Some in Hf' as [<-|[_ Hf']]; [exists v; set_solver|].
    destruct (Hs _ Hf') as [v' ?]. exists v'. set_solver.
Qed.
Lemma unified_no_conflict p owned file u :
  unified_validate_conflicts p owned = Ok u → is_Some (up_settings p !! file) → file ∉ owned.
Proof.
  unfold unified_validate_conflicts. intros H Hf Ho. destruct u. inv_ok.
  assert (existsb (λ file, bool_decide (file ∈ owned)) (btree_entries (up_settings p)).*1 = true) as Hx.
  { apply existsb_exists. exists file. split; [|by apply bool_decide_eq_true].
    by apply list_elem_of_In, btree_entries_keys. }
  by rewrite Hx in H.
Qed.
Lemma from_resources_wf `{AE : !AgentEnv} validate r p :
  from_resources validate r = Ok p →
  huge_tlb_wf (up_huge_tlb p)
  ∧ (∀ file, is_Some (up_settings (up_unified p) !! file) →
       (file ∉ typed_owned_files p) ∧ (∃ v, (file, v) ∈ default [] (rs_unified r))).
Proof.
  unfold from_resources. intros H. inv_ok. split; [eapply huge_tlb_from_oci_wf; eassumption|].
  intros file Hf. split; [|eapply unified_from_oci_keys; [eassumption|exact Hf]].
  unfold plan_validate in *. inv_ok.
  eapply unified_no_conflict; [eassumption|exact Hf].
Qed.
