(* ===== verification/CgroupUpdate.v ===== *)
(** * Live updates of cgroup controls (crates/agent/src/executor/cgroup/update.rs)

    An update of the resources of a container becomes a list of settings of
    cgroup control files.  The current values are read first; the settings are
    written in order and read back; when a write or a read-back fails, the
    settings written so far are restored in reverse order and read back, too.
    Block I/O (io/update.rs) and RDMA limits (rdma/update.rs) are lines of keyed
    files and follow the same scheme, which is a class here.

    Control files are a class: reading is a function of the kernel's state,
    writing may fail, and may store something else than what was written, as
    the kernel does. *)

From stdpp Require Import base gmap strings list.
From S2P Require Import Prelude Collections Sdk Identifiers Contracts Events HostArtifact AgentModel.
From S2P Require Import AuditCorrect CgroupPlan.
From Stdlib Require Import Ascii ZArith Lia.
Local Open Scope string_scope.
Local Open Scope list_scope.
Local Open Scope Z_scope.

(** ** Control files *)

Record ControlMetadata : Type := mkControlMetadata { cm_is_file : bool; cm_mode : Z }.
(** An [io::Error] of a write: its kind and [raw_os_error] *)
Record WriteFailure : Type := mkWriteFailure { wf_kind : IoErrorKind; wf_raw_os_error : option Z }.
Class CgroupFs : Type := {
  cg : Type;
  (** [read_to_string], [symlink_metadata], opening for writing and [write] of a
      control in a directory *)
  cg_read : string → string → cg → result IoErrorKind string;
  cg_metadata : string → string → cg → result IoErrorKind ControlMetadata;
  cg_open : string → string → cg → result IoErrorKind ();
  cg_write : string → string → string → cg → result WriteFailure () * cg
}.

Section updates.
Context `{FS : CgroupFs}.

Definition read_control (msg path file : string) (g : cg) : Result string :=
  match cg_read path file g with
  | Ok value => Ok value
  | Err kind => Err (update_error (match kind with IoNotFound => Unsupported | _ => FailedPrecondition end) msg)
  end.
Definition read_required : string → string → cg → Result string :=
  read_control "failed to read cgroup file {}: {error}".

(** *** The settings of a plan *)

Definition opt_setting {A} (file : string) (value : A → string) (o : option A) : list CgroupSetting :=
  match o with Some a => [setting_new file (value a)] | None => [] end.

Definition to_u64 (value : Z) (msg : string) : Result Z :=
  check! reject_if (value <? 0) (update_invalid msg); Ok value.
Definition effective_limit (requested : option Z) (current : option Z) (msg : string)
    : Result (option Z) :=
  match requested with
  | Some value => if bool_decide (value = -1) then Ok None
                  else try! n := to_u64 value msg in Ok (Some n)
  | None => Ok current
  end.
Definition lowers_finite_limit (current effective : option Z) : bool :=
  match current, effective with
  | _, None => false
  | None, Some _ => true
  | Some current, Some next => next <? current
  end.
Definition memory_limits (p : CgroupUpdatePlan) (current effective : option Z) : list CgroupSetting :=
  let max := opt_setting "memory.max" cgroup_v2_limit_value (up_memory_limit p) in
  let low := opt_setting "memory.low" cgroup_v2_limit_value (up_memory_reservation p) in
  if lowers_finite_limit current effective then low ++ max else max ++ low.
Definition swap_only (effective : option Z) (swap : Z) : Result string :=
  if bool_decide (swap = -1) then Ok "max"
  else
    try! memory := ok_or (update_invalid
      "finite linux.resources.memory.swap requires a finite effective memory limit") effective in
    try! total := to_u64 swap "memory swap does not fit cgroup v2: {error}" in
    check! reject_if (total <? memory)
      (update_invalid "linux.resources.memory.swap must be at least the effective memory limit");
    Ok (uint_to_string (total - memory)).
Definition memory_settings (p : CgroupUpdatePlan) (path : string) (oom_group : bool) (g : cg)
    : Result (list CgroupSetting) :=
  if bool_decide (up_memory_limit p = None) && bool_decide (up_memory_reservation p = None)
     && bool_decide (up_memory_swap p = None)
  then Ok []
  else
    try! text := read_required path "memory.max" g in
    try! current := map_err as_update_error (parse_max_value "memory.max" text) in
    try! effective := effective_limit (up_memory_limit p) current
                        "memory limit does not fit cgroup v2: {error}" in
    try! swap := match up_memory_swap p with
                 | Some swap => try! value := swap_only effective swap in
                                Ok [setting_new "memory.swap.max" value]
                 | None => Ok []
                 end in
    Ok (memory_limits p current effective
        ++ opt_setting "memory.oom.group" (λ _, if oom_group then "1" else "0") (up_memory_limit p)
        ++ swap).

Definition read_burst (p : CgroupUpdatePlan) (path : string) (g : cg) : Result Z :=
  match cg_read path "cpu.max.burst" g with
  | Ok value => map_err as_update_error (parse_u64_value "cpu.max.burst" value)
  | Err IoNotFound =>
      if bool_decide (up_cpu_burst p = None) then Ok 0
      else Err (update_error Unsupported "cgroup v2 CPU burst control is unavailable")
  | Err _ => Err (update_error FailedPrecondition "failed to read cgroup CPU burst control: {error}")
  end.
Definition exceeds (burst : Z) (quota : option Z) : bool :=
  from_option (λ quota, quota <? burst) false quota.
Definition cpu_settings (p : CgroupUpdatePlan) (path : string) (g : cg) : Result (list CgroupSetting) :=
  if bool_decide (up_cpu_quota p = None) && bool_decide (up_cpu_period p = None)
     && bool_decide (up_cpu_burst p = None)
  then Ok []
  else
    try! text := read_required path "cpu.max" g in
    try! current := parse_cpu_max text in
    let '(current_quota, current_period) := current in
    try! current_quota_value := parse_cpu_quota current_quota in
    try! effective_quota := effective_limit (up_cpu_quota p) current_quota_value
                              "CPU quota does not fit cgroup v2: {error}" in
    try! current_burst := read_burst p path g in
    let effective_burst := default current_burst (up_cpu_burst p) in
    check! reject_if (exceeds effective_burst effective_quota)
      (update_invalid
         "linux.resources.cpu.burst {effective_burst} exceeds the effective positive CPU quota {}");
    let quota := match up_cpu_quota p with
                 | Some value => cgroup_v2_limit_value value
                 | None => current_quota
                 end in
    let period := default current_period (up_cpu_period p) in
    let max := if bool_decide (up_cpu_quota p = None) && bool_decide (up_cpu_period p = None) then []
               else [setting_new "cpu.max" (quota +:+ " " +:+ uint_to_string period)] in
    let burst := opt_setting "cpu.max.burst" uint_to_string (up_cpu_burst p) in
    Ok (if exceeds current_burst effective_quota then burst ++ max else max ++ burst).

(** [control_file_state_async], for hugepage controls *)
Definition control_file_state (path file : string) (g : cg) : Result bool :=
  match cg_metadata path file g with
  | Ok metadata => if cm_is_file metadata then Ok true
                   else Err (cgroup_error FailedPrecondition
                               "failed to inspect HugeTLB cgroup control {}: {error}")
  | Err IoNotFound => Ok false
  | Err _ => Err (cgroup_error FailedPrecondition "failed to inspect HugeTLB cgroup control {}: {error}")
  end.
Definition huge_tlb_entry (path : string) (g : cg) (settings : list CgroupSetting)
    (entry : string * HugeTlbLimit) : Result (list CgroupSetting) :=
  let '(page_size, limit) := entry in
  try! exists_max := control_file_state path (max_file page_size) g in
  check! reject_if (negb exists_max)
    (cgroup_error Unsupported "cgroup v2 HugeTLB page size {page_size:?} is unavailable at {}");
  let value := huge_tlb_limit_value limit in
  try! reservation := control_file_state path (reservation_file page_size) g in
  Ok (settings ++ [setting_new (max_file page_size) value]
      ++ (if reservation then [setting_new (reservation_file page_size) value] else [])).
Definition huge_tlb_settings (p : gmap string HugeTlbLimit) (path : string) (g : cg)
    : Result (list CgroupSetting) :=
  map_err as_update_error (rfold (huge_tlb_entry path g) [] (btree_entries p)).

Definition settings (p : CgroupUpdatePlan) (path : string) (oom_group : bool) (g : cg)
    : Result (list CgroupSetting) :=
  try! memory := memory_settings p path oom_group g in
  try! cpu := cpu_settings p path g in
  try! huge := huge_tlb_settings (up_huge_tlb p) path g in
  Ok (opt_setting "cpuset.mems" id (up_cpuset_mems p) ++ opt_setting "cpuset.cpus" id (up_cpuset_cpus p)
      ++ memory ++ cpu
      ++ opt_setting "cpu.weight" (λ s, uint_to_string (shares_to_weight s)) (up_cpu_shares p)
      ++ opt_setting "cpu.idle" int_to_string (up_cpu_idle p)
      ++ opt_setting "pids.max" cgroup_v2_limit_value (up_pids_limit p)
      ++ huge ++ unified_settings (up_unified p)).

(** *** Transactions

    A prepared change is skipped when it is already in effect; otherwise it is
    written and verified; a failure undoes the changes made so far, the last
    one first. *)

Class Mutation (M : Type) : Type := {
  mu_noop : M → bool;
  mu_write : M → cg → Result () * cg;
  mu_verify : M → cg → Result ();
  (** Restores what was there before, and verifies it: the failure, if any *)
  mu_undo : M → cg → option string * cg
}.

Section transactions.
Context `{Mutation M}.
Fixpoint undo_all (l : list M) (g : cg) : list string * cg :=
  match l with
  | [] => ([], g)
  | m :: l => let '(failure, g) := mu_undo m g in
              let '(failures, g) := undo_all l g in
              (option_list failure ++ failures, g)
  end.
Definition rollback_mutations (applied : list M) (g : cg) : list string * cg :=
  undo_all (reverse applied) g.
(** [original], or an internal error that names the failures *)
Definition report_failures (original : Error) (failures : list string) : Error :=
  if bool_decide (failures = []) then original
  else update_error Internal "{}; rollback also failed: {}".
Definition rollback_after_failure (applied : list M) (original : Error) (g : cg) : Error * cg :=
  let '(failures, g) := rollback_mutations applied g in (report_failures original failures, g).
Fixpoint apply_mutations (applied prepared : list M) (g : cg) : Result (list M) * cg :=
  match prepared with
  | [] => (Ok applied, g)
  | m :: prepared =>
      if mu_noop m then apply_mutations applied prepared g
      else match mu_write m g with
           | (Err e, g) => let '(e, g) := rollback_after_failure applied e g in (Err e, g)
           | (Ok _, g) =>
               match mu_verify m g with
               | Err e => let '(e, g) := rollback_after_failure (applied ++ [m]) e g in (Err e, g)
               | Ok _ => apply_mutations (applied ++ [m]) prepared g
               end
           end
  end.
End transactions.

(** *** Settings

    An applied setting keeps the path, the file and the old value of the
    prepared one. *)

Record PreparedUpdateSetting : Type := mkPreparedSetting {
  pu_path : string; pu_setting : CgroupSetting; pu_old : option string
}.
(** 0o222 and 0o444 *)
Definition MODE_WRITE : Z := 2 * 64 + 2 * 8 + 2.
Definition MODE_READ : Z := 4 * 64 + 4 * 8 + 4.
Definition mode_bits (mask mode : Z) : bool := negb (Z.land mode mask =? 0).
Definition read_kernel_defined_current (path file : string) (g : cg) : Result (option string) :=
  match cg_metadata path file g with
  | Err kind => Err (update_error (match kind with IoNotFound => Unsupported | _ => FailedPrecondition end)
                       "failed to inspect unified cgroup control {}: {error}")
  | Ok metadata =>
      check! reject_if (negb (cm_is_file metadata) || negb (mode_bits MODE_WRITE (cm_mode metadata)))
        (update_error Unsupported "unified cgroup control {} is not a writable control file");
      if negb (mode_bits MODE_READ (cm_mode metadata)) then Ok None
      else match cg_read path file g with
           | Ok value => Ok (Some (normalize_cgroup_value value))
           | Err IoPermissionDenied => Ok None
           | Err _ => Err (update_error FailedPrecondition
                             "failed to read unified cgroup control {} before update: {error}")
           end
  end.
Definition prepare_update_setting (path : string) (g : cg) (s : CgroupSetting)
    : Result PreparedUpdateSetting :=
  try! old := match cs_readback s with
              | Exact => try! value := read_required path (cs_file s) g in
                         Ok (Some (normalize_cgroup_value value))
              | KernelDefined => read_kernel_defined_current path (cs_file s) g
              end in
  Ok (mkPreparedSetting path s old).
Definition prepare_update_settings (path : string) (settings : list CgroupSetting) (g : cg)
    : Result (list PreparedUpdateSetting) :=
  rmap (prepare_update_setting path g) settings.

Definition setting_noop (p : PreparedUpdateSetting) : bool :=
  from_option (λ old, bool_decide (normalize_cgroup_value (cs_value (pu_setting p)) = old)) false (pu_old p).
Definition write_setting (p : PreparedUpdateSetting) (g : cg) : Result () * cg :=
  match cg_write (pu_path p) (cs_file (pu_setting p)) (cs_value (pu_setting p)) g with
  | (Ok _, g) => (Ok (), g)
  | (Err _, g) => (Err (update_error PermissionDenied "failed to apply cgroup setting {}={}: {error}"), g)
  end.
Definition verify_setting (p : PreparedUpdateSetting) (g : cg) : Result () :=
  match cs_readback (pu_setting p) with
  | KernelDefined => Ok ()
  | Exact =>
      match cg_read (pu_path p) (cs_file (pu_setting p)) g with
      | Err _ => Err (update_error FailedPrecondition "failed to verify cgroup setting {}: {error}")
      | Ok actual =>
          reject_if (negb (bool_decide (normalize_cgroup_value actual
                                        = normalize_cgroup_value (cs_value (pu_setting p)))))
            (update_error FailedPrecondition "cgroup setting {} read back differently")
      end
  end.
Definition restore_setting (p : PreparedUpdateSetting) (g : cg) : option string * cg :=
  match pu_old p with
  | None => (Some "{}: unified control had no readable rollback state", g)
  | Some old =>
      match cg_write (pu_path p) (cs_file (pu_setting p)) old g with
      | (Err _, g) => (Some "{}: {error}", g)
      | (Ok _, g) =>
          match cg_read (pu_path p) (cs_file (pu_setting p)) g with
          | Ok actual => if bool_decide (normalize_cgroup_value actual = old) then (None, g)
                         else (Some "{}: rollback read-back mismatch", g)
          | Err _ => (Some "{}: {error}", g)
          end
      end
  end.
#[global] Instance Mutation_setting : Mutation PreparedUpdateSetting :=
  Build_Mutation _ setting_noop write_setting verify_setting restore_setting.
Definition apply_prepared_update_settings (prepared : list PreparedUpdateSetting) (g : cg)
    : Result (list PreparedUpdateSetting) * cg := apply_mutations [] prepared g.

(** The parsed contents of a keyed file *)
Definition parsed {A} (r : result string A) : Result A :=
  match r with
  | Ok a => Ok a
  | Err _ => Err (update_error FailedPrecondition "failed to parse {}: {message}")
  end.

(** *** RDMA limits (rdma/state.rs, rdma/update.rs) *)

Definition RDMA_MAX_FILE : string := "rdma.max".
Definition ENODEV : Z := 19.
Definition rdma_limit_parse (value : string) : result string RdmaLimit :=
  if bool_decide (value = "max") then Ok RdmaMax
  else try! n := ok_or "invalid RDMA limit {value:?}: {error}" (parse_uint u32_max value) in
       check! reject_if (KERNEL_FINITE_LIMIT_MAX <? n)
         "finite RDMA limit {value} exceeds the kernel signed-counter range";
       Ok (RdmaValue n).
Definition rdma_limit_to_string (l : RdmaLimit) : string :=
  match l with RdmaMax => "max" | RdmaValue n => uint_to_string n end.
Definition RdmaState : Type := gmap string RdmaLimits.
(** [destination.replace(value)], which must have been empty *)
Definition replace_limit (old : option RdmaLimit) (value : string) : result string (option RdmaLimit) :=
  try! l := rdma_limit_parse value in
  check! reject_if (bool_decide (is_Some old)) "duplicate RDMA state field {name} for device {device}";
  Ok (Some l).
Definition parse_rdma_item (limits : RdmaLimits) (item : string) : result string RdmaLimits :=
  try! parts := ok_or "RDMA state entry {item:?} has no value" (split_once "=" item) in
  check! reject_if (bool_decide (parts.1 = "") || bool_decide (parts.2 = ""))
    "RDMA state entry {item:?} is empty";
  if bool_decide (parts.1 = "hca_handle")
  then try! l := replace_limit (rl_hca_handles limits) parts.2 in
       Ok (mkRdmaLimits l (rl_hca_objects limits))
  else if bool_decide (parts.1 = "hca_object")
  then try! l := replace_limit (rl_hca_objects limits) parts.2 in
       Ok (mkRdmaLimits (rl_hca_handles limits) l)
  else Ok limits.
Section rdma_state.
Context `{AE : !AgentEnv}.
Definition parse_rdma_line (state : RdmaState) (line : string) : result string RdmaState :=
  match split_ascii_whitespace line with
  | [] => Err "empty RDMA state entry"
  | device_text :: fields =>
      try! device := map_err (λ _, "invalid RDMA state device {device_text:?}: {reason}")
                       (rdma_device_parse device_text) in
      try! limits := rfold parse_rdma_item (mkRdmaLimits None None) fields in
      check! reject_if (bool_decide (rl_hca_handles limits = None)
                        || bool_decide (rl_hca_objects limits = None))
        "RDMA state for device {device} does not expose both OCI resource fields";
      check! reject_if (bool_decide (is_Some (state !! device))) "duplicate RDMA state device {device}";
      Ok (<[device := limits]> state)
  end.
Definition parse_rdma_state (value : string) : result string RdmaState :=
  rfold parse_rdma_line ∅ (nonblank_lines value).
Definition read_rdma_state (path : string) (g : cg) : Result RdmaState :=
  try! value := read_control "failed to read cgroup RDMA limits {}: {error}" path RDMA_MAX_FILE g in
  parsed (parse_rdma_state value).

Definition rdma_matches_requested (requested actual : RdmaLimits) : bool :=
  from_option (λ l, bool_decide (rl_hca_handles actual = Some l)) true (rl_hca_handles requested)
  && from_option (λ l, bool_decide (rl_hca_objects actual = Some l)) true (rl_hca_objects requested).
Definition previous_limit (requested current : option RdmaLimit) (msg : string)
    : result string (option RdmaLimit) :=
  match requested with
  | Some _ => try! l := ok_or msg current in Ok (Some l)
  | None => Ok None
  end.
Definition rdma_previous_for (requested current : RdmaLimits) : result string RdmaLimits :=
  try! handles := previous_limit (rl_hca_handles requested) (rl_hca_handles current)
                    "RDMA state has no hca_handle value" in
  try! objects := previous_limit (rl_hca_objects requested) (rl_hca_objects current)
                    "RDMA state has no hca_object value" in
  Ok (mkRdmaLimits handles objects).
Definition rdma_limits_write_value (l : RdmaLimits) : string :=
  String.concat " "
    (option_list ((λ v, "hca_handle=" +:+ rdma_limit_to_string v) <$> rl_hca_handles l)
     ++ option_list ((λ v, "hca_object=" +:+ rdma_limit_to_string v) <$> rl_hca_objects l)).
Record RdmaMutation : Type := mkRdmaMutation { rm_device : string; rm_limits : RdmaLimits }.
Definition rdma_write_value (m : RdmaMutation) : string :=
  rm_device m +:+ " " +:+ rdma_limits_write_value (rm_limits m).
Definition rdma_mutations (limits : gmap string RdmaLimits) : list RdmaMutation :=
  (λ e, mkRdmaMutation e.1 e.2) <$> btree_entries limits.
Record PreparedRdmaMutation : Type := mkPreparedRdma {
  pr_path : string; pr_mutation : RdmaMutation; pr_previous : RdmaLimits
}.
Definition rdma_is_noop (p : PreparedRdmaMutation) : bool :=
  rdma_matches_requested (rm_limits (pr_mutation p)) (pr_previous p).
Definition rdma_rollback_mutation (p : PreparedRdmaMutation) : RdmaMutation :=
  mkRdmaMutation (rm_device (pr_mutation p)) (pr_previous p).

Definition rdma_write_error_code (f : WriteFailure) : ErrorCode :=
  match wf_kind f with
  | IoNotFound => Unsupported
  | _ => if bool_decide (wf_raw_os_error f = Some ENODEV) then Unsupported else PermissionDenied
  end.
Definition rdma_write_mutation (path : string) (m : RdmaMutation) (g : cg) : Result () * cg :=
  match cg_write path RDMA_MAX_FILE (rdma_write_value m) g with
  | (Ok _, g) => (Ok (), g)
  | (Err f, g) => (Err (update_error (rdma_write_error_code f)
                          "failed to apply cgroup RDMA setting {}={value}: {error}"), g)
  end.
Definition rdma_verify_state (state : RdmaState) (m : RdmaMutation) : Result () :=
  try! actual := ok_or (update_error FailedPrecondition
                          "cgroup RDMA device {} disappeared during read-back")
                   (state !! rm_device m) in
  reject_if (negb (rdma_matches_requested (rm_limits m) actual))
    (update_error FailedPrecondition "cgroup RDMA limits for {} read back differently").
Definition rdma_verify_mutation (path : string) (m : RdmaMutation) (g : cg) : Result () :=
  try! state := read_rdma_state path g in rdma_verify_state state m.
Definition rdma_undo (p : PreparedRdmaMutation) (g : cg) : option string * cg :=
  let rollback := rdma_rollback_mutation p in
  match rdma_write_mutation (pr_path p) rollback g with
  | (Err e, g) => (Some (message e), g)
  | (Ok _, g) => match rdma_verify_mutation (pr_path p) rollback g with
                 | Err e => (Some (message e), g)
                 | Ok _ => (None, g)
                 end
  end.
#[global] Instance Mutation_rdma : Mutation PreparedRdmaMutation :=
  Build_Mutation _ rdma_is_noop (λ p, rdma_write_mutation (pr_path p) (pr_mutation p))
    (λ p, rdma_verify_mutation (pr_path p) (pr_mutation p)) rdma_undo.

Definition ensure_devices (state : RdmaState) (devices : list string) : Result () :=
  reject_if (existsb (λ d, bool_decide (state !! d = None)) devices)
    (update_error Unsupported "cgroup RDMA device {device} is unavailable").
Definition rdma_prepare_one (path : string) (state : RdmaState) (m : RdmaMutation)
    : Result PreparedRdmaMutation :=
  try! current := ok_or (update_error Unsupported "cgroup RDMA device {} is unavailable")
                    (state !! rm_device m) in
  match rdma_previous_for (rm_limits m) current with
  | Ok previous => Ok (mkPreparedRdma path m previous)
  | Err msg => Err (update_error FailedPrecondition msg)
  end.
Definition rdma_prepare_update (limits : gmap string RdmaLimits) (path : string) (g : cg)
    : Result (list PreparedRdmaMutation) :=
  if bool_decide (size limits = 0%nat) then Ok []
  else
    try! state := read_rdma_state path g in
    check! ensure_devices state (btree_entries limits).*1;
    rmap (rdma_prepare_one path state) (rdma_mutations limits).
Definition rdma_apply (prepared : list PreparedRdmaMutation) (g : cg)
    : Result (list PreparedRdmaMutation) * cg := apply_mutations [] prepared g.
End rdma_state.

(** *** Block I/O (io.rs, io/state.rs, io/update.rs) *)

Definition BFQ_WEIGHT_FILE : string := "io.bfq.weight".
Definition GENERIC_WEIGHT_FILE : string := "io.weight".
Definition IO_MAX_FILE : string := "io.max".
Inductive WeightBackend : Type := Bfq | Generic.
#[global] Instance WeightBackend_eq_dec : EqDecision WeightBackend.
Proof. solve_decision. Defined.
Definition backend_file (b : WeightBackend) : string :=
  match b with Bfq => BFQ_WEIGHT_FILE | Generic => GENERIC_WEIGHT_FILE end.
Definition backend_encode (b : WeightBackend) (weight : Z) : Z :=
  match b with Bfq => weight | Generic => 1 + (weight - OCI_WEIGHT_MIN) * 9999 / 990 end.
Inductive WeightKey : Type := DefaultWeight | DeviceWeight (device : BlockDevice).
#[global] Instance WeightKey_eq_dec : EqDecision WeightKey.
Proof. solve_decision. Defined.
Definition block_device_parse (value : string) : result string BlockDevice :=
  try! parts := ok_or "invalid block-device key {value:?}" (split_once ":" value) in
  try! major := ok_or "invalid block-device major in {value:?}: {error}" (parse_uint u32_max parts.1) in
  try! minor := ok_or "invalid block-device minor in {value:?}: {error}" (parse_uint u32_max parts.2) in
  Ok (major, minor).
Definition block_device_to_string (d : BlockDevice) : string :=
  uint_to_string d.1 +:+ ":" +:+ uint_to_string d.2.
Definition weight_key_write_value (key : WeightKey) (value : string) : string :=
  match key with
  | DefaultWeight => value
  | DeviceWeight device => block_device_to_string device +:+ " " +:+ value
  end.
Definition io_field_name (f : IoMaxField) : string :=
  match f with
  | ReadBytes => "rbps" | WriteBytes => "wbps" | ReadOperations => "riops" | WriteOperations => "wiops"
  end.
Definition io_field_from_name (value : string) : option IoMaxField :=
  find (λ f, bool_decide (io_field_name f = value)) [ReadBytes; WriteBytes; ReadOperations; WriteOperations].
Definition io_limit_to_string (l : IoLimit) : string :=
  match l with IoMax => "max" | IoValue n => uint_to_string n end.
Definition io_values_write_value (values : IoMaxValues) : string :=
  String.concat " " ((λ e, io_field_name e.1 +:+ "=" +:+ io_limit_to_string e.2) <$> values).

(** **** The state of the keyed files *)

Record WeightState : Type := mkWeightState {
  ws_default : option Z; ws_devices : gmap BlockDevice Z; ws_device_overrides_supported : bool
}.
Definition parse_weight (value : string) : result string Z :=
  ok_or "invalid weight {value:?}: {error}" (parse_uint u64_max value).
Definition parse_weight_line (state : WeightState) (line : string) : result string WeightState :=
  match split_ascii_whitespace line with
  | [] => Err "empty weight entry"
  | [_] => Err "weight entry {line:?} has no value"
  | _ :: _ :: _ :: _ => Err "weight entry {line:?} has unexpected fields"
  | [key; value] =>
      try! value := parse_weight value in
      if bool_decide (key = "default")
      then check! reject_if (bool_decide (is_Some (ws_default state))) "duplicate default weight entry";
           Ok (mkWeightState (Some value) (ws_devices state) (ws_device_overrides_supported state))
      else try! device := block_device_parse key in
           check! reject_if (bool_decide (is_Some (ws_devices state !! device)))
             "duplicate weight entry for device {device}";
           Ok (mkWeightState (ws_default state) (<[device := value]> (ws_devices state))
                 (ws_device_overrides_supported state))
  end.
(** The only field of the only line *)
Definition single_field (ls : list string) : option string :=
  match ls with
  | [line] => match split_ascii_whitespace line with [field] => Some field | _ => None end
  | _ => None
  end.
Definition parse_weight_state (value : string) : result string WeightState :=
  let ls := nonblank_lines value in
  match single_field ls with
  | Some field => try! weight := parse_weight field in Ok (mkWeightState (Some weight) ∅ false)
  | None =>
      try! state := rfold parse_weight_line (mkWeightState None ∅ true) ls in
      check! reject_if (bool_decide (ws_default state = None)) "weight state has no default entry";
      Ok state
  end.

(** [IoMaxState]: by device and field *)
Definition IoMaxState : Type := gmap BlockDevice IoMaxValues.
Definition io_values_get (values : IoMaxValues) (f : IoMaxField) : option IoLimit :=
  snd <$> find (λ e, bool_decide (e.1 = f)) values.
Definition io_max_value (state : IoMaxState) (d : BlockDevice) (f : IoMaxField) : IoLimit :=
  default IoMax (state !! d ≫= λ values, io_values_get values f).
Definition parse_max_item (values : IoMaxValues) (item : string) : result string IoMaxValues :=
  try! parts := ok_or "io.max entry {item:?} has no value" (split_once "=" item) in
  match io_field_from_name parts.1 with
  | None => Ok values
  | Some field =>
      try! limit := if bool_decide (parts.2 = "max") then Ok IoMax
                    else try! n := ok_or "invalid io.max value {value:?} for {device} {name}: {error}"
                                     (parse_uint u64_max parts.2) in
                         Ok (IoValue n) in
      check! reject_if (bool_decide (is_Some (io_values_get values field)))
        "duplicate io.max field {name} for device {device}";
      Ok (values ++ [(field, limit)])
  end.
Definition parse_max_line (state : IoMaxState) (line : string) : result string IoMaxState :=
  match split_ascii_whitespace line with
  | [] => Err "empty io.max entry"
  | device_text :: fields =>
      try! device := block_device_parse device_text in
      try! values := rfold parse_max_item (default [] (state !! device)) fields in
      Ok (<[device := values]> state)
  end.
Definition parse_max_state (value : string) : result string IoMaxState :=
  rfold parse_max_line ∅ (nonblank_lines value).

Definition read_optional (path file : string) (g : cg) : Result (option string) :=
  match cg_read path file g with
  | Ok value => Ok (Some value)
  | Err IoNotFound => Ok None
  | Err _ => Err (update_error FailedPrecondition "failed to read cgroup file {}: {error}")
  end.
Definition read_weight_state (path : string) (b : WeightBackend) (g : cg) : Result WeightState :=
  try! value := read_control "failed to read cgroup block I/O weight {}: {error}" path
                  (backend_file b) g in
  parsed (parse_weight_state value).
Definition read_max_state (path : string) (g : cg) : Result IoMaxState :=
  try! value := read_control "failed to read cgroup block I/O limits {}: {error}" path IO_MAX_FILE g in
  parsed (parse_max_state value).

(** **** Mutations *)

Inductive IoMutation : Type :=
  | IoWeight (backend : WeightBackend) (key : WeightKey) (value : Z)
  | IoMaxLimits (device : BlockDevice) (values : IoMaxValues)
  | IoWeightRollback (backend : WeightBackend) (key : WeightKey) (value : option Z)
  | IoMaxRollback (device : BlockDevice) (values : IoMaxValues).
Inductive PreviousValue : Type := PreviousWeight (value : option Z) | PreviousMax (values : IoMaxValues).
Definition io_file (m : IoMutation) : string :=
  match m with
  | IoWeight b _ _ | IoWeightRollback b _ _ => backend_file b
  | IoMaxLimits _ _ | IoMaxRollback _ _ => IO_MAX_FILE
  end.
Definition io_write_value (m : IoMutation) : Result string :=
  match m with
  | IoWeight _ key value => Ok (weight_key_write_value key (uint_to_string value))
  | IoMaxLimits device values | IoMaxRollback device values =>
      Ok (block_device_to_string device +:+ " " +:+ io_values_write_value values)
  | IoWeightRollback _ DefaultWeight (Some value) => Ok (uint_to_string value)
  | IoWeightRollback _ DefaultWeight None =>
      Err (update_error Internal "block I/O default weight has no rollback value")
  | IoWeightRollback _ (DeviceWeight device) (Some value) =>
      Ok (block_device_to_string device +:+ " " +:+ uint_to_string value)
  | IoWeightRollback _ (DeviceWeight device) None =>
      Ok (block_device_to_string device +:+ " default")
  end.
Definition io_mutations (p : BlockIoPlan) (backend : option WeightBackend) : list IoMutation :=
  match backend with
  | Some b =>
      option_list ((λ w, IoWeight b DefaultWeight (backend_encode b w)) <$> bp_default_weight p)
      ++ ((λ e, IoWeight b (DeviceWeight e.1) (backend_encode b e.2)) <$> btree_entries (bp_device_weights p))
  | None => []
  end ++ ((λ e, IoMaxLimits e.1 e.2) <$> btree_entries (bp_max p)).
Record PreparedIoMutation : Type := mkPreparedIo {
  pi_path : string; pi_mutation : IoMutation; pi_previous : PreviousValue
}.
Definition io_is_noop (p : PreparedIoMutation) : bool :=
  match pi_mutation p, pi_previous p with
  | IoWeight _ _ value, PreviousWeight previous => bool_decide (previous = Some value)
  | IoMaxLimits _ values, PreviousMax previous =>
      forallb (λ e, bool_decide (io_values_get previous e.1 = Some e.2)) values
  | _, _ => false
  end.
Definition io_rollback_mutation (p : PreparedIoMutation) : Result IoMutation :=
  match pi_mutation p, pi_previous p with
  | IoWeight backend key _, PreviousWeight previous => Ok (IoWeightRollback backend key previous)
  | IoMaxLimits device _, PreviousMax previous => Ok (IoMaxRollback device previous)
  | _, _ => Err (update_error Internal "block I/O update retained incompatible rollback state")
  end.

Definition io_write_mutation (path : string) (m : IoMutation) (g : cg) : Result () * cg :=
  match io_write_value m with
  | Err e => (Err e, g)
  | Ok value =>
      match cg_write path (io_file m) value g with
      | (Ok _, g) => (Ok (), g)
      | (Err f, g) => (Err (update_error (match wf_kind f with IoNotFound => Unsupported | _ => PermissionDenied end)
                              "failed to apply cgroup block I/O setting {}={value}: {error}"), g)
      end
  end.
Definition weight_of (state : WeightState) (key : WeightKey) : option Z :=
  match key with DefaultWeight => ws_default state | DeviceWeight device => ws_devices state !! device end.
Definition verify_weight (state : WeightState) (key : WeightKey) (expected : option Z) : Result () :=
  reject_if (negb (bool_decide (weight_of state key = expected)))
    (update_error FailedPrecondition
       "cgroup block I/O weight read back as {actual:?}, expected {expected:?}").
Definition verify_max_values (state : IoMaxState) (d : BlockDevice) (expected : IoMaxValues) : Result () :=
  reject_if (existsb (λ e, negb (bool_decide (io_max_value state d e.1 = e.2))) expected)
    (update_error FailedPrecondition
       "cgroup block I/O limit {device} {} read back as {actual}, expected {expected}").
Definition io_verify_mutation (path : string) (m : IoMutation) (g : cg) : Result () :=
  match m with
  | IoWeight b key value => try! state := read_weight_state path b g in verify_weight state key (Some value)
  | IoWeightRollback b key value => try! state := read_weight_state path b g in verify_weight state key value
  | IoMaxLimits device values | IoMaxRollback device values =>
      try! state := read_max_state path g in verify_max_values state device values
  end.
Definition io_undo (p : PreparedIoMutation) (g : cg) : option string * cg :=
  match io_rollback_mutation p with
  | Err e => (Some (message e), g)
  | Ok rollback =>
      match io_write_mutation (pi_path p) rollback g with
      | (Err e, g) => (Some (message e), g)
      | (Ok _, g) => match io_verify_mutation (pi_path p) rollback g with
                     | Err e => (Some (message e), g)
                     | Ok _ => (None, g)
                     end
      end
  end.
#[global] Instance Mutation_io : Mutation PreparedIoMutation :=
  Build_Mutation _ io_is_noop (λ p, io_write_mutation (pi_path p) (pi_mutation p))
    (λ p, io_verify_mutation (pi_path p) (pi_mutation p)) io_undo.

Definition select_weight_backend (p : BlockIoPlan) (path : string) (g : cg) : Result (option WeightBackend) :=
  let device_weights := negb (bool_decide (bp_device_weights p = ∅)) in
  if bool_decide (bp_default_weight p = None) && negb device_weights then Ok None
  else
    try! bfq := read_optional path BFQ_WEIGHT_FILE g in
    try! usable := match bfq with
                   | Some contents => try! state := parsed (parse_weight_state contents) in
                                      Ok (negb device_weights || ws_device_overrides_supported state)
                   | None => Ok false
                   end in
    if usable then Ok (Some Bfq)
    else
      try! generic := read_optional path GENERIC_WEIGHT_FILE g in
      match generic with
      | Some contents => try! _state := parsed (parse_weight_state contents) in Ok (Some Generic)
      | None => Err (update_error Unsupported
                       (if device_weights
                        then "cgroup v2 per-device block I/O weight control is unavailable"
                        else "cgroup v2 block I/O weight control is unavailable"))
      end.
Definition io_previous (weights : option WeightState) (limits : option IoMaxState) (m : IoMutation)
    : Result PreviousValue :=
  match m with
  | IoWeight _ key _ =>
      try! state := ok_or (update_error Internal "block I/O weight mutation has no prepared weight state")
                      weights in
      Ok (PreviousWeight (weight_of state key))
  | IoMaxLimits device values =>
      try! state := ok_or (update_error Internal
                             "block I/O throttle mutation has no prepared io.max state") limits in
      Ok (PreviousMax ((λ e, (e.1, io_max_value state device e.1)) <$> values))
  | IoWeightRollback _ _ _ | IoMaxRollback _ _ =>
      Err (update_error Internal "new block I/O plan unexpectedly contains rollback mutations")
  end.
Definition io_prepare_update (p : BlockIoPlan) (path : string) (g : cg) : Result (list PreparedIoMutation) :=
  if block_io_is_empty p then Ok []
  else
    try! backend := select_weight_backend p path g in
    try! weights := match backend with
                    | Some b => try! state := read_weight_state path b g in Ok (Some state)
                    | None => Ok None
                    end in
    try! limits := if bool_decide (size (bp_max p) = 0%nat) then Ok None
                   else try! state := read_max_state path g in Ok (Some state) in
    rmap (λ m, try! previous := io_previous weights limits m in Ok (mkPreparedIo path m previous))
      (io_mutations p backend).
Definition io_apply (prepared : list PreparedIoMutation) (g : cg)
    : Result (list PreparedIoMutation) * cg := apply_mutations [] prepared g.

(** *** Updates *)

(** [ControlWorkloadCgroup] and the parts of a [CgroupHandle] that an update
    without device rules reads *)
Record ControlWorkloadCgroup : Type := mkControlWorkload {
  cw_management : string; cw_headroom : ControlHeadroom
}.
Record CgroupHandle : Type := mkCgroupHandle {
  gh_leaf : string; gh_control_workload : option ControlWorkloadCgroup
}.

Section update.
Context `{AE : !AgentEnv} (linux_support_validate : LinuxResources → Result ()).

Definition rollback_update (applied : list PreparedUpdateSetting)
    (block_io : option (list PreparedIoMutation)) (rdma : option (list PreparedRdmaMutation))
    (original : Error) (g : cg) : Error * cg :=
  let '(rdma_failures, g) := rollback_mutations (default [] rdma) g in
  let '(block_io_failures, g) := rollback_mutations (default [] block_io) g in
  let '(failures, g) := rollback_mutations applied g in
  (report_failures original (rdma_failures ++ block_io_failures ++ failures), g).

(** What an update writes, read and checked before the first write *)
Record PreparedUpdate : Type := mkPreparedUpdate {
  px_settings : list PreparedUpdateSetting;
  px_block_io : list PreparedIoMutation;
  px_rdma : list PreparedRdmaMutation
}.
Definition prepare_management (plan : CgroupUpdatePlan) (layout : option ControlWorkloadCgroup) (g : cg)
    : Result (list PreparedUpdateSetting) :=
  match layout with
  | None => Ok []
  | Some layout =>
      try! management := management_plan plan (cw_headroom layout) in
      try! l := settings management (cw_management layout) true g in
      prepare_update_settings (cw_management layout) l g
  end.
Definition prepare_controls (h : CgroupHandle) (plan : CgroupUpdatePlan) (g : cg) : Result PreparedUpdate :=
  try! management := prepare_management plan (gh_control_workload h) g in
  try! l := settings plan (gh_leaf h) (bool_decide (gh_control_workload h = None)) g in
  try! leaf := prepare_update_settings (gh_leaf h) l g in
  try! block_io := io_prepare_update (up_block_io plan) (gh_leaf h) g in
  try! rdma := rdma_prepare_update (up_rdma plan) (gh_leaf h) g in
  Ok (mkPreparedUpdate (management ++ leaf) block_io rdma).
Definition apply_update (p : PreparedUpdate) (g : cg) : Result () * cg :=
  match apply_prepared_update_settings (px_settings p) g with
  | (Err e, g) => (Err e, g)
  | (Ok applied, g) =>
      match io_apply (px_block_io p) g with
      | (Err e, g) => let '(e, g) := rollback_update applied None None e g in (Err e, g)
      | (Ok applied_block_io, g) =>
          match rdma_apply (px_rdma p) g with
          | (Err e, g) => let '(e, g) := rollback_update applied (Some applied_block_io) None e g in (Err e, g)
          | (Ok _, g) => (Ok (), g)
          end
      end
  end.
(** [CgroupHandle::update] of resources without device rules *)
Definition update (h : CgroupHandle) (r : LinuxResources) (g : cg) : Result () * cg :=
  match (try! plan := from_resources linux_support_validate r in prepare_controls h plan g) with
  | Err e => (Err e, g)
  | Ok prepared => apply_update prepared g
  end.
Definition update_from_leaf (leaf : string) (r : LinuxResources) (g : cg) : Result () * cg :=
  if rs_has_devices r
  then (Err (update_error Unsupported
    "Host-reopen resource update cannot change device policy on {}; durable recovery retained the cgroup leaf without device-authority state"), g)
  else match cg_open leaf "cgroup.procs" g with
       | Err _ => (Err (update_error Unavailable
           "failed to open durable recovery cgroup leaf {} for resource update: {error}"), g)
       | Ok _ => update (mkCgroupHandle leaf None) r g
       end.
End update.
End updates.

(** ** What an update guarantees *)

(** *** Transactions *)

Section transaction_lemmas.
Context `{FS : CgroupFs} `{!Mutation M} {A : Type} (obs : cg → A).

(** A change that neither its writes nor its undoing show in the observation *)
Definition apart (m : M) : Prop :=
  (∀ g r g', mu_write m g = (r, g') → obs g' = obs g)
  ∧ (∀ g f g', mu_undo m g = (f, g') → obs g' = obs g).
(** A change whose undoing restores the value [a], and whose failed write is
    not observed *)
Definition restores (a : A) (m : M) : Prop :=
  (∀ g e g', mu_write m g = (Err e, g') → obs g' = obs g)
  ∧ (∀ g g', mu_undo m g = (None, g') → obs g' = a).

Lemma undo_all_apart l g fs g' :
  Forall apart l → undo_all l g = (fs, g') → obs g' = obs g.
Proof.
  intros Hl. revert g fs g'. induction Hl as [|m l Hm _ IH]; intros g fs g' H; simpl in H; [congruence|].
  destruct (mu_undo m g) as [f g1] eqn:E1, (undo_all l g1) as [fs1 g2] eqn:E2. simplify_eq.
  rewrite (IH _ _ _ E2). by apply (proj2 Hm) in E1.
Qed.
(** [B]: an earlier change that can be undone shows *)
Lemma undo_all_restores (B : Prop) a l g g' :
  Forall (λ m, apart m ∨ restores a m) l → undo_all l g = ([], g') →
  (obs g = a ∨ B) ∨ Exists (restores a) l → obs g' = a ∨ B.
Proof.
  intros Hl. revert g g'. induction Hl as [|m l Hm Hl IH]; intros g g' H Ha; simpl in H.
  { simplify_eq. destruct Ha as [|Ha]; [done|inversion Ha]. }
  destruct (mu_undo m g) as [f g1] eqn:E1, (undo_all l g1) as [fs1 g2] eqn:E2.
  injection H as Hf ->. apply app_eq_nil in Hf as [Hf ->]. destruct f; [done|].
  apply (IH _ _ E2).
  destruct Ha as [[Ha|Ha]|Ha].
  - left. left. destruct Hm as [Hm|Hm]; [by rewrite (proj2 Hm _ _ _ E1)|by apply (proj2 Hm) in E1].
  - left. by right.
  - apply Exists_cons in Ha as [Ha|Ha]; [left; left; by apply (proj2 Ha) in E1|by right].
Qed.

(** The observation is as it was, or a change that restores it was applied. *)
Definition intact (B : Prop) (a : A) (applied : list M) (g : cg) : Prop :=
  Forall (λ m, apart m ∨ restores a m) applied ∧ ((obs g = a ∨ B) ∨ Exists (restores a) applied).
Lemma rollback_mutations_intact B a applied g g' :
  intact B a applied g → rollback_mutations applied g = ([], g') → obs g' = a ∨ B.
Proof.
  intros [Hl Ha] H. eapply undo_all_restores; [|exact H|]; [by rewrite Forall_reverse|].
  destruct Ha as [Ha|Ha]; [by left|right]. apply Exists_exists in Ha as (m & Hm & ?).
  apply Exists_exists. exists m. by rewrite elem_of_reverse.
Qed.
Lemma rollback_intact B a applied e g e' g' :
  intact B a applied g → rollback_after_failure applied e g = (e', g') →
  code e' ≠ Internal → obs g' = a ∨ B.
Proof.
  intros Hi H Hc. unfold rollback_after_failure in H.
  destruct (rollback_mutations _ g) as [fs g1] eqn:E. injection H as <- <-.
  unfold report_failures in Hc. case_bool_decide as Hfs; [|done]. subst fs.
  by eapply rollback_mutations_intact.
Qed.
Lemma intact_snoc B a applied m g g' :
  intact B a applied g → (apart m ∨ restores a m) → mu_write m g = (Ok (), g') →
  intact B a (applied ++ [m]) g'.
Proof.
  intros [Hl Ha] Hm H. split; [by apply Forall_app_2; [|constructor]|].
  destruct Hm as [Hm|Hm]; [|right; apply Exists_app; right; by constructor].
  destruct Ha as [Ha|Ha]; [left; by rewrite (proj1 Hm _ _ _ H)|right; apply Exists_app; by left].
Qed.
(** A failed transaction is not observed, or its error is internal; after a
    successful one, the changes made can still be undone. *)
Lemma apply_mutations_intact B a applied prepared g r g' :
  intact B a applied g → Forall (λ m, apart m ∨ restores a m) prepared →
  apply_mutations applied prepared g = (r, g') →
  match r with Ok l => intact B a l g' | Err e => code e ≠ Internal → obs g' = a ∨ B end.
Proof.
  intros Hi Hp. revert applied g Hi. induction Hp as [|m l Hm Hl IH]; intros applied g Hi H; simpl in H.
  { by simplify_eq. }
  destruct (mu_noop m); [by eapply IH|].
  destruct (mu_write m g) as [[[]|e] g1] eqn:E1.
  - pose proof (intact_snoc _ _ _ _ _ _ Hi Hm E1) as Hi1.
    destruct (mu_verify m g1) as [|e]; [by eapply IH|].
    destruct (rollback_after_failure _ e g1) as [e' g2] eqn:E2. simplify_eq. by eapply rollback_intact.
  - destruct (rollback_after_failure _ e g1) as [e' g2] eqn:E2. simplify_eq.
    eapply rollback_intact; [|exact E2]. destruct Hi as [Hl' Ha]. split; [done|].
    destruct Hm as [Hm|Hm]; by rewrite (proj1 Hm _ _ _ E1).
Qed.
Lemma apply_mutations_apart applied prepared g r g' :
  Forall apart applied → Forall apart prepared →
  apply_mutations applied prepared g = (r, g') → obs g' = obs g ∧ ∀ l, r = Ok l → Forall apart l.
Proof.
  intros Ha Hp. revert applied g Ha. induction Hp as [|m l Hm Hl IH]; intros applied g Ha H; simpl in H.
  { simplify_eq. split; [done|]. by intros ? [= <-]. }
  destruct (mu_noop m); [by eapply IH|].
  assert (Forall apart (applied ++ [m])) as Ha' by (by apply Forall_app_2; [|constructor]).
  unfold rollback_after_failure, rollback_mutations in H.
  destruct (mu_write m g) as [[[]|e] g1] eqn:E1; [destruct (mu_verify m g1) as [|e]|].
  - apply IH in H as [-> ?]; [|done]. by rewrite (proj1 Hm _ _ _ E1).
  - destruct (undo_all _ g1) as [fs g2] eqn:E2. simplify_eq. split; [|done].
    apply undo_all_apart in E2; [|by rewrite Forall_reverse]. by rewrite E2, (proj1 Hm _ _ _ E1).
  - destruct (undo_all _ g1) as [fs g2] eqn:E2. simplify_eq. split; [|done].
    apply undo_all_apart in E2; [|by rewrite Forall_reverse]. by rewrite E2, (proj1 Hm _ _ _ E1).
Qed.
(** A successful transaction brings each of its changes about. *)
Lemma apply_mutations_effect a applied l1 m l2 g l g' :
  Forall apart l1 → Forall apart l2 → (mu_noop m = true → obs g = a) →
  (∀ g1, mu_verify m g1 = Ok () → obs g1 = a) →
  apply_mutations applied (l1 ++ m :: l2) g = (Ok l, g') → obs g' = a.
Proof.
  assert (∀ applied l2 g, Forall apart l2 → apply_mutations applied l2 g = (Ok l, g') → obs g' = obs g) as Hrest.
  { clear. intros applied l2 g Hl. revert applied g.
    induction Hl as [|m l2 Hm _ IH]; intros applied g H; simpl in H; [by simplify_eq|].
    destruct (mu_noop m); [by eapply IH|]. unfold rollback_after_failure, rollback_mutations in H.
    destruct (mu_write m g) as [[[]|e] g1] eqn:E1;
      [destruct (mu_verify m g1); [|by destruct (undo_all _ g1)]|by destruct (undo_all _ g1)].
    apply IH in H as ->. by rewrite (proj1 Hm _ _ _ E1). }
  intros Hl1 Hl2 Hn Hv. revert applied g Hn. induction Hl1 as [|m1 l1 Hm1 _ IH]; intros applied g Hn H; simpl in H.
  - destruct (mu_noop m) eqn:En.
    + rewrite (Hrest _ _ _ Hl2 H). by apply Hn.
    + unfold rollback_after_failure, rollback_mutations in H.
      destruct (mu_write m g) as [[[]|e] g1] eqn:E1; [|by destruct (undo_all _ g1)].
      destruct (mu_verify m g1) as [[]|] eqn:E2; [|by destruct (undo_all _ g1)].
      rewrite (Hrest _ _ _ Hl2 H). by apply Hv.
  - destruct (mu_noop m1); [by eapply IH|]. unfold rollback_after_failure, rollback_mutations in H.
    destruct (mu_write m1 g) as [[[]|e] g1] eqn:E1; [|by destruct (undo_all _ g1)].
    destruct (mu_verify m1 g1) as [[]|] eqn:E2; [|by destruct (undo_all _ g1)].
    eapply IH; [|exact H]. intros Ht. rewrite (proj1 Hm1 _ _ _ E1). by apply Hn.
Qed.
End transaction_lemmas.

(** *** What can be observed of the controls *)

Inductive RdmaField : Type := HcaHandle | HcaObject.
Definition rdma_field (f : RdmaField) (l : RdmaLimits) : option RdmaLimit :=
  match f with HcaHandle => rl_hca_handles l | HcaObject => rl_hca_objects l end.
Inductive Observable : Type :=
  | Reading (path file : string)
  | RdmaLimitOf (path device : string) (field : RdmaField)
  | IoLimitOf (path : string) (device : BlockDevice) (field : IoMaxField)
  | WeightOf (path : string) (backend : WeightBackend) (key : WeightKey).
Inductive Observation : Type :=
  | ObsText (value : option string) | ObsRdma (value : option RdmaLimit)
  | ObsIo (value : option IoLimit) | ObsWeight (value : option Z).
Definition keyed_files : list string := [RDMA_MAX_FILE; IO_MAX_FILE; BFQ_WEIGHT_FILE; GENERIC_WEIGHT_FILE].
Definition control_of (o : Observable) : string * string :=
  match o with
  | Reading path file => (path, file)
  | RdmaLimitOf path _ _ => (path, RDMA_MAX_FILE)
  | IoLimitOf path _ _ => (path, IO_MAX_FILE)
  | WeightOf path backend _ => (path, backend_file backend)
  end.
Definition result_option {A} (r : Result A) : option A := match r with Ok a => Some a | Err _ => None end.
Definition io_mentions (m : IoMutation) (o : Observable) : Prop :=
  match m, o with
  | (IoWeight b key _ | IoWeightRollback b key _), WeightOf _ b' key' => b' = b ∧ key' = key
  | (IoMaxLimits d values | IoMaxRollback d values), IoLimitOf _ d' f => d' = d ∧ f ∈ values.*1
  | _, _ => False
  end.

#[global] Instance io_mentions_dec m o : Decision (io_mentions m o).
Proof. destruct m, o; simpl; apply _. Defined.

Section observations.
Context `{FS : CgroupFs} `{AE : !AgentEnv}.

Definition reading (path file : string) (g : cg) : option string :=
  match cg_read path file g with Ok value => Some (normalize_cgroup_value value) | Err _ => None end.
Definition observe (o : Observable) (g : cg) : Observation :=
  match o with
  | Reading path file => ObsText (reading path file g)
  | RdmaLimitOf path device f =>
      ObsRdma (result_option (read_rdma_state path g) ≫= λ state, state !! device ≫= rdma_field f)
  | IoLimitOf path device f =>
      ObsIo ((λ state, io_max_value state device f) <$> result_option (read_max_state path g))
  | WeightOf path backend key =>
      ObsWeight (result_option (read_weight_state path backend g) ≫= λ state, weight_of state key)
  end.

(** What the kernel documents of control files: a refused write changes
    nothing; a write changes the controls it touches, its own and, as [cpu.idle]
    does with [cpu.weight], perhaps others; a line written to a keyed file
    changes the entries it names. *)
Class CgroupLaws : Type := {
  touches : string * string → string * string → bool;
  failed_write : ∀ p f v g e g' p' f',
    cg_write p f v g = (Err e, g') → cg_read p' f' g' = cg_read p' f' g;
  write_touches : ∀ p f v g g' p' f',
    cg_write p f v g = (Ok (), g') → touches (p, f) (p', f') = false →
    cg_read p' f' g' = cg_read p' f' g;
  rdma_write_keyed : ∀ p m g g' d f,
    cg_write p RDMA_MAX_FILE (rdma_write_value m) g = (Ok (), g') →
    d ≠ rm_device m ∨ rdma_field f (rm_limits m) = None →
    observe (RdmaLimitOf p d f) g' = observe (RdmaLimitOf p d f) g;
  io_write_keyed : ∀ p m v g g' o,
    io_write_value m = Ok v → cg_write p (io_file m) v g = (Ok (), g') →
    (∀ path file, o ≠ Reading path file) →
    control_of o = (p, io_file m) → ¬ io_mentions m o → observe o g' = observe o g
}.
End observations.

(** *** Single changes *)

Section changes.
Context `{FS : CgroupFs} `{AE : !AgentEnv} `{L : !CgroupLaws}.

(** No write to another control touches it *)
Definition own (o : Observable) : Prop := ∀ w, touches w (control_of o) = true → w = control_of o.

Lemma observe_reads o g g' :
  cg_read (control_of o).1 (control_of o).2 g' = cg_read (control_of o).1 (control_of o).2 g →
  observe o g' = observe o g.
Proof.
  intros H. destruct o; simpl in H |- *; unfold reading, read_rdma_state, read_max_state, read_weight_state, read_control;
    by rewrite H.
Qed.
Lemma failed_write_observe p f v g e g' o : cg_write p f v g = (Err e, g') → observe o g' = observe o g.
Proof. intros H. apply observe_reads. by eapply failed_write. Qed.
Lemma write_observe p f v g r g' o :
  own o → control_of o ≠ (p, f) → cg_write p f v g = (r, g') → observe o g' = observe o g.
Proof.
  intros Ho Hne H. destruct r as [[]|e]; [|by eapply failed_write_observe].
  apply observe_reads. eapply write_touches; [done|]. apply not_true_is_false. intros Ht.
  rewrite <- surjective_pairing in Ht. apply Ho in Ht. by rewrite Ht in Hne.
Qed.

Lemma setting_apart p o :
  own o → control_of o ≠ (pu_path p, cs_file (pu_setting p)) → apart (observe o) p.
Proof.
  intros Ho Hne. split; simpl; unfold write_setting, restore_setting.
  - intros g r g' H. destruct (cg_write _ _ _ g) as [[[]|e] g1] eqn:E; simplify_eq; by eapply write_observe.
  - intros g r g' H. destruct (pu_old p) as [old|]; [|by simplify_eq].
    destruct (cg_write _ _ _ g) as [[[]|e] g1] eqn:E.
    + assert (g' = g1) as -> by (repeat case_match; congruence). by eapply write_observe.
    + simplify_eq. by eapply write_observe.
Qed.
Lemma setting_restores p g0 :
  pu_old p = None ∨ pu_old p = reading (pu_path p) (cs_file (pu_setting p)) g0 →
  let o := Reading (pu_path p) (cs_file (pu_setting p)) in restores (observe o) (observe o g0) p.
Proof.
  intros Hold o. subst o. split; simpl; unfold write_setting, restore_setting.
  - intros g e g' H. destruct (cg_write _ _ _ g) as [[[]|e'] g1] eqn:E; simplify_eq.
    by apply (failed_write_observe _ _ _ _ _ _ (Reading (pu_path p) (cs_file (pu_setting p)))) in E.
  - intros g g' H. destruct (pu_old p) as [old|] eqn:Ho; [|done].
    destruct Hold as [|Hold]; [done|]. rewrite <- Hold.
    destruct (cg_write _ _ _ g) as [[[]|e'] g1] eqn:E; [|done].
    destruct (cg_read _ _ g1) as [actual|] eqn:Er; [|done]. case_bool_decide; simplify_eq.
    unfold reading. by rewrite Er.
Qed.
Lemma setting_verified p g :
  cs_readback (pu_setting p) = Exact → verify_setting p g = Ok () →
  reading (pu_path p) (cs_file (pu_setting p)) g = Some (normalize_cgroup_value (cs_value (pu_setting p))).
Proof.
  unfold verify_setting, reading. intros ->. destruct (cg_read _ _ g); [|done]. intros H. inv_ok.
  case_bool_decide; [by f_equal|done].
Qed.

Lemma rdma_write_apart path m g r g' o :
  own o → (control_of o = (path, RDMA_MAX_FILE) →
           ∃ d f, o = RdmaLimitOf path d f ∧ (d ≠ rm_device m ∨ rdma_field f (rm_limits m) = None)) →
  rdma_write_mutation path m g = (r, g') → observe o g' = observe o g.
Proof.
  unfold rdma_write_mutation. intros Ho Hm H.
  destruct (cg_write _ _ _ g) as [[[]|e] g1] eqn:E; simplify_eq; [|by eapply failed_write_observe].
  destruct (decide (control_of o = (path, RDMA_MAX_FILE))) as [Hc|]; [|by eapply write_observe].
  destruct (Hm Hc) as (d & f & -> & ?). by eapply rdma_write_keyed.
Qed.
Lemma rdma_undo_write p g f g' :
  rdma_undo p g = (f, g') → ∃ r, rdma_write_mutation (pr_path p) (rdma_rollback_mutation p) g = (r, g')
    ∧ (f = None → r = Ok () ∧ rdma_verify_mutation (pr_path p) (rdma_rollback_mutation p) g' = Ok ()).
Proof.
  unfold rdma_undo. intros H. destruct (rdma_write_mutation _ _ g) as [[[]|e] g1] eqn:E; [|simplify_eq; eauto; by eexists].
  destruct (rdma_verify_mutation _ _ g1) as [[]|e] eqn:Ev; simplify_eq; eexists; (split; [done|]); done.
Qed.
(** The previous limits are those of the fields that change *)
Definition rdma_previous_ok (p : PreparedRdmaMutation) (g0 : cg) : Prop :=
  ∀ f, match rdma_field f (rm_limits (pr_mutation p)) with
       | None => rdma_field f (pr_previous p) = None
       | Some _ => ∃ l, rdma_field f (pr_previous p) = Some l
                        ∧ observe (RdmaLimitOf (pr_path p) (rm_device (pr_mutation p)) f) g0 = ObsRdma (Some l)
       end.
Lemma rdma_apart p g0 o :
  rdma_previous_ok p g0 → own o →
  (control_of o = (pr_path p, RDMA_MAX_FILE) →
   ∃ d f, o = RdmaLimitOf (pr_path p) d f
     ∧ (d ≠ rm_device (pr_mutation p) ∨ rdma_field f (rm_limits (pr_mutation p)) = None)) →
  apart (observe o) p.
Proof.
  intros Hp Ho Hm. split; simpl.
  - intros g r g' H. by eapply rdma_write_apart.
  - intros g r g' H. apply rdma_undo_write in H as (r' & H & _). eapply rdma_write_apart; [done| |done].
    intros Hc. destruct (Hm Hc) as (d & f & -> & Hd). exists d, f. split; [done|]. simpl.
    destruct Hd as [|Hd]; [by left|right]. specialize (Hp f). by rewrite Hd in Hp.
Qed.
Lemma rdma_verified path m f l g :
  rdma_verify_mutation path m g = Ok () → rdma_field f (rm_limits m) = Some l →
  observe (RdmaLimitOf path (rm_device m) f) g = ObsRdma (Some l).
Proof.
  unfold rdma_verify_mutation, rdma_verify_state, rdma_matches_requested. intros H Hf. inv_ok. simpl.
  rewrite H. simpl. rewrite H0. simpl. f_equal. apply negb_false_iff, andb_true_iff in H1 as [H1 H2].
  destruct f; simpl in *; rewrite Hf in *; simpl in *; by apply bool_decide_eq_true in H1, H2 || (by apply bool_decide_eq_true in H1) || (by apply bool_decide_eq_true in H2).
Qed.
Lemma rdma_restores p g0 f :
  rdma_previous_ok p g0 → is_Some (rdma_field f (rm_limits (pr_mutation p))) →
  let o := RdmaLimitOf (pr_path p) (rm_device (pr_mutation p)) f in restores (observe o) (observe o g0) p.
Proof.
  intros Hp [x Hx] o. subst o. split.
  - intros g e g' H. cbn [mu_write Mutation_rdma] in H. unfold rdma_write_mutation in H.
    destruct (cg_write _ _ _ g) as [[[]|e'] g1] eqn:E; simplify_eq. by eapply failed_write_observe.
  - intros g g' H. cbn [mu_undo Mutation_rdma] in H. apply rdma_undo_write in H as (r & _ & H).
    destruct (H eq_refl) as [_ Hv]. specialize (Hp f). rewrite Hx in Hp. destruct Hp as (l & Hl & ->).
    by apply (rdma_verified _ (rdma_rollback_mutation p)).
Qed.

Lemma io_write_apart path m g r g' o :
  own o → (control_of o = (path, io_file m) →
           (∀ path file, o ≠ Reading path file) ∧ ¬ io_mentions m o) →
  io_write_mutation path m g = (r, g') → observe o g' = observe o g.
Proof.
  unfold io_write_mutation. intros Ho Hm H. destruct (io_write_value m) as [v|] eqn:Ev; [|by simplify_eq].
  destruct (cg_write _ _ _ g) as [[[]|e] g1] eqn:E; simplify_eq; [|by eapply failed_write_observe].
  destruct (decide (control_of o = (path, io_file m))) as [Hc|]; [|by eapply write_observe].
  destruct (Hm Hc). by eapply io_write_keyed.
Qed.
Lemma io_failed_write path m g e g' o : io_write_mutation path m g = (Err e, g') → observe o g' = observe o g.
Proof.
  unfold io_write_mutation. intros H. destruct (io_write_value m); [|by simplify_eq].
  destruct (cg_write _ _ _ g) as [[[]|] g1] eqn:E; simplify_eq. by eapply failed_write_observe.
Qed.
Lemma io_undo_write p g f g' :
  io_undo p g = (f, g') →
  (g' = g ∧ f ≠ None)
  ∨ ∃ m r, io_rollback_mutation p = Ok m ∧ io_write_mutation (pi_path p) m g = (r, g')
      ∧ (f = None → io_verify_mutation (pi_path p) m g' = Ok ()).
Proof.
  unfold io_undo. intros H. destruct (io_rollback_mutation p) as [m|]; [|simplify_eq; by left].
  right. exists m. destruct (io_write_mutation _ _ g) as [[[]|e] g1] eqn:E; [|simplify_eq; by eexists].
  destruct (io_verify_mutation _ _ g1) as [[]|e] eqn:Ev; simplify_eq; by eexists.
Qed.
(** The previous value of what changes *)
Definition io_previous_ok (p : PreparedIoMutation) (g0 : cg) : Prop :=
  match pi_mutation p, pi_previous p with
  | IoWeight b key _, PreviousWeight previous => observe (WeightOf (pi_path p) b key) g0 = ObsWeight previous
  | IoMaxLimits d values, PreviousMax previous =>
      previous.*1 = values.*1 ∧
      (∀ f l, (f, l) ∈ previous → observe (IoLimitOf (pi_path p) d f) g0 = ObsIo (Some l))
  | _, _ => False
  end.
Lemma io_rollback_mentions p g0 m o :
  io_previous_ok p g0 → io_rollback_mutation p = Ok m →
  io_file m = io_file (pi_mutation p) ∧ (io_mentions m o → io_mentions (pi_mutation p) o).
Proof.
  unfold io_previous_ok, io_rollback_mutation. destruct (pi_mutation p), (pi_previous p); try done;
    intros Hp ?; simplify_eq; split; try done.
  destruct Hp as [Hp _]. destruct o; simpl; try done. by rewrite Hp.
Qed.
Lemma io_apart p g0 o :
  io_previous_ok p g0 → own o →
  (control_of o = (pi_path p, io_file (pi_mutation p)) →
   (∀ path file, o ≠ Reading path file) ∧ ¬ io_mentions (pi_mutation p) o) →
  apart (observe o) p.
Proof.
  intros Hp Ho Hm. split.
  - intros g r g' H. by eapply io_write_apart.
  - intros g r g' H. apply io_undo_write in H as [[-> _]|(m & r' & Hr & H & _)]; [done|].
    destruct (io_rollback_mentions p g0 m o Hp Hr) as [Hf Hi].
    eapply io_write_apart; [done| |done]. rewrite Hf. intros Hc. destruct (Hm Hc) as [? Hno].
    split; [done|]. by intros ?%Hi.
Qed.
Lemma io_max_verified path m d values f l g :
  m = IoMaxLimits d values ∨ m = IoMaxRollback d values → (f, l) ∈ values →
  io_verify_mutation path m g = Ok () → observe (IoLimitOf path d f) g = ObsIo (Some l).
Proof.
  intros Hm Hf H. assert (∃ state, read_max_state path g = Ok state ∧ verify_max_values state d values = Ok ())
    as (state & Hs & Hv) by (destruct Hm as [-> | ->]; simpl in H; inv_ok; eauto).
  simpl. rewrite Hs. simpl. unfold verify_max_values in Hv. inv_ok. do 2 f_equal.
  destruct (decide (io_max_value state d f = l)) as [|Hne]; [done|exfalso].
  assert (existsb (λ e, negb (bool_decide (io_max_value state d e.1 = e.2))) values = true) as Hx; [|by rewrite Hx in Hv].
  apply existsb_exists. exists (f, l). split; [by apply list_elem_of_In|]. simpl. by rewrite bool_decide_false.
Qed.
Lemma io_weight_verified path m b key v g :
  m = IoWeightRollback b key v ∨ (∃ w, v = Some w ∧ m = IoWeight b key w) →
  io_verify_mutation path m g = Ok () → observe (WeightOf path b key) g = ObsWeight v.
Proof.
  intros Hm H. assert (∃ state, read_weight_state path b g = Ok state ∧ verify_weight state key v = Ok ())
    as (state & Hs & Hv).
  { destruct Hm as [-> |(w & -> & ->)]; simpl in H; inv_ok; eauto. }
  simpl. rewrite Hs. simpl. unfold verify_weight in Hv. inv_ok.
  by apply negb_false_iff, bool_decide_eq_true in Hv as ->.
Qed.
Lemma io_restores p g0 o :
  io_previous_ok p g0 → io_mentions (pi_mutation p) o → control_of o = (pi_path p, io_file (pi_mutation p)) →
  restores (observe o) (observe o g0) p.
Proof.
  intros Hp Hm Hc. split; [intros g e g' H; exact (io_failed_write _ _ _ _ _ _ H)|].
  intros g g' H. apply io_undo_write in H as [[_ ?]|(m & r & Hr & _ & Hv)]; [done|]. specialize (Hv eq_refl).
  unfold io_previous_ok, io_rollback_mutation in *.
  destruct (pi_mutation p) as [b key v|d values| |], (pi_previous p) as [prev|prev]; try done; simplify_eq.
  - destruct o; try done. simpl in Hm, Hc. destruct Hm as [-> ->]. injection Hc as ->. rewrite Hp.
    eapply io_weight_verified; [by left|exact Hv].
  - destruct o as [| |path d' f|]; try done. simpl in Hm, Hc. destruct Hm as [-> Hf]. injection Hc as ->.
    destruct Hp as [Hk Hp]. rewrite <- Hk in Hf. apply list_elem_of_fmap in Hf as ([f' l] & -> & Hin).
    simpl in *. rewrite (Hp f' l Hin). eapply (io_max_verified _ _ _ prev); [by right|done|exact Hv].
Qed.
End changes.

(** *** What is prepared *)

Section preparation.
Context `{FS : CgroupFs} `{AE : !AgentEnv}.

Definition setting_prepared (path : string) (g : cg) (s : CgroupSetting) (p : PreparedUpdateSetting) : Prop :=
  pu_path p = path ∧ pu_setting p = s
  ∧ (pu_old p = None ∨ pu_old p = reading path (cs_file s) g)
  ∧ (cs_readback s = Exact → pu_old p = reading path (cs_file s) g).
Lemma prepare_settings_spec path l g ps :
  prepare_update_settings path l g = Ok ps → Forall2 (setting_prepared path g) l ps.
Proof.
  unfold prepare_update_settings. intros H%rmap_ok. eapply Forall2_impl; [exact H|].
  intros s p Hp. unfold prepare_update_setting in Hp.
  unfold setting_prepared, reading. destruct (cs_readback s); inv_ok; simpl; repeat split; try done.
  - right. unfold read_required, read_control in *. destruct (cg_read _ _ g); inv_ok. done.
  - unfold read_required, read_control in *. destruct (cg_read _ _ g); inv_ok. done.
  - unfold read_kernel_defined_current in *. destruct (cg_metadata _ _ g); inv_ok.
    destruct (negb (mode_bits MODE_READ _)); inv_ok; [by left|].
    destruct (cg_read _ _ g) as [?|[]]; inv_ok; first [by left | by right].
Qed.
Lemma previous_limit_spec requested current msg p :
  previous_limit requested current msg = Ok p → p = match requested with Some _ => current | None => None end
    ∧ (is_Some requested → is_Some current).
Proof.
  unfold previous_limit. destruct requested; intros H; inv_ok; subst; [by eauto|].
  by split; [|intros [? [=]]].
Qed.
Lemma rdma_previous_for_spec requested current p f :
  rdma_previous_for requested current = Ok p →
  rdma_field f p = match rdma_field f requested with Some _ => rdma_field f current | None => None end
  ∧ (is_Some (rdma_field f requested) → is_Some (rdma_field f current)).
Proof.
  unfold rdma_previous_for. intros H. inv_ok. destruct f; by eapply previous_limit_spec.
Qed.
Lemma prepare_rdma_spec limits path g ps :
  rdma_prepare_update limits path g = Ok ps →
  (pr_mutation <$> ps) = rdma_mutations limits
  ∧ Forall (λ p, pr_path p = path ∧ rdma_previous_ok p g) ps.
Proof.
  unfold rdma_prepare_update. case_bool_decide as Hs; intros H.
  { apply map_size_empty_inv in Hs. subst. by inv_ok. }
  inv_ok. match goal with H : rmap _ _ = Ok _ |- _ => apply rmap_ok in H as Hf end.
  match goal with H : read_rdma_state _ _ = Ok ?s |- _ => rename H into Hr, s into state end.
  clear - Hf Hr. induction Hf as [|m p ms ps Hp _ [IHm IH]]; [done|]. csimpl.
  unfold rdma_prepare_one in Hp. apply rbind_ok in Hp as (current & Hc%ok_or_ok & Hp).
  destruct (rdma_previous_for _ current) as [previous|] eqn:E; inv_ok. csimpl.
  split; [done|]. constructor; [|done]. split; [done|]. intros f. simpl. rewrite Hr. simpl. rewrite Hc. simpl.
  destruct (rdma_previous_for_spec _ _ _ f E) as [-> Hs].
  destruct (rdma_field f (rm_limits m)); [|done]. destruct (Hs ltac:(by eexists)) as [l ->]. by exists l.
Qed.

(** New mutations change weights of the selected backend or throttles. *)
Lemma io_mutations_shape p backend m :
  m ∈ io_mutations p backend →
  (∃ b key v, m = IoWeight b key v ∧ backend = Some b)
  ∨ (∃ d values, m = IoMaxLimits d values ∧ bp_max p !! d = Some values).
Proof.
  unfold io_mutations. intros [Hm|Hm]%elem_of_app.
  - left. destruct backend as [b|]; [|set_solver]. apply elem_of_app in Hm as [Hm|Hm].
    + destruct (bp_default_weight p); set_solver.
    + apply list_elem_of_fmap in Hm as ([d v] & -> & _). naive_solver.
  - right. apply list_elem_of_fmap in Hm as ([d values] & -> & Hd%btree_entries_elem). naive_solver.
Qed.
Lemma prepare_io_spec p path g ps :
  io_prepare_update p path g = Ok ps →
  (∃ backend, select_weight_backend p path g = Ok backend ∧ pi_mutation <$> ps = io_mutations p backend)
  ∧ Forall (λ p, pi_path p = path ∧ io_previous_ok p g) ps.
Proof.
  unfold io_prepare_update. destruct (block_io_is_empty p) eqn:He; intros H.
  { unfold block_io_is_empty in He. rewrite !andb_true_iff, !bool_decide_eq_true in He.
    destruct He as [[Hw Hd] Hs]. apply map_size_empty_inv in Hs. inv_ok. split; [|constructor].
    exists None. unfold select_weight_backend, io_mutations. by rewrite Hw, Hd, Hs. }
  inv_ok. rename x into backend. match goal with H : rmap _ _ = Ok _ |- _ => apply rmap_ok in H as Hf; clear H end.
  assert (∀ m q, m ∈ io_mutations p backend →
    (try! previous := io_previous x0 x1 m in Ok (mkPreparedIo path m previous)) = Ok q →
    pi_mutation q = m ∧ pi_path q = path ∧ io_previous_ok q g) as Hstep.
  { intros m q Hm Hq. inv_ok. split; [done|]. split; [done|]. unfold io_previous_ok. simpl.
    apply io_mutations_shape in Hm as [(b & key & v & -> & ->)|(d & values & -> & Hd)]; simpl in *; inv_ok.
    - match goal with H : read_weight_state _ _ _ = _ |- _ => rewrite H end. done.
    - case_bool_decide; inv_ok.
      split; [by rewrite <- list_fmap_compose|]. intros f l (e & [= -> ->] & _)%list_elem_of_fmap.
      match goal with H : read_max_state _ _ = _ |- _ => rewrite H end. done. }
  assert (∀ ms ps, ms ⊆ io_mutations p backend → Forall2 (λ m q,
    (try! previous := io_previous x0 x1 m in Ok (mkPreparedIo path m previous)) = Ok q) ms ps →
    pi_mutation <$> ps = ms ∧ Forall (λ p, pi_path p = path ∧ io_previous_ok p g) ps) as Hall.
  { clear -Hstep. intros ms ps Hsub Hf. induction Hf as [|m q ms ps Hq _ IH]; [done|]. csimpl.
    destruct (Hstep m q) as (-> & ? & ?); [set_solver|done|]. destruct IH as [-> ?]; [set_solver|]. auto. }
  destruct (Hall _ _ ltac:(done) Hf) as [Hm Hok]. split; [|done]. by exists backend.
Qed.
End preparation.

(** *** The settings of a plan *)

Definition typed_files : list string :=
  ["cpuset.mems"; "cpuset.cpus"; "memory.max"; "memory.low"; "memory.oom.group"; "memory.swap.max";
   "cpu.max"; "cpu.max.burst"; "cpu.weight"; "cpu.idle"; "pids.max"].

Section settings_files.
Context `{FS : CgroupFs}.

Lemma opt_setting_files {A} file (value : A → string) o : cs_file <$> opt_setting file value o = owned_if file o.
Proof. by destruct o. Qed.
Lemma owned_if_sublist {A} file (o : option A) : owned_if file o `sublist_of` [file].
Proof. destruct o; simpl; [done|apply sublist_nil_l]. Qed.

Lemma memory_settings_files p path oom g l :
  memory_settings p path oom g = Ok l →
  cs_file <$> l ≡ₚ owned_if "memory.max" (up_memory_limit p) ++ owned_if "memory.low" (up_memory_reservation p)
                   ++ owned_if "memory.oom.group" (up_memory_limit p)
                   ++ owned_if "memory.swap.max" (up_memory_swap p).
Proof.
  unfold memory_settings. destruct (_ && _ && _) eqn:E; intros H.
  { rewrite !andb_true_iff, !bool_decide_eq_true in E. destruct E as [[-> ->] ->]. by inv_ok. }
  inv_ok. rewrite !fmap_app, opt_setting_files.
  assert (cs_file <$> x2 = owned_if "memory.swap.max" (up_memory_swap p)) as ->.
  { destruct (up_memory_swap p); inv_ok; done. }
  rewrite (assoc_L (++) (owned_if "memory.max" _)). apply Permutation_app; [|done].
  unfold memory_limits. destruct (lowers_finite_limit _ _); rewrite fmap_app, !opt_setting_files;
    [apply Permutation_app_comm|done].
Qed.
Lemma cpu_settings_files p path g l :
  cpu_settings p path g = Ok l →
  cs_file <$> l ≡ₚ owned_if "cpu.max" (match up_cpu_quota p with Some q => Some q | None => up_cpu_period p end)
                   ++ owned_if "cpu.max.burst" (up_cpu_burst p).
Proof.
  unfold cpu_settings. destruct (_ && _ && _) eqn:E; intros H.
  { rewrite !andb_true_iff, !bool_decide_eq_true in E. destruct E as [[-> ->] ->]. by inv_ok. }
  apply rbind_ok in H as (text & _ & H). apply rbind_ok in H as ([quota period] & _ & H). inv_ok.
  assert (∀ v : string, cs_file <$> (if bool_decide (up_cpu_quota p = None) && bool_decide (up_cpu_period p = None)
    then [] else [setting_new "cpu.max" v])
    = owned_if "cpu.max" (match up_cpu_quota p with Some q => Some q | None => up_cpu_period p end)) as Hmax
    by (intros; by destruct (up_cpu_quota p), (up_cpu_period p)).
  match goal with |- context [if exceeds ?a ?b then _ else _] => destruct (exceeds a b) end.
  all: rewrite fmap_app, opt_setting_files, Hmax; by try apply Permutation_app_comm.
Qed.
Lemma huge_tlb_settings_files p path g l :
  huge_tlb_settings p path g = Ok l → cs_file <$> l `sublist_of` huge_tlb_owned_files p
    ∧ Forall (λ s, cs_readback s = Exact) l.
Proof.
  unfold huge_tlb_settings, huge_tlb_owned_files. intros H. inv_ok.
  eapply (rfold_invariant _ (λ pre l, cs_file <$> l `sublist_of` huge_files pre.*1
    ∧ Forall (λ s, cs_readback s = Exact) l)); [| |exact H]; [by split; [apply sublist_nil_l|]|].
  intros pre [size limit] suf l1 l2 _ [Hl He] Hs. unfold huge_tlb_entry in Hs. inv_ok.
  unfold huge_files. rewrite !fmap_app, bind_app. split.
  - apply sublist_app; [done|]. csimpl. destruct x1; csimpl; [done|]. apply sublist_skip, sublist_nil_l.
  - apply Forall_app_2; [done|]. destruct x1; by repeat constructor.
Qed.

(** The typed files that a plan writes *)
Definition plan_files (p : CgroupUpdatePlan) : list string :=
  owned_if "cpuset.mems" (up_cpuset_mems p) ++ owned_if "cpuset.cpus" (up_cpuset_cpus p)
  ++ owned_if "memory.max" (up_memory_limit p) ++ owned_if "memory.low" (up_memory_reservation p)
  ++ owned_if "memory.oom.group" (up_memory_limit p) ++ owned_if "memory.swap.max" (up_memory_swap p)
  ++ owned_if "cpu.max" (match up_cpu_quota p with Some q => Some q | None => up_cpu_period p end)
  ++ owned_if "cpu.max.burst" (up_cpu_burst p) ++ owned_if "cpu.weight" (up_cpu_shares p)
  ++ owned_if "cpu.idle" (up_cpu_idle p) ++ owned_if "pids.max" (up_pids_limit p).
Lemma plan_files_sublist p : plan_files p `sublist_of` typed_files.
Proof.
  unfold plan_files. change typed_files with (["cpuset.mems"] ++ ["cpuset.cpus"] ++ ["memory.max"] ++ ["memory.low"]
    ++ ["memory.oom.group"] ++ ["memory.swap.max"] ++ ["cpu.max"] ++ ["cpu.max.burst"] ++ ["cpu.weight"]
    ++ ["cpu.idle"] ++ ["pids.max"]).
  repeat apply sublist_app; apply owned_if_sublist.
Qed.
Lemma plan_files_owned p : plan_files p ⊆ typed_owned_files p.
Proof. unfold plan_files, typed_owned_files. set_solver. Qed.
Lemma typed_exact p path oom g l :
  (memory_settings p path oom g = Ok l ∨ cpu_settings p path g = Ok l) → Forall (λ s, cs_readback s = Exact) l.
Proof.
  assert (∀ A file (value : A → string) o, Forall (λ s, cs_readback s = Exact) (opt_setting file value o)) as Ho
    by (intros A file value [a|]; simpl; by repeat constructor).
  intros [H|H].
  - unfold memory_settings in H. destruct (_ && _ && _); inv_ok; [done|].
    rewrite !Forall_app. unfold memory_limits. repeat split; [|done|].
    + destruct (lowers_finite_limit _ _); by apply Forall_app_2.
    + destruct (up_memory_swap p); inv_ok; by repeat constructor.
  - unfold cpu_settings in H. destruct (_ && _ && _); inv_ok; [done|].
    destruct x0 as [quota period]. inv_ok.
    match goal with |- context [if exceeds ?a ?b then _ else _] => destruct (exceeds a b) end.
    all: apply Forall_app_2; try done; destruct (_ && _); by repeat constructor.
Qed.
Lemma settings_parts p path oom g l :
  settings p path oom g = Ok l →
  ∃ typed huge, l = typed ++ huge ++ unified_settings (up_unified p)
    ∧ cs_file <$> typed ≡ₚ plan_files p ∧ cs_file <$> huge `sublist_of` huge_tlb_owned_files (up_huge_tlb p)
    ∧ Forall (λ s, cs_readback s = Exact) (typed ++ huge).
Proof.
  unfold settings. intros H. inv_ok. rename x into memory, x0 into cpu, x1 into huge.
  exists (opt_setting "cpuset.mems" id (up_cpuset_mems p) ++ opt_setting "cpuset.cpus" id (up_cpuset_cpus p)
      ++ memory ++ cpu
      ++ opt_setting "cpu.weight" (λ s, uint_to_string (shares_to_weight s)) (up_cpu_shares p)
      ++ opt_setting "cpu.idle" int_to_string (up_cpu_idle p)
      ++ opt_setting "pids.max" cgroup_v2_limit_value (up_pids_limit p)), huge.
  split; [by rewrite <- !app_assoc|].
  match goal with H : huge_tlb_settings _ _ _ = _ |- _ => apply huge_tlb_settings_files in H as [Hh Hx] end.
  match goal with H : memory_settings _ _ _ _ = _ |- _ =>
    pose proof (typed_exact _ _ _ _ _ (or_introl H)) as Hm; apply memory_settings_files in H as Hmf end.
  match goal with H : cpu_settings _ _ _ = _ |- _ =>
    pose proof (typed_exact _ _ oom _ _ (or_intror H)) as Hc; apply cpu_settings_files in H as Hcf end.
  split; [|split; [done|]].
  - rewrite !fmap_app, !opt_setting_files, Hmf, Hcf. unfold plan_files. by rewrite <- !app_assoc.
  - rewrite !Forall_app. repeat split; try done;
      match goal with |- Forall _ (opt_setting _ _ ?o) => destruct o; simpl; by repeat constructor end.
Qed.
Lemma huge_not_typed p f : f ∈ huge_tlb_owned_files p → (f ∉ typed_files) ∧ (f ∉ keyed_files).
Proof.
  unfold huge_tlb_owned_files. intros (size & _ & [-> | ->])%elem_of_huge_files;
    split; intros H; repeat (apply elem_of_cons in H as [H|H]; [discriminate H|]); by apply elem_of_nil in H.
Qed.
Lemma typed_not_keyed f : f ∈ typed_files → f ∉ keyed_files.
Proof.
  intros H1 H2. assert (Forall (λ f, f ∉ keyed_files) typed_files) as Hn by (by apply (bool_decide_unpack _); vm_compute).
  by rewrite Forall_forall in Hn; apply (Hn f).
Qed.

(** The settings of a validated plan name different files. *)
Lemma settings_nodup p path oom g l :
  huge_tlb_wf (up_huge_tlb p) →
  (∀ file, is_Some (up_settings (up_unified p) !! file) → file ∉ typed_owned_files p) →
  settings p path oom g = Ok l → NoDup (cs_file <$> l).
Proof.
  intros Hh Hu (typed & huge & -> & Ht & Hhf & _)%settings_parts. rewrite !fmap_app.
  assert (cs_file <$> unified_settings (up_unified p) = (btree_entries (up_settings (up_unified p))).*1) as ->
    by (unfold unified_settings; by rewrite <- list_fmap_compose).
  assert (∀ f, f ∈ cs_file <$> huge → f ∈ huge_tlb_owned_files (up_huge_tlb p)) as Hsub
    by (intros f; by apply sublist_subseteq).
  apply NoDup_app. repeat split.
  - rewrite Ht. eapply sublist_NoDup; [|apply plan_files_sublist].
    by apply (bool_decide_unpack _); vm_compute.
  - intros f Hf. rewrite Ht in Hf. intros [Hin|Hin%btree_entries_keys]%elem_of_app.
    + apply Hsub, huge_not_typed in Hin as [Hn _]. apply Hn. by eapply sublist_subseteq; [apply plan_files_sublist|].
    + apply (Hu _ Hin). by apply plan_files_owned.
  - apply NoDup_app. repeat split; [|intros f Hf Hin%btree_entries_keys|apply btree_entries_nodup].
    + eapply sublist_NoDup; [|exact Hhf]. by apply huge_tlb_owned_nodup.
    + apply (Hu _ Hin). unfold typed_owned_files. apply Hsub in Hf. rewrite !elem_of_app. tauto.
Qed.
(** The settings that are read back exactly are of plain controls; the others
    are the unified ones. *)
Lemma settings_kinds p path oom g l s :
  settings p path oom g = Ok l → s ∈ l →
  (cs_readback s = Exact ∧ cs_file s ∉ keyed_files)
  ∨ (cs_readback s = KernelDefined ∧ is_Some (up_settings (up_unified p) !! cs_file s)).
Proof.
  intros (typed & huge & -> & Ht & Hhf & He)%settings_parts Hs. rewrite Forall_forall in He.
  rewrite assoc_L in Hs by apply _. apply elem_of_app in Hs as [Hs|Hs].
  - left. split; [by apply He|]. apply elem_of_app in Hs as [Hs|Hs].
    + assert (cs_file s ∈ cs_file <$> typed) as Hf by (by apply list_elem_of_fmap_2). rewrite Ht in Hf.
      apply typed_not_keyed. by eapply sublist_subseteq; [apply plan_files_sublist|].
    + assert (cs_file s ∈ cs_file <$> huge) as Hf by (by apply list_elem_of_fmap_2).
      eapply sublist_subseteq in Hf; [|exact Hhf]. by apply huge_not_typed in Hf as [_ ?].
  - right. unfold unified_settings in Hs.
    apply list_elem_of_fmap in Hs as ([f v] & -> & Hv%btree_entries_elem). split; [done|by eexists].
Qed.
End settings_files.

(** *** Atomicity *)

Lemma apply_update_intact `{FS : CgroupFs} `{AE : !AgentEnv} {A} (obs : cg → A) px g e g' :
  Forall (λ m, apart obs m ∨ restores obs (obs g) m) (px_settings px) →
  Forall (λ m, apart obs m ∨ restores obs (obs g) m) (px_block_io px) →
  Forall (λ m, apart obs m ∨ restores obs (obs g) m) (px_rdma px) →
  apply_update px g = (Err e, g') → code e ≠ Internal → obs g' = obs g.
Proof.
  intros Hs Hi Hr H Hc. unfold apply_update, apply_prepared_update_settings, io_apply, rdma_apply in H.
  destruct (apply_mutations [] (px_settings px) g) as [r1 g1] eqn:E1.
  apply (apply_mutations_intact obs False (obs g)) in E1; [|by split; [|left; left]|done].
  destruct r1 as [s|e1]; [|simplify_eq; by destruct (E1 Hc)].
  destruct (apply_mutations [] (px_block_io px) g1) as [r2 g2] eqn:E2.
  apply (apply_mutations_intact obs (Exists (restores obs (obs g)) s) (obs g)) in E2; [|split; [done|destruct E1; tauto]|done].
  assert (∀ g2, obs g2 = obs g ∨ Exists (restores obs (obs g)) s → intact obs False (obs g) s g2) as Hint
    by (intros g3 ?; split; [apply E1|tauto]).
  destruct r2 as [b|e2].
  - destruct (apply_mutations [] (px_rdma px) g2) as [r3 g3] eqn:E3.
    apply (apply_mutations_intact obs (Exists (restores obs (obs g)) s ∨ Exists (restores obs (obs g)) b) (obs g)) in E3;
      [|split; [done|destruct E2; tauto]|done].
    destruct r3 as [|e3]; [done|]. unfold rollback_update in H. simpl in H.
    destruct (rollback_mutations b g3) as [f1 g4] eqn:Eb, (rollback_mutations s g4) as [f2 g5] eqn:Es.
    injection H as <- <-. unfold report_failures in Hc. case_bool_decide as Hf; [|done].
    apply app_eq_nil in Hf as [-> ->]. specialize (E3 Hc).
    apply (rollback_mutations_intact obs (Exists (restores obs (obs g)) s) (obs g)) in Eb; [|split; [apply E2|tauto]].
    apply (rollback_mutations_intact obs False (obs g)) in Es; [tauto|by apply Hint].
  - unfold rollback_update in H. simpl in H.
    destruct (rollback_mutations s g2) as [f2 g5] eqn:Es.
    injection H as <- <-. unfold report_failures in Hc. case_bool_decide as Hf; [|done]. subst f2.
    apply (rollback_mutations_intact obs False (obs g)) in Es; [tauto|]. apply Hint. by apply E2.
Qed.

Section guarantees.
Context `{FS : CgroupFs} `{AE : !AgentEnv} `{L : !CgroupLaws}.
Context (linux_support_validate : LinuxResources → Result ()).

(** What an update leaves alone when it fails: plain controls, and the entries
    of keyed files that the unified controls of the configuration do not name,
    of which the writes of other controls do not show *)
Definition restorable (r : LinuxResources) (o : Observable) : Prop :=
  own o ∧ match o with
          | Reading _ file => file ∉ keyed_files
          | _ => ∀ v, ((control_of o).2, v) ∉ default [] (rs_unified r)
          end.

(** What is prepared was read from the current state. *)
Lemma prepare_update_settings_spec h r plan g px p :
  from_resources linux_support_validate r = Ok plan → prepare_controls h plan g = Ok px →
  p ∈ px_settings px →
  (pu_old p = None ∨ pu_old p = reading (pu_path p) (cs_file (pu_setting p)) g)
  ∧ (cs_file (pu_setting p) ∈ keyed_files →
     (cs_file (pu_setting p) ∉ typed_owned_files plan)
     ∧ (∃ v, (cs_file (pu_setting p), v) ∈ default [] (rs_unified r))).
Proof.
  intros [_ Hu]%from_resources_wf H Hp. unfold prepare_controls in H. inv_ok. simpl in Hp.
  assert (∀ (q : CgroupUpdatePlan) path oom l ps, settings q path oom g = Ok l →
    prepare_update_settings path l g = Ok ps → p ∈ ps →
    (∀ file, is_Some (up_settings (up_unified q) !! file) →
       (file ∉ typed_owned_files plan) ∧ (∃ v, (file, v) ∈ default [] (rs_unified r))) →
    (pu_old p = None ∨ pu_old p = reading (pu_path p) (cs_file (pu_setting p)) g)
    ∧ (cs_file (pu_setting p) ∈ keyed_files →
       (cs_file (pu_setting p) ∉ typed_owned_files plan)
       ∧ (∃ v, (cs_file (pu_setting p), v) ∈ default [] (rs_unified r)))) as Hone.
  { intros q path oom l ps Hl Hps%prepare_settings_spec Hin Hq.
    apply list_elem_of_lookup in Hin as [i Hi]. destruct (Forall2_lookup_r _ _ _ _ _ Hps Hi) as (s & Hsi & Hs).
    destruct Hs as (<- & <- & Hold & _). split; [done|]. intros Hk. apply Hq.
    by destruct (settings_kinds _ _ _ _ _ _ Hl (list_elem_of_lookup_2 _ _ _ Hsi)) as [[_ ?]|[_ ?]]. }
  apply elem_of_app in Hp as [Hp|Hp]; [|by eapply Hone].
  unfold prepare_management in *. destruct (gh_control_workload h) as [layout|]; inv_ok; [|by apply elem_of_nil in Hp].
  match goal with H1 : settings _ _ _ _ = Ok ?l, H2 : prepare_update_settings _ ?l _ = Ok ?ps, H3 : p ∈ ?ps |- _ =>
    apply (Hone _ _ _ _ _ H1 H2 H3) end.
  intros file [v Hf]. unfold management_plan in *. inv_ok. done.
Qed.
Lemma prepare_controls_changes h r plan g px o :
  from_resources linux_support_validate r = Ok plan → prepare_controls h plan g = Ok px → restorable r o →
  Forall (λ m, apart (observe o) m ∨ restores (observe o) (observe o g) m) (px_settings px)
  ∧ Forall (λ m, apart (observe o) m ∨ restores (observe o) (observe o g) m) (px_block_io px)
  ∧ Forall (λ m, apart (observe o) m ∨ restores (observe o) (observe o g) m) (px_rdma px).
Proof.
  intros Hr Hp [Ho Hk]. repeat split; apply Forall_forall; intros p Hin.
  - destruct (prepare_update_settings_spec _ _ _ _ _ _ Hr Hp Hin) as [Hold Hkey].
    destruct (decide (control_of o = (pu_path p, cs_file (pu_setting p)))) as [Hc|]; [|left; by apply setting_apart].
    right. destruct o; simpl in Hc; injection Hc as -> Hf; simpl in Hk.
    { subst file. by apply setting_restores. }
    all: exfalso; rewrite <- Hf in Hkey; destruct Hkey as [_ [v ?]]; [|by apply (Hk v)].
    1-2: set_solver. destruct backend; set_solver.
  - unfold prepare_controls in Hp. inv_ok. simpl in Hin.
    match goal with H : io_prepare_update _ _ _ = Ok _ |- _ => apply prepare_io_spec in H as [_ Hf] end.
    rewrite Forall_forall in Hf. destruct (Hf _ Hin) as [Hpath Hok].
    destruct (decide (control_of o = (pi_path p, io_file (pi_mutation p)))) as [Hc|];
      [|left; by eapply io_apart].
    destruct (decide (io_mentions (pi_mutation p) o)) as [Hm|Hm]; [right; by apply io_restores|left].
    eapply io_apart; [done|done|]. intros _. split; [|done]. intros path file ->. simpl in Hc. injection Hc as _ ->.
    apply Hk. unfold io_previous_ok in Hok. destruct (pi_mutation p) as [[]| | |]; try done; set_solver.
  - unfold prepare_controls in Hp. inv_ok. simpl in Hin.
    match goal with H : rdma_prepare_update _ _ _ = Ok _ |- _ => apply prepare_rdma_spec in H as [_ Hf] end.
    rewrite Forall_forall in Hf. destruct (Hf _ Hin) as [Hpath Hok].
    destruct (decide (control_of o = (pr_path p, RDMA_MAX_FILE))) as [Hc|]; [|left; by eapply rdma_apart].
    destruct o as [path file|path d f|path d f|path b key]; simpl in Hc; try (by destruct b); try done;
      injection Hc as ->; [subst; set_solver|].
    destruct (decide (d = rm_device (pr_mutation p))) as [->|]; [|left; eapply rdma_apart; eauto].
    destruct (rdma_field f (rm_limits (pr_mutation p))) as [l|] eqn:E.
    + right. apply rdma_restores; [done|by eexists].
    + left. eapply rdma_apart; eauto.
Qed.

Lemma update_atomic h r g e g' o :
  update linux_support_validate h r g = (Err e, g') → code e ≠ Internal → restorable r o →
  observe o g' = observe o g.
Proof.
  unfold update. destruct (from_resources _ r) as [plan|] eqn:Hr; simpl; [|by intros; simplify_eq].
  destruct (prepare_controls h plan g) as [px|] eqn:Hp; [|by intros; simplify_eq].
  intros H Hc Ho. destruct (prepare_controls_changes h r plan g px o Hr Hp Ho) as (Hs & Hi & Hd).
  by eapply apply_update_intact.
Qed.

(** *** Effects *)

Definition planned_weight (p : BlockIoPlan) (key : WeightKey) : option Z :=
  match key with DefaultWeight => bp_default_weight p | DeviceWeight d => bp_device_weights p !! d end.
(** What a plan asks for, in the cgroup of the container *)
Inductive requests (h : CgroupHandle) (plan : CgroupUpdatePlan) (g : cg) : Observable → Observation → Prop :=
  | requests_setting l s :
      settings plan (gh_leaf h) (bool_decide (gh_control_workload h = None)) g = Ok l →
      s ∈ l → cs_readback s = Exact →
      requests h plan g (Reading (gh_leaf h) (cs_file s)) (ObsText (Some (normalize_cgroup_value (cs_value s))))
  | requests_rdma d limits f l :
      up_rdma plan !! d = Some limits → rdma_field f limits = Some l →
      requests h plan g (RdmaLimitOf (gh_leaf h) d f) (ObsRdma (Some l))
  | requests_max d values f l :
      bp_max (up_block_io plan) !! d = Some values → (f, l) ∈ values →
      requests h plan g (IoLimitOf (gh_leaf h) d f) (ObsIo (Some l))
  | requests_weight b key w :
      select_weight_backend (up_block_io plan) (gh_leaf h) g = Ok (Some b) →
      planned_weight (up_block_io plan) key = Some w →
      requests h plan g (WeightOf (gh_leaf h) b key) (ObsWeight (Some (backend_encode b w))).

(** A list with different keys around one of its elements *)
Lemma split_nodup {A B} (key : A → B) (l : list A) x :
  NoDup (key <$> l) → x ∈ l →
  ∃ l1 l2, l = l1 ++ x :: l2 ∧ ∀ y, y ∈ l1 ++ l2 → key y ≠ key x.
Proof.
  intros Hn (l1 & l2 & ->)%list_elem_of_split. exists l1, l2. split; [done|].
  rewrite fmap_app in Hn. csimpl in Hn. rewrite <- Permutation_middle, NoDup_cons in Hn.
  destruct Hn as [Hn _]. rewrite <- fmap_app in Hn.
  intros y Hy He. apply Hn. rewrite <- He. by apply list_elem_of_fmap_2.
Qed.
(** Settings that the state already has, or that are verified, are read. *)
Lemma setting_effect path g s p :
  setting_prepared path g s p → cs_readback s = Exact →
  let o := Reading path (cs_file s) in
  let v := ObsText (Some (normalize_cgroup_value (cs_value s))) in
  (mu_noop p = true → observe o g = v) ∧ (∀ g1, mu_verify p g1 = Ok () → observe o g1 = v).
Proof.
  intros (<- & <- & _ & Hold) He o v. subst o v. split; simpl.
  - unfold setting_noop. rewrite (Hold He). destruct (reading _ _ g); simpl; [|done].
    by intros <-%bool_decide_eq_true.
  - intros g1 H. by rewrite (setting_verified p g1 He H).
Qed.
Lemma rdma_effect p g f l :
  rdma_previous_ok p g → rdma_field f (rm_limits (pr_mutation p)) = Some l →
  let o := RdmaLimitOf (pr_path p) (rm_device (pr_mutation p)) f in
  (mu_noop p = true → observe o g = ObsRdma (Some l)) ∧ (∀ g1, mu_verify p g1 = Ok () → observe o g1 = ObsRdma (Some l)).
Proof.
  intros Hp Hf o. subst o. split; [|intros g1 H; by apply (rdma_verified _ _ _ _ _ H)].
  cbn [mu_noop Mutation_rdma]. unfold rdma_is_noop, rdma_matches_requested. intros [H1 H2]%andb_true_iff.
  specialize (Hp f). rewrite Hf in Hp. destruct Hp as (l' & Hl' & ->).
  destruct f; simpl in *; rewrite Hf in *; simpl in *;
    [apply bool_decide_eq_true in H1|apply bool_decide_eq_true in H2]; congruence.
Qed.
Lemma io_values_get_elem values f l : io_values_get values f = Some l → (f, l) ∈ values.
Proof.
  unfold io_values_get. destruct (find _ values) as [[f' l']|] eqn:E; [|done]. intros [= <-].
  apply find_some in E as [Hin Hf]. simpl in *. apply bool_decide_eq_true in Hf as <-. by apply list_elem_of_In.
Qed.
Lemma io_max_effect p g d values f l :
  io_previous_ok p g → pi_mutation p = IoMaxLimits d values → (f, l) ∈ values →
  let o := IoLimitOf (pi_path p) d f in
  (mu_noop p = true → observe o g = ObsIo (Some l)) ∧ (∀ g1, mu_verify p g1 = Ok () → observe o g1 = ObsIo (Some l)).
Proof.
  intros Hp Hm Hf o. subst o. split.
  - cbn [mu_noop Mutation_io]. unfold io_is_noop, io_previous_ok in *. rewrite Hm in *.
    destruct (pi_previous p) as [|previous]; [done|]. destruct Hp as [_ Hp]. rewrite forallb_forall. intros Hn.
    apply list_elem_of_In, Hn, bool_decide_eq_true in Hf. simpl in Hf. by apply Hp, io_values_get_elem.
  - intros g1 H. eapply io_max_verified; [left; exact Hm|done|exact H].
Qed.
Lemma io_weight_effect p g b key v :
  io_previous_ok p g → pi_mutation p = IoWeight b key v →
  let o := WeightOf (pi_path p) b key in
  (mu_noop p = true → observe o g = ObsWeight (Some v)) ∧ (∀ g1, mu_verify p g1 = Ok () → observe o g1 = ObsWeight (Some v)).
Proof.
  intros Hp Hm o. subst o. split.
  - cbn [mu_noop Mutation_io]. unfold io_is_noop, io_previous_ok in *. rewrite Hm in *.
    destruct (pi_previous p) as [previous|]; [|done]. intros ->%bool_decide_eq_true. done.
  - intros g1 H. eapply io_weight_verified; [right; by exists v|exact H].
Qed.

Lemma apply_update_ok px g u g' :
  apply_update px g = (Ok u, g') →
  ∃ s g1 b g2 d, apply_mutations [] (px_settings px) g = (Ok s, g1)
    ∧ apply_mutations [] (px_block_io px) g1 = (Ok b, g2) ∧ apply_mutations [] (px_rdma px) g2 = (Ok d, g').
Proof.
  unfold apply_update, apply_prepared_update_settings, io_apply, rdma_apply.
  destruct (apply_mutations [] (px_settings px) g) as [[s|] g1] eqn:E1; [|done].
  destruct (apply_mutations [] (px_block_io px) g1) as [[b|] g2] eqn:E2; [|by destruct (rollback_update s _ _ _ g2)].
  destruct (apply_mutations [] (px_rdma px) g2) as [[d|] g3] eqn:E; [|by destruct (rollback_update s _ _ _ g3)].
  intros H. simplify_eq. by exists s, g1, b, g2, d.
Qed.
(** The parts of an update that an observation does not depend on *)
Lemma settings_apart h r plan g px o :
  from_resources linux_support_validate r = Ok plan → prepare_controls h plan g = Ok px → own o →
  (control_of o).2 ∈ keyed_files → (control_of o).2 ∈ typed_owned_files plan →
  Forall (apart (observe o)) (px_settings px).
Proof.
  intros Hr Hp Ho Hk Ht. apply Forall_forall. intros p Hin. apply setting_apart; [done|]. intros Hc.
  rewrite Hc in Hk, Ht. simpl in Hk, Ht. by destruct (prepare_update_settings_spec _ _ _ _ _ _ Hr Hp Hin) as [_ [? _]].
Qed.
Lemma io_list_apart p path g ps o :
  io_prepare_update p path g = Ok ps → own o →
  (control_of o).2 ∉ [BFQ_WEIGHT_FILE; GENERIC_WEIGHT_FILE; IO_MAX_FILE] → Forall (apart (observe o)) ps.
Proof.
  intros [_ Hf]%prepare_io_spec Ho Hc. eapply Forall_impl; [exact Hf|]. intros q [_ Hq].
  eapply io_apart; [done|done|]. intros He. exfalso. rewrite He in Hc. simpl in Hc.
  destruct (pi_mutation q) as [[]| |[]|]; set_solver.
Qed.
Lemma rdma_list_apart limits path g ps o :
  rdma_prepare_update limits path g = Ok ps → own o → (control_of o).2 ≠ RDMA_MAX_FILE →
  Forall (apart (observe o)) ps.
Proof.
  intros [_ Hf]%prepare_rdma_spec Ho Hc. eapply Forall_impl; [exact Hf|]. intros q [_ Hq].
  eapply rdma_apart; [done|done|]. intros He. by rewrite He in Hc.
Qed.
(** The settings of the container around one of them *)
Lemma settings_around h r plan g px l s :
  from_resources linux_support_validate r = Ok plan → prepare_controls h plan g = Ok px →
  (∀ layout, gh_control_workload h = Some layout → cw_management layout ≠ gh_leaf h) →
  settings plan (gh_leaf h) (bool_decide (gh_control_workload h = None)) g = Ok l → s ∈ l →
  ∃ p l1 l2, px_settings px = l1 ++ p :: l2 ∧ setting_prepared (gh_leaf h) g s p
    ∧ ∀ q, q ∈ l1 ++ l2 → (gh_leaf h, cs_file s) ≠ (pu_path q, cs_file (pu_setting q)).
Proof.
  intros [Hh Hu]%from_resources_wf H Hne Hl Hs. unfold prepare_controls in H. inv_ok. simpl.
  match goal with H1 : settings plan _ _ _ = Ok ?l1, H2 : settings plan _ _ _ = Ok ?l2 |- _ =>
    rewrite H1 in H2; injection H2 as -> end.
  rename x into mps, x1 into lps.
  assert (∀ q, q ∈ mps → pu_path q ≠ gh_leaf h) as Hmps.
  { intros q Hq. unfold prepare_management in *. destruct (gh_control_workload h) as [layout|];
      inv_ok; [|by apply elem_of_nil in Hq].
    match goal with H1 : prepare_update_settings (cw_management _) _ _ = Ok _ |- _ =>
      apply prepare_settings_spec in H1 as Hf end.
    apply list_elem_of_lookup in Hq as [i Hi]. destruct (Forall2_lookup_r _ _ _ _ _ Hf Hi) as (s' & _ & -> & _).
    by apply Hne. }
  assert (NoDup (cs_file <$> l)) as Hn by (eapply settings_nodup; [done| |done]; intros; by apply Hu).
  destruct (split_nodup cs_file l s Hn Hs) as (l1 & l2 & -> & Hother).
  match goal with H1 : prepare_update_settings (gh_leaf h) _ _ = Ok _ |- _ =>
    apply prepare_settings_spec in H1 as Hf end.
  apply Forall2_app_inv_l in Hf as (p1 & p2 & Hp1 & Hp2 & ->).
  apply Forall2_cons_inv_l in Hp2 as (p & p3 & Hp & Hp3 & ->).
  exists p, (mps ++ p1), p3. split; [by rewrite <- app_assoc|]. split; [done|].
  intros q. rewrite !elem_of_app. intros Hq [= Hpath Hfile].
  destruct Hq as [[Hq|Hq]|Hq]; [by eapply Hmps| |].
  all: apply list_elem_of_lookup in Hq as [i Hi].
  - destruct (Forall2_lookup_r _ _ _ _ _ Hp1 Hi) as (s' & Hi' & _ & Heq & _). rewrite Heq in Hfile.
    apply (Hother s'); [|done]. apply elem_of_app. left. by eapply list_elem_of_lookup_2.
  - destruct (Forall2_lookup_r _ _ _ _ _ Hp3 Hi) as (s' & Hi' & _ & Heq & _). rewrite Heq in Hfile.
    apply (Hother s'); [|done]. apply elem_of_app. right. by eapply list_elem_of_lookup_2.
Qed.

Definition io_key (m : IoMutation) : WeightKey + BlockDevice :=
  match m with
  | IoWeight _ key _ | IoWeightRollback _ key _ => inl key
  | IoMaxLimits d _ | IoMaxRollback d _ => inr d
  end.
Lemma io_mutations_nodup p backend : NoDup (io_key <$> io_mutations p backend).
Proof.
  assert (NoDup (inr (A := WeightKey) <$> (btree_entries (bp_max p)).*1)) as Hm
    by (apply NoDup_fmap_2; [apply _|apply btree_entries_nodup]).
  unfold io_mutations. rewrite fmap_app, <- list_fmap_compose. unfold compose. simpl.
  rewrite <- list_fmap_compose in Hm. apply NoDup_app. repeat split; [| |done].
  - destruct backend as [b|]; [|constructor]. rewrite fmap_app, <- list_fmap_compose. unfold compose. simpl.
    assert (NoDup ((λ d, inl (B := BlockDevice) (DeviceWeight d)) <$> (btree_entries (bp_device_weights p)).*1)) as Hd
      by (apply NoDup_fmap_2; [by intros ? ? [= ?]|apply btree_entries_nodup]).
    rewrite <- list_fmap_compose in Hd.
    destruct (bp_default_weight p); simpl; [|done]. apply NoDup_cons_2; [|done].
    intros (? & ? & _)%list_elem_of_fmap. done.
  - intros k Hk (e & -> & _)%list_elem_of_fmap. destruct backend as [b|]; [|by apply elem_of_nil in Hk].
    rewrite fmap_app, <- list_fmap_compose, elem_of_app in Hk.
    destruct Hk as [Hk|(? & ? & _)%list_elem_of_fmap]; [|done]. destruct (bp_default_weight p); set_solver.
Qed.
(** The prepared mutations of a block I/O plan around one of them *)
Lemma io_around p path g ps backend m :
  io_prepare_update p path g = Ok ps → select_weight_backend p path g = Ok backend → m ∈ io_mutations p backend →
  ∃ q l1 l2, ps = l1 ++ q :: l2 ∧ pi_mutation q = m ∧ pi_path q = path ∧ io_previous_ok q g
    ∧ ∀ q', q' ∈ l1 ++ l2 → io_previous_ok q' g ∧ io_key (pi_mutation q') ≠ io_key m.
Proof.
  intros [(backend' & Hb & Hm) Hf]%prepare_io_spec Hb' Hin. rewrite Hb in Hb'. injection Hb' as ->.
  rewrite <- Hm in Hin. apply list_elem_of_fmap in Hin as (q & -> & Hq).
  destruct (split_nodup (io_key ∘ pi_mutation) ps q) as (l1 & l2 & -> & Hother); [|done|].
  { rewrite list_fmap_compose, Hm. apply io_mutations_nodup. }
  rewrite Forall_forall in Hf. exists q, l1, l2. destruct (Hf q Hq). repeat split; try done.
  - apply (Hf q'). set_solver.
  - by apply Hother.
Qed.
Lemma rdma_around limits path g ps d l :
  rdma_prepare_update limits path g = Ok ps → limits !! d = Some l →
  ∃ q l1 l2, ps = l1 ++ q :: l2 ∧ pr_mutation q = mkRdmaMutation d l ∧ pr_path q = path ∧ rdma_previous_ok q g
    ∧ ∀ q', q' ∈ l1 ++ l2 → rdma_previous_ok q' g ∧ pr_path q' = path ∧ rm_device (pr_mutation q') ≠ d.
Proof.
  intros [Hm Hf]%prepare_rdma_spec Hd. unfold rdma_mutations in Hm.
  assert (mkRdmaMutation d l ∈ pr_mutation <$> ps) as (q & Heq & Hq)%list_elem_of_fmap.
  { rewrite Hm. apply list_elem_of_fmap. exists (d, l). by rewrite btree_entries_elem. }
  destruct (split_nodup (rm_device ∘ pr_mutation) ps q) as (l1 & l2 & -> & Hother); [|done|].
  { rewrite list_fmap_compose, Hm, <- list_fmap_compose. apply btree_entries_nodup. }
  rewrite Forall_forall in Hf. exists q, l1, l2. destruct (Hf q Hq). repeat split; try done.
  - apply (Hf q'). set_solver.
  - apply (Hf q'). set_solver.
  - replace d with (rm_device (pr_mutation q)) by (by rewrite <- Heq). by apply Hother.
Qed.

(** A list of changes that are apart from an observation but one *)
Lemma effect_of_one {M} `{!Mutation M} o v l1 (m : M) l2 g0 g l g' :
  observe o g = observe o g0 → Forall (apart (observe o)) (l1 ++ l2) →
  (mu_noop m = true → observe o g0 = v) ∧ (∀ g1, mu_verify m g1 = Ok () → observe o g1 = v) →
  apply_mutations [] (l1 ++ m :: l2) g = (Ok l, g') → observe o g' = v.
Proof.
  intros Hg [H1 H2]%Forall_app [Hn Hv] H.
  by eapply (apply_mutations_effect (observe o) v); [exact H1|exact H2|rewrite Hg|exact Hv|exact H].
Qed.
Lemma unobserved {M} `{!Mutation M} o (ms : list M) g r g' :
  Forall (apart (observe o)) ms → apply_mutations [] ms g = (r, g') → observe o g' = observe o g.
Proof. intros Hm H. by eapply (apply_mutations_apart (observe o)) in H as [? _]. Qed.

Lemma prepared_parts h plan g px :
  prepare_controls h plan g = Ok px →
  io_prepare_update (up_block_io plan) (gh_leaf h) g = Ok (px_block_io px)
  ∧ rdma_prepare_update (up_rdma plan) (gh_leaf h) g = Ok (px_rdma px).
Proof. unfold prepare_controls. intros H. by inv_ok. Qed.

Section effects.
Context (h : CgroupHandle) (r : LinuxResources) (plan : CgroupUpdatePlan) (g : cg) (px : PreparedUpdate).
Context (g1 g2 g' : cg) (s : list PreparedUpdateSetting) (b : list PreparedIoMutation) (d : list PreparedRdmaMutation).
Hypothesis Hr : from_resources linux_support_validate r = Ok plan.
Hypothesis Hp : prepare_controls h plan g = Ok px.
Hypothesis Hs : apply_mutations [] (px_settings px) g = (Ok s, g1).
Hypothesis Hb : apply_mutations [] (px_block_io px) g1 = (Ok b, g2).
Hypothesis Hd : apply_mutations [] (px_rdma px) g2 = (Ok d, g').

Lemma setting_takes_effect l x :
  (∀ layout, gh_control_workload h = Some layout → cw_management layout ≠ gh_leaf h) →
  settings plan (gh_leaf h) (bool_decide (gh_control_workload h = None)) g = Ok l →
  x ∈ l → cs_readback x = Exact → own (Reading (gh_leaf h) (cs_file x)) →
  observe (Reading (gh_leaf h) (cs_file x)) g' = ObsText (Some (normalize_cgroup_value (cs_value x))).
Proof.
  intros Hne Hl Hx He Ho. destruct (prepared_parts _ _ _ _ Hp) as [Hi Hd'].
  destruct (settings_kinds _ _ _ _ _ _ Hl Hx) as [[_ Hk]|[? _]]; [|congruence].
  rewrite (unobserved _ (px_rdma px) _ _ _ (rdma_list_apart _ _ _ _ _ Hd' Ho ltac:(simpl; set_solver)) Hd).
  rewrite (unobserved _ (px_block_io px) _ _ _ (io_list_apart _ _ _ _ _ Hi Ho ltac:(simpl; set_solver)) Hb).
  destruct (settings_around _ _ _ _ _ _ _ Hr Hp Hne Hl Hx) as (p & l1 & l2 & Hpx & Hprep & Hother).
  rewrite Hpx in Hs. eapply (effect_of_one _ _ l1 p l2 g); [done| |by apply setting_effect|exact Hs].
  apply Forall_forall. intros q Hq. apply setting_apart; [done|]. by apply Hother.
Qed.
Lemma rdma_takes_effect dev limits f l :
  up_rdma plan !! dev = Some limits → rdma_field f limits = Some l → own (RdmaLimitOf (gh_leaf h) dev f) →
  observe (RdmaLimitOf (gh_leaf h) dev f) g' = ObsRdma (Some l).
Proof.
  intros Hdev Hf Ho. destruct (prepared_parts _ _ _ _ Hp) as [Hi Hd'].
  assert (RDMA_MAX_FILE ∈ typed_owned_files plan) as Ht.
  { unfold typed_owned_files, rdma_owned_files. case_bool_decide as Hz; [|set_solver].
    apply map_size_empty_inv in Hz. by rewrite Hz in Hdev. }
  destruct (rdma_around _ _ _ _ _ _ Hd' Hdev) as (q & l1 & l2 & Hpx & Hm & Hpath & Hok & Hother).
  rewrite Hpx in Hd. eapply (effect_of_one _ _ l1 q l2 g); [| | |exact Hd].
  - rewrite (unobserved _ (px_block_io px) _ _ _ (io_list_apart _ _ _ _ _ Hi Ho ltac:(simpl; set_solver)) Hb).
    by rewrite (unobserved _ (px_settings px) _ _ _ (settings_apart _ _ _ _ _ _ Hr Hp Ho ltac:(simpl; set_solver) Ht) Hs).
  - apply Forall_forall. intros q' (Hok' & Hpath' & Hne)%Hother. eapply rdma_apart; [done|done|].
    intros _. exists dev, f. rewrite Hpath'. by eauto.
  - pose proof (rdma_effect q g f l Hok ltac:(by rewrite Hm)) as He. rewrite Hpath, Hm in He. exact He.
Qed.
Lemma io_takes_effect backend m o v :
  select_weight_backend (up_block_io plan) (gh_leaf h) g = Ok backend → m ∈ io_mutations (up_block_io plan) backend →
  own o → io_mentions m o → control_of o = (gh_leaf h, io_file m) →
  (control_of o).2 ∈ typed_owned_files plan →
  (∀ q, pi_mutation q = m → pi_path q = gh_leaf h → io_previous_ok q g →
     (mu_noop q = true → observe o g = v) ∧ (∀ g1, mu_verify q g1 = Ok () → observe o g1 = v)) →
  observe o g' = v.
Proof.
  intros Hsel Hm Ho Hment Hc Ht Heff. destruct (prepared_parts _ _ _ _ Hp) as [Hi Hd'].
  assert ((control_of o).2 ≠ RDMA_MAX_FILE ∧ (control_of o).2 ∈ keyed_files) as [Hn Hk].
  { rewrite Hc. simpl. destruct m as [[]| |[]|]; split; try done; set_solver. }
  rewrite (unobserved _ (px_rdma px) _ _ _ (rdma_list_apart _ _ _ _ _ Hd' Ho Hn) Hd).
  destruct (io_around _ _ _ _ _ _ Hi Hsel Hm) as (q & l1 & l2 & Hpx & Hqm & Hpath & Hok & Hother).
  rewrite Hpx in Hb. eapply (effect_of_one _ _ l1 q l2 g); [| |by apply Heff|exact Hb].
  - by rewrite (unobserved _ (px_settings px) _ _ _ (settings_apart _ _ _ _ _ _ Hr Hp Ho Hk Ht) Hs).
  - apply Forall_forall. intros q' [Hok' Hne]%Hother. eapply io_apart; [done|done|]. intros _. split.
    + intros path file ->. by destruct m.
    + intros Hment'. apply Hne. destruct m, (pi_mutation q'), o; simpl in *; naive_solver.
Qed.
End effects.

(** A plan owns the block I/O files that it writes. *)
Lemma io_owned plan f : f ∈ block_io_owned_files (up_block_io plan) → f ∈ typed_owned_files plan.
Proof. unfold typed_owned_files. rewrite !elem_of_app. tauto. Qed.
Lemma io_max_owned p d values : bp_max p !! d = Some values → IO_MAX_FILE ∈ block_io_owned_files p.
Proof.
  intros Hd. unfold block_io_owned_files. apply elem_of_app. right.
  rewrite bool_decide_false; [by left|]. intros Hz%map_size_empty_inv. by rewrite Hz in Hd.
Qed.
Lemma weight_owned p key b w : planned_weight p key = Some w → backend_file b ∈ block_io_owned_files p.
Proof.
  intros Hw. unfold block_io_owned_files. apply elem_of_app. left.
  assert (bool_decide (is_Some (bp_default_weight p)) || negb (bool_decide (bp_device_weights p = ∅)) = true) as ->.
  { apply orb_true_iff. destruct key as [|d]; simpl in Hw; [left; apply bool_decide_eq_true; by eexists|right].
    rewrite bool_decide_false; [done|]. intros Hz. by rewrite Hz in Hw. }
  destruct b; [by left|by right; left].
Qed.

End guarantees.

(** ** A concrete kernel

    A hierarchy with one cgroup: plain controls keep what is written to them,
    [pids.max] up to the limit of the kernel; the RDMA controller knows one
    device, whose handles are unlimited or ten; there is no block I/O
    controller. *)
Module UpdateExample.

Record kernel : Type := mkKernel { k_files : gmap string string; k_ten_handles : bool }.
Definition leaf : string := "/sys/fs/cgroup/a3s/box".
Definition rdma_text (ten : bool) : string :=
  if ten then "mlx5_0 hca_handle=10 hca_object=max" else "mlx5_0 hca_handle=max hca_object=max".
Definition k_read (path file : string) (k : kernel) : result IoErrorKind string :=
  if bool_decide (path = leaf)
  then if bool_decide (file = RDMA_MAX_FILE) then Ok (rdma_text (k_ten_handles k))
       else if bool_decide (file ∈ keyed_files) then Err IoNotFound
       else match k_files k !! file with Some value => Ok value | None => Err IoNotFound end
  else Err IoNotFound.
Definition refused : WriteFailure := mkWriteFailure IoOther (Some 22).
Definition acceptable (file value : string) : bool :=
  negb (bool_decide (file ∈ keyed_files))
  && (negb (bool_decide (file = "pids.max")) || bool_decide (is_Some (parse_uint 4194304 value))).
Definition k_write (path file value : string) (k : kernel) : result WriteFailure () * kernel :=
  if bool_decide (path = leaf)
  then if bool_decide (file = RDMA_MAX_FILE)
       then if bool_decide (value = "mlx5_0 hca_handle=10") then (Ok (), mkKernel (k_files k) true)
            else if bool_decide (value = "mlx5_0 hca_handle=max") then (Ok (), mkKernel (k_files k) false)
            else (Err refused, k)
       else if acceptable file value then (Ok (), mkKernel (<[file := value]> (k_files k)) (k_ten_handles k))
       else (Err refused, k)
  else (Err refused, k).
#[local] Instance kernel_fs : CgroupFs := {|
  cg := kernel; cg_read := k_read;
  cg_metadata p f k := match k_read p f k with Ok _ => Ok (mkControlMetadata true 420) | Err e => Err e end;
  cg_open _ _ _ := Ok (); cg_write := k_write
|}.
#[local] Instance agent_env : AgentEnv := {|
  bundle_from_json _ _ := Err (update_invalid "bundle"); attachments_from_bundle _ _ := Err (update_invalid "bundle");
  create_request_validate _ := Ok (); validate_process _ := Ok (); validate_linux_resources _ := Ok ();
  base64_decoded_len _ := None; has_control _ := false;
  has_control_or_space s := negb (all_bytes (λ c, negb (is_whitespace c)) s)
|}.

(** The device of a line that the kernel accepts *)
Lemma accepted_line m :
  rdma_write_value m = "mlx5_0 hca_handle=10" ∨ rdma_write_value m = "mlx5_0 hca_handle=max" →
  rm_device m = "mlx5_0" ∧ is_Some (rl_hca_handles (rm_limits m)).
Proof.
  assert (∀ d rest : string, (d +:+ " " +:+ rest = "mlx5_0 hca_handle=10" ∨ d +:+ " " +:+ rest = "mlx5_0 hca_handle=max") →
    d = "mlx5_0" ∧ (rest = "hca_handle=10" ∨ rest = "hca_handle=max")) as Hsplit.
  { intros d rest [H|H].
    all: do 6 (destruct d as [|? d]; [discriminate H|injection H as -> H]).
    all: destruct d as [|? d]; [simpl in H; injection H as H; subst; by split; [|auto]|injection H as -> H; exfalso].
    all: repeat (destruct d as [|? d]; [discriminate H|injection H as -> H]). all: destruct d; discriminate H. }
  intros H. apply Hsplit in H as [-> H]. split; [done|].
  unfold rdma_limits_write_value in H. destruct (rl_hca_handles (rm_limits m)) as [l|]; [by eexists|exfalso].
  destruct (rl_hca_objects (rm_limits m)); simpl in H; by destruct H as [H|H].
Qed.
Lemma rdma_state_of k :
  read_rdma_state leaf k
  = Ok {["mlx5_0" := mkRdmaLimits (Some (if k_ten_handles k then RdmaValue 10 else RdmaMax)) (Some RdmaMax)]}.
Proof.
  destruct k as [files [|]]; by vm_compute.
Qed.
Lemma rdma_unchanged k ten d f :
  d ≠ "mlx5_0" ∨ f = HcaObject →
  observe (RdmaLimitOf leaf d f) (mkKernel (k_files k) ten) = observe (RdmaLimitOf leaf d f) k.
Proof.
  intros Hd. unfold observe. rewrite !rdma_state_of. simpl. f_equal. unfold RdmaState.
  destruct (decide (d = "mlx5_0")) as [->|]; [|by rewrite !lookup_singleton_ne].
  destruct Hd as [?| ->]; [done|]. by rewrite !lookup_singleton_eq.
Qed.
#[local] Instance kernel_laws : CgroupLaws.
Proof.
  refine {| touches w c := bool_decide (w = c) |}.
  - intros p f v g e g' p' f' H. simpl in H |- *. unfold k_write in H. by repeat case_match; simplify_eq.
  - intros p f v g g' p' f' H Ht. simpl in H |- *. apply bool_decide_eq_false in Ht.
    unfold k_write, k_read in *. repeat case_bool_decide; simplify_eq; try done.
    all: destruct (acceptable f v); simplify_eq; try done. all: simpl; by rewrite lookup_insert_ne by congruence.
  - intros p m g g' d f H Hd. simpl in H. unfold k_write in H. case_bool_decide as Hp; [|done]. subst p.
    rewrite bool_decide_true in H by done.
    assert (rm_device m = "mlx5_0" ∧ is_Some (rl_hca_handles (rm_limits m))) as [Hdev Hsome].
    { apply accepted_line. repeat case_bool_decide; try done; auto. }
    assert (d ≠ "mlx5_0" ∨ f = HcaObject) as Hu.
    { rewrite Hdev in Hd. destruct Hd as [|Hd]; [by left|right]. destruct f; [|done].
      simpl in Hd. rewrite Hd in Hsome. by destruct Hsome. }
    repeat case_bool_decide; simplify_eq; by apply rdma_unchanged.
  - intros p m v g g' o _ H. exfalso. simpl in H. unfold k_write, acceptable in H.
    case_bool_decide; [|done]. destruct m as [[]| |[]|]; by vm_compute in H.
Defined.

Definition before : kernel :=
  mkKernel {["memory.max" := "max"; "memory.oom.group" := "0"; "pids.max" := "64"]} false.
Definition resources (pids handles : Z) : LinuxResources :=
  mkLinuxResources (Some (mkLinuxMemory (Some 67108864) None None None None None None None None)) None
    (Some pids) None None (Some [("mlx5_0", mkLinuxRdma (Some handles) None)]) None false false.
Definition handle : CgroupHandle := mkCgroupHandle leaf None.
Definition supported (r : LinuxResources) : Result () := Ok ().
Definition rdma_refused : Error :=
  update_error PermissionDenied "failed to apply cgroup RDMA setting {}={value}: {error}".
Definition after (r : LinuxResources) : kernel := (update supported handle r before).2.
Lemma own_all o : own o.
Proof. intros w H. by apply bool_decide_eq_true in H. Qed.

End UpdateExample.
