(* ===== verification/Scenario.v ===== *)
(** * A concrete environment

    An instance of [StoreEnv] with executable encodings, for the witnesses and
    the recorded executions.  The injector fails the checkpoint whose number it
    counts down to; the digest is a 64-digit hexadecimal polynomial hash.  Then
    a recorded life with a checkpoint, a restore and an attestation. *)

From stdpp Require Import base gmap strings list pretty.
From Stdlib Require Import Ascii.
From S2P Require Import Prelude Sdk Identifiers Lifecycle Fault OciState Contracts StoreModel Disk.
From S2P Require Import RestoreContract Journal.
From S2P Require Import Events Claims Create Start Kill Freezer Update ProcessStore ProcessIoStore.
From S2P Require Import FileStore CheckpointStore RestoreStore AttestationStore Delete Observe.
From S2P Require Import StartupAudit Machine Refine RefineOps RefineProcess RefineContracts Store.
From S2P Require Import AuditCorrect.
Local Open Scope string_scope.
Local Open Scope Z_scope.

Definition injected_fault : Error := state_error Internal "test-fault-injector" "injected fault".

(** [Some n]: the checkpoint after the next [n] fails once. *)
Definition CountdownFaults : FaultInjector := {|
  fault_state := option nat;
  fault_check := λ _ s,
    match s with
    | None => (Ok (), None)
    | Some O => (Err injected_fault, None)
    | Some (S n) => (Ok (), Some n)
    end
|}.

Definition hex_digit (n : Z) : ascii :=
  ascii_of_N (Z.to_N (if bool_decide (n < 10) then 48 + n else 87 + n)).
Fixpoint hex_digits (width : nat) (n : Z) : string :=
  match width with
  | O => ""
  | S width' => String (hex_digit (n mod 16)) (hex_digits width' (n / 16))
  end.
Fixpoint polynomial_hash (acc : Z) (s : string) : Z :=
  match s with
  | EmptyString => acc
  | String c s' => polynomial_hash ((acc * 257 + Z.of_N (N_of_ascii c) + 1) mod 2 ^ 256) s'
  end.

Definition target_text (t : ContainerTarget) : string :=
  ct_id t +:+ "#" +:+ match ct_generation t with Some g => pretty g | None => "current" end.
Definition process_text (p : ProcessTarget) : string :=
  target_text (pt_container p) +:+ "/" +:+ pt_process_id p.

Definition fingerprint_text (f : Fingerprint) : option string :=
  match f with
  | CreateRequestFingerprint id b _ a _ =>
      Some ("create " +:+ id +:+ " " +:+ bundle_config b +:+ " " +:+ att_encoding a)
  | StartFingerprint t => Some ("start " +:+ target_text t)
  | KillFingerprint t s _ => Some ("kill " +:+ target_text t +:+ " " +:+ pretty s)
  | DeleteFingerprint t _ => Some ("delete " +:+ target_text t)
  | ExecFingerprint t p q _ =>
      Some ("exec " +:+ target_text t +:+ " " +:+ p +:+ " " +:+ proc_encoding q)
  | SignalProcessFingerprint p s => Some ("signal " +:+ process_text p +:+ " " +:+ pretty s)
  | WriteStdinFingerprint p data => Some ("stdin " +:+ process_text p +:+ " " +:+ data)
  | ProcessTargetFingerprint p => Some ("process " +:+ process_text p)
  | ResizeFingerprint p s =>
      Some ("resize " +:+ process_text p +:+ " " +:+ pretty (ts_width s) +:+ "x" +:+
            pretty (ts_height s))
  | FreezerFingerprint t => Some ("freezer " +:+ target_text t)
  | UpdateFingerprint t r => Some ("update " +:+ target_text t +:+ " " +:+ r)
  | FileFingerprint t _ path data _ =>
      Some ("file " +:+ target_text t +:+ " " +:+ path +:+ " " +:+ default "" data)
  | FilesystemFingerprint t _ path destination _ _ =>
      Some ("filesystem " +:+ target_text t +:+ " " +:+ path +:+ " " +:+ default "" destination)
  | CheckpointFingerprint t path _ => Some ("checkpoint " +:+ target_text t +:+ " " +:+ path)
  | RestoreFingerprint id b path _ a r =>
      Some ("restore " +:+ id +:+ " " +:+ bundle_config b +:+ " " +:+ path +:+ " " +:+
            att_encoding a +:+ " " +:+ target_text (cref_source r) +:+ " " +:+
            cref_artifact_digest r)
  | AttestationFingerprint t data => Some ("attest " +:+ target_text t +:+ " " +:+ data)
  end.

(** The text of a launch request: its technology and its mode. *)
Definition launch_text (r : TeeLaunchRequest) : string :=
  extension_name (tl_technology r) +:+
  match tl_mode r with Hardware => "#hardware" | Simulated => "#simulated" end.
Definition launches : list TeeLaunchRequest :=
  [tee_launch_new AmdSevSnp Hardware; tee_launch_new AmdSevSnp Simulated;
   tee_launch_new IntelTdx Hardware; tee_launch_new IntelTdx Simulated].

(** The third-party codecs: bytes stand for their own base64 text. *)
Definition DemoContracts : ContractEnv := {|
  base64_encode := λ s, s;
  base64_decode := λ s, Some s;
  sha256_hex := λ s, hex_digits 64 (polynomial_hash 0 s);
  semver_parses := λ _, true;
  launch_to_json := λ r, if decide (r ∈ launches) then Some (launch_text r) else None;
  launch_from_json := λ s, snd <$> list_find (λ r, launch_text r = s) launches
|}.

#[global] Instance DemoEnv : StoreEnv := {|
  env_faults := CountdownFaults;
  env_contracts := DemoContracts;
  encoded_len := λ _, 1024;
  json_to_vec := fingerprint_text;
  canonical_json_bytes := fingerprint_text;
  schema_validate_state := λ _, Ok ();
  bundle_from_json := λ dir config,
    Ok (mkOciBundle dir config ("sha256:" +:+ hex_digits 64 (polynomial_hash 0 config)) "1.0.2"
          None None);
  attachments_validate := λ _ _, Ok ();
  attachments_validate_isolation := λ _ _, Ok ();
  attachments_guest_session := λ _, None;
  attachments_network_enforcement := λ _ _, Ok None;
  attachments_digest := λ a, Ok ("sha256:" +:+ hex_digits 64 (polynomial_hash 0 (att_encoding a)));
  bundle_validate_create := λ _, Ok ();
  attachments_process_io := λ _, mkProcessIo IoNull IoNull IoNull None;
  semantic_validate_process := λ _, Ok ();
  semantic_validate_resources := λ _, Ok ();
  attachments_tee_launch := λ a _,
    Ok (if bool_decide (att_encoding a = "tee") then Some (tee_launch_new AmdSevSnp Hardware)
        else None)
|}.

(** A fresh root at a fixed time; [faults] arms the injector. *)
Definition fresh_world : World := mkWorld DemoEnv empty_disk None (λ n, 1000 + Z.of_nat n) 0.
Definition arm (n : nat) (w : World) : World :=
  mkWorld DemoEnv (w_disk w) (Some n) (w_clock w) (w_reads w).

(** ** Requests *)

Definition context (o : string) : OperationContext := mkOperationContext o None.
Definition demo_bundle : OciBundle :=
  mkOciBundle "/bundle" "{}" ("sha256:" +:+ hex_digits 64 (polynomial_hash 0 "{}")) "1.0.2" None
    None.
Definition create_of (o id : string) : CreateRequest :=
  mkCreateRequest (context o) id demo_bundle RequestSharedHostKernel (mkAttachments "none").
Definition start_of (o id : string) : StartRequest :=
  mkStartRequest (context o) (target_current id).
Definition kill_of (o id : string) : KillRequest :=
  mkKillRequest (context o) (target_current id) 9 true.
Definition delete_of (o id : string) : DeleteRequest :=
  mkDeleteRequest (context o) (target_current id) StoppedOnly.
Definition exec_of (o id p : string) : ExecRequest :=
  mkExecRequest (context o) (target_current id) p (mkOciProcess None None "sh")
    (mkProcessIo IoNull IoCapture IoCapture None).

(** A full life of one container. *)
Definition create_calls : list StoreCall :=
  [CallPrepareCreate (create_of "op-create" "web") NativeLinux None;
   CallCompleteCreate "op-create" 42].
Definition start_calls : list StoreCall :=
  [CallPrepareStart (start_of "op-start" "web");
   CallCompleteStart "op-start" Running (Some 42)].
Definition stop_calls : list StoreCall :=
  [CallPrepareKill (kill_of "op-kill" "web");
   CallCompleteKill "op-kill" Stopped None].
Definition delete_calls : list StoreCall :=
  [CallPrepareDelete (delete_of "op-delete" "web"); CallCompleteDelete "op-delete"].
Definition life_calls : list StoreCall :=
  (create_calls ++ start_calls ++ stop_calls ++ delete_calls)%list.

(** What an observer sees of a live record. *)
Definition summary (id : string) (d : Disk) : option (ContainerState * option Z * Z) :=
  (λ c, (st_status (cr_state (sc_record c)), st_pid (cr_state (sc_record c)),
         cr_generation (sc_record c))) <$> live_record id d.


(** ** The environment meets its interface *)

Lemma hex_digit_lower n : 0 ≤ n < 16 → is_lower_hex (hex_digit n) = true.
Proof.
  intros Hn. unfold is_lower_hex, is_ascii_digit, byte_in, hex_digit.
  case_bool_decide; rewrite N_ascii_embedding by lia; apply orb_true_iff; [left|right];
    apply andb_true_iff; split; apply N.leb_le; lia.
Qed.

Lemma hex_digits_format width n :
  String.length (hex_digits width n) = width ∧ all_bytes is_lower_hex (hex_digits width n) = true.
Proof.
  revert n. induction width as [|w IH]; intros n; [done|]. cbn [hex_digits String.length all_bytes].
  destruct (IH (n / 16)) as [-> ->]. split; [done|].
  rewrite hex_digit_lower; [done|]. apply Z.mod_pos_bound. lia.
Qed.

#[global] Instance DemoHexDigest : HexDigest (H := DemoEnv).
Proof. intros s. apply hex_digits_format. Qed.

(** A recorded run: one container through its whole life. *)
Example life_recorded :
  let d n := w_disk (run_calls (take n life_calls) fresh_world) in
  summary "web" (d 2%nat) = Some (Created, Some 42, 1) ∧
  summary "web" (d 4%nat) = Some (Running, Some 42, 1) ∧
  summary "web" (d 6%nat) = Some (Stopped, None, 1) ∧
  summary "web" (d 8%nat) = None ∧
  (map_to_list (d_quarantine (d 8%nat))).*1 = [(Deleted, "op-delete")] ∧
  audit_startup_state (d 8%nat) = Ok ().
Proof. vm_compute. split_and!; reflexivity. Qed.

(** ** Contracts that retain their request

    A container is paused and checkpointed, restored under another ID, and a
    dedicated VM is attested. *)

Definition digest_of (s : string) : string := "sha256:" +:+ hex_digits 64 (polynomial_hash 0 s).

(** ** Checkpoint *)

Definition pause_calls : list StoreCall :=
  [CallPrepareFreezer (mkContainerOperationRequest (context "op-pause") (target_current "web"))
     Freezer.Pause;
   CallCompleteFreezer "op-pause" Running (Some 42) true Freezer.Pause].

Definition demo_artifact : RuntimeArtifact :=
  mkRuntimeArtifact "a3s-oci-runtime" "1.0.0" (digest_of "runtime") None.
Definition demo_compatibility : CheckpointCompatibility :=
  mkCompatibility NativeLinux SharedHostKernel Linux "x86_64" demo_artifact (digest_of "driver")
    (mkCheckpointFormat "criu" 1).

Definition paused_world : World :=
  run_calls (create_calls ++ start_calls ++ pause_calls) fresh_world.

(** The live record of an ID, or a placeholder. *)
Definition record_of (id : string) (w : World) : option ContainerRecord :=
  sc_record <$> live_record id (w_disk w).

(** A reference to a checkpoint of generation [g] of [id]. *)
Definition demo_reference (id : string) (g : Z) : CheckpointReference :=
  mkCheckpointReference CHECKPOINT_REFERENCE_SCHEMA_V1 (target_exact id g) (digest_of "{}")
    (digest_of "none") demo_compatibility QuiescePaused (digest_of "artifact") 4096.

Definition checkpoint_of (o : string) (deadline : option Z) : CheckpointRequest :=
  mkCheckpointRequest (mkOperationContext o deadline) (target_exact "web" 1) "/var/ckpt/web.img"
    QuiescePaused None.

(** The driver's evidence for the paused container of [paused_world]. *)
Definition checkpoint_evidence : option CheckpointResponse :=
  (λ r, mkCheckpointResponse r (demo_reference "web" 1)) <$> record_of "web" paused_world.
Definition checkpoint_calls : list StoreCall :=
  CallPrepareCheckpoint (checkpoint_of "op-ckpt" None) ::
  from_option (λ e, [CallCompleteCheckpoint "op-ckpt" e]) [] checkpoint_evidence.

(** ** Restore *)

Definition restore_of (o id : string) (deadline : option Z) (reference : CheckpointReference)
    : RestoreRequest :=
  mkRestoreRequest (mkOperationContext o deadline) id demo_bundle "/var/ckpt/web.img"
    RequestSharedHostKernel (mkAttachments "none") (Some reference).
Definition restore_calls : list StoreCall :=
  [CallPrepareRestore (restore_of "op-restore" "copy" None (demo_reference "web" 1)) NativeLinux;
   CallCompleteRestore "op-restore" 77].

(** ** Attestation *)

Fixpoint zeros (n : nat) : string := match n with O => "" | S n => "0" +:+ zeros n end.

Definition create_tee (o id : string) : CreateRequest :=
  mkCreateRequest (context o) id demo_bundle RequestDedicatedVm (mkAttachments "tee").
Definition tee_calls : list StoreCall :=
  [CallPrepareCreate (create_tee "op-tee" "vm") LibkrunKvm None; CallCompleteCreate "op-tee" 9].
Definition attest_of (o : string) (deadline : option Z) : TeeAttestationRequest :=
  mkAttestationRequest (mkOperationContext o deadline) (target_exact "vm" 1) (zeros 64).
Definition demo_evidence : TeeEvidence :=
  mkTeeEvidence "application/vnd.amd.sev-snp" "report" (digest_of "report") 6.
Definition attestation_evidence : TeeAttestationResponse :=
  mkAttestationResponse TEE_ATTESTATION_SCHEMA_V1 (target_exact "vm" 1)
    (tee_launch_new AmdSevSnp Hardware) (zeros 64) (digest_of "{}") (digest_of "tee") LibkrunKvm
    demo_artifact (digest_of "driver") ("sha384:" +:+ zeros 96) demo_evidence.
Definition attest_calls : list StoreCall :=
  [CallPrepareAttestation (attest_of "op-attest" None);
   CallCompleteAttestation "op-attest" attestation_evidence].

Definition contract_calls : list StoreCall :=
  (create_calls ++ start_calls ++ pause_calls ++ checkpoint_calls ++ restore_calls ++ tee_calls
   ++ attest_calls)%list.

Definition replies_ok (cs : list StoreCall) (w : World) : list bool :=
  (fix go cs w := match cs with
   | [] => []
   | c :: cs => let '(r, w') := run_call c w in is_ok r :: go cs w'
   end) cs w.

(** The codecs of the environment meet their laws. *)
Lemma demo_launch_texts_nonempty r : r ∈ launches → launch_text r ≠ "".
Proof. intros H. repeat (apply elem_of_cons in H as [->|H]; [done|]). by apply elem_of_nil in H. Qed.

#[global] Instance DemoContractLaws : ContractLaws (CE := DemoContracts).
Proof.
  split; simpl.
  - done.
  - intros r s H. case_decide as Hr; [|done]. injection H as <-. revert r Hr.
    apply Forall_forall. repeat constructor.
  - intros r. case_decide as Hr; [|done]. intros [= H]. by eapply demo_launch_texts_nonempty.
Qed.

(** Round trips of concrete evidence and of a concrete annotation. *)
Lemma evidence_roundtrip_witness :
  tee_evidence_new (CE := DemoContracts) "application/vnd.amd.sev-snp" "report" = Ok demo_evidence.
Proof.
  apply (proj2 (evidence_roundtrip (CE := DemoContracts) "application/vnd.amd.sev-snp" "report"
    demo_evidence)).
  split; vm_compute; reflexivity.
Defined.

Lemma launch_annotation_roundtrip_witness :
  from_annotation_value (CE := DemoContracts) "dev.a3s.tee.intel-tdx#simulated"
    = Ok (tee_launch_new IntelTdx Simulated).
Proof.
  apply (proj2 (launch_annotation_roundtrip (CE := DemoContracts) (tee_launch_new IntelTdx Simulated)
    "dev.a3s.tee.intel-tdx#simulated")).
  vm_compute. reflexivity.
Defined.

(** Every call of the run succeeds, and the root opens afterwards. *)
Example contract_calls_recorded :
  Forall (λ b, b = true) (replies_ok contract_calls fresh_world) ∧
  let d := w_disk (run_calls contract_calls fresh_world) in
  summary "web" d = Some (Running, Some 42, 1) ∧ summary "copy" d = Some (Running, Some 77, 1) ∧
  summary "vm" d = Some (Created, Some 9, 1) ∧ audit_startup_state d = Ok ().
Proof. vm_compute. split_and!; try reflexivity. repeat constructor. Qed.
