(* ===== verification/Guarantees.v ===== *)
(** * Guarantees of the store

    What a client of [DurableStateStore] can rely on, over every sequence of
    calls, every injected fault and every interruption. *)

From stdpp Require Import base gmap strings list relations.
From S2P Require Import Prelude Sdk Identifiers Lifecycle Fault OciState Contracts StoreModel Disk.
From S2P Require Import RestoreContract Journal.
From S2P Require Import Events Claims Create Start Kill Freezer Update ProcessStore ProcessIoStore.
From S2P Require Import Delete Observe StartupAudit Machine Refine RefineOps RefineProcess Store.
From S2P Require Import AuditCorrect Scenario.
Local Open Scope string_scope.
Local Open Scope Z_scope.

Lemma life_calls_well_typed : Forall well_typed life_calls.
Proof. repeat constructor. Qed.

Lemma fresh_inv : store_inv (SE := DemoEnv) (w_disk fresh_world).
Proof. apply store_inv_empty. Qed.

Section guarantees.
Context `{SE : StoreEnv}.
Implicit Types w : World.

(** C2: every use of the store refines the abstract store machine.  Whatever
    calls are made, whatever the injector does to each of their writes and
    whatever each call returns, the state root moves along the steps of
    [astep]: in particular no partially executed call leaves a state that a
    legitimate sequence of durable changes could not have produced. *)
Theorem store_calls_refine cs w :
  Forall well_typed cs → store_inv (w_disk w) →
  rtc astep (w_disk w) (w_disk (run_calls cs w)) ∧ store_inv (w_disk (run_calls cs w)).
Proof.
  intros Hcs Hinv. pose proof (run_calls_steps cs w Hcs Hinv) as Hs.
  split; [done|]. by eapply store_inv_steps.
Qed.


(** C17: no record is lost.  After any calls the record of a container that was
    live is still live, or is kept in a quarantine entry, with the same
    identity, generation, driver, digests and attachments, an OCI status
    reached along the OCI lifecycle, and its exit status if one was recorded. *)
Theorem container_records_kept cs w id c :
  Forall well_typed cs → store_inv (w_disk w) → live_record id (w_disk w) = Some c →
  ∃ c', (live_record id (w_disk (run_calls cs w)) = Some c' ∨
         ∃ t dir, d_quarantine (w_disk (run_calls cs w)) !! t = Some dir ∧
           cd_record dir = Some c') ∧
    sc_id c' = sc_id c ∧ sc_attachments c' = sc_attachments c ∧
    sc_record c' = with_state (cr_state (sc_record c')) (sc_record c) ∧
    lifecycle_reach (st_status (cr_state (sc_record c))) (st_status (cr_state (sc_record c'))) ∧
    (∀ x, sc_init_exit_status c = Some x → sc_init_exit_status c' = Some x).
Proof.
  intros Hcs Hinv Hc. pose proof (disk_le_steps _ _ (run_calls_steps cs w Hcs Hinv)) as Hs.
  destruct (dl_record _ _ Hs id c Hc) as [(c' & ? & [])|(kind & o & dir & c' & ? & ? & [])];
    exists c'; split_and!; eauto.
Qed.

(** C25: generations fence identities.  After any calls two creations of one
    container never share a generation, no operation and no live record names
    a generation beyond the durable counter of its container, and no counter
    has decreased. *)
Theorem generations_unique cs w :
  Forall well_typed cs → store_inv (w_disk w) →
  let d := w_disk (run_calls cs w) in
  (∀ o o' op op', d_operations d !! o = Some op → d_operations d !! o' = Some op' →
     is_creation (so_kind op) = true → is_creation (so_kind op') = true →
     so_container_id op = so_container_id op' → so_generation op = so_generation op' → o = o') ∧
  (∀ o op, d_operations d !! o = Some op → 0 < so_generation op ≤ last_gen (so_container_id op) d) ∧
  (∀ id c, live_record id d = Some c → 0 < cr_generation (sc_record c) ≤ last_gen id d) ∧
  (∀ id, last_gen id (w_disk w) ≤ last_gen id d).
Proof.
  intros Hcs Hinv d. pose proof (run_calls_steps cs w Hcs Hinv) as Hs.
  pose proof (store_inv_steps _ _ Hs Hinv) as Hd. split_and!.
  - apply (oi_creation d (si_operations d Hd)).
  - intros o op Ho. by apply (oi_entry d (si_operations d Hd)) in Ho as (_ & _ & _ & _ & ?).
  - intros id c Hc. by apply (ci_record d (si_containers d Hd)) in Hc as (_ & _ & ?).
  - apply (dl_generation _ _ (disk_le_steps _ _ Hs)).
Qed.

(** C34: the event journal is append-only and sequence numbers identify events.
    After any calls every claim and every record is unchanged and the cursor
    has not moved back; no two claims share a sequence, and every record
    stores the event of a claim. *)
Theorem event_journal_append_only cs w :
  Forall well_typed cs → store_inv (w_disk w) →
  let d := w_disk w in let d' := w_disk (run_calls cs w) in
  d_claims d ⊆ d_claims d' ∧ d_events d ⊆ d_events d' ∧ cursor_value d ≤ cursor_value d' ∧
  (∀ h h' k k', d_claims d' !! h = Some k → d_claims d' !! h' = Some k' →
     ev_sequence (sk_event k) = ev_sequence (sk_event k') → h = h') ∧
  (∀ s r, d_events d' !! s = Some r →
     ∃ h k, d_claims d' !! h = Some k ∧ sk_event k = sr_event r ∧ ev_sequence (sk_event k) = s).
Proof.
  intros Hcs Hinv d d'. pose proof (run_calls_steps cs w Hcs Hinv) as Hs.
  pose proof (disk_le_steps _ _ Hs) as Hle. pose proof (store_inv_steps _ _ Hs Hinv) as Hinv'.
  split_and!; [apply Hle..| |].
  - apply (ei_unique _ (si_events _ Hinv')).
  - intros s r Hr. apply (ei_event _ (si_events _ Hinv')) in Hr as (_ & <- & h & k & ? & He).
    exists h, k. by rewrite He.
Qed.

(** A restart never rejects the store's own journals.  For every reachable
    state root, interrupted calls included, the startup audits of operations,
    generation counters, creation ownership and events succeed. *)
Theorem startup_audit_accepts_journals `{!HexDigest} d :
  reachable d →
  ∃ operations generations,
    audit_operation_entries d = Ok operations ∧ operations = d_operations d ∧
    audit_generation_entries d = Ok generations ∧
    audit_operation_generations operations generations = Ok () ∧
    audit_event_entries d = Ok ().
Proof.
  intros [? ? ? ? ?]%reachable_inv. exists (d_operations d), (sg_last_generation <$> d_generations d).
  split_and!; eauto using audit_operation_entries_ok, audit_generation_entries_ok,
    audit_operation_generations_ok, audit_event_entries_ok.
Qed.
End guarantees.

(** ** Witnesses *)

Lemma store_calls_refine_witness :
  rtc (astep (SE := DemoEnv)) (w_disk fresh_world) (w_disk (run_calls life_calls fresh_world)).
Proof. apply (store_calls_refine life_calls fresh_world life_calls_well_typed fresh_inv). Defined.

(** A failed creation stays failed through the life of another container. *)
Definition failed_world : World :=
  run_calls [CallPrepareCreate (create_of "op-bad" "db") NativeLinux None;
             CallFail "op-bad" injected_fault] fresh_world.

Lemma failed_world_inv : store_inv (SE := DemoEnv) (w_disk failed_world).
Proof.
  eapply store_inv_steps; [apply run_calls_steps|apply fresh_inv]; [repeat constructor|apply fresh_inv].
Qed.


(** A running container, with the record that its deletion quarantines. *)
Definition running_world : World := run_calls (create_calls ++ start_calls) fresh_world.

Lemma running_world_inv : store_inv (SE := DemoEnv) (w_disk running_world).
Proof.
  eapply store_inv_steps; [apply run_calls_steps|apply fresh_inv]; [repeat constructor|apply fresh_inv].
Qed.

Lemma end_calls_well_typed : Forall well_typed (stop_calls ++ delete_calls).
Proof. repeat constructor. Qed.

Lemma container_records_kept_witness :
  ∃ c', (live_record "web" (w_disk (run_calls (stop_calls ++ delete_calls) running_world)) = Some c' ∨
     ∃ t dir, d_quarantine (w_disk (run_calls (stop_calls ++ delete_calls) running_world)) !! t
       = Some dir ∧ cd_record dir = Some c') ∧ sc_id c' = "web".
Proof.
  destruct (live_record "web" (w_disk running_world)) as [c|] eqn:Hc;
    [|vm_compute in Hc; discriminate Hc].
  assert (sc_id c = "web") as Hid by (vm_compute in Hc; injection Hc as <-; reflexivity).
  destruct (container_records_kept (stop_calls ++ delete_calls) running_world "web" c
    end_calls_well_typed running_world_inv Hc) as (c' & Hl & Hi & _).
  exists c'. split; [exact Hl|congruence].
Defined.

Lemma life_reachable : reachable (SE := DemoEnv) (w_disk (run_calls life_calls fresh_world)).
Proof. exists life_calls, fresh_world. split_and!; [apply life_calls_well_typed|done..]. Qed.

Lemma generations_unique_witness :
  ∃ op, d_operations (w_disk (run_calls life_calls fresh_world)) !! "op-delete" = Some op ∧
    so_kind op = KDelete ∧
    0 < so_generation op ≤ last_gen (so_container_id op) (w_disk (run_calls life_calls fresh_world)).
Proof.
  destruct (d_operations (w_disk (run_calls life_calls fresh_world)) !! "op-delete") as [op|] eqn:Ho;
    [|vm_compute in Ho; discriminate Ho].
  exists op. split; [reflexivity|].
  split; [vm_compute in Ho; injection Ho as <-; reflexivity|].
  exact (proj1 (proj2 (generations_unique life_calls fresh_world life_calls_well_typed fresh_inv))
    "op-delete" op Ho).
Defined.

Lemma event_journal_append_only_witness :
  d_claims (w_disk running_world) ⊆
    d_claims (w_disk (run_calls (stop_calls ++ delete_calls) running_world)).
Proof.
  exact (proj1 (event_journal_append_only (stop_calls ++ delete_calls) running_world
    end_calls_well_typed running_world_inv)).
Defined.

Lemma startup_audit_accepts_journals_witness :
  audit_event_entries (SE := DemoEnv) (w_disk (run_calls life_calls fresh_world)) = Ok ().
Proof.
  destruct (startup_audit_accepts_journals _ life_reachable) as (ops & gens & _ & _ & _ & _ & He).
  exact He.
Defined.
