(* ===== verification/Replay.v ===== *)
(** * Exactly-once behaviour of the two-phase operations

    A completion that succeeded is journaled: repeating it returns the recorded
    answer and changes nothing.  A prepare that
    reuses an operation ID for another request is rejected without an effect,
    and one that retries a failed operation returns the recorded failure. *)

From stdpp Require Import base gmap strings list.
From S2P Require Import Prelude Sdk Identifiers Lifecycle Fault OciState Contracts StoreModel Disk.
From S2P Require Import RestoreContract Journal.
From S2P Require Import Events Claims Create Start Kill Freezer Update ProcessStore ProcessIoStore.
From S2P Require Import FileStore CheckpointStore RestoreStore AttestationStore Delete Observe.
From S2P Require Import StartupAudit Machine Refine RefineOps RefineProcess RefineContracts Store.
From S2P Require Import AuditCorrect Scenario.
Local Open Scope string_scope.
Local Open Scope Z_scope.

(** ** Running a program forwards and backwards *)

Section runs.
Context `{SE : StoreEnv}.
Implicit Types w : World.

Lemma bind_inv {A B} (m : M A) (k : A → M B) w b w' :
  bind m k w = (Ok b, w') → ∃ a w1, m w = (Ok a, w1) ∧ k a w1 = (Ok b, w').
Proof. unfold bind. destruct (m w) as [[a|e] w1]; [eauto|done]. Qed.

Lemma lift_inv {A} (r : Result A) w a w' : lift r w = (Ok a, w') → r = Ok a ∧ w' = w.
Proof. by intros [= ? ?]. Qed.

Lemma read_inv {A} (f : Disk → Result A) w a w' :
  read f w = (Ok a, w') → f (w_disk w) = Ok a ∧ w' = w.
Proof. by intros [= ? ?]. Qed.

Lemma ret_inv {A} (a b : A) w w' : (ret a : M A) w = (Ok b, w') → b = a ∧ w' = w.
Proof. by intros [= <- <-]. Qed.

Lemma run_lift {A B} (r : Result A) a (k : A → M B) w : r = Ok a → bind (lift r) k w = k a w.
Proof. by intros ->. Qed.

Lemma run_read {A B} (f : Disk → Result A) a (k : A → M B) w :
  f (w_disk w) = Ok a → bind (read f) k w = k a w.
Proof. unfold bind, read. by intros ->. Qed.

(** The journal after a committed outcome. *)
Lemma write_outcome_loads m o op outcome w0 w w' :
  load_operation o (w_disk w0) = Ok op →
  validate_stored_operation_shape (set_outcome outcome op) = Ok () →
  write_operation m o (set_outcome outcome op) w = (Ok (), w') →
  load_operation o (w_disk w') = Ok (set_outcome outcome op).
Proof.
  intros Hload Hsh Hw. apply write_json_ok in Hw as [_ ->]. revert Hload. unfold load_operation.
  intros H. inv_ok. simpl. rewrite lookup_insert_eq. simpl.
  match goal with H : _ || _ = false |- _ => rewrite H end. simpl. by rewrite Hsh.
Qed.
End runs.

(** Split a successful run into the runs of its statements. *)
Ltac inv_run :=
  repeat (match goal with
  | H : bind _ _ _ = (Ok _, _) |- _ => apply bind_inv in H as (? & ? & ? & H)
  | H : lift _ _ = (Ok _, _) |- _ => apply lift_inv in H as [? ->]
  | H : read _ _ = (Ok _, _) |- _ => apply read_inv in H as [? ->]
  | H : ret _ _ = (Ok _, _) |- _ => apply ret_inv in H as [-> ->]
  | H : fail _ _ = (Ok _, _) |- _ => discriminate H
  | H : (match ?x with _ => _ end) _ = (Ok _, _) |- _ => destruct x eqn:?
  end; simpl in *).

(** Run statements whose results are known. *)
Ltac run_known :=
  repeat (first [ erewrite run_lift by eassumption | erewrite run_read by eassumption ]; cbn beta).

(** A guard on the kind of the loaded operation that passed. *)
Lemma kind_guard (k k' : StoredOperationKind) (e : Error) u :
  reject_if (bool_decide (k ≠ k')) e = Ok u → k = k'.
Proof. intros H%reject_if_ok. by apply bool_decide_eq_false, dec_stable in H. Qed.

(** ** Completions *)

(** The calls that commit the outcome of a prepared operation. *)
Definition completes (c : StoreCall) : option string :=
  match c with
  | CallCompleteCreate o _ | CallCompleteStart o _ _ | CallCompleteKill o _ _
  | CallCompleteFreezer o _ _ _ _ | CallCompleteUpdate o _ _ _ | CallCompleteDelete o
  | CallCompleteExec o _ _ | CallCompleteSignal o | CallCompleteWriteStdin o
  | CallCompleteCloseStdin o | CallCompleteResize o | CallCompleteFile o _
  | CallCompleteFilesystem o _ | CallCompleteCheckpoint o _ | CallCompleteRestore o _
  | CallCompleteAttestation o _ => Some o
  | _ => None
  end.

(** The reply that an outcome stands for. *)
Definition outcome_reply (s : StoredOperationStatus) : option StoreReply :=
  match s with
  | Succeeded r => Some (ReplyRecord r)
  | SucceededProcess r => Some (ReplyProcess r)
  | SucceededEmpty => Some (ReplyUnit ())
  | SucceededFilesystem (ResponseFile r) => Some (ReplyFile r)
  | SucceededFilesystem (ResponseFilesystem r) => Some (ReplyFilesystem r)
  | SucceededCheckpoint r => Some (ReplyCheckpoint r)
  | SucceededRestore r => Some (ReplyRestore r)
  | SucceededAttestation r => Some (ReplyAttestation r)
  | _ => None
  end.

Section completions.
Context `{SE : StoreEnv}.
Implicit Types w : World.

(** The journal entry of a completed call, and the call repeated. *)
Definition replays {A} (m : M A) (f : A → StoredOperationStatus) (o : string) w r w' : Prop :=
  (∃ op, load_operation o (w_disk w') = Ok op ∧ so_outcome op = f r) ∧ m w' = (Ok r, w').

(** The outcome of a kind that retains no request. *)
Ltac replay_plain tac :=
  idtac; apply shape_plain;
    [match goal with H : so_kind _ = _ |- _ => rewrite H end; tac|done|done].

Ltac replay tac :=
  intros H; inv_run;
  lazymatch goal with
  | Hl : load_operation ?o _ = Ok ?op, Hk : reject_if (bool_decide (so_kind ?op ≠ _)) _ = Ok _,
    Hw : write_operation _ ?o (set_outcome ?out ?op) _ = (Ok ?u, ?w') |- _ =>
      let Hl' := fresh "Hl" in
      destruct u;
      assert (load_operation o (w_disk w') = Ok (set_outcome out op)) as Hl'
        by (eapply write_outcome_loads; [exact Hl| |exact Hw];
            pose proof (load_operation_ok _ _ _ Hl) as (_ & _ & ?);
            pose proof (kind_guard _ _ _ _ Hk); tac);
      split; [by eexists|]; run_known; reflexivity
  | Hl : load_operation ?o _ = Ok ?op, Ho : so_outcome ?op = _ |- _ =>
      split; [by eexists|]; run_known; rewrite Ho; reflexivity
  end.

Lemma complete_create_replays o pid w r w' :
  complete_create o pid w = (Ok r, w') → replays (complete_create o pid) Succeeded o w r w'.
Proof. unfold complete_create, replays. replay ltac:(replay_plain done). Qed.

Lemma complete_start_replays o status pid w r w' :
  Start.complete_start o status pid w = (Ok r, w') →
  replays (Start.complete_start o status pid) Succeeded o w r w'.
Proof. unfold Start.complete_start, replays. replay ltac:(replay_plain done). Qed.

Lemma complete_kill_replays o status pid w r w' :
  Kill.complete_kill o status pid w = (Ok r, w') →
  replays (Kill.complete_kill o status pid) Succeeded o w r w'.
Proof. unfold Kill.complete_kill, replays. replay ltac:(replay_plain done). Qed.

Lemma complete_freezer_replays o status pid paused action w r w' :
  complete_freezer o status pid paused action w = (Ok r, w') →
  replays (complete_freezer o status pid paused action) Succeeded o w r w'.
Proof. unfold complete_freezer, replays. replay ltac:(replay_plain ltac:(by destruct action)). Qed.

Lemma complete_update_replays o status pid paused w r w' :
  complete_update o status pid paused w = (Ok r, w') →
  replays (complete_update o status pid paused) Succeeded o w r w'.
Proof. unfold complete_update, replays. replay ltac:(replay_plain done). Qed.

Lemma complete_delete_replays o w r w' :
  complete_delete o w = (Ok r, w') → replays (complete_delete o) (λ _, SucceededEmpty) o w r w'.
Proof. unfold complete_delete, finish_moved_delete, replays. replay ltac:(replay_plain done). Qed.

Lemma complete_exec_replays o pid terminal w r w' :
  complete_exec o pid terminal w = (Ok r, w') →
  replays (complete_exec o pid terminal) SucceededProcess o w r w'.
Proof. unfold complete_exec, replays. replay ltac:(replay_plain done). Qed.

Lemma complete_signal_process_replays o w r w' :
  complete_signal_process o w = (Ok r, w') →
  replays (complete_signal_process o) (λ _, SucceededEmpty) o w r w'.
Proof. unfold complete_signal_process, replays. replay ltac:(replay_plain done). Qed.

Lemma complete_process_io_replays o profile w r w' :
  io_profile profile → complete_process_io_operation o profile w = (Ok r, w') →
  replays (complete_process_io_operation o profile) (λ _, SucceededEmpty) o w r w'.
Proof.
  intros Hp. unfold complete_process_io_operation, replays. replay ltac:(replay_plain ltac:(by apply io_kind_plain)).
Qed.

(** The operations with retained requests. *)
Ltac replay_fits tac := idtac; apply shape_fits; [done|]; tac.

Lemma complete_mutation_replays o response profile w r w' :
  (∀ op, so_kind op = fm_kind profile → validate_stored_operation_shape op = Ok () →
     response_target_matches op (mutation_response_target response) = true →
     outcome_fits op (SucceededFilesystem response) = true) →
  complete_filesystem_mutation_operation o response profile w = (Ok r, w') →
  replays (complete_filesystem_mutation_operation o response profile) SucceededFilesystem o w r w'.
Proof.
  intros Hfit. unfold complete_filesystem_mutation_operation, replays.
  replay ltac:(replay_fits ltac:(apply Hfit; [done|done|by eapply ensure_matches])).
Qed.

Lemma complete_file_mutation_replays o response w r w' :
  complete_file_mutation o response w = (Ok r, w') →
  replays (complete_file_mutation o response) (λ r, SucceededFilesystem (ResponseFile r)) o w r w'.
Proof.
  unfold complete_file_mutation. intros H. inv_run.
  match goal with H : complete_filesystem_mutation_operation _ _ _ _ = _ |- _ =>
    apply complete_mutation_replays in H as [Hl Hr]; [|intros op; apply file_fits] end.
  split; [done|]. by rewrite (bind_ok _ _ _ _ _ Hr).
Qed.

Lemma complete_filesystem_mutation_replays o response w r w' :
  complete_filesystem_mutation o response w = (Ok r, w') →
  replays (complete_filesystem_mutation o response)
    (λ r, SucceededFilesystem (ResponseFilesystem r)) o w r w'.
Proof.
  unfold complete_filesystem_mutation. intros H. inv_run.
  match goal with H : complete_filesystem_mutation_operation _ _ _ _ = _ |- _ =>
    apply complete_mutation_replays in H as [Hl Hr]; [|intros op; apply filesystem_fits] end.
  split; [done|]. by rewrite (bind_ok _ _ _ _ _ Hr).
Qed.

Lemma complete_checkpoint_replays o response w r w' :
  complete_checkpoint o response w = (Ok r, w') →
  replays (complete_checkpoint o response) SucceededCheckpoint o w r w'.
Proof.
  unfold complete_checkpoint, replays.
  replay ltac:(replay_fits
    ltac:(eapply checkpoint_fits; [done|by eapply retained_checkpoint_request|done])).
Qed.

Lemma complete_attestation_replays o response w r w' :
  complete_attestation o response w = (Ok r, w') →
  replays (complete_attestation o response) SucceededAttestation o w r w'.
Proof.
  unfold complete_attestation, replays.
  replay ltac:(replay_fits
    ltac:(eapply attestation_fits; [done|by eapply retained_attestation_request|done])).
Qed.

Lemma complete_restore_replays o pid w r w' :
  complete_restore o pid w = (Ok r, w') →
  replays (complete_restore o pid) SucceededRestore o w r w'.
Proof.
  unfold complete_restore, replays.
  replay ltac:(replay_fits
    ltac:(eapply restore_fits; [done|by eapply retained_restore_request_ok| |done];
      match goal with H : restore_response_new _ _ = Ok _ |- _ =>
        apply restore_response_new_ok in H as -> end;
      match goal with H : complete_restore_state _ _ _ = Ok _ |- _ =>
        apply complete_restore_state_step in H as [_ H];
        match goal with H' : load_stored_exact _ _ _ = Ok _ |- _ =>
          apply load_stored_exact_ok in H' as (_ & _ & ? & _) end end;
      simpl; congruence)).
Qed.

Lemma reply_replays {A} (f : A → StoreReply) (g : A → StoredOperationStatus) (m : M A) o w r w' :
  (∀ a, outcome_reply (g a) = Some (f a)) →
  (∀ a, m w = (Ok a, w') → replays m g o w a w') →
  reply f m w = (Ok r, w') →
  (∃ op, load_operation o (w_disk w') = Ok op ∧ outcome_reply (so_outcome op) = Some r) ∧
  reply f m w' = (Ok r, w').
Proof.
  intros Hg Hm H. unfold reply in *. inv_run.
  match goal with H : m w = (Ok ?a, _) |- _ => destruct (Hm a H) as [(op & ? & Ho) Hr] end.
  split; [exists op; by rewrite Ho, Hg|]. by erewrite bind_ok.
Qed.

(** C18: completions are exactly-once.  Whenever a call that completes a create,
    start, kill, pause, resume, update, delete, exec, signal, process-I/O,
    filesystem, checkpoint, restore or attestation operation returned success, under any injector, the journal holds the
    outcome with exactly that answer, and the same call made again returns
    the same answer and changes nothing at all. *)
Theorem completion_exactly_once c o w r w' :
  completes c = Some o → run_call c w = (Ok r, w') →
  (∃ op, load_operation o (w_disk w') = Ok op ∧ outcome_reply (so_outcome op) = Some r) ∧
  run_call c w' = (Ok r, w').
Proof.
  intros Hc H. destruct c; simplify_eq/=; revert H.
  - apply reply_replays with (g := Succeeded); [done|]. intros ?. apply complete_create_replays.
  - apply reply_replays with (g := Succeeded); [done|]. intros ?. apply complete_start_replays.
  - apply reply_replays with (g := Succeeded); [done|]. intros ?. apply complete_kill_replays.
  - apply reply_replays with (g := Succeeded); [done|]. intros ?. apply complete_freezer_replays.
  - apply reply_replays with (g := Succeeded); [done|]. intros ?. apply complete_update_replays.
  - apply reply_replays with (g := λ _, SucceededEmpty); [by intros []|]. intros ?.
    apply complete_delete_replays.
  - apply reply_replays with (g := SucceededProcess); [done|]. intros ?.
    apply complete_exec_replays.
  - apply reply_replays with (g := λ _, SucceededEmpty); [by intros []|]. intros ?.
    apply complete_signal_process_replays.
  - apply reply_replays with (g := λ _, SucceededEmpty); [by intros []|]. intros ?.
    by apply complete_process_io_replays.
  - apply reply_replays with (g := λ _, SucceededEmpty); [by intros []|]. intros ?.
    by apply complete_process_io_replays.
  - apply reply_replays with (g := λ _, SucceededEmpty); [by intros []|]. intros ?.
    by apply complete_process_io_replays.
  - apply reply_replays with (g := λ r, SucceededFilesystem (ResponseFile r)); [done|]. intros ?.
    apply complete_file_mutation_replays.
  - apply reply_replays with (g := λ r, SucceededFilesystem (ResponseFilesystem r)); [done|].
    intros ?. apply complete_filesystem_mutation_replays.
  - apply reply_replays with (g := SucceededCheckpoint); [done|]. intros ?.
    apply complete_checkpoint_replays.
  - apply reply_replays with (g := SucceededRestore); [done|]. intros ?.
    apply complete_restore_replays.
  - apply reply_replays with (g := SucceededAttestation); [done|]. intros ?.
    apply complete_attestation_replays.
Qed.
End completions.

(** A start completed in a concrete store, and completed again. *)
Definition started_before : World :=
  run_calls (create_calls ++ [CallPrepareStart (start_of "op-start" "web")]) fresh_world.
Definition start_completion : StoreCall := CallCompleteStart "op-start" Running (Some 42).

Lemma completion_exactly_once_witness :
  ∃ r, run_call start_completion (run_call start_completion started_before).2
       = (Ok r, (run_call start_completion started_before).2).
Proof.
  destruct (run_call start_completion started_before) as [[r|e] w'] eqn:H.
  - exists r. exact (proj2 (completion_exactly_once start_completion "op-start" started_before r w'
      eq_refl H)).
  - exfalso. apply (f_equal (λ x, is_ok x.1)) in H. vm_compute in H. discriminate H.
Defined.

(** ** Retried prepares *)

Section retries.
Context `{SE : StoreEnv}.
Implicit Types w : World.

(** The journal identity of a prepare: operation ID, kind, container and, for
    process operations, the process. *)
Definition journal_key (c : StoreCall)
    : option (string * StoredOperationKind * string * option string) :=
  match c with
  | CallPrepareCreate r _ _ =>
      Some (oc_operation_id (create_context r), KCreate, create_id r, None)
  | CallPrepareStart r => Some (oc_operation_id (start_context r), KStart, ct_id (start_target r), None)
  | CallPrepareKill r => Some (oc_operation_id (kill_context r), KKill, ct_id (kill_target r), None)
  | CallPrepareFreezer r action =>
      Some (oc_operation_id (cop_context r), action_kind action, ct_id (cop_target r), None)
  | CallPrepareUpdate r =>
      Some (oc_operation_id (update_context r), KUpdate, ct_id (update_target r), None)
  | CallPrepareDelete r =>
      Some (oc_operation_id (delete_context r), KDelete, ct_id (delete_target r), None)
  | CallPrepareExec r =>
      Some (oc_operation_id (exec_context r), KExec, ct_id (exec_container r),
            Some (exec_process_id r))
  | CallPrepareSignal r =>
      Some (oc_operation_id (sig_context r), KSignalProcess,
            ct_id (pt_container (sig_process r)), Some (pt_process_id (sig_process r)))
  | CallPrepareWriteStdin r =>
      Some (oc_operation_id (ws_context r), KWriteStdin, ct_id (pt_container (ws_process r)),
            Some (pt_process_id (ws_process r)))
  | CallPrepareCloseStdin r =>
      Some (oc_operation_id (cs_context r), KCloseStdin, ct_id (pt_container (cs_process r)),
            Some (pt_process_id (cs_process r)))
  | CallPrepareResize r =>
      Some (oc_operation_id (rz_context r), KResize, ct_id (pt_container (rz_process r)),
            Some (pt_process_id (rz_process r)))
  | CallPrepareFile r =>
      (λ c, (oc_operation_id c, KFile, ct_id (file_target r), None)) <$> file_context r
  | CallPrepareFilesystem r =>
      (λ c, (oc_operation_id c, KFilesystem, ct_id (fs_target r), None)) <$> fs_context r
  | CallPrepareCheckpoint r =>
      Some (oc_operation_id (ckr_context r), KCheckpoint, ct_id (ckr_target r), None)
  | CallPrepareRestore r _ => Some (oc_operation_id (rr_context r), KRestore, rr_id r, None)
  | CallPrepareAttestation r =>
      Some (oc_operation_id (atr_context r), KAttest, ct_id (atr_target r), None)
  | _ => None
  end.

(** The request that a retry is compared with in full, beside its digest. *)
Definition compared_request (c : StoreCall) : option StoredOperationRequest :=
  match c with
  | CallPrepareCheckpoint r => Some (RequestCheckpoint r)
  | CallPrepareRestore r _ => Some (RequestRestore r)
  | CallPrepareAttestation r => Some (RequestAttest r)
  | _ => None
  end.

(** The digests of a prepare's request, once the request itself validates. *)
Definition call_digests (c : StoreCall) : Result RequestDigests :=
  match c with
  | CallPrepareCreate r _ inherited =>
      check! create_request_validate r; create_request_digest r inherited
  | CallPrepareStart r => request_digest (StartFingerprint (start_target r)) "digest-start-request"
  | CallPrepareKill r =>
      request_digest (KillFingerprint (kill_target r) (kill_signal r) (kill_all r))
        "digest-kill-request"
  | CallPrepareFreezer r action =>
      request_digest (FreezerFingerprint (cop_target r)) (action_name action)
  | CallPrepareUpdate r =>
      check! semantic_validate_resources (update_resources r);
      request_digest (UpdateFingerprint (update_target r) (update_resources r)) "update"
  | CallPrepareDelete r =>
      request_digest (DeleteFingerprint (delete_target r) (delete_mode r)) "digest-delete-request"
  | CallPrepareExec r =>
      check! validate_exec_request r;
      request_digest (ExecFingerprint (exec_container r) (exec_process_id r) (exec_process r)
        (exec_io r)) "digest-exec-request"
  | CallPrepareSignal r =>
      request_digest (SignalProcessFingerprint (sig_process r) (sig_signal r))
        "digest-signal-process-request"
  | CallPrepareWriteStdin r =>
      check! validate_write_stdin_request r;
      request_digest (WriteStdinFingerprint (ws_process r) (ws_data r)) "digest-write-stdin-request"
  | CallPrepareCloseStdin r =>
      request_digest (ProcessTargetFingerprint (cs_process r)) "digest-close-stdin-request"
  | CallPrepareResize r =>
      check! validate_resize_request r;
      request_digest (ResizeFingerprint (rz_process r) (rz_size r)) "digest-resize-request"
  | CallPrepareFile r =>
      check! validate_file_request base64_decoded_len r;
      check! reject_if (bool_decide (file_op r ≠ Upload)) (invalid_request "not an upload");
      request_digest (FileFingerprint (file_target r) (file_op r) (file_path r) (file_data r)
        (file_user r)) "file"
  | CallPrepareFilesystem r =>
      check! validate_filesystem_request r;
      check! reject_if (negb (fs_is_mutating (fs_op r))) (invalid_request "not a mutation");
      request_digest (FilesystemFingerprint (fs_target r) (fs_op r) (fs_path r) (fs_destination r)
        (fs_depth r) (fs_user r)) "filesystem"
  | CallPrepareCheckpoint r => check! checkpoint_request_validate r; checkpoint_request_digest r
  | CallPrepareRestore r _ => check! restore_request_validate r; restore_request_digest r
  | CallPrepareAttestation r => check! attest_request_validate r; attestation_request_digest r
  | _ => Err (invalid_request "not a prepare")
  end.

(** A journal entry made for exactly this request. *)
Definition same_request (op : StoredOperation) (kind : StoredOperationKind) (id : string)
    (process : option string) (digests : RequestDigests)
    (compared : option StoredOperationRequest) : Prop :=
  so_kind op = kind ∧ so_container_id op = id ∧
  for_schema digests (so_schema_version op) = Some (so_request_digest op) ∧
  match process with Some p => so_process_id op = Some p | None => True end ∧
  match compared with Some r => so_request op = Some r | None => True end.

Lemma err_lift {A B} (r : Result A) (k : A → M B) w :
  (∀ a, r = Ok a → ∃ e, k a w = (Err e, w)) → ∃ e, bind (lift r) k w = (Err e, w).
Proof. intros H. destruct r as [a|e]; [by apply H|by exists e]. Qed.

Lemma load_if_present o d op :
  load_operation o d = Ok op → load_operation_if_present o d = Ok (Some op).
Proof.
  intros H. pose proof (load_operation_ok _ _ _ H) as (Ho & _). unfold load_operation_if_present.
  by rewrite Ho, H.
Qed.

Lemma validate_retry_mismatch op o kind id digests name :
  ¬ same_request op kind id None digests None →
  ∃ e, validate_retry op o kind id digests name = Err e.
Proof.
  intros Hne. destruct (validate_retry _ _ _ _ _ _) as [u|e] eqn:H; [|eauto].
  apply validate_retry_ok in H as (? & ? & ?). exfalso. by apply Hne.
Qed.

Lemma validate_retry_same op o kind id digests name :
  same_request op kind id None digests None → validate_retry op o kind id digests name = Ok ().
Proof.
  intros (Hk & Hid & Hd & _). unfold validate_retry. rewrite Hd. simpl.
  by rewrite Hk, Hid, !bool_decide_eq_false_2 by naive_solver.
Qed.

Lemma validate_process_retry_mismatch op o kind id p digests name :
  ¬ same_request op kind id (Some p) digests None →
  ∃ e, validate_process_retry op o kind id p digests name = Err e.
Proof.
  intros Hne. unfold validate_process_retry.
  destruct (validate_retry op o kind id digests name) as [u|e] eqn:H; [|simpl; eauto].
  apply validate_retry_ok in H as (? & ? & ?). simpl. rewrite bool_decide_eq_true_2; [simpl; eauto|].
  intros Hp. by apply Hne.
Qed.

Lemma validate_process_retry_same op o kind id p digests name :
  same_request op kind id (Some p) digests None →
  validate_process_retry op o kind id p digests name = Ok ().
Proof.
  intros (Hk & Hid & Hd & Hp & _). unfold validate_process_retry.
  rewrite validate_retry_same by done. simpl. by rewrite bool_decide_eq_false_2 by naive_solver.
Qed.

(** A retry that is also compared with the retained request. *)
Lemma compared_mismatch {A} op o kind id digests name r e (k : () → () → M A) w :
  ¬ same_request op kind id None digests (Some r) →
  ∃ e', bind (lift (validate_retry op o kind id digests name)) (λ u,
     bind (lift (reject_if (bool_decide (so_request op ≠ Some r)) e)) (k u)) w = (Err e', w).
Proof.
  intros Hne. apply err_lift. intros u (? & ? & ?)%validate_retry_ok. apply err_lift.
  intros u' Hr%reject_if_ok%bool_decide_eq_false%dec_stable. exfalso. by apply Hne.
Qed.

Lemma compared_retry_mismatch op o kind id digests name r e :
  ¬ same_request op kind id None digests (Some r) →
  ∃ e', (check! validate_retry op o kind id digests name;
         reject_if (bool_decide (so_request op ≠ Some r)) e) = Err e'.
Proof.
  intros Hne. destruct (validate_retry _ _ _ _ _ _) as [u|e'] eqn:H; [|simpl; eauto]. simpl.
  apply validate_retry_ok in H as (? & ? & ?). rewrite bool_decide_eq_true_2; [simpl; eauto|].
  intros Hr. by apply Hne.
Qed.

Lemma compared_same op kind id digests r :
  same_request op kind id None digests (Some r) →
  same_request op kind id None digests None ∧ so_request op = Some r.
Proof. by intros (? & ? & ? & ? & ?). Qed.

Lemma reply_err {A} (f : A → StoreReply) (m : M A) w e w' :
  m w = (Err e, w') → reply f m w = (Err e, w').
Proof. intros H. by apply bind_err. Qed.

(** Run the validation and the digest of a prepare, then the journal lookup. *)
Ltac to_journal Hload :=
  repeat match goal with
  | H : rbind _ _ = Ok _ |- _ => apply rbind_ok in H as (? & ? & H)
  end;
  run_known; rewrite (run_read _ _ _ _ (load_if_present _ _ _ Hload)); cbn beta iota.

Ltac mismatch Hne :=
  lazymatch goal with
  | |- context [validate_retry ?op ?o ?k ?i ?d ?n] =>
      let e := fresh in
      destruct (validate_retry_mismatch op o k i d n Hne) as [e ->]; by exists e
  | |- context [validate_process_retry ?op ?o ?k ?i ?p ?d ?n] =>
      let e := fresh in
      destruct (validate_process_retry_mismatch op o k i p d n Hne) as [e ->]; by exists e
  end.
Ltac replay_compared_failure Hsame Hf :=
  let Hr := fresh "Hr" in
  apply compared_same in Hsame as [Hsame Hr];
  unfold validate_attestation_retry; rewrite ?Hr;
  rewrite (validate_retry_same _ _ _ _ _ _ Hsame), bool_decide_eq_false_2 by (intros []; reflexivity);
  unfold bind at 1, lift; simpl; rewrite Hf; reflexivity.
Ltac replay_failure Hsame Hf :=
  first [ rewrite (run_lift _ _ _ _ (validate_retry_same _ _ _ _ _ _ Hsame))
        | rewrite (run_lift _ _ _ _ (validate_process_retry_same _ _ _ _ _ _ _ Hsame)) ];
  cbn beta; rewrite Hf; reflexivity.

(** *** The journal step of the filesystem mutations *)

Lemma reject_if_any b (e e' : Error) : reject_if b e = Ok () → reject_if b e' = Ok ().
Proof. by destruct b. Qed.

Lemma mutation_mismatch context target digests request profile op w :
  load_operation (oc_operation_id context) (w_disk w) = Ok op →
  ¬ same_request op (fm_kind profile) (ct_id target) None digests None →
  ∃ e, prepare_filesystem_mutation_operation context target digests request profile w = (Err e, w).
Proof.
  intros Hload Hne. unfold prepare_filesystem_mutation_operation. to_journal Hload. mismatch Hne.
Qed.

Lemma mutation_failed context target digests request profile op e w :
  load_operation (oc_operation_id context) (w_disk w) = Ok op →
  same_request op (fm_kind profile) (ct_id target) None digests None → so_outcome op = Failed e →
  prepare_filesystem_mutation_operation context target digests request profile w = (Err e, w).
Proof.
  intros Hload Hsame Hf. unfold prepare_filesystem_mutation_operation. to_journal Hload.
  replay_failure Hsame Hf.
Qed.

Ltac mutation_step Hc :=
  repeat match goal with
  | Hb : rbind _ _ = Ok _ |- _ => apply rbind_ok in Hb as ([] & ? & Hb)
  end;
  run_known; erewrite run_lift by (eapply reject_if_any; eassumption); cbn beta;
  rewrite Hc; erewrite run_lift by reflexivity; cbn beta; run_known; by apply bind_err.

Lemma file_mutation_runs r c digests e w :
  file_context r = Some c → call_digests (CallPrepareFile r) = Ok digests →
  prepare_filesystem_mutation_operation c (file_target r) digests (RequestFile r) FILE w
    = (Err e, w) →
  prepare_file_mutation r w = (Err e, w).
Proof. intros Hc Hd H. simpl in Hd. unfold prepare_file_mutation. mutation_step Hc. Qed.

Lemma filesystem_mutation_runs r c digests e w :
  fs_context r = Some c → call_digests (CallPrepareFilesystem r) = Ok digests →
  prepare_filesystem_mutation_operation c (fs_target r) digests (RequestFilesystem r) FILESYSTEM w
    = (Err e, w) →
  prepare_filesystem_mutation r w = (Err e, w).
Proof. intros Hc Hd H. simpl in Hd. unfold prepare_filesystem_mutation. mutation_step Hc. Qed.

(** An operation ID is bound to one request.  When the journal holds an
    entry for the ID of a prepare that was made for another kind, container,
    process or request contents (for a checkpoint, a restore or an attestation
    also the request's context, since these compare the whole request), the prepare fails and changes nothing. *)
Theorem reused_operation_id_rejected c o kind id process digests op w :
  journal_key c = Some (o, kind, id, process) → call_digests c = Ok digests →
  load_operation o (w_disk w) = Ok op → ¬ same_request op kind id process digests (compared_request c) →
  ∃ e, run_call c w = (Err e, w).
Proof.
  intros Hkey Hd Hload Hne. destruct c; simplify_eq/=.
  all: match goal with |- ∃ e, reply ?f ?m ?w0 = _ =>
    assert (∃ e, m w0 = (Err e, w0)) as [e He]; [|exists e; by apply reply_err] end.
  - unfold prepare_create, validate_create_retry. to_journal Hload. mismatch Hne.
  - unfold Start.prepare_start. to_journal Hload. mismatch Hne.
  - unfold Kill.prepare_kill. to_journal Hload. mismatch Hne.
  - unfold prepare_freezer. to_journal Hload. mismatch Hne.
  - unfold prepare_update. to_journal Hload. mismatch Hne.
  - unfold prepare_delete. to_journal Hload. mismatch Hne.
  - unfold prepare_exec. to_journal Hload. mismatch Hne.
  - unfold prepare_signal_process. to_journal Hload. mismatch Hne.
  - unfold prepare_write_stdin, prepare_process_io_operation. to_journal Hload. mismatch Hne.
  - unfold prepare_close_stdin, prepare_process_io_operation. to_journal Hload. mismatch Hne.
  - unfold prepare_resize, prepare_process_io_operation. to_journal Hload. mismatch Hne.
  - apply fmap_Some in Hkey as (c & Hc & [= -> -> -> ->]).
    destruct (mutation_mismatch c (file_target request) digests (RequestFile request) FILE op w
      Hload Hne) as [e He]. exists e. by eapply file_mutation_runs.
  - apply fmap_Some in Hkey as (c & Hc & [= -> -> -> ->]).
    destruct (mutation_mismatch c (fs_target request) digests (RequestFilesystem request)
      FILESYSTEM op w Hload Hne) as [e He]. exists e. by eapply filesystem_mutation_runs.
  - unfold prepare_checkpoint. to_journal Hload. by apply compared_mismatch.
  - unfold prepare_restore, validate_restore_retry. to_journal Hload.
    apply err_lift. intros u Hu. eapply compared_retry_mismatch in Hne as [e He]. rewrite He in Hu.
    discriminate.
  - unfold prepare_attestation, validate_attestation_retry. to_journal Hload.
    apply err_lift. intros u Hu. eapply compared_retry_mismatch in Hne as [e He]. rewrite He in Hu.
    discriminate.
Qed.

(** Failures are replayed.  A prepare of any operation but a creation or a
    restore whose
    ID is journaled as failed for the same request returns exactly the
    recorded error and changes nothing: the driver is not called again. *)
Theorem failed_operation_replayed c o kind id process digests op e w :
  journal_key c = Some (o, kind, id, process) → kind ≠ KCreate → kind ≠ KRestore →
  call_digests c = Ok digests →
  load_operation o (w_disk w) = Ok op →
  same_request op kind id process digests (compared_request c) →
  so_outcome op = Failed e → run_call c w = (Err e, w).
Proof.
  intros Hkey Hk Hk' Hd Hload Hsame Hf. destruct c; simplify_eq/=; apply reply_err.
  - unfold Start.prepare_start. to_journal Hload. replay_failure Hsame Hf.
  - unfold Kill.prepare_kill. to_journal Hload. replay_failure Hsame Hf.
  - unfold prepare_freezer. to_journal Hload. replay_failure Hsame Hf.
  - unfold prepare_update. to_journal Hload. replay_failure Hsame Hf.
  - unfold prepare_delete. to_journal Hload. replay_failure Hsame Hf.
  - unfold prepare_exec. to_journal Hload. replay_failure Hsame Hf.
  - unfold prepare_signal_process. to_journal Hload. replay_failure Hsame Hf.
  - unfold prepare_write_stdin, prepare_process_io_operation. to_journal Hload.
    replay_failure Hsame Hf.
  - unfold prepare_close_stdin, prepare_process_io_operation. to_journal Hload.
    replay_failure Hsame Hf.
  - unfold prepare_resize, prepare_process_io_operation. to_journal Hload.
    replay_failure Hsame Hf.
  - apply fmap_Some in Hkey as (c & Hc & [= -> -> -> ->]).
    eapply file_mutation_runs; [done|done|]. by eapply mutation_failed.
  - apply fmap_Some in Hkey as (c & Hc & [= -> -> -> ->]).
    eapply filesystem_mutation_runs; [done|done|]. by eapply mutation_failed.
  - unfold prepare_checkpoint. to_journal Hload. replay_compared_failure Hsame Hf.
  - unfold prepare_attestation. to_journal Hload. replay_compared_failure Hsame Hf.
Qed.
End retries.

(** A kill under the ID of an earlier start. *)
Definition started_world : World := run_calls (create_calls ++ start_calls) fresh_world.
Definition reused_kill : StoreCall := CallPrepareKill (kill_of "op-start" "web").

Lemma reused_operation_id_rejected_witness : ∃ e, run_call reused_kill started_world = (Err e, started_world).
Proof.
  destruct (load_operation "op-start" (w_disk started_world)) as [op|e] eqn:Hl;
    [|vm_compute in Hl; discriminate Hl].
  destruct (call_digests reused_kill) as [digests|e] eqn:Hd; [|vm_compute in Hd; discriminate Hd].
  assert (so_kind op = KStart) as Hk by (vm_compute in Hl; injection Hl as <-; reflexivity).
  apply (reused_operation_id_rejected reused_kill "op-start" KKill "web" None digests op
           started_world eq_refl Hd Hl).
  intros [Hk' _]. congruence.
Defined.

(** A start that the driver rejected. *)
Definition driver_failure : Error := state_error Unsupported "start" "driver cannot start".
Definition start_failed_world : World :=
  run_calls [CallFail "op-start" driver_failure] started_before.
Definition retried_start : StoreCall := CallPrepareStart (start_of "op-start" "web").

Lemma failed_operation_replayed_witness :
  run_call retried_start start_failed_world = (Err driver_failure, start_failed_world).
Proof.
  destruct (load_operation "op-start" (w_disk start_failed_world)) as [op|e] eqn:Hl;
    [|vm_compute in Hl; discriminate Hl].
  destruct (call_digests retried_start) as [digests|e] eqn:Hd; [|vm_compute in Hd; discriminate Hd].
  assert (same_request op KStart "web" None digests None ∧ so_outcome op = Failed driver_failure)
    as [Hs Hf].
  { vm_compute in Hl. vm_compute in Hd. injection Hl as <-. injection Hd as <-. vm_compute.
    split_and!; reflexivity. }
  exact (failed_operation_replayed retried_start "op-start" KStart "web" None digests op
    driver_failure start_failed_world eq_refl ltac:(discriminate)
    ltac:(discriminate) Hd Hl Hs Hf).
Defined.
