(* ===== verification/EventProps.v ===== *)
(** * Appending and polling events

    An append is idempotent in its identity; a poll returns the claimed events
    after a position, in order, without gaps and within its limit. *)

From stdpp Require Import base gmap strings list sorting.
From S2P Require Import Prelude Sdk Identifiers Fault StoreModel Disk Journal Events Claims Create.
From S2P Require Import Machine Refine RefineOps RefineProcess Store AuditCorrect Scenario Replay.
Local Open Scope string_scope.
Local Open Scope Z_scope.

Section append.
Context `{SE : StoreEnv}.
Implicit Types w : World.

(** A successful [ensure_event_record]: the record is there, and only the
    record of that sequence may be new. *)
Lemma ensure_event_record_ok e w w' :
  ensure_event_record e w = (Ok (), w') →
  d_events (w_disk w') !! ev_sequence e
    = Some (mkStoredEventRecord EVENT_RECORD_SCHEMA_VERSION e) ∧
  d_events (w_disk w) ⊆ d_events (w_disk w') ∧
  d_claims (w_disk w') = d_claims (w_disk w) ∧ d_cursor (w_disk w') = d_cursor (w_disk w).
Proof.
  unfold ensure_event_record. intros H. apply bind_inv in H as (actual & w1 & H1 & H).
  injection H1 as Ha ->. destruct actual as [actual|]; rewrite ?Ha.
  - apply lift_inv in H as [H%reject_if_ok ->].
    apply bool_decide_eq_false, dec_stable in H. by subst.
  - apply write_json_ok in H as [_ ->]. simpl. rewrite lookup_insert_eq. split_and!; try done.
    by apply insert_subseteq.
Qed.

Lemma ensure_event_record_again e w :
  d_events (w_disk w) !! ev_sequence e
    = Some (mkStoredEventRecord EVENT_RECORD_SCHEMA_VERSION e) →
  ensure_event_record e w = (Ok (), w).
Proof.
  intros H. unfold ensure_event_record, bind, read. rewrite H. unfold lift.
  by rewrite bool_decide_eq_false_2 by naive_solver.
Qed.

Lemma validate_claimed_event_same s t target o p kind attributes :
  validate_claimed_event (mkRuntimeEvent s t target o p kind attributes) target o p kind attributes
    = Ok ().
Proof.
  unfold validate_claimed_event. simpl. do 5 (rewrite bool_decide_eq_true_2 by done; simpl). done.
Qed.

(** Claims that load are unaffected by later records. *)
Lemma load_event_claim_frame k identity d d' :
  d_cursor d' = d_cursor d → load_event_claim k identity d' = load_event_claim k identity d.
Proof. intros H. unfold load_event_claim, load_event_cursor. by rewrite H. Qed.

(** What a claim must satisfy to load. *)
Lemma load_event_claim_new identity e c d :
  load_event_cursor d = Ok c → 0 < ev_sequence e ≤ sec_last_sequence c → validate_exact_event_target e = Ok () →
  validate_event_identity identity e = Ok () →
  load_event_claim (mkStoredEventClaim EVENT_CLAIM_SCHEMA_VERSION identity e) identity d
    = Ok (mkStoredEventClaim EVENT_CLAIM_SCHEMA_VERSION identity e).
Proof.
  intros Hc Hs Ht Hi. unfold load_event_claim. simpl.
  rewrite !bool_decide_eq_false_2 by naive_solver. simpl. rewrite Ht. simpl. rewrite Hi. simpl.
  rewrite Hc. simpl. by rewrite !bool_decide_eq_false_2 by lia.
Qed.

(** The claim and the record that a successful append leaves. *)
Definition appended (identity : string) (e : RuntimeEvent) (d : Disk) : Prop :=
  ∃ k, d_claims d !! event_identity_hash identity = Some k ∧
    load_event_claim k identity d = Ok k ∧ sk_event k = e ∧
    d_events d !! ev_sequence e = Some (mkStoredEventRecord EVENT_RECORD_SCHEMA_VERSION e).

Lemma append_event_ok identity target o p kind attributes w e w' :
  events_inv (w_disk w) → event_wf identity target o p kind attributes →
  append_event identity target o p kind attributes w = (Ok e, w') →
  is_ok (exact_target_key target) = true ∧ appended identity e (w_disk w') ∧
  validate_claimed_event e target o p kind attributes = Ok ().
Proof.
  intros Hinv Hwf H. unfold append_event in H.
  apply bind_inv in H as (key & w0 & [Hkey ->]%lift_inv & H).
  split; [by rewrite Hkey|].
  apply bind_inv in H as (existing & w1 & [Hex ->]%read_inv & H). injection Hex as Hex.
  destruct existing as [k|].
  - inv_run.
    assert (x = k) as -> by (unfold load_event_claim in *; by inv_ok).
    destruct x3. apply ensure_event_record_ok in H2 as (He & _ & Hcl & Hcur).
    match goal with u : () |- _ => destruct u end.
    split; [|done]. exists k. rewrite Hcl. split_and!; try done.
    by rewrite (load_event_claim_frame _ _ _ _ Hcur).
  - apply bind_inv in H as (cursor & w1 & [Hcur ->]%read_inv & H).
    apply load_event_cursor_ok in Hcur as [Hschema Hlast].
    apply bind_inv in H as (sequence & w1 & [Hseq ->]%lift_inv & H).
    apply ok_or_ok in Hseq. unfold checked_add_u64 in Hseq. case_decide; [|done].
    injection Hseq as <-. rewrite Hschema, Hlast in H.
    pose proof (cursor_value_bounds _ Hinv) as Hb.
    apply bind_inv in H as ([] & w1 & [_ Hw1]%write_json_ok & H).
    apply bind_inv in H as (t & w2 & Ht & H).
    pose proof (event_timestamp_disk w1) as Hw2. rewrite Ht in Hw2. simpl in Hw2.
    apply bind_inv in H as ([] & w3 & [Htarget ->]%lift_inv & H).
    apply bind_inv in H as ([] & w3 & [_ Hw3]%write_json_ok & H).
    apply bind_inv in H as ([] & w4 & (He & _ & Hcl & Hcur)%ensure_event_record_ok & H).
    apply ret_inv in H as [-> ->]. split; [|apply validate_claimed_event_same].
    eexists. rewrite Hcl, Hw3. simpl. rewrite lookup_insert_eq. split_and!; [done| |done|done].
    rewrite (load_event_claim_frame _ _ _ _ Hcur).
    eapply load_event_claim_new; [|..|exact Htarget|apply Hwf].
    + unfold load_event_cursor. rewrite Hw3. simpl. rewrite Hw2, Hw1. done.
    + simpl. lia.
Qed.

(** an event is appended once per identity.  When an append succeeded, the
    claim of its identity and the record of its sequence are durable, and
    appending again with the same contents returns the same event and changes
    nothing. *)
Theorem append_event_idempotent identity target o p kind attributes w e w' :
  events_inv (w_disk w) → event_wf identity target o p kind attributes →
  append_event identity target o p kind attributes w = (Ok e, w') →
  appended identity e (w_disk w') ∧
  append_event identity target o p kind attributes w' = (Ok e, w').
Proof.
  intros Hinv Hwf H. apply append_event_ok in H as (Hkey & Happ & Hv); [|done..].
  split; [done|]. destruct Happ as (k & Hk & Hload & <- & Hr).
  unfold append_event. destruct (exact_target_key target) as [key|] eqn:Hkt; [|done].
  rewrite (run_lift _ key) by done. rewrite (run_read _ (Some k)) by (by rewrite Hk).
  cbn beta iota. run_known. erewrite bind_ok by (by apply ensure_event_record_again). done.
Qed.
End append.

(** ** Selection *)

Definition matching (filter : option ContainerTarget) (l : list RuntimeEvent) : list RuntimeEvent :=
  base.filter (λ e, event_matches_filter e filter = true) l.

Lemma select_events_spec flt limit records events next :
  Z.of_nat (length events) < limit →
  let '(full, selected, next') := select_events flt limit records events next in
  ∃ taken rest, records = (taken ++ rest)%list ∧ selected = (events ++ matching flt taken)%list ∧
    next' = default next (ev_sequence <$> last taken) ∧ (full = false → rest = []) ∧
    Z.of_nat (length selected) ≤ limit.
Proof.
  revert events next. induction records as [|e records IH]; intros events next Hlen; simpl.
  - exists [], []. split_and!; [done|by rewrite app_nil_r|done|done|lia].
  - assert (∀ events', Z.of_nat (length events') < limit →
      let '(full, selected, next') := select_events flt limit records events' (ev_sequence e) in
      ∃ taken rest, e :: records = ((e :: taken) ++ rest)%list ∧
        selected = (events' ++ matching flt taken)%list ∧
        next' = default next (ev_sequence <$> last (e :: taken)) ∧ (full = false → rest = []) ∧
        Z.of_nat (length selected) ≤ limit) as Hrec.
    { intros events' Hl. specialize (IH events' (ev_sequence e) Hl).
      destruct (select_events _ _ _ _ _) as [[full selected] next'].
      destruct IH as (taken & rest & -> & -> & -> & Hf & Hlim). exists taken, rest.
      split_and!; try done. rewrite last_cons. by destruct (last taken). }
    destruct (event_matches_filter e flt) eqn:Hm.
    + case_bool_decide as Hfull.
      * exists [e], records. unfold matching. rewrite filter_cons_True by done. rewrite filter_nil.
        split_and!; try done. rewrite length_app in *. simpl in *. lia.
      * specialize (Hrec (events ++ [e])%list). rewrite length_app in Hrec, Hfull. simpl in *.
        specialize (Hrec ltac:(lia)). destruct (select_events _ _ _ _ _) as [[full selected] next'].
        destruct Hrec as (taken & rest & ? & -> & ? & ? & ?). exists (e :: taken), rest.
        unfold matching. rewrite filter_cons_True by done. rewrite <- app_assoc in *. done.
    + specialize (Hrec events Hlen). destruct (select_events _ _ _ _ _) as [[full selected] next'].
      destruct Hrec as (taken & rest & ? & -> & ? & ? & ?). exists (e :: taken), rest.
      unfold matching. rewrite filter_cons_False by (rewrite Hm; done). done.
Qed.

(** Strict order of sequences. *)
Definition sequence_lt (a b : RuntimeEvent) : Prop := ev_sequence a < ev_sequence b.

#[global] Instance sequence_le_trans : Transitive sequence_le.
Proof. unfold sequence_le. intros a b c. lia. Qed.
#[global] Instance sequence_le_total : Total sequence_le.
Proof. unfold sequence_le. intros a b. lia. Qed.

Lemma strictly_sorted l :
  StronglySorted sequence_le l → NoDup (ev_sequence <$> l) → StronglySorted sequence_lt l.
Proof.
  induction 1 as [|e l Hl IH Hall]; simpl; [constructor|]. intros [Hnot Hnd]%NoDup_cons.
  constructor; [by apply IH|]. apply Forall_forall. intros e' He'.
  rewrite Forall_forall in Hall. specialize (Hall e' He'). unfold sequence_le, sequence_lt in *.
  assert (ev_sequence e ≠ ev_sequence e'); [|lia].
  intros Heq. apply Hnot. rewrite Heq. by apply list_elem_of_fmap_2.
Qed.

Lemma matching_sorted flt l : StronglySorted sequence_lt l → StronglySorted sequence_lt (matching flt l).
Proof.
  induction 1 as [|e l Hl IH Hall]; [constructor|]. unfold matching in *. rewrite filter_cons.
  case_decide; [|done]. constructor; [done|]. apply Forall_forall. intros e' [_ He']%list_elem_of_filter.
  rewrite Forall_forall in Hall. by apply Hall.
Qed.

Lemma last_is_largest l m e :
  StronglySorted sequence_lt l → last l = Some m → e ∈ l → ev_sequence e ≤ ev_sequence m.
Proof.
  intros Hs Hm He. apply last_Some in Hm as [l' ->].
  apply elem_of_app in He as [He| ->%list_elem_of_singleton]; [|done].
  assert (sequence_lt e m); [|unfold sequence_lt in *; lia].
  eapply StronglySorted_app_1_elem_of; [exact Hs|done|by left].
Qed.

Section poll.
Context `{SE : StoreEnv}.
Implicit Types w : World.

(** The events after a position, as the directory lists them. *)
Definition events_after (after : Z) (d : Disk) : list RuntimeEvent :=
  (λ p, sr_event p.2) <$> base.filter (λ p, after < p.1) (map_to_list (d_events d)).

Lemma poll_records_spec claimed last after d records :
  events_inv d →
  rfold (poll_record claimed last after) [] (map_to_list (d_events d)) = Ok records →
  records = events_after after d.
Proof.
  intros Hinv H.
  refine (rfold_invariant _ (λ pre acc, acc =
    (λ p, sr_event p.2) <$> base.filter (λ p, after < p.1) pre) _ _ _ _ _ H); [done|].
  intros pre [s r] post acc acc' Hl -> Hstep. unfold poll_record in Hstep. simpl in Hstep.
  assert (d_events d !! s = Some r) as Hr
    by (apply elem_of_map_to_list; rewrite Hl, elem_of_app; right; by left).
  rewrite parse_event_record_name_ok in Hstep by (by eapply validate_event_record_ok). inv_ok.
  rewrite filter_app, fmap_app, filter_cons, filter_nil. simpl.
  destruct (decide (after < x)) as [Ha|Ha].
  - by rewrite bool_decide_eq_true_2.
  - rewrite bool_decide_eq_false_2 by done. by rewrite app_nil_r.
Qed.

Lemma events_after_sequences after d :
  events_inv d →
  ev_sequence <$> events_after after d
    = (base.filter (λ p, after < p.1) (map_to_list (d_events d))).*1.
Proof.
  intros Hinv. unfold events_after. rewrite <- list_fmap_compose. apply list_fmap_ext.
  intros i [s r] [_ Hin]%list_elem_of_lookup_2%list_elem_of_filter. simpl.
  apply elem_of_map_to_list in Hin. by apply (ei_event d Hinv) in Hin as (_ & ? & _).
Qed.

Lemma events_after_nodup after d : events_inv d → NoDup (ev_sequence <$> events_after after d).
Proof.
  intros Hinv. rewrite events_after_sequences by done.
  eapply sublist_NoDup; [apply (NoDup_fst_map_to_list (d_events d))|].
  apply fmap_sublist, sublist_filter.
Qed.

Lemma elem_of_events_after after d e :
  events_inv d →
  e ∈ events_after after d ↔ ∃ r, d_events d !! ev_sequence e = Some r ∧ sr_event r = e ∧
    after < ev_sequence e.
Proof.
  intros Hinv. unfold events_after. rewrite list_elem_of_fmap. split.
  - intros ([s r] & -> & [Ha Hin%elem_of_map_to_list]%list_elem_of_filter). simpl in *.
    pose proof (ei_event d Hinv s r Hin) as (_ & Hs & _). rewrite Hs. eauto.
  - intros (r & Hr & He & Ha). exists (ev_sequence e, r). split; [done|].
    apply list_elem_of_filter. by rewrite elem_of_map_to_list.
Qed.

(** What one batch contains. *)
Record batch_ok (flt : option ContainerTarget) (after limit : Z) (d : Disk) (b : EventBatch)
    : Prop := {
  bo_sorted : StronglySorted sequence_lt (eb_events b);
  bo_limit : Z.of_nat (length (eb_events b)) ≤ limit;
  bo_sound e : e ∈ eb_events b →
    after < ev_sequence e ≤ eb_next_sequence b ∧ event_matches_filter e flt = true ∧
    ∃ r, d_events d !! ev_sequence e = Some r ∧ sr_event r = e;
  bo_complete s r : d_events d !! s = Some r → after < s ≤ eb_next_sequence b →
    event_matches_filter (sr_event r) flt = true → sr_event r ∈ eb_events b;
  bo_next : after ≤ eb_next_sequence b ≤ Z.max after (cursor_value d)
}.

Lemma read_events_ok claimed flt after limit d b :
  events_inv d → 0 < limit → read_events claimed flt after limit d = Ok b →
  batch_ok flt after limit d b.
Proof.
  intros Hinv Hlim H. unfold read_events in H. rewrite load_event_cursor_inv in H by done.
  cbn [rbind sec_last_sequence] in H.
  apply rbind_ok in H as (records & Hrec & H). apply poll_records_spec in Hrec; [|done].
  apply rbind_ok in H as (_ & _ & H).
  assert (StronglySorted sequence_lt (sort_events records)) as Hsorted.
  { apply strictly_sorted; [apply StronglySorted_merge_sort; apply _|].
    unfold sort_events. rewrite merge_sort_Permutation, Hrec. by apply events_after_nodup. }
  assert (∀ e, e ∈ sort_events records ↔ ∃ r, d_events d !! ev_sequence e = Some r ∧
    sr_event r = e ∧ after < ev_sequence e) as Helem.
  { intros e. unfold sort_events. rewrite merge_sort_Permutation, Hrec.
    by apply elem_of_events_after. }
  pose proof (select_events_spec flt limit (sort_events records) [] after Hlim) as Hsel.
  destruct (select_events _ _ _ _ _) as [[full selected] next'].
  destruct Hsel as (taken & rest & Hsplit & -> & Hnext & Hfull & Hlen). inv_ok.
  rewrite Hsplit in Hsorted, Helem.
  pose proof (StronglySorted_app_1_l _ _ _ Hsorted) as Htaken.
  assert (∀ e, e ∈ (taken ++ rest)%list → after < ev_sequence e ≤ cursor_value d) as Hrange.
  { intros e (r & Hr & <- & Ha)%Helem. apply (ei_event d Hinv) in Hr as (_ & _ & h & k & Hk & He).
    apply (ei_claim d Hinv) in Hk as (_ & _ & Hb & _). rewrite He in Hb. lia. }
  set (next := default after (ev_sequence <$> last taken)).
  assert (∀ e, e ∈ taken → ev_sequence e ≤ next) as Hle.
  { intros e He. unfold next. destruct (last taken) as [m|] eqn:Hm; simpl.
    - by eapply last_is_largest.
    - apply last_None in Hm. subst. by apply elem_of_nil in He. }
  assert (after ≤ next ≤ Z.max after (cursor_value d)) as Hnext.
  { unfold next. destruct (last taken) as [m|] eqn:Hm; simpl; [|lia].
    assert (after < ev_sequence m ≤ cursor_value d); [|lia].
    apply Hrange, elem_of_app. left. by apply last_Some_elem_of. }
  constructor; cbn [eb_events eb_next_sequence].
  - by apply matching_sorted.
  - done.
  - intros e [Hm He]%list_elem_of_filter. split_and!.
    + apply Hrange. apply elem_of_app. by left.
    + specialize (Hle e He). destruct full; lia.
    + done.
    + assert (e ∈ (taken ++ rest)%list) as (r & ? & ? & _)%Helem by (apply elem_of_app; by left). eauto.
  - intros s r Hr Hs Hm. pose proof (ei_event d Hinv s r Hr) as (_ & Hseq & _). subst s.
    apply list_elem_of_filter. split; [done|].
    assert (sr_event r ∈ (taken ++ rest)%list) as [Hin|Hin]%elem_of_app
      by (apply Helem; exists r; split_and!; try done; lia); [done|exfalso].
    destruct full; [|rewrite Hfull in Hin by done; by apply elem_of_nil in Hin].
    unfold next in *. destruct (last taken) as [m|] eqn:Hlast; simpl in *; [|lia].
    assert (sequence_lt m (sr_event r)); [|unfold sequence_lt in *; lia].
    eapply StronglySorted_app_1_elem_of; [exact Hsorted|by apply last_Some_elem_of|done].
  - destruct full; lia.
Qed.

(** A successful repair leaves a record for every claim. *)
Lemma repair_claims_ok last claims s w s' w' :
  repair_claims last claims s w = (Ok s', w') →
  (∀ h k, (h, k) ∈ claims → d_events (w_disk w') !! ev_sequence (sk_event k)
     = Some (mkStoredEventRecord EVENT_RECORD_SCHEMA_VERSION (sk_event k))) ∧
  d_events (w_disk w) ⊆ d_events (w_disk w') ∧ d_claims (w_disk w') = d_claims (w_disk w).
Proof.
  revert s w. induction claims as [|[h k] claims IH]; intros s w H; simpl in H; inv_run.
  - split_and!; try done. by intros ? ? ?%elem_of_nil.
  - match goal with H : ensure_event_record _ _ = (Ok ?u, _) |- _ =>
      destruct u; apply ensure_event_record_ok in H as (He & Hsub & Hcl & _) end.
    apply IH in H as (Hall & Hsub' & Hcl'). split_and!; [|by etrans|congruence].
    intros h' k' [[= -> ->]|Hin]%elem_of_cons; [by eapply lookup_weaken|by eapply Hall].
Qed.

(** C35: polls are ordered, bounded and complete.  A poll that succeeds returns
    events in strictly increasing sequence order, at most [limit] of them, all
    after the requested position and matching the filter; and every
    claimed event with a sequence up to the returned position that matches
    the filter is in the batch, including the events whose
    append was interrupted before their record was written.  A client that
    continues from the returned position therefore misses nothing. *)
Theorem poll_events_complete flt after limit w b w' :
  store_inv (w_disk w) → 0 < limit → poll_events flt after limit w = (Ok b, w') →
  StronglySorted sequence_lt (eb_events b) ∧ Z.of_nat (length (eb_events b)) ≤ limit ∧
  (∀ e, e ∈ eb_events b → after < ev_sequence e ≤ eb_next_sequence b ∧
     event_matches_filter e flt = true) ∧
  (∀ h k, d_claims (w_disk w) !! h = Some k →
     after < ev_sequence (sk_event k) ≤ eb_next_sequence b →
     event_matches_filter (sk_event k) flt = true → sk_event k ∈ eb_events b) ∧
  after ≤ eb_next_sequence b.
Proof.
  intros Hinv Hlim H. pose proof (poll_events_refines flt after limit w Hinv) as Href.
  unfold wp in Href. rewrite H in Href. simpl in Href.
  pose proof (store_inv_steps _ _ Href Hinv) as Hinv'.
  unfold poll_events, repair_pending_event_records in H. inv_run.
  match goal with H : repair_claims _ _ _ _ = _ |- _ => apply repair_claims_ok in H as (Hall & _ & _) end.
  match goal with H : read_events _ _ _ _ _ = Ok _ |- _ =>
    apply read_events_ok in H as [Hs Hl Hsound Hcomplete Hnext]; [|apply Hinv'|done] end.
  split_and!; [done|done| | |lia].
  - intros e He. by apply Hsound in He as (? & ? & _).
  - intros h k Hk Hs' Hm. inv_ok.
    specialize (Hall h k ltac:(by apply elem_of_map_to_list)). by apply Hcomplete in Hall.
Qed.
End poll.

(** ** Witnesses *)

Definition demo_append : M (SE := DemoEnv) RuntimeEvent :=
  append_event "container:web:1:creating" (target_exact "web" 1) None None ContainerCreating ∅.

Lemma append_event_idempotent_witness :
  ∃ e, demo_append (demo_append fresh_world).2 = (Ok e, (demo_append fresh_world).2).
Proof.
  destruct (demo_append fresh_world) as [[e|err] w'] eqn:H.
  - exists e. exact (proj2 (append_event_idempotent _ _ _ _ _ _ fresh_world e w'
      (si_events _ store_inv_empty) (container_event_wf "web:1" "creating" _ _ ∅ eq_refl) H)).
  - exfalso. apply (f_equal (λ x, is_ok x.1)) in H. vm_compute in H. discriminate H.
Defined.

Definition polled_world : World := run_calls life_calls fresh_world.

Lemma polled_world_inv : store_inv (SE := DemoEnv) (w_disk polled_world).
Proof.
  eapply store_inv_steps; [apply run_calls_steps|apply store_inv_empty];
    [repeat constructor|apply store_inv_empty].
Qed.

Lemma poll_events_complete_witness :
  ∃ b, (poll_events None 0 3 polled_world).1 = Ok b ∧ Z.of_nat (length (eb_events b)) ≤ 3.
Proof.
  destruct (poll_events None 0 3 polled_world) as [[b|err] w'] eqn:H.
  - exists b. split; [reflexivity|].
    exact (proj1 (proj2 (poll_events_complete None 0 3 polled_world b w' polled_world_inv
      eq_refl H))).
  - exfalso. apply (f_equal (λ x, is_ok x.1)) in H. vm_compute in H. discriminate H.
Defined.
