(* ===== verification/OperationProps.v ===== *)
(** * What single operations achieve

    Postconditions of generation allocation, creation, deletion, failure and
    waits, on every branch that can succeed. *)

From stdpp Require Import base gmap strings list pretty sorting.
From S2P Require Import Prelude Sdk Identifiers Lifecycle Fault OciState Contracts StoreModel Disk.
From S2P Require Import RestoreContract Journal.
From S2P Require Import Events Claims Create Start Kill Freezer Update ProcessStore ProcessIoStore.
From S2P Require Import FileStore CheckpointStore RestoreStore AttestationStore Delete Observe.
From S2P Require Import StartupAudit Machine Refine RefineOps RefineProcess RefineContracts Store.
From S2P Require Import AuditCorrect Scenario Replay EventProps.
Local Open Scope string_scope.
Local Open Scope Z_scope.

Section loads.
Context `{SE : StoreEnv}.
Implicit Types (w : World) (d : Disk).

(** A container loads from its record and configuration alone. *)
Lemma load_stored_container_frame id d d' :
  (cd_record <$> d_containers d' !! id) = (cd_record <$> d_containers d !! id) →
  (cd_config <$> d_containers d' !! id) = (cd_config <$> d_containers d !! id) →
  load_stored_container id d' = load_stored_container id d.
Proof.
  unfold load_stored_container, load_stored_container_from_directory, load_bundle_from_directory.
  destruct (d_containers d' !! id), (d_containers d !! id); simpl; try done.
  by intros [= ->] [= ->].
Qed.

Lemma load_stored_container_core id d d' :
  same_core d d' → load_stored_container id d' = load_stored_container id d.
Proof. intros Hc. apply load_stored_container_frame; by rewrite (sco_containers _ _ Hc). Qed.

(** A legitimate rewrite of a record that loads loads again. *)
Lemma reload_record id d c c' :
  load_stored_container id d = Ok c → record_step c c' →
  schema_validate_state (cr_state (sc_record c')) = Ok () →
  load_stored_container id (commit_file (FileRecord id c') d) = Ok c'.
Proof.
  intros Hload [Hsv Hid Hatt Hrec Hsid Hbun _ _] Hschema.
  unfold load_stored_container in *. simpl. rewrite lookup_alter_eq. inv_ok.
  match goal with H : d_containers d !! id = Some _ |- _ => rewrite H end. simpl.
  match goal with H : load_stored_container_from_directory _ _ = Ok _ |- _ => rename H into H end.
  unfold load_stored_container_from_directory, load_bundle_from_directory in *. inv_ok.
  match goal with H : schema_validate_state (cr_state (sc_record c)) = Ok ?u |- _ => destruct u end.
  match goal with H : validate_attachment_evidence c _ = Ok ?u |- _ => rename H into Hev; destruct u end.
  simpl. rewrite Hsv, Hid, Hsid, Hbun.
  assert (cr_generation (sc_record c') = cr_generation (sc_record c) ∧
    cr_config_digest (sc_record c') = cr_config_digest (sc_record c) ∧
    validate_attachment_evidence c' = validate_attachment_evidence c) as (-> & -> & Hsame).
  { unfold validate_attachment_evidence, durable_isolation. rewrite Hatt, Hrec. done. }
  match goal with H : _ || _ = false |- _ => rewrite H end. simpl. rewrite Hschema. simpl.
  match goal with H : cd_config _ = Some _ |- _ => rewrite H end. simpl.
  match goal with H : bundle_from_json _ _ = Ok _ |- _ => rewrite H end. simpl.
  match goal with H : bool_decide _ = false |- _ => rewrite H end. simpl.
  rewrite Hsame, Hev. done.
Qed.

(** A container that loads has a valid OCI state. *)
Lemma load_stored_container_schema id d c :
  load_stored_container id d = Ok c → schema_validate_state (cr_state (sc_record c)) = Ok ().
Proof.
  unfold load_stored_container, load_stored_container_from_directory. intros H. inv_ok.
  by match goal with H : schema_validate_state _ = Ok ?u |- _ => destruct u end.
Qed.
End loads.

(** ** Generations *)

(** C39: generation allocation.  A successful allocation returns the successor of
    the durable counter, within [u64], and makes it durable; an allocation that
    fails has advanced the counter by at most one; and a counter at [u64::MAX]
    is reported as exhausted, with nothing changed, instead of wrapping. *)
Theorem next_generation_spec `{StoreEnv} id (w : World) :
  generations_inv (w_disk w) →
  match next_generation id w with
  | (Ok g, w') =>
      g = last_gen id (w_disk w) + 1 ∧ g ≤ u64_max ∧ last_gen id (w_disk w') = g ∧
      ∀ id', id' ≠ id → last_gen id' (w_disk w') = last_gen id' (w_disk w)
  | (Err e, w') =>
      last_gen id (w_disk w) ≤ last_gen id (w_disk w') ≤ last_gen id (w_disk w) + 1 ∧
      (last_gen id (w_disk w) = u64_max → w' = w ∧ code e = ResourceExhausted)
  end.
Proof.
  intros Hinv. unfold next_generation.
  rewrite (run_read _ (last_gen id (w_disk w))); cycle 1.
  { unfold last_generation, last_gen. destruct (d_generations (w_disk w) !! id) as [g|] eqn:Hg; [|done].
    apply (gi_schema _ Hinv) in Hg as (_ & Hs & Hid & _).
    by rewrite Hs, Hid, !bool_decide_eq_false_2 by naive_solver. }
  unfold checked_add_u64. destruct (decide (last_gen id (w_disk w) + 1 ≤ u64_max)) as [Hmax|Hmax];
    [|simpl; by repeat split; lia].
  rewrite (run_lift _ (last_gen id (w_disk w) + 1)) by done.
  match goal with |- context [bind (write_json ?m ?f) ?k w] =>
    assert (wp (write_json m f) (λ r w', match r with
      | Ok _ => w_disk w' = commit_file f (w_disk w)
      | Err _ => w_disk w' = w_disk w ∨ w_disk w' = commit_file f (w_disk w) end) w) as Hw
      by (apply wp_write_json; [intros e w' ->; by left|intros e w' _ ->; by left|
          intros [[]|e] w' _ ->; [done|by right]]);
    unfold wp in Hw; unfold bind; simpl;
    destruct (write_json m f w) as [[[]|e] w']; cbn [fst snd] in Hw end.
  - simpl. rewrite Hw, last_gen_put, decide_True by done. split_and!; try done.
    intros id' Hne. by rewrite last_gen_put, decide_False.
  - assert (last_gen id (w_disk w') = last_gen id (w_disk w) ∨
      last_gen id (w_disk w') = last_gen id (w_disk w) + 1); [|lia].
    destruct Hw as [->| ->]; [by left|]. right. by rewrite last_gen_put, decide_True.
Qed.

(** The second generation of a container, and an exhausted counter. *)
Lemma next_generation_spec_witness :
  (next_generation "web" polled_world).1 = Ok 2 ∧
  last_gen "web" (w_disk (next_generation "web" polled_world).2) = 2.
Proof.
  pose proof (next_generation_spec "web" polled_world (si_generations _ polled_world_inv)) as H.
  destruct (next_generation "web" polled_world) as [[g|e] w'] eqn:E.
  - destruct H as (Hg & _ & Hl & _).
    assert (last_gen "web" (w_disk polled_world) = 1) as H1 by (vm_compute; reflexivity).
    rewrite H1 in Hg. cbn [fst snd]. rewrite Hl, Hg. split; reflexivity.
  - exfalso. apply (f_equal (λ x, is_ok x.1)) in E. vm_compute in E. discriminate E.
Defined.

(** ** Creation *)

Section creation.
Context `{SE : StoreEnv}.
Implicit Types w : World.

Lemma create_container_directory_ok id w w' :
  create_container_directory id w = (Ok (), w') →
  d_containers (w_disk w) !! id = None ∧ w_disk w' = make_container_dir id (w_disk w).
Proof.
  intros H. assert (wp (create_container_directory id) (λ r w', r = Ok () →
    d_containers (w_disk w) !! id = None ∧ w_disk w' = make_container_dir id (w_disk w)) w) as Hwp
    by (apply wp_create_container_directory; naive_solver).
  unfold wp in Hwp. rewrite H in Hwp. by apply Hwp.
Qed.

(** A creation laid down where nothing was. *)
Lemma reconcile_fresh_container_ok id bundle isolation attachments driver g o profile w c w' :
  d_containers (w_disk w) !! id = None →
  reconcile_prepared_container id bundle isolation attachments driver g o profile w = (Ok c, w') →
  live_record id (w_disk w') = Some c ∧ cr_generation (sc_record c) = g ∧
  st_status (cr_state (sc_record c)) = Creating ∧ sc_active_operation c = Some o ∧
  d_operations (w_disk w') = d_operations (w_disk w) ∧
  d_generations (w_disk w') = d_generations (w_disk w).
Proof.
  intros Hnone H. unfold reconcile_prepared_container in H.
  apply bind_inv in H as (digest & w1 & [_ ->]%lift_inv & H).
  apply bind_inv in H as (network & w1 & [_ ->]%lift_inv & H).
  apply bind_inv in H as (ex & w1 & [Hex ->]%read_inv & H). injection Hex as <-.
  unfold container_exists in H. rewrite Hnone in H. simpl in H.
  apply bind_inv in H as ([] & w1 & [_ Hw1]%create_container_directory_ok & H).
  apply bind_inv in H as (config & w2 & [Hc ->]%read_inv & H). injection Hc as <-.
  rewrite Hw1 in H. simpl in H. rewrite lookup_insert_eq in H. simpl in H.
  apply bind_inv in H as ([] & w2 & [_ Hw2]%write_json_ok & H).
  apply bind_inv in H as (record & w3 & [Hr ->]%read_inv & H). injection Hr as <-.
  rewrite Hw2 in H. simpl in H. rewrite lookup_alter_eq, Hw1 in H. simpl in H.
  rewrite lookup_insert_eq in H. simpl in H.
  apply bind_inv in H as (state & w3 & [Hst ->]%lift_inv & H).
  apply bind_inv in H as ([] & w3 & [_ Hw3]%write_json_ok & H). apply ret_inv in H as [-> ->].
  rewrite Hw3. cbn [open_transaction]. rewrite live_record_put, decide_True by done.
  rewrite Hw2. simpl. rewrite lookup_alter_eq, Hw1. simpl. rewrite lookup_insert_eq. simpl.
  split_and!; try done. unfold build_state in Hst. by inv_ok.
Qed.

Lemma next_generation_ok id w g w' :
  next_generation id w = (Ok g, w') →
  g = last_gen id (w_disk w) + 1 ∧
  w_disk w' = commit_file (FileGeneration id (mkStoredGeneration GENERATION_SCHEMA_VERSION id g))
    (w_disk w).
Proof.
  unfold next_generation. intros H. inv_run.
  match goal with H : write_json _ _ _ = (Ok ?u, _) |- _ =>
    destruct u; apply write_json_ok in H as [_ ->] end.
  match goal with H : last_generation _ _ = Ok _ |- _ => rename H into Hl end.
  assert (last_gen id (w_disk w) = x) as ->.
  { unfold last_generation, last_gen in *. destruct (d_generations (w_disk w) !! id); by inv_ok. }
  inv_ok. unfold checked_add_u64 in *. case_decide; by simplify_eq.
Qed.

Lemma reconcile_succeeded_create_replies op response w p w' :
  reconcile_succeeded_create op response w = (Ok p, w') → ∃ r, p = RecordReplayed r.
Proof.
  unfold reconcile_succeeded_create, catch, read at 1. intros H.
  destruct (load_stored_container _ _) as [stored|e]; inv_run; eauto.
Qed.

(** what a new creation reserves.  When a create was prepared for the first
    time, the container and the operation ID were unused; the reserved
    generation is the successor of the durable counter and is the counter's
    new value; the operation is journaled as prepared for that generation;
    and the live record is in state creating under the operation's claim. *)
Theorem prepare_create_reserves request driver inherited w r w' :
  prepare_create request driver inherited w = (Ok (RecordPrepared r), w') →
  let id := create_id request in
  let o := oc_operation_id (create_context request) in
  d_containers (w_disk w) !! id = None ∧ d_operations (w_disk w) !! o = None ∧
  cr_generation r = last_gen id (w_disk w) + 1 ∧ last_gen id (w_disk w') = cr_generation r ∧
  st_status (cr_state r) = Creating ∧
  (∃ op, d_operations (w_disk w') !! o = Some op ∧ so_kind op = KCreate ∧
     so_container_id op = id ∧ so_generation op = cr_generation r ∧ so_outcome op = Prepared) ∧
  (∃ c, live_record id (w_disk w') = Some c ∧ sc_record c = r ∧ sc_active_operation c = Some o).
Proof.
  intros H id o. unfold prepare_create in H. fold o in H.
  apply bind_inv in H as (u & w0 & [_ ->]%lift_inv & H).
  apply bind_inv in H as (digests & w0 & [_ ->]%lift_inv & H).
  apply bind_inv in H as (existing & w0 & [Hex ->]%read_inv & H).
  apply load_operation_if_present_ok in Hex. destruct existing as [op|].
  { exfalso. remember (RecordPrepared r) as p eqn:Hp. inv_run; try discriminate Hp.
    match goal with H : reconcile_succeeded_create _ _ _ = _ |- _ =>
      apply reconcile_succeeded_create_replies in H as [? ->] end. discriminate Hp. }
  apply bind_inv in H as (u' & w1 & Hdl & H).
  pose proof (validate_deadline_disk (create_context request) "prepare-create" w) as Hw1.
  rewrite Hdl in Hw1. simpl in Hw1.
  apply bind_inv in H as (u2 & w2 & [Hnone ->]%read_inv & H). apply reject_if_ok in Hnone.
  unfold container_exists in Hnone. apply bool_decide_eq_false, eq_None_not_Some in Hnone.
  apply bind_inv in H as (g & w2 & [Hg Hw2]%next_generation_ok & H).
  apply bind_inv in H as ([] & w3 & [_ Hw3]%write_json_ok & H).
  apply bind_inv in H as (c & w4 & Hrec & H). unfold reconcile_prepared_create in Hrec.
  apply reconcile_fresh_container_ok in Hrec as (Hl & Hgen & Hst & Hact & Hops & Hgens);
    [|by rewrite Hw3, Hw2].
  apply bind_inv in H as (e & w5 & Hev & H). unfold creating_event in Hev.
  apply append_container_event_core in Hev as [Hg5 Ho5 Hc5 _].
  apply ret_inv in H as [[= ->] ->]. unfold live_record, last_gen in *.
  rewrite Hw1 in *. rewrite Hgen, Hc5, Hg5, Ho5, Hgens, Hops, Hw3. simpl. rewrite Hw2. simpl.
  rewrite !lookup_insert_eq. split_and!; try done; [|by eexists].
  eexists; split; [done|]. done.
Qed.
End creation.

Lemma prepare_create_reserves_witness :
  ∃ r, (prepare_create (create_of "op-create" "web") NativeLinux None fresh_world).1
         = Ok (RecordPrepared r) ∧ cr_generation r = 1 ∧ st_status (cr_state r) = Creating.
Proof.
  destruct (prepare_create (create_of "op-create" "web") NativeLinux None fresh_world)
    as [[[r|r|r]|e] w'] eqn:H;
    try (exfalso; apply (f_equal (λ x, match x.1 with Ok (RecordPrepared _) => true | _ => false end)) in H;
         vm_compute in H; discriminate H).
  destruct (prepare_create_reserves _ _ _ _ _ _ H) as (_ & _ & Hg & _ & Hs & _).
  exists r. split_and!; [reflexivity|exact Hg|exact Hs].
Defined.

(** ** Deletion *)

Section deletion.
Context `{SE : StoreEnv}.
Implicit Types w : World.

Lemma move_directory_ok m id t w w' :
  move_directory m id t w = (Ok (), w') → w_disk w' = move_to_quarantine id t (w_disk w).
Proof.
  intros H. assert (wp (move_directory m id t) (λ r w', r = Ok () →
    w_disk w' = move_to_quarantine id t (w_disk w)) w) as Hwp
    by (apply wp_move_directory; naive_solver).
  unfold wp in Hwp. rewrite H in Hwp. by apply Hwp.
Qed.

Lemma append_delete_event_core op w u w' :
  append_delete_event op w = (Ok u, w') → same_core (w_disk w) (w_disk w').
Proof.
  unfold append_delete_event. cbv zeta. intros H.
  apply bind_inv in H as (e1 & w1 & H1%append_container_event_core & H).
  apply bind_inv in H as (e2 & w2 & H2%append_container_event_core & H).
  apply ret_inv in H as [_ ->]. by etrans.
Qed.

(** what a completed deletion does.  When a prepared delete of a live
    container completes, the directory, whose record has the generation that
    the operation was prepared for, has moved whole to the operation's
    quarantine entry, the container is gone, every other container is
    untouched and the operation is journaled as succeeded. *)
Theorem complete_delete_quarantines o op dir w w' :
  load_operation o (w_disk w) = Ok op → so_outcome op = Prepared →
  d_containers (w_disk w) !! so_container_id op = Some dir →
  d_quarantine (w_disk w) !! (Deleted, o) = None →
  complete_delete o w = (Ok (), w') →
  (∃ c, cd_record dir = Some c ∧ cr_generation (sc_record c) = so_generation op) ∧
  d_containers (w_disk w') = delete (so_container_id op) (d_containers (w_disk w)) ∧
  d_quarantine (w_disk w') = <[(Deleted, o) := dir]> (d_quarantine (w_disk w)) ∧
  load_operation o (w_disk w') = Ok (set_outcome SucceededEmpty op).
Proof.
  intros Hload Hprep Hdir Hq H. pose proof H as Hrun. apply complete_delete_replays in H as [Hj _].
  unfold complete_delete in Hrun. rewrite (run_read _ op) in Hrun by done.
  apply bind_inv in Hrun as (u & w0 & [Hk%kind_guard ->]%lift_inv & Hrun). rewrite Hprep in Hrun.
  apply bind_inv in Hrun as ([src tomb] & w0 & [Hb ->]%read_inv & Hrun).
  unfold container_exists, tombstone_exists, delete_tombstone in Hb. rewrite Hdir, Hq in Hb.
  simpl in Hb. injection Hb as <- <-.
  apply bind_inv in Hrun as ([] & w1 & Hmove & Hrun).
  apply bind_inv in Hmove as (c & w2 & [Hc ->]%read_inv & Hmove).
  apply bind_inv in Hmove as (u2 & w2 & [_ ->]%lift_inv & Hmove).
  apply move_directory_ok in Hmove. apply load_stored_exact_ok in Hc as (Hlive & _ & Hgen & _).
  unfold finish_moved_delete in Hrun.
  apply bind_inv in Hrun as (u3 & w3 & Hev & Hfin). apply append_delete_event_core in Hev as [_ _ Hc3 Hq3].
  pose proof Hfin as [_ Hw']%write_json_ok. unfold move_to_quarantine in Hmove. rewrite Hdir in Hmove.
  apply live_record_some in Hlive as (dir' & Hdir' & Hrec). simplify_eq.
  split_and!; [eauto|by rewrite Hw'; simpl; rewrite Hc3, Hmove|
               by rewrite Hw'; simpl; rewrite Hq3, Hmove|].
  eapply write_outcome_loads; [exact Hload| |exact Hfin].
  apply shape_plain; [by rewrite Hk|done|]. by apply load_operation_ok in Hload as (_ & _ & ?).
Qed.
End deletion.

(** The deletion of a stopped container. *)
Definition deletable_world : World :=
  run_calls (create_calls ++ start_calls ++ stop_calls ++
             [CallPrepareDelete (delete_of "op-delete" "web")]) fresh_world.

Lemma complete_delete_quarantines_witness :
  d_containers (w_disk (complete_delete "op-delete" deletable_world).2)
    = delete "web" (d_containers (w_disk deletable_world)).
Proof.
  destruct (load_operation "op-delete" (w_disk deletable_world)) as [op|e] eqn:Hl;
    [|vm_compute in Hl; discriminate Hl].
  destruct (d_containers (w_disk deletable_world) !! "web") as [dir|] eqn:Hd;
    [|vm_compute in Hd; discriminate Hd].
  assert (so_outcome op = Prepared ∧ so_container_id op = "web") as [Hp Hid]
    by (vm_compute in Hl; injection Hl as <-; split; reflexivity).
  assert (d_quarantine (w_disk deletable_world) !! (Deleted, "op-delete") = None) as Hq
    by (vm_compute; reflexivity).
  destruct (complete_delete "op-delete" deletable_world) as [[[]|e] w'] eqn:H;
    [|exfalso; apply (f_equal (λ x, is_ok x.1)) in H; vm_compute in H; discriminate H].
  rewrite <- Hid in Hd |- *.
  exact (proj1 (proj2 (complete_delete_quarantines "op-delete" op dir deletable_world w' Hl Hp Hd
    Hq H))).
Defined.
