(* ===== verification/ContractProps.v ===== *)
(** * What completed checkpoints, restores and attestations guarantee

    Each completion binds the driver's evidence to the retained request and to
    the durable record of the exact generation. *)

From stdpp Require Import base gmap strings list pretty sorting.
From S2P Require Import Prelude Sdk Identifiers Lifecycle Fault OciState Contracts StoreModel Disk.
From S2P Require Import RestoreContract Journal.
From S2P Require Import Events Claims Create Start Kill Freezer Update ProcessStore ProcessIoStore.
From S2P Require Import FileStore CheckpointStore RestoreStore AttestationStore Delete Observe.
From S2P Require Import StartupAudit Machine Refine RefineOps RefineProcess RefineContracts Store.
From S2P Require Import AuditCorrect Scenario Replay EventProps OperationProps.
Local Open Scope string_scope.
Local Open Scope Z_scope.

(** Guards of the shape [a ≠ b || ... || y ≠ z] that passed. *)
Ltac guards :=
  repeat match goal with
  | H : reject_if _ _ = Ok _ |- _ => apply reject_if_ok in H
  | H : _ || _ = false |- _ => apply orb_false_iff in H as [? H]
  | H : negb _ = false |- _ => apply negb_false_iff in H
  | H : bool_decide (_ ≠ _) = false |- _ => apply bool_decide_eq_false, dec_stable in H
  end.

Section completed.
Context `{SE : StoreEnv}.
Implicit Types w : World.

(** ** The record of a completion *)

Lemma write_record_live m id c w w' :
  write_record m id c w = (Ok (), w') → is_Some (d_containers (w_disk w) !! id) →
  live_record id (w_disk w') = Some c.
Proof.
  intros [_ Hw]%write_json_ok [dir Hd]. rewrite Hw. cbn [open_transaction].
  rewrite live_record_put, decide_True by done. by rewrite Hd.
Qed.

Lemma write_operation_live m o op id w w' :
  write_operation m o op w = (Ok (), w') → live_record id (w_disk w') = live_record id (w_disk w).
Proof. intros [_ ->]%write_json_ok. done. Qed.

Lemma live_record_core id d d' : same_core d d' → live_record id d' = live_record id d.
Proof. intros Hc. unfold live_record. by rewrite (sco_containers _ _ Hc). Qed.

Lemma live_record_dir id d c : live_record id d = Some c → is_Some (d_containers d !! id).
Proof. intros (dir & ? & _)%live_record_some. by exists dir. Qed.

Lemma ensure_active_operation_ok stored o name u :
  ensure_active_operation stored o name = Ok u →
  sc_active_operation stored = None ∨ sc_active_operation stored = Some o.
Proof.
  unfold ensure_active_operation. intros H. destruct (sc_active_operation stored); [right|by left].
  by case_bool_decide; simplify_eq.
Qed.

(** A prepared operation at the start of its completion. *)
Lemma run_prepared {A} o op (k : StoredOperation → M A) w r w' :
  load_operation o (w_disk w) = Ok op → bind (read (load_operation o)) k w = (Ok r, w') →
  k op w = (Ok r, w').
Proof. intros Hl H. by rewrite (run_read _ _ _ _ Hl) in H. Qed.

Lemma exact_record_target_ok r t :
  exact_record_target r = Ok t → t = target_exact (st_id (cr_state r)) (cr_generation r).
Proof.
  unfold exact_record_target. intros H. inv_ok.
  match goal with H : validate_identifier _ = Ok _ |- _ =>
    by apply validate_identifier_inv in H as [-> _] end.
Qed.

(** The facts that the statements of a completion establish. *)
Ltac completed_facts :=
  repeat match goal with
  | H : match so_request _ with _ => _ end = Ok _ |- _ =>
      first [apply retained_checkpoint_request in H | apply retained_attestation_request in H]
  | H : retained_restore_request _ = Ok _ |- _ => apply retained_restore_request_ok in H
  | H : load_stored_exact _ _ _ = Ok _ |- _ =>
      let Hl := fresh "Hl" in let Hg := fresh "Hg" in
      apply load_stored_exact_ok in H as (Hl & _ & Hg & _)
  | H : ensure_active_operation _ _ _ = Ok _ |- _ => apply ensure_active_operation_ok in H
  | H : exact_record_target _ = Ok _ |- _ => apply exact_record_target_ok in H as ->
  | H : write_operation _ _ _ _ = (Ok ?u, _) |- _ => is_var u; destruct u
  | H : write_record _ _ _ _ = (Ok ?u, _) |- _ => is_var u; destruct u
  end.


Lemma append_operation_event_core o suffix target process_id kind attributes w r w' :
  append_operation_event o suffix target process_id kind attributes w = (r, w') →
  same_core (w_disk w) (w_disk w').
Proof. unfold append_operation_event. apply append_event_core. Qed.

Lemma restored_events_core o target w u w' :
  restored_events o target w = (Ok u, w') → same_core (w_disk w) (w_disk w').
Proof.
  unfold restored_events. cbv zeta. intros H. inv_run.
  repeat match goal with H : append_operation_event _ _ _ _ _ _ _ = _ |- _ =>
    apply append_operation_event_core in H end.
  by repeat (etrans; [eassumption|]).
Qed.

(** The record that [complete_restore] commits. *)
Lemma complete_restore_state_ok c o pid c' :
  complete_restore_state c o pid = Ok c' →
  st_status (cr_state (sc_record c')) = Running ∧ st_pid (cr_state (sc_record c')) = Some pid ∧
  is_paused (cr_state (sc_record c')) = true ∧
  (st_status (cr_state (sc_record c)) = Creating → sc_active_operation c = Some o).
Proof.
  unfold complete_restore_state. destruct (st_status (cr_state (sc_record c))) eqn:Hst; cbn -[rebuild_state rebuild_paused_state].
  2-4: repeat case_bool_decide; simpl; try done; destruct (is_paused _) eqn:?; intros; simplify_eq/=; done.
  intros H. inv_ok. guards.
  match goal with H : rebuild_state _ _ _ = Ok _ |- _ =>
    apply rebuild_state_inv in H as (_ & Hpid & _) end.
  match goal with H : rebuild_paused_state ?s true = Ok ?s' |- _ =>
    pose proof (rebuild_paused_state_spec s true) as Hs; rewrite H in Hs;
    destruct Hs as (_ & ? & ? & ? & _) end.
  split_and!; [done|simpl; congruence|done|done].
Qed.

Lemma restore_response_new_facts record reference response :
  restore_response_new record reference = Ok response →
  response = mkRestoreResponse record reference ∧ record_is_paused record = true ∧
  cr_config_digest record = cref_source_config_digest reference ∧
  cr_driver record = cc_driver (cref_compatibility reference) ∧
  cr_isolation record = cc_isolation (cref_compatibility reference) ∧
  (st_id (cr_state record) = ct_id (cref_source reference) →
   ∃ g, ct_generation (cref_source reference) = Some g ∧ g < cr_generation record).
Proof.
  unfold restore_response_new, validate_restored_record. intros H. inv_ok. completed_facts.
  unfold require_paused_running, reference_validate, require_exact_target in *. inv_ok. guards.
  split_and!; try done. intros Hid.
  match goal with H : _ && generation_option_le _ _ = false |- _ => simpl in H;
    rewrite bool_decide_eq_true_2 in H by done; simpl in H end.
  match goal with H : ct_generation (cref_source reference) = Some ?g |- _ =>
    rewrite H in *; exists g end. simpl in *. split; [done|lia].
Qed.

(** C28: the completion of a restore.  When a prepared restore completes, the live
    record is the restored one: running with the driver's PID, paused,
    unclaimed and of the generation that the operation reserved; its
    configuration, driver and isolation are those of the checkpoint; and when
    it has the ID of the checkpoint's source, its generation is newer. *)
Theorem completed_restore_bound o pid op w r w' :
  load_operation o (w_disk w) = Ok op → so_outcome op = Prepared →
  complete_restore o pid w = (Ok r, w') →
  ∃ request reference c, so_request op = Some (RequestRestore request) ∧
    rr_reference_field request = Some reference ∧ rresp_reference r = reference ∧
    live_record (so_container_id op) (w_disk w') = Some c ∧ sc_record c = rresp_restored r ∧
    sc_active_operation c = None ∧
    st_status (cr_state (sc_record c)) = Running ∧ st_pid (cr_state (sc_record c)) = Some pid ∧
    record_is_paused (sc_record c) = true ∧
    cr_generation (sc_record c) = so_generation op ∧ st_id (cr_state (sc_record c)) = rr_id request ∧
    cr_config_digest (sc_record c) = cref_source_config_digest reference ∧
    cr_driver (sc_record c) = cc_driver (cref_compatibility reference) ∧
    cr_isolation (sc_record c) = cc_isolation (cref_compatibility reference) ∧
    (st_id (cr_state (sc_record c)) = ct_id (cref_source reference) →
     ∃ g, ct_generation (cref_source reference) = Some g ∧ g < cr_generation (sc_record c)).
Proof.
  intros Hload Hp H. unfold complete_restore in H.
  apply bind_inv in H as (u & w0 & [_ ->]%lift_inv & H).
  apply (run_prepared _ _ _ _ _ _ Hload) in H. cbn beta in H.
  rewrite Hp in H. inv_run; completed_facts.
  match goal with H : restore_response_validate_for_request _ _ = Ok _ |- _ =>
    unfold restore_response_validate_for_request in H; inv_ok end.
  match goal with Hs : complete_restore_state ?c0 _ _ = Ok ?c, Hl : live_record _ _ = Some ?c0,
    Hw : write_record _ _ _ _ = _, He : restored_events _ _ _ = _, Ho : write_operation _ _ _ _ = _,
    Hr : so_request _ = Some (RequestRestore ?request),
    Href : restore_reference ?request = Ok ?reference, Hn : restore_response_new _ _ = Ok _ |- _ =>
      exists request, reference, (set_sc_active None c);
      pose proof (write_record_live _ _ _ _ _ Hw (live_record_dir _ _ _ Hl)) as Hlive;
      rewrite <- (live_record_core _ _ _ (restored_events_core _ _ _ _ _ He)),
        <- (write_operation_live _ _ _ _ _ _ Ho) in Hlive;
      apply restore_response_new_facts in Hn as (-> & Hfacts);
      pose proof (complete_restore_state_step _ _ _ _ Hs) as [_ ?];
      apply complete_restore_state_ok in Hs as (? & ? & ? & _) end.
  unfold restore_reference in *. inv_ok. simplify_eq/=. guards.
  split_and!; try (done || congruence || naive_solver).
Qed.

Lemma attestation_source_ok c d source :
  validate_attestation_source c d = Ok source →
  cr_isolation (sc_record c) = DedicatedVm ∧ ∃ launch, source = mkAttestationSource (sc_record c) launch.
Proof.
  unfold validate_attestation_source, validate_attestation_bindings. intros H. inv_ok. guards. eauto.
Qed.

(** The completion of an attestation.  When a prepared attestation completes,
    the returned evidence was accepted for the retained request: its target and
    report data are the requested ones, and its launch contract, driver and
    digests are those of the live record of the exact generation, a dedicated
    VM, which is unchanged but for its released claim. *)
Theorem completed_attestation_bound o response op w r w' :
  load_operation o (w_disk w) = Ok op → so_outcome op = Prepared →
  complete_attestation o response w = (Ok r, w') →
  ∃ request c launch, so_request op = Some (RequestAttest request) ∧ r = response ∧
    live_record (so_container_id op) (w_disk w) = Some c ∧
    (sc_active_operation c = None ∨ sc_active_operation c = Some o) ∧
    cr_generation (sc_record c) = so_generation op ∧ cr_isolation (sc_record c) = DedicatedVm ∧
    validate_attestation_source c (w_disk w) = Ok (mkAttestationSource (sc_record c) launch) ∧
    ar_target r = atr_target request ∧ ar_report_data r = atr_report_data request ∧
    ar_launch r = launch ∧ ar_driver r = cr_driver (sc_record c) ∧
    ar_config_digest r = cr_config_digest (sc_record c) ∧
    Some (ar_attachments_digest r) = cr_attachments_digest (sc_record c) ∧
    live_record (so_container_id op) (w_disk w') = Some (set_sc_active None c).
Proof.
  intros Hload Hp H. unfold complete_attestation in H. apply (run_prepared _ _ _ _ _ _ Hload) in H.
  cbn beta in H. rewrite Hp in H. inv_run; completed_facts.
  match goal with Hv : validate_attestation_source ?c _ = Ok _, Hl : live_record _ _ = Some ?c,
    Hw : write_record _ _ _ _ = _, He : append_operation_event _ _ _ _ _ _ _ = _,
    Ho : write_operation _ _ _ _ = _, Hr : so_request _ = Some (RequestAttest ?request) |- _ =>
      pose proof (write_record_live _ _ _ _ _ Hw (live_record_dir _ _ _ Hl)) as Hlive;
      rewrite <- (live_record_core _ _ _ (append_operation_event_core _ _ _ _ _ _ _ _ _ He)),
        <- (write_operation_live _ _ _ _ _ _ Ho) in Hlive;
      destruct (attestation_source_ok _ _ _ Hv) as [? [launch ->]];
      exists request, c, launch end.
  match goal with H : validate_attestation_response_bindings _ _ _ = Ok _ |- _ =>
    unfold validate_attestation_response_bindings, attest_response_validate_for_request in H;
    inv_ok end.
  simpl in *. guards. split_and!; try (done || congruence).
Qed.
End completed.

(** ** Concrete completions *)

Definition checkpoint_prepared : World :=
  run_calls [CallPrepareCheckpoint (checkpoint_of "op-ckpt" None)] paused_world.
Definition restore_prepared : World :=
  run_calls [CallPrepareRestore (restore_of "op-restore" "copy" None (demo_reference "web" 1))
    NativeLinux] fresh_world.
Definition attestation_prepared : World :=
  run_calls (tee_calls ++ [CallPrepareAttestation (attest_of "op-attest" None)]) fresh_world.

Definition is_prepared (o : string) (w : World) : bool :=
  match load_operation o (w_disk w) with
  | Ok op => match so_outcome op with Prepared => true | _ => false end
  | Err _ => false
  end.

Lemma is_prepared_ok o w :
  is_prepared o w = true → ∃ op, load_operation o (w_disk w) = Ok op ∧ so_outcome op = Prepared.
Proof.
  unfold is_prepared. destruct (load_operation o (w_disk w)) as [op|]; [|done].
  destruct (so_outcome op) eqn:?; naive_solver.
Qed.

Lemma is_ok_run {A} (x : Result A * World) : is_ok x.1 = true → ∃ a w', x = (Ok a, w').
Proof. destruct x as [[a|] w']; [eauto|done]. Qed.


Lemma completed_restore_bound_witness :
  ∃ r c, (complete_restore "op-restore" 77 restore_prepared).1 = Ok r ∧
    sc_record c = rresp_restored r ∧ st_pid (cr_state (sc_record c)) = Some 77.
Proof.
  destruct (is_prepared_ok "op-restore" restore_prepared ltac:(vm_compute; reflexivity))
    as (op & Hl & Hp).
  destruct (is_ok_run (complete_restore "op-restore" 77 restore_prepared)
    ltac:(vm_compute; reflexivity)) as (r & w' & H).
  destruct (completed_restore_bound "op-restore" 77 op restore_prepared r w' Hl Hp H)
    as (request & reference & c & _ & _ & _ & _ & Hr & _ & _ & Hpid & _).
  exists r, c. rewrite H. split; [reflexivity|]. split; [exact Hr|exact Hpid].
Defined.

Lemma completed_attestation_bound_witness :
  ∃ r, (complete_attestation "op-attest" attestation_evidence attestation_prepared).1 = Ok r ∧
    r = attestation_evidence.
Proof.
  destruct (is_prepared_ok "op-attest" attestation_prepared ltac:(vm_compute; reflexivity))
    as (op & Hl & Hp).
  destruct (is_ok_run (complete_attestation "op-attest" attestation_evidence attestation_prepared)
    ltac:(vm_compute; reflexivity)) as (r & w' & H).
  destruct (completed_attestation_bound "op-attest" attestation_evidence op attestation_prepared
    r w' Hl Hp H) as (request & c & launch & _ & Hr & _).
  exists r. rewrite H. split; [reflexivity|exact Hr].
Defined.
