(* ===== verification/Progress.v ===== *)
(** * Progress: operations that must succeed do

    The other theorems say what an operation that returns has done.  This file
    shows that the operations return at all: with an injector that stays quiet
    and documents within the size bound, a poll of the event journal of any
    consistent state root succeeds, whatever writes were interrupted before it,
    and the two phases of a start drive a created container to running. *)

From stdpp Require Import base gmap strings list sorting.
From S2P Require Import Prelude Sdk Identifiers Lifecycle Fault OciState Contracts StoreModel Disk.
From S2P Require Import RestoreContract Journal.
From S2P Require Import Events Claims Create Start Kill Freezer Update ProcessStore ProcessIoStore.
From S2P Require Import FileStore CheckpointStore RestoreStore AttestationStore Delete Observe.
From S2P Require Import StartupAudit Machine Refine RefineOps RefineProcess RefineContracts Store.
From S2P Require Import AuditCorrect Scenario Replay EventProps OperationProps.
Local Open Scope string_scope.
Local Open Scope Z_scope.

(** ** Total runs *)

Section total.
Context `{SE : StoreEnv}.
Implicit Types w : World.

(** [m] succeeds from [w] and its answer and final world satisfy [Q]. *)
Definition succeeds {A} (m : M A) (Q : A → World → Prop) w : Prop :=
  ∃ a w', m w = (Ok a, w') ∧ Q a w'.

Lemma succeeds_ret {A} (a : A) Q w : Q a w → succeeds (ret a) Q w.
Proof. intros H. by exists a, w. Qed.

Lemma succeeds_bind {A B} (m : M A) (k : A → M B) Q w :
  succeeds m (λ a w', succeeds (k a) Q w') w → succeeds (bind m k) Q w.
Proof. intros (a & w1 & Hm & b & w2 & Hk & HQ). exists b, w2. unfold bind. by rewrite Hm. Qed.

Lemma succeeds_lift {A B} (r : Result A) a (k : A → M B) Q w :
  r = Ok a → succeeds (k a) Q w → succeeds (bind (lift r) k) Q w.
Proof. intros Hr (b & w' & Hk & HQ). exists b, w'. by rewrite (run_lift r a). Qed.

Lemma succeeds_read {A B} (f : Disk → Result A) a (k : A → M B) Q w :
  f (w_disk w) = Ok a → succeeds (k a) Q w → succeeds (bind (read f) k) Q w.
Proof. intros Hr (b & w' & Hk & HQ). exists b, w'. by rewrite (run_read f a). Qed.

Lemma succeeds_mono {A} (m : M A) (Q Q' : A → World → Prop) w :
  succeeds m Q w → (∀ a w', Q a w' → Q' a w') → succeeds m Q' w.
Proof. intros (a & w' & Hm & HQ) Himp. exists a, w'. eauto. Qed.

Context (HQ : quiet).

Lemma succeeds_write {B} m f (k : () → M B) Q w :
  is_directory_move m = false → parent_exists f (w_disk w) = true →
  (∀ w', same_but_faults (commit_file f (open_transaction f (w_disk w))) w w' →
     succeeds (k ()) Q w') →
  succeeds (bind (write_json m f) k) Q w.
Proof.
  intros Hm Hp Hk. destruct (write_json_quiet m f w HQ Hm Hp) as (w' & Hw & Hsame).
  apply succeeds_bind. exists (), w'. split; [done|]. by apply Hk.
Qed.

Lemma succeeds_last_write m f Q w :
  is_directory_move m = false → parent_exists f (w_disk w) = true →
  (∀ w', same_but_faults (commit_file f (open_transaction f (w_disk w))) w w' → Q () w') →
  succeeds (write_json m f) Q w.
Proof.
  intros Hm Hp Hk. destruct (write_json_quiet m f w HQ Hm Hp) as (w' & Hw & Hsame).
  exists (), w'. split; [done|]. by apply Hk.
Qed.

(** ** The event journal *)

(** What an event write leaves as it was. *)
Record event_frame w w' : Prop := {
  ef_core : same_core (w_disk w) (w_disk w');
  ef_clock : w_clock w' = w_clock w;
  ef_reads : w_reads w' = w_reads w;
  ef_claims : d_claims (w_disk w') = d_claims (w_disk w);
  ef_cursor : cursor_value (w_disk w') = cursor_value (w_disk w)
}.

(** The record of a claimed event can always be written or is already there. *)
Lemma ensure_event_record_succeeds h k w :
  store_inv (w_disk w) → d_claims (w_disk w) !! h = Some k →
  succeeds (ensure_event_record (sk_event k))
    (λ _ w', store_inv (w_disk w') ∧ event_frame w w') w.
Proof.
  intros Hinv Hk.
  assert (succeeds (ensure_event_record (sk_event k)) (λ _ w', event_frame w w') w) as Hrun.
  { unfold ensure_event_record. eapply succeeds_read; [done|].
    destruct (d_events (w_disk w) !! ev_sequence (sk_event k)) as [r|] eqn:Hr.
    - pose proof (ei_event _ (si_events _ Hinv) _ _ Hr) as (Hs & Hseq & h' & k' & Hk' & He).
      assert (h' = h) as -> by (eapply (ei_unique _ (si_events _ Hinv)); [exact Hk'|exact Hk|congruence]).
      assert (r = mkStoredEventRecord EVENT_RECORD_SCHEMA_VERSION (sk_event k)) as ->.
      { destruct r; simpl in *. congruence. }
      exists (), w. rewrite bool_decide_eq_false_2 by naive_solver. split; [done|by constructor].
    - apply succeeds_last_write; [done|done|]. intros w' (Hd & Hc & Hn).
      by constructor; rewrite ?Hd. }
  destruct Hrun as ([] & w' & Hw & Hf). exists (), w'. split; [done|]. split; [|done].
  pose proof (ensure_event_record_refines h k w Hk Hinv) as Href. unfold wp in Href.
  rewrite Hw in Href. by eapply store_inv_steps.
Qed.

Context {HD : HexDigest}.

Lemma repair_claims_succeeds claims s w :
  store_inv (w_disk w) → NoDup claims.*1 →
  (∀ h k, (h, k) ∈ claims → d_claims (w_disk w) !! h = Some k ∧ ev_sequence (sk_event k) ∉ s) →
  succeeds (repair_claims (cursor_value (w_disk w)) claims s)
    (λ s' w', store_inv (w_disk w') ∧ d_claims (w_disk w') = d_claims (w_disk w) ∧ s ⊆ s' ∧
       ∀ h k, (h, k) ∈ claims → ev_sequence (sk_event k) ∈ s') w.
Proof.
  revert s w. induction claims as [|[h k] claims IH]; intros s w Hinv Hnd Hin; simpl.
  { apply succeeds_ret. split_and!; try done. by intros ? ? ?%elem_of_nil. }
  apply NoDup_cons in Hnd as [Hh Hnd]. destruct (Hin h k) as [Hk Hfresh]; [by left|].
  eapply succeeds_lift; [by apply validate_claim_entry_ok; [apply Hinv|]|].
  eapply succeeds_lift; [by rewrite bool_decide_eq_false_2|]. apply succeeds_bind.
  eapply succeeds_mono; [by eapply ensure_event_record_succeeds|]. cbv beta.
  intros _ w1 [Hinv1 Hf]. rewrite <- (ef_cursor _ _ Hf).
  eapply succeeds_mono; [apply IH; [done|done|]|].
  - intros h' k' Hin'. destruct (Hin h' k') as [Hk' Hfresh']; [by right|].
    rewrite (ef_claims _ _ Hf). split; [done|]. intros [Heq%elem_of_singleton|?]%elem_of_union; [|done].
    apply Hh. assert (h' = h) as <- by (by eapply (ei_unique _ (si_events _ Hinv))).
    by apply (list_elem_of_fmap_2 fst _ (h', k')).
  - cbv beta. intros s' w' (Hinv' & Hcl & Hsub & Hall).
    rewrite Hcl, (ef_claims _ _ Hf). split_and!; [done|done|set_solver|].
    intros h' k' [[= -> ->]|Hin']%elem_of_cons; [set_solver|by eapply Hall].
Qed.

Lemma adjacent_duplicate_sorted l : StronglySorted sequence_lt l → adjacent_duplicate l = false.
Proof.
  induction l as [|a [|b l] IH]; intros H; [done..|]. inversion_clear H as [|? ? Hl Ha]. simpl.
  inversion_clear Ha as [|? ? Hab _]. unfold sequence_lt in Hab.
  rewrite bool_decide_eq_false_2 by lia. by apply IH.
Qed.

Lemma read_events_succeeds claimed flt after limit d :
  events_inv d → (∀ h k, d_claims d !! h = Some k → ev_sequence (sk_event k) ∈ claimed) →
  ∃ b, read_events claimed flt after limit d = Ok b.
Proof.
  intros Hinv Hcl. unfold read_events. rewrite load_event_cursor_inv by done.
  cbn [rbind sec_last_sequence].
  destruct (rfold_total (poll_record claimed (cursor_value d) after) (λ _ _, True) []
    (map_to_list (d_events d))) as (records & Hrec & _); [done| |].
  { intros pre [s r] post acc Hl _.
    assert (d_events d !! s = Some r) as Hr
      by (apply elem_of_map_to_list; rewrite Hl, elem_of_app; right; by left).
    destruct (validate_event_record_ok d s r Hinv Hr) as [Hv Hb].
    pose proof (ei_event d Hinv s r Hr) as (_ & Hseq & h & k & Hk & He).
    unfold poll_record. cbn [fst snd]. rewrite parse_event_record_name_ok by done. cbn [rbind].
    rewrite Hv. cbn [rbind].
    rewrite bool_decide_eq_false_2 by (intros Hn; apply Hn; rewrite <- Hseq, <- He; by eapply Hcl).
    by eexists. }
  rewrite Hrec. cbn [rbind]. apply poll_records_spec in Hrec; [|done].
  rewrite adjacent_duplicate_sorted.
  - cbn [reject_if rbind]. destruct (select_events _ _ _ _ _) as [[full events] next]. by eexists.
  - apply strictly_sorted; [apply StronglySorted_merge_sort; apply _|].
    unfold sort_events. rewrite merge_sort_Permutation, Hrec. by apply events_after_nodup.
Qed.
End total.

Section poll_progress.
Context `{SE : StoreEnv} {HD : HexDigest}.
Implicit Types w : World.

(** Polls make progress.  In every consistent state root, whichever appends
    were interrupted before, a poll that is not itself interrupted succeeds:
    no state that the store can leave behind makes the event stream
    unreadable. *)
Theorem poll_events_succeeds flt after limit w :
  quiet → store_inv (w_disk w) → ∃ b w', poll_events flt after limit w = (Ok b, w').
Proof.
  intros HQ Hinv.
  assert (succeeds (poll_events flt after limit) (λ _ _, True) w) as (b & w' & H & _); [|eauto].
  unfold poll_events, repair_pending_event_records. apply succeeds_bind.
  eapply succeeds_read; [by apply load_event_cursor_inv, Hinv|]. eapply succeeds_read; [done|].
  cbn [sec_last_sequence]. eapply succeeds_mono; [apply repair_claims_succeeds; try done|].
  - apply NoDup_fst_map_to_list.
  - intros h k Hk%elem_of_map_to_list. split; [done|set_solver].
  - cbv beta. intros s' w1 (Hinv1 & Hcl & _ & Hall).
    destruct (read_events_succeeds s' flt after limit (w_disk w1)) as [b Hb]; [apply Hinv1| |].
    + intros h k Hk. apply (Hall h). by rewrite elem_of_map_to_list, <- Hcl.
    + exists b, w1. unfold read. by rewrite Hb.
Qed.
End poll_progress.

(** ** A start completes *)

Section start_progress.
Context `{SE : StoreEnv} (HQ : quiet).
Implicit Types w : World.

(** The clock and the sequence counter allow one more event. *)
Definition can_append identity w : Prop :=
  d_claims (w_disk w) !! event_identity_hash identity = None ∧
  cursor_value (w_disk w) < u64_max ∧ 0 < w_clock w (w_reads w) ≤ u64_max.

Lemma append_container_event_succeeds suffix target key kind w :
  events_inv (w_disk w) → exact_target_key target = Ok key →
  can_append ("container:" +:+ key +:+ ":" +:+ suffix) w →
  (∀ s t, s ≠ 0 → t ≠ 0 →
     validate_exact_event_target (mkRuntimeEvent s t target None None kind ∅) = Ok ()) →
  succeeds (append_container_event suffix target kind ∅)
    (λ _ w', same_core (w_disk w) (w_disk w')) w.
Proof.
  intros Hinv Hkey (Hclaim & Hcur & Hclock) Hv.
  pose proof (cursor_value_bounds _ Hinv) as Hb.
  assert (succeeds (append_container_event suffix target kind ∅) (λ _ _, True) w)
    as (e & w' & Hrun & _); [|exists e, w'; split; [done|by eapply append_container_event_core]].
  unfold append_container_event. eapply succeeds_lift; [exact Hkey|].
  unfold append_event. eapply succeeds_lift; [exact Hkey|].
  eapply succeeds_read; [by rewrite Hclaim|].
  eapply succeeds_read; [by apply load_event_cursor_inv|]. cbn [sec_last_sequence sec_schema_version].
  eapply succeeds_lift; [by unfold checked_add_u64; rewrite decide_True by lia|].
  apply succeeds_write; [done..|]. intros w1 (Hd1 & Hc1 & Hr1).
  apply succeeds_bind. unfold event_timestamp. apply succeeds_bind.
  eexists _, _. split; [reflexivity|]. rewrite Hc1, Hr1.
  eapply succeeds_lift; [by rewrite bool_decide_eq_false_2 by lia|].
  eapply succeeds_lift; [by rewrite bool_decide_eq_false_2 by lia|]. apply succeeds_ret.
  eapply succeeds_lift; [by apply Hv; lia|].
  apply succeeds_write; [done..|]. intros w2 (Hd2 & _). simpl in Hd2. apply succeeds_bind.
  unfold ensure_event_record. eapply succeeds_read; [done|]. simpl.
  assert (d_events (w_disk w2) !! (cursor_value (w_disk w) + 1) = None) as ->.
  { rewrite Hd2. simpl. rewrite Hd1. simpl. apply eq_None_not_Some. intros [r Hr].
    apply (ei_event _ Hinv) in Hr as (_ & Hs & h & k & Hk & He).
    apply (ei_claim _ Hinv) in Hk as (_ & _ & Hle & _). rewrite He, Hs in Hle. lia. }
  apply succeeds_last_write; [done..|]. intros w3 _. by apply succeeds_ret.
Qed.

(** A start that the store may prepare: an unused operation ID, no deadline,
    a created container that no operation owns. *)
Record startable (request : StartRequest) (digests : RequestDigests) (stored : StoredContainer)
    (pid : Z) w : Prop := {
  sb_id : valid_id (oc_operation_id (start_context request));
  sb_deadline : oc_deadline_unix_ms (start_context request) = None;
  sb_digest : request_digest (StartFingerprint (start_target request)) "digest-start-request"
    = Ok digests;
  sb_unused : d_operations (w_disk w) !! oc_operation_id (start_context request) = None;
  sb_stored : load_stored_container (ct_id (start_target request)) (w_disk w) = Ok stored;
  sb_fence : ∀ g, ct_generation (start_target request) = Some g →
    g = cr_generation (sc_record stored);
  sb_created : st_status (cr_state (sc_record stored)) = Created;
  sb_pid : st_pid (cr_state (sc_record stored)) = Some pid ∧ 0 < pid;
  sb_free : sc_active_operation stored = None
}.

(** The journal entry and the claim that a prepared start leaves. *)
Definition started_entry (request : StartRequest) (digests : RequestDigests)
    (stored : StoredContainer) : StoredOperation :=
  new_operation (oc_operation_id (start_context request)) KStart (ct_id (start_target request))
    (cr_generation (sc_record stored)) None None (current digests).

Lemma prepare_start_succeeds request digests stored pid w :
  startable request digests stored pid w →
  succeeds (Start.prepare_start request) (λ r w',
    r = RecordPrepared (sc_record stored) ∧
    same_but_faults
      (commit_file (FileRecord (ct_id (start_target request))
         (set_sc_active (Some (oc_operation_id (start_context request))) stored))
      (commit_file (FileOperation (oc_operation_id (start_context request))
         (started_entry request digests stored)) (w_disk w))) w w') w.
Proof.
  intros [Hv Hdl Hdig Ho Hload Hfence Hst Hpid Hfree].
  pose proof (load_stored_container_ok _ _ _ Hload) as (Hlive & Hid & _).
  apply live_record_some in Hlive as (dir & Hdir & _).
  unfold Start.prepare_start. eapply succeeds_lift; [exact Hdig|].
  eapply succeeds_read; [unfold load_operation_if_present; by rewrite Ho|].
  unfold validate_deadline. rewrite Hdl. apply succeeds_bind, succeeds_ret.
  eapply succeeds_read; [exact Hload|].
  eapply succeeds_lift.
  { unfold generation_fence. destruct (ct_generation (start_target request)) as [g|] eqn:Hg; [|done].
    by rewrite bool_decide_eq_false_2 by (rewrite (Hfence g eq_refl); naive_solver). }
  eapply succeeds_lift; [by rewrite bool_decide_eq_false_2 by naive_solver|].
  apply (succeeds_write HQ); [done..|]. intros w1 (Hd1 & Hc1 & Hr1). apply succeeds_bind.
  unfold claim_active_operation. rewrite Hfree, bool_decide_eq_false_2 by done.
  apply succeeds_bind, succeeds_ret. simpl. rewrite Hid.
  apply (succeeds_write HQ); [done|..].
  { rewrite Hd1. simpl. by rewrite Hdir, bool_decide_eq_true_2 by eauto. }
  intros w2 (Hd2 & Hc2 & Hr2). apply succeeds_ret, succeeds_ret. split; [done|].
  split_and!; [|congruence..]. rewrite Hd2, Hd1. done.
Qed.

(** The record that a completed start of [c] leaves. *)
Definition running_state (c : StoredContainer) (pid : Z) : OciState :=
  mkOciState (st_version (cr_state (sc_record c))) (st_id (cr_state (sc_record c))) Running
    (Some pid) (st_bundle (cr_state (sc_record c)))
    (st_annotations (cr_state (sc_record c)) ≫= keep_annotations).

Lemma complete_start_state_running c pid :
  st_status (cr_state (sc_record c)) = Created → st_pid (cr_state (sc_record c)) = Some pid →
  schema_validate_state (running_state c pid) = Ok () →
  Start.complete_start_state c Running (Some pid) = Ok (set_sc_state (running_state c pid) c).
Proof.
  intros Hst Hpid Hsch. unfold Start.complete_start_state. rewrite Hst, Hpid. simpl.
  rewrite bool_decide_eq_false_2 by naive_solver. simpl. unfold running_state in *.
  destruct (st_annotations (cr_state (sc_record c))); simpl in *; by rewrite Hsch.
Qed.

Lemma complete_start_succeeds o op c pid key w :
  events_inv (w_disk w) → load_operation o (w_disk w) = Ok op → so_kind op = KStart →
  so_outcome op = Prepared → load_stored_container (so_container_id op) (w_disk w) = Ok c →
  cr_generation (sc_record c) = so_generation op → sc_active_operation c = Some o →
  st_status (cr_state (sc_record c)) = Created → st_pid (cr_state (sc_record c)) = Some pid →
  0 < pid → schema_validate_state (running_state c pid) = Ok () →
  exact_target_key (target_exact (so_container_id op) (so_generation op)) = Ok key →
  can_append ("container:" +:+ key +:+ ":started") w →
  succeeds (Start.complete_start o Running (Some pid)) (λ r w',
    r = with_state (running_state c pid) (sc_record c) ∧
    live_record (so_container_id op) (w_disk w')
      = Some (set_sc_active None (set_sc_state (running_state c pid) c)) ∧
    load_operation o (w_disk w') = Ok (set_outcome (Succeeded r) op)) w.
Proof.
  intros Hinv Hop Hk Hout Hload Hg Hact Hst Hpid Hpos Hsch Hkey Happ.
  pose proof (load_stored_container_ok _ _ _ Hload) as (Hlive & Hid & _).
  apply live_record_some in Hlive as (dir & Hdir & Hrec).
  unfold Start.complete_start. eapply succeeds_lift.
  { simpl. by rewrite bool_decide_eq_true_2 by done. }
  eapply succeeds_read; [exact Hop|].
  eapply succeeds_lift; [by rewrite bool_decide_eq_false_2 by naive_solver|]. rewrite Hout.
  eapply succeeds_read; [exact Hload|].
  eapply succeeds_lift; [by rewrite bool_decide_eq_false_2 by naive_solver|].
  eapply succeeds_lift; [by apply complete_start_state_running|].
  eapply succeeds_lift.
  { unfold ensure_active_operation. simpl. by rewrite Hact, bool_decide_eq_true_2. }
  apply (succeeds_write HQ); [done|simpl; by rewrite Hdir, bool_decide_eq_true_2 by eauto|].
  intros w1 (Hd1 & Hc1 & Hr1). cbn [open_transaction] in Hd1.
  apply succeeds_bind. unfold Start.started_events. simpl. apply succeeds_bind.
  eapply succeeds_mono; [eapply append_container_event_succeeds; [|exact Hkey| |]|].
  - rewrite Hd1. by eapply events_inv_frame; [..|exact Hinv].
  - unfold can_append. rewrite Hd1, Hc1, Hr1. exact Happ.
  - intros s t Hs Ht. unfold validate_exact_event_target. simpl. rewrite Hkey. simpl.
    by rewrite !bool_decide_eq_false_2 by (done || by intros [? ?]).
  - cbv beta. intros _ w2 Hcore. apply succeeds_ret.
    apply (succeeds_write HQ); [done..|]. intros w3 (Hd3 & _). cbn [open_transaction] in Hd3.
    apply succeeds_ret. split_and!; [done|..].
    + rewrite Hd3. unfold live_record. simpl. rewrite (sco_containers _ _ Hcore), Hd1. simpl.
      by rewrite lookup_alter_eq, Hdir.
    + pose proof (load_operation_ok _ _ _ Hop) as (_ & Hoid & Hshape).
      unfold load_operation in *. rewrite Hd3. simpl. rewrite lookup_insert_eq. simpl. inv_ok.
      match goal with H : _ || _ = false |- _ => rewrite H end. simpl.
      by rewrite (shape_plain op) by (rewrite ?Hk; done).
Qed.
End start_progress.

Section start_theorem.
Context `{SE : StoreEnv}.
Implicit Types w : World.

(** C31: a start makes progress.  From any consistent state root, preparing the
    start of a created, unowned container under a fresh operation ID succeeds,
    and reporting the prepared process as running then succeeds too: the
    container is live, running with that PID and unowned, and the operation
    is journaled as succeeded with the returned record. *)
Theorem start_succeeds request digests stored pid key w :
  quiet → store_inv (w_disk w) → startable request digests stored pid w →
  schema_validate_state (running_state stored pid) = Ok () →
  exact_target_key (target_exact (ct_id (start_target request)) (cr_generation (sc_record stored)))
    = Ok key →
  can_append ("container:" +:+ key +:+ ":started") w →
  let o := oc_operation_id (start_context request) in
  let r := with_state (running_state stored pid) (sc_record stored) in
  ∃ w1 w2 c op,
    Start.prepare_start request w = (Ok (RecordPrepared (sc_record stored)), w1) ∧
    Start.complete_start o Running (Some pid) w1 = (Ok r, w2) ∧
    st_status (cr_state r) = Running ∧ st_pid (cr_state r) = Some pid ∧
    live_record (ct_id (start_target request)) (w_disk w2) = Some c ∧
    sc_record c = r ∧ sc_active_operation c = None ∧
    load_operation o (w_disk w2) = Ok op ∧ so_outcome op = Succeeded r.
Proof.
  intros HQ Hinv Hs Hsch Hkey Happ o r.
  destruct (prepare_start_succeeds HQ _ _ _ _ _ Hs) as (r1 & w1 & Hprep & -> & Hd1 & Hc1 & Hr1).
  pose proof Hs as [_ _ _ _ Hload _ Hst [Hpid Hpos] _].
  set (c1 := set_sc_active (Some o) stored).
  assert (load_stored_container (ct_id (start_target request)) (w_disk w1) = Ok c1) as Hl1.
  { rewrite Hd1. apply reload_record with (c := stored).
    - rewrite <- Hload. by apply load_stored_container_frame.
    - apply record_step_active.
    - exact (load_stored_container_schema _ _ _ Hload). }
  destruct (complete_start_succeeds HQ o (started_entry request digests stored) c1 pid key w1)
    as (r2 & w2 & Hcomp & -> & Hlive & Hop); try done.
  - rewrite Hd1. eapply events_inv_frame; [..|apply (si_events _ Hinv)]; done.
  - rewrite Hd1. unfold load_operation. simpl. rewrite lookup_insert_eq. simpl.
    by rewrite bool_decide_eq_false_2 by naive_solver.
  - unfold can_append. rewrite Hd1, Hc1, Hr1. exact Happ.
  - exists w1, w2. do 2 eexists. split_and!; [exact Hprep|exact Hcomp|done|done|exact Hlive|done|done|exact Hop|done].
Qed.
End start_theorem.

(** ** Witnesses *)

(** The example environment with an injector that never fires. *)
Definition QuietEnv : StoreEnv := {|
  env_faults := NoFaultInjector;
  env_contracts := DemoContracts;
  encoded_len := encoded_len (StoreEnv := DemoEnv);
  json_to_vec := json_to_vec (StoreEnv := DemoEnv);
  canonical_json_bytes := canonical_json_bytes (StoreEnv := DemoEnv);
  schema_validate_state := schema_validate_state (StoreEnv := DemoEnv);
  bundle_from_json := bundle_from_json (StoreEnv := DemoEnv);
  attachments_validate := attachments_validate (StoreEnv := DemoEnv);
  attachments_validate_isolation := attachments_validate_isolation (StoreEnv := DemoEnv);
  attachments_guest_session := attachments_guest_session (StoreEnv := DemoEnv);
  attachments_network_enforcement := attachments_network_enforcement (StoreEnv := DemoEnv);
  attachments_digest := attachments_digest (StoreEnv := DemoEnv);
  bundle_validate_create := bundle_validate_create (StoreEnv := DemoEnv);
  attachments_process_io := attachments_process_io (StoreEnv := DemoEnv);
  semantic_validate_process := semantic_validate_process (StoreEnv := DemoEnv);
  semantic_validate_resources := semantic_validate_resources (StoreEnv := DemoEnv);
  attachments_tee_launch := attachments_tee_launch (StoreEnv := DemoEnv)
|}.

Lemma QuietEnv_quiet : quiet (SE := QuietEnv).
Proof. split; [done|]. intros f. change (1024 ≤ 67108864). lia. Qed.

Lemma QuietEnv_hex : HexDigest (H := QuietEnv).
Proof. exact DemoHexDigest. Qed.

(** The invariant does not depend on the injector. *)
Lemma store_inv_quiet d : store_inv (SE := DemoEnv) d → store_inv (SE := QuietEnv) d.
Proof. intros [[] [] [] [] []]. split; constructor; assumption. Qed.

Definition quiet_world (d : Disk) : World (H := QuietEnv) :=
  mkWorld QuietEnv d () (λ n, 1000 + Z.of_nat n) 0.

(** A create interrupted between the claim and the record of its event. *)
Definition interrupted_append : Disk :=
  w_disk (run_calls [CallPrepareCreate (create_of "op-create" "web") NativeLinux None]
            (arm 42 fresh_world)).

Lemma interrupted_append_inv : store_inv (SE := QuietEnv) interrupted_append.
Proof.
  apply store_inv_quiet. eapply store_inv_steps; [apply run_calls_steps|apply store_inv_empty];
    [repeat constructor|apply store_inv_empty].
Qed.

Lemma poll_events_succeeds_witness :
  size (d_claims interrupted_append) = 1%nat ∧ d_events interrupted_append = ∅ ∧
  ∃ b w', poll_events (SE := QuietEnv) None 0 16 (quiet_world interrupted_append) = (Ok b, w').
Proof.
  split; [vm_compute; reflexivity|]. split; [vm_compute; reflexivity|].
  exact (poll_events_succeeds (SE := QuietEnv) (HD := QuietEnv_hex) None 0 16
    (quiet_world interrupted_append) QuietEnv_quiet interrupted_append_inv).
Defined.

(** A created container and its start. *)
Definition created_disk : Disk := w_disk (run_calls create_calls fresh_world).

Lemma created_disk_inv : store_inv (SE := QuietEnv) created_disk.
Proof.
  apply store_inv_quiet. eapply store_inv_steps; [apply run_calls_steps|apply store_inv_empty];
    [repeat constructor|apply store_inv_empty].
Qed.

Lemma start_succeeds_witness :
  ∃ stored w1 w2 r,
    Start.prepare_start (SE := QuietEnv) (start_of "op-start" "web") (quiet_world created_disk)
      = (Ok (RecordPrepared (sc_record stored)), w1) ∧
    Start.complete_start (SE := QuietEnv) "op-start" Running (Some 42) w1 = (Ok r, w2) ∧
    st_status (cr_state r) = Running.
Proof.
  destruct (load_stored_container (SE := QuietEnv) "web" created_disk) as [stored|e] eqn:Hl;
    [|exfalso; apply (f_equal is_ok) in Hl; vm_compute in Hl; discriminate Hl].
  destruct (request_digest (SE := QuietEnv) (StartFingerprint (target_current "web"))
    "digest-start-request") as [digests|e] eqn:Hd;
    [|exfalso; apply (f_equal is_ok) in Hd; vm_compute in Hd; discriminate Hd].
  assert (cr_generation (sc_record stored) = 1 ∧ st_status (cr_state (sc_record stored)) = Created ∧
    st_pid (cr_state (sc_record stored)) = Some 42 ∧ sc_active_operation stored = None) as (Hg & Hs & Hp & Ha).
  { vm_compute in Hl. injection Hl as <-. repeat split. }
  destruct (start_succeeds (SE := QuietEnv) (start_of "op-start" "web") digests stored 42 "web:1"
    (quiet_world created_disk) QuietEnv_quiet created_disk_inv)
    as (w1 & w2 & c & op & H1 & H2 & H3 & _).
  - split; [vm_compute; reflexivity|reflexivity|exact Hd|vm_compute; reflexivity|exact Hl| |
      exact Hs|exact (conj Hp eq_refl)|exact Ha]. intros g [=].
  - reflexivity.
  - rewrite Hg. reflexivity.
  - split; [vm_compute; reflexivity|split; [vm_compute; reflexivity|split; vm_compute; done]].
  - exists stored, w1, w2, (with_state (running_state stored 42) (sc_record stored)).
    exact (conj H1 (conj H2 H3)).
Defined.
