(* ===== verification/Fencing.v ===== *)
(** * Fences: generations, claims, failures and exit statuses

    What the store refuses, and what it keeps once it has accepted it. *)

From stdpp Require Import base gmap strings list pretty sorting.
From S2P Require Import Prelude Sdk Identifiers Lifecycle Fault OciState Contracts StoreModel Disk.
From S2P Require Import RestoreContract Journal.
From S2P Require Import Events Claims Create Start Kill Freezer Update ProcessStore ProcessIoStore.
From S2P Require Import FileStore CheckpointStore RestoreStore AttestationStore Delete Observe.
From S2P Require Import StartupAudit Machine Refine RefineOps RefineProcess RefineContracts Store.
From S2P Require Import AuditCorrect Scenario Replay OperationProps.
Local Open Scope string_scope.
Local Open Scope Z_scope.

(** ** Stale generations *)

Section stale.
Context `{SE : StoreEnv}.
Implicit Types w : World.

(** The call fails and the state root is as before. *)
Definition refused {A} (m : M A) w : Prop := ∃ e w', m w = (Err e, w') ∧ w_disk w' = w_disk w.

Lemma refused_lift {A B} (r : Result A) (k : A → M B) w :
  (∀ a, r = Ok a → refused (k a) w) → refused (bind (lift r) k) w.
Proof. intros H. destruct r as [a|e]; [by apply H|by exists e, w]. Qed.

Lemma refused_read {A B} (f : Disk → Result A) (k : A → M B) w :
  (∀ a, f (w_disk w) = Ok a → refused (k a) w) → refused (bind (read f) k) w.
Proof.
  intros H. unfold refused, bind, read. destruct (f (w_disk w)) as [a|e] eqn:E; [by apply H|by exists e, w].
Qed.

Lemma refused_deadline {B} context name (k : () → M B) w :
  (∀ w', w_disk w' = w_disk w → refused (k ()) w') → refused (bind (validate_deadline context name) k) w.
Proof.
  intros H. pose proof (validate_deadline_disk context name w) as Hd.
  unfold refused, bind. destruct (validate_deadline context name w) as [[[]|e] w']; simpl in Hd.
  - destruct (H w' Hd) as (e & w'' & ? & ?). exists e, w''. split; [done|congruence].
  - by exists e, w'.
Qed.

Lemma refused_reply {A} (f : A → StoreReply) (m : M A) w : refused m w → refused (reply f m) w.
Proof. intros (e & w' & H & Hd). exists e, w'. split; [by apply bind_err|done]. Qed.

(** The container that a prepare, other than a creation, is aimed at. *)
Definition call_target (c : StoreCall) : option ContainerTarget :=
  match c with
  | CallPrepareStart r => Some (start_target r)
  | CallPrepareKill r => Some (kill_target r)
  | CallPrepareFreezer r _ => Some (cop_target r)
  | CallPrepareUpdate r => Some (update_target r)
  | CallPrepareDelete r => Some (delete_target r)
  | CallPrepareExec r => Some (exec_container r)
  | CallPrepareSignal r => Some (pt_container (sig_process r))
  | CallPrepareWriteStdin r => Some (pt_container (ws_process r))
  | CallPrepareCloseStdin r => Some (pt_container (cs_process r))
  | CallPrepareResize r => Some (pt_container (rz_process r))
  | CallPrepareFile r => Some (file_target r)
  | CallPrepareFilesystem r => Some (fs_target r)
  | CallPrepareCheckpoint r => Some (ckr_target r)
  | CallPrepareAttestation r => Some (atr_target r)
  | _ => None
  end.

Lemma generation_fence_stale target g actual name :
  ct_generation target = Some g → g ≠ actual → ∃ e, generation_fence target actual name = Err e.
Proof.
  intros Ht Hne. unfold generation_fence. rewrite Ht.
  rewrite bool_decide_eq_true_2 by congruence. simpl. eauto.
Qed.

Lemma load_absent o d : d_operations d !! o = None → load_operation_if_present o d = Ok None.
Proof. intros H. unfold load_operation_if_present. by rewrite H. Qed.

Lemma refused_bind {A B} (m : M A) (k : A → M B) w : refused m w → refused (bind m k) w.
Proof. intros (e & w' & H & Hd). exists e, w'. split; [by apply bind_err|done]. Qed.

Ltac refused_lifts :=
  repeat (lazymatch goal with |- refused (bind (lift _) _) _ => apply refused_lift end; intros ? ?).

(** C37: stale callers are fenced.  A new start, kill, pause, resume, update,
    delete, exec, signal, process-I/O, upload, filesystem, checkpoint or
    attestation request that names a generation other
    than the live one fails and leaves the state root exactly as it was. *)
Theorem stale_generation_refused c o kind id process target g stored w :
  journal_key c = Some (o, kind, id, process) → call_target c = Some target →
  d_operations (w_disk w) !! o = None →
  load_stored_container (ct_id target) (w_disk w) = Ok stored →
  ct_generation target = Some g → g ≠ cr_generation (sc_record stored) →
  refused (run_call c) w.
Proof.
  intros Hkey Htarget Hnew Hload Hg Hne.
  assert (∀ w' A (k : () → M A) name, w_disk w' = w_disk w →
    refused (bind (lift (generation_fence target (cr_generation (sc_record stored)) name)) k) w')
    as Hfence.
  { intros w' A k name _. destruct (generation_fence_stale target g _ name Hg Hne) as [e ->].
    by exists e, w'. }
  assert (∀ w' A (k : () → M A) e,
    refused (bind (lift (reject_if (bool_decide (cr_generation (sc_record stored) ≠ g)) e)) k) w')
    as Hexact.
  { intros w' A k e. rewrite bool_decide_eq_true_2 by congruence. by exists e, w'. }
  assert (∀ w' A (k : option StoredOperation → M A), w_disk w' = w_disk w →
    refused (k None) w' → refused (bind (read (load_operation_if_present o)) k) w') as Hjournal.
  { intros w' A k Hw Hk. apply refused_read. intros a Ha. rewrite Hw, load_absent in Ha by done.
    injection Ha as <-. done. }
  assert (∀ w' A (k : StoredContainer → M A), w_disk w' = w_disk w →
    refused (k stored) w' →
    refused (bind (read (load_stored_container (ct_id target))) k) w') as Hcontainer.
  { intros w' A k Hw Hk. apply refused_read. intros a Ha. rewrite Hw, Hload in Ha.
    injection Ha as <-. done. }
  destruct c; simplify_eq/=; apply refused_reply;
    try (apply fmap_Some in Hkey as (c & Hc & [= -> -> -> ->]));
    unfold Start.prepare_start, Kill.prepare_kill, prepare_freezer, prepare_update, prepare_delete,
      prepare_exec, prepare_signal_process, prepare_write_stdin, prepare_close_stdin,
      prepare_resize, prepare_process_io_operation,
      prepare_file_mutation, prepare_filesystem_mutation, prepare_checkpoint, prepare_attestation;
    cbv zeta; rewrite ?Hc, ?Hg; refused_lifts;
    simplify_eq/=; try (apply refused_bind; progress unfold prepare_filesystem_mutation_operation);
    (apply Hjournal; [done|]); cbn beta iota;
    apply refused_deadline; intros w1 Hw1; refused_lifts; simplify_eq/=; (apply Hcontainer; [done|]);
    first [by apply Hfence | apply Hexact | apply refused_lift; intros ? [= <-]; apply Hexact].
Qed.
End stale.

(** A start aimed at a generation that is not live. *)
Definition created_world : World := run_calls create_calls fresh_world.
Definition stale_start : StoreCall :=
  CallPrepareStart (mkStartRequest (context "op-late") (target_exact "web" 7)).

Lemma stale_generation_refused_witness : refused (run_call stale_start) created_world.
Proof.
  destruct (load_stored_container "web" (w_disk created_world)) as [c|e] eqn:Hl;
    [|vm_compute in Hl; discriminate Hl].
  assert (cr_generation (sc_record c) = 1) as Hg by (vm_compute in Hl; injection Hl as <-; reflexivity).
  apply (stale_generation_refused stale_start "op-late" KStart "web" None (target_exact "web" 7) 7 c
           created_world eq_refl eq_refl ltac:(vm_compute; reflexivity) Hl eq_refl).
  rewrite Hg. discriminate.
Defined.

(** ** Exclusive claims *)

Section claims.
Context `{SE : StoreEnv}.
Implicit Types w : World.

Lemma migrate_legacy_init_io_claim_ok c d c' a :
  sc_active_operation c = Some a → migrate_legacy_init_io_claim c d = Ok (Some c') →
  ∃ op, load_operation a d = Ok op ∧ is_process_io_kind (so_kind op) = true ∧
    c' = set_sc_init_io ({[a]} ∪ sc_init_io_operations c) (set_sc_active None c).
Proof.
  intros Ha H. unfold migrate_legacy_init_io_claim in H. rewrite Ha in H.
  apply rbind_ok in H as (op & Hop & H). exists op. destruct (is_process_io_kind _); [|done].
  simpl in H. apply rbind_ok in H as (u & _ & H). by injection H as <-.
Qed.

(** a lifecycle claim is exclusive.  Taking the claim of a loaded record
    succeeds only if no other lifecycle operation holds it: the record was
    unclaimed, or claimed by the same operation, or by a process-I/O
    operation of an older runtime, which keeps its place in the I/O set.
    Afterwards the live record is claimed by the operation and differs from
    the loaded one in its claims only. *)
Theorem lifecycle_claim_exclusive stored o m name w c w' :
  live_record (sc_id stored) (w_disk w) = Some stored →
  claim_active_operation stored o m name w = (Ok c, w') →
  live_record (sc_id stored) (w_disk w') = Some c ∧ sc_active_operation c = Some o ∧
  sc_record c = sc_record stored ∧ sc_attachments c = sc_attachments stored ∧
  sc_init_exit_status c = sc_init_exit_status stored ∧
  sc_init_io_operations stored ⊆ sc_init_io_operations c ∧
  match sc_active_operation stored with
  | None => True
  | Some a => a = o ∨ ∃ op, load_operation a (w_disk w) = Ok op ∧
      is_process_io_kind (so_kind op) = true ∧ a ∈ sc_init_io_operations c
  end.
Proof.
  intros Hl H. unfold claim_active_operation in H. case_bool_decide as Heq.
  { apply ret_inv in H as [-> ->]. rewrite Heq. split_and!; auto. }
  assert (∀ c1, sc_id c1 = sc_id stored →
    bind (write_record m (sc_id c1) (set_sc_active (Some o) c1))
      (λ _, ret (set_sc_active (Some o) c1)) w = (Ok c, w') →
    live_record (sc_id stored) (w_disk w') = Some c ∧ c = set_sc_active (Some o) c1) as Hwrite.
  { intros c1 Hid Hw. apply bind_inv in Hw as ([] & w1 & [_ Hw1]%write_json_ok & Hw).
    apply ret_inv in Hw as [-> ->]. split; [|done]. rewrite Hw1. cbn [open_transaction].
    rewrite live_record_put, decide_True by done.
    apply live_record_some in Hl as (dir & Hdir & _). by rewrite Hid, Hdir. }
  destruct (sc_active_operation stored) as [a|] eqn:Ha.
  - apply bind_inv in H as (c1 & w1 & Hm & H).
    apply bind_inv in Hm as (migrated & w2 & [Hmig ->]%read_inv & Hm).
    destruct migrated as [c2|]; [|discriminate Hm].
    assert (c1 = c2 ∧ w1 = w) as [-> ->] by (destruct m; inv_run; done).
    pose proof (migrate_legacy_init_io_claim_step _ _ _ Hmig) as [_ Hid].
    destruct (Hwrite c2 Hid H) as [Hl' ->].
    destruct (migrate_legacy_init_io_claim_ok _ _ _ _ Ha Hmig) as (op & Hop & Hk & ->).
    simpl. split_and!; try done; [set_solver|]. right. exists op. split_and!; [done|done|set_solver].
  - apply bind_inv in H as (c1 & w1 & [-> ->]%ret_inv & H).
    destruct (Hwrite stored eq_refl H) as [Hl' ->]. split_and!; done.
Qed.
End claims.

(** ** Failures *)

Section failures.
Context `{SE : StoreEnv}.
Implicit Types w : World.

Lemma reconcile_failed_creation_again op w w' :
  reconcile_failed_creation op w = (Ok (), w') →
  d_operations (w_disk w') = d_operations (w_disk w) ∧
  reconcile_failed_creation op w' = (Ok (), w').
Proof.
  unfold reconcile_failed_creation. intros H.
  apply bind_inv in H as (u1 & w1 & [H1 ->]%lift_inv & H).
  apply bind_inv in H as (u2 & w1 & [H2 ->]%lift_inv & H).
  rewrite !(run_lift _ _ _ _ H1), !(run_lift _ _ _ _ H2).
  apply bind_inv in H as ([t mv] & w1 & Ht & H).
  assert (w1 = w ∧ ∀ w0, (match so_kind op with
    | KCreate => ret (failed_create_tombstone (so_operation_id op), MoveFailedCreateTombstone)
    | KRestore => ret (failed_restore_tombstone (so_operation_id op), MoveFailedRestoreTombstone)
    | _ => fail (state_error Internal "reconcile-failed-creation"
             "operation {} reported creation kind {kind:?} without a failure tombstone")
    end : M _) w0 = (Ok (t, mv), w0)) as [-> Hk]
    by (unfold ret, fail in *; destruct (so_kind op); try discriminate Ht;
        by injection Ht as <- <- <-).
  rewrite (bind_ok _ _ _ _ _ (Hk w')).
  apply bind_inv in H as ([src tomb] & w1 & [Hb ->]%read_inv & H). injection Hb as Hs Hq.
  destruct src, tomb.
  - assert (w' = w) as -> by (clear -H; by inv_run). split; [done|].
    rewrite (run_read _ (true, true)) by (by rewrite Hs, Hq). exact H.
  - apply bind_inv in H as (c & w1 & [Hc ->]%read_inv & H).
    apply bind_inv in H as (u3 & w1 & [_ ->]%lift_inv & H).
    split; [by eapply move_directory_operations|].
    apply move_directory_ok in H. erewrite run_read by done. cbn beta iota.
    assert (container_exists (so_container_id op) (w_disk w') = false) as ->; [|done].
    unfold container_exists in *. apply bool_decide_eq_true in Hs as [dir Hdir].
    rewrite H. unfold move_to_quarantine. rewrite Hdir. simpl. by rewrite lookup_delete_eq.
  - apply ret_inv in H as [_ ->]. split; [done|].
    rewrite (run_read _ (false, true)) by (by rewrite Hs, Hq). done.
  - apply ret_inv in H as [_ ->]. split; [done|].
    rewrite (run_read _ (false, false)) by (by rewrite Hs, Hq). done.
Qed.

Lemma load_operation_same o d d' :
  d_operations d' = d_operations d → load_operation o d' = load_operation o d.
Proof. intros H. unfold load_operation. by rewrite H. Qed.

(** The journal after a final error was recorded; a failed creation has been
    moved away. *)
Lemma fail_operation_recorded o e w w' :
  fail_operation o e w = (Ok (), w') → retryable e = false →
  ∃ op, load_operation o (w_disk w') = Ok op ∧ so_outcome op = Failed e ∧
    (is_creation (so_kind op) = true → reconcile_failed_creation op w' = (Ok (), w')).
Proof.
  unfold fail_operation. intros H Hr. rewrite Hr in H.
  apply bind_inv in H as (op & w0 & [Hload ->]%read_inv & H).
  pose proof (load_operation_ok _ _ _ Hload) as (_ & _ & Hshape).
  assert (∀ m w1 w2, write_operation m o (set_outcome (Failed e) op) w1 = (Ok (), w2) →
    so_outcome op = Prepared →
    load_operation o (w_disk w2) = Ok (set_outcome (Failed e) op)) as Hwrite.
  { intros m w1 w2 Hw Hp. eapply write_outcome_loads; [exact Hload| |exact Hw]. by apply shape_failed. }
  destruct (so_outcome op) eqn:Hout; try discriminate H.
  - destruct (is_creation (so_kind op)) eqn:Hc.
    + apply bind_inv in H as (m & w1 & Hm & H).
      assert (w1 = w) as -> by (clear -Hm; by inv_run).
      apply bind_inv in H as ([] & w1 & Hw & H).
      apply reconcile_failed_creation_again in H as [Hops Hagain].
      exists (set_outcome (Failed e) op). split_and!; [|done|by intros].
      rewrite (load_operation_same _ _ _ Hops). by eapply Hwrite.
    + assert (∃ m w1, write_operation m o (set_outcome (Failed e) op) w1 = (Ok (), w')) as (m & w1 & Hw).
      { destruct (is_process_kind (so_kind op));
          apply bind_inv in H as ([m1 m2] & w1 & [_ ->]%lift_inv & H).
        - apply bind_inv in H as (u & w1 & _ & H). eauto.
        - apply bind_inv in H as (c & w1 & [_ ->]%read_inv & H).
          apply bind_inv in H as (u & w1 & [_ ->]%lift_inv & H).
          apply bind_inv in H as (u2 & w1 & _ & H). eauto. }
      exists (set_outcome (Failed e) op). split_and!; [by eapply Hwrite|done|].
      simpl. by rewrite Hc.
  - case_bool_decide as He; [|discriminate H]. subst. exists op.
    destruct (is_creation (so_kind op)) eqn:Hc.
    + apply reconcile_failed_creation_again in H as [Hops Hagain].
      by rewrite (load_operation_same o _ _ Hops).
    + apply ret_inv in H as [_ ->]. done.
Qed.

(** Failures are recorded once.  Reporting a retryable error changes
    nothing.  When the report of a final error succeeded, the operation is
    journaled as failed with exactly that error, and repeating the report
    succeeds and changes nothing. *)
Theorem fail_operation_final o e w w' :
  fail_operation o e w = (Ok (), w') →
  if retryable e then w' = w
  else (∃ op, load_operation o (w_disk w') = Ok op ∧ so_outcome op = Failed e) ∧
       fail_operation o e w' = (Ok (), w').
Proof.
  intros H. destruct (retryable e) eqn:Hr.
  { unfold fail_operation in H. rewrite Hr in H. by apply ret_inv in H as [_ ->]. }
  destruct (fail_operation_recorded o e w w' H Hr) as (op & Hl & Ho & Hc).
  split; [by eexists|]. unfold fail_operation. rewrite Hr, (run_read _ _ _ _ Hl), Ho.
  rewrite bool_decide_eq_true_2 by done. destruct (is_creation (so_kind op)); [by apply Hc|done].
Qed.
End failures.

(** ** Waits *)

Section waits.
Context `{SE : StoreEnv}.
Implicit Types w : World.

Lemma append_exited_event_core target status w u w' :
  append_exited_event target status w = (Ok u, w') → same_core (w_disk w) (w_disk w').
Proof.
  unfold append_exited_event. intros H. apply bind_inv in H as (e & w1 & H1 & H).
  apply append_process_event_core in H1. by apply ret_inv in H as [_ ->].
Qed.

Lemma stopped_event_if_core b target w u w' :
  (if b : bool then do! append_container_event "stopped" target ContainerStopped ∅; ret () else ret ()) w
    = (Ok u, w') → same_core (w_disk w) (w_disk w').
Proof.
  destruct b; intros H; [|by apply ret_inv in H as [_ ->]].
  apply bind_inv in H as (e & w1 & H1 & H). apply append_container_event_core in H1.
  by apply ret_inv in H as [_ ->].
Qed.

Lemma generation_fence_exact id g name : generation_fence (target_exact id g) g name = Ok ().
Proof. unfold generation_fence. simpl. by rewrite bool_decide_eq_false_2 by naive_solver. Qed.

Lemma load_stored_exact_inv id g d c :
  load_stored_exact id g d = Ok c → load_stored_container id d = Ok c ∧ cr_generation (sc_record c) = g.
Proof.
  unfold load_stored_exact. intros H. inv_ok.
  match goal with H : bool_decide _ = false |- _ => apply bool_decide_eq_false, dec_stable in H end.
  done.
Qed.

(** The exact target of a loaded container's process. *)
Lemma exact_target_eq target g c :
  ct_generation (pt_container target) = Some g → sc_id c = ct_id (pt_container target) →
  cr_generation (sc_record c) = g → exact_process_target c (pt_process_id target) = target.
Proof.
  destruct target as [[id gen] pid]. unfold exact_process_target, target_exact. simpl.
  by intros -> -> ->.
Qed.

(** What a wait reads, given the record of its container. *)
Lemma prepare_wait_init target g c status timeout w :
  ct_generation (pt_container target) = Some g → is_init (pt_process_id target) = true →
  load_stored_container (ct_id (pt_container target)) (w_disk w) = Ok c →
  cr_generation (sc_record c) = g → sc_init_exit_status c = Some status →
  prepare_wait_process (mkWaitProcessRequest target timeout) w = (Ok (WaitReplayed status), w).
Proof.
  intros Hg Hi Hl Hgen Hx. unfold prepare_wait_process, read. simpl. rewrite Hl. simpl.
  unfold validate_requested_generation, generation_fence. rewrite Hg, Hgen.
  rewrite bool_decide_eq_false_2 by naive_solver. simpl. by rewrite Hi, Hx.
Qed.

Lemma prepare_wait_exec target g c p status timeout w :
  ct_generation (pt_container target) = Some g → is_init (pt_process_id target) = false →
  load_stored_container (ct_id (pt_container target)) (w_disk w) = Ok c →
  cr_generation (sc_record c) = g → load_stored_process target (w_disk w) = Ok p →
  sp_exit_status p = Some status →
  prepare_wait_process (mkWaitProcessRequest target timeout) w = (Ok (WaitReplayed status), w).
Proof.
  intros Hg Hi Hl Hgen Hp Hx. unfold prepare_wait_process, read. cbn [wait_process]. rewrite Hl.
  cbn [rbind]. unfold validate_requested_generation, generation_fence. rewrite Hg, Hgen.
  rewrite bool_decide_eq_false_2 by naive_solver. cbn [reject_if rbind].
  pose proof (load_stored_container_ok _ _ _ Hl) as (_ & Hid & _).
  rewrite (exact_target_eq target g c) by done. by rewrite Hi, Hp; simpl; rewrite Hx.
Qed.

(** A process record written back with its exit status loads. *)
Lemma reload_process target p status d :
  load_stored_process target d = Ok p → exit_status_validate status = Ok () →
  let p' := set_sp_exit (Some status) p in
  let f := FileProcess (ct_id (pt_container target)) (pt_process_id target) p' in
  parent_exists f d = true → load_stored_process target (commit_file f (open_transaction f d)) = Ok p'.
Proof.
  intros Hl Hv p' f Hpar. pose proof (process_record_put target p' d Hpar) as Hput.
  unfold process_record in Hput. fold f in Hput.
  unfold load_stored_process in *. apply rbind_ok in Hl as (g & Hg & Hl). rewrite Hg. cbn [rbind].
  apply rbind_ok in Hl as (pd & _ & Hl). apply rbind_ok in Hl as (p0 & _ & Hl).
  destruct (process_directory _ (commit_file f _)) as [pd'|]; [|done]. simpl in Hput. simpl.
  rewrite Hput. simpl. unfold load_stored_process_from_path in *. rewrite Hg in *. simpl in *.
  apply rbind_ok in Hl as (u & Hchk & Hl). apply rbind_ok in Hl as (u2 & _ & Hl). injection Hl as ->.
  unfold p' in *. cbn [set_sp_exit sp_schema_version sp_record sp_exit_status] in *.
  rewrite Hchk. simpl. by rewrite Hv.
Qed.

(** The record that the wait of an init process writes back. *)
Lemma stop_for_wait_ok id w c c1 (b : bool) w1 :
  load_stored_container id (w_disk w) = Ok c →
  (match st_status (cr_state (sc_record c)) with
   | Created | Running =>
       let! state := lift (rebuild_state (cr_state (sc_record c)) Stopped None) in
       do! lift (schema_validate_state state);
       ret (set_sc_state state c, true)
   | Stopped => ret (c, false)
   | Creating =>
       fail (state_error FailedPrecondition "complete-process-wait"
         "container {} generation {} has no prepared init process")
   end : M _) w = (Ok (c1, b), w1) →
  w1 = w ∧ record_step c c1 ∧ schema_validate_state (cr_state (sc_record c1)) = Ok () ∧
  sc_init_exit_status c1 = sc_init_exit_status c ∧ sc_id c1 = sc_id c.
Proof.
  intros Hl H. pose proof (load_stored_container_schema _ _ _ Hl) as Hs.
  destruct (st_status (cr_state (sc_record c))) eqn:Hst; try discriminate H.
  3: { apply ret_inv in H as [[= -> ->] ->]. done. }
  all: apply bind_inv in H as (state & w2 & [Hr ->]%lift_inv & H);
    apply bind_inv in H as ([] & w2 & [Hv ->]%lift_inv & H); apply ret_inv in H as [[= -> ->] ->];
    split_and!; try done; eapply record_step_rebuild; [exact Hr|rewrite Hst; auto with lifecycle].
Qed.

(** an exit status is cached.  When the wait of a
    process (the init process or an exec) completed with a status, the status
    is the one reported, and a wait of that process that follows is answered
    from the durable record with it, without asking the driver and without
    changing anything. *)
Theorem wait_result_cached target status w s w' timeout :
  complete_process_wait target status w = (Ok s, w') →
  s = status ∧
  prepare_wait_process (mkWaitProcessRequest target timeout) w' = (Ok (WaitReplayed status), w').
Proof.
  unfold complete_process_wait. intros H.
  apply bind_inv in H as ([] & w0 & [Hval ->]%lift_inv & H).
  apply bind_inv in H as (g & w0 & [Hg%ok_or_ok ->]%lift_inv & H).
  apply bind_inv in H as (c & w0 & [Hc ->]%read_inv & H).
  apply load_stored_exact_inv in Hc as [Hl Hgen].
  pose proof (load_stored_container_ok _ _ _ Hl) as (Hlive & Hid & _).
  destruct (is_init (pt_process_id target)) eqn:Hi.
  - destruct (sc_init_exit_status c) as [x|] eqn:Hx.
    { apply lift_inv in H as [H ->]. unfold same_exit in H. case_bool_decide; [|done].
      injection H as <-. subst x. split; [done|]. by eapply prepare_wait_init. }
    apply bind_inv in H as ([c1 b] & w1 & Hmid & H).
    destruct (stop_for_wait_ok _ _ _ _ _ _ Hl Hmid) as (-> & Hstep & Hschema & Hx1 & Hid1).
    apply bind_inv in H as (u1 & w2 & H2%append_exited_event_core & H).
    apply bind_inv in H as (u2 & w3 & H3%stopped_event_if_core & H).
    apply bind_inv in H as ([] & w4 & [_ H4]%write_json_ok & H). apply ret_inv in H as [-> ->].
    split; [done|].
    eapply (prepare_wait_init _ g (set_sc_exit (Some status) c1)); try done.
    + rewrite H4. cbn [open_transaction]. rewrite Hid1, Hid. eapply reload_record; [|etrans|].
      * rewrite <- Hl. apply load_stored_container_core. by etrans.
      * exact Hstep.
      * apply record_step_exit. congruence.
      * done.
    + destruct Hstep as [_ _ _ Hr _ _ _ _]. simpl. by rewrite Hr.
  - apply bind_inv in H as (p & w0 & [Hp ->]%read_inv & H).
    destruct (sp_exit_status p) as [x|] eqn:Hx.
    { apply lift_inv in H as [H ->]. unfold same_exit in H. case_bool_decide; [|done].
      injection H as <-. subst x. split; [done|]. by eapply prepare_wait_exec. }
    apply bind_inv in H as (u1 & w1 & H1%append_exited_event_core & H).
    apply bind_inv in H as ([] & w2 & [Hpar H2]%write_json_ok & H). apply ret_inv in H as [-> ->].
    split; [done|].
    eapply (prepare_wait_exec _ g c (set_sp_exit (Some status) p)); try done.
    + rewrite H2, <- Hl. rewrite <- (load_stored_container_core _ _ _ H1).
      apply load_stored_container_frame; simpl; rewrite !lookup_alter_eq;
        by destruct (d_containers (w_disk w1) !! _).
    + rewrite H2. apply reload_process; [|done|done].
      rewrite <- Hp. unfold load_stored_process, process_directory. by rewrite (sco_containers _ _ H1).
Qed.
End waits.

(** ** Listing *)

Lemma string_leb_trans s1 s2 s3 :
  String.leb s1 s2 = true → String.leb s2 s3 = true → String.leb s1 s3 = true.
Proof.
  unfold String.leb. revert s2 s3.
  induction s1 as [|a s1 IH]; intros [|b s2] [|c s3]; simpl; try done.
  unfold Ascii.compare.
  destruct (N.compare_spec (Ascii.N_of_ascii a) (Ascii.N_of_ascii b)) as [E1|E1|E1];
    destruct (N.compare_spec (Ascii.N_of_ascii b) (Ascii.N_of_ascii c)) as [E2|E2|E2]; try done;
    destruct (N.compare_spec (Ascii.N_of_ascii a) (Ascii.N_of_ascii c)) as [E3|E3|E3];
    try done; try lia; apply IH.
Qed.

#[global] Instance record_le_trans : Transitive record_le.
Proof. intros a b c. unfold record_le. apply string_leb_trans. Qed.
#[global] Instance record_le_total : Total record_le.
Proof. intros a b. apply String.leb_total. Qed.

Section listing.
Context `{SE : StoreEnv}.

Definition wanted (isolation : option IsolationClass) (c : StoredContainer) : bool :=
  match isolation with
  | None => true
  | Some isolation => bool_decide (cr_isolation (sc_record c) = isolation)
  end.

(** a listing is complete, sound and ordered.  A listing that succeeds is
    ordered by container ID and contains the record of exactly the live
    containers whose isolation matches the filter. *)
Theorem list_records_spec request d l :
  list_records request d = Ok l →
  StronglySorted record_le l ∧
  ∀ r, r ∈ l ↔ ∃ id c, live_record id d = Some c ∧ sc_record c = r ∧
    wanted (list_isolation request) c = true.
Proof.
  unfold list_records. intros H. inv_ok. split; [apply StronglySorted_merge_sort; apply _|].
  intros r. rewrite merge_sort_Permutation.
  match goal with H : rfold _ _ _ = Ok ?acc |- _ =>
    apply (rfold_invariant _ (λ pre acc, (∀ id, id ∈ pre → is_ok (load_stored_container id d) = true) ∧
      ∀ r, r ∈ acc ↔ ∃ id c, id ∈ pre ∧ load_stored_container id d = Ok c ∧ sc_record c = r ∧
        wanted (list_isolation request) c = true)) in H as [Hall Hacc] end.
  - rewrite Hacc. split.
    + intros (id & c & _ & (? & _)%load_stored_container_ok & ? & ?). eauto.
    + intros (id & c & Hl & ? & ?). pose proof Hl as (dir & Hdir & _)%live_record_some.
      assert (id ∈ (map_to_list (d_containers d)).*1) as Hin
        by (apply list_elem_of_fmap; exists (id, dir); by rewrite elem_of_map_to_list).
      specialize (Hall id Hin). destruct (load_stored_container id d) as [c'|] eqn:Hload; [|done].
      pose proof (load_stored_container_ok _ _ _ Hload) as (Hl' & _).
      exists id, c. simplify_eq. by split_and!.
  - split; [by intros ? ?%elem_of_nil|]. intros r0. split; [by intros ?%elem_of_nil|].
    by intros (? & ? & ?%elem_of_nil & _).
  - intros pre name post acc acc' _ [Hpre Hiff] Hstep. unfold list_entry in Hstep.
    apply rbind_ok in Hstep as (name' & Hn%map_err_ok & Hstep).
    apply validate_identifier_inv in Hn as [-> _].
    apply rbind_ok in Hstep as (c & Hload & Hstep). injection Hstep as <-. fold (wanted (list_isolation request) c).
    split.
    { intros i [Hi|Hi%list_elem_of_singleton]%elem_of_app; [by apply Hpre|]. subst. by rewrite Hload. }
    intros r0. transitivity (r0 ∈ acc ∨ (r0 = sc_record c ∧ wanted (list_isolation request) c = true)).
    { destruct (wanted _ c); rewrite ?elem_of_app, ?list_elem_of_singleton; naive_solver. }
    rewrite Hiff. setoid_rewrite elem_of_app. setoid_rewrite list_elem_of_singleton. split.
    + intros [(i & c' & ? & ? & ? & ?)|[-> ?]]; eauto 10.
    + intros (i & c' & [Hi|Hi] & Hl & Hr & Hw); [left; eauto 10|right]. subst i.
      rewrite Hload in Hl. injection Hl as <-. done.
Qed.
End listing.

(** ** Witnesses *)

Lemma lifecycle_claim_exclusive_witness :
  ∃ c c', live_record "web" (w_disk created_world) = Some c ∧
    live_record "web" (w_disk (claim_active_operation c "op-start" ClaimStartOperation "prepare-start"
      created_world).2) = Some c' ∧ sc_active_operation c' = Some "op-start".
Proof.
  destruct (live_record "web" (w_disk created_world)) as [c|] eqn:Hl;
    [|vm_compute in Hl; discriminate Hl].
  assert (sc_id c = "web" ∧ is_ok (claim_active_operation c "op-start" ClaimStartOperation
    "prepare-start" created_world).1 = true) as [Hid Hok].
  { pose proof Hl as Hl'. vm_compute in Hl'. injection Hl' as <-. vm_compute. split; reflexivity. }
  destruct (claim_active_operation c "op-start" ClaimStartOperation "prepare-start" created_world)
    as [[c'|e] w'] eqn:H; [|discriminate Hok].
  rewrite <- Hid in Hl |- *. clear Hid.
  destruct (lifecycle_claim_exclusive c "op-start" ClaimStartOperation "prepare-start" created_world
    c' w' Hl H) as (Hl' & Ha & _).
  exists c, c'. rewrite H. split_and!; [reflexivity|exact Hl'|exact Ha].
Defined.

Lemma fail_operation_final_witness :
  fail_operation "op-start" driver_failure (fail_operation "op-start" driver_failure started_before).2
    = (Ok (), (fail_operation "op-start" driver_failure started_before).2).
Proof.
  destruct (fail_operation "op-start" driver_failure started_before) as [[[]|e] w'] eqn:H;
    [|exfalso; apply (f_equal (λ x, is_ok x.1)) in H; vm_compute in H; discriminate H].
  exact (proj2 (fail_operation_final "op-start" driver_failure started_before w' H)).
Defined.

Definition init_target : ProcessTarget := mkProcessTarget (target_exact "web" 1) "init".
Definition exited_zero : ExitStatus := mkExitStatus (Some 0) None false.

Lemma wait_result_cached_witness :
  (prepare_wait_process (mkWaitProcessRequest init_target None)
     (complete_process_wait init_target exited_zero started_world).2).1
    = Ok (WaitReplayed exited_zero).
Proof.
  destruct (complete_process_wait init_target exited_zero started_world) as [[s|e] w'] eqn:H;
    [|exfalso; apply (f_equal (λ x, is_ok x.1)) in H; vm_compute in H; discriminate H].
  cbn [snd]. rewrite (proj2 (wait_result_cached init_target exited_zero started_world s w' None H)).
  reflexivity.
Defined.

Lemma list_records_spec_witness :
  ∃ l, list_records (mkListRequest None) (w_disk started_world) = Ok l ∧ StronglySorted record_le l.
Proof.
  destruct (list_records (mkListRequest None) (w_disk started_world)) as [l|e] eqn:H;
    [|vm_compute in H; discriminate H].
  exists l. split; [reflexivity|]. exact (proj1 (list_records_spec _ _ _ H)).
Defined.
