(* ===== verification/OperationGates.v ===== *)
(** * Operation gates (crates/runtime/src/service.rs)

    Callers that use the same operation identifier in one host process run one
    at a time: [OperationGates::acquire] looks the identifier's gate up in a
    table of weak references, under the table's mutex, and then waits for the
    gate's own mutex.  The table forgets gates that nobody refers to.

    The callers are interleaved step by step: pruning the table, finding or
    making the gate, taking the gate, dropping it, and giving up while waiting
    are separate steps; a caller between the first two holds the table. *)

From stdpp Require Import base gmap strings list relations.
From S2P Require Import Prelude.

Inductive Phase : Type :=
  | Entering (o : string)
  | Waiting (o : string) (gate : nat)
  | Holding (o : string) (gate : nat).
#[global] Instance Phase_eq_dec : EqDecision Phase.
Proof. solve_decision. Defined.

(** [OperationGates] with its callers: the table, the callers (none is absent
    from the map while it owns a reference), and the gates made so far. *)
Record Gates : Type := mkGates {
  gt_entries : gmap string nat;
  gt_callers : gmap nat Phase;
  gt_next : nat
}.
Definition no_gates : Gates := mkGates ∅ ∅ 0.

(** The gate that a caller owns a strong reference to. *)
Definition phase_gate (p : Phase) : option nat :=
  match p with Entering _ => None | Waiting _ gate | Holding _ gate => Some gate end.
Definition holds_gate (gate : nat) (p : Phase) : bool :=
  match p with Holding _ gate' => bool_decide (gate' = gate) | _ => false end.

(** [gate.strong_count() > 0] *)
Definition alive (callers : gmap nat Phase) (gate : nat) : bool :=
  existsb (λ p, bool_decide (phase_gate p = Some gate)) (map_to_list callers).*2.
(** The gate's mutex is taken. *)
Definition locked (callers : gmap nat Phase) (gate : nat) : bool :=
  existsb (holds_gate gate) (map_to_list callers).*2.
(** Some caller holds the table's mutex. *)
Definition table_taken (callers : gmap nat Phase) : bool :=
  existsb (λ p, match p with Entering _ => true | _ => false end) (map_to_list callers).*2.

(** [entries.retain(|_, gate| gate.strong_count() > 0)] *)
Definition retain_alive (g : Gates) : gmap string nat :=
  filter (λ e, alive (gt_callers g) e.2 = true) (gt_entries g).

(** The gate of [o] when the weak reference upgrades, or a new one. *)
Definition find_or_make (o : string) (g : Gates) : nat * gmap string nat * nat :=
  match gt_entries g !! o with
  | Some gate =>
      if alive (gt_callers g) gate then (gate, gt_entries g, gt_next g)
      else (gt_next g, <[o := gt_next g]> (gt_entries g), S (gt_next g))
  | None => (gt_next g, <[o := gt_next g]> (gt_entries g), S (gt_next g))
  end.

(** One step of one caller of [acquire] or of its guard. *)
Inductive gate_step (g : Gates) : Gates → Prop :=
  | step_enter t o :
      gt_callers g !! t = None → table_taken (gt_callers g) = false →
      gate_step g (mkGates (retain_alive g) (<[t := Entering o]> (gt_callers g)) (gt_next g))
  | step_find t o gate entries next :
      gt_callers g !! t = Some (Entering o) → find_or_make o g = (gate, entries, next) →
      gate_step g (mkGates entries (<[t := Waiting o gate]> (gt_callers g)) next)
  | step_lock t o gate :
      gt_callers g !! t = Some (Waiting o gate) → locked (gt_callers g) gate = false →
      gate_step g (mkGates (gt_entries g) (<[t := Holding o gate]> (gt_callers g)) (gt_next g))
  | step_cancel t o gate :
      gt_callers g !! t = Some (Waiting o gate) →
      gate_step g (mkGates (gt_entries g) (delete t (gt_callers g)) (gt_next g))
  | step_drop t o gate :
      gt_callers g !! t = Some (Holding o gate) →
      gate_step g (mkGates (gt_entries g) (delete t (gt_callers g)) (gt_next g)).

(** ** The invariant *)

(** A caller refers to the gate that the table has for its operation, gates are
    not shared between operations, and a gate has one holder. *)
Record gates_inv (g : Gates) : Prop := {
  gi_entry : ∀ t o gate, gt_callers g !! t = Some (Waiting o gate) ∨
                         gt_callers g !! t = Some (Holding o gate) → gt_entries g !! o = Some gate;
  gi_inj : ∀ o o' gate, gt_entries g !! o = Some gate → gt_entries g !! o' = Some gate → o = o';
  gi_fresh : ∀ o gate, gt_entries g !! o = Some gate → (gate < gt_next g)%nat;
  gi_holder : ∀ t t' o o' gate, gt_callers g !! t = Some (Holding o gate) →
    gt_callers g !! t' = Some (Holding o' gate) → t = t'
}.

Lemma existsb_callers (f : Phase → bool) (callers : gmap nat Phase) :
  existsb f (map_to_list callers).*2 = true ↔ ∃ t p, callers !! t = Some p ∧ f p = true.
Proof.
  rewrite existsb_exists. setoid_rewrite <- list_elem_of_In. split.
  - intros (p & ([t p'] & -> & H%elem_of_map_to_list)%list_elem_of_fmap & Hf). eauto.
  - intros (t & p & H & Hf). exists p. split; [|done]. apply list_elem_of_fmap.
    exists (t, p). split; [done|]. by apply elem_of_map_to_list.
Qed.

Lemma alive_true callers gate :
  alive callers gate = true ↔ ∃ t p, callers !! t = Some p ∧ phase_gate p = Some gate.
Proof. unfold alive. rewrite existsb_callers. by setoid_rewrite bool_decide_eq_true. Qed.
Lemma locked_false callers gate t o :
  locked callers gate = false → callers !! t = Some (Holding o gate) → False.
Proof.
  intros Hl Ht. apply not_true_iff_false in Hl. apply Hl, existsb_callers.
  exists t, (Holding o gate). split; [done|]. simpl. by apply bool_decide_eq_true.
Qed.

Lemma gates_inv_entry g t p o gate :
  gates_inv g → gt_callers g !! t = Some p → p = Waiting o gate ∨ p = Holding o gate →
  gt_entries g !! o = Some gate ∧ alive (gt_callers g) gate = true.
Proof.
  intros Hi Ht Hp. split; [eapply (gi_entry _ Hi t); naive_solver|].
  apply alive_true. exists t, p. split; [done|]. by destruct Hp; subst.
Qed.

Lemma gates_inv_insert g t p :
  gates_inv g →
  (∀ o gate, p = Waiting o gate ∨ p = Holding o gate → gt_entries g !! o = Some gate) →
  (∀ o gate, p = Holding o gate → locked (gt_callers g) gate = false) →
  gates_inv (mkGates (gt_entries g) (<[t := p]> (gt_callers g)) (gt_next g)).
Proof.
  intros [He Hinj Hf Hh] Hp Hl. split; simpl; [|done|done|].
  - intros t' o gate. destruct (decide (t' = t)) as [->|Hne].
    + rewrite lookup_insert_eq. intros H. apply Hp. naive_solver.
    + rewrite lookup_insert_ne by done. apply He.
  - intros t1 t2 o o' gate. destruct (decide (t1 = t)) as [->|], (decide (t2 = t)) as [->|];
      rewrite ?lookup_insert_eq, ?lookup_insert_ne by done; [done| | |apply Hh].
    + intros [= ->] H2. destruct (locked_false _ _ _ _ (Hl _ _ eq_refl) H2).
    + intros H1 [= ->]. destruct (locked_false _ _ _ _ (Hl _ _ eq_refl) H1).
Qed.
Lemma gates_inv_delete g t :
  gates_inv g → gates_inv (mkGates (gt_entries g) (delete t (gt_callers g)) (gt_next g)).
Proof.
  intros [He Hinj Hf Hh]. split; simpl; [|done|done|].
  - intros t' o gate. rewrite !lookup_delete_Some. naive_solver.
  - intros t1 t2 o o' gate. rewrite !lookup_delete_Some. naive_solver.
Qed.
Lemma gates_inv_retain g : gates_inv g → gates_inv (mkGates (retain_alive g) (gt_callers g) (gt_next g)).
Proof.
  intros Hi. pose proof Hi as [He Hinj Hf Hh]. unfold retain_alive. split; simpl; [| | |done].
  - intros t o gate Ht. apply map_lookup_filter_Some. simpl.
    destruct Ht as [Ht|Ht]; eapply gates_inv_entry in Ht; eauto.
  - intros o o' gate [H _]%map_lookup_filter_Some [H' _]%map_lookup_filter_Some. by eapply Hinj.
  - intros o gate [H _]%map_lookup_filter_Some. by eapply Hf.
Qed.
Lemma gates_inv_find g o gate entries next :
  gates_inv g → find_or_make o g = (gate, entries, next) →
  gates_inv (mkGates entries (gt_callers g) next) ∧ entries !! o = Some gate.
Proof.
  intros Hi H. pose proof Hi as [He Hinj Hf Hh]. unfold find_or_make in H.
  assert ((∀ gate', gt_entries g !! o = Some gate' → alive (gt_callers g) gate' = false) →
    gates_inv (mkGates (<[o := gt_next g]> (gt_entries g)) (gt_callers g) (S (gt_next g)))) as Hnew.
  { intros Hdead. split; simpl; [| | |done].
    - intros t o' gate' Ht. assert (gt_entries g !! o' = Some gate' ∧ alive (gt_callers g) gate' = true)
        as [He' Ha] by (destruct Ht as [Ht|Ht]; eapply gates_inv_entry in Ht; eauto).
      rewrite lookup_insert_ne; [done|]. intros <-. by rewrite (Hdead _ He') in Ha.
    - intros o1 o2 gate'. rewrite !lookup_insert_Some. intros [[<- <-]|[? H1]] [[<- H2]|[? H2]];
        try done; [apply Hf in H2; lia|subst; apply Hf in H1; lia|by eapply Hinj].
    - intros o' gate' [[<- <-]|[_ H']]%lookup_insert_Some; [lia|]. apply Hf in H'. lia. }
  destruct (gt_entries g !! o) as [gate'|] eqn:Ho.
  - destruct (alive (gt_callers g) gate') eqn:Ha; injection H as <- <- <-.
    + split; [by destruct g|done].
    + split; [|by rewrite lookup_insert_eq]. apply Hnew. naive_solver.
  - injection H as <- <- <-. split; [|by rewrite lookup_insert_eq]. by apply Hnew.
Qed.

Lemma gates_inv_step g g' : gates_inv g → gate_step g g' → gates_inv g'.
Proof.
  intros Hi [t o Ht Hfree|t o gate entries next Ht Hfm|t o gate Ht Hl|t o gate Ht|t o gate Ht].
  - apply (gates_inv_insert (mkGates (retain_alive g) (gt_callers g) (gt_next g)));
      [by apply gates_inv_retain|naive_solver|naive_solver].
  - apply (gates_inv_find _ _ _ _ _ Hi) in Hfm as [Hi' Ho].
    apply (gates_inv_insert (mkGates entries (gt_callers g) next)); naive_solver.
  - apply gates_inv_insert; [done| |naive_solver]. intros o' gate' [?|[= -> ->]]; [done|].
    eapply (gi_entry _ Hi); by left.
  - by apply gates_inv_delete.
  - by apply gates_inv_delete.
Qed.

Lemma reachable_gates_inv g : rtc gate_step no_gates g → gates_inv g.
Proof.
  intros H. assert (gates_inv no_gates) as H0 by (split; simpl; set_solver).
  induction H; [done|]. eauto using gates_inv_step.
Qed.

(** C26: the gates.  Under any interleaving of callers that arrive, wait, give up
    and leave, at most one caller at a time is past the gate of an operation
    identifier; and a waiting caller is only ever held up by a caller of the
    same identifier: when none holds it, the waiting caller can take its gate. *)
Theorem operation_gates_exclusive g :
  rtc gate_step no_gates g →
  (∀ t t' o gate gate', gt_callers g !! t = Some (Holding o gate) →
     gt_callers g !! t' = Some (Holding o gate') → t = t') ∧
  (∀ t o gate, gt_callers g !! t = Some (Waiting o gate) →
     (∀ t' gate', gt_callers g !! t' ≠ Some (Holding o gate')) →
     gate_step g (mkGates (gt_entries g) (<[t := Holding o gate]> (gt_callers g)) (gt_next g))).
Proof.
  intros Hi%reachable_gates_inv. split.
  - intros t t' o gate gate' H1 H2.
    assert (Some gate = Some gate') as [= <-].
    { rewrite <- (gi_entry _ Hi t o gate), (gi_entry _ Hi t' o gate'); naive_solver. }
    by eapply (gi_holder _ Hi).
  - intros t o gate Ht Hnone. apply (step_lock _ t); [done|]. apply not_true_iff_false.
    intros (t' & p & Ht' & Hp)%existsb_callers. destruct p as [| |o' gate']; try done.
    apply bool_decide_eq_true in Hp as ->. apply (Hnone t' gate). rewrite Ht'. repeat f_equal.
    eapply (gi_inj _ Hi); eapply (gi_entry _ Hi); [right|left]; done.
Qed.
