(* ===== verification/HostRefine.v ===== *)
(** * The host service refines the store's machine

    [HostCall] is the interface of an opened service.  Whatever the drivers
    answer, and wherever the fault injector stops it, a call changes the state
    root only by steps of the store's machine. *)

From stdpp Require Import base gmap strings list relations.
From S2P Require Import Prelude Collections Sdk Identifiers OutputBuffer Lifecycle Fault.
From S2P Require Import OciState Contracts Capabilities HostArtifact StoreModel Disk.
From S2P Require Import RestoreContract Journal Events Claims Create Start Kill Freezer Update.
From S2P Require Import ProcessStore ProcessIoStore FileStore CheckpointStore RestoreStore.
From S2P Require Import AttestationStore Delete Observe Driver DriverRegistry StartupAudit.
From S2P Require Import Machine Refine RefineOps RefineProcess RefineContracts Store.
From S2P Require Import HostService HostContracts.
Local Open Scope string_scope.
Local Open Scope Z_scope.

(** [OciRuntimeService] and the service's own create with descriptors. *)
Inductive HostCall : Type :=
  | HostCreate (request : CreateRequest)
  | HostCreateNative (request : CreateRequest) (descriptors : string)
  | HostState (request : StateRequest)
  | HostStart (request : StartRequest)
  | HostKill (request : KillRequest)
  | HostDelete (request : DeleteRequest)
  | HostExec (request : ExecRequest)
  | HostWait (request : WaitRequest)
  | HostList (request : ListRequest)
  | HostPause (request : ContainerOperationRequest)
  | HostResume (request : ContainerOperationRequest)
  | HostUpdate (request : UpdateRequest)
  | HostProcesses (request : ProcessesRequest)
  | HostStats (request : StatsRequest)
  | HostEvents (request : EventsRequest)
  | HostReadOutput (request : ReadOutputRequest)
  | HostWriteStdin (request : WriteStdinRequest)
  | HostCloseStdin (request : CloseStdinRequest)
  | HostResize (request : ResizeRequest)
  | HostSignalProcess (request : SignalProcessRequest)
  | HostWaitProcess (request : WaitProcessRequest)
  | HostFile (request : FileRequest)
  | HostFilesystem (request : FilesystemRequest)
  | HostCheckpoint (request : CheckpointRequest)
  | HostRestore (request : RestoreRequest)
  | HostAttest (request : TeeAttestationRequest).

(** The answers; those that the store keeps are its replies. *)
Inductive HostReply : Type :=
  | FromStore (r : StoreReply)
  | ReplyProcesses (l : list ProcessRecord)
  | ReplyStats (s : ContainerStats)
  | ReplyOutput (l : list OutputChunk).

(** The identifiers of a request were parsed. *)
Definition host_well_typed (c : HostCall) : Prop :=
  match c with
  | HostCreate r | HostCreateNative r _ =>
      valid_id (oc_operation_id (create_context r)) ∧ valid_id (create_id r)
  | HostStart r => valid_id (oc_operation_id (start_context r))
  | HostKill r => valid_id (oc_operation_id (kill_context r))
  | HostDelete r => valid_id (oc_operation_id (delete_context r))
  | HostExec r => valid_id (oc_operation_id (exec_context r))
  | HostPause r | HostResume r => valid_id (oc_operation_id (cop_context r))
  | HostUpdate r => valid_id (oc_operation_id (update_context r))
  | HostWriteStdin r => valid_id (oc_operation_id (ws_context r))
  | HostCloseStdin r => valid_id (oc_operation_id (cs_context r))
  | HostResize r => valid_id (oc_operation_id (rz_context r))
  | HostSignalProcess r => valid_id (oc_operation_id (sig_context r))
  | HostFile r => ∀ c, file_context r = Some c → valid_id (oc_operation_id c)
  | HostFilesystem r => ∀ c, fs_context r = Some c → valid_id (oc_operation_id c)
  | HostCheckpoint r => valid_id (oc_operation_id (ckr_context r))
  | HostRestore r => valid_id (oc_operation_id (rr_context r)) ∧ valid_id (rr_id r)
  | HostAttest r => valid_id (oc_operation_id (atr_context r))
  | _ => True
  end.

Section host_refine.
Context `{SE : StoreEnv} `{HE : HostEnv}.
Abbreviation Driver := (RuntimeDriver host_outside host_linux).
Implicit Types (hw : HostWorld) (g : DriverRegistry) (s : HostRuntimeService).

Definition answer {A} (f : A → HostReply) (m : H A) : H HostReply := let! a := m in ret (f a).

Definition run_host_call s (c : HostCall) : H HostReply :=
  match c with
  | HostCreate r => answer (λ a, FromStore (ReplyRecord a)) (host_create s r)
  | HostCreateNative r descriptors =>
      answer (λ a, FromStore (ReplyRecord a)) (create_with_native_control_descriptors s r descriptors)
  | HostState r => answer (λ a, FromStore (ReplyRecord a)) (host_state s r)
  | HostStart r => answer (λ a, FromStore (ReplyRecord a)) (host_start s r)
  | HostKill r => answer (λ a, FromStore (ReplyRecord a)) (host_kill s r)
  | HostDelete r => answer (λ a, FromStore (ReplyUnit a)) (host_delete s r)
  | HostExec r => answer (λ a, FromStore (ReplyProcess a)) (host_exec s r)
  | HostWait r => answer (λ a, FromStore (ReplyExit a)) (host_wait s r)
  | HostList r => answer (λ a, FromStore (ReplyRecords a)) (host_list s r)
  | HostPause r => answer (λ a, FromStore (ReplyRecord a)) (host_pause s r)
  | HostResume r => answer (λ a, FromStore (ReplyRecord a)) (host_resume s r)
  | HostUpdate r => answer (λ a, FromStore (ReplyRecord a)) (host_update s r)
  | HostProcesses r => answer ReplyProcesses (host_processes s r)
  | HostStats r => answer ReplyStats (host_stats s r)
  | HostEvents r => answer (λ a, FromStore (ReplyEvents a)) (host_events s r)
  | HostReadOutput r => answer ReplyOutput (host_read_output s r)
  | HostWriteStdin r => answer (λ a, FromStore (ReplyUnit a)) (host_write_stdin s r)
  | HostCloseStdin r => answer (λ a, FromStore (ReplyUnit a)) (host_close_stdin s r)
  | HostResize r => answer (λ a, FromStore (ReplyUnit a)) (host_resize s r)
  | HostSignalProcess r => answer (λ a, FromStore (ReplyUnit a)) (host_signal_process s r)
  | HostWaitProcess r => answer (λ a, FromStore (ReplyExit a)) (host_wait_process s r)
  | HostFile r => answer (λ a, FromStore (ReplyFile a)) (host_file s r)
  | HostFilesystem r => answer (λ a, FromStore (ReplyFilesystem a)) (host_filesystem s r)
  | HostCheckpoint r => answer (λ a, FromStore (ReplyCheckpoint a)) (host_checkpoint s r)
  | HostRestore r => answer (λ a, FromStore (ReplyRestore a)) (host_restore s r)
  | HostAttest r => answer (λ a, FromStore (ReplyAttestation a)) (host_attest s r)
  end.

(** ** Refinement *)

Definition host_disk hw : Disk := w_disk (hw_store hw).

Definition host_refines {A} (m : H A) : Prop :=
  ∀ hw, store_inv (host_disk hw) → rtc astep (host_disk hw) (host_disk (m hw).2).

Lemma host_refines_store {A} (m : M A) : (∀ w, refines m w) → host_refines (store m).
Proof.
  intros Hm hw Hinv. specialize (Hm (hw_store hw) Hinv). unfold wp in Hm. unfold store.
  by destruct (m (hw_store hw)).
Qed.
Lemma host_refines_read {A} (m : M A) : (∀ w, (m w).2 = w) → host_refines (store m).
Proof. intros Hm. apply host_refines_store. intros w. by apply refines_unchanged. Qed.
Lemma host_refines_outside {A} (m : prog host_outside Error A) : host_refines (outside m).
Proof. intros hw _. unfold outside. by destruct (m (hw_outside hw)). Qed.
Lemma host_refines_lift {A} (r : Result A) : host_refines (lift r).
Proof. by intros hw. Qed.
Lemma host_refines_ret {A} (a : A) : host_refines (ret a).
Proof. by intros hw. Qed.
Lemma host_refines_fail {A} e : host_refines (A := A) (fail e).
Proof. by intros hw. Qed.
Lemma host_refines_attempt {A} (m : H A) : host_refines m → host_refines (attempt m).
Proof. intros Hm hw Hinv. specialize (Hm hw Hinv). unfold attempt. by destruct (m hw). Qed.
Lemma host_refines_relabel {A} name (m : H A) : host_refines m → host_refines (relabel name m).
Proof. intros Hm hw Hinv. specialize (Hm hw Hinv). unfold relabel. by destruct (m hw). Qed.
Lemma host_refines_bind {A B} (m : H A) (k : A → H B) :
  host_refines m → (∀ a, host_refines (k a)) → host_refines (bind m k).
Proof.
  intros Hm Hk hw Hinv. specialize (Hm hw Hinv). unfold bind.
  destruct (m hw) as [[a|e] hw'] eqn:E; simpl in *; [|done].
  etrans; [exact Hm|]. apply Hk. by eapply store_inv_steps.
Qed.
Lemma host_refines_for_each {A} (body : A → H ()) l :
  (∀ x, host_refines (body x)) → host_refines (for_each body l).
Proof.
  intros Hb. induction l as [|x l IH]; simpl; [apply host_refines_ret|].
  by apply host_refines_bind.
Qed.
Lemma host_refines_boundary op stage : host_refines (driver_boundary op stage).
Proof.
  apply host_refines_store. intros w _. unfold wp, check. by destruct (fault_check _ _).
Qed.
Lemma host_refines_driver_call {A} op (m : prog host_outside Error A) :
  host_refines (driver_call op m).
Proof.
  repeat (apply host_refines_bind; intros);
    auto using host_refines_boundary, host_refines_attempt, host_refines_outside, host_refines_ret.
Qed.
Lemma host_refines_acknowledge g o : host_refines (acknowledge_operation g o).
Proof. apply host_refines_outside. Qed.
Lemma host_refines_acknowledge_result {A} g o (m : H A) :
  host_refines m → host_refines (acknowledge_result g o m).
Proof.
  intros Hm. repeat (apply host_refines_bind; intros); auto using host_refines_acknowledge,
    host_refines_ret.
Qed.
Lemma host_refines_fail_driver {A} g o e : host_refines (fail_driver_operation (A := A) g o e).
Proof.
  unfold fail_driver_operation. destruct (retryable e); [apply host_refines_fail|].
  apply host_refines_bind; [apply host_refines_store; intros; apply fail_operation_refines|].
  intros _. apply host_refines_bind; [apply host_refines_acknowledge|]. intros _.
  apply host_refines_fail.
Qed.
Lemma host_refines_or_fail {A B} g o (r : Result A) (k : A → H B) :
  (∀ a, host_refines (k a)) → host_refines (or_fail g o r k).
Proof. destruct r; simpl; [done|]. intros _. apply host_refines_fail_driver. Qed.
Lemma host_refines_or_settle {A B} g o b (r : Result A) (k : A → H B) :
  (∀ a, host_refines (k a)) → host_refines (or_settle g o b r k).
Proof.
  destruct r, b; simpl; try done; intros _; [apply host_refines_fail_driver|apply host_refines_fail].
Qed.

(** A call of the store as a [StoreCall]: its refinement is the store's. *)
Lemma host_refines_call {A} (c : StoreCall) (f : A → StoreReply) (m : M A) :
  run_call c = reply f m → well_typed c → host_refines (store m).
Proof.
  intros Hc Hw. apply host_refines_store. intros w Hinv.
  pose proof (run_call_refines c w Hw Hinv) as H. rewrite Hc in H. unfold wp, reply, bind in *.
  by destruct (m w) as [[a|e] w'].
Qed.
End host_refine.

Create HintDb host_db.

Ltac call_refines c :=
  eapply (host_refines_call c); [reflexivity|try done; try (split; done)].
(** The calls of the store that change it, and its reads. *)
Ltac store_refines :=
  lazymatch goal with
  | |- host_refines (store open_store) => call_refines CallOpen
  | |- host_refines (store (prepare_create ?a ?b ?c)) => call_refines (CallPrepareCreate a b c)
  | |- host_refines (store (complete_create ?a ?b)) => call_refines (CallCompleteCreate a b)
  | |- host_refines (store (Start.prepare_start ?a)) => call_refines (CallPrepareStart a)
  | |- host_refines (store (Start.complete_start ?a ?b ?c)) => call_refines (CallCompleteStart a b c)
  | |- host_refines (store (Kill.prepare_kill ?a)) => call_refines (CallPrepareKill a)
  | |- host_refines (store (Kill.complete_kill ?a ?b ?c)) => call_refines (CallCompleteKill a b c)
  | |- host_refines (store (prepare_freezer ?a ?b)) => call_refines (CallPrepareFreezer a b)
  | |- host_refines (store (complete_freezer ?a ?b ?c ?d ?e)) =>
      call_refines (CallCompleteFreezer a b c d e)
  | |- host_refines (store (prepare_update ?a)) => call_refines (CallPrepareUpdate a)
  | |- host_refines (store (complete_update ?a ?b ?c ?d)) => call_refines (CallCompleteUpdate a b c d)
  | |- host_refines (store (prepare_delete ?a)) => call_refines (CallPrepareDelete a)
  | |- host_refines (store (complete_delete ?a)) => call_refines (CallCompleteDelete a)
  | |- host_refines (store (prepare_exec ?a)) => call_refines (CallPrepareExec a)
  | |- host_refines (store (complete_exec ?a ?b ?c)) => call_refines (CallCompleteExec a b c)
  | |- host_refines (store (prepare_signal_process ?a)) => call_refines (CallPrepareSignal a)
  | |- host_refines (store (complete_signal_process ?a)) => call_refines (CallCompleteSignal a)
  | |- host_refines (store (prepare_wait_process ?a)) => call_refines (CallPrepareWait a)
  | |- host_refines (store (complete_process_wait ?a ?b)) => call_refines (CallCompleteWait a b)
  | |- host_refines (store (prepare_write_stdin ?a)) => call_refines (CallPrepareWriteStdin a)
  | |- host_refines (store (complete_write_stdin ?a)) => call_refines (CallCompleteWriteStdin a)
  | |- host_refines (store (prepare_close_stdin ?a)) => call_refines (CallPrepareCloseStdin a)
  | |- host_refines (store (complete_close_stdin ?a)) => call_refines (CallCompleteCloseStdin a)
  | |- host_refines (store (prepare_resize ?a)) => call_refines (CallPrepareResize a)
  | |- host_refines (store (complete_resize ?a)) => call_refines (CallCompleteResize a)
  | |- host_refines (store (prepare_file_mutation ?a)) => call_refines (CallPrepareFile a)
  | |- host_refines (store (complete_file_mutation ?a ?b)) => call_refines (CallCompleteFile a b)
  | |- host_refines (store (prepare_filesystem_mutation ?a)) => call_refines (CallPrepareFilesystem a)
  | |- host_refines (store (complete_filesystem_mutation ?a ?b)) =>
      call_refines (CallCompleteFilesystem a b)
  | |- host_refines (store (prepare_checkpoint ?a)) => call_refines (CallPrepareCheckpoint a)
  | |- host_refines (store (complete_checkpoint ?a ?b)) => call_refines (CallCompleteCheckpoint a b)
  | |- host_refines (store (lookup_restore ?a)) => call_refines (CallLookupRestore a)
  | |- host_refines (store (prepare_restore ?a ?b)) => call_refines (CallPrepareRestore a b)
  | |- host_refines (store (complete_restore ?a ?b)) => call_refines (CallCompleteRestore a b)
  | |- host_refines (store (lookup_attestation ?a)) => call_refines (CallLookupAttestation a)
  | |- host_refines (store (attestation_source ?a)) => call_refines (CallAttestationSource a)
  | |- host_refines (store (prepare_attestation ?a)) => call_refines (CallPrepareAttestation a)
  | |- host_refines (store (complete_attestation ?a ?b)) => call_refines (CallCompleteAttestation a b)
  | |- host_refines (store (observe_state ?a ?b ?c)) => call_refines (CallObserve a b c false)
  | |- host_refines (store (observe_state_with_pause ?a ?b ?c ?d)) =>
      call_refines (CallObserve a b c d)
  | |- host_refines (store (observe_recreated_created_process ?a ?b)) =>
      call_refines (CallObserveRecreatedCreated a b)
  | |- host_refines (store (observe_recreated_running_process ?a ?b)) =>
      call_refines (CallObserveRecreatedRunning a b)
  | |- host_refines (store (observe_recreated_paused_running_process ?a ?b)) =>
      call_refines (CallObserveRecreatedPaused a b)
  | |- host_refines (store (observe_recreated_exec_processes ?a ?b)) =>
      call_refines (CallObserveExecProcesses a b)
  | |- host_refines (store (events ?a)) => call_refines (CallEvents a)
  | |- host_refines (store _) => by apply host_refines_read
  end.

Ltac host_step :=
  lazymatch goal with
  | |- host_refines (answer _ _) => apply host_refines_bind; [|intros]
  | |- host_refines (bind _ _) => apply host_refines_bind; [|intros]
  | |- host_refines (or_fail _ _ _ _) => apply host_refines_or_fail; intros
  | |- host_refines (or_settle _ _ _ _ _) => apply host_refines_or_settle; intros
  | |- host_refines (acknowledge_result _ _ _) => apply host_refines_acknowledge_result
  | |- host_refines (fail_driver_operation _ _ _) => apply host_refines_fail_driver
  | |- host_refines (acknowledge_operation _ _) => apply host_refines_acknowledge
  | |- host_refines (driver_call _ _) => apply host_refines_driver_call
  | |- host_refines (driver_boundary _ _) => apply host_refines_boundary
  | |- host_refines (attempt _) => apply host_refines_attempt
  | |- host_refines (relabel _ _) => apply host_refines_relabel
  | |- host_refines (outside _) => apply host_refines_outside
  | |- host_refines (lift _) => apply host_refines_lift
  | |- host_refines (ret _) => apply host_refines_ret
  | |- host_refines (fail _) => apply host_refines_fail
  | |- host_refines (for_each _ _) => apply host_refines_for_each; intros
  | |- host_refines (store _) => store_refines
  | |- host_refines (match ?x with _ => _ end) => destruct x eqn:?
  end.
Ltac host_steps := repeat (host_step; simpl).

Section host_calls.
Context `{SE : StoreEnv} `{HE : HostEnv}.
Abbreviation Driver := (RuntimeDriver host_outside host_linux).
Implicit Types (hw : HostWorld) (g : DriverRegistry) (s : HostRuntimeService).

Lemma ensure_target_refines g o target op name :
  host_refines (ensure_target_driver_operation g o target op name).
Proof. unfold ensure_target_driver_operation. host_steps. Qed.
Lemma recorded_driver_refines g target name : host_refines (recorded_driver g target name).
Proof. unfold recorded_driver. host_steps. Qed.
Lemma host_complete_process_wait_refines target status :
  host_refines (host_complete_process_wait target status).
Proof. unfold host_complete_process_wait. host_steps. Qed.
Lemma current_artifact_refines name : host_refines (current_artifact name).
Proof. unfold current_artifact. host_steps. Qed.

Lemma create_internal_refines s r a :
  valid_id (oc_operation_id (create_context r)) → valid_id (create_id r) →
  host_refines (create_internal s r a).
Proof. intros. unfold create_internal. host_steps. Qed.

Lemma host_process_io_refines g o t op name b (prepare : M ProcessIoPreparation) call complete :
  host_refines (store prepare) → host_refines (store complete) →
  host_refines (host_process_io g o t op name b prepare call complete).
Proof.
  intros Hp Hc. unfold host_process_io. host_step; [apply ensure_target_refines|].
  host_step; [exact Hp|]. host_steps; try exact Hc; apply recorded_driver_refines.
Qed.

Lemma host_freezer_refines s r op name b action call :
  valid_id (oc_operation_id (cop_context r)) →
  host_refines (host_freezer s r op name b action call).
Proof. intros. unfold host_freezer. host_steps. all: apply ensure_target_refines. Qed.

Lemma finish_checkpoint_refines g r source artifact result :
  host_refines (finish_checkpoint g r source artifact result).
Proof. unfold finish_checkpoint. host_steps. Qed.
Lemma dispatch_restore_refines g d r tee reference artifact restoring :
  valid_id (oc_operation_id (rr_context r)) →
  host_refines (dispatch_restore g d r tee reference artifact restoring).
Proof. intros. unfold dispatch_restore. host_steps. Qed.
Lemma dispatch_attestation_refines g d r artifact source fresh :
  valid_id (oc_operation_id (atr_context r)) →
  host_refines (dispatch_attestation g d r artifact source fresh).
Proof. intros. unfold dispatch_attestation. host_steps. Qed.

Hint Resolve ensure_target_refines recorded_driver_refines host_complete_process_wait_refines
  current_artifact_refines create_internal_refines host_freezer_refines finish_checkpoint_refines
  dispatch_restore_refines dispatch_attestation_refines : host_db.

(** Every call of the service refines the machine. *)
Lemma run_host_call_refines s c : host_well_typed c → host_refines (run_host_call s c).
Proof.
  destruct c; simpl; intros Hv; try match type of Hv with _ ∧ _ => destruct Hv end;
    (host_step; [|by apply host_refines_ret]).
  - unfold host_create. host_steps; auto with host_db.
  - unfold create_with_native_control_descriptors. host_steps; auto with host_db.
  - unfold host_state. host_steps; auto with host_db.
  - unfold host_start. host_steps.
  - unfold host_kill. host_steps.
  - unfold host_delete. host_steps.
  - unfold host_exec. host_steps; auto with host_db.
  - unfold host_wait. host_steps; auto with host_db.
  - unfold host_list. host_steps.
  - unfold host_pause. auto with host_db.
  - unfold host_resume. auto with host_db.
  - unfold host_update. host_steps; auto with host_db.
  - unfold host_processes. host_steps.
  - unfold host_stats. host_steps.
  - unfold host_events. host_steps.
  - unfold host_read_output. host_steps; auto with host_db.
  - unfold host_write_stdin. host_steps. apply host_process_io_refines; store_refines.
  - unfold host_close_stdin. host_steps. apply host_process_io_refines; store_refines.
  - unfold host_resize. host_steps. apply host_process_io_refines; store_refines.
  - unfold host_signal_process. host_steps; auto with host_db.
  - unfold host_wait_process. host_steps; auto with host_db.
  - unfold host_file, host_upload, host_download. host_steps; auto with host_db.
  - unfold host_filesystem, host_filesystem_mutation, host_filesystem_query.
    host_steps; auto with host_db.
  - unfold host_checkpoint. host_steps; auto with host_db.
  - unfold host_restore. host_steps; auto with host_db.
  - unfold host_attest. host_steps; auto with host_db.
Qed.

(** ** Opening a service *)

Lemma probe_drivers_refines drivers : host_refines (probe_drivers drivers).
Proof. induction drivers; simpl; host_steps; auto. Qed.
Lemma recover_record_refines g record : host_refines (recover_record g record).
Proof. unfold recover_record, adopt_observation. host_steps. Qed.

Lemma open_with_drivers_refines drivers : host_refines (open_with_drivers drivers).
Proof.
  unfold open_with_drivers. host_steps; auto using probe_drivers_refines, recover_record_refines.
Qed.

(** ** Histories *)

(** What happens to a host: it is opened, over the same state root, with some
    drivers, or the service that was opened last is called.  A service that
    could not be opened answers every call with an error. *)
Inductive HostEvent : Type :=
  | EvOpen (drivers : list Driver)
  | EvOpenNative (driver : Driver) (container_id descriptors : string)
  | EvCall (c : HostCall).

Definition opened (r : Result HostRuntimeService) : HostRuntimeService :=
  match r with Ok s => s | Err _ => service_new end.
Definition host_event (st : HostRuntimeService * HostWorld) (e : HostEvent)
    : HostRuntimeService * HostWorld :=
  let '(s, hw) := st in
  match e with
  | EvOpen drivers => let '(r, hw') := open_with_drivers drivers hw in (opened r, hw')
  | EvOpenNative driver id descriptors =>
      let '(r, hw') := open_with_native_control_descriptors driver id descriptors hw in
      (opened r, hw')
  | EvCall c => (s, (run_host_call s c hw).2)
  end.
Definition run_host (es : list HostEvent) (st : HostRuntimeService * HostWorld)
    : HostRuntimeService * HostWorld := foldl host_event st es.

Definition event_well_typed (e : HostEvent) : Prop :=
  match e with EvCall c => host_well_typed c | _ => True end.

Lemma host_event_refines st e :
  event_well_typed e → store_inv (host_disk st.2) →
  rtc astep (host_disk st.2) (host_disk (host_event st e).2).
Proof.
  destruct st as [s hw], e as [ds|d id desc|c]; intros Hv Hinv; simpl in *.
  - pose proof (open_with_drivers_refines ds hw Hinv) as H. by destruct (open_with_drivers ds hw).
  - assert (host_refines (open_with_native_control_descriptors d id desc)) as H
      by (unfold open_with_native_control_descriptors; host_steps; apply open_with_drivers_refines).
    specialize (H hw Hinv). by destruct (open_with_native_control_descriptors d id desc hw).
  - by apply run_host_call_refines.
Qed.

Lemma run_host_refines es st :
  Forall event_well_typed es → store_inv (host_disk st.2) →
  rtc astep (host_disk st.2) (host_disk (run_host es st).2) ∧
  store_inv (host_disk (run_host es st).2).
Proof.
  revert st. induction es as [|e es IH]; intros st Hes Hinv; [done|]. inversion Hes; subst.
  pose proof (host_event_refines st e ltac:(done) Hinv) as Hs.
  destruct (IH (host_event st e)) as [? ?]; [done|by eapply store_inv_steps|].
  split; [|done]. by etrans.
Qed.
End host_calls.
