(* ===== verification/HostGuarantees.v ===== *)
(** * Settled operations

    An operation is settled once its outcome is journaled.  Preparing a settled
    operation never hands it out again, a replayed answer is the journaled one,
    and what a completion or a recorded failure returned is journaled. *)

From stdpp Require Import base gmap strings list relations.
From S2P Require Import Prelude Collections Sdk Identifiers OutputBuffer Lifecycle Fault.
From S2P Require Import OciState Contracts Capabilities HostArtifact StoreModel Disk.
From S2P Require Import RestoreContract Journal Events Claims Create Start Kill Freezer Update.
From S2P Require Import ProcessStore ProcessIoStore FileStore CheckpointStore RestoreStore.
From S2P Require Import AttestationStore Delete Observe Driver DriverRegistry StartupAudit Machine.
From S2P Require Import Refine RefineOps RefineProcess RefineContracts Store Replay AuditCorrect.
From S2P Require Import Fencing HostService HostContracts HostRefine.

Local Open Scope string_scope.
Local Open Scope Z_scope.

(** What the preparations replay. *)
Definition record_replay (p : RecordOperationPreparation) : option StoreReply :=
  match p with RecordReplayed r => Some (ReplyRecord r) | _ => None end.
Definition delete_replay (p : DeletePreparation) : option StoreReply :=
  match p with DeleteReplayed => Some (ReplyUnit ()) | _ => None end.
Definition process_replay (p : ProcessOperationPreparation) : option StoreReply :=
  match p with ProcessReplayed r => Some (ReplyProcess r) | _ => None end.
Definition signal_replay (p : SignalProcessPreparation) : option StoreReply :=
  match p with SignalReplayed => Some (ReplyUnit ()) | _ => None end.
Definition io_replay (p : ProcessIoPreparation) : option StoreReply :=
  match p with IoReplayed => Some (ReplyUnit ()) | _ => None end.
Definition file_replay (p : FilesystemMutationPreparation FileResponse) : option StoreReply :=
  match p with MutationReplayed r => Some (ReplyFile r) | _ => None end.
Definition filesystem_replay (p : FilesystemMutationPreparation FilesystemResponse)
    : option StoreReply :=
  match p with MutationReplayed r => Some (ReplyFilesystem r) | _ => None end.
Definition checkpoint_replay (p : CheckpointOperationPreparation) : option StoreReply :=
  match p with CheckpointReplayed r => Some (ReplyCheckpoint r) | _ => None end.
Definition restore_replay (p : RestoreOperationPreparation) : option StoreReply :=
  match p with RestoreReplayed r => Some (ReplyRestore r) | _ => None end.
Definition restore_found (l : RestoreOperationLookup) : option StoreReply :=
  match l with RestoreFound r => Some (ReplyRestore r) | _ => None end.
Definition attestation_replay (p : AttestationOperationPreparation) : option StoreReply :=
  match p with AttestationReplayed r => Some (ReplyAttestation r) | _ => None end.
Definition attestation_found (l : AttestationOperationLookup) : option StoreReply :=
  match l with AttestationFound r => Some (ReplyAttestation r) | _ => None end.

(** ** Settled and journaled operations *)

Definition settled (o : string) (d : Disk) : Prop :=
  ∃ op, d_operations d !! o = Some op ∧ so_outcome op ≠ Prepared.
Definition journaled (o : string) (r : StoreReply) (d : Disk) : Prop :=
  ∃ op, d_operations d !! o = Some op ∧ outcome_reply (so_outcome op) = Some r.

Lemma journaled_settled o r d : journaled o r d → settled o d.
Proof. intros (op & ? & H). exists op. split; [done|]. intros Hp. by rewrite Hp in H. Qed.

Section settled.
Context `{SE : StoreEnv}.
Implicit Types w : World.

Lemma settled_steps o d d' : rtc astep d d' → settled o d → settled o d'.
Proof.
  intros Hs (op & Ho & Hne).
  destruct (dl_operation _ _ (disk_le_steps _ _ Hs) o op Ho) as (op' & Ho' & [? ? ? ? ? ? ? Hout]).
  exists op'. split; [done|]. destruct Hout as [H|[->|H]]; [done|done|].
  intros Hp. rewrite Hp in H. by destruct (so_outcome op).
Qed.

(** A preparation of operation [o] does not hand a settled operation out, and
    replays what is journaled. *)
Definition replays_settled {P} (replay : P → option StoreReply) (o : string) (m : M P) : Prop :=
  ∀ w p w', m w = (Ok p, w') →
    (settled o (w_disk w) → is_Some (replay p)) ∧
    (∀ r, replay p = Some r → journaled o r (w_disk w')).

Lemma settled_loaded o d op :
  load_operation_if_present o d = Ok (Some op) → settled o d → so_outcome op = Prepared → False.
Proof. intros H%load_operation_if_present_ok (op' & ? & Hne) Hp. naive_solver. Qed.
Lemma settled_absent o d : load_operation_if_present o d = Ok None → settled o d → False.
Proof.
  unfold load_operation_if_present. destruct (d_operations d !! o) as [op|] eqn:E.
  - destruct (load_operation o d); [done|done].
  - intros _ (op & ? & _). naive_solver.
Qed.

(** A committed outcome is journaled. *)
Lemma write_journaled m o op outcome r w w' :
  write_operation m o (set_outcome outcome op) w = (Ok (), w') →
  outcome_reply outcome = Some r → journaled o r (w_disk w').
Proof.
  intros Hw%write_json_ok Hr. destruct Hw as [_ ->]. eexists.
  split; [apply lookup_insert_eq|done].
Qed.
Lemma loaded_journaled o d op r :
  load_operation_if_present o d = Ok (Some op) → outcome_reply (so_outcome op) = Some r →
  journaled o r d.
Proof. intros H%load_operation_if_present_ok. exists op. naive_solver. Qed.

Lemma catch_read_inv {A B} (f : Disk → Result A) (k : Result A → M B) w b w' :
  catch (read f) k w = (Ok b, w') → k (f (w_disk w)) w = (Ok b, w').
Proof. done. Qed.

Ltac prep_inv :=
  inv_run;
  repeat (match goal with H : catch (read _) _ _ = (Ok _, _) |- _ =>
    apply catch_read_inv in H; cbv beta in H end; inv_run).
Ltac prep_journaled :=
  repeat match goal with u : () |- _ => destruct u end;
  match goal with
  | Hw : write_operation _ _ (set_outcome _ _) _ = (Ok (), ?w') |- journaled _ _ (w_disk ?w') =>
      try match type of Hw with write_operation _ (so_operation_id ?op) _ _ = _ =>
        match goal with Hl : load_operation_if_present _ _ = Ok (Some op) |- _ =>
          pose proof (load_operation_if_present_ok _ _ _ Hl) as (_ & Hid & _);
          rewrite Hid in Hw end end;
      by eapply write_journaled; [exact Hw|]
  | Hl : load_operation_if_present _ ?d = Ok (Some ?op), Ho : so_outcome ?op = _
    |- journaled _ _ ?d => by eapply loaded_journaled; [exact Hl|rewrite Ho]
  end.
Ltac prep :=
  intros w p w' H; prep_inv;
  repeat match goal with H : ret _ _ = (Ok _, _) |- _ => unfold ret in H end; simplify_eq;
  (split;
   [ intros Hs; simpl;
     try (exfalso; eauto using settled_absent, settled_loaded; fail); by eexists
   | intros r [= <-]; try prep_journaled ]).

Lemma prepare_kill_settled request :
  replays_settled record_replay (oc_operation_id (kill_context request)) (Kill.prepare_kill request).
Proof. unfold Kill.prepare_kill. prep. Qed.
Lemma prepare_start_settled request :
  replays_settled record_replay (oc_operation_id (start_context request))
    (Start.prepare_start request).
Proof. unfold Start.prepare_start, Start.reconcile_succeeded_start. prep. Qed.
Lemma prepare_create_settled request driver inherited :
  replays_settled record_replay (oc_operation_id (create_context request))
    (prepare_create request driver inherited).
Proof. unfold prepare_create, reconcile_succeeded_create. prep. Qed.
Lemma prepare_freezer_settled request action :
  replays_settled record_replay (oc_operation_id (cop_context request))
    (prepare_freezer request action).
Proof. unfold prepare_freezer, reconcile_succeeded_freezer. prep. Qed.
Lemma prepare_update_settled request :
  replays_settled record_replay (oc_operation_id (update_context request)) (prepare_update request).
Proof. unfold prepare_update, reconcile_succeeded_update. prep. Qed.
Lemma prepare_delete_settled request :
  replays_settled delete_replay (oc_operation_id (delete_context request)) (prepare_delete request).
Proof. unfold prepare_delete, finish_moved_delete. prep. Qed.
Lemma prepare_exec_settled request :
  replays_settled process_replay (oc_operation_id (exec_context request)) (prepare_exec request).
Proof. unfold prepare_exec, reconcile_succeeded_exec. prep. Qed.
Lemma prepare_signal_process_settled request :
  replays_settled signal_replay (oc_operation_id (sig_context request))
    (prepare_signal_process request).
Proof. unfold prepare_signal_process. prep. Qed.
Lemma prepare_process_io_settled context requested digest profile :
  replays_settled io_replay (oc_operation_id context)
    (prepare_process_io_operation context requested digest profile).
Proof. unfold prepare_process_io_operation. prep. Qed.
Lemma prepare_write_stdin_settled request :
  replays_settled io_replay (oc_operation_id (ws_context request)) (prepare_write_stdin request).
Proof. intros w p w' H. unfold prepare_write_stdin in H. inv_run. by eapply prepare_process_io_settled. Qed.
Lemma prepare_close_stdin_settled request :
  replays_settled io_replay (oc_operation_id (cs_context request)) (prepare_close_stdin request).
Proof. intros w p w' H. unfold prepare_close_stdin in H. inv_run. by eapply prepare_process_io_settled. Qed.
Lemma prepare_resize_settled request :
  replays_settled io_replay (oc_operation_id (rz_context request)) (prepare_resize request).
Proof. intros w p w' H. unfold prepare_resize in H. inv_run. by eapply prepare_process_io_settled. Qed.
Lemma prepare_file_mutation_settled request c :
  file_context request = Some c →
  replays_settled file_replay (oc_operation_id c) (prepare_file_mutation request).
Proof.
  intros Hc. unfold prepare_file_mutation. rewrite Hc.
  unfold prepare_filesystem_mutation_operation. prep.
Qed.
Lemma prepare_filesystem_mutation_settled request c :
  fs_context request = Some c →
  replays_settled filesystem_replay (oc_operation_id c) (prepare_filesystem_mutation request).
Proof.
  intros Hc. unfold prepare_filesystem_mutation. rewrite Hc.
  unfold prepare_filesystem_mutation_operation. prep.
Qed.
Lemma prepare_checkpoint_settled request :
  replays_settled checkpoint_replay (oc_operation_id (ckr_context request))
    (prepare_checkpoint request).
Proof. unfold prepare_checkpoint. prep. Qed.
Lemma prepare_restore_settled request driver :
  replays_settled restore_replay (oc_operation_id (rr_context request))
    (prepare_restore request driver).
Proof. unfold prepare_restore, reconcile_succeeded_restore. prep. Qed.
Lemma lookup_restore_settled request :
  replays_settled restore_found (oc_operation_id (rr_context request)) (lookup_restore request).
Proof. unfold lookup_restore, reconcile_succeeded_restore. prep. Qed.
Lemma prepare_attestation_settled request :
  replays_settled attestation_replay (oc_operation_id (atr_context request))
    (prepare_attestation request).
Proof. unfold prepare_attestation. prep. Qed.
Lemma lookup_attestation_settled request :
  replays_settled attestation_found (oc_operation_id (atr_context request))
    (lookup_attestation request).
Proof. unfold lookup_attestation. prep. Qed.
End settled.

(** * What the host service guarantees of mutations

    Against arbitrary drivers, injectors and outside worlds: an answer is
    durable before it is given, and an operation whose outcome is durable is
    never dispatched again. *)

(** The operation that a call mutates the store under. *)
Definition mutation_id (c : HostCall) : option string :=
  match c with
  | HostCreate r | HostCreateNative r _ => Some (oc_operation_id (create_context r))
  | HostStart r => Some (oc_operation_id (start_context r))
  | HostKill r => Some (oc_operation_id (kill_context r))
  | HostDelete r => Some (oc_operation_id (delete_context r))
  | HostExec r => Some (oc_operation_id (exec_context r))
  | HostPause r | HostResume r => Some (oc_operation_id (cop_context r))
  | HostUpdate r => Some (oc_operation_id (update_context r))
  | HostWriteStdin r => Some (oc_operation_id (ws_context r))
  | HostCloseStdin r => Some (oc_operation_id (cs_context r))
  | HostResize r => Some (oc_operation_id (rz_context r))
  | HostSignalProcess r => Some (oc_operation_id (sig_context r))
  | HostFile r =>
      if bool_decide (file_op r = Upload) then oc_operation_id <$> file_context r else None
  | HostFilesystem r =>
      if fs_is_mutating (fs_op r) then oc_operation_id <$> fs_context r else None
  | HostCheckpoint r => Some (oc_operation_id (ckr_context r))
  | HostRestore r => Some (oc_operation_id (rr_context r))
  | HostAttest r => Some (oc_operation_id (atr_context r))
  | _ => None
  end.

Section host_guarantees.
Context `{SE : StoreEnv} `{HE : HostEnv}.
Implicit Types (hw : HostWorld) (g : DriverRegistry) (s : HostRuntimeService).

Lemma store_inv_run {A} (m : M A) hw r hw' :
  store m hw = (r, hw') → ∃ w', m (hw_store hw) = (r, w') ∧ hw' = mkHostWorld w' (hw_outside hw).
Proof. unfold store. destruct (m (hw_store hw)) as [x w']. intros [= <- <-]. eauto. Qed.

(** ** Answers *)

Definition answers {A} (o : string) (f : A → StoreReply) (m : H A) hw : Prop :=
  ∀ a hw', m hw = (Ok a, hw') → journaled o (f a) (host_disk hw').

Lemma answers_bind {A B} o (f : B → StoreReply) (m : H A) (k : A → H B) hw :
  (∀ a hw', m hw = (Ok a, hw') → answers o f (k a) hw') → answers o f (bind m k) hw.
Proof.
  intros Hk b hw' H. unfold bind in H. destruct (m hw) as [[a|e] hw1] eqn:E; [|done].
  by eapply Hk.
Qed.
Lemma answers_fail {A} o (f : A → StoreReply) e hw : answers o f (fail e) hw.
Proof. done. Qed.
Lemma answers_fail_driver {A} o (f : A → StoreReply) g o' e hw :
  answers o f (fail_driver_operation g o' e) hw.
Proof.
  unfold fail_driver_operation. destruct (retryable e); [done|].
  do 2 (apply answers_bind; intros). done.
Qed.
Lemma answers_or_fail {A B} o (f : B → StoreReply) g o' (r : Result A) (k : A → H B) hw :
  (∀ a, r = Ok a → answers o f (k a) hw) → answers o f (or_fail g o' r k) hw.
Proof. destruct r; simpl; [auto|]. intros _. apply answers_fail_driver. Qed.
Lemma answers_or_settle {A B} o (f : B → StoreReply) g o' b (r : Result A) (k : A → H B) hw :
  (∀ a, r = Ok a → answers o f (k a) hw) → answers o f (or_settle g o' b r k) hw.
Proof.
  destruct r, b; simpl; auto; intros _; [apply answers_fail_driver|apply answers_fail].
Qed.
Lemma answers_acknowledged {A} o (f : A → StoreReply) g (m : H A) hw :
  answers o f m hw → answers o f (acknowledge_result g o m) hw.
Proof.
  intros Hm. apply answers_bind. intros a hw1 H1%Hm. apply answers_bind. intros [] hw2 H2.
  unfold acknowledge_operation, outside in H2.
  destruct (registry_acknowledge g o (hw_outside hw1)). injection H2 as -> <-.
  by intros b hw3 [= <- <-].
Qed.
Lemma answers_store {A} o (f : A → StoreReply) (m : M A) hw :
  (∀ w a w', m w = (Ok a, w') → journaled o (f a) (w_disk w')) → answers o f (store m) hw.
Proof. intros Hm a hw' (w' & ? & ->)%store_inv_run. by eapply Hm. Qed.

(** A replayed answer, and an answer that a completion returned. *)
Lemma answers_replayed {A P} o (f : A → StoreReply) (replay : P → option StoreReply) (m : M P)
    a p hw hw' :
  replays_settled replay o m → store m hw = (Ok p, hw') → replay p = Some (f a) →
  answers o f (ret a) hw'.
Proof.
  intros Hr (w' & Hm & ->)%store_inv_run Hp b hw2 [= <- <-]. by eapply (Hr _ _ _ Hm).
Qed.
Lemma replays_journaled {A} (m : M A) (f : A → StoredOperationStatus) (g : A → StoreReply) o w r w' :
  replays m f o w r w' → (∀ a, outcome_reply (f a) = Some (g a)) → journaled o (g r) (w_disk w').
Proof.
  intros [(op & (? & _)%load_operation_ok & Ho) _] Hg. exists op. by rewrite Ho, Hg.
Qed.

Lemma journaled_unit o u d : journaled o (ReplyUnit ()) d → journaled o (ReplyUnit u) d.
Proof. by destruct u. Qed.
End host_guarantees.

Ltac completed lem :=
  apply answers_store; intros ? ? ? ?; eapply replays_journaled; [by eapply lem|by try intros []].
Ltac answer_step :=
  lazymatch goal with
  | |- answers _ _ (bind _ _) _ => apply answers_bind; intros ? ? ?
  | |- answers _ _ (or_fail _ _ _ _) _ => apply answers_or_fail; intros ? ?
  | |- answers _ _ (or_settle _ _ _ _ _) _ => apply answers_or_settle; intros ? ?
  | |- answers _ _ (acknowledge_result _ _ _) _ => apply answers_acknowledged
  | |- answers _ _ (fail_driver_operation _ _ _) _ => apply answers_fail_driver
  | |- answers _ _ (fail _) _ => apply answers_fail
  | |- answers _ _ (match ?x with _ => _ end) _ => destruct x eqn:?
  end.
Ltac answer_steps := repeat (answer_step; simpl).
Ltac replayed lem := eapply answers_replayed; [apply lem|eassumption|reflexivity].

Section host_answers.
Context `{SE : StoreEnv} `{HE : HostEnv}.
Implicit Types (hw : HostWorld) (g : DriverRegistry) (s : HostRuntimeService).

Lemma create_internal_answers s r a hw :
  answers (oc_operation_id (create_context r)) ReplyRecord (create_internal s r a) hw.
Proof.
  unfold create_internal. answer_steps.
  all: first [replayed prepare_create_settled | completed complete_create_replays].
Qed.
Lemma host_start_answers s r hw :
  answers (oc_operation_id (start_context r)) ReplyRecord (host_start s r) hw.
Proof.
  unfold host_start. answer_steps.
  all: first [replayed prepare_start_settled | completed complete_start_replays].
Qed.
Lemma host_kill_answers s r hw :
  answers (oc_operation_id (kill_context r)) ReplyRecord (host_kill s r) hw.
Proof.
  unfold host_kill. answer_steps.
  all: first [replayed prepare_kill_settled | completed complete_kill_replays].
Qed.
Lemma host_delete_answers s r hw :
  answers (oc_operation_id (delete_context r)) ReplyUnit (host_delete s r) hw.
Proof.
  unfold host_delete. answer_steps.
  all: first [replayed prepare_delete_settled | completed complete_delete_replays].
Qed.
Lemma host_exec_answers s r hw :
  answers (oc_operation_id (exec_context r)) ReplyProcess (host_exec s r) hw.
Proof.
  unfold host_exec. answer_steps.
  all: first [replayed prepare_exec_settled | completed complete_exec_replays].
Qed.
Lemma host_freezer_answers s r op name b action call hw :
  answers (oc_operation_id (cop_context r)) ReplyRecord
    (host_freezer s r op name b action call) hw.
Proof.
  unfold host_freezer. answer_steps.
  all: first [replayed prepare_freezer_settled | completed complete_freezer_replays].
Qed.
Lemma host_update_answers s r hw :
  answers (oc_operation_id (update_context r)) ReplyRecord (host_update s r) hw.
Proof.
  unfold host_update. answer_steps.
  all: first [replayed prepare_update_settled | completed complete_update_replays].
Qed.
Lemma host_signal_process_answers s r hw :
  answers (oc_operation_id (sig_context r)) ReplyUnit (host_signal_process s r) hw.
Proof.
  unfold host_signal_process. answer_steps.
  all: first [replayed prepare_signal_process_settled | completed complete_signal_process_replays].
Qed.
Lemma host_process_io_answers g o t op name b prepare call profile hw :
  io_profile profile → replays_settled io_replay o prepare →
  answers o ReplyUnit
    (host_process_io g o t op name b prepare call (complete_process_io_operation o profile)) hw.
Proof.
  intros Hi Hp. unfold host_process_io. answer_steps.
  all: first [replayed Hp | completed complete_process_io_replays].
Qed.
Lemma host_upload_answers g r c hw :
  file_context r = Some c → answers (oc_operation_id c) ReplyFile (host_upload g r) hw.
Proof.
  intros Hc. unfold host_upload. rewrite Hc. simpl.
  apply answers_bind. intros o hw1 [= <- <-]. answer_steps.
  all: first [replayed (prepare_file_mutation_settled r c Hc)
             |completed complete_file_mutation_replays].
Qed.
Lemma host_filesystem_mutation_answers g r c hw :
  fs_context r = Some c →
  answers (oc_operation_id c) ReplyFilesystem (host_filesystem_mutation g r) hw.
Proof.
  intros Hc. unfold host_filesystem_mutation. rewrite Hc. simpl.
  apply answers_bind. intros o hw1 [= <- <-]. answer_steps.
  all: first [replayed (prepare_filesystem_mutation_settled r c Hc)
             |completed complete_filesystem_mutation_replays].
Qed.
Lemma host_checkpoint_answers s r hw :
  answers (oc_operation_id (ckr_context r)) ReplyCheckpoint (host_checkpoint s r) hw.
Proof.
  unfold host_checkpoint, finish_checkpoint. answer_steps.
  all: first [replayed prepare_checkpoint_settled | completed complete_checkpoint_replays].
Qed.
Lemma host_restore_answers s r hw :
  answers (oc_operation_id (rr_context r)) ReplyRestore (host_restore s r) hw.
Proof.
  unfold host_restore, dispatch_restore. answer_steps.
  all: first [replayed lookup_restore_settled | replayed prepare_restore_settled
             |completed complete_restore_replays].
Qed.
Lemma host_attest_answers s r hw :
  answers (oc_operation_id (atr_context r)) ReplyAttestation (host_attest s r) hw.
Proof.
  unfold host_attest, dispatch_attestation. answer_steps.
  all: first [replayed lookup_attestation_settled | replayed prepare_attestation_settled
             |completed complete_attestation_replays].
Qed.

Lemma answer_journaled {A} o (f : A → StoreReply) (m : H A) hw r hw' :
  answers o f m hw → answer (λ a, FromStore (f a)) m hw = (Ok r, hw') →
  ∃ x, r = FromStore x ∧ journaled o x (host_disk hw').
Proof.
  intros Hm H. unfold answer, bind in H. destruct (m hw) as [[a|e] hw1] eqn:E; [|done].
  injection H as <- <-. eauto.
Qed.
Lemma answers_after_lift {A B} o (f : B → StoreReply) (x : Result A) (k : A → H B) hw :
  (∀ a, x = Ok a → answers o f (k a) hw) → answers o f (bind (lift x) k) hw.
Proof. intros Hk. apply answers_bind. intros a hw' [= -> ->]. by apply Hk. Qed.

(** A call that returned a value left it journaled. *)
Lemma host_answers_journaled s c o hw r hw' :
  mutation_id c = Some o → run_host_call s c hw = (Ok r, hw') →
  ∃ x, r = FromStore x ∧ journaled o x (host_disk hw').
Proof.
  intros Hc H. destruct c; simplify_eq/=; revert H; try apply answer_journaled.
  - unfold host_create. answer_steps; apply create_internal_answers.
  - apply answers_after_lift. intros _ _. apply create_internal_answers.
  - apply host_start_answers.
  - apply host_kill_answers.
  - apply host_delete_answers.
  - apply host_exec_answers.
  - apply host_freezer_answers.
  - apply host_freezer_answers.
  - apply host_update_answers.
  - do 2 (apply answers_after_lift; intros ? ?).
    apply host_process_io_answers; [done|apply prepare_write_stdin_settled].
  - apply answers_after_lift; intros ? ?.
    apply host_process_io_answers; [done|apply prepare_close_stdin_settled].
  - do 2 (apply answers_after_lift; intros ? ?).
    apply host_process_io_answers; [done|apply prepare_resize_settled].
  - apply host_signal_process_answers.
  - unfold host_file. case_bool_decide; [|done]. destruct (file_context request) eqn:Hf; simplify_eq/=.
    do 2 (apply answers_after_lift; intros ? ?). by apply host_upload_answers.
  - unfold host_filesystem. destruct (fs_is_mutating _); [|done].
    destruct (fs_context request) eqn:Hf; simplify_eq/=.
    do 2 (apply answers_after_lift; intros ? ?). by apply host_filesystem_mutation_answers.
  - apply host_checkpoint_answers.
  - apply host_restore_answers.
  - apply host_attest_answers.
Qed.

(** The same answer, up to the process identity that a recovery rebinds. *)
Definition same_reply (x y : StoreReply) : Prop :=
  match x, y with
  | ReplyRecord r, ReplyRecord r' => ∃ st, r' = with_state st r
  | ReplyProcess r, ReplyProcess r' => pr_target r' = pr_target r ∧ pr_terminal r' = pr_terminal r
  | ReplyRestore r, ReplyRestore r' =>
      rresp_reference r' = rresp_reference r ∧
      ∃ st, rresp_restored r' = with_state st (rresp_restored r)
  | _, _ => y = x
  end.

Lemma same_reply_refl x : same_reply x x.
Proof. destruct x; simpl; try done; [exists (cr_state r); by destruct r|split; [done|]].
  exists (cr_state (rresp_restored r)). by destruct r as [[] ?]. Qed.

Lemma outcome_le_reply a b x :
  outcome_le a b → outcome_reply a = Some x → ∃ y, outcome_reply b = Some y ∧ same_reply x y.
Proof.
  intros [->|[->|H]] Hx; [done|exists x; split; [done|apply same_reply_refl]|].
  destruct a, b; simpl in *; try done; injection Hx as <-; by eexists.
Qed.

Lemma journaled_steps o x d d' :
  rtc astep d d' → journaled o x d → ∃ y, journaled o y d' ∧ same_reply x y.
Proof.
  intros Hs (op & Ho & Hx).
  destruct (dl_operation _ _ (disk_le_steps _ _ Hs) o op Ho) as (op' & Ho' & [? ? ? ? ? ? ? Hout]).
  destruct (outcome_le_reply _ _ _ Hout Hx) as (y & Hy & Hxy). exists y. split; [by exists op'|done].
Qed.


(** C1: every history of the host refines the store's machine and leaves a root
    that opens again.  From an empty state root, however often the host is
    opened, with whatever drivers, whatever they answer and wherever the
    injector stops it, and whatever calls are made, the root is reached by
    steps of the machine, keeps its invariant, and the startup audits of
    operations, generations, creation ownership and events accept it. *)
Theorem host_histories_refine `{!HexDigest} es s hw :
  Forall event_well_typed es → host_disk hw = empty_disk →
  let d := host_disk (run_host es (s, hw)).2 in
  rtc astep empty_disk d ∧ store_inv d ∧
  ∃ generations,
    audit_operation_entries d = Ok (d_operations d) ∧
    audit_generation_entries d = Ok generations ∧
    audit_operation_generations (d_operations d) generations = Ok () ∧
    audit_event_entries d = Ok ().
Proof.
  intros Hes Hempty d. destruct (run_host_refines es (s, hw) Hes) as [Hs Hinv].
  { simpl. rewrite Hempty. apply store_inv_empty. }
  simpl in Hs. rewrite Hempty in Hs. fold d in Hs, Hinv. split_and!; [done|done|].
  destruct Hinv. exists (sg_last_generation <$> d_generations d).
  split_and!; eauto using audit_operation_entries_ok, audit_generation_entries_ok,
    audit_operation_generations_ok, audit_event_entries_ok.
Qed.
End host_answers.

(** ** Settled operations are not dispatched *)

Section host_undispatched.
Context `{SE : StoreEnv} `{HE : HostEnv}.
Implicit Types (hw : HostWorld) (g : DriverRegistry) (s : HostRuntimeService).

(** The outside world was left alone, but for the acknowledgement of [o]. *)
Definition only_acknowledged s (o : string) {A} (m : H A) hw : Prop :=
  hw_outside (m hw).2 = hw_outside hw ∨
  ∃ g, svc_lifecycle s = Some g ∧
    hw_outside (m hw).2 = (registry_acknowledge g o (hw_outside hw)).2.
Definition undispatched s (o : string) {A} (m : H A) hw : Prop :=
  settled o (host_disk hw) → only_acknowledged s o m hw.

Lemma lifecycle_ok s name g : lifecycle s name = Ok g → svc_lifecycle s = Some g.
Proof. unfold lifecycle. by destruct (svc_lifecycle s); intros [= ->]. Qed.

Lemma only_acknowledged_result {A} s o g (a : A) hw :
  svc_lifecycle s = Some g → only_acknowledged s o (acknowledge_result g o (ret a)) hw.
Proof.
  intros Hg. right. exists g. split; [done|].
  unfold acknowledge_result, bind, ret, acknowledge_operation, outside.
  by destruct (registry_acknowledge g o (hw_outside hw)) as [[[]|e] o'].
Qed.

(** Steps that change neither side of the world. *)
Lemma undispatched_still {A B} s o (m : H A) (k : A → H B) hw :
  (m hw).2 = hw → (∀ a, m hw = (Ok a, hw) → undispatched s o (k a) hw) →
  undispatched s o (bind m k) hw.
Proof.
  intros Hm Hk Hs. unfold only_acknowledged, bind.
  destruct (m hw) as [[a|e] hw'] eqn:E; simpl in *; subst; [by apply Hk|by left].
Qed.
Lemma undispatched_lift {A B} s o (x : Result A) (k : A → H B) hw :
  (∀ a, x = Ok a → undispatched s o (k a) hw) → undispatched s o (bind (lift x) k) hw.
Proof. intros Hk. apply undispatched_still; [done|]. intros a [= ->]. by apply Hk. Qed.
Lemma undispatched_fail {A} s o e hw : undispatched s o (fail (A := A) e) hw.
Proof. intros _. by left. Qed.

(** A preparation of a settled operation replays or fails. *)
Lemma undispatched_prepare {P B} s o (replay : P → option StoreReply) (m : M P) (k : P → H B) hw :
  replays_settled replay o m →
  (∀ p hw', is_Some (replay p) → only_acknowledged s o (k p) hw') →
  undispatched s o (bind (store m) k) hw.
Proof.
  intros Hr Hk Hs. unfold only_acknowledged, bind.
  destruct (store m hw) as [[p|e] hw'] eqn:E; apply store_inv_run in E as (w' & E & ->); [|by left].
  destruct (Hr _ _ _ E) as [Hp _]. exact (Hk p (mkHostWorld w' (hw_outside hw)) (Hp Hs)).
Qed.

Lemma store_read_still {A} (f : Disk → Result A) hw : (store (read f) hw).2 = hw.
Proof. by destruct hw. Qed.
Lemma relabel_still {A} name (m : H A) hw : (m hw).2 = hw → (relabel name m hw).2 = hw.
Proof. unfold relabel. by destruct (m hw). Qed.
Lemma ensure_target_still g o t op name hw :
  (ensure_target_driver_operation g o t op name hw).2 = hw.
Proof.
  unfold ensure_target_driver_operation, relabel, store, operation_exists, state, read, bind, lift,
    ret. destruct hw as [w out]. simpl.
  repeat match goal with
  | |- context [map_err _ ?r] => destruct r as [?|?]; simpl
  | |- context [if ?b then _ else _] => destruct b; simpl
  | |- context [match ?r with Ok _ => _ | Err _ => _ end] => destruct r; simpl
  end; done.
Qed.

Lemma operation_exists_settled o hw b hw' :
  settled o (host_disk hw) → store (operation_exists o) hw = (Ok b, hw') → b = true.
Proof.
  intros Hs (w' & E & _)%store_inv_run. unfold operation_exists, read in E.
  injection E as E _. apply rbind_ok in E as ([op|] & Hl & [= <-]); [done|].
  exfalso. by eapply settled_absent.
Qed.
End host_undispatched.

Ltac undispatch lem :=
  eapply undispatched_prepare; [apply lem|]; intros [] ? [? Hreplay]; try discriminate Hreplay;
  apply only_acknowledged_result; by eapply lifecycle_ok.
Ltac preflight :=
  repeat first
    [ apply undispatched_lift; intros ? ?
    | apply undispatched_still; [apply ensure_target_still|]; intros ? ? ].

Section host_replays.
Context `{SE : StoreEnv} `{HE : HostEnv}.
Implicit Types (hw : HostWorld) (g : DriverRegistry) (s : HostRuntimeService).

Lemma create_internal_undispatched s r a hw :
  undispatched s (oc_operation_id (create_context r)) (create_internal s r a) hw.
Proof. unfold create_internal. preflight. undispatch prepare_create_settled. Qed.

Lemma host_process_io_undispatched s g o t op name b prepare call complete hw :
  svc_lifecycle s = Some g → replays_settled io_replay o prepare →
  undispatched s o (host_process_io g o t op name b prepare call complete) hw.
Proof.
  intros Hg Hp. unfold host_process_io. preflight.
  eapply undispatched_prepare; [exact Hp|]. intros [] ? [? Hr]; try discriminate Hr.
  by apply only_acknowledged_result.
Qed.

Lemma host_checkpoint_undispatched s r hw :
  undispatched s (oc_operation_id (ckr_context r)) (host_checkpoint s r) hw.
Proof.
  intros Hs. revert Hs. unfold host_checkpoint. preflight. intros Hs. revert Hs.
  apply undispatched_still; [apply store_read_still|]. intros b Hb Hs.
  apply (operation_exists_settled _ _ _ _ Hs) in Hb as ->. revert Hs.
  apply undispatched_still; [done|]. intros preflight [= <-].
  apply undispatched_still; [done|]. intros ? ?. undispatch prepare_checkpoint_settled.
Qed.

Lemma answer_undispatched {A} s o (f : A → HostReply) (m : H A) hw :
  undispatched s o m hw → undispatched s o (answer f m) hw.
Proof.
  intros Hm Hs. specialize (Hm Hs). unfold only_acknowledged, answer, bind in *.
  by destruct (m hw) as [[a|e] hw'].
Qed.

(** C3: a settled operation is never dispatched again.  When the journal holds
    the outcome of an operation, a call that reuses its identifier, with the
    same request or another one, does not reach any driver, the host's files
    or the executable artifact: the only effect outside the store is that
    the drivers are told again that they may forget the operation. *)
Theorem settled_operation_undispatched s c o hw :
  mutation_id c = Some o → settled o (host_disk hw) →
  only_acknowledged s o (run_host_call s c) hw.
Proof.
  intros Hc. change (undispatched s o (run_host_call s c) hw).
  destruct c; simplify_eq/=; apply answer_undispatched.
  - unfold host_create. destruct (svc_native_control s) as [[id d]|];
      [case_bool_decide|]; auto using create_internal_undispatched, undispatched_fail.
  - apply undispatched_lift. intros _ _. apply create_internal_undispatched.
  - unfold host_start. preflight. undispatch prepare_start_settled.
  - unfold host_kill. preflight. undispatch prepare_kill_settled.
  - unfold host_delete. preflight. undispatch prepare_delete_settled.
  - unfold host_exec. preflight. undispatch prepare_exec_settled.
  - unfold host_pause, host_freezer. preflight. undispatch prepare_freezer_settled.
  - unfold host_resume, host_freezer. preflight. undispatch prepare_freezer_settled.
  - unfold host_update. preflight. undispatch prepare_update_settled.
  - unfold host_write_stdin. do 2 (apply undispatched_lift; intros ? ?).
    apply host_process_io_undispatched; [by eapply lifecycle_ok|apply prepare_write_stdin_settled].
  - unfold host_close_stdin. apply undispatched_lift; intros ? ?.
    apply host_process_io_undispatched; [by eapply lifecycle_ok|apply prepare_close_stdin_settled].
  - unfold host_resize. do 2 (apply undispatched_lift; intros ? ?).
    apply host_process_io_undispatched; [by eapply lifecycle_ok|apply prepare_resize_settled].
  - unfold host_signal_process. preflight. undispatch prepare_signal_process_settled.
  - unfold host_file. case_bool_decide; [|done].
    destruct (file_context request) as [x|] eqn:Hf; simplify_eq/=.
    unfold host_upload. rewrite Hf. do 2 (apply undispatched_lift; intros ? ?).
    apply undispatched_lift; intros ? [= <-]. preflight.
    undispatch (prepare_file_mutation_settled request x Hf).
  - unfold host_filesystem. destruct (fs_is_mutating _); [|done].
    destruct (fs_context request) as [x|] eqn:Hf; simplify_eq/=.
    unfold host_filesystem_mutation. rewrite Hf. do 2 (apply undispatched_lift; intros ? ?).
    apply undispatched_lift; intros ? [= <-]. preflight.
    undispatch (prepare_filesystem_mutation_settled request x Hf).
  - apply host_checkpoint_undispatched.
  - unfold host_restore. preflight. undispatch lookup_restore_settled.
  - unfold host_attest. preflight. undispatch lookup_attestation_settled.
Qed.
End host_replays.
