(* ===== verification/HostForget.v ===== *)
(** * Drivers forget an operation only after its outcome is durable

    A driver keeps what it knows of an operation until the host acknowledges
    it.  [forgotten] says, of the outside world, which operations the drivers
    have forgotten; a driver may forget one only when it is told to.  Then in
    every history of the host each forgotten operation is settled in the
    journal, so a retry after a crash always finds the answer on one side. *)

From stdpp Require Import base gmap strings list relations.
From S2P Require Import Prelude Collections Sdk Identifiers OutputBuffer Lifecycle Fault.
From S2P Require Import OciState Contracts Capabilities HostArtifact StoreModel Disk.
From S2P Require Import RestoreContract Journal Events Claims Create Start Kill Freezer Update.
From S2P Require Import ProcessStore ProcessIoStore FileStore CheckpointStore RestoreStore.
From S2P Require Import AttestationStore Delete Observe Driver DriverRegistry.
From S2P Require Import StartupAudit Machine Refine RefineOps RefineProcess RefineContracts Store.
From S2P Require Import Replay Fencing HostService HostContracts HostRefine HostGuarantees.

Local Open Scope string_scope.
Local Open Scope Z_scope.

Section memory.
Context `{SE : StoreEnv} `{HE : HostEnv}.
Abbreviation Driver := (RuntimeDriver host_outside host_linux).
Variable forgotten : string → host_outside → Prop.
Implicit Types (hw : HostWorld) (g : DriverRegistry) (s : HostRuntimeService).

(** Calls that make no driver forget anything. *)
Definition keeps_memory {E A} (m : prog host_outside E A) : Prop :=
  ∀ o x, forgotten x (m o).2 → forgotten x o.

(** A driver that forgets only what is acknowledged. *)
Record remembers (d : Driver) : Prop := {
  rm_acknowledge : ∀ i o x, forgotten x (drv_acknowledge_operation d i o).2 → forgotten x o ∨ x = i;
  rm_recover : ∀ r, keeps_memory (drv_recover d r);
  rm_prepare_create : ∀ r, keeps_memory (drv_prepare_create_bundle d r);
  rm_create : ∀ r, keeps_memory (drv_create d r);
  rm_state : ∀ r, keeps_memory (drv_state d r);
  rm_start : ∀ r, keeps_memory (drv_start d r);
  rm_kill : ∀ r, keeps_memory (drv_kill d r);
  rm_delete : ∀ r, keeps_memory (drv_delete d r);
  rm_wait : ∀ r, keeps_memory (drv_wait d r);
  rm_exec : ∀ r, keeps_memory (drv_exec d r);
  rm_signal : ∀ r, keeps_memory (drv_signal_process d r);
  rm_wait_process : ∀ r, keeps_memory (drv_wait_process d r);
  rm_pause : ∀ r, keeps_memory (drv_pause d r);
  rm_resume : ∀ r, keeps_memory (drv_resume d r);
  rm_processes : ∀ r, keeps_memory (drv_processes d r);
  rm_update : ∀ r, keeps_memory (drv_update d r);
  rm_stats : ∀ r, keeps_memory (drv_stats d r);
  rm_read_output : ∀ r, keeps_memory (drv_read_output d r);
  rm_write_stdin : ∀ r, keeps_memory (drv_write_stdin d r);
  rm_close_stdin : ∀ r, keeps_memory (drv_close_stdin d r);
  rm_resize : ∀ r, keeps_memory (drv_resize d r);
  rm_file : ∀ r, keeps_memory (drv_file d r);
  rm_filesystem : ∀ r, keeps_memory (drv_filesystem d r);
  rm_checkpoint : ∀ r, keeps_memory (drv_checkpoint d r);
  rm_validate_restore : ∀ r, keeps_memory (drv_validate_restore_artifact d r);
  rm_prepare_restore : ∀ r, keeps_memory (drv_prepare_restore_bundle d r);
  rm_restore : ∀ r, keeps_memory (drv_restore d r);
  rm_attest : ∀ r, keeps_memory (drv_attest d r)
}.

(** The host's own files and executable are no driver's memory. *)
Record host_remembers : Prop := {
  hm_artifact : keeps_memory artifact_current;
  hm_symlink : ∀ p, keeps_memory (symlink_metadata p);
  hm_open : ∀ p, keeps_memory (open_readonly_nofollow p);
  hm_metadata : ∀ f, keeps_memory (handle_metadata f);
  hm_read : ∀ f, keeps_memory (handle_read f)
}.
Context (Hhost : host_remembers).

Definition registry_remembers g : Prop := Forall (λ e, remembers (rd_driver e)) (reg_entries g).
Definition service_remembers s : Prop := ∀ g, svc_lifecycle s = Some g → registry_remembers g.

(** The invariant of a history. *)
Definition remembered hw : Prop :=
  store_inv (host_disk hw) ∧
  ∀ x, forgotten x (hw_outside hw) → settled x (host_disk hw).

(** ** Calls outside the store *)

Lemma host_keeps_bind {E A B} (m : prog host_outside E A) (k : A → prog host_outside E B) :
  keeps_memory m → (∀ a, keeps_memory (k a)) → keeps_memory (bind m k).
Proof.
  intros Hm Hk o x. unfold bind. specialize (Hm o x).
  destruct (m o) as [[a|e] o'] eqn:E'; simpl in *; [|done]. intros H%Hk. auto.
Qed.
Lemma keeps_lift {E A} (r : result E A) : keeps_memory (lift r).
Proof. by intros o x. Qed.
Lemma keeps_io {A} operation (m : prog host_outside IoErrorKind A) :
  keeps_memory m → keeps_memory (io operation m).
Proof. intros Hm o x. unfold io. specialize (Hm o x). by destruct (m o) as [[a|k] o']. Qed.
Lemma keeps_hash_loop fuel operation file expected hashed :
  keeps_memory (hash_loop fuel operation file expected hashed).
Proof.
  revert hashed. induction fuel as [|fuel IH]; intros hashed; simpl; [apply (keeps_lift (Err _))|].
  apply host_keeps_bind; [apply keeps_io, (hm_read Hhost)|]. intros chunk.
  case_bool_decide; [apply (keeps_lift (Ok _))|]. destruct (_ <? _); [apply (keeps_lift (Err _))|].
  apply IH.
Qed.
Lemma keeps_verify path digest size operation :
  keeps_memory (verify_checkpoint_artifact path digest size operation).
Proof.
  unfold verify_checkpoint_artifact.
  repeat first [apply keeps_hash_loop | apply keeps_lift | apply host_keeps_bind; [|intros ?]
               | apply keeps_io; first [apply (hm_symlink Hhost) | apply (hm_open Hhost)
                                       | apply (hm_metadata Hhost)]].
Qed.
Lemma registry_acknowledge_forgets g i o x :
  registry_remembers g → forgotten x (registry_acknowledge g i o).2 → forgotten x o ∨ x = i.
Proof.
  unfold registry_remembers, registry_acknowledge. revert o.
  induction (reg_entries g) as [|e l IH]; intros o Hg H; [by left|].
  inversion Hg as [|? ? He Hl]; subst. simpl in H. unfold bind in H.
  destruct (drv_acknowledge_operation (rd_driver e) i o) as [[[]|err] o'] eqn:E.
  - destruct (IH o' Hl H) as [H'|]; [|auto]. apply (rm_acknowledge _ He i). by rewrite E.
  - apply (rm_acknowledge _ He i). by rewrite E.
Qed.

Lemma get_remembers g kind name d :
  registry_remembers g → get g kind name = Ok d → remembers (rd_driver d).
Proof.
  intros Hg H%ok_or_ok. apply find_some in H as [Hin _]. apply list_elem_of_In in Hin.
  unfold registry_remembers in Hg. rewrite Forall_forall in Hg. by apply Hg.
Qed.
Lemma select_remembers g isolation name d :
  registry_remembers g → select g isolation name = Ok d → remembers (rd_driver d).
Proof.
  intros Hg H%ok_or_ok. apply find_some in H as [Hin _]. apply list_elem_of_In in Hin.
  unfold registry_remembers in Hg. rewrite Forall_forall in Hg. by apply Hg.
Qed.

(** ** Programs of the host *)

Definition keeps {A} (m : H A) hw : Prop := remembered hw → remembered (m hw).2.

Lemma keeps_host_bind {A B} (m : H A) (k : A → H B) hw :
  keeps m hw → (∀ a hw', m hw = (Ok a, hw') → remembered hw → keeps (k a) hw') →
  keeps (bind m k) hw.
Proof.
  intros Hm Hk Hr. specialize (Hm Hr). unfold bind.
  destruct (m hw) as [[a|e] hw'] eqn:E; [|done]. by apply (Hk a hw' eq_refl Hr).
Qed.
Lemma keeps_still {A} (m : H A) hw : (m hw).2 = hw → keeps m hw.
Proof. intros E Hr. by rewrite E. Qed.
Lemma keeps_store {A} (m : M A) hw : host_refines (store m) → keeps (store m) hw.
Proof.
  intros Hm [Hinv Hr]. specialize (Hm hw Hinv). split; [by eapply store_inv_steps|].
  intros x Hx. eapply settled_steps; [exact Hm|]. apply Hr. revert Hx. unfold store.
  by destruct (m (hw_store hw)).
Qed.
Lemma keeps_outside {A} (m : prog host_outside Error A) hw : keeps_memory m → keeps (outside m) hw.
Proof.
  intros Hm [Hinv Hr]. unfold outside. specialize (Hm (hw_outside hw)).
  destruct (m (hw_outside hw)) as [r o']; simpl in *. split; [done|]. intros x Hx. apply Hr, Hm, Hx.
Qed.
Lemma keeps_attempt {A} (m : H A) hw : keeps m hw → keeps (attempt m) hw.
Proof. intros Hm Hr. specialize (Hm Hr). unfold attempt. by destruct (m hw). Qed.
Lemma keeps_relabel {A} name (m : H A) hw : keeps m hw → keeps (relabel name m) hw.
Proof. intros Hm Hr. specialize (Hm Hr). unfold relabel. by destruct (m hw). Qed.
Lemma keeps_boundary op stage hw : keeps (driver_boundary op stage) hw.
Proof.
  apply keeps_store. apply (host_refines_boundary op stage).
Qed.
Lemma keeps_driver_call {A} op (m : prog host_outside Error A) hw :
  keeps_memory m → keeps (driver_call op m) hw.
Proof.
  intros Hm. apply keeps_host_bind; [apply keeps_boundary|]. intros _ hw1 _ _.
  apply keeps_host_bind; [by apply keeps_attempt, keeps_outside|]. intros r hw2 _ _.
  apply keeps_host_bind; [apply keeps_boundary|]. intros _ hw3 _ _. by apply keeps_still.
Qed.

(** The acknowledgement of a settled operation. *)
Lemma keeps_acknowledge g o hw :
  registry_remembers g → settled o (host_disk hw) → keeps (acknowledge_operation g o) hw.
Proof.
  intros Hg Hs [Hinv Hr]. unfold acknowledge_operation, outside.
  pose proof (registry_acknowledge_forgets g o (hw_outside hw)) as Ha.
  destruct (registry_acknowledge g o (hw_outside hw)) as [r o']; simpl in *. split; [done|].
  intros x Hx. destruct (Ha x Hg Hx) as [H| ->]; [by apply Hr|done].
Qed.
Lemma keeps_acknowledge_result {A} g o (m : H A) hw :
  registry_remembers g → keeps m hw →
  (∀ a hw', m hw = (Ok a, hw') → settled o (host_disk hw')) → keeps (acknowledge_result g o m) hw.
Proof.
  intros Hg Hm Hs. apply keeps_host_bind; [done|]. intros a hw1 H1 _.
  apply keeps_host_bind; [apply keeps_acknowledge; [done|by eapply Hs]|]. intros _ hw2 _ _.
  by apply keeps_still.
Qed.
Lemma keeps_fail_driver {A} g o e hw :
  registry_remembers g → keeps (fail_driver_operation (A := A) g o e) hw.
Proof.
  intros Hg. unfold fail_driver_operation. destruct (retryable e) eqn:He; [by apply keeps_still|].
  apply keeps_host_bind.
  { apply keeps_store, (host_refines_call (CallFail o e) ReplyUnit); done. }
  intros [] hw1 (w' & Hf & ->)%store_inv_run _.
  apply keeps_host_bind; [|intros; by apply keeps_still]. apply keeps_acknowledge; [done|].
  destruct (fail_operation_recorded _ _ _ _ Hf He) as (op & (Hop & _)%load_operation_ok & Ho & _).
  exists op. by rewrite Ho.
Qed.
Lemma keeps_or_fail {A B} g o (r : Result A) (k : A → H B) hw :
  registry_remembers g → (∀ a, r = Ok a → keeps (k a) hw) → keeps (or_fail g o r k) hw.
Proof. intros Hg. destruct r; simpl; [auto|]. intros _. by apply keeps_fail_driver. Qed.
Lemma keeps_or_settle {A B} g o b (r : Result A) (k : A → H B) hw :
  registry_remembers g → (∀ a, r = Ok a → keeps (k a) hw) → keeps (or_settle g o b r k) hw.
Proof.
  intros Hg. destruct r, b; simpl; auto; intros _; [by apply keeps_fail_driver|by apply keeps_still].
Qed.

Lemma keeps_bind_lift {A B} (r : Result A) (k : A → H B) hw :
  (∀ a, r = Ok a → keeps (k a) hw) → keeps (bind (lift r) k) hw.
Proof.
  intros Hk. apply keeps_host_bind; [by apply keeps_still|]. intros a hw' [= -> ->] _. by apply Hk.
Qed.
Lemma keeps_recorded_driver {B} g t name (k : RegisteredDriver → H B) hw :
  registry_remembers g → (∀ d, remembers (rd_driver d) → keeps (k d) hw) →
  keeps (bind (recorded_driver g t name) k) hw.
Proof.
  intros Hg Hk. assert ((recorded_driver g t name hw).2 = hw ∧
    ∀ d hw', recorded_driver g t name hw = (Ok d, hw') → remembers (rd_driver d)) as [Hs Hd].
  { unfold recorded_driver, store, state, read, bind, lift. destruct hw as [w out]. simpl.
    destruct (rbind _ _) as [c|e]; simpl; [|done]. split; [done|]. intros d hw' [= H <-].
    by eapply get_remembers. }
  apply keeps_host_bind; [by apply keeps_still|]. intros d hw' H _.
  assert (hw' = hw) as -> by (by rewrite H in Hs). apply Hk. by eapply Hd.
Qed.
Lemma keeps_replayed {A P} g o (replay : P → option StoreReply) (m : M P) (a : A) p hw hw' :
  registry_remembers g → replays_settled replay o m → store m hw = (Ok p, hw') →
  is_Some (replay p) → keeps (acknowledge_result g o (ret a)) hw'.
Proof.
  intros Hg Hr (w' & Hm & ->)%store_inv_run [r Hp]. apply keeps_acknowledge_result; [done|by apply keeps_still|].
  intros b hw2 [= <- <-]. eapply journaled_settled. by eapply (Hr _ _ _ Hm).
Qed.
Lemma keeps_completed {A} g o (f : A → StoreReply) (m : M A) hw :
  registry_remembers g → host_refines (store m) → answers o f (store m) hw →
  keeps (acknowledge_result g o (store m)) hw.
Proof.
  intros Hg Hm Ha. apply keeps_acknowledge_result; [done|by apply keeps_store|].
  intros a hw' H%Ha. by eapply journaled_settled.
Qed.
Lemma service_registry s name g : service_remembers s → lifecycle s name = Ok g → registry_remembers g.
Proof. intros Hs H%lifecycle_ok. by apply Hs. Qed.
End memory.

Create HintDb memory.
#[export] Hint Resolve rm_recover rm_prepare_create rm_create rm_state rm_start rm_kill rm_delete
  rm_wait rm_exec rm_signal rm_wait_process rm_pause rm_resume rm_processes rm_update rm_stats
  rm_read_output rm_write_stdin rm_close_stdin rm_resize rm_file rm_filesystem rm_checkpoint
  rm_validate_restore rm_prepare_restore rm_restore rm_attest hm_artifact keeps_verify : memory.

(** What the equations of a run say about the registry and the driver. *)
Ltac learn_memory :=
  repeat match goal with
  | Hs : service_remembers _ ?s, H : lifecycle ?s _ = Ok ?g |- _ =>
      apply (service_registry _ _ _ _ Hs) in H
  | Hg : registry_remembers _ ?g, H : get ?g _ _ = Ok _ |- _ =>
      apply (get_remembers _ _ _ _ _ Hg) in H
  | Hg : registry_remembers _ ?g, H : select ?g _ _ = Ok _ |- _ =>
      apply (select_remembers _ _ _ _ _ Hg) in H
  end.
Ltac keep_step :=
  lazymatch goal with
  | |- keeps _ (bind (lift _) _) _ => apply keeps_bind_lift; intros ? ?
  | |- keeps _ (bind (recorded_driver _ _ _) _) _ => apply keeps_recorded_driver; [eassumption|]; intros ? ?
  | |- keeps _ (bind (ensure_target_driver_operation _ _ _ _ _) _) _ =>
      apply keeps_host_bind; [apply keeps_still, ensure_target_still|]; intros ? ? ? _
  | |- keeps _ (bind _ _) _ => apply keeps_host_bind; [|intros ? ? ? _]
  | |- keeps _ (or_fail _ _ _ _) _ => apply keeps_or_fail; [eassumption|]; intros ? ?
  | |- keeps _ (or_settle _ _ _ _ _) _ => apply keeps_or_settle; [eassumption|]; intros ? ?
  | |- keeps _ (fail_driver_operation _ _ _) _ => apply keeps_fail_driver; eassumption
  | |- keeps _ (driver_call _ _) _ => apply keeps_driver_call; eauto with memory
  | |- keeps _ (driver_boundary _ _) _ => apply keeps_boundary
  | |- keeps _ (attempt _) _ => apply keeps_attempt
  | |- keeps _ (relabel _ _) _ => apply keeps_relabel
  | |- keeps _ (outside _) _ => apply keeps_outside; eauto with memory
  | |- keeps _ (store _) _ => apply keeps_store; store_refines
  | |- keeps _ (lift _) _ => by apply keeps_still
  | |- keeps _ (ret _) _ => by apply keeps_still
  | |- keeps _ (fail _) _ => by apply keeps_still
  | |- keeps _ (match ?x with _ => _ end) _ => destruct x eqn:?
  end.
Ltac keep_steps := repeat (keep_step; simpl; learn_memory).
Ltac keep_replayed lem := eapply keeps_replayed; [eassumption|apply lem|eassumption|by eexists].
Ltac keep_completed lem :=
  eapply keeps_completed; [eassumption|store_refines|completed lem].

Section host_memory.
Context `{SE : StoreEnv} `{HE : HostEnv}.
Variable forgotten : string → host_outside → Prop.
Context (Hhost : host_remembers forgotten).
Implicit Types (hw : HostWorld) (g : DriverRegistry) (s : HostRuntimeService).

Lemma create_internal_keeps s r a hw :
  service_remembers forgotten s →
  valid_id (oc_operation_id (create_context r)) → valid_id (create_id r) →
  keeps forgotten (create_internal s r a) hw.
Proof.
  intros Hs ? ?. unfold create_internal. keep_steps.
  all: first [keep_replayed prepare_create_settled | keep_completed complete_create_replays].
Qed.
Lemma host_freezer_keeps s r op name b action call hw :
  service_remembers forgotten s → valid_id (oc_operation_id (cop_context r)) →
  (∀ d q, remembers forgotten (rd_driver d) → keeps_memory forgotten (call d q)) →
  keeps forgotten (host_freezer s r op name b action call) hw.
Proof.
  intros Hs ? Hcall. unfold host_freezer. keep_steps.
  all: first [by auto | keep_replayed prepare_freezer_settled
             |keep_completed complete_freezer_replays].
Qed.
Lemma host_process_io_keeps g o t op name b prepare call profile hw :
  registry_remembers forgotten g → io_profile profile → replays_settled io_replay o prepare →
  host_refines (store prepare) →
  (∀ d q, remembers forgotten (rd_driver d) → keeps_memory forgotten (call d q)) →
  keeps forgotten
    (host_process_io g o t op name b prepare call (complete_process_io_operation o profile)) hw.
Proof.
  intros Hg Hi Hp Hrp Hcall. unfold host_process_io.
  assert (host_refines (store (complete_process_io_operation o profile))) as Hrc
    by (apply host_refines_store; intros; by apply complete_process_io_operation_refines).
  keep_step.
  apply keeps_host_bind; [by apply keeps_store|]. intros ? ? ? _. keep_steps.
  all: first [by auto | keep_replayed Hp
             |eapply keeps_completed; [eassumption|done|completed complete_process_io_replays]].
Qed.
Lemma host_complete_process_wait_keeps target status hw :
  keeps forgotten (host_complete_process_wait target status) hw.
Proof. unfold host_complete_process_wait. keep_steps. Qed.
Lemma finish_checkpoint_keeps g r source artifact result hw :
  registry_remembers forgotten g → keeps forgotten (finish_checkpoint g r source artifact result) hw.
Proof.
  intros Hg. unfold finish_checkpoint. keep_steps.
  keep_completed complete_checkpoint_replays.
Qed.
Lemma dispatch_restore_keeps g d r tee reference artifact restoring hw :
  registry_remembers forgotten g → remembers forgotten (rd_driver d) →
  valid_id (oc_operation_id (rr_context r)) →
  keeps forgotten (dispatch_restore g d r tee reference artifact restoring) hw.
Proof.
  intros Hg Hd ?. unfold dispatch_restore. keep_steps. keep_completed complete_restore_replays.
Qed.
Lemma dispatch_attestation_keeps g d r artifact source fresh hw :
  registry_remembers forgotten g → remembers forgotten (rd_driver d) →
  valid_id (oc_operation_id (atr_context r)) →
  keeps forgotten (dispatch_attestation g d r artifact source fresh) hw.
Proof.
  intros Hg Hd ?. unfold dispatch_attestation. keep_steps. keep_completed complete_attestation_replays.
Qed.
Lemma restore_preflight_remembers g r reference artifact d :
  registry_remembers forgotten g → restore_preflight g r reference artifact = Ok d →
  remembers forgotten (rd_driver d).
Proof.
  intros Hg H. unfold restore_preflight in H. inv_ok. by eapply get_remembers.
Qed.
Lemma current_artifact_keeps name hw : keeps forgotten (current_artifact name) hw.
Proof. unfold current_artifact. keep_steps. Qed.

(** Every call keeps the invariant. *)
Lemma run_host_call_keeps s c hw :
  service_remembers forgotten s → host_well_typed c → keeps forgotten (run_host_call s c) hw.
Proof.
  intros Hs. destruct c; simpl; intros Hv; try match type of Hv with _ ∧ _ => destruct Hv end;
    (apply keeps_host_bind; [|intros; by apply keeps_still]).
  - unfold host_create. keep_steps; by apply create_internal_keeps.
  - apply keeps_bind_lift. intros _ _. by apply create_internal_keeps.
  - unfold host_state. keep_steps. by apply host_complete_process_wait_keeps.
  - unfold host_start. keep_steps.
    all: first [keep_replayed prepare_start_settled | keep_completed complete_start_replays].
  - unfold host_kill. keep_steps.
    all: first [keep_replayed prepare_kill_settled | keep_completed complete_kill_replays].
  - unfold host_delete. keep_steps.
    all: first [keep_replayed prepare_delete_settled | keep_completed complete_delete_replays].
  - unfold host_exec. keep_steps.
    all: first [keep_replayed prepare_exec_settled | keep_completed complete_exec_replays].
  - unfold host_wait. keep_steps. by apply host_complete_process_wait_keeps.
  - unfold host_list. keep_steps.
  - apply host_freezer_keeps; [done|done|]. eauto with memory.
  - apply host_freezer_keeps; [done|done|]. eauto with memory.
  - unfold host_update. keep_steps.
    all: first [keep_replayed prepare_update_settled | keep_completed complete_update_replays].
  - unfold host_processes. keep_steps.
  - unfold host_stats. keep_steps.
  - unfold host_events. keep_steps.
  - unfold host_read_output. keep_steps.
  - unfold host_write_stdin. keep_steps. apply host_process_io_keeps; try done;
      [apply prepare_write_stdin_settled|store_refines|eauto with memory].
  - unfold host_close_stdin. keep_steps. apply host_process_io_keeps; try done;
      [apply prepare_close_stdin_settled|store_refines|eauto with memory].
  - unfold host_resize. keep_steps. apply host_process_io_keeps; try done;
      [apply prepare_resize_settled|store_refines|eauto with memory].
  - unfold host_signal_process. keep_steps.
    all: first [keep_replayed prepare_signal_process_settled
               |keep_completed complete_signal_process_replays].
  - unfold host_wait_process. keep_steps. by apply host_complete_process_wait_keeps.
  - unfold host_file, host_download. keep_steps. unfold host_upload.
    destruct (file_context request) as [x|] eqn:Hx; [|by apply keeps_still].
    rewrite <- Hx in Hv.
    apply keeps_bind_lift. intros ? [= <-]. keep_steps.
    all: first [keep_replayed (prepare_file_mutation_settled request x Hx)
               |eapply (keeps_completed _ _ _ ReplyFile);
                [eassumption|store_refines|completed complete_file_mutation_replays]].
  - unfold host_filesystem, host_filesystem_query. keep_steps. unfold host_filesystem_mutation.
    destruct (fs_context request) as [x|] eqn:Hx; [|by apply keeps_still].
    rewrite <- Hx in Hv.
    apply keeps_bind_lift. intros ? [= <-]. keep_steps.
    all: first [keep_replayed (prepare_filesystem_mutation_settled request x Hx)
               |eapply (keeps_completed _ _ _ ReplyFilesystem);
                [eassumption|store_refines|completed complete_filesystem_mutation_replays]].
  - unfold host_checkpoint. keep_steps.
    all: first [by apply current_artifact_keeps | by apply keeps_still, ensure_target_still
               |keep_replayed prepare_checkpoint_settled | by apply finish_checkpoint_keeps].
  - unfold host_restore. keep_steps.
    all: try match goal with Hg : registry_remembers _ ?g, H : restore_preflight ?g _ _ _ = Ok _ |- _ =>
      apply (restore_preflight_remembers _ _ _ _ _ Hg) in H end.
    all: first [by apply current_artifact_keeps | keep_replayed lookup_restore_settled
               |keep_replayed prepare_restore_settled | by apply dispatch_restore_keeps
               |eauto with memory].
  - unfold host_attest. keep_steps.
    all: first [by apply current_artifact_keeps | keep_replayed lookup_attestation_settled
               |keep_replayed prepare_attestation_settled | by apply dispatch_attestation_keeps].
Qed.

(** ** Opening a service *)

Lemma probe_drivers_ok drivers hw rs hw' :
  probe_drivers drivers hw = (Ok rs, hw') → dreg_driver <$> rs = drivers.
Proof.
  revert hw rs hw'. induction drivers as [|d ds IH]; intros hw rs hw'; simpl; [by intros [= <- <-]|].
  unfold bind. destruct (driver_boundary _ _ hw) as [[[]|] hw1]; [|done].
  destruct (driver_boundary _ _ hw1) as [[[]|] hw2]; [|done].
  destruct (probe_drivers ds hw2) as [[l|] hw3] eqn:E; [|done]. intros [= <- <-].
  simpl. f_equal. by eapply IH.
Qed.
Lemma probe_drivers_keeps drivers hw : keeps forgotten (probe_drivers drivers) hw.
Proof.
  revert hw. induction drivers as [|d ds IH]; intros hw; simpl; [by apply keeps_still|].
  keep_steps. apply IH.
Qed.
Lemma registry_new_remembers drivers rs g :
  Forall (remembers forgotten) drivers → dreg_driver <$> rs = drivers →
  registry_new rs = Ok g → registry_remembers forgotten g.
Proof.
  intros Hd Hrs Hg%registry_new_drivers. unfold registry_remembers.
  rewrite Hrs in Hg. rewrite <- Hg, Forall_fmap in Hd. exact Hd.
Qed.
Lemma validate_durable_record_remembers g record attachments d :
  registry_remembers forgotten g → validate_durable_record g record attachments = Ok d →
  remembers forgotten (rd_driver d).
Proof.
  intros Hg H. unfold validate_durable_record in H. inv_ok.
  match goal with H : find _ _ = Some _ |- _ => apply find_some in H as [Hin%list_elem_of_In _] end.
  unfold registry_remembers in Hg. rewrite Forall_forall in Hg. by apply Hg.
Qed.
Lemma recover_record_keeps g record hw :
  registry_remembers forgotten g → keeps forgotten (recover_record g record) hw.
Proof.
  intros Hg. unfold recover_record, adopt_observation.
  keep_steps.
  all: match goal with H : validate_durable_record _ _ _ = Ok _ |- _ =>
    apply (validate_durable_record_remembers _ _ _ _ Hg) in H end; eauto with memory.
Qed.
Lemma for_each_keeps {A} (body : A → H ()) l hw :
  (∀ x hw', keeps forgotten (body x) hw') → keeps forgotten (for_each body l) hw.
Proof.
  intros Hb. revert hw. induction l as [|x l IH]; intros hw; simpl; [by apply keeps_still|].
  apply keeps_host_bind; [done|]. intros. apply IH.
Qed.
Lemma open_with_drivers_keeps drivers hw :
  Forall (remembers forgotten) drivers → keeps forgotten (open_with_drivers drivers) hw.
Proof.
  intros Hd. unfold open_with_drivers. apply keeps_host_bind; [apply probe_drivers_keeps|].
  intros rs hw1 Hrs%probe_drivers_ok _. apply keeps_bind_lift. intros g Hg.
  apply (registry_new_remembers _ _ _ Hd Hrs) in Hg. keep_steps.
  apply for_each_keeps. intros. by apply recover_record_keeps.
Qed.
Lemma open_with_drivers_remembers drivers hw s hw' :
  Forall (remembers forgotten) drivers → open_with_drivers drivers hw = (Ok s, hw') →
  service_remembers forgotten s.
Proof.
  intros Hd. unfold open_with_drivers, bind.
  destruct (probe_drivers drivers hw) as [[rs|] hw1] eqn:E; [|done]. apply probe_drivers_ok in E.
  unfold lift. destruct (registry_new rs) as [g|] eqn:Hg; [|done].
  destruct (store open_store hw1) as [[[]|] hw2]; [|done].
  destruct (store _ hw2) as [[records|] hw3]; [|done].
  destruct (for_each _ records hw3) as [[[]|] hw4]; [|done]. intros [= <- <-] g' [= <-].
  by eapply registry_new_remembers.
Qed.

(** ** Histories *)

Definition event_remembers (e : HostEvent) : Prop :=
  match e with
  | EvOpen drivers => Forall (remembers forgotten) drivers
  | EvOpenNative driver _ _ => remembers forgotten driver
  | EvCall _ => True
  end.

Lemma host_event_keeps st e :
  event_well_typed e → event_remembers e → service_remembers forgotten st.1 →
  remembered forgotten st.2 →
  service_remembers forgotten (host_event st e).1 ∧ remembered forgotten (host_event st e).2.
Proof.
  destruct st as [s hw], e as [ds|d id desc|c]; simpl; intros Hv He Hs Hr.
  - pose proof (open_with_drivers_keeps ds hw He Hr) as Hk.
    pose proof (open_with_drivers_remembers ds hw) as Ho.
    destruct (open_with_drivers ds hw) as [[s'|e] hw'] eqn:E; simpl in *; (split; [|done]).
    + by eapply Ho.
    + done.
  - assert (Forall (remembers forgotten) [d]) as Hd by (by constructor).
    pose proof (open_with_drivers_keeps [d] hw Hd Hr) as Hk.
    pose proof (open_with_drivers_remembers [d] hw) as Ho.
    unfold open_with_native_control_descriptors, bind, lift.
    destruct (descriptor_plan desc); [|done].
    destruct (open_with_drivers [d] hw) as [[s'|e] hw'] eqn:E; simpl in *; (split; [|done]); [|done].
    intros g Hg. exact (Ho s' hw' Hd eq_refl g Hg).
  - split; [done|]. by apply run_host_call_keeps.
Qed.

(** C6: no driver forgets an operation whose outcome is not durable.  Take any
    history of opening the host, with any drivers that forget an operation only
    when it is acknowledged, and of calling it, from a state root and an outside
    world in which every forgotten operation is settled, with faults injected
    anywhere.  Then at its end every operation that a driver has forgotten is
    journaled with its outcome: a caller that retries after any crash finds
    the answer in the journal, or the effect still known to the driver. *)
Theorem forgotten_operations_settled es s hw :
  Forall event_well_typed es → Forall event_remembers es → service_remembers forgotten s →
  remembered forgotten hw →
  ∀ o, forgotten o (hw_outside (run_host es (s, hw)).2) →
    settled o (host_disk (run_host es (s, hw)).2).
Proof.
  intros Hw He Hs Hr. enough (remembered forgotten (run_host es (s, hw)).2) as H by apply H.
  revert Hs Hr. change s with (s, hw).1 at 1. change hw with (s, hw).2 at 2.
  generalize (s, hw). induction es as [|e es IH]; intros st Hs Hr; [done|].
  inversion Hw; inversion He; subst. destruct (host_event_keeps st e) as [? ?]; [done..|].
  by apply IH.
Qed.
End host_memory.
