(* ===== verification/HostValues.v ===== *)
(** * What the host accepts from a driver

    The checks of driver answers as specifications: which output chunks and
    process inventories the host passes on, and that the guest's output buffer
    always satisfies the host's check. *)

From stdpp Require Import base gmap strings list.
From S2P Require Import Prelude Collections Sdk Identifiers OutputBuffer.
From S2P Require Import Lifecycle Fault OciState Contracts Capabilities HostArtifact StoreModel.
From S2P Require Import Disk.
From S2P Require Import Journal ProcessStore Observe Driver DriverRegistry HostService HostRefine.
From S2P Require Import HostGuarantees.
From Stdlib Require Import ZArith Lia.
Local Open Scope string_scope.
Local Open Scope list_scope.
Local Open Scope Z_scope.

(** ** Output chunks *)

(** End markers carry no data, other chunks carry some. *)
Definition well_shaped (c : OutputChunk) : Prop :=
  if oc_eof c then oc_data c = [] else oc_data c ≠ [].

Lemma out_items_len c : ilen (out_items c) = if oc_eof c then 1 else data_len (oc_data c).
Proof. unfold out_items. destruct (oc_eof c); [done|apply ilen_bytes]. Qed.

Lemma validate_output_chunk_ok previous total c s' :
  validate_output_chunk (previous, total) c = Ok s' ↔
  well_shaped c ∧ oc_sequence c = previous + ilen (out_items c) ∧ oc_sequence c ≤ u64_max ∧
  total + data_len (oc_data c) ≤ u64_max ∧ s' = (oc_sequence c, total + data_len (oc_data c)).
Proof.
  unfold validate_output_chunk, well_shaped, checked_add_u64. rewrite out_items_len.
  set (width := if oc_eof c then 1 else data_len (oc_data c)).
  split.
  - intros H. inv_ok. repeat case_decide; simplify_eq/=.
    repeat match goal with H : bool_decide (_ ≠ _) = false |- _ =>
      apply bool_decide_eq_false, dec_stable in H end.
    split_and!; try done; try lia. destruct (oc_eof c); simpl in *.
    + by apply negb_false_iff, bool_decide_eq_true in H0.
    + by apply bool_decide_eq_false in H.
  - intros (Hs & Hseq & Hmax & Htot & ->).
    assert (negb (oc_eof c) && bool_decide (oc_data c = []) = false) as ->
      by (destruct (oc_eof c); simpl; [done|by apply bool_decide_eq_false]).
    assert (oc_eof c && negb (bool_decide (oc_data c = [])) = false) as ->
      by (destruct (oc_eof c); simpl; [by rewrite bool_decide_eq_true_2|done]).
    simpl. rewrite decide_True by lia. simpl. rewrite bool_decide_eq_false_2 by (rewrite Hseq; auto).
    simpl. by rewrite decide_True.
Qed.

Lemma out_bytes_nonneg cs : 0 ≤ out_bytes cs.
Proof. induction cs as [|c cs IH]; simpl; [lia|]. pose proof (data_len_nonneg (oc_data c)). lia. Qed.
Lemma out_bytes_items cs : Forall well_shaped cs → out_bytes cs ≤ ilen (received cs).
Proof.
  induction 1 as [|c cs Hc _ IH]; [done|]. rewrite received_cons, ilen_app, out_items_len. simpl.
  unfold well_shaped in Hc. destruct (oc_eof c); [rewrite Hc; change (data_len []) with 0|]; lia.
Qed.

Lemma validate_output_chunks_loop cs previous total s' :
  0 ≤ total ≤ previous → previous ≤ u64_max →
  rfold validate_output_chunk (previous, total) cs = Ok s' ↔
  Forall well_shaped cs ∧ numbered previous cs ∧ previous + ilen (received cs) ≤ u64_max ∧
  s' = (next_cursor previous cs, total + out_bytes cs).
Proof.
  revert previous total. induction cs as [|c cs IH]; intros previous total Ht Hp.
  - change (ilen (received [])) with 0. simpl. rewrite !Z.add_0_r. split; [intros [= <-]|naive_solver].
    by split_and!.
  - cbn [rfold]. rewrite rbind_ok, received_cons, ilen_app. cbn [numbered out_bytes].
    setoid_rewrite validate_output_chunk_ok. rewrite Forall_cons.
    assert (well_shaped c → data_len (oc_data c) ≤ ilen (out_items c)) as Hw.
    { unfold well_shaped. rewrite out_items_len. destruct (oc_eof c); [intros ->; done|done]. }
    pose proof (ilen_nonneg (received cs)). pose proof (data_len_nonneg (oc_data c)).
    assert (next_cursor previous (c :: cs) = next_cursor (oc_sequence c) cs) as ->
      by (unfold next_cursor; rewrite last_cons; by destruct (last cs)).
    split.
    + intros (s & (Hs & Hseq & Hmax & Htot & ->) & Hrun). apply IH in Hrun as (? & ? & ? & ->); [|specialize (Hw Hs); lia..].
      split_and!; try done; [lia|]. f_equal. lia.
    + intros ((Hs & Hcs) & (Hseq & Hn) & Hmax & ->). specialize (Hw Hs).
      exists (oc_sequence c, total + data_len (oc_data c)). split; [split_and!; done || lia|].
      apply IH; [lia..|]. split_and!; try done; [lia|]. f_equal. lia.
Qed.

(** Exactly the chunk lists that continue the cursor without a gap, inside the
    sequence space and the byte budget, are accepted. *)
Lemma validate_output_chunks_spec cs after max_bytes :
  0 ≤ after ≤ u64_max →
  validate_output_chunks cs after max_bytes = Ok () ↔
  Forall well_shaped cs ∧ numbered after cs ∧ after + ilen (received cs) ≤ u64_max ∧
  out_bytes cs ≤ max_bytes.
Proof.
  intros Ha. unfold validate_output_chunks. rewrite rbind_ok.
  setoid_rewrite validate_output_chunks_loop; [|lia..]. split.
  - intros (s & (Hw & Hn & Hm & ->) & Hb%reject_if_ok). apply bool_decide_eq_false in Hb. simpl in Hb.
    split_and!; [done..|lia].
  - intros (? & ? & ? & ?). eexists. split; [by split_and!|]. apply reject_if_ok.
    apply bool_decide_eq_false. simpl. lia.
Qed.

Lemma collect_shaped mk_error cs after remaining out :
  0 ≤ remaining → collect mk_error after remaining cs = Ok out → Forall well_shaped out.
Proof.
  revert remaining out. induction cs as [|c cs IH]; intros remaining out Hr; cbn [collect];
    [intros [= <-]; constructor|].
  destruct (_ <=? after); [by apply IH|]. destruct (bc_eof c).
  { intros H. inv_ok. constructor; [done|by eapply IH]. }
  destruct (Z.eqb_spec remaining 0); [intros [= <-]; constructor|].
  set (off := if bc_start c <=? after then after - bc_start c + 1 else 0).
  set (len := Z.min _ _). destruct (Z.eqb_spec len 0); [by apply IH|].
  assert (∀ seq, well_shaped (mkOutputChunk seq (bc_stream c)
    (take (Z.to_nat len) (drop (Z.to_nat off) (bc_data c))) false)) as Hshape.
  { intros seq. unfold well_shaped. cbn [oc_eof oc_data]. intros Hnil.
    apply (f_equal length) in Hnil. rewrite length_take, length_drop in Hnil. cbn [length] in Hnil.
    assert (0 ≤ off) by (unfold off; destruct (Z.leb_spec (bc_start c) after); lia).
    unfold len, data_len in *. lia. }
  intros H. inv_ok. destruct (_ <? _); inv_ok; (constructor; [apply Hshape|]); [constructor|].
  eapply IH; [|done]. lia.
Qed.

(** C22: the guest's output passes the host's check.  Whatever a process wrote and
    whatever was read before, every answer that the output buffer of the guest
    gives to a reader after cursor [after] with budget [max_bytes] is accepted
    by the host service as a contiguous continuation of that cursor. *)
Theorem guest_output_accepted mk_error open_streams ops after max_bytes out :
  0 ≤ after → 0 ≤ max_bytes →
  OutputBuffer.read mk_error after max_bytes false [ss_buffer (run_session mk_error open_streams ops)] = Ok out →
  validate_output_chunks out after max_bytes = Ok ().
Proof.
  intros Ha Hmax H. destruct (run_session_inv mk_error open_streams ops) as (Hinv & _).
  set (st := ss_buffer _) in *. pose proof Hinv as [Hnext Hwidth Hdrop _ _ _ _].
  cbn [OutputBuffer.read] in H. apply rbind_ok in H as (p & Hp & H).
  assert (os_dropped_through st ≤ after ≤ ilen (history ops)) as Hafter.
  { unfold poll in Hp. destruct (Z.ltb_spec after (os_dropped_through st)); [done|].
    destruct (Z.leb_spec (os_next_sequence st) after); [done|]. lia. }
  apply validate_output_chunks_spec; [lia|].
  destruct (poll_spec mk_error _ _ after max_bytes Hinv Hafter Hmax)
    as [(out' & rest & Hp' & _ & Hitems & Hnum & Hb & _)|[_ Hp']].
  - rewrite Hp' in Hp. injection Hp as <-. injection H as <-. split_and!; [|done| |done].
    + unfold poll in Hp'. destruct (_ <? _); [done|]. destruct (_ <=? _); [done|].
      apply rbind_ok in Hp' as (out & Hc & Hp'). apply collect_shaped in Hc; [|done].
      destruct out; [by destruct (_ =? 0); [destruct (os_terminal_error _)|]|].
      by injection Hp' as <-.
    + apply (f_equal length) in Hitems. rewrite length_drop, length_app in Hitems.
      unfold ilen in *. lia.
  - assert (out = []) as ->.
    { rewrite Hp' in Hp. destruct (_ =? 0); [destruct (os_terminal_error st)|]; simplify_eq/=; done. }
    split_and!; [constructor|done|change (ilen (received [])) with 0; lia|done].
Qed.

(** ** Process inventories *)

Lemma invalid_inventory_false target before ps :
  invalid_inventory target before ps = false ↔
  Forall (λ p, pt_container (pr_target p) = target ∧ ∃ pid, pr_pid p = Some pid ∧ pid ≠ 0) ps ∧
  NoDup ((λ p, pt_process_id (pr_target p)) <$> ps) ∧
  ∀ p q, p ∈ ps → q ∈ before → pt_process_id (pr_target p) ≠ pt_process_id (pr_target q).
Proof.
  revert before. induction ps as [|p ps IH]; intros before; cbn [invalid_inventory].
  { split; [|done]. intros _. split_and!; [constructor|constructor|set_solver]. }
  rewrite orb_false_iff, IH, fmap_cons, NoDup_cons, Forall_cons. clear IH.
  unfold invalid_inventory_entry. rewrite !orb_false_iff, !bool_decide_eq_false.
  assert (existsb (λ candidate, bool_decide
      (pt_process_id (pr_target candidate) = pt_process_id (pr_target p))) before = false ↔
    ∀ q, q ∈ before → pt_process_id (pr_target p) ≠ pt_process_id (pr_target q)) as ->.
  { rewrite <- not_true_iff_false, existsb_exists. setoid_rewrite bool_decide_eq_true.
    setoid_rewrite <- list_elem_of_In. split; [intros H q Hq Heq; apply H; eauto|].
    intros H (q & Hq & Heq). by apply (H q Hq). }
  assert ((pr_pid p ≠ None ∧ pr_pid p ≠ Some 0) ↔ ∃ pid, pr_pid p = Some pid ∧ pid ≠ 0) as Hpid
    by (destruct (pr_pid p); naive_solver).
  split.
  - intros [[[[Hc%dec_stable H1] H2] Hb] (Hall & Hnd & Hsep)]. split_and!; try done; [by apply Hpid| |].
    + intros (q & Heq & Hq)%list_elem_of_fmap. apply (Hsep q p Hq); [set_solver|done].
    + intros q r [->|Hq]%elem_of_cons Hr; [by apply Hb|]. apply Hsep; [done|set_solver].
  - intros ([[Hc Hp%Hpid] Hall] & [Hnew Hnd] & Hsep). destruct Hp as [H1 H2]. split_and!; try done.
    + intros H. by apply H.
    + intros q Hq. apply Hsep; [left|done].
    + intros q r Hq [Hr|[= ->]%list_elem_of_singleton]%elem_of_app; [apply Hsep; [by right|done]|].
      intros Heq. apply Hnew. apply list_elem_of_fmap. eauto.
Qed.

Section inventory.
Context `{SE : StoreEnv} `{HE : HostEnv}.

(** C38: process inventories.  Whatever a driver answers, a process list that the
    host returns names only processes of the exact current generation, each
    once and with a nonzero PID, in the order of their identifiers, and the
    container's init process is among them unless the container has stopped. *)
Theorem host_processes_inventory s request hw l hw' :
  host_processes s request hw = (Ok l, hw') →
  ∃ record, state (processes_target request) (hw_store hw) = (Ok record, hw_store hw) ∧
    Forall (λ p, pt_container (pr_target p) =
                   target_exact (ct_id (processes_target request)) (cr_generation record) ∧
                 ∃ pid, pr_pid p = Some pid ∧ pid ≠ 0) l ∧
    increasing ((λ p, pt_process_id (pr_target p)) <$> l) ∧
    (st_status (cr_state record) ≠ Stopped →
     ∃ p, p ∈ l ∧ pt_process_id (pr_target p) = INIT_PROCESS_ID).
Proof.
  unfold host_processes, bind, lift. intros H.
  destruct (lifecycle s "processes") as [g|]; [|done].
  destruct (ensure_any_driver_operation _ _ _); [|done].
  destruct (store (state _) hw) as [[record|] hw1] eqn:Hst; [|done].
  apply store_inv_run in Hst as (w1 & Hst & ->).
  destruct (get _ _ _) as [d|]; [|done]. destruct (ensure_operation _ _ _); [|done].
  destruct (driver_call _ _ _) as [[[ps|]|] hw2]; [|done..].
  injection H as H _. unfold checked_inventory in H.
  apply rbind_ok in H as (? & Hinv%reject_if_ok & H).
  apply rbind_ok in H as (? & Hinit%reject_if_ok & H). injection H as <-.
  apply invalid_inventory_false in Hinv as (Hall & Hnd & _).
  assert (w1 = hw_store hw) as -> by (clear -Hst; unfold state, Disk.read in Hst; by injection Hst).
  exists record. split; [exact Hst|]. split_and!.
  - by rewrite sort_by_key_Permutation.
  - by apply (sort_by_key_increasing (λ p, pt_process_id (pr_target p))).
  - intros Hlive. apply andb_false_iff in Hinit as [Hs|Hi].
    + by apply bool_decide_eq_false in Hs.
    + apply negb_false_iff, existsb_exists in Hi as (p & Hp%list_elem_of_In & Hi).
      exists p. rewrite sort_by_key_Permutation. split; [done|]. by apply bool_decide_eq_true in Hi.
Qed.
End inventory.
