(* ===== verification/HostScenario.v ===== *)
(** * A recorded history of the host service

    A concrete host: one driver that logs what it is asked, remembers the
    operations that were not acknowledged, and one checkpoint file.  It gives
    the witnesses of the service's theorems. *)

From stdpp Require Import base gmap strings list relations.
From S2P Require Import Prelude Collections Sdk Identifiers OutputBuffer.
From S2P Require Import Lifecycle Fault OciState Contracts Capabilities HostArtifact StoreModel.
From S2P Require Import Disk.
From S2P Require Import RestoreContract Journal Events Claims Create Start Kill Freezer Update.
From S2P Require Import ProcessStore ProcessIoStore FileStore CheckpointStore RestoreStore.
From S2P Require Import AttestationStore Delete Observe Driver DriverRegistry.
From S2P Require Import StartupAudit Machine Refine Store Scenario Guarantees Replay.
From S2P Require Import OperationGates HostService HostContracts HostRefine HostGuarantees.
From S2P Require Import HostForget HostValues.
Local Open Scope string_scope.
Local Open Scope Z_scope.

(** ** The outside world *)

Record DemoOutside : Type := mkOutside {
  do_log : list string;
  do_forgotten : list string;
  do_content : string;
  do_at_end : bool
}.
Definition do_call (name : string) (o : DemoOutside) : DemoOutside :=
  mkOutside (do_log o ++ [name]) (do_forgotten o) (do_content o) (do_at_end o).
Definition demo_metadata (o : DemoOutside) : FileMetadata :=
  mkMetadata true false (byte_len (do_content o)) 1 2.

#[global] Instance DemoFiles : HostFiles := {|
  host_outside := DemoOutside;
  file_handle := ();
  symlink_metadata := λ _ o, (Ok (demo_metadata o), o);
  open_readonly_nofollow := λ _ o,
    (Ok (), mkOutside (do_log o) (do_forgotten o) (do_content o) false);
  handle_metadata := λ _ o, (Ok (demo_metadata o), o);
  handle_read := λ _ o,
    if do_at_end o then (Ok "", o)
    else (Ok (do_content o), mkOutside (do_log o) (do_forgotten o) (do_content o) true)
|}.

#[global] Instance DemoHost : HostEnv := {|
  env_files := DemoFiles;
  host_linux := ();
  host_platform := Linux;
  host_architecture := "x86_64";
  linux_validate_spec := λ _ _ _, Ok ();
  linux_validate_process := λ _ _ _, Ok ();
  linux_validate_resources := λ _ _ _, Ok ();
  attachments_schema_version := λ _, ATTACHMENT_SCHEMA_V1;
  attachments_extensions := λ _, [];
  descriptor_plan := λ _, Ok ();
  artifact_current := ret demo_artifact;
  filesystem_response_len := λ _, Some 64;
  name_has_control_or_space := λ _, false
|}.

(** ** The driver *)

Definition logged {A} (name : string) (a : A) : prog DemoOutside Error A :=
  λ o, (Ok a, do_call name o).
Definition demo_state (paused : bool) : DriverState := mkDriverState Running (Some 42) paused.
Definition demo_operations : list RuntimeOperation :=
  [OpCreate; OpState; OpStart; OpKill; OpDelete; OpPause; OpProcesses; OpCheckpoint; OpRestore].

Definition DemoDriver : RuntimeDriver DemoOutside () := {|
  drv_capability := mkDriverCapability NativeLinux Available Supported [SharedHostKernel] None ∅;
  drv_linux_support := Ok ();
  drv_operations := demo_operations;
  drv_hooks := [];
  drv_attachment_capabilities := base_v1;
  drv_validate_create_bundle := λ _, Ok ();
  drv_acknowledge_operation := λ o s,
    (Ok (), mkOutside (do_log s) (do_forgotten s ++ [o]) (do_content s) (do_at_end s));
  drv_recover := λ r, logged "recover" (recovery_observed (demo_state (record_is_paused r)));
  drv_prepare_create_bundle := λ r, logged "prepare-create" (dcr_bundle r);
  drv_create := λ _, logged "create" (mkDriverState Created (Some 42) false);
  drv_state := λ _, logged "state" (demo_state false);
  drv_start := λ _, logged "start" (demo_state false);
  drv_kill := λ _, logged "kill" driver_state_stopped;
  drv_delete := λ _, logged "delete" ();
  drv_wait := λ _, unsupported_operation "wait";
  drv_exec := λ _, unsupported_operation "exec";
  drv_signal_process := λ _, unsupported_operation "signal-process";
  drv_wait_process := λ _, unsupported_operation "wait-process";
  drv_pause := λ _, logged "pause" (demo_state true);
  drv_resume := λ _, unsupported_operation "resume";
  drv_processes := λ t, logged "processes"
    [mkProcessRecord (mkProcessTarget t INIT_PROCESS_ID) (Some 42) false];
  drv_update := λ _, unsupported_operation "update";
  drv_stats := λ _, unsupported_operation "stats";
  drv_read_output := λ _, unsupported_operation "read-output";
  drv_write_stdin := λ _, unsupported_operation "write-stdin";
  drv_close_stdin := λ _, unsupported_operation "close-stdin";
  drv_resize := λ _, unsupported_operation "resize";
  drv_file := λ _, unsupported_operation "file";
  drv_filesystem := λ _, unsupported_operation "filesystem";
  drv_checkpoint := λ _, logged "checkpoint"
    (mkDriverCheckpointResult demo_compatibility (digest_of "artifact") 8);
  drv_validate_restore_artifact := λ _, logged "validate-restore" ();
  drv_prepare_restore_bundle := λ r, logged "prepare-restore" (drest_bundle r);
  drv_restore := λ _, logged "restore" (mkDriverState Running (Some 77) true);
  drv_attest := λ _, unsupported_operation "attest"
|}.

Definition demo_outside : DemoOutside := mkOutside [] [] "artifact" false.
Definition fresh_host : HostWorld := mkHostWorld fresh_world demo_outside.

(** ** A history *)

Definition pause_of (o id : string) : ContainerOperationRequest :=
  mkContainerOperationRequest (context o) (target_current id).
Definition demo_history : list HostEvent :=
  [EvOpen [DemoDriver]; EvCall (HostCreate (create_of "op-create" "web"));
   EvCall (HostStart (start_of "op-start" "web")); EvCall (HostPause (pause_of "op-pause" "web"));
   EvCall (HostCheckpoint (checkpoint_of "op-ckpt" None)); EvOpen [DemoDriver];
   EvCall (HostStart (start_of "op-start" "web"))].
Definition demo_run (n : nat) : HostRuntimeService * HostWorld :=
  run_host (take n demo_history) (service_new, fresh_host).

(** The driver acts once for each operation; the retried start reaches only the
    acknowledgement, and the checkpoint is recorded with its verified artifact. *)
Example demo_history_recorded :
  let '(s, hw) := demo_run 7 in
  do_log (hw_outside hw) =
    ["prepare-create"; "create"; "start"; "pause"; "checkpoint"; "recover"] ∧
  do_forgotten (hw_outside hw) =
    ["op-create"; "op-start"; "op-pause"; "op-ckpt"; "op-start"] ∧
  summary "web" (host_disk hw) = Some (Running, Some 42, 1) ∧
  is_ok (run_host_call s (HostProcesses (mkProcessesRequest (target_current "web"))) hw).1 = true.
Proof. vm_compute. split_and!; reflexivity. Qed.

(** ** Witnesses *)

Lemma demo_history_typed : Forall event_well_typed demo_history.
Proof. repeat constructor. Qed.

Lemma host_histories_refine_witness :
  store_inv (host_disk (demo_run 7).2) ∧ audit_event_entries (host_disk (demo_run 7).2) = Ok ().
Proof.
  destruct (host_histories_refine (take 7 demo_history) service_new fresh_host) as
    (_ & Hinv & generations & _ & _ & _ & Hev).
  - repeat constructor.
  - reflexivity.
  - exact (conj Hinv Hev).
Defined.

Lemma fresh_host_inv : store_inv (host_disk fresh_host).
Proof. apply fresh_inv. Qed.

(** The start of the demo, answered and still journaled after the restart. *)
Definition demo_start : HostCall := HostStart (start_of "op-start" "web").
Definition demo_start_reply : option HostReply :=
  match (run_host_call (demo_run 2).1 demo_start (demo_run 2).2).1 with Ok r => Some r | Err _ => None end.
Lemma host_event_call st c :
  host_event st (EvCall c) = (st.1, (run_host_call st.1 c st.2).2).
Proof. by destruct st. Qed.
Lemma demo_run_later :
  demo_run 7 = run_host (drop 3 demo_history) (host_event (demo_run 2) (EvCall demo_start)).
Proof.
  unfold demo_run, run_host.
  replace (take 7 demo_history) with (take 2 demo_history ++ EvCall demo_start :: drop 3 demo_history)%list
    by reflexivity.
  by rewrite foldl_app.
Qed.

(** A start retried after the restart. *)
Definition is_settled (o : string) (d : Disk) : bool :=
  match so_outcome <$> d_operations d !! o with Some Prepared | None => false | Some _ => true end.
Lemma is_settled_ok o d : is_settled o d = true → settled o d.
Proof.
  unfold is_settled, settled. destruct (d_operations d !! o) as [op|]; [|done]. simpl. intros H.
  exists op. split; [done|]. intros Hp. by rewrite Hp in H.
Qed.
Lemma settled_operation_undispatched_witness :
  only_acknowledged (demo_run 6).1 "op-start" (run_host_call (demo_run 6).1 demo_start) (demo_run 6).2.
Proof.
  apply settled_operation_undispatched; [reflexivity|]. apply is_settled_ok. vm_compute. reflexivity.
Defined.

(** The driver of the demo forgets what is acknowledged and nothing else. *)
Definition demo_forgotten (o : string) (out : @host_outside (@env_files DemoHost)) : Prop :=
  o ∈ do_forgotten out.
Lemma demo_remembers : remembers demo_forgotten DemoDriver.
Proof.
  split; try (intros r out x H; exact H).
  intros i out x H. unfold demo_forgotten in *. simpl in H.
  apply elem_of_app in H as [H|H%list_elem_of_singleton]; [by left|by right].
Qed.
Lemma demo_host_remembers : host_remembers demo_forgotten.
Proof.
  split; try (intros out x H; exact H); try (intros p out x H; exact H).
  intros f out x. unfold demo_forgotten. simpl. by destruct (do_at_end out).
Qed.

Lemma demo_history_remembers : Forall (event_remembers demo_forgotten) (take 7 demo_history).
Proof.
  assert (event_remembers demo_forgotten (EvOpen [DemoDriver])) as Ho
    by (apply Forall_singleton; exact demo_remembers).
  unfold demo_history. simpl take. repeat (apply Forall_cons; split; [first [exact Ho|exact I]|]).
  apply Forall_nil_2.
Qed.

Lemma forgotten_operations_settled_witness :
  demo_forgotten "op-ckpt" (hw_outside (demo_run 7).2) ∧ settled "op-ckpt" (host_disk (demo_run 7).2).
Proof.
  assert (demo_forgotten "op-ckpt" (hw_outside (demo_run 7).2)) as Hf.
  { unfold demo_forgotten.
    assert (bool_decide ("op-ckpt" ∈ do_forgotten (hw_outside (demo_run 7).2)) = true) as H
      by (vm_compute; reflexivity). exact (proj1 (bool_decide_eq_true _) H). }
  split; [exact Hf|].
  apply (forgotten_operations_settled demo_forgotten demo_host_remembers (take 7 demo_history)
    service_new fresh_host).
  - repeat constructor.
  - exact demo_history_remembers.
  - intros g H. discriminate H.
  - split; [exact fresh_host_inv|]. intros x Hx. by apply not_elem_of_nil in Hx.
  - exact Hf.
Defined.

Lemma host_processes_inventory_witness :
  ∃ l hw', host_processes (demo_run 4).1 (mkProcessesRequest (target_current "web")) (demo_run 4).2
    = (Ok l, hw') ∧ increasing ((λ p, pt_process_id (pr_target p)) <$> l).
Proof.
  destruct (host_processes (demo_run 4).1 (mkProcessesRequest (target_current "web")) (demo_run 4).2)
    as [[l|e] hw'] eqn:E.
  - destruct (host_processes_inventory _ _ _ _ _ E) as (record & _ & _ & Hinc & _).
    exists l, hw'. exact (conj eq_refl Hinc).
  - exfalso. assert (is_ok (host_processes (demo_run 4).1 (mkProcessesRequest (target_current "web"))
      (demo_run 4).2).1 = true) as H by (vm_compute; reflexivity). by rewrite E in H.
Defined.

(** A process that wrote five bytes and closed a stream, read after two. *)
Definition demo_output : list BufferOp :=
  [OpAppend Stdout [104; 101; 108; 108; 111]; OpFinish Stdout None].
Definition demo_chunks : list OutputChunk :=
  [mkOutputChunk 5 Stdout [108; 108; 111] false; mkOutputChunk 6 Stdout [] true].
Lemma guest_output_accepted_witness : validate_output_chunks demo_chunks 2 64 = Ok ().
Proof.
  apply (guest_output_accepted buffer_error 2 demo_output 2 64 demo_chunks); [lia|lia|].
  vm_compute. reflexivity.
Defined.

(** The artifact of the demo. *)
Lemma verified_artifact_content_witness :
  ∃ file content o3 o4, reads_to_end file o3 content o4 ∧
    digest_of "artifact" = "sha256:" +:+ sha256_hex (ContractEnv := DemoContracts) content.
Proof.
  destruct (verified_artifact_content (CE := DemoContracts) (HF := DemoFiles) "/var/ckpt/web.img" (digest_of "artifact") 8
    "checkpoint" demo_outside
    (verify_checkpoint_artifact (CE := DemoContracts) (HF := DemoFiles) "/var/ckpt/web.img" (digest_of "artifact") 8
       "checkpoint" demo_outside).2)
    as (o1 & o2 & o3 & o4 & m1 & file & m2 & content & _ & _ & _ & _ & _ & _ & Hr & _ & _ & Hd).
  - vm_compute. reflexivity.
  - exists file, content, o3, o4. exact (conj Hr Hd).
Defined.

(** The registry of the demo publishes a catalog that agrees with it. *)
Definition demo_registrations : list DriverRegistration :=
  [mkRegistration DemoDriver (drv_capability DemoDriver)].
Lemma registry_catalog_agrees_witness :
  ∃ g x, registry_new demo_registrations = Ok g ∧
    registry_extensions (CE := DemoContracts) g demo_artifact = Ok x.
Proof.
  destruct (registry_new demo_registrations) as [g|e] eqn:Hg.
  - destruct (registry_catalog_agrees (CE := DemoContracts) demo_registrations g demo_artifact)
      as (x & Hx & _).
    + exact Hg.
    + vm_compute. reflexivity.
    + intros e He. assert (ac_extensions (rd_attachments e) = []) as ->; [|constructor].
      revert e He. rewrite <- Forall_forall.
      assert (∀ r, r = registry_new demo_registrations →
        match r with Ok g => Forall (λ e, ac_extensions (rd_attachments e) = []) (reg_entries g)
                | Err _ => True end) as H by (intros r ->; vm_compute; repeat constructor).
      exact (H _ (eq_sym Hg)).
    + exists g, x. exact (conj eq_refl Hx).
  - exfalso. assert (is_ok (registry_new demo_registrations) = true) as H
      by (vm_compute; reflexivity). by rewrite Hg in H.
Defined.

(** Two callers of one operation, one past the gate. *)
Definition two_callers : Gates :=
  mkGates {["op-start" := 0%nat]}
    (<[2%nat := Waiting "op-start" 0]> {[1%nat := Holding "op-start" 0]}) 1.
Lemma gate_callers_reachable : rtc gate_step no_gates two_callers.
Proof.
  set (g1 := mkGates ∅ {[1%nat := Entering "op-start"]} 0).
  set (g2 := mkGates {["op-start" := 0%nat]} {[1%nat := Waiting "op-start" 0]} 1).
  set (g3 := mkGates {["op-start" := 0%nat]} {[1%nat := Holding "op-start" 0]} 1).
  set (g4 := mkGates {["op-start" := 0%nat]}
               (<[2%nat := Entering "op-start"]> {[1%nat := Holding "op-start" 0]}) 1).
  eapply (rtc_l _ _ g1); [exact (step_enter no_gates 1 "op-start" eq_refl eq_refl)|].
  eapply (rtc_l _ _ g2); [exact (step_find g1 1 "op-start" 0 _ 1 eq_refl eq_refl)|].
  eapply (rtc_l _ _ g3); [exact (step_lock g2 1 "op-start" 0 eq_refl eq_refl)|].
  eapply (rtc_l _ _ g4); [exact (step_enter g3 2 "op-start" eq_refl eq_refl)|].
  eapply (rtc_l _ _ two_callers); [exact (step_find g4 2 "op-start" 0 _ 1 eq_refl eq_refl)|].
  constructor.
Qed.
Lemma operation_gates_exclusive_witness :
  rtc gate_step no_gates two_callers ∧
  ∀ t gate, gt_callers two_callers !! t = Some (Holding "op-start" gate) → t = 1%nat.
Proof.
  split; [exact gate_callers_reachable|]. intros t gate Ht.
  destruct (operation_gates_exclusive two_callers gate_callers_reachable) as [H _].
  exact (H t 1%nat "op-start" gate 0%nat Ht eq_refl).
Defined.
