(* ===== verification/DriverHost.v ===== *)
(** * The utility-VM driver under the host, and the drivers at work

    The driver of [UtilityVm] as an implementation of the driver interface: what
    every history of the host leaves of its registry.  Then a guest agent behind
    a link that loses messages, and a utility-VM driver whose machines are
    numbers, for the witnesses of the theorems on [AgentDriver] and
    [UtilityVm]. *)

From stdpp Require Import base gmap sets strings list relations.
From S2P Require Import Prelude Collections Sdk Identifiers OutputBuffer Wire AgentModel.
From S2P Require Import AgentRecovery AgentSession GuestJournal GuestExecutor GuestService.
From S2P Require Import GuestServiceProps.
From S2P Require Import Lifecycle Fault OciState Contracts Capabilities StoreModel Disk.
From S2P Require Import RestoreContract Journal HostArtifact Observe Driver DriverRegistry.
From S2P Require Import AgentDriver UtilityVm Machine Refine Store.
From S2P Require Import HostService HostContracts HostRefine HostGuarantees HostForget.
From Stdlib Require Import ZArith Lia.
Local Open Scope string_scope.
Local Open Scope Z_scope.

(** ** The driver under the host *)

Section under_host.
Context `{SE : StoreEnv} `{HE : HostEnv} `{UE : UtilityVmEnv} `{SH : !Sha256, AE : !AgentEnv}.
Variables (capability : DriverCapability) (attachment_capabilities : AttachmentCapabilities).
Variable scope : string.
(** [OciLinuxSupport::shared_executor()], and whether a configuration has a
    [vm] object *)
Variables (linux_support : Result host_linux) (has_vm : OciBundle → bool).

(** Where the driver is in the world outside the store. *)
Context (get : host_outside → UtilityVm) (put : UtilityVm → host_outside → host_outside).
Context (get_put : ∀ v o, get (put v o) = v).
Definition zoom {A} (m : prog UtilityVm Error A) : prog host_outside Error A := λ o,
  let '(r, v) := m (get o) in (r, put v o).

(** [impl RuntimeDriver for UtilityVmRuntimeDriver], with the defaults of the
    trait for the rest *)
Definition utility_vm_driver : RuntimeDriver host_outside host_linux := {|
  drv_capability := capability;
  drv_linux_support := linux_support;
  drv_operations := AGENT_DRIVER_OPERATIONS;
  drv_hooks := AGENT_DRIVER_HOOKS;
  drv_attachment_capabilities := attachment_capabilities;
  drv_validate_create_bundle := λ b, reject_if (has_vm b) (state_error Unsupported "create"
    "selected runtime driver does not support caller-provided OCI vm configuration; hypervisor, kernel, image, and hardware configuration remain runtime-owned");
  drv_acknowledge_operation := λ i, zoom (uv_acknowledge_operation i);
  drv_recover := λ r, zoom (uv_recover scope r);
  drv_prepare_create_bundle := λ r, zoom (uv_prepare_create_bundle capability attachment_capabilities r);
  drv_create := λ r, zoom (uv_create capability attachment_capabilities scope r);
  drv_state := λ t, zoom (uv_state scope t);
  drv_start := λ r, zoom (uv_start scope r);
  drv_kill := λ r, zoom (uv_kill scope r);
  drv_delete := λ r, zoom (uv_delete r);
  drv_wait := λ r, zoom (uv_wait r);
  drv_exec := λ r, zoom (uv_exec scope r);
  drv_signal_process := λ r, zoom (uv_signal_process r);
  drv_wait_process := λ r, zoom (uv_wait_process r);
  drv_pause := λ r, zoom (uv_pause scope r);
  drv_resume := λ r, zoom (uv_resume scope r);
  drv_processes := λ t, zoom (uv_processes t);
  drv_update := λ r, zoom (uv_update scope r);
  drv_stats := λ t, zoom (uv_stats scope t);
  drv_read_output := λ r, zoom (uv_read_output r);
  drv_write_stdin := λ r, zoom (uv_write_stdin scope r);
  drv_close_stdin := λ r, zoom (uv_close_stdin r);
  drv_resize := λ r, zoom (uv_resize r);
  drv_file := λ r, zoom (uv_file r);
  drv_filesystem := λ r, zoom (uv_filesystem r);
  drv_checkpoint := λ _, unsupported_operation "checkpoint";
  drv_validate_restore_artifact := λ _, unsupported_operation "restore";
  drv_prepare_restore_bundle := λ r, ret (drest_bundle r);
  drv_restore := λ _, unsupported_operation "restore";
  drv_attest := λ _, unsupported_operation "attest"
|}.

(** The host's own files are apart from the driver. *)
Record apart : Prop := {
  ap_artifact : ∀ o, get (artifact_current o).2 = get o;
  ap_symlink : ∀ p o, get (symlink_metadata p o).2 = get o;
  ap_open : ∀ p o, get (open_readonly_nofollow p o).2 = get o;
  ap_metadata : ∀ f o, get (handle_metadata f o).2 = get o;
  ap_read : ∀ f o, get (handle_read f o).2 = get o
}.
Context (launched running : uve → gset nat).
Context (EO : environment_ok launched running) (AP : apart).

(** [remembers] speaks of what drivers forget; nothing of its proof depends on
    what that is, so it carries the coherence of the registry, too. *)
Definition incoherent (x : string) (o : host_outside) : Prop := ¬ registry_ok launched running None (get o).
Lemma zoom_coherent {A} (m : prog UtilityVm Error A) :
  safe launched running m → keeps_memory incoherent (zoom m).
Proof.
  intros Hm o x Hbad Hok. apply Hbad. unfold zoom. specialize (Hm _ Hok).
  destruct (m (get o)) as [r v]. simpl. by rewrite get_put.
Qed.
Lemma host_apart : host_remembers incoherent.
Proof.
  destruct AP as [H1 H2 H3 H4 H5].
  split; intros; intros o x; unfold incoherent; rewrite ?H1, ?H2, ?H3, ?H4, ?H5; done.
Qed.
Lemma driver_coherent : remembers incoherent utility_vm_driver.
Proof.
  assert (∀ A (m : prog UtilityVm Error A), is_quiet launched running m → keeps_memory incoherent (zoom m))
    as Hq by (intros; by apply zoom_coherent, safe_quiet).
  assert (∀ A (r : Result A), is_quiet launched running (lift r)) as Hl by (intros; by apply quiet_still).
  split; intros; try (apply Hq, on_live_quiet); try (intros o x H; exact H).
  - left. eapply (Hq _ (uv_acknowledge_operation i)); [by apply acknowledge_quiet|done].
  - by apply zoom_coherent, recover_safe.
  - by apply Hq, prepare_quiet.
  - by apply zoom_coherent, create_safe.
  - apply Hq, with_attachment_quiet; intros; [apply quiet_on_guest|apply (Hl _ (Ok _))].
  - apply Hq, with_attachment_quiet; intros; [apply quiet_on_guest|apply (Hl _ (Ok _))].
  - by apply zoom_coherent, delete_safe.
  - apply Hq, with_attachment_quiet; intros; [apply quiet_on_guest|apply Hl].
  - apply Hq, with_attachment_quiet; intros; [apply quiet_on_guest|apply (Hl _ (Ok _))].
Qed.

(** Coherence is a statement about finite maps: what is not refutable holds. *)
Lemma registry_ok_stable v : ¬ ¬ registry_ok launched running None v → registry_ok launched running None v.
Proof.
  intros Hn.
  assert (∀ P, Decision P → (registry_ok launched running None v → P) → P) as Hd.
  { intros P HP Himp. apply dec_stable. intros HnP. apply Hn. auto. }
  split.
  - intros id a Ha. apply Hd; [apply _|]. intros Hv. by apply (ro_key _ _ _ _ Hv).
  - intros id c Hc Hs. split.
    + intros id' c' Hc' Hg. apply Hd; [apply _|]. intros Hv.
      by apply (proj1 (ro_dedicated _ _ _ _ Hv id c Hc Hs)) with c'.
    + intros sid s Hss Hg. apply Hn. intros Hv. by eapply (ro_dedicated _ _ _ _ Hv id c Hc Hs).
  - intros id c b Hc Hb. destruct (uv_reusable v !! gs_id b) as [s|] eqn:Hs.
    + exists s. split; [done|]. apply Hd; [apply _|]. intros Hv.
      destruct (ro_member _ _ _ _ Hv id c b Hc Hb) as (s' & Hs' & H). congruence.
    + exfalso. apply Hn. intros Hv. destruct (ro_member _ _ _ _ Hv id c b Hc Hb) as (s' & Hs' & H). congruence.
  - intros sid s Hs. split; [|split].
    + apply Hd; [apply _|]. intros Hv. by apply (ro_session _ _ _ _ Hv).
    + apply Hd; [apply _|]. intros Hv. by apply (ro_session _ _ _ _ Hv _ _ Hs).
    + intros id Hid. destruct (uv_attachments v !! id) as [[c|]|] eqn:Hc.
      * exists c. split; [done|]. apply Hd; [apply _|]. intros Hv.
        destruct (proj2 (proj2 (ro_session _ _ _ _ Hv _ _ Hs)) id Hid) as (c' & Hc' & H). congruence.
      * exfalso. apply Hn. intros Hv.
        destruct (proj2 (proj2 (ro_session _ _ _ _ Hv _ _ Hs)) id Hid) as (c' & Hc' & H). congruence.
      * exfalso. apply Hn. intros Hv.
        destruct (proj2 (proj2 (ro_session _ _ _ _ Hv _ _ Hs)) id Hid) as (c' & Hc' & H). congruence.
  - intros sid s sid' s' Hs Hs' Hg. apply Hd; [apply _|]. intros Hv. by eapply (ro_sessions _ _ _ _ Hv).
  - intros g Hg. apply Hd; [apply _|]. intros Hv. by apply (ro_guest _ _ _ _ Hv).
  - intros g Hg. apply Hd; [apply _|]. intros Hv. by apply (ro_fresh _ _ _ _ Hv).
  - intros g g' o Ho Ho'. apply Hd; [apply _|]. intros Hv. by eapply (ro_owner _ _ _ _ Hv).
  - intros g o Ho. apply Hd; [apply _|]. intros Hv. by eapply (ro_launched _ _ _ _ Hv).
  - intros g. done.
  - intros o Ho.
    destruct (decide (Exists (λ g, owner_of v g = Some o) (live_guests v))) as [He|He].
    + apply Exists_exists in He as (g & Hg%elem_of_live_guests & Hgo). eauto.
    + exfalso. apply Hn. intros Hv. destruct (ro_running _ _ _ _ Hv o Ho) as (g & Hgo & [Hg|?]); [|done].
      apply He, Exists_exists. exists g. by rewrite elem_of_live_guests.
Qed.

(** Opening the host with the utility-VM driver. *)
Definition event_uses_driver (e : HostEvent) : Prop :=
  match e with
  | EvOpen drivers => Forall (λ d, d = utility_vm_driver) drivers
  | EvOpenNative driver _ _ => driver = utility_vm_driver
  | EvCall _ => True
  end.
Lemma event_uses_driver_coherent e : event_uses_driver e → event_remembers incoherent e.
Proof.
  destruct e as [drivers|driver id d|c]; simpl; [|by intros ->; apply driver_coherent|done].
  intros H. eapply Forall_impl; [exact H|]. intros d ->. apply driver_coherent.
Qed.
Lemma unsettled_operation d : ∃ o, ¬ settled o d.
Proof.
  exists (fresh (dom (d_operations d))). intros (op & Hop & _).
  apply (is_fresh (dom (d_operations d))). by apply elem_of_dom_2 with op.
Qed.
Lemma run_host_coherent es st :
  Forall event_well_typed es → Forall event_uses_driver es → service_remembers incoherent st.1 →
  remembered incoherent st.2 → remembered incoherent (run_host es st).2.
Proof.
  intros Hw. revert st. induction Hw as [|e es He Hw IH]; intros st Hd Hs Hr; [done|].
  inversion Hd; subst.
  destruct (host_event_keeps incoherent host_apart st e) as [? ?];
    [done|by apply event_uses_driver_coherent|done|done|]. by apply IH.
Qed.

End under_host.

From S2P Require Import GuestExample Scenario HostScenario.

(** ** A write of five mebibytes *)

Module StdinExample.
Import GuestExample RecoveryExample.
Existing Instances GuestExample.env one_child canonical digest digest_laws.

Definition five_mebibytes : nat := Z.to_nat (5 * 1024 * 1024).
Lemma five_Z : Z.of_nat five_mebibytes = 5 * 1024 * 1024.
Proof. by apply Z2Nat.id. Qed.
#[global] Opaque five_mebibytes.
Definition zeros : string := String.string_of_list_ascii (repeat Ascii.zero five_mebibytes).
Definition write : DriverWriteStdinRequest :=
  mkDriverWriteStdinRequest (mkOperationContext "write" None) (mkProcessTarget (box 1) "init") zeros.

Lemma zeros_length : length (string_bytes zeros) = five_mebibytes.
Proof.
  unfold string_bytes, zeros.
  by rewrite length_fmap, String.list_ascii_of_string_of_list_ascii, repeat_length.
Qed.
Lemma two_chunks : div_ceil five_mebibytes chunk_bytes = 2%nat.
Proof.
  pose proof chunk_bytes_Z as Hc. unfold AGENT_MAX_IO_PAYLOAD_BYTES in Hc.
  pose proof five_Z as Hf.
  assert (five_mebibytes / chunk_bytes = 1)%nat as Hd
    by (symmetry; apply (Nat.div_unique _ _ _ (five_mebibytes - chunk_bytes)); lia).
  assert (five_mebibytes mod chunk_bytes = five_mebibytes - chunk_bytes)%nat as Hm
    by (symmetry; apply (Nat.mod_unique _ _ 1); lia).
  unfold div_ceil. rewrite Hd, Hm.
  rewrite (proj2 (Nat.ltb_lt 0 (five_mebibytes - chunk_bytes)) ltac:(lia)). reflexivity.
Qed.
Lemma request_ids :
  request_id <$> stdin_requests write = [chunk_operation_id "write" 0; chunk_operation_id "write" 1].
Proof.
  unfold stdin_requests. cbn [write dwsr_data dwsr_context dwsr_target].
  assert (string_bytes zeros ≠ []) as Hne.
  { intros H. pose proof zeros_length as Hl. rewrite H in Hl. simpl in Hl.
    pose proof five_Z. lia. }
  rewrite bool_decide_eq_false_2 by done. rewrite zeros_length, two_chunks.
  destruct (chunks_spec chunk_bytes (string_bytes zeros) chunk_bytes_pos) as (_ & _ & Hl).
  rewrite zeros_length, two_chunks in Hl. rewrite chunk_contexts_ok by done.
  destruct (chunks chunk_bytes (string_bytes zeros)) as [|c1 [|c2 [|]]]; try done.
Qed.

(** The first attempt loses the answer to its first chunk, then the host is
    restarted; the second loses its second request; the third gets through. *)
Definition attempts : list (bool * list Fate) :=
  [(false, [ResponseLost lost]); (true, [Through; RequestLost lost]); (false, [])].

Definition outcome : list (Result ()) * AgentDriverClient (LinuxExecutor * list Fate) :=
  write_attempts capabilities 0 [] lost "utility VM" write attempts (mkAgentClient ∅ (started, [])).

Lemma stdin_exactly_once_witness :
  length (stdin_requests write) = 2%nat ∧
  concat (aws_data <$> stdin_requests write) = string_bytes zeros ∧
  ∃ n, (n ≤ 2)%nat ∧ executor_at (ac_service outcome.2).1 =
    (write_in_order (take n (stdin_requests write)) (executor_at started)).2.
Proof.
  assert (length (stdin_requests write) = 2%nat) as Hlen
    by (rewrite <- (length_fmap request_id); by rewrite request_ids).
  split; [exact Hlen|].
  pose proof (stdin_exactly_once capabilities 0 [] lost "utility VM" write attempts ∅ started) as H.
  assert (Z.of_nat (String.length (dwsr_data write)) ≤ u64_max) as H1.
  { rewrite <- string_bytes_length. cbn [write dwsr_data]. rewrite zeros_length, five_Z.
    unfold u64_max. lia. }
  assert (collision_free (oc_operation_id (dwsr_context write)) (length (stdin_requests write))) as H2.
  { rewrite Hlen. intros i j Hi Hj. destruct i as [|[|]], j as [|[|]]; try lia;
      [intros _; reflexivity|vm_compute; discriminate|vm_compute; discriminate|intros _; reflexivity]. }
  assert (Forall (unseen started) (request_id <$> stdin_requests write)) as H3
    by (rewrite request_ids; repeat constructor; vm_compute; reflexivity).
  specialize (H H1 H2 H3). cbv zeta in H. rewrite Hlen in H. unfold outcome.
  destruct (write_attempts capabilities 0 [] lost "utility VM" write attempts _) as [answers c].
  destruct H as (Hdata & _ & Hprefix & _). split; [exact Hdata|exact Hprefix].
Defined.
End StdinExample.

(** ** Two machines and three containers *)

Module UtilityVmExample.
(** The contract ["pool"] names a session with room for two containers. *)
Definition pool : GuestSessionAttachment := guest_session_new "pool" 1 "tenant" 2 DestroyOnEmpty.
#[local] Instance PoolEnv : StoreEnv := {|
  env_faults := CountdownFaults;
  env_contracts := DemoContracts;
  encoded_len := encoded_len (StoreEnv := DemoEnv);
  json_to_vec := json_to_vec (StoreEnv := DemoEnv);
  canonical_json_bytes := canonical_json_bytes (StoreEnv := DemoEnv);
  schema_validate_state := schema_validate_state (StoreEnv := DemoEnv);
  Disk.bundle_from_json := Disk.bundle_from_json (StoreEnv := DemoEnv);
  attachments_validate := attachments_validate (StoreEnv := DemoEnv);
  attachments_validate_isolation := attachments_validate_isolation (StoreEnv := DemoEnv);
  attachments_guest_session := λ a, if bool_decide (att_encoding a = "pool") then Some pool else None;
  attachments_network_enforcement := attachments_network_enforcement (StoreEnv := DemoEnv);
  attachments_digest := attachments_digest (StoreEnv := DemoEnv);
  bundle_validate_create := bundle_validate_create (StoreEnv := DemoEnv);
  attachments_process_io := attachments_process_io (StoreEnv := DemoEnv);
  semantic_validate_process := semantic_validate_process (StoreEnv := DemoEnv);
  semantic_validate_resources := semantic_validate_resources (StoreEnv := DemoEnv);
  attachments_tee_launch := attachments_tee_launch (StoreEnv := DemoEnv)
|}.
Existing Instances GuestExample.env RecoveryExample.digest.

(** A guest that creates and deletes what it is asked to. *)
Definition refused {A} : prog (list string) Error A := fail (executor_error Unsupported "example").
#[local] Instance mute_guest : GuestAgentService (list string) := {|
  svc_capabilities := GuestExample.capabilities;
  svc_acknowledge_operations _ := ret ();
  svc_create r s := (Ok (mkAgentState (acr_target r) Created (Some 100) (ab_config_digest (acr_bundle r)) false),
                     ct_id (acr_target r) :: s);
  svc_state _ := refused; svc_start _ := refused; svc_kill _ := refused;
  svc_delete r s := (Ok (), filter (λ id, id ≠ ct_id (adr_target r)) s);
  svc_wait _ := refused; svc_exec _ := refused; svc_signal_process _ := refused;
  svc_wait_process _ := refused; svc_pause _ := refused; svc_resume _ := refused;
  svc_processes _ := refused; svc_update _ := refused; svc_stats _ := refused;
  svc_read_output _ := refused; svc_write_stdin _ := refused; svc_close_stdin _ := refused;
  svc_resize _ := refused; svc_file _ := refused; svc_filesystem _ := refused
|}.

(** The machines launched so far, and those that run. *)
Record Yard : Type := mkYard { y_next : nat; y_running : gset nat }.
Definition y_launched (y : Yard) : gset nat := set_seq 0 (y_next y).
Definition nothing {A} (a : A) : prog Yard Error A := ret a.
#[local] Instance yard : UtilityVmEnv := {|
  uve := Yard;
  uve_service := list string;
  uve_guest := mute_guest;
  handoff_prepare r := nothing (dcr_bundle r);
  handoff_guest_bundle_path t _ _ :=
    nothing (mkGuestPath (AGENT_RUNTIME_SHARE_GUEST_ROOT +:+ "/" +:+ ct_id t));
  handoff_mount_root _ _ := nothing "/share";
  handoff_cleanup _ _ _ := nothing ();
  handoff_cleanup_empty_session _ := nothing ();
  recovery_recover _ _ _ := nothing recovery_none;
  recovery_remove _ _ := nothing ();
  recovery_remove_session _ := nothing ();
  session_identity_root _ := nothing None;
  factory_launch _ _ _ _ _ y :=
    (Ok ([], y_next y), mkYard (S (y_next y)) ({[y_next y]} ∪ y_running y));
  owner_shutdown o y := (Ok (), mkYard (y_next y) (y_running y ∖ {[o]}));
  try_reattach_live _ _ _ := nothing None
|}.

(** The host around it has no files of its own. *)
#[local] Instance YardFiles : HostFiles := {|
  host_outside := UtilityVm (UE := yard);
  file_handle := ();
  symlink_metadata := λ _ v, (Err IoOther, v);
  open_readonly_nofollow := λ _ v, (Err IoOther, v);
  handle_metadata := λ _ v, (Err IoOther, v);
  handle_read := λ _ v, (Err IoOther, v)
|}.
#[local] Instance HandoffHost : HostEnv := {|
  env_files := YardFiles;
  host_linux := ();
  host_platform := Linux;
  host_architecture := "x86_64";
  linux_validate_spec := λ _ _ _, Ok ();
  linux_validate_process := λ _ _ _, Ok ();
  linux_validate_resources := λ _ _ _, Ok ();
  attachments_schema_version := λ _, ATTACHMENT_SCHEMA_V1;
  attachments_extensions := λ _,
    [mkRuntimeExtension RUNTIME_BUNDLE_HANDOFF_EXTENSION RUNTIME_BUNDLE_HANDOFF_EXTENSION_VERSION true];
  descriptor_plan := λ _, Ok ();
  artifact_current := ret demo_artifact;
  filesystem_response_len := λ _, Some 64;
  name_has_control_or_space := λ _, false
|}.
Lemma yard_ok : environment_ok y_launched y_running.
Proof.
  split; try done.
  - intros target share bundle path contract y. cbn [factory_launch yard]. unfold y_launched. cbn [y_next y_running].
    split_and!; [|by rewrite set_seq_S_end_union_L|done]. intros [_ H]%elem_of_set_seq. lia.
  - intros o y. simpl. split; [done|set_solver].
  - intros o y y' [= <-]. simpl. set_solver.
  - intros contract binding. simpl. case_bool_decide; [|done]. by intros [= <-].
Qed.

Definition kvm_capability : DriverCapability :=
  mkDriverCapability LibkrunKvm Available Supported [DedicatedVm; SharedGuestKernel] None ∅.
Definition kvm_attachments : AttachmentCapabilities :=
  Capabilities.mkCapabilities [ATTACHMENT_SCHEMA_V1] [(RUNTIME_BUNDLE_HANDOFF_EXTENSION, [1])].
Definition create_in (contract id : string) : UvCall :=
  UvCreate (mkDriverCreateRequest (context ("create-" +:+ id)) (target_exact id 1)
    (mkOciBundle ("/share/" +:+ id) "{}" (digest_of id) "1.0.2" None None)
    (if bool_decide (contract = "pool") then RequestSharedGuestKernel "tenant" else RequestDedicatedVm)
    GuestExample.null_io (mkAttachments contract) None AttachNone).
Definition delete_one (id : string) : UvCall :=
  UvDelete (mkDriverDeleteRequest (context ("delete-" +:+ id)) (target_exact id 1) Force).

Abbreviation history := (uv_history kvm_capability kvm_attachments "example").
Definition fresh_vm : UtilityVm := uv_fresh (UE := yard) (mkYard 0 ∅).
(** One container alone, two in the pool, a third that finds no room. *)
Definition calls : list UvCall :=
  [create_in "own" "a"; create_in "pool" "b"; create_in "pool" "c"; create_in "pool" "d"; delete_one "b"].
(** Who runs where. *)
Definition who (v : UtilityVm) : list (string * option nat) :=
  prod_map id (λ a, match a with Live c => Some (ctn_guest c) | RecoveredStopped _ _ _ => None end)
    <$> map_to_list (uv_attachments v).
Definition everyone (calls : list UvCall) : list (string * option nat) * list nat :=
  let v := history calls fresh_vm in (who v, elements (y_running (uv_env v))).



(** The same driver under a host: two containers are created in the pool and
    one on its own, and the host is opened again. *)
Definition driver : RuntimeDriver (host_outside (HostFiles := YardFiles)) () :=
  utility_vm_driver kvm_capability kvm_attachments "example" (Ok ()) (λ _, false) id (λ v _, v).
Definition host_create_in (contract id : string) : HostEvent :=
  EvCall (HostCreate (mkCreateRequest (context ("create-" +:+ id)) id
    (mkOciBundle ("/share/" +:+ id) "{}" (digest_of "{}") "1.0.2" None None)
    (if bool_decide (contract = "pool") then RequestSharedGuestKernel "tenant" else RequestDedicatedVm)
    (mkAttachments contract))).
Definition host_calls : list HostEvent :=
  [EvOpen [driver]; host_create_in "own" "a"; host_create_in "pool" "b"; host_create_in "pool" "c"; EvOpen [driver];
   host_create_in "pool" "d"].
Definition host_world : HostWorld (SE := PoolEnv) :=
  mkHostWorld (mkWorld PoolEnv empty_disk None (λ n, 1000 + Z.of_nat n) 0) fresh_vm.
Definition hosted (n : nat) : UtilityVm := hw_outside (run_host (take n host_calls) (service_new, host_world)).2.

End UtilityVmExample.
