(* ===== verification/Recovery.v ===== *)
(** * Reconciliation with the driver

    After a successful observation the durable record says what the driver
    said; after a successful exec recovery the durable processes are the
    observed ones. *)

From stdpp Require Import base gmap strings list.
From S2P Require Import Prelude Sdk Identifiers Lifecycle Fault OciState Contracts StoreModel Disk.
From S2P Require Import RestoreContract Journal.
From S2P Require Import Events Claims Create Start Kill Freezer Update ProcessStore ProcessIoStore.
From S2P Require Import FileStore CheckpointStore RestoreStore AttestationStore Delete Observe.
From S2P Require Import StartupAudit Machine Refine RefineOps RefineProcess RefineContracts Store.
From S2P Require Import AuditCorrect Scenario Replay OperationProps.
Local Open Scope string_scope.
Local Open Scope Z_scope.

(** The paused annotation that [rebuild_paused_state] sets. *)
Lemma rebuild_paused_is_paused state paused s :
  rebuild_paused_state state paused = Ok s → is_paused s = paused.
Proof.
  unfold rebuild_paused_state. intros H. inv_ok. rewrite is_paused_keep. destruct paused.
  - rewrite lookup_insert_eq. by apply bool_decide_eq_true_2.
  - rewrite lookup_delete_eq. by apply bool_decide_eq_false_2.
Qed.

(** A state that agrees with what the driver reported. *)
Record agrees (durable : ContainerState) (status : ContainerState) (pid : option Z) (paused : bool)
    (s : OciState) : Prop := {
  ag_status : st_status s = status;
  ag_pid : status ≠ Stopped → st_pid s = pid;
  ag_paused : durable = status → status ≠ Stopped → is_paused s = paused;
  ag_frozen : paused = true → status = Running → is_paused s = true
}.

Section observation.
Context `{SE : StoreEnv}.
Implicit Types w : World.

Lemma observe_transition_agrees c active status pid paused recreated c' changed :
  observe_transition c active status pid paused recreated = Ok (c', changed) →
  agrees (st_status (cr_state (sc_record c))) status pid paused (cr_state (sc_record c')).
Proof.
  unfold observe_transition, transition_or.
  destruct (st_status (cr_state (sc_record c))) eqn:Hst, status;
    cbn -[rebuild_state rebuild_paused_state]; try done; intros H.
  all: try (inv_ok; constructor; try done; try (by intros _ []);
    match goal with H : rebuild_state _ _ _ = Ok _ |- _ => by apply rebuild_state_inv in H as (? & _) end).
  2: { destruct active as [op|]; [|done]. case_bool_decide; [|done]. inv_ok.
    match goal with H : rebuild_state _ _ _ = Ok _ |- _ =>
      apply rebuild_state_inv in H as (Hs & Hp & _) end.
    destruct paused; inv_ok; [|by constructor].
    match goal with H : rebuild_paused_state _ _ = Ok _ |- _ =>
      pose proof (rebuild_paused_is_paused _ _ _ H);
      apply rebuild_paused_state_inv in H as (? & ? & Hp' & _) end.
    constructor; simpl; try done. intros _. congruence. }
  all: apply rbind_ok in H as ([c1 ch] & H1 & H2);
    assert (st_pid (cr_state (sc_record c1)) = pid ∧
            st_status (cr_state (sc_record c1)) = st_status (cr_state (sc_record c))) as [Hp Hs]
    by (case_bool_decide; [by inv_ok|]; revert H1;
        match goal with |- context [if ?b then _ else _] => destruct b; [|done] end;
        intros; inv_ok; simpl;
        match goal with H : rebuild_state _ _ _ = Ok _ |- _ =>
          apply rebuild_state_inv in H as (Hs & Hp & _) end; simpl; rewrite Hs, Hp, ?Hst; done).
  all: simpl in H2; destruct (eqb _ _) eqn:Heq; inv_ok;
    [apply eqb_prop in Heq; constructor; congruence|].
  all: match goal with H : rebuild_paused_state _ _ = Ok _ |- _ =>
      pose proof (rebuild_paused_is_paused _ _ _ H);
      apply rebuild_paused_state_inv in H as (? & ? & Hp' & _) end;
    constructor; simpl; try done; congruence.
Qed.

Lemma observed_event_core op target w u w' :
  observed_event op target w = (Ok u, w') → same_core (w_disk w) (w_disk w').
Proof.
  unfold observed_event. cbv zeta. intros H.
  destruct (so_kind op); try (by apply ret_inv in H as [_ ->]);
    apply bind_inv in H as (e & w1 & He & H); apply ret_inv in H as [_ ->];
    eauto using append_container_event_core, append_event_core.
Qed.

(** observations reconcile.  When the store accepted what the driver
    reported of a container, the returned record is the live record; its
    status is the reported one; unless stopped, its PID is the reported one;
    and the freezer state agrees with the report whenever the container did
    not change status, or was reported frozen. *)
Theorem observation_reconciles target status pid paused recreated w r w' :
  observe_state_inner target status pid paused recreated w = (Ok r, w') →
  ∃ c c', live_record (ct_id target) (w_disk w) = Some c ∧
    live_record (ct_id target) (w_disk w') = Some c' ∧ sc_record c' = r ∧
    agrees (st_status (cr_state (sc_record c))) status pid paused (cr_state r).
Proof.
  unfold observe_state_inner. cbv zeta. intros H.
  apply bind_inv in H as (u0 & w0 & [_ ->]%lift_inv & H).
  apply bind_inv in H as (c & w0 & [Hl ->]%read_inv & H).
  apply load_stored_container_ok in Hl as (Hlive & Hid & _).
  apply bind_inv in H as (u1 & w0 & [_ ->]%lift_inv & H).
  apply bind_inv in H as (active & w0 & [_ ->]%read_inv & H).
  apply bind_inv in H as (u2 & w0 & [_ ->]%lift_inv & H).
  apply bind_inv in H as (u3 & w0 & [_ ->]%lift_inv & H).
  apply bind_inv in H as ([c1 ch] & w0 & [Ht ->]%lift_inv & H).
  pose proof (observe_transition_agrees _ _ _ _ _ _ _ _ Ht) as Hag.
  apply observe_transition_step in Ht as (_ & Hch & _).
  match type of H with context [match active with Some o => @?f o | None => None end] =>
    set (completed := match active with Some o => f o | None => None end) in H end.
  apply bind_inv in H as ([c2 ch2] & w0 & Hmid & H).
  assert (w0 = w ∧ sc_record c2 = sc_record c1 ∧ (ch2 = false → c2 = c)) as (-> & Hrec & Hsame).
  { destruct completed; apply ret_inv in Hmid as [[= -> ->] ->]; done. }
  apply bind_inv in H as (u4 & w1 & Hw & H).
  assert (live_record (ct_id target) (w_disk w1) = Some c2) as Hl1.
  { destruct ch2; [|by apply ret_inv in Hw as [_ ->]; rewrite Hsame].
    destruct u4. apply write_json_ok in Hw as [_ ->]. cbn [open_transaction].
    rewrite live_record_put, decide_True by done.
    by apply live_record_some in Hlive as (dir & -> & _). }
  apply bind_inv in H as (u5 & w2 & Hev & H).
  assert (same_core (w_disk w1) (w_disk w2)) as H12.
  { destruct completed; [by eapply observed_event_core|by apply ret_inv in Hev as [_ ->]]. }
  apply bind_inv in H as (u6 & w3 & Hst & H).
  assert (same_core (w_disk w2) (w_disk w3)) as H23.
  { destruct (bool_decide _ && _); [|by apply ret_inv in Hst as [_ ->]].
    apply bind_inv in Hst as (e & w4 & He & Hst). apply ret_inv in Hst as [_ ->].
    by eapply append_container_event_core. }
  apply bind_inv in H as (u7 & w4 & Hfin & H). apply ret_inv in H as [-> ->].
  exists c, c2. rewrite Hrec. split_and!; try done.
  assert (d_containers (w_disk w4) = d_containers (w_disk w3)) as H34.
  { destruct completed; [|by apply ret_inv in Hfin as [_ ->]].
    apply bind_inv in Hfin as (out & w5 & [_ ->]%lift_inv & Hfin). destruct u7.
    by apply write_json_ok in Hfin as [_ ->]. }
  unfold live_record in *. by rewrite H34, (sco_containers _ _ H23), (sco_containers _ _ H12).
Qed.
End observation.

Lemma observation_reconciles_witness :
  ∃ r, (observe_state_inner (target_current "web") Stopped None false RecreatedNone started_world).1
         = Ok r ∧ st_status (cr_state r) = Stopped.
Proof.
  destruct (observe_state_inner (target_current "web") Stopped None false RecreatedNone started_world)
    as [[r|e] w'] eqn:H;
    [|exfalso; apply (f_equal (λ x, is_ok x.1)) in H; vm_compute in H; discriminate H].
  destruct (observation_reconciles _ _ _ _ _ _ _ _ H) as (c & c' & _ & _ & _ & Hag).
  exists r. split; [reflexivity|exact (ag_status _ _ _ _ _ Hag)].
Defined.

(** ** Exec processes *)

Section exec_recovery.
Context `{SE : StoreEnv}.
Implicit Types w : World.

(** The durable record of a process of the container. *)
Abbreviation record_of container i d := (process_record (exact_process_target container i) d).

(** A record that carries the observed identity. *)
Definition rebound (r : ProcessRecord) (p : option StoredProcess) : Prop :=
  ∃ sp, p = Some sp ∧ pr_pid (sp_record sp) = pr_pid r ∧ pr_terminal (sp_record sp) = pr_terminal r.

Lemma rebind_processes_ok container l m w w' :
  rebind_processes m l w = (Ok (), w') → NoDup l.*1 →
  (∀ i p, m !! i = Some p → record_of container i (w_disk w) = Some p ∧
     pr_target (sp_record p) = exact_process_target container i) →
  (∀ i r, (i, r) ∈ l → rebound r (record_of container i (w_disk w'))) ∧
  (∀ i, i ∉ l.*1 → record_of container i (w_disk w') = record_of container i (w_disk w)).
Proof.
  revert m w. induction l as [|[i r] l IH]; intros m w H Hnd Hm; simpl in H.
  { apply ret_inv in H as [_ ->]. split; [by intros ? ? ?%elem_of_nil|done]. }
  apply bind_inv in H as (p & w0 & [Hp%ok_or_ok ->]%lift_inv & H).
  apply bind_inv in H as (u & w0 & [Ht%reject_if_ok ->]%lift_inv & H).
  apply negb_false_iff, eqb_prop in Ht.
  apply bind_inv in H as (u' & w1 & Hw & H). apply NoDup_cons in Hnd as [Hi Hnd].
  destruct (Hm i p Hp) as [Hrec Htarget].
  assert (rebound r (record_of container i (w_disk w1)) ∧
    ∀ j, j ≠ i → record_of container j (w_disk w1) = record_of container j (w_disk w)) as [Hreb Hframe].
  { case_bool_decide as Hpid.
    - apply ret_inv in Hw as [_ ->]. split; [|done]. exists p. done.
    - destruct u'. apply write_json_ok in Hw as [Hpar Hw]. cbn [set_sp_pid sp_record pr_target] in Hw, Hpar.
      rewrite Htarget in Hw, Hpar. split.
      + eexists. split; [rewrite Hw; by apply (process_record_put (exact_process_target container i))|].
        done.
      + intros j Hj. rewrite Hw. by apply (process_record_put_ne (exact_process_target container i)). }
  destruct (IH _ _ H Hnd) as [Hall Hrest].
  { intros j q [Hne Hj]%lookup_delete_Some. destruct (Hm j q Hj) as [? ?].
    split; [by rewrite Hframe|done]. }
  split.
  - intros j r' [[= -> ->]|Hin]%elem_of_cons; [by rewrite Hrest|by apply Hall].
  - intros j [Hj Hj']%not_elem_of_cons. by rewrite Hrest, Hframe.
Qed.

(** The observed processes by ID. *)
Lemma observe_processes_ok target init_pid observed m pids :
  rfold (observe_process target init_pid) (∅, ∅) observed = Ok (m, pids) →
  (∀ r, r ∈ observed → m !! pt_process_id (pr_target r) = Some r ∧ pt_container (pr_target r) = target) ∧
  (∀ i r, m !! i = Some r → r ∈ observed ∧ pt_process_id (pr_target r) = i).
Proof.
  intros H. refine (rfold_invariant _ (λ pre acc, (∀ r, r ∈ pre →
    acc.1 !! pt_process_id (pr_target r) = Some r ∧ pt_container (pr_target r) = target) ∧
    (∀ i r, acc.1 !! i = Some r → r ∈ pre ∧ pt_process_id (pr_target r) = i)) _ _ _ _ _ H).
  { split; [by intros r ?%elem_of_nil|]. simpl. intros ? ?. by rewrite lookup_empty. }
  intros pre x post [m1 s1] [m2 s2] _ [Hpre Hconv] Hstep. unfold observe_process in Hstep.
  apply rbind_ok in Hstep as (u & H1%reject_if_ok & Hstep).
  apply rbind_ok in Hstep as (pid & _ & Hstep).
  apply rbind_ok in Hstep as (u2 & H2%reject_if_ok & Hstep). injection Hstep as <- <-.
  repeat match goal with H : _ || _ = false |- _ => apply orb_false_iff in H as [? ?] end.
  match goal with H : bool_decide (_ ≠ _) = false |- _ => apply bool_decide_eq_false, dec_stable in H end.
  match goal with H : bool_decide (is_Some _) = false |- _ =>
    apply bool_decide_eq_false, eq_None_not_Some in H; rename H into Hfresh end.
  split.
  - intros r [Hr| ->%list_elem_of_singleton]%elem_of_app; simpl; [|by rewrite lookup_insert_eq].
    destruct (Hpre r Hr) as [Hm1 ?]. rewrite lookup_insert_ne; [done|]. simpl in Hm1. congruence.
  - simpl. intros i r. rewrite lookup_insert_Some, elem_of_app, list_elem_of_singleton.
    intros [[<- <-]|[_ Hi]]; [auto|]. apply Hconv in Hi as [? ?]. auto.
Qed.

(** exec recovery rebinds exactly what was observed.  When the processes
    that a replacement driver reports for a running container were accepted,
    the durable record of each of them carries the reported PID and terminal
    mode, and the record of every process that was not reported is unchanged. *)
Theorem exec_recovery_rebinds target observed w w' :
  observe_recreated_exec_processes target observed w = (Ok (), w') →
  (∀ r, r ∈ observed → rebound r (process_record (pr_target r) (w_disk w'))) ∧
  (∀ i, (∀ r, r ∈ observed → pt_process_id (pr_target r) ≠ i) →
     process_record (mkProcessTarget target i) (w_disk w')
       = process_record (mkProcessTarget target i) (w_disk w)).
Proof.
  unfold observe_recreated_exec_processes. intros H.
  apply bind_inv in H as (g & w0 & [Hg%ok_or_ok ->]%lift_inv & H).
  apply bind_inv in H as (c & w0 & [Hc ->]%read_inv & H).
  apply load_stored_exact_ok in Hc as (_ & Hid & Hgen & _).
  apply bind_inv in H as (u & w0 & [_ ->]%lift_inv & H).
  apply bind_inv in H as (ipid & w0 & [_ ->]%lift_inv & H).
  apply bind_inv in H as ([m pids] & w0 & [Hobs ->]%lift_inv & H).
  apply bind_inv in H as (durable & w0 & [Hdur ->]%read_inv & H).
  apply bind_inv in H as (u2 & w0 & [_ ->]%lift_inv & H).
  assert (∀ i, mkProcessTarget target i = exact_process_target c i) as Hexact.
  { intros i. unfold exact_process_target, target_exact. rewrite Hid, Hgen. destruct target.
    simpl in *. by rewrite Hg. }
  apply (rebind_processes_ok c) in H as [Hall Hrest].
  - pose proof (observe_processes_ok _ _ _ _ _ Hobs) as [Hin Hconv]. split.
    + intros r Hr. destruct (Hin r Hr) as [Hm Ht].
      specialize (Hall (pt_process_id (pr_target r)) r). rewrite elem_of_map_to_list in Hall.
      specialize (Hall Hm). rewrite <- Hexact, <- Ht in Hall. by destruct (pr_target r).
    + intros i Hi. rewrite Hexact. apply Hrest. intros ([j r] & -> & Hj)%list_elem_of_fmap.
      apply elem_of_map_to_list, Hconv in Hj as [? ?]. by eapply Hi.
  - apply NoDup_fst_map_to_list.
  - destruct (process_directory (sc_id c) (w_disk w)) as [pd|]; [|injection Hdur as <-; intros ? ?; by rewrite lookup_empty].
    eapply collect_durable_fold; [exact Hdur|]. intros ? ?. by rewrite lookup_empty.
Qed.
End exec_recovery.

(** A running exec process whose driver was replaced. *)
Definition exec_world : World :=
  run_calls [CallPrepareExec (exec_of "op-exec" "web" "sh"); CallCompleteExec "op-exec" 77 false]
    started_world.
Definition observed_shell : ProcessRecord :=
  mkProcessRecord (mkProcessTarget (target_exact "web" 1) "sh") (Some 99) false.

Lemma exec_recovery_rebinds_witness :
  rebound observed_shell (process_record (pr_target observed_shell)
    (w_disk (observe_recreated_exec_processes (target_exact "web" 1) [observed_shell] exec_world).2)).
Proof.
  destruct (observe_recreated_exec_processes (target_exact "web" 1) [observed_shell] exec_world)
    as [[[]|e] w'] eqn:H;
    [|exfalso; apply (f_equal (λ x, is_ok x.1)) in H; vm_compute in H; discriminate H].
  apply (proj1 (exec_recovery_rebinds _ _ _ _ H) observed_shell). left.
Defined.
