(* ===== verification/Findings.v ===== *)
(** * Recorded executions of defects

    Each is a complete run of the modelled store in the concrete environment:
    the state that is reached, what the runtime does with it, and the contrast
    that shows what it means to do. *)

From stdpp Require Import base gmap strings list.
From S2P Require Import Prelude Sdk Identifiers Lifecycle Fault OciState Contracts StoreModel Disk.
From S2P Require Import RestoreContract Journal.
From S2P Require Import Events Claims Create Start Kill Freezer Update ProcessStore ProcessIoStore.
From S2P Require Import FileStore CheckpointStore RestoreStore AttestationStore Delete Observe.
From S2P Require Import StartupAudit Machine Refine RefineOps RefineProcess RefineContracts Store.
From S2P Require Import AuditCorrect Scenario Replay.
Local Open Scope string_scope.
Local Open Scope Z_scope.

Definition error_code {A} (r : Result A) : option ErrorCode :=
  match r with Ok _ => None | Err e => Some (code e) end.

(** ** An interrupted re-creation blocks startup *)

(** Creating "web", stopped by the [n]-th checkpoint. *)
Definition interrupted_create (o : string) (n : nat) (w : World) : World :=
  (run_call (CallPrepareCreate (create_of o "web") NativeLinux None) (arm n w)).2.


(** ** A stale create revives an old generation *)

(** A create is cut after it was journaled for generation 1, before its
    directory; a second create of the ID takes generation 2, lives and is
    deleted; a retry of the first then succeeds for generation 1 although the
    durable counter is 2, and the root does not open again. *)
Theorem stale_create_revives_old_generation :
  let w1 := interrupted_create "op-old" 13 fresh_world in
  let w2 := run_calls life_calls w1 in
  let '(r, w3) := run_call (CallPrepareCreate (create_of "op-old" "web") NativeLinux None) w2 in
  audit_startup_state (w_disk w2) = Ok () ∧
  last_gen "web" (w_disk w2) = 2 ∧ live_record "web" (w_disk w2) = None ∧
  is_ok r = true ∧ summary "web" (w_disk w3) = Some (Creating, None, 1) ∧
  error_code (audit_startup_state (w_disk w3)) = Some FailedPrecondition.
Proof. vm_compute. split_and!; reflexivity. Qed.

(** ** A pending process transaction blocks deletion *)

Definition shell_target : ProcessTarget := mkProcessTarget (target_exact "web" 1) "sh".

(** The exit of an exec process, recorded under an injector armed at [n]. *)
Definition shell_exits (n : nat) : World :=
  (run_call (CallCompleteWait shell_target (mkExitStatus (Some 0) None false))
     (arm n (run_calls [CallPrepareExec (exec_of "op-exec" "web" "sh");
                        CallCompleteExec "op-exec" 77 false] started_world))).2.

(** When the write of a process record is cut between the creation and the
    rename of its temporary file, the runtime restarts (the audit skips the
    temporary file) but the container, stopped, cannot be deleted: the fence of
    [prepare_delete] rejects the temporary file as an unexpected entry, with an
    error that is not retryable.  Cut just before the temporary file is created,
    or after the rename, deletion proceeds. *)
Theorem pending_process_write_blocks_delete :
  let stopped n := run_calls stop_calls (shell_exits n) in
  let deletion n := (run_call (CallPrepareDelete (delete_of "op-delete" "web")) (stopped n)).1 in
  audit_startup_state (w_disk (stopped 21%nat)) = Ok () ∧
  error_code (deletion 21%nat) = Some FailedPrecondition ∧
  error_code (deletion 20%nat) = None ∧ error_code (deletion 27%nat) = None.
Proof. vm_compute. split_and!; reflexivity. Qed.

(** ** A refreshed deadline is another request *)

(** A prepare of a checkpoint, a restore or an attestation, retried with the
    deadline of the second caller. *)
Definition retried_with (c c' : StoreCall) (w : World) : Result StoreReply :=
  (run_call c' (run_calls [c] w)).1.

(** The digest of a request leaves its deadline out, so that a retry may carry
    a new one; a start retried under a new deadline resumes.  A checkpoint, a
    restore and an attestation also compare the whole retained request: the
    same retry is refused there as another use of the operation ID. *)
Theorem refreshed_deadline_refused :
  let fresh_start d := CallPrepareStart (mkStartRequest (mkOperationContext "op-start" d)
                         (target_current "web")) in
  let checkpoint d := CallPrepareCheckpoint (checkpoint_of "op-ckpt" d) in
  let restore d := CallPrepareRestore (restore_of "op-restore" "copy" d (demo_reference "web" 1))
                     NativeLinux in
  let attest d := CallPrepareAttestation (attest_of "op-attest" d) in
  let vm := run_calls tee_calls fresh_world in
  call_digests (checkpoint None) = call_digests (checkpoint (Some 9000)) ∧
  call_digests (restore None) = call_digests (restore (Some 9000)) ∧
  call_digests (attest None) = call_digests (attest (Some 9000)) ∧
  error_code (retried_with (fresh_start None) (fresh_start (Some 9000))
    (run_calls create_calls fresh_world)) = None ∧
  error_code (retried_with (checkpoint None) (checkpoint None) paused_world) = None ∧
  error_code (retried_with (checkpoint None) (checkpoint (Some 9000)) paused_world)
    = Some FailedPrecondition ∧
  error_code (retried_with (restore None) (restore None) fresh_world) = None ∧
  error_code (retried_with (restore None) (restore (Some 9000)) fresh_world)
    = Some FailedPrecondition ∧
  error_code (retried_with (attest None) (attest None) vm) = None ∧
  error_code (retried_with (attest None) (attest (Some 9000)) vm) = Some FailedPrecondition.
Proof. vm_compute. split_and!; reflexivity. Qed.

(** ** A restore that can only fail is committed first *)

(** A checkpoint of generation 3 of an ID, restored under the same ID in a root
    that never held it, reserves generation 1.  The rule that a restore must be
    newer than its same-ID source is applied to the response, after the record
    was committed as running and its events were published: the completion
    fails and leaves the operation prepared beside a live, unclaimed, running
    container, and so does its retry; the root still opens. *)
Theorem stale_restore_committed_before_check :
  let request := CallPrepareRestore (restore_of "op-restore" "web" None (demo_reference "web" 3))
                   NativeLinux in
  let '(r1, w1) := run_call request fresh_world in
  let '(r2, w2) := run_call (CallCompleteRestore "op-restore" 77) w1 in
  let '(r3, w3) := run_call request w2 in
  let '(r4, w4) := run_call (CallCompleteRestore "op-restore" 77) w3 in
  is_ok r1 = true ∧ error_code r2 = Some InvalidArgument ∧
  summary "web" (w_disk w2) = Some (Running, Some 77, 1) ∧
  (sc_active_operation <$> live_record "web" (w_disk w2)) = Some None ∧
  (so_outcome <$> d_operations (w_disk w2) !! "op-restore") = Some Prepared ∧
  is_ok r3 = true ∧ error_code r4 = Some InvalidArgument ∧
  audit_startup_state (w_disk w4) = Ok ().
Proof. vm_compute. split_and!; reflexivity. Qed.
